(* ===== verification/_CoqProject ===== *)
-Q . S2P
Prelude.v
RustStd.v
Arrow.v
WriterTypes.v
Types.v
DuckdbCast.v
ChangeLedger.v
Conflicts.v
ChangeDetection.v
PathResolver.v
CatalogVersion.v
Calendar.v
StatsOrder.v
FloatText.v
StatsRollup.v
Partition.v
PartitionSplit.v
RowIds.v
WriterChecks.v
DeleteMemo.v
DeleteScan.v
RowLineage.v
FilePruning.v
ColumnTrees.v
SortSpec.v
InlinedTypes.v
CatalogDb.v
CatalogSnapshots.v
CatalogTables.v
CatalogCommits.v
CatalogAdmin.v
CatalogReads.v
CatalogHistory.v
CatalogInit.v
CatalogIds.v
CatalogViews.v
CatalogTimeTravel.v
Intervals.v
DoubleCast.v
PartitionCounts.v
CatalogSettings.v
CatalogExpiry.v
FileCleanup.v
SharedCleanup.v
ReadMemo.v
Restore.v
Compaction.v
MergeAdjacent.v
InlinedFilter.v
