(* ===== verification/Prelude.v ===== *)
(** * Verification of the DuckLake catalog extension for DataFusion

    The crate under [src/src/] reads and writes DuckLake tables: a SQL database
    holds the catalog (snapshots, schemas, tables, data files, delete files,
    statistics, inlined rows), an object store holds Parquet files, and DataFusion
    plans the queries. A write stages files, checks that no snapshot since its base
    conflicts with it, reserves ids, allocates row ids, widens the table's
    statistics and records its changes as text in [changes_made]; readers open a
    snapshot, resolve paths, prune files, apply deletes and compute row ids; change
    detection reads the [changes_made] texts back; maintenance expires snapshots and
    deletes the files no snapshot reads.

    ** Files, and the code each models

    Shared:
    - [Prelude]: text, the error type ([error.rs]), the [Result] monad, machine
      integers, the tactics [breflect], [case_if], [result_inv], generic lemmas
      and the hint database [ducklake].
    - [RustStd]: the part of Rust's [str], integer formatting and parsing the code
      uses. [Arrow]: the data types the code matches on and an abstract batch.
    - [WriterTypes]: the write-side structs of [metadata_writer.rs].

    Texts and types:
    - [Types]: [types.rs], type texts and promotions. [DuckdbCast], [DoubleCast]:
      [duckdb_cast.rs], DuckDB's casts of texts to integers, booleans and doubles,
      and memory limits. [Intervals]: the interval parser of [maintenance.rs] and
      the cutoffs it gives.
    - [ChangeLedger]: printing and splitting [changes_made]
      ([snapshot_change_tokens], [table_storage_changes], [quote_snapshot_name],
      [TableChanges], ... of [metadata_writer.rs] and [metadata_provider.rs]).
    - [PathResolver]: [path_resolver.rs] and the directories of
      [metadata_writer.rs]. [CatalogVersion]: [catalog_version.rs].
    - [Calendar], [StatsOrder], [FloatText], [StatsRollup]: [stats_encode.rs]: date
      and timestamp texts, the comparison of stored bounds, float texts, and the
      roll-up of file statistics to table statistics.
    - [ColumnTrees]: columns as rows of the catalog and their ids through schema
      changes ([metadata_writer.rs], [metadata_provider.rs]). [SortSpec]:
      [sort.rs]. [InlinedTypes]: [nested_inline.rs].

    Decisions of a write:
    - [Conflicts]: [table_conflict], [staged_conflict],
      [inlined_flush_table_conflict], [inlined_deletion_conflict] and the conflict
      texts a retry recognises.
    - [RowIds]: [allocate_row_id_start] and [enforce_partition_fence]
      ([metadata_writer.rs]) in a commit loop, and a table's history of commits.
    - [WriterChecks]: name validation, scoped settings, reserved table ids, the
      index-column setting and flush validation of [metadata_writer.rs].
    - [Partition], [PartitionSplit]: [partition.rs]: transforms, specs, Hive paths,
      the bounds a year value implies, and splitting batches by partition.

    The catalog, as [metadata_writer_duckdb.rs] writes it and
    [metadata_provider_duckdb.rs] reads it:
    - [CatalogDb]: the tables as a record of row lists, transactions as a state and
      error monad [Tx] whose [run] rolls back on an error.
    - [CatalogSnapshots], [CatalogTables], [CatalogCommits], [CatalogAdmin],
      [CatalogInit], [CatalogSettings]: the writer's operations: ids and the
      snapshot row, a commit's work on one table, the commits, write setup and
      specs and expiry, new and migrated catalogs, options.
    - [CatalogReads]: the reads at a snapshot.
    - [CatalogHistory], [CatalogIds], [CatalogViews], [CatalogTimeTravel],
      [CatalogExpiry]: the proofs: what a commit leaves of the past, what a
      reservation gives, reads as functions of a snapshot's view, and what every
      operation and expiry leave of every snapshot.
    - [FileCleanup], [SharedCleanup]: [maintenance.rs] on an object store, for one
      catalog and for a store several catalogs share ([multicatalog.rs]).
    - [Restore]: [restore.rs] up to its commit: the checks, the comparison of the
      columns, and the diff of the rows of two snapshots.
    - [Compaction], [MergeAdjacent]: [compaction.rs]: the merge of adjacent files
      from its candidates to its commit, and the proof of what it keeps.

    Scans:
    - [FilePruning]: [stats_filter.rs]: lowering a predicate to conditions on file
      statistics and rendering them, as condition trees.
    - [DeleteMemo]: [delete_memo.rs]. [DeleteScan]: [lazy_delete_filter.rs],
      [delete_filter.rs], [snapshot_filter.rs]. [RowLineage]: [row_lineage.rs],
      [row_id.rs].
    - [InlinedFilter]: [inlined_filter.rs]: filters pushed into scans of inlined
      rows, their SQL in four dialects, and what it means.
    - [PartitionCounts]: [partition_counts.rs], with the SQLite reading of its facts.
    - [ReadMemo]: [catalog_read_memo.rs], as concurrent programs over any provider.
    - [ChangeDetection]: [change_detection.rs] over a catalog history.

    ** How the parts meet

    [Conflicts] reads the texts [ChangeLedger] prints, and its theorems are stated
    against an abstract conflict matrix, so that printing, splitting and matching
    are proved together. [ChangeDetection] reads the same texts and is proved
    against what a staged write printed. [StatsRollup] needs of a column type only
    the class [BoundSpelling] of [StatsOrder], whose instances rest on [Calendar]
    and the decimal texts. [PartitionSplit] and [DeleteScan] see Arrow through the
    classes [ArrowKernels] and [ScanArrow]; the documented behaviour of the kernels
    they rely on is a hypothesis of the theorems, and a list-based instance shows
    that it can hold. [RowLineage] composes [DeleteScan]'s batches with [RowIds]'
    history: the ids a scan computes are those the commits issued. [FilePruning]
    assumes of a file's statistics what [StatsRollup] calls [file_sound], and of a
    column's values only [BoundSpelling]. The catalog operations call the decisions
    above them (conflicts, row ids, column trees, roll-ups, checks) the way the
    writer does; [InlineValues] and [SortParser] are what they take from outside
    (the values of inlined rows, the parser of sort expressions). [FileCleanup]
    composes expiry, the resolved paths of [PathResolver] and an object store given
    by the classes [UrlLibrary], [ObjectPaths] and [ObjectStore] with their laws.
    [PartitionCounts] relates its counts to the deletes and rows a scan of the same
    catalog returns. [ReadMemo] sees its provider through [ScanProvider], with the
    promises of the provider as [HeadFixesReads]. [Restore] compares the rows
    [PartitionCounts] says a scan returns, with the store's files as [FileReads].
    [Compaction] plans over [CatalogReads], reads and writes files through
    [CompactionIO], whose laws are [StoreLaws], and commits with
    [commit_compaction] of [CatalogCommits].

    ** What the theorems show

    - Time travel: over any sequence of writer calls that do not rewrite history,
      committed, refused or failed, every read at a committed snapshot stays the
      same, listings included; files are listed once; ids are never given twice;
      migration keeps every read; initialisation and upgrade give a catalog the
      writer opens.
    - Maintenance: expiry keeps every read of the snapshots that are left and loses
      track of no file; no sequence of expiry, cleanup and orphan cleanup deletes a
      file a kept snapshot reads; on a shared store no catalog deletes another's
      files.
    - Conflicts: a commit is refused exactly when the conflict matrix says so; two
      staged writes conflict exactly per the matrix over what they stage; other
      tables never conflict; the row-level check is exact; the texts a retry
      parses round-trip.
    - Change detection: a recorded or staged row change is always reported;
      expired snapshots in a window are noticed exactly; an untouched table is
      reported unchanged.
    - Row ids and scans: no id is issued twice; scanned ids are distinct; under
      every order of background reads and failures a scan emits exactly the rows
      not deleted; a published exact count is the number of rows emitted; an exact
      partition count is the number of rows a scan returns; the delete memo stays
      within its budget and only repeats what was read.
    - Read memo: under every interleaving of queries and commits the memo keeps
      reads of one head only, within its budget, and a query's reads never change;
      and the interleaving in which pinned reads lose rows
      ([late_absence_loses_rows]).
    - Restore: the diff of a head against an earlier snapshot removes and restores
      exactly the row versions that make the head's rows the earlier ones.
    - Compaction: a merge leaves at every snapshot the rows, row ids and origin
      snapshots it had, and right snapshot ranges; its outputs replace two or more
      files each.
    - Statistics: stored bounds compare as the values they stand for; every text
      reads back; the table-wide statistics stay right about every row through
      commits, inlined writes and recomputation; the calendar is the Gregorian one.
    - Columns, types and options: flattened columns rebuild; columns keep their ids
      through schema changes; type texts read back; casts stay in range; intervals
      never panic; an option reads back in the scopes it reaches.
    - Partitions: a split loses and duplicates no row; a transform survives the
      catalog; year bounds enclose their rows; Hive paths do not leave the table.
    - Pruning: a file with a row the predicate is true of is never pruned, by
      missing, partial or unreadable statistics, nor for its NaNs; a filter pushed
      into a scan of inlined rows drops no row it is true of, but for a [LIKE] whose
      backslash no escape character accounts for ([bare_backslash_loses_rows]).
    - Paths and versions: resolved paths stay below their base and in their store;
      the exact set of accepted paths, and the inputs on which validation panics;
      which releases may read, write and migrate a catalog.

    ** Bounds and fuel

    [show_u] prints with one step of fuel per binary digit, proved enough
    ([digits_of_parse]); [strip_ws] strips white space with the text's length;
    [unique_row_pos_name] takes one step more than the names taken, proved enough;
    [parse_parts] takes one step more than the text's length, proved enough by
    [intervals_never_panic]; the cast loops of [DuckdbCast] take the text's length;
    [resolve_paths] of [ColumnTrees] takes as many passes as there are rows, and the
    types of columns nest at most 128 levels, the code's own limit;
    [fill_listing] takes the pages the budget has bytes for, proved enough
    ([listing_pages_enough]); [pack_bins] takes a step for each candidate, proved
    enough ([pack_bins_concat]); the ten attempts of [fill_from] are the code's.
    Every other recursion is structural. Integers are [Z]; where the code's width
    matters the operation says so ([saturating_i64], [checked_i64], [add_i64],
    [usize_add]).

    ** Not modelled

    The writers and providers of the other four databases, but for the statements
    named above: they run the operations of the DuckDB writer in other SQL.
    DataFusion plan construction ([table.rs], [sql.rs], [insert_exec.rs], ...), the
    conversion of Arrow values to and from catalog rows, the change feeds, Parquet
    and object-store I/O ([table_writer.rs], [stats_collect.rs], the commit of
    [restore.rs]), the rewrite of files with deletions, the checkpoint and the
    flush before a merge ([compaction.rs]), encryption, [fork.rs] and the information schema, which are calls
    into their libraries. Of
    [stats_filter.rs], the partition prefilters and the soundness of float windows;
    of [partition.rs], the bounds of the transforms other than the year; of
    [multicatalog.rs], the creation, the drop and the expiry of a catalog. *)

From stdpp Require Export base gmap strings list sorting.
From Stdlib Require Export Ascii ZArith Lia.

(** ** Text

    A Rust [&str] or [String] is a sequence of UTF-8 bytes; the model keeps the
    bytes. A string literal of the source is written as it is there and coerced
    by [lit]. *)

Abbreviation str := (list ascii).

Definition lit (s : String.string) : str := String.list_ascii_of_string s.
Coercion lit : String.string >-> list.
#[global] Arguments lit s : simpl never.

Declare Scope ducklake_scope.
Delimit Scope ducklake_scope with dl.

#[global] Open Scope string_scope.
#[global] Open Scope list_scope.
#[global] Open Scope Z_scope.
#[global] Open Scope ducklake_scope.

(** ** Errors and the [Result] monad

    The crate's own error variants, whose payload is the message the code
    formats. [External] stands for the variants that wrap an error of a
    dependency ([DataFusion], [Arrow], [Sqlx], [ObjectStore], ...). *)

Inductive DuckLakeError :=
| CatalogNotFound (message : str)
| SchemaNotFound (message : str)
| TableNotFound (message : str)
| InvalidSnapshot (message : str)
| InvalidConfig (message : str)
| UnsupportedTypeChange (operation column from to : str)
| UnsupportedType (message : str)
| Unsupported (message : str)
| MigrationRequired (message : str)
| Conflict (message : str)
| Internal (message : str)
| External (message : str).

Inductive result (A : Type) :=
| Ok (a : A)
| Err (e : DuckLakeError).
Arguments Ok {A} a.
Arguments Err {A} e.

Definition result_bind {A B} (m : result A) (k : A -> result B) : result B :=
  match m with
  | Ok a => k a
  | Err e => Err e
  end.

Notation "'let?' x := m 'in' k" := (result_bind m (fun x => k))
  (at level 10, x pattern, m at level 200, k at level 200)
  : ducklake_scope.

(** A call that may also panic: an index out of range, a slice inside a character,
    an [expect] of nothing. *)
Inductive outcome (A : Type) :=
| Returns (r : result A)
| Panics.
Arguments Returns {A} r.
Arguments Panics {A}.

Definition outcome_bind {A B} (m : outcome A) (k : A -> outcome B) : outcome B :=
  match m with
  | Returns (Ok a) => k a
  | Returns (Err e) => Returns (Err e)
  | Panics => Panics
  end.

Notation "'let!' x := m 'in' k" := (outcome_bind m (fun x => k))
  (at level 10, x pattern, m at level 200, k at level 200) : ducklake_scope.

(** A value the code indexes or unwraps. *)
Definition or_panic {A} (o : option A) : outcome A :=
  match o with Some a => Returns (Ok a) | None => Panics end.

Definition is_ok {A} (m : result A) : bool :=
  match m with Ok _ => true | Err _ => false end.

(** [Option::ok_or_else]. *)
Definition ok_or {A} (o : option A) (e : DuckLakeError) : result A :=
  match o with Some a => Ok a | None => Err e end.

(** [Option::or_else]. *)
Definition or_else {A} (o o' : option A) : option A :=
  match o with Some _ => o | None => o' end.

(** [Iterator::map(f).collect::<Result<Vec<_>>>()]: the first error wins. *)
Fixpoint mapM_result {A B} (f : A -> result B) (l : list A) : result (list B) :=
  match l with
  | [] => Ok []
  | x :: l' => let? y := f x in let? ys := mapM_result f l' in Ok (y :: ys)
  end.

(** ** Machine integers *)

Definition i64_max : Z := 9223372036854775807.
Definition i64_min : Z := -9223372036854775808.
Definition i32_max : Z := 2147483647.
Definition u64_max : Z := 18446744073709551615.
Definition u32_max : Z := 4294967295.

Definition in_i64 (z : Z) : bool := (i64_min <=? z) && (z <=? i64_max).
Definition in_u64 (z : Z) : bool := (0 <=? z) && (z <=? u64_max).

Definition i128_max : Z := 170141183460469231731687303715884105727.
Definition i128_min : Z := -170141183460469231731687303715884105728.
Definition in_i128 (z : Z) : bool := (i128_min <=? z) && (z <=? i128_max).

(** The exact result of a [checked_*] or [saturating_*] operation, brought back
    into the type. *)
Definition checked_i64 (z : Z) : option Z := if in_i64 z then Some z else None.
Definition checked_i128 (z : Z) : option Z := if in_i128 z then Some z else None.
Definition saturating_i64 (z : Z) : Z := Z.max i64_min (Z.min i64_max z).

(** ** Tactics *)

(** Case analysis on the scrutinee of an [if] or [match] of the goal or of a
    hypothesis, keeping the equation. *)
Ltac case_if :=
  match goal with
  | |- context [if ?b then _ else _] => let E := fresh "E" in destruct b eqn:E
  | H : context [if ?b then _ else _] |- _ => let E := fresh "E" in destruct b eqn:E
  end.

(** Boolean hypotheses and goals over [Z], [nat] and decidable propositions,
    turned into propositions. *)
Ltac breflect :=
  repeat match goal with
  | H : negb _ = true |- _ => apply negb_true_iff in H
  | H : negb _ = false |- _ => apply negb_false_iff in H
  | H : andb _ _ = true |- _ => apply andb_true_iff in H; destruct H
  | H : orb _ _ = false |- _ => apply orb_false_iff in H; destruct H
  | H : orb _ _ = true |- _ => apply orb_true_iff in H
  | H : andb _ _ = false |- _ => apply andb_false_iff in H
  | H : bool_decide _ = true |- _ => apply bool_decide_eq_true in H
  | H : bool_decide _ = false |- _ => apply bool_decide_eq_false in H
  | H : Z.eqb _ _ = true |- _ => apply Z.eqb_eq in H
  | H : Z.eqb _ _ = false |- _ => apply Z.eqb_neq in H
  | H : Z.ltb _ _ = true |- _ => apply Z.ltb_lt in H
  | H : Z.ltb _ _ = false |- _ => apply Z.ltb_ge in H
  | H : Z.leb _ _ = true |- _ => apply Z.leb_le in H
  | H : Z.leb _ _ = false |- _ => apply Z.leb_gt in H
  end.

(** Peel a successful [let?] chain. *)
Ltac result_inv :=
  repeat match goal with
  | H : result_bind ?m _ = Ok _ |- _ =>
      let E := fresh "E" in destruct m eqn:E; cbn [result_bind] in H; [|discriminate H]
  | H : Ok _ = Ok _ |- _ => injection H as H
  | H : Err _ = Ok _ |- _ => discriminate H
  | H : Ok _ = Err _ |- _ => discriminate H
  end; simplify_eq/=.

Create HintDb ducklake.

(** ** Lists *)

Lemma result_bind_ok {A B} (m : result A) (k : A -> result B) b :
  result_bind m k = Ok b <-> exists a, m = Ok a /\ k a = Ok b.
Proof. destruct m; simpl; naive_solver. Qed.

Lemma mapM_result_ok {A B} (f : A -> result B) l ys :
  mapM_result f l = Ok ys <-> Forall2 (fun x y => f x = Ok y) l ys.
Proof.
  revert ys; induction l as [|x l IH]; intros ys; simpl.
  - split; [intros [= <-]; constructor | by inversion 1].
  - rewrite result_bind_ok. split.
    + intros (y & Hy & H). apply result_bind_ok in H as (ys' & Hys & [= <-]).
      constructor; [done | by apply IH].
    + inversion 1 as [|? y ? ys' Hy Hys]; subst. exists y. split; [done|].
      apply result_bind_ok. exists ys'. split; [by apply IH | done].
Qed.

Lemma existsb_false_iff {A} (p : A -> bool) l :
  existsb p l = false <-> Forall (fun x => p x = false) l.
Proof.
  induction l as [|x l IH]; simpl; [split; auto|].
  rewrite orb_false_iff, IH, Forall_cons. done.
Qed.

Lemma forallb_Forall {A} (p : A -> bool) l :
  forallb p l = true <-> Forall (fun x => p x = true) l.
Proof.
  induction l as [|x l IH]; simpl; [split; auto|].
  rewrite andb_true_iff, IH, Forall_cons. done.
Qed.

Lemma length_filter_fmap {A B} (f : A -> B) (P : B -> Prop) (Q : A -> Prop)
  `{!forall x, Decision (P x)} `{!forall x, Decision (Q x)} l :
  Forall (fun x => P (f x) <-> Q x) l ->
  length (filter P (f <$> l)) = length (filter Q l).
Proof.
  induction 1 as [|x l Hx _ IH]; [done|]. cbn [fmap list_fmap].
  rewrite !filter_cons. do 2 case_decide; cbn [length]; naive_solver.
Qed.

(** [Iterator::find]. *)
Fixpoint find_first {A} (p : A -> bool) (l : list A) : option A :=
  match l with
  | [] => None
  | x :: l' => if p x then Some x else find_first p l'
  end.

(** [Iterator::position]. *)
Fixpoint position {A} (p : A -> bool) (l : list A) : option nat :=
  match l with
  | [] => None
  | x :: l' => if p x then Some 0%nat else S <$> position p l'
  end.

(** [Iterator::find_map]. *)
Fixpoint find_map {A B} (f : A -> option B) (l : list A) : option B :=
  match l with
  | [] => None
  | x :: l' => match f x with Some b => Some b | None => find_map f l' end
  end.

Lemma find_first_some {A} (p : A -> bool) l x :
  find_first p l = Some x -> x ∈ l /\ p x = true.
Proof.
  induction l as [|y l IH]; simpl; [done|].
  destruct (p y) eqn:E; [intros [= ->]; split; [constructor|done]|].
  intros H. apply IH in H as [??]. split; [by constructor|done].
Qed.

Lemma find_first_none {A} (p : A -> bool) l :
  find_first p l = None <-> Forall (fun x => p x = false) l.
Proof.
  induction l as [|y l IH]; simpl; [split; auto|].
  rewrite Forall_cons. destruct (p y); naive_solver.
Qed.

Lemma find_map_none {A B} (f : A -> option B) l :
  find_map f l = None <-> Forall (fun x => f x = None) l.
Proof.
  induction l as [|y l IH]; simpl; [split; auto|].
  rewrite Forall_cons. destruct (f y); naive_solver.
Qed.

Lemma find_map_is_some {A B} (f : A -> option B) l :
  is_Some (find_map f l) <-> Exists (fun x => is_Some (f x)) l.
Proof.
  induction l as [|y l IH]; simpl.
  - split; [by intros [? ?] | by inversion 1].
  - rewrite Exists_cons. destruct (f y); [naive_solver|].
    rewrite IH. split; [auto|]. intros [[? ?]|?]; [done|auto].
Qed.

(** The last element, and [Iterator::max] of integers. *)
Definition max_list (l : list Z) : option Z :=
  match l with
  | [] => None
  | x :: l' => Some (foldl Z.max x l')
  end.

Lemma foldl_max_ge l : forall a, a <= foldl Z.max a l.
Proof. induction l as [|x l IH]; intros a; simpl; [lia|]. specialize (IH (Z.max a x)). lia. Qed.

Lemma foldl_max_elem l : forall a x, x ∈ l -> x <= foldl Z.max a l.
Proof.
  induction l as [|y l IH]; intros a x; simpl; [by inversion 1|].
  intros [->|H]%elem_of_cons; [|by apply IH].
  pose proof (foldl_max_ge l (Z.max a y)). lia.
Qed.

#[export] Hint Resolve foldl_max_ge foldl_max_elem : ducklake.

Lemma position_spec {A} (p : A -> bool) l i :
  position p l = Some i
  <-> exists x, l !! i = Some x /\ p x = true /\ forall j y, (j < i)%nat -> l !! j = Some y -> p y = false.
Proof.
  revert i; induction l as [|a l IH]; intros i; cbn [position].
  { split; [done|]. intros (x & Hx & _). by rewrite lookup_nil in Hx. }
  destruct (p a) eqn:E.
  - split.
    + intros [= <-]. exists a. repeat split; try done. lia.
    + intros (x & Hx & Hp & Hfirst). destruct i as [|i]; [done|].
      specialize (Hfirst 0%nat a ltac:(lia) eq_refl). congruence.
  - split.
    + destruct (position p l) as [j|] eqn:Ej; [|done]. intros [= <-].
      destruct (proj1 (IH j) eq_refl) as (x & Hx & Hp & Hfirst). exists x. repeat split; try done.
      intros [|k] y Hk Hy; [cbn in Hy; congruence|]. apply (Hfirst k y); [lia|done].
    + intros (x & Hx & Hp & Hfirst). destruct i as [|i]; [cbn in Hx; congruence|].
      rewrite (proj2 (IH i)); [done|]. exists x. repeat split; try done.
      intros j y Hj Hy. apply (Hfirst (S j) y); [lia|done].
Qed.

Lemma forallb_false_Exists {A} (p : A -> bool) l :
  forallb p l = false <-> Exists (fun x => p x = false) l.
Proof.
  induction l as [|x l IH]; simpl; [split; [done|by inversion 1]|].
  rewrite andb_false_iff, IH, Exists_cons. done.
Qed.

Lemma filter_every {A} (P : A -> Prop) `{!forall x, Decision (P x)} (l : list A) :
  (forall x, x ∈ l -> P x) -> filter P l = l.
Proof.
  induction l as [|x l IH]; intros Hl; [done|]. rewrite filter_cons_True by (apply Hl; set_solver).
  f_equal. apply IH. intros y Hy. apply Hl. set_solver.
Qed.

Lemma filter_none {A} (P : A -> Prop) `{!forall x, Decision (P x)} (l : list A) :
  (forall x, x ∈ l -> ~ P x) -> filter P l = [].
Proof.
  induction l as [|x l IH]; intros Hl; [done|]. rewrite filter_cons_False by (apply Hl; set_solver).
  apply IH. intros y Hy. apply Hl. set_solver.
Qed.
