(* ===== verification/RustStd.v ===== *)
(** * The part of Rust's standard library the modelled code uses

    Strings are UTF-8 byte sequences ([str] of [Prelude]). Every pattern the
    code searches for is ASCII, and an ASCII byte never occurs inside a
    multi-byte character, so searching, splitting and case folding by byte is
    what [str]'s methods do. [trim] knows the multi-byte encodings of the
    characters with the Unicode [White_Space] property. *)

From S2P Require Import Prelude.

(** ** Characters *)

Definition byte_val (c : ascii) : Z := Z.of_N (N_of_ascii c).
Definition chr (z : Z) : ascii := ascii_of_N (Z.to_N z).

Definition is_ascii_digit (c : ascii) : bool :=
  (48 <=? byte_val c) && (byte_val c <=? 57).
Definition is_ascii_uppercase (c : ascii) : bool :=
  (65 <=? byte_val c) && (byte_val c <=? 90).
Definition is_ascii_lowercase (c : ascii) : bool :=
  (97 <=? byte_val c) && (byte_val c <=? 122).
Definition is_ascii_alphabetic (c : ascii) : bool :=
  is_ascii_uppercase c || is_ascii_lowercase c.
Definition is_ascii_alphanumeric (c : ascii) : bool :=
  is_ascii_alphabetic c || is_ascii_digit c.
Definition is_ascii_control (c : ascii) : bool :=
  (byte_val c <=? 31) || (byte_val c =? 127).

Definition char_to_lower (c : ascii) : ascii :=
  if is_ascii_uppercase c then chr (byte_val c + 32) else c.
Definition to_ascii_lowercase (s : str) : str := char_to_lower <$> s.
Definition eq_ignore_ascii_case (a b : str) : bool :=
  bool_decide (to_ascii_lowercase a = to_ascii_lowercase b).

Definition char_eqb (a b : ascii) : bool := bool_decide (a = b).
Definition str_eqb (a b : str) : bool := bool_decide (a = b).

(** [str::is_char_boundary]: the index is an end of the string or does not
    point at a UTF-8 continuation byte. *)
Definition is_char_boundary (s : str) (i : nat) : bool :=
  match s !! i with
  | Some c => negb ((128 <=? byte_val c) && (byte_val c <=? 191))
  | None => (i =? length s)%nat
  end.

(** [Ord] for [str]: lexicographic by byte. *)
Fixpoint str_cmp (a b : str) : comparison :=
  match a, b with
  | [], [] => Eq
  | [], _ :: _ => Lt
  | _ :: _, [] => Gt
  | c :: a', d :: b' =>
      match byte_val c ?= byte_val d with
      | Eq => str_cmp a' b'
      | ord => ord
      end
  end.

(** ** Searching *)

Fixpoint strip_prefix (p s : str) : option str :=
  match p, s with
  | [], _ => Some s
  | c :: p', d :: s' => if char_eqb c d then strip_prefix p' s' else None
  | _ :: _, [] => None
  end.

Definition starts_with (p s : str) : bool :=
  match strip_prefix p s with Some _ => true | None => false end.

Definition strip_suffix (p s : str) : option str :=
  reverse <$> strip_prefix (reverse p) (reverse s).

Definition ends_with (p s : str) : bool :=
  match strip_suffix p s with Some _ => true | None => false end.

(** [str::split_once] with a string pattern: the parts before and after its
    first occurrence. *)
Fixpoint split_once (p s : str) : option (str * str) :=
  match strip_prefix p s with
  | Some rest => Some ([], rest)
  | None =>
      match s with
      | [] => None
      | c :: s' => '(a, b) ← split_once p s'; Some (c :: a, b)
      end
  end.

Definition contains (p s : str) : bool :=
  match split_once p s with Some _ => true | None => false end.

(** [str::split] with a character predicate: every maximal run between
    separators, the empty ones included. *)
Fixpoint split_on (p : ascii -> bool) (s : str) : list str :=
  match s with
  | [] => [[]]
  | c :: s' =>
      if p c then [] :: split_on p s'
      else match split_on p s' with
           | t :: ts => (c :: t) :: ts
           | [] => [[c]]
           end
  end.

(** [str::trim_end_matches] of one character. *)
Fixpoint drop_while {A} (p : A -> bool) (l : list A) : list A :=
  match l with
  | [] => []
  | x :: l' => if p x then drop_while p l' else l
  end.

(** The longest prefix of a kind of byte, and the rest. *)
Fixpoint span (p : ascii -> bool) (s : str) : str * str :=
  match s with
  | c :: s' => if p c then let (a, b) := span p s' in (c :: a, b) else ([], s)
  | [] => ([], [])
  end.

Definition trim_end_matches (c : ascii) (s : str) : str :=
  reverse (drop_while (char_eqb c) (reverse s)).

(** [[String]::join]. *)
Fixpoint join (sep : str) (l : list str) : str :=
  match l with
  | [] => []
  | [x] => x
  | x :: l' => x ++ sep ++ join sep l'
  end.

(** [str::replace] of one character. *)
Definition replace_char (c : ascii) (by_ : str) (s : str) : str :=
  s ≫= (fun d => if char_eqb d c then by_ else [d]).

(** ** White space *)

(** Bytes of a white-space character at the head of a string, if it starts
    with one. *)
Definition ws_head (s : str) : option nat :=
  match byte_val <$> s with
  | b0 :: rest =>
      if ((9 <=? b0) && (b0 <=? 13)) || (b0 =? 32) then Some 1%nat
      else match rest with
      | b1 :: rest' =>
          if (b0 =? 194) && ((b1 =? 133) || (b1 =? 160)) then Some 2%nat
          else match rest' with
          | b2 :: _ =>
              if ((b0 =? 225) && (b1 =? 154) && (b2 =? 128))
                 || ((b0 =? 226) && (b1 =? 128)
                     && (((128 <=? b2) && (b2 <=? 138)) || (b2 =? 168)
                         || (b2 =? 169) || (b2 =? 175)))
                 || ((b0 =? 226) && (b1 =? 129) && (b2 =? 159))
                 || ((b0 =? 227) && (b1 =? 128) && (b2 =? 128))
              then Some 3%nat else None
          | [] => None
          end
      | [] => None
      end
  | [] => None
  end.

(** The same at the end of a string, given reversed. *)
Definition ws_tail (r : str) : option nat :=
  let one := ws_head (take 1 r) in
  let two := ws_head (reverse (take 2 r)) in
  let three := ws_head (reverse (take 3 r)) in
  if bool_decide (one = Some 1%nat) then Some 1%nat
  else if bool_decide (two = Some 2%nat) then Some 2%nat
  else if bool_decide (three = Some 3%nat) then Some 3%nat
  else None.

Fixpoint strip_ws (step : str -> option nat) (fuel : nat) (s : str) : str :=
  match fuel with
  | O => s
  | S f => match step s with Some n => strip_ws step f (drop n s) | None => s end
  end.

Definition trim_start (s : str) : str := strip_ws ws_head (length s) s.
Definition trim_end (s : str) : str :=
  reverse (strip_ws ws_tail (length s) (reverse s)).
Definition trim (s : str) : str := trim_end (trim_start s).

(** ** Integers *)

Definition digit (z : Z) : ascii := chr (48 + z).

Fixpoint digits_of (fuel : nat) (n : Z) (acc : str) : str :=
  match fuel with
  | O => acc
  | S f =>
      let acc' := digit (n mod 10) :: acc in
      if n <? 10 then acc' else digits_of f (n / 10) acc'
  end.

(** [Display] of an unsigned integer. A number has at most one decimal digit
    per binary digit, so the fuel is enough ([digits_of_parse]). *)
Definition show_u (n : Z) : str := digits_of (S (Z.to_nat (Z.log2 n))) n [].
(** [Display] of a signed integer. *)
Definition show_Z (n : Z) : str := if n <? 0 then "-" ++ show_u (- n) else show_u n.

Definition show_nat (n : nat) : str := show_Z (Z.of_nat n).

(** [{id:020}]: padded with zeros to the width. *)
Definition pad_zeros (width : nat) (s : str) : str :=
  replicate (width - length s) (chr 48) ++ s.

(** [{fraction:0<9}]: padded with zeros on the right. *)
Definition pad_zeros_right (width : nat) (s : str) : str :=
  s ++ replicate (width - length s) (chr 48).

Fixpoint parse_digits_from (acc : Z) (s : str) : option Z :=
  match s with
  | [] => Some acc
  | c :: s' =>
      if is_ascii_digit c then parse_digits_from (acc * 10 + (byte_val c - 48)) s' else None
  end.

Definition parse_nonempty (s : str) : option Z :=
  match s with [] => None | _ => parse_digits_from 0 s end.

(** [str::parse] for an unsigned type of the given maximum: an optional [+],
    then digits; a value past the maximum is an error. *)
Definition parse_unsigned (maximum : Z) (s : str) : option Z :=
  let body := match s with c :: s' => if char_eqb c "+" then s' else s | [] => s end in
  n ← parse_nonempty body; if n <=? maximum then Some n else None.

(** [str::parse] for a signed type: an optional [+] or [-], then digits. *)
Definition parse_signed (minimum maximum : Z) (s : str) : option Z :=
  let in_range n := if (minimum <=? n) && (n <=? maximum) then Some n else None in
  match s with
  | c :: s' =>
      if char_eqb c "-" then n ← parse_nonempty s'; in_range (- n)
      else if char_eqb c "+" then parse_nonempty s' ≫= in_range
      else parse_nonempty s ≫= in_range
  | [] => None
  end.

Definition parse_u64 : str -> option Z := parse_unsigned u64_max.
Definition parse_u32 : str -> option Z := parse_unsigned u32_max.
Definition parse_i64 : str -> option Z := parse_signed i64_min i64_max.
Definition parse_i128 : str -> option Z := parse_signed i128_min i128_max.

(** ** Lemmas *)

Lemma byte_val_range c : 0 <= byte_val c < 256.
Proof. unfold byte_val. pose proof (N_ascii_bounded c). lia. Qed.

Lemma byte_val_chr z : 0 <= z < 256 -> byte_val (chr z) = z.
Proof.
  intros H. unfold byte_val, chr. rewrite N_ascii_embedding by lia. lia.
Qed.

Lemma char_eqb_refl c : char_eqb c c = true.
Proof. unfold char_eqb. by rewrite bool_decide_true. Qed.

Lemma char_eqb_eq c d : char_eqb c d = true <-> c = d.
Proof. apply bool_decide_eq_true. Qed.

Lemma char_eqb_neq c d : char_eqb c d = false <-> c <> d.
Proof. apply bool_decide_eq_false. Qed.

Lemma byte_val_inj c d : byte_val c = byte_val d -> c = d.
Proof.
  unfold byte_val. intros H. rewrite <- (ascii_N_embedding c), <- (ascii_N_embedding d).
  f_equal. lia.
Qed.

Lemma digit_is_digit z : 0 <= z < 10 -> is_ascii_digit (digit z) = true.
Proof. intros H. unfold is_ascii_digit, digit. rewrite byte_val_chr by lia. lia. Qed.

Lemma digits_of_spec f : forall n acc a,
  0 <= n < 10 ^ Z.of_nat f ->
  exists k, parse_digits_from a (digits_of f n acc) = parse_digits_from (a * 10 ^ Z.of_nat k + n) acc
            /\ (f = 0%nat \/ (0 < k)%nat).
Proof.
  induction f as [|f IH]; intros n acc a Hn.
  - exists 0%nat. simpl in *. split; [f_equal; lia | auto].
  - simpl. pose proof (Z.mod_pos_bound n 10 ltac:(lia)) as Hm.
    pose proof (Z.div_mod n 10 ltac:(lia)) as Hd.
    destruct (n <? 10) eqn:E; breflect.
    + exists 1%nat. split; [|right; lia]. cbn [parse_digits_from].
      rewrite digit_is_digit by done. unfold digit. rewrite byte_val_chr by lia.
      f_equal. rewrite Z.mod_small by lia. lia.
    + assert (0 <= n / 10 < 10 ^ Z.of_nat f) as Hlt.
      { split; [apply Z.div_pos; lia|]. apply Z.div_lt_upper_bound; [lia|].
        rewrite Nat2Z.inj_succ, Z.pow_succ_r in Hn by lia. lia. }
      destruct (IH (n / 10) (digit (n mod 10) :: acc) a Hlt) as (k & -> & _).
      exists (S k). split; [|right; lia]. cbn [parse_digits_from].
      rewrite digit_is_digit by done. unfold digit. rewrite byte_val_chr by lia.
      f_equal. rewrite Nat2Z.inj_succ, Z.pow_succ_r by lia. lia.
Qed.

Lemma digits_of_app f : forall n acc, digits_of f n acc = digits_of f n [] ++ acc.
Proof.
  induction f as [|f IH]; intros n acc; simpl; [done|].
  destruct (n <? 10); [done|].
  rewrite IH, (IH _ [_]), <- app_assoc. done.
Qed.

Lemma digits_of_digits f : forall n, 0 <= n ->
  Forall (fun c => is_ascii_digit c = true) (digits_of f n []).
Proof.
  induction f as [|f IH]; intros n Hn; simpl; [constructor|].
  pose proof (Z.mod_pos_bound n 10 ltac:(lia)).
  destruct (n <? 10).
  - repeat constructor. by apply digit_is_digit.
  - rewrite digits_of_app. apply Forall_app. split.
    + apply IH. apply Z.div_pos; lia.
    + repeat constructor. by apply digit_is_digit.
Qed.

Lemma log2_fuel n : 0 <= n -> n < 10 ^ Z.of_nat (S (Z.to_nat (Z.log2 n))).
Proof.
  intros Hn. destruct (decide (n = 0)) as [->|]; [done|].
  pose proof (Z.log2_spec n ltac:(lia)) as [_ Hlt].
  pose proof (Z.log2_nonneg n).
  rewrite Nat2Z.inj_succ, Z2Nat.id by lia.
  eapply Z.lt_le_trans; [exact Hlt|]. apply Z.pow_le_mono_l. lia.
Qed.

Lemma show_u_nonempty n : show_u n <> [].
Proof.
  unfold show_u. simpl. destruct (n <? 10); [done|]. rewrite digits_of_app.
  intros H. apply app_eq_nil in H as [_ H]. done.
Qed.

Lemma show_u_digits n : 0 <= n -> Forall (fun c => is_ascii_digit c = true) (show_u n).
Proof. apply digits_of_digits. Qed.

Lemma digits_of_parse n : 0 <= n -> parse_nonempty (show_u n) = Some n.
Proof.
  intros Hn. pose proof (show_u_nonempty n) as Hne.
  unfold parse_nonempty. destruct (show_u n) eqn:E; [done|]. rewrite <- E.
  unfold show_u.
  destruct (digits_of_spec (S (Z.to_nat (Z.log2 n))) n [] 0) as (k & -> & _).
  { split; [done | by apply log2_fuel]. }
  done.
Qed.

Lemma digit_not_sign c : is_ascii_digit c = true ->
  char_eqb c "-" = false /\ char_eqb c "+" = false.
Proof.
  intros H. unfold is_ascii_digit in H. breflect.
  assert (byte_val "-" = 45 /\ byte_val "+" = 43) as [] by done.
  split; apply char_eqb_neq; intros ->; lia.
Qed.

Lemma show_u_head n : 0 <= n ->
  exists c s, show_u n = c :: s /\ is_ascii_digit c = true.
Proof.
  intros Hn. pose proof (show_u_nonempty n) as Hne. pose proof (show_u_digits n Hn) as Hd.
  destruct (show_u n) as [|c s]; [done|]. inversion Hd; subst. eauto.
Qed.

(** Printing an unsigned or signed integer and parsing it back. *)
Lemma parse_show_u m n : 0 <= n <= m -> parse_unsigned m (show_u n) = Some n.
Proof.
  intros [Hn Hm]. destruct (show_u_head n Hn) as (c & s & E & Hc).
  unfold parse_unsigned. rewrite E. destruct (digit_not_sign c Hc) as [_ ->].
  rewrite <- E, digits_of_parse by done. simpl.
  by rewrite (proj2 (Z.leb_le n m) Hm).
Qed.

Lemma parse_show_Z lo hi n : lo <= n <= hi -> parse_signed lo hi (show_Z n) = Some n.
Proof.
  intros Hn. unfold show_Z. destruct (n <? 0) eqn:E; breflect.
  - unfold parse_signed; simpl. rewrite digits_of_parse by lia. simpl.
    replace (- - n) with n by lia.
    by rewrite (proj2 (Z.leb_le _ _) (proj1 Hn)), (proj2 (Z.leb_le _ _) (proj2 Hn)).
  - destruct (show_u_head n E) as (c & s & Es & Hc). unfold parse_signed. rewrite Es.
    destruct (digit_not_sign c Hc) as [-> ->]. rewrite <- Es, digits_of_parse by done. simpl.
    by rewrite (proj2 (Z.leb_le _ _) (proj1 Hn)), (proj2 (Z.leb_le _ _) (proj2 Hn)).
Qed.

Lemma parse_show_i64 n : in_i64 n = true -> parse_i64 (show_Z n) = Some n.
Proof. unfold in_i64. intros H. breflect. by apply parse_show_Z. Qed.

(** What the printed digits cannot contain. *)
Lemma show_Z_chars n :
  Forall (fun c => is_ascii_digit c = true \/ c = "-"%char) (show_Z n).
Proof.
  unfold show_Z. destruct (n <? 0) eqn:E; breflect.
  - constructor; [by right|]. eapply Forall_impl; [apply show_u_digits; lia|]. auto.
  - eapply Forall_impl; [by apply show_u_digits|]. auto.
Qed.

Lemma show_Z_not_in n c :
  is_ascii_digit c = false -> c <> "-"%char -> c ∉ show_Z n.
Proof.
  intros Hd Hm Hin. pose proof (show_Z_chars n) as H. rewrite Forall_forall in H.
  destruct (H _ Hin); congruence.
Qed.

Lemma show_Z_nonempty n : show_Z n <> [].
Proof. unfold show_Z. destruct (n <? 0); [done | apply show_u_nonempty]. Qed.

Lemma show_Z_inj m n : show_Z m = show_Z n -> m = n.
Proof.
  intros H. set (lo := Z.min m n). set (hi := Z.max m n).
  pose proof (parse_show_Z lo hi m ltac:(lia)) as Hm.
  pose proof (parse_show_Z lo hi n ltac:(lia)) as Hn.
  rewrite H in Hm. congruence.
Qed.

(** *** Splitting *)

Lemma strip_prefix_spec p s r : strip_prefix p s = Some r <-> s = p ++ r.
Proof.
  revert s; induction p as [|c p IH]; intros s; simpl; [naive_solver|].
  destruct s as [|d s]; simpl; [naive_solver|].
  destruct (char_eqb c d) eqn:E.
  - apply char_eqb_eq in E as ->. rewrite IH. naive_solver.
  - apply char_eqb_neq in E. naive_solver.
Qed.

Lemma strip_suffix_spec p s r : strip_suffix p s = Some r <-> s = r ++ p.
Proof.
  unfold strip_suffix. rewrite fmap_Some. split.
  - intros (x & Hx & ->). apply strip_prefix_spec in Hx.
    apply (f_equal reverse) in Hx. rewrite reverse_involutive, reverse_app, reverse_involutive in Hx.
    done.
  - intros ->. exists (reverse r). rewrite reverse_involutive. split; [|done].
    apply strip_prefix_spec. by rewrite reverse_app.
Qed.

Lemma starts_with_spec p s : starts_with p s = true <-> exists r, s = p ++ r.
Proof.
  unfold starts_with. destruct (strip_prefix p s) eqn:E.
  - apply strip_prefix_spec in E. naive_solver.
  - split; [done|]. intros [r Hr]. apply strip_prefix_spec in Hr. congruence.
Qed.

Lemma ends_with_spec p s : ends_with p s = true <-> exists r, s = r ++ p.
Proof.
  unfold ends_with. destruct (strip_suffix p s) eqn:E.
  - apply strip_suffix_spec in E. naive_solver.
  - split; [done|]. intros [r Hr]. apply strip_suffix_spec in Hr. congruence.
Qed.

Lemma ends_with_snoc s c d : ends_with [d] (s ++ [c]) = char_eqb d c.
Proof.
  unfold ends_with, strip_suffix. rewrite reverse_app. simpl.
  change (reverse [c]) with [c]. change (reverse [d]) with [d]. simpl.
  by destruct (char_eqb d c).
Qed.

(** A one-character [split_once]: cut at the first occurrence. *)
Lemma split_once_char c a b : c ∉ a -> split_once [c] (a ++ c :: b) = Some (a, b).
Proof.
  induction a as [|d a IH]; intros Hn; simpl.
  - by rewrite char_eqb_refl.
  - rewrite not_elem_of_cons in Hn. destruct Hn as [Hd Hn].
    assert (char_eqb c d = false) as -> by by apply char_eqb_neq.
    by rewrite IH.
Qed.

Lemma split_on_no_sep p s : Forall (fun c => p c = false) s -> split_on p s = [s].
Proof. induction 1 as [|c s Hc _ IH]; simpl; [done|]. by rewrite Hc, IH. Qed.

Lemma split_on_nonempty p s : split_on p s <> [].
Proof. destruct s as [|c s]; simpl; [done|]. destruct (p c); [done|]. by destruct (split_on p s). Qed.

Lemma split_on_app_sep p s c r :
  Forall (fun c => p c = false) s -> p c = true ->
  split_on p (s ++ c :: r) = s :: split_on p r.
Proof.
  intros Hs Hc. induction Hs as [|d s Hd _ IH]; simpl; [by rewrite Hc|].
  by rewrite Hd, IH.
Qed.

Lemma split_on_join p c l :
  p c = true -> l <> [] -> Forall (Forall (fun c => p c = false)) l ->
  split_on p (join [c] l) = l.
Proof.
  intros Hc Hne Hl. induction Hl as [|x l Hx Hl IH]; [done|].
  destruct l as [|y l]; simpl; [by apply split_on_no_sep|].
  rewrite split_on_app_sep by done. f_equal. by apply IH.
Qed.

(** *** Case folding *)

Lemma char_to_lower_idem c : char_to_lower (char_to_lower c) = char_to_lower c.
Proof.
  unfold char_to_lower at 2 3. destruct (is_ascii_uppercase c) eqn:E.
  - unfold char_to_lower, is_ascii_uppercase in *. breflect.
    rewrite byte_val_chr by lia.
    destruct (_ && _) eqn:E2; [|done]. breflect. lia.
  - unfold char_to_lower. by rewrite E.
Qed.

Lemma to_ascii_lowercase_idem s :
  to_ascii_lowercase (to_ascii_lowercase s) = to_ascii_lowercase s.
Proof.
  unfold to_ascii_lowercase. rewrite <- list_fmap_compose. apply list_fmap_ext.
  intros i c _. apply char_to_lower_idem.
Qed.

(** *** Trimming *)

Definition plain_char (c : ascii) : bool :=
  (33 <=? byte_val c) && (byte_val c <=? 127).

Lemma ws_head_plain c s : plain_char c = true -> ws_head (c :: s) = None.
Proof.
  unfold plain_char, ws_head. intros H. breflect. simpl.
  destruct (_ || _) eqn:E; [exfalso; breflect; lia|].
  assert (byte_val c =? 194 = false) as -> by lia.
  assert (byte_val c =? 225 = false) as -> by lia.
  assert (byte_val c =? 226 = false) as -> by lia.
  assert (byte_val c =? 227 = false) as -> by lia.
  simpl. by destruct s as [|? [|? ?]].
Qed.

Lemma ws_head_plain_last a c b :
  plain_char c = true -> (length a <= 2)%nat -> ws_head (a ++ [c]) = Some b -> (b <= length a)%nat.
Proof.
  unfold plain_char. intros H Hl. breflect.
  destruct a as [|a0 [|a1 [|a2 a]]]; simpl in Hl; [| | |lia].
  - simpl. rewrite ws_head_plain; [done|]. unfold plain_char. lia.
  - unfold ws_head; simpl. destruct (_ || _); [intros [= <-]; lia|].
    assert (byte_val c =? 133 = false) as -> by lia.
    assert (byte_val c =? 160 = false) as -> by lia. simpl. by rewrite andb_false_r.
  - unfold ws_head; simpl. destruct (_ || _); [intros [= <-]; lia|].
    destruct (_ && _); [intros [= <-]; lia|].
    assert (byte_val c =? 128 = false) as -> by lia.
    assert (128 <=? byte_val c = false) as -> by lia.
    assert (byte_val c =? 168 = false) as -> by lia.
    assert (byte_val c =? 169 = false) as -> by lia.
    assert (byte_val c =? 175 = false) as -> by lia.
    assert (byte_val c =? 159 = false) as -> by lia.
    simpl. by rewrite !andb_false_r.
Qed.

Lemma ws_tail_plain c s : plain_char c = true -> ws_tail (c :: s) = None.
Proof.
  intros H. unfold ws_tail.
  replace (take 1 (c :: s)) with [c] by done. rewrite (ws_head_plain c []) by done. simpl.
  rewrite !reverse_cons.
  rewrite !bool_decide_false; [done| |]; intros E;
    apply ws_head_plain_last in E; rewrite ?length_reverse, ?length_take in *; try done; lia.
Qed.

(** A string whose first and last characters are plain is its own trim. *)
Lemma trim_plain s :
  (forall c r, s = c :: r -> plain_char c = true) ->
  (forall c r, s = r ++ [c] -> plain_char c = true) -> trim s = s.
Proof.
  intros Hh Ht. unfold trim.
  assert (trim_start s = s) as ->.
  { unfold trim_start. destruct s as [|c r]; [done|]. simpl.
    by rewrite ws_head_plain by eauto. }
  unfold trim_end. destruct s as [|c s _] using rev_ind; [done|].
  rewrite reverse_app, length_app. simpl. rewrite Nat.add_1_r. simpl.
  rewrite ws_tail_plain by eauto. by rewrite reverse_cons, reverse_involutive.
Qed.

Lemma trim_plain_all s : Forall (fun c => plain_char c = true) s -> trim s = s.
Proof.
  intros H. apply trim_plain; intros c r ->.
  - by inversion H.
  - apply Forall_app in H as [_ H]. by inversion H.
Qed.

Lemma digit_plain c : is_ascii_digit c = true -> plain_char c = true.
Proof. unfold is_ascii_digit, plain_char. intros. breflect. lia. Qed.

Lemma show_Z_plain n : Forall (fun c => plain_char c = true) (show_Z n).
Proof.
  eapply Forall_impl; [apply show_Z_chars|]. intros c [?| ->]; [by apply digit_plain | done].
Qed.

Lemma trim_show_Z n : trim (show_Z n) = show_Z n.
Proof. apply trim_plain_all, show_Z_plain. Qed.

#[export] Hint Resolve show_Z_plain digit_plain show_Z_nonempty : ducklake.

Lemma split_once_unfold p s :
  split_once p s
  = match strip_prefix p s with
    | Some rest => Some ([], rest)
    | None =>
        match s with
        | [] => None
        | c :: s' => '(a, b) ← split_once p s'; Some (c :: a, b)
        end
    end.
Proof. by destruct s. Qed.

Lemma split_once_step p c s :
  strip_prefix p (c :: s) = None ->
  split_once p (c :: s) = '(a, b) ← split_once p s; Some (c :: a, b).
Proof. intros E. by rewrite split_once_unfold, E. Qed.

(** [split_once] of a pattern after a text its first character does not occur
    in. *)
Lemma split_once_fresh c p a b :
  c ∉ a -> split_once (c :: p) (a ++ (c :: p) ++ b) = Some (a, b).
Proof.
  induction a as [|d a IH]; intros Hn.
  - rewrite split_once_unfold. by rewrite (proj2 (strip_prefix_spec _ _ b)).
  - rewrite not_elem_of_cons in Hn. destruct Hn as [Hd Hn].
    change ((d :: a) ++ ?x) with (d :: (a ++ x)). rewrite split_once_step.
    + by rewrite IH.
    + cbn [strip_prefix]. assert (char_eqb c d = false) as -> by by apply char_eqb_neq. done.
Qed.

Lemma contains_app a p b : contains p (a ++ p ++ b) = true.
Proof.
  unfold contains. induction a as [|c a IH]; rewrite split_once_unfold.
  - by rewrite (proj2 (strip_prefix_spec p _ b)).
  - cbn [app]. destruct (strip_prefix p _); [done|].
    by destruct (split_once p (a ++ p ++ b)) as [[??]|].
Qed.

(** The pattern starts nowhere in a text, whatever follows it. *)
Fixpoint mismatch (p a : str) : bool :=
  match p, a with
  | c :: p', d :: a' => if char_eqb c d then mismatch p' a' else true
  | _, _ => false
  end.

Fixpoint no_start (p a : str) : bool :=
  match a with
  | [] => true
  | _ :: a' => mismatch p a && no_start p a'
  end.

Lemma mismatch_strip p a s : mismatch p a = true -> strip_prefix p (a ++ s) = None.
Proof.
  revert a; induction p as [|c p IH]; intros [|d a]; simpl; try done.
  destruct (char_eqb c d); [apply IH | done].
Qed.

Lemma split_once_skip p a s :
  no_start p a = true ->
  split_once p (a ++ s) = '(x, y) ← split_once p s; Some (a ++ x, y).
Proof.
  induction a as [|d a IH]; cbn [no_start].
  - intros _. cbn [app]. by destruct (split_once p s) as [[??]|].
  - intros [Hm Hn]%andb_true_iff. change ((d :: a) ++ s) with (d :: (a ++ s)).
    rewrite split_once_step by by apply (mismatch_strip p (d :: a)).
    rewrite IH by done. by destruct (split_once p s) as [[??]|].
Qed.

(** *** Digit strings *)

Abbreviation digits := (Forall (fun c => is_ascii_digit c = true)).

Lemma digits_forallb s : forallb is_ascii_digit s = true <-> digits s.
Proof. apply forallb_Forall. Qed.

Lemma parse_digits_from_app a s t :
  parse_digits_from a (s ++ t) = (n ← parse_digits_from a s; parse_digits_from n t).
Proof. revert a; induction s as [|c s IH]; intros a; simpl; [done|]. by destruct (is_ascii_digit c). Qed.

Lemma parse_digits_from_zeros a k :
  parse_digits_from a (replicate k (chr 48)) = Some (a * 10 ^ Z.of_nat k).
Proof.
  revert a; induction k as [|k IH]; intros a; [simpl; f_equal; lia|].
  cbn [replicate parse_digits_from]. change (is_ascii_digit (chr 48)) with true. cbv iota.
  change (byte_val (chr 48)) with 48. rewrite IH, Nat2Z.inj_succ, Z.pow_succ_r by lia. f_equal. lia.
Qed.

Lemma digits_zeros k : digits (replicate k (chr 48)).
Proof. by apply Forall_replicate. Qed.

Lemma digits_pad w n : 0 <= n -> digits (pad_zeros w (show_Z n)).
Proof.
  intros H. unfold pad_zeros, show_Z. rewrite (proj2 (Z.ltb_ge n 0)) by lia.
  apply Forall_app. split; [apply digits_zeros | by apply show_u_digits].
Qed.

Lemma parse_digits_from_pad w n :
  0 <= n -> parse_digits_from 0 (pad_zeros w (show_Z n)) = Some n.
Proof.
  intros H. unfold pad_zeros, show_Z. rewrite (proj2 (Z.ltb_ge n 0)) by lia.
  rewrite parse_digits_from_app, parse_digits_from_zeros. cbn [mbind option_bind]. rewrite Z.mul_0_l.
  pose proof (digits_of_parse n H) as Hp. unfold parse_nonempty in Hp.
  destruct (show_u n) eqn:E; [by apply show_u_nonempty in E | done].
Qed.

(** A digit string parses, as a signed integer, to its value. *)
Lemma parse_signed_digits lo hi s n :
  digits s -> s <> [] -> parse_digits_from 0 s = Some n -> lo <= n <= hi ->
  parse_signed lo hi s = Some n.
Proof.
  destruct s as [|c s]; [done|]. intros Hs _ Hn Hr. inversion Hs as [|? ? Hc Hs']; subst.
  unfold parse_signed. destruct (digit_not_sign c Hc) as [-> ->]. unfold parse_nonempty. rewrite Hn.
  cbn. by rewrite (proj2 (Z.leb_le lo n)), (proj2 (Z.leb_le n hi)) by lia.
Qed.

Lemma digits_of_length f n k :
  0 <= n < 10 ^ Z.of_nat k -> (1 <= k)%nat -> (length (digits_of f n []) <= k)%nat.
Proof.
  revert n k; induction f as [|f IH]; intros n k Hn Hk; [simpl; lia|].
  cbn [digits_of]. destruct (n <? 10) eqn:E; breflect; [simpl; lia|].
  rewrite digits_of_app, length_app. cbn [length].
  destruct k as [|[|k]]; [lia|simpl in Hn; lia|].
  assert (length (digits_of f (n / 10) []) <= S k)%nat; [|lia].
  apply IH; [|lia]. rewrite Nat2Z.inj_succ, Z.pow_succ_r in Hn by lia.
  Z.to_euclidean_division_equations; lia.
Qed.

Lemma length_pad w n k :
  0 <= n < 10 ^ Z.of_nat k -> (1 <= k)%nat -> (w <= k)%nat ->
  (w <= length (pad_zeros w (show_Z n)) <= k)%nat.
Proof.
  intros H Hk Hw. unfold pad_zeros, show_Z. rewrite (proj2 (Z.ltb_ge n 0)) by lia.
  rewrite length_app, length_replicate.
  pose proof (digits_of_length (S (Z.to_nat (Z.log2 n))) n k H Hk). unfold show_u in *. lia.
Qed.

Lemma pad_nonempty w n : pad_zeros w (show_Z n) <> [].
Proof. unfold pad_zeros. intros [_ H]%app_nil. by apply show_Z_nonempty in H. Qed.

Lemma digits_not_in s c : digits s -> is_ascii_digit c = false -> c ∉ s.
Proof. intros Hs Hc Hin. rewrite Forall_forall in Hs. apply Hs in Hin. congruence. Qed.

(** [trim_end_matches] removes a run of the character. *)
Lemma drop_while_spec {A} (p : A -> bool) l :
  exists l1, l = l1 ++ drop_while p l /\ Forall (fun x => p x = true) l1.
Proof.
  induction l as [|x l [l1 [IH Hl]]]; simpl; [by exists []|].
  destruct (p x) eqn:E; [|by exists []]. exists (x :: l1). split; [simpl; congruence | by constructor].
Qed.

Lemma trim_end_matches_spec c s : exists k, s = trim_end_matches c s ++ replicate k c.
Proof.
  unfold trim_end_matches. destruct (drop_while_spec (char_eqb c) (reverse s)) as (l1 & H & Hl).
  exists (length l1). rewrite <- (reverse_involutive s) at 1. rewrite H at 1. rewrite reverse_app. f_equal.
  assert (l1 = replicate (length l1) c) as E.
  { symmetry. apply replicate_as_elem_of. split; [done|]. intros x Hx. rewrite Forall_forall in Hl.
    apply Hl, char_eqb_eq in Hx. done. }
  rewrite E at 1. by rewrite reverse_replicate.
Qed.

Lemma trim_end_matches_all c k : trim_end_matches c (replicate k c) = [].
Proof.
  unfold trim_end_matches. rewrite reverse_replicate.
  induction k as [|k IH]; [done|]. cbn [replicate drop_while]. by rewrite char_eqb_refl.
Qed.

(** *** [trim] is idempotent *)

Lemma ws_head_range s n : ws_head s = Some n -> (1 <= n <= length s)%nat.
Proof.
  unfold ws_head. destruct s as [|a [|b [|c s]]]; simpl; repeat case_match; intros; simplify_eq; lia.
Qed.

Lemma ws_tail_range r n : ws_tail r = Some n -> (1 <= n <= length r)%nat.
Proof.
  unfold ws_tail. intros H.
  assert (forall k m, ws_head (reverse (take k r)) = Some m -> (m <= length r)%nat) as Hr.
  { intros k m Hm. apply ws_head_range in Hm. rewrite length_reverse, length_take in Hm. lia. }
  repeat case_bool_decide; simplify_eq; try (split; [lia|]); [|eapply Hr; eassumption..].
  match goal with H : ws_head (take 1 r) = _ |- _ => apply ws_head_range in H; rewrite length_take in H; lia end.
Qed.

Lemma strip_ws_stuck step :
  (forall s n, step s = Some n -> (1 <= n <= length s)%nat) ->
  forall f s, (length s <= f)%nat -> step (strip_ws step f s) = None.
Proof.
  intros Hstep. induction f as [|f IH]; intros s Hl; cbn [strip_ws].
  - destruct (step s) as [n|] eqn:E; [|done]. apply Hstep in E. lia.
  - destruct (step s) as [n|] eqn:E; [|done]. apply Hstep in E as Hn. apply IH. rewrite length_drop. lia.
Qed.

Lemma strip_ws_suffix step f : forall s, exists p, s = p ++ strip_ws step f s.
Proof.
  induction f as [|f IH]; intros s; cbn [strip_ws]; [by exists []|].
  destruct (step s) as [n|]; [|by exists []]. destruct (IH (drop n s)) as [p Hp].
  exists (take n s ++ p). rewrite <- app_assoc, <- Hp. by rewrite take_drop.
Qed.

Lemma ws_head_app s r n : ws_head s = Some n -> ws_head (s ++ r) = Some n.
Proof.
  unfold ws_head. destruct s as [|a [|b [|c s]]]; simpl; [done|..]; repeat case_match; intros; simplify_eq; done.
Qed.

Lemma strip_ws_id step f s : step s = None -> strip_ws step f s = s.
Proof. intros H. destruct f; cbn; [done|]. by rewrite H. Qed.

Lemma trim_idem s : trim (trim s) = trim s.
Proof.
  unfold trim. set (t := trim_start s).
  assert (ws_head t = None) as Ht by (apply strip_ws_stuck; [apply ws_head_range|done]).
  set (u := trim_end t).
  assert (ws_tail (reverse u) = None) as Hu.
  { unfold u, trim_end. rewrite reverse_involutive. apply strip_ws_stuck; [apply ws_tail_range|].
    by rewrite length_reverse. }
  assert (exists r, t = u ++ r) as [r Hr].
  { destruct (strip_ws_suffix ws_tail (length t) (reverse t)) as [p Hp]. exists (reverse p).
    unfold u, trim_end. rewrite <- reverse_app, <- Hp. by rewrite reverse_involutive. }
  assert (ws_head u = None) as Huh.
  { destruct (ws_head u) as [n|] eqn:E; [|done]. apply (ws_head_app u r) in E. rewrite <- Hr in E. congruence. }
  unfold trim_start. rewrite (strip_ws_id ws_head _ u Huh).
  unfold trim_end. rewrite (strip_ws_id ws_tail _ _ Hu). by rewrite reverse_involutive.
Qed.

(** *** What a parsed unsigned integer is *)

Lemma parse_digits_from_ge s : forall a n, 0 <= a -> parse_digits_from a s = Some n -> 0 <= n.
Proof.
  induction s as [|c s IH]; intros a n Ha; simpl; [intros [= <-]; done|].
  destruct (is_ascii_digit c) eqn:E; [|done]. apply IH. unfold is_ascii_digit in E. breflect. lia.
Qed.

Lemma parse_unsigned_range m s n : parse_unsigned m s = Some n -> 0 <= n <= m.
Proof.
  unfold parse_unsigned, parse_nonempty. intros H.
  destruct (match match s with c :: s' => if char_eqb c "+" then s' else s | [] => s end with
            | [] => None | c :: l => _ end) as [k|] eqn:E; [|done]. cbn in H. case_if; [|done].
  injection H as <-. breflect. split; [|done].
  destruct (match s with c :: s' => if char_eqb c "+" then s' else s | [] => s end); [done|].
  by eapply parse_digits_from_ge in E.
Qed.

Lemma join_cons sep a l : l <> [] -> join sep (a :: l) = a ++ sep ++ join sep l.
Proof. by destruct l. Qed.

Lemma join_snoc sep l x : l <> [] -> join sep (l ++ [x]) = join sep l ++ sep ++ x.
Proof.
  induction l as [|a l IH]; intros H; [done|]. destruct l as [|b l]; [done|].
  rewrite <- app_comm_cons, !join_cons, IH by (destruct l; done). by rewrite <- !app_assoc.
Qed.

Lemma split_once_absent c s : c ∉ s -> split_once [c] s = None.
Proof.
  induction s as [|d s IH]; intros H; [done|]. apply not_elem_of_cons in H as [Hd Hs].
  rewrite split_once_step, IH; [done|done|]. simpl. by rewrite (proj2 (char_eqb_neq c d)).
Qed.

Lemma contains_char c s : contains [c] s = true <-> c ∈ s.
Proof.
  unfold contains. split.
  - intros H. destruct (decide (c ∈ s)) as [?|Hn]; [done|]. by rewrite split_once_absent in H.
  - intros H. apply list_elem_of_split_l in H as (a & b & -> & Ha). by rewrite split_once_char.
Qed.

(** ** Runs of a kind of byte *)

Lemma span_app p s : (span p s).1 ++ (span p s).2 = s.
Proof. induction s as [|c s IH]; [done|]. cbn. destruct (p c); [|done]. destruct (span p s). cbn in *. by rewrite IH. Qed.

Lemma span_length p s : (length (span p s).1 + length (span p s).2 = length s)%nat.
Proof. rewrite <- length_app. by rewrite span_app. Qed.

Lemma span_all p s : Forall (fun c => p c = true) (span p s).1.
Proof.
  induction s as [|c s IH]; [constructor|]. cbn. destruct (p c) eqn:E; [|constructor]. destruct (span p s). by constructor.
Qed.

Lemma span_run p a b : Forall (fun c => p c = true) a -> match b with c :: _ => p c = false | [] => True end -> span p (a ++ b) = (a, b).
Proof.
  intros Ha Hb. induction Ha as [|c a Hc _ IH]; cbn.
  - destruct b as [|c b]; [done|]. cbn. by rewrite Hb.
  - rewrite Hc. rewrite IH. done.
Qed.

(** *** Ordering *)

Lemma str_cmp_refl s : str_cmp s s = Eq.
Proof. induction s as [|c s IH]; [done|]. cbn. by rewrite Z.compare_refl. Qed.

Lemma str_cmp_eq a : forall b, str_cmp a b = Eq -> a = b.
Proof.
  induction a as [|c a IH]; intros [|d b]; cbn; try done. destruct (byte_val c ?= byte_val d) eqn:E; try done.
  intros ->%IH. f_equal. apply Z.compare_eq in E. by apply byte_val_inj.
Qed.
