(* ===== verification/Arrow.v ===== *)
(** * Arrow, as the modelled code sees it

    Arrow is a dependency of the crate, not part of it. The names of its data
    types are data the crate matches on; a record batch is only counted and
    moved around, so it is a parameter with the one observation the modelled
    code makes. *)

From S2P Require Import Prelude RustStd.

Inductive TimeUnit := Second | Millisecond | Microsecond | Nanosecond.

Inductive IntervalUnit := YearMonth | DayTime | MonthDayNano.

(** [arrow::datatypes::DataType]: the constructors the modelled code matches
    on; a [Field] is its name, type and nullability. [OtherType] stands for every
    other constructor, by an opaque tag. *)
Inductive DataType :=
| Null
| Boolean
| Int8 | Int16 | Int32 | Int64
| UInt8 | UInt16 | UInt32 | UInt64
| Float16 | Float32 | Float64
| Decimal128 (precision scale : Z)
| Decimal256 (precision scale : Z)
| Utf8 | LargeUtf8 | Utf8View
| Binary | LargeBinary | BinaryView | FixedSizeBinary (width : Z)
| Date32 | Date64
| Time32 (unit : TimeUnit) | Time64 (unit : TimeUnit)
| Timestamp (unit : TimeUnit) (zone : option str)
| Interval (unit : IntervalUnit)
| Dictionary (key value : DataType)
| List (field : str * DataType * bool)
| LargeList (field : str * DataType * bool)
| FixedSizeList (field : str * DataType * bool) (size : Z)
| Struct (fields : list (str * DataType * bool))
| Map (entries : str * DataType * bool) (sorted : bool)
| OtherType (tag : Z).

Abbreviation Field := (str * DataType * bool)%type.

Definition field_name (f : Field) : str := f.1.1.
Definition field_type (f : Field) : DataType := f.1.2.
Definition field_nullable (f : Field) : bool := f.2.

#[global] Instance TimeUnit_eq_dec : EqDecision TimeUnit.
Proof. solve_decision. Defined.
#[global] Instance IntervalUnit_eq_dec : EqDecision IntervalUnit.
Proof. solve_decision. Defined.

(** Equality of types, with the equality of fields and of field lists inside. *)
Definition field_dec (f g : Field) (types : {f.1.2 = g.1.2} + {f.1.2 <> g.1.2}) : {f = g} + {f <> g}.
Proof.
  destruct f as [[n t] x], g as [[m u] y]. cbn in types. destruct types as [->|]; [|right; congruence].
  destruct (decide (n = m)) as [->|]; [|right; congruence].
  destruct (decide (x = y)) as [->|]; [by left|right; congruence].
Defined.

Fixpoint DataType_dec (a b : DataType) : {a = b} + {a <> b}.
Proof.
  decide equality; try solve_decision; try (apply field_dec, DataType_dec).
  revert fields0. induction fields as [|f fields IH]; intros [|g fields']; [by left|by right|by right|].
  destruct (field_dec f g (DataType_dec f.1.2 g.1.2)) as [->|]; [|right; congruence].
  destruct (IH fields') as [->|]; [by left|right; congruence].
Defined.
#[global] Instance DataType_eq_dec : EqDecision DataType := DataType_dec.

(** A record batch: a row count, and content no modelled function reads. *)
Class RecordBatches := {
  RecordBatch : Type;
  num_rows : RecordBatch -> nat;
}.

(** The smallest model of the interface, for concrete evaluations: a batch is
    its row count. *)
Definition counted_batches : RecordBatches := {| RecordBatch := nat; num_rows := id |}.
