(* ===== verification/WriterTypes.v ===== *)
(** * The data a catalog writer is given ([src/src/metadata_writer.rs])

    Descriptions of data files, delete files and inlined rows, and
    [StagedTableWrite], one table's part of a commit. *)

From S2P Require Import Prelude RustStd Arrow.

Inductive WriteMode := Replace | Append.
#[global] Instance WriteMode_eq_dec : EqDecision WriteMode.
Proof. solve_decision. Defined.

Record CatalogNode := {
  cn_ducklake_type : str;
  cn_is_nullable : bool;
  cn_initial_default : option str;
  cn_default_value : option str;
  cn_default_value_type : option str;
  cn_default_value_dialect : option str;
}.

Record ColumnDef := {
  cd_name : str;
  cd_ducklake_type : str;
  cd_is_nullable : bool;
  cd_data_type : DataType;
  cd_initial_default : option str;
  cd_default_value : option str;
  cd_default_value_type : option str;
  cd_default_value_dialect : option str;
  cd_catalog_nodes : option (list CatalogNode);
}.

Record ColumnStat := {
  cs_column_id : Z;
  cs_min_value : option str;
  cs_max_value : option str;
  cs_null_count : option Z;
  cs_value_count : option Z;
  cs_contains_nan : option bool;
  cs_column_size_bytes : option Z;
}.

Inductive RowIdStart :=
| Assign
| Embedded
| Preserved (start : Z).

Record DataFileInfo := {
  df_path : str;
  df_path_is_relative : bool;
  df_file_size_bytes : Z;
  df_footer_size : option Z;
  df_record_count : Z;
  df_column_stats : list ColumnStat;
  df_partition_id : option Z;
  df_partition_values : list (Z * option str);
  df_owner_catalog_id : option Z;
  df_row_id_start : RowIdStart;
  df_row_id_floor : option Z;
}.

(** [DataFileInfo::new]; the [assert!] on a negative record count is a panic,
    the [None] here. *)
Definition DataFileInfo_new (path : str) (file_size_bytes record_count : Z)
  : option DataFileInfo :=
  if 0 <=? record_count then
    Some {| df_path := path; df_path_is_relative := true;
            df_file_size_bytes := file_size_bytes; df_footer_size := None;
            df_record_count := record_count; df_column_stats := [];
            df_partition_id := None; df_partition_values := [];
            df_owner_catalog_id := None; df_row_id_start := Assign;
            df_row_id_floor := None |}
  else None.

Record DeleteFileInfo := {
  del_path : str;
  del_path_is_relative : bool;
  del_file_size_bytes : Z;
  del_footer_size : option Z;
  del_delete_count : Z;
  del_owner_catalog_id : option Z;
  del_deleted_positions : option (list Z);
}.

Record DeleteFileEntry := {
  de_data_file_id : Z;
  de_expected_prev_delete_file : option Z;
  de_delete : DeleteFileInfo;
}.

Inductive SourceRetirement := Remove | Retire.

Record InlinedFlushDeleteFile := {
  ifd_delete : DeleteFileInfo;
  ifd_begin_snapshot : Z;
  ifd_partial_max : option Z;
  ifd_end_snapshot : option Z;
}.

Record InlinedFlushFile := {
  iff_file : DataFileInfo;
  iff_begin_snapshot : Z;
  iff_partial_max : Z;
  iff_delete : option InlinedFlushDeleteFile;
}.

Record InlinedFlushFileDelete := {
  iffd_data_file_id : Z;
  iffd_data_file_end : option Z;
  iffd_expected_prev_delete_file : option Z;
  iffd_delete : InlinedFlushDeleteFile;
}.

Record InlinedFlushTable := {
  ift_table_id : Z;
  ift_inlined_tables : list str;
  ift_files : list InlinedFlushFile;
  ift_file_deletes : list InlinedFlushFileDelete;
}.

Record InlinedRowRef := { irr_table_name : str; irr_row_id : Z }.

Record InlinedFileDelete := {
  ild_data_file_id : Z;
  ild_positions : list Z;
  ild_expected_delete_file : option Z;
}.

Record DroppedDataFile := {
  dr_data_file_id : Z;
  dr_expected_delete_file : option Z;
}.

Inductive StagedTableData `{RecordBatches} :=
| SFiles (files : list DataFileInfo)
| SInlined (batches : list RecordBatch)
| SNone.

Record StagedTableWrite `{RecordBatches} := {
  st_table_id : Z;
  st_schema_name : str;
  st_table_name : str;
  st_base_snapshot_id : Z;
  st_mode : WriteMode;
  st_columns : list ColumnDef;
  st_column_ids : list Z;
  st_data : StagedTableData;
  st_snapshot_id_columns : list str;
  st_positional_deletes : list DeleteFileEntry;
  st_rewritten_deletes : list InlinedFlushFileDelete;
  st_inlined_deletes : list InlinedRowRef;
  st_inlined_row_ids : option (list Z);
  st_inserted_files : list DataFileInfo;
  st_inlined_file_deletes : list InlinedFileDelete;
  st_dropped_files : list DroppedDataFile;
  st_inlined_flush : bool;
  st_exclusive : bool;
}.

(** [Vec::is_empty]. *)
Definition is_empty {A} (l : list A) : bool :=
  match l with [] => true | _ => false end.

(** [StagedTableWrite::inserts_rows]. *)
Definition inserts_rows `{RecordBatches} (w : StagedTableWrite) : bool :=
  negb (match st_data w with SNone => true | _ => false end)
  || negb (is_empty (st_inserted_files w)).

(** [rewritten_deletes_snapshot]: the greatest [partial_max] of the delete
    files the write rewrites. *)
Definition rewritten_deletes_snapshot `{RecordBatches} (w : StagedTableWrite) : option Z :=
  max_list (omap (fun entry => ifd_partial_max (iffd_delete entry)) (st_rewritten_deletes w)).

Section staging.
Context `{RecordBatches}.

(** The first value of a list that occurred before it, as the [HashSet::insert]
    loops of the source find it. *)
Fixpoint first_repeat (seen : list Z) (l : list Z) : option Z :=
  match l with
  | [] => None
  | x :: l' => if bool_decide (x ∈ seen) then Some x else first_repeat (x :: seen) l'
  end.

Lemma first_repeat_none seen l :
  first_repeat seen l = None <-> NoDup l /\ (forall x, x ∈ l -> x ∉ seen).
Proof.
  revert seen; induction l as [|x l IH]; intros seen; simpl.
  - split; [|done]. intros _. split; [constructor|]. by inversion 1.
  - case_bool_decide as Hx.
    + split; [done|]. intros [_ Hn]. exfalso. by apply (Hn x); [constructor|].
    + rewrite IH, NoDup_cons. setoid_rewrite elem_of_cons. set_solver.
Qed.

(** Every data file a staged write names, in the order [validate_row_mutation_stage]
    chains them. *)
Definition named_files (w : StagedTableWrite) : list Z :=
  (de_data_file_id <$> st_positional_deletes w)
  ++ (iffd_data_file_id <$> st_rewritten_deletes w)
  ++ (ild_data_file_id <$> st_inlined_file_deletes w)
  ++ (dr_data_file_id <$> st_dropped_files w).

Definition staged_rows (w : StagedTableWrite) : nat :=
  match st_data w with
  | SInlined batches => sum_list (num_rows <$> batches)
  | _ => 0
  end.

(** [validate_row_mutation_stage]. *)
Definition validate_row_mutation_stage (w : StagedTableWrite) : result unit :=
  let? _ :=
    match st_inlined_row_ids w with
    | Some row_ids =>
        if (staged_rows w =? length row_ids)%nat then Ok tt
        else Err (InvalidConfig
               ("staged write has " ++ show_nat (length row_ids) ++ " preserved row ids for "
                ++ show_nat (staged_rows w) ++ " inlined rows"))
    | None => Ok tt
    end in
  let? _ :=
    match first_repeat [] (named_files w) with
    | Some data_file_id =>
        Err (InvalidConfig
          ("staged write names data file " ++ show_Z data_file_id ++ " more than once"))
    | None => Ok tt
    end in
  if existsb (fun delete => is_empty (ild_positions delete)) (st_inlined_file_deletes w)
  then Err (InvalidConfig "an inlined file delete must name at least one position")
  else if existsb (fun delete => bool_decide (iffd_expected_prev_delete_file delete = None))
            (st_rewritten_deletes w)
  then Err (InvalidConfig "a rewritten delete file must name the delete file it replaces")
  else Ok tt.

(** [validate_delete_entries]. *)
Definition validate_delete_entries (mode : WriteMode) (deletes : list DeleteFileEntry)
  : result unit :=
  if is_empty deletes then Ok tt
  else if bool_decide (mode = Replace)
  then Err (InvalidConfig ("register_data_file_with_deletes: positional deletes require "
         ++ "WriteMode::Append; Replace retires the data files the deletes target"))
  else match first_repeat [] (de_data_file_id <$> deletes) with
  | Some id => Err (InvalidConfig
      ("register_data_file_with_deletes: duplicate delete entry for data file " ++ show_Z id
       ++ "; each entry must target a distinct data file"))
  | None => Ok tt
  end.

(** What an accepted row mutation is: preserved row ids pair up with the inlined
    rows, no data file is named twice, every inlined file delete names a position
    and every rewritten delete file names the one it replaces. *)
Definition well_formed_mutation (w : StagedTableWrite) : Prop :=
  (forall ids, st_inlined_row_ids w = Some ids -> length ids = staged_rows w)
  /\ NoDup (named_files w)
  /\ Forall (fun delete => ild_positions delete <> []) (st_inlined_file_deletes w)
  /\ Forall (fun delete => iffd_expected_prev_delete_file delete <> None) (st_rewritten_deletes w).

Lemma existsb_is_empty {A} (f : A -> list Z) l :
  existsb (fun x => is_empty (f x)) l = false <-> Forall (fun x => f x <> []) l.
Proof.
  rewrite existsb_false_iff. apply Forall_iff. intros x. by destruct (f x).
Qed.

Lemma validate_row_mutation_stage_spec w :
  validate_row_mutation_stage w = Ok tt <-> well_formed_mutation w.
Proof.
  unfold validate_row_mutation_stage, well_formed_mutation.
  rewrite result_bind_ok.
  assert (first_repeat [] (named_files w) = None <-> NoDup (named_files w)) as Hdup.
  { rewrite first_repeat_none. set_solver. }
  assert (existsb (fun d => bool_decide (iffd_expected_prev_delete_file d = None))
            (st_rewritten_deletes w) = false
          <-> Forall (fun d => iffd_expected_prev_delete_file d <> None) (st_rewritten_deletes w))
    as Hrew.
  { rewrite existsb_false_iff. apply Forall_iff. intros x. by rewrite bool_decide_eq_false. }
  rewrite <- Hdup, <- (existsb_is_empty ild_positions), <- Hrew.
  setoid_rewrite result_bind_ok.
  destruct (st_inlined_row_ids w) as [ids|]; [destruct (_ =? _)%nat eqn:E|];
    rewrite ?Nat.eqb_eq, ?Nat.eqb_neq in *;
    destruct (first_repeat [] _), (existsb _ (st_inlined_file_deletes w)),
      (existsb _ (st_rewritten_deletes w)); naive_solver.
Qed.

End staging.
