(* ===== verification/Types.v ===== *)
(** * DuckLake type texts ([src/src/types.rs])

    A catalog stores a column's type as text. [ducklake_to_arrow_type] parses it,
    [arrow_to_ducklake_type] prints an Arrow type, [normalize_ducklake_type] is one
    after the other, and [types_equal_canonical] and [is_promotable] compare texts.
    The parser's nesting limit is its recursion argument: [levels] is
    [MAX_NESTED_TYPE_DEPTH + 1 - depth]. The message for an Arrow type without a
    DuckLake equivalent leaves out the type's name, which Arrow prints.

    The theorems: printing and parsing are inverse up to the layouts DuckLake does
    not tell apart, normalizing twice is normalizing once, canonical equality is
    equality of the parsed types, and the promotions keep every value. *)

From S2P Require Import Prelude RustStd Arrow WriterTypes.

Definition MAX_NESTED_TYPE_DEPTH : nat := 128.
Definition LIST_ELEMENT_NAME : str := "item".

(** ** Parsing *)

Definition parse_u8 : str -> option Z := parse_unsigned 255.
Definition parse_i8 : str -> option Z := parse_signed (-128) 127.

Definition DECIMAL_MAX_PRECISION : Z := 76.

(** [validate_decimal_precision_scale]. *)
Definition validate_decimal_precision_scale (precision scale : Z) (type_str : str) : result unit :=
  if precision =? 0 then
    Err (UnsupportedType ("Decimal precision must be >= 1, got 0 in type '" ++ type_str ++ "'"))
  else if DECIMAL_MAX_PRECISION <? precision then
    Err (UnsupportedType ("Decimal precision must be <= " ++ show_Z DECIMAL_MAX_PRECISION ++ ", got "
      ++ show_Z precision ++ " in type '" ++ type_str ++ "'"))
  else if (0 <=? scale) && (precision <? scale) then
    Err (UnsupportedType ("Decimal scale (" ++ show_Z scale ++ ") must not exceed precision ("
      ++ show_Z precision ++ ") in type '" ++ type_str ++ "'"))
  else Ok tt.

(** [decimal_data_type]. *)
Definition decimal_data_type (precision scale : Z) : DataType :=
  if 38 <? precision then Decimal256 precision scale else Decimal128 precision scale.

Definition is_paren (c : ascii) : bool := char_eqb c "("%char || char_eqb c ")"%char.

(** [parse_decimal]. *)
Definition parse_decimal (type_str : str) : result (option DataType) :=
  let type_str := trim type_str in
  let normalized := to_ascii_lowercase type_str in
  match find_map (fun name => strip_prefix name normalized) [lit "decimal"; lit "numeric"] with
  | None => Ok None
  | Some rest =>
      let rest := trim_start rest in
      if negb (starts_with "(" rest) then Ok None
      else
        let start := (length type_str - length rest)%nat in
        match strip_suffix ")" (drop (start + 1) type_str) with
        | Some params =>
            if existsb is_paren params then Ok None
            else
              let precision_error part := UnsupportedType
                ("Invalid decimal precision '" ++ part ++ "' in type '" ++ type_str ++ "'") in
              match trim <$> split_on (char_eqb ",") params with
              | [p] =>
                  let? precision := ok_or (parse_u8 p) (precision_error p) in
                  let? _ := validate_decimal_precision_scale precision 0 type_str in
                  Ok (Some (decimal_data_type precision 0))
              | [p; s] =>
                  let? precision := ok_or (parse_u8 p) (precision_error p) in
                  let? scale := ok_or (parse_i8 s) (UnsupportedType
                    ("Invalid decimal scale '" ++ s ++ "' in type '" ++ type_str ++ "'")) in
                  let? _ := validate_decimal_precision_scale precision scale type_str in
                  Ok (Some (decimal_data_type precision scale))
              | parts => Err (UnsupportedType
                  ("Invalid decimal type: expected at most 2 parameters (precision, scale), got "
                   ++ show_nat (length parts) ++ " in type '" ++ type_str ++ "'"))
              end
        | None => Ok None
        end
  end.

(** The nesting after one more character. *)
Definition nest (depth : Z * Z) (c : ascii) : Z * Z :=
  let '(angle, paren) := depth in
  if char_eqb c "<" then (angle + 1, paren)
  else if char_eqb c ">" then (angle - 1, paren)
  else if char_eqb c "(" then (angle, paren + 1)
  else if char_eqb c ")" then (angle, paren - 1)
  else depth.
Definition below (depth : Z * Z) : bool := (depth.1 <? 0) || (depth.2 <? 0).
Definition at_top (depth : Z * Z) : bool := (depth.1 =? 0) && (depth.2 =? 0).

(** [split_top_level]: [piece] is the text since the last separator. *)
Fixpoint split_pieces (separator : ascii) (depth : Z * Z) (piece value : str) : option (list str) :=
  match value with
  | [] => if at_top depth then Some [trim piece] else None
  | c :: value' =>
      let depth := nest depth c in
      if below depth then None
      else if char_eqb c separator && at_top depth then
        pieces ← split_pieces separator depth [] value';
        Some (trim piece :: pieces)
      else split_pieces separator depth (piece ++ [c]) value'
  end.

Definition split_top_level (value : str) (separator : ascii) : result (list str) :=
  ok_or (split_pieces separator (0, 0) [] value)
    (UnsupportedType ("Unbalanced nested type '" ++ value ++ "'")).

(** [top_level_separator]. *)
Fixpoint separator_from (separator : ascii) (depth : Z * Z) (value : str) : option nat :=
  match value with
  | [] => None
  | c :: value' =>
      let depth := nest depth c in
      if char_eqb c separator && at_top depth then Some 0%nat
      else S <$> separator_from separator depth value'
  end.

Definition top_level_separator (value : str) (separator : ascii) : option nat :=
  separator_from separator (0, 0) value.

Definition removelast_byte (s : str) : str := take (length s - 1) s.

Section nested.
(** [ducklake_to_arrow_type_inner] one level down. *)
Variable inner : str -> result DataType.

(** [parse_list_type]. *)
Definition parse_list_type (type_str : str) : result (option DataType) :=
  let normalized := to_ascii_lowercase type_str in
  let text :=
    if starts_with "list<" normalized || starts_with "array<" normalized then
      if ends_with ">" type_str then
        '(_, rest) ← split_once "<" type_str; Some (removelast_byte rest)
      else None
    else strip_suffix "[]" type_str in
  match text with
  | None => Ok None
  | Some text =>
      let text := trim text in
      if is_empty text then
        Err (UnsupportedType ("List type '" ++ type_str ++ "' has empty element type"))
      else
        let? element_type := inner text in
        Ok (Some (List (LIST_ELEMENT_NAME, element_type, true)))
  end.

(** A field of [parse_struct_type]. *)
Definition parse_struct_field (field : str) : result Field :=
  match top_level_separator field ":" with
  | None => Err (UnsupportedType ("Struct field '" ++ field ++ "' must use name:type syntax"))
  | Some separator =>
      let name := trim (take separator field) in
      let type_name := trim (drop (separator + 1) field) in
      if is_empty name || is_empty type_name then
        Err (UnsupportedType ("Struct field '" ++ field ++ "' must have a name and type"))
      else
        let? data_type := inner type_name in
        Ok (name, data_type, true)
  end.

(** [parse_struct_type]. *)
Definition parse_struct_type (type_str : str) : result (option DataType) :=
  if negb (starts_with "struct<" (to_ascii_lowercase type_str)) then Ok None
  else if negb (ends_with ">" type_str) then
    Err (UnsupportedType ("Struct type '" ++ type_str ++ "' is missing its closing '>'"))
  else
    let text := removelast_byte (drop 7 type_str) in
    if is_empty text then Ok (Some (Struct []))
    else
      let? pieces := split_top_level text "," in
      let? fields := mapM_result parse_struct_field pieces in
      Ok (Some (Struct fields)).

(** [parse_map_type]. *)
Definition parse_map_type (type_str : str) : result (option DataType) :=
  if negb (starts_with "map<" (to_ascii_lowercase type_str)) then Ok None
  else if negb (ends_with ">" type_str) then
    Err (UnsupportedType ("Map type '" ++ type_str ++ "' is missing its closing '>'"))
  else
    let? parts := split_top_level (removelast_byte (drop 4 type_str)) "," in
    match parts with
    | [key_type; value_type] =>
        let? key := inner key_type in
        let? value := inner value_type in
        Ok (Some (Map (lit "entries", Struct [(lit "key", key, false); (lit "value", value, true)], false) false))
    | _ => Err (UnsupportedType ("Map type '" ++ type_str ++ "' must have key and value types"))
    end.
End nested.

(** The basic types, lower case. *)
Definition basic_types : list (list str * DataType) := [
  ([lit "boolean"; lit "bool"], Arrow.Boolean);
  ([lit "int8"; lit "tinyint"], Int8);
  ([lit "int16"; lit "smallint"], Int16);
  ([lit "int32"; lit "int"; lit "integer"], Int32);
  ([lit "int64"; lit "bigint"; lit "long"], Int64);
  ([lit "uint8"; lit "utinyint"], UInt8);
  ([lit "uint16"; lit "usmallint"], UInt16);
  ([lit "uint32"; lit "uint"; lit "uinteger"], UInt32);
  ([lit "uint64"; lit "ubigint"], UInt64);
  ([lit "float32"; lit "float"; lit "real"], Float32);
  ([lit "float64"; lit "double"], Float64);
  ([lit "time"], Time64 Microsecond);
  ([lit "date"], Date32);
  ([lit "timestamp"], Timestamp Microsecond None);
  ([lit "timestamptz"; lit "timestamp with time zone"], Timestamp Microsecond (Some (lit "UTC")));
  ([lit "timestamptz_ns"], Timestamp Nanosecond (Some (lit "UTC")));
  ([lit "timestamp_s"], Timestamp Second None);
  ([lit "timestamp_ms"], Timestamp Millisecond None);
  ([lit "timestamp_ns"], Timestamp Nanosecond None);
  ([lit "interval"], Interval MonthDayNano);
  ([lit "varchar"; lit "text"; lit "string"], Utf8View);
  ([lit "json"], Utf8View);
  ([lit "blob"; lit "binary"; lit "bytea"], BinaryView);
  ([lit "uuid"], FixedSizeBinary 16);
  ([lit "point"; lit "linestring"; lit "polygon"; lit "multipoint"; lit "multilinestring"; lit "multipolygon";
    lit "geometrycollection"; lit "linestring z"; lit "geometry"], Binary);
  ([lit "timetz"; lit "time with time zone"], Utf8View)].

Definition basic_type (name : str) : option DataType :=
  snd <$> find_first (fun '(names, _) => bool_decide (name ∈ names)) basic_types.

(** [ducklake_to_arrow_type_inner]. *)
Fixpoint ducklake_to_arrow_type_inner (levels : nat) (ducklake_type : str) : result DataType :=
  match levels with
  | O => Err (UnsupportedType ("Type exceeds maximum nesting depth " ++ show_nat MAX_NESTED_TYPE_DEPTH))
  | S levels =>
      let type_str := trim ducklake_type in
      let inner := ducklake_to_arrow_type_inner levels in
      let? decimal := parse_decimal type_str in
      match decimal with
      | Some t => Ok t
      | None =>
          let? list_type := parse_list_type inner type_str in
          match list_type with
          | Some t => Ok t
          | None =>
              let? struct_type := parse_struct_type inner type_str in
              match struct_type with
              | Some t => Ok t
              | None =>
                  let? map_type := parse_map_type inner type_str in
                  match map_type with
                  | Some t => Ok t
                  | None => ok_or (basic_type (to_ascii_lowercase type_str)) (UnsupportedType ducklake_type)
                  end
              end
          end
      end
  end.

Definition ducklake_to_arrow_type : str -> result DataType :=
  ducklake_to_arrow_type_inner (S MAX_NESTED_TYPE_DEPTH).

(** ** Printing *)

(** [arrow_to_ducklake_type]. *)
Fixpoint arrow_to_ducklake_type (arrow_type : DataType) : result str :=
  match arrow_type with
  | Boolean => Ok (lit "boolean")
  | Int8 => Ok (lit "int8")
  | Int16 => Ok (lit "int16")
  | Int32 => Ok (lit "int32")
  | Int64 => Ok (lit "int64")
  | UInt8 => Ok (lit "uint8")
  | UInt16 => Ok (lit "uint16")
  | UInt32 => Ok (lit "uint32")
  | UInt64 => Ok (lit "uint64")
  | Float32 => Ok (lit "float32")
  | Float64 => Ok (lit "float64")
  | Date32 | Date64 => Ok (lit "date")
  | Time32 _ | Time64 _ => Ok (lit "time")
  | Timestamp Second None => Ok (lit "timestamp_s")
  | Timestamp Millisecond None => Ok (lit "timestamp_ms")
  | Timestamp Microsecond None => Ok (lit "timestamp")
  | Timestamp Nanosecond None => Ok (lit "timestamp_ns")
  | Timestamp Nanosecond (Some _) => Ok (lit "timestamptz_ns")
  | Timestamp _ (Some _) => Ok (lit "timestamptz")
  | Interval _ => Ok (lit "interval")
  | Utf8 | LargeUtf8 | Utf8View => Ok (lit "varchar")
  | Binary | LargeBinary | BinaryView => Ok (lit "blob")
  | FixedSizeBinary width => Ok (if width =? 16 then lit "uuid" else lit "blob")
  | Decimal128 precision scale | Decimal256 precision scale =>
      Ok ("decimal(" ++ show_Z precision ++ ", " ++ show_Z scale ++ ")")
  | Null => Ok (lit "varchar")
  | Dictionary _ value => arrow_to_ducklake_type value
  | List (_, element, _) | LargeList (_, element, _) | FixedSizeList (_, element, _) _ =>
      let? inner := arrow_to_ducklake_type element in
      Ok ("list<" ++ inner ++ ">")
  | Struct fields =>
      let? texts := (fix print_fields (fields : list Field) : result (list str) :=
                       match fields with
                       | [] => Ok []
                       | (name, t, _) :: rest =>
                           let? text := arrow_to_ducklake_type t in
                           let? texts := print_fields rest in
                           Ok ((name ++ ":" ++ text) :: texts)
                       end) fields in
      Ok ("struct<" ++ join "," texts ++ ">")
  | Map (_, entries, _) _ =>
      match entries with
      | Struct [(_, key, _); (_, value, _)] =>
          let? key := arrow_to_ducklake_type key in
          let? value := arrow_to_ducklake_type value in
          Ok ("map<" ++ key ++ "," ++ value ++ ">")
      | Struct _ => Err (UnsupportedType "Arrow maps must have key and value fields")
      | _ => Err (UnsupportedType "Arrow map entries must be a struct")
      end
  | Float16 | OtherType _ => Err (UnsupportedType "Arrow type has no DuckLake equivalent")
  end.

(** ** Comparing type texts *)

(** [normalize_ducklake_type]. *)
Definition normalize_ducklake_type (ducklake_type : str) : result str :=
  let? arrow_type := ducklake_to_arrow_type ducklake_type in
  arrow_to_ducklake_type arrow_type.

Definition signed_int_rank (t : DataType) : option Z :=
  match t with Int8 => Some 0 | Int16 => Some 1 | Int32 => Some 2 | Int64 => Some 3 | _ => None end.
Definition unsigned_int_rank (t : DataType) : option Z :=
  match t with UInt8 => Some 0 | UInt16 => Some 1 | UInt32 => Some 2 | UInt64 => Some 3 | _ => None end.

(** [is_arrow_promotable]. *)
Definition is_arrow_promotable (from to : DataType) : bool :=
  if bool_decide (from = to) then true
  else match signed_int_rank from, signed_int_rank to with
  | Some from_rank, Some to_rank => from_rank <? to_rank
  | _, _ =>
      match unsigned_int_rank from, unsigned_int_rank to with
      | Some from_rank, Some to_rank => from_rank <? to_rank
      | _, _ => match from, to with Float32, Float64 => true | _, _ => false end
      end
  end.

Definition is_promotable (from to : str) : bool :=
  match ducklake_to_arrow_type from, ducklake_to_arrow_type to with
  | Ok from_arrow, Ok to_arrow => is_arrow_promotable from_arrow to_arrow
  | _, _ => false
  end.

(** [types_equal_canonical]. *)
Definition types_equal_canonical (a b : str) : bool :=
  match normalize_ducklake_type a, normalize_ducklake_type b with
  | Ok na, Ok nb => str_eqb na nb
  | _, _ => false
  end.

(** [types_compatible]. *)
Definition types_compatible (existing_type new_type : str) : bool :=
  match normalize_ducklake_type existing_type, normalize_ducklake_type new_type with
  | Ok existing, Ok new => if str_eqb existing new then true else is_promotable existing_type new_type
  | _, _ => false
  end.

(** [refuses_inlining]: geometries. *)
Definition GEOMETRY_TYPES : list str :=
  [lit "geometry"; lit "point"; lit "linestring"; lit "polygon"; lit "multipoint"; lit "multilinestring";
   lit "multipolygon"; lit "geometrycollection"; lit "linestring z"].

Definition refuses_inlining (column_type : str) : bool :=
  existsb (fun geometry => eq_ignore_ascii_case geometry (trim column_type)) GEOMETRY_TYPES.

(** ** Nesting *)

(** The nesting at the end of a text in which it never goes below zero and no
    separator of [seps] is at the top. *)
Fixpoint inside (seps : list ascii) (depth : Z * Z) (s : str) : option (Z * Z) :=
  match s with
  | [] => Some depth
  | c :: s' =>
      let depth := nest depth c in
      if below depth then None
      else if bool_decide (c ∈ seps) && at_top depth then None
      else inside seps depth s'
  end.

Definition both : list ascii := [","%char; ":"%char].

(** Balanced, and without a separator at the top. *)
Definition closed (s : str) : Prop := inside both (0, 0) s = Some (0, 0).

Lemma inside_app seps s t : forall d,
  inside seps d (s ++ t) = d' ← inside seps d s; inside seps d' t.
Proof. induction s as [|c s IH]; intros d; cbn; [done|]. case_if; [done|]. case_if; [done|]. apply IH. Qed.

Lemma inside_weaken seps seps' s : forall d d',
  seps' ⊆ seps -> inside seps d s = Some d' -> inside seps' d s = Some d'.
Proof.
  induction s as [|c s IH]; intros d d' Hs; cbn; [done|]. case_if; [done|].
  destruct (bool_decide (c ∈ seps)) eqn:E1; cbn.
  - case_if; [done|]. rewrite andb_false_r. by apply IH.
  - rewrite bool_decide_false; [by apply IH|]. apply bool_decide_eq_false in E1. set_solver.
Qed.

Lemma nest_shift d c x y : nest (d.1 + x, d.2 + y) c = ((nest d c).1 + x, (nest d c).2 + y).
Proof. destruct d as [a p]; cbn. repeat case_if; cbn; f_equal; lia. Qed.

Lemma inside_lift seps s x y : forall d d', 0 <= x -> 0 <= y ->
  inside seps d s = Some d' -> inside seps (d.1 + x, d.2 + y) s = Some (d'.1 + x, d'.2 + y).
Proof.
  induction s as [|c s IH]; intros d d' Hx Hy; cbn [inside]; [by intros [= <-]|].
  cbv zeta. rewrite nest_shift. destruct (below (nest d c)) eqn:Eb; [done|].
  destruct (nest d c) as [a p] eqn:En. cbn [fst snd]. unfold below in Eb. cbn in Eb. breflect.
  assert (below (a + x, p + y) = false) as -> by (unfold below; cbn; lia).
  destruct (bool_decide (c ∈ seps)); cbn [andb].
  - unfold at_top at 1. cbn. destruct (_ && _) eqn:Et; [done|]. breflect. unfold at_top; cbn [fst snd].
    assert ((a + x =? 0) && (p + y =? 0) = false) as -> by lia. intros Hi. by apply (IH (a, p)).
  - intros Hi. by apply (IH (a, p)).
Qed.

Lemma split_inside sep s : forall d d' piece r,
  inside [sep] d s = Some d' -> split_pieces sep d piece (s ++ r) = split_pieces sep d' (piece ++ s) r.
Proof.
  induction s as [|c s IH]; intros d d' piece r; cbn; [intros [= <-]; by rewrite app_nil_r|].
  case_if; [done|]. destruct (char_eqb c sep) eqn:Ec; cbn [andb].
  - apply char_eqb_eq in Ec as ->. rewrite bool_decide_true by set_solver. cbn [andb]. case_if; [done|].
    intros H. rewrite (IH _ _ _ _ H), <- app_assoc. done.
  - apply char_eqb_neq in Ec. rewrite bool_decide_false by set_solver. cbn [andb].
    intros H. rewrite (IH _ _ _ _ H), <- app_assoc. done.
Qed.

Lemma separator_inside sep s : forall d d' r,
  inside [sep] d s = Some d' ->
  separator_from sep d (s ++ r) = Nat.add (length s) <$> separator_from sep d' r.
Proof.
  induction s as [|c s IH]; intros d d' r; cbn.
  { intros [= <-]. by destruct (separator_from sep d r). }
  case_if; [done|]. destruct (char_eqb c sep) eqn:Ec; cbn [andb].
  - apply char_eqb_eq in Ec as ->. rewrite bool_decide_true by set_solver. cbn [andb]. case_if; [done|].
    intros H. rewrite (IH _ _ _ H). by destruct (separator_from sep d' r).
  - apply char_eqb_neq in Ec. rewrite bool_decide_false by set_solver. cbn [andb].
    intros H. rewrite (IH _ _ _ H). by destruct (separator_from sep d' r).
Qed.

(** Pieces joined with the separator are split again. *)
Lemma split_join sep pieces :
  nest (0, 0) sep = (0, 0) -> pieces <> [] -> Forall (fun p => inside [sep] (0, 0) p = Some (0, 0)) pieces ->
  split_pieces sep (0, 0) [] (join [sep] pieces) = Some (trim <$> pieces).
Proof.
  intros Hsep Hne Hall. induction Hall as [|p pieces Hp Hall IH]; [done|].
  destruct pieces as [|q pieces].
  - cbn [join]. rewrite <- (app_nil_r p) at 1. rewrite (split_inside _ _ _ _ _ _ Hp). done.
  - rewrite join_cons by done. rewrite (split_inside _ _ _ _ _ _ Hp). cbn [app split_pieces].
    cbv zeta. rewrite Hsep. cbn [below at_top fst snd]. rewrite char_eqb_refl. cbn [andb orb].
    change (below (0, 0)) with false. change (at_top (0, 0)) with true. cbn [andb].
    rewrite IH by done. done.
Qed.

(** ** Trimming *)

(** A byte of a white-space character neither opens, closes nor separates. *)
Definition neutral (c : ascii) : Prop := c ∉ ["<"; ">"; "("; ")"; ","; ":"]%char.

Lemma neutral_nest d c : neutral c -> nest d c = d.
Proof.
  unfold neutral. intros H. destruct d as [a p]. unfold nest.
  assert (forall e, e ∈ ["<"; ">"; "("; ")"; ","; ":"]%char -> char_eqb c e = false) as Hne.
  { intros e He. apply char_eqb_neq. by intros ->. }
  by rewrite !Hne by set_solver.
Qed.

Lemma ws_head_neutral s n : ws_head s = Some n -> Forall neutral (take n s).
Proof.
  assert (forall c, ~ neutral c -> 33 <= byte_val c < 128) as Hbyte.
  { intros c Hc. unfold neutral in Hc. apply dec_stable in Hc.
    rewrite !elem_of_cons, elem_of_nil in Hc. destruct_or! Hc; by subst. }
  assert (forall c, byte_val c < 33 \/ 128 <= byte_val c -> neutral c) as Hn.
  { intros c Hc. destruct (decide (neutral c)) as [|Hc']; [done|]. specialize (Hbyte c Hc'). lia. }
  unfold ws_head. destruct s as [|b0 s]; [done|]. cbn [fmap list_fmap].
  destruct (_ || _) eqn:E0; [intros [= <-]; constructor; [apply Hn; lia|constructor]|]. clear E0.
  destruct s as [|b1 s]; [done|]. cbn [fmap list_fmap].
  destruct (_ && _) eqn:E1; [intros [= <-]; repeat constructor; apply Hn; lia|]. clear E1.
  destruct s as [|b2 s]; [done|]. cbn [fmap list_fmap].
  destruct (_ || _) eqn:E2; [|done]. intros [= <-]. repeat constructor; apply Hn; lia.
Qed.

Lemma ws_tail_neutral r n : ws_tail r = Some n -> Forall neutral (take n r).
Proof.
  unfold ws_tail. intros H. repeat case_bool_decide; simplify_eq.
  - match goal with E : ws_head (take 1 r) = _ |- _ => apply ws_head_neutral in E; rewrite take_take in E; exact E end.
  - match goal with E : ws_head _ = Some 2%nat |- _ => apply ws_head_neutral in E end.
    rewrite take_ge in * by (rewrite length_reverse, length_take; lia). by apply Forall_reverse.
  - match goal with E : ws_head _ = Some 3%nat |- _ => apply ws_head_neutral in E end.
    rewrite take_ge in * by (rewrite length_reverse, length_take; lia). by apply Forall_reverse.
Qed.

Lemma strip_ws_neutral step f : (forall s n, step s = Some n -> Forall neutral (take n s)) ->
  forall s, exists a, s = a ++ strip_ws step f s /\ Forall neutral a.
Proof.
  intros Hstep. induction f as [|f IH]; intros s; cbn; [by exists []|].
  destruct (step s) as [n|] eqn:E; [|by exists []].
  destruct (IH (drop n s)) as (a & Ha & Hn). exists (take n s ++ a). split.
  - rewrite <- app_assoc, <- Ha. by rewrite take_drop.
  - apply Forall_app. split; [by apply Hstep|done].
Qed.

Lemma trim_neutral s : exists a b, s = a ++ trim s ++ b /\ Forall neutral a /\ Forall neutral b.
Proof.
  destruct (strip_ws_neutral ws_head (length s) ws_head_neutral s) as (a & Ha & Hna).
  fold (trim_start s) in Ha.
  destruct (strip_ws_neutral ws_tail (length (trim_start s)) ws_tail_neutral (reverse (trim_start s))) as (b & Hb & Hnb).
  exists a, (reverse b). split; [|split; [done|by apply Forall_reverse]].
  unfold trim, trim_end. rewrite Ha at 1. f_equal. rewrite <- (reverse_involutive (trim_start s)) at 1.
  rewrite Hb at 1. by rewrite reverse_app.
Qed.

Lemma inside_neutral seps a : forall d d', (forall c, c ∈ seps -> ~ neutral c) -> Forall neutral a ->
  below d = false -> inside seps d a = Some d' -> d' = d.
Proof.
  induction a as [|c a IH]; intros d d' Hs; cbn; [congruence|]. intros Hall Hb.
  apply Forall_cons in Hall as [Hc Ha]. rewrite (neutral_nest d c Hc), Hb.
  case_if; [done|]. by apply IH.
Qed.

Lemma inside_neutral_run seps a : forall d, (forall c, c ∈ seps -> ~ neutral c) -> Forall neutral a ->
  below d = false -> inside seps d a = Some d.
Proof.
  induction a as [|c a IH]; intros d Hs Hall Hb; cbn; [done|]. apply Forall_cons in Hall as [Hc Ha].
  rewrite (neutral_nest d c Hc), Hb. rewrite bool_decide_false by (intros Hin; by apply (Hs c)).
  cbn [andb]. by apply IH.
Qed.

Lemma seps_special c : c ∈ both -> ~ neutral c.
Proof. unfold both, neutral. set_solver. Qed.

Lemma inside_below seps s : forall d d', below d = false -> inside seps d s = Some d' -> below d' = false.
Proof. induction s as [|c s IH]; intros d d' Hb; cbn; [congruence|]. case_if; [done|]. case_if; [done|]. by apply IH. Qed.

(** Trimming keeps a text balanced. *)
Lemma inside_trim seps s : (forall c, c ∈ seps -> ~ neutral c) ->
  inside seps (0, 0) s = Some (0, 0) -> inside seps (0, 0) (trim s) = Some (0, 0).
Proof.
  intros Hs. destruct (trim_neutral s) as (a & b & Hab & Ha & Hb). rewrite Hab at 1. rewrite !inside_app.
  rewrite (inside_neutral_run seps a (0, 0)) by done. cbn [mbind option_bind]. rewrite inside_app.
  destruct (inside seps (0, 0) (trim s)) as [d|] eqn:E; [|done]. cbn [mbind option_bind]. intros H.
  pose proof (inside_below _ _ (0, 0) _ eq_refl E) as Hbelow. by apply inside_neutral in H as ->.
Qed.

Lemma ws_head_cut a c r : plain_char c = true -> a <> [] -> ws_head (a ++ c :: r) = ws_head a.
Proof.
  unfold plain_char. intros H Ha. breflect. unfold ws_head.
  destruct a as [|a0 a]; [done|]. cbn [app fmap list_fmap]. case_if; [done|].
  destruct a as [|a1 a]; cbn [app fmap list_fmap].
  { assert (byte_val c =? 133 = false) as -> by lia. assert (byte_val c =? 160 = false) as -> by lia.
    rewrite andb_false_r. destruct r as [|r0 r]; [done|]. cbn [fmap list_fmap].
    assert (byte_val c =? 154 = false) as -> by lia. assert (byte_val c =? 128 = false) as -> by lia.
    assert (byte_val c =? 129 = false) as -> by lia. by rewrite !andb_false_r. }
  case_if; [done|]. destruct a as [|a2 a]; cbn [app fmap list_fmap]; [|done].
  assert (byte_val c =? 128 = false) as -> by lia. assert (128 <=? byte_val c = false) as -> by lia.
  assert (byte_val c =? 168 = false) as -> by lia. assert (byte_val c =? 169 = false) as -> by lia.
  assert (byte_val c =? 175 = false) as -> by lia. assert (byte_val c =? 159 = false) as -> by lia.
  cbn [andb orb]. by rewrite !andb_false_r.
Qed.

Lemma strip_ws_length step f s : (length (strip_ws step f s) <= length s)%nat.
Proof. destruct (strip_ws_suffix step f s) as [p Hp]. rewrite Hp at 2. rewrite length_app. lia. Qed.

Lemma trim_fixed s : trim s = s -> s <> [] -> ws_head s = None.
Proof.
  intros Ht Hne. destruct (ws_head s) as [n|] eqn:E; [exfalso|done].
  pose proof (ws_head_range s n E) as Hn.
  assert (length (trim_start s) < length s)%nat as Hlt.
  { unfold trim_start. destruct s as [|c s']; [done|]. cbn [length strip_ws]. rewrite E.
    pose proof (strip_ws_length ws_head (length s') (drop n (c :: s'))) as Hl.
    rewrite length_drop in Hl. cbn [length] in *. lia. }
  assert (length (trim s) <= length (trim_start s))%nat as Hle.
  { unfold trim, trim_end. rewrite length_reverse.
    pose proof (strip_ws_length ws_tail (length (trim_start s)) (reverse (trim_start s))) as Hl.
    by rewrite length_reverse in Hl. }
  rewrite Ht in Hle. lia.
Qed.

(** A text that starts with no white space and ends with a plain character. *)
Lemma type_trim_ends s c r : ws_head s = None -> s = r ++ [c] -> plain_char c = true -> trim s = s.
Proof.
  intros Hh -> Hc. unfold trim. assert (trim_start (r ++ [c]) = r ++ [c]) as ->.
  { unfold trim_start. by apply strip_ws_id. }
  unfold trim_end. rewrite strip_ws_id; [by rewrite reverse_involutive|].
  rewrite reverse_app. cbn. by apply ws_tail_plain.
Qed.

(** ** The types a text can stand for *)

(** A name that survives between separators. *)
Definition good_name (name : str) : Prop := closed name /\ name <> [] /\ trim name = name.

Fixpoint readable (levels : nat) (t : DataType) : Prop :=
  match levels with
  | O => False
  | S n =>
      match t with
      | Decimal128 p s => 1 <= p <= 38 /\ -128 <= s <= p
      | Decimal256 p s => 39 <= p <= 76 /\ -128 <= s <= p
      | List (name, element, nullable) => name = LIST_ELEMENT_NAME /\ nullable = true /\ readable n element
      | Struct fields =>
          Forall (fun f : Field => good_name f.1.1 /\ f.2 = true /\ readable n f.1.2) fields
      | Map (name, entries, nullable) sorted =>
          name = lit "entries" /\ nullable = false /\ sorted = false
          /\ exists key value, entries = Struct [(lit "key", key, false); (lit "value", value, true)]
               /\ readable n key /\ readable n value
      | t => t ∈ basic_types.*2
      end
  end.

(** The layout read back: a geometry's text does not say that it is one. *)
Fixpoint canon (t : DataType) : DataType :=
  match t with
  | Binary => BinaryView
  | List (name, element, nullable) => List (name, canon element, nullable)
  | Struct fields => Struct (map (fun '(name, t, nullable) => (name, canon t, nullable)) fields)
  | Map (name, entries, nullable) sorted => Map (name, canon entries, nullable) sorted
  | t => t
  end.

(** A printed type: balanced, with plain ends. *)
Record type_text (s : str) : Prop := {
  text_closed : closed s;
  text_head : exists c r, s = c :: r /\ plain_char c = true;
  text_last : exists c r, s = r ++ [c] /\ plain_char c = true
}.

Lemma text_trim s : type_text s -> trim s = s.
Proof.
  intros [_ (c & r & -> & Hc) (d & q & Hq & Hd)]. eapply (type_trim_ends _ d q); [|done|done]. by apply ws_head_plain.
Qed.

Lemma text_nonempty s : type_text s -> is_empty s = false.
Proof. by intros [_ (c & r & -> & Hc) _]. Qed.

Lemma lowercase_app a b : to_ascii_lowercase (a ++ b) = to_ascii_lowercase a ++ to_ascii_lowercase b.
Proof. apply fmap_app. Qed.

Lemma removelast_snoc s c : removelast_byte (s ++ [c]) = s.
Proof. unfold removelast_byte. rewrite length_app. cbn. rewrite Nat.add_sub. apply take_app_length. Qed.

Lemma ends_snoc s c : ends_with [c] (s ++ [c]) = true.
Proof. apply ends_with_spec. by exists s. Qed.

Lemma no_brackets s c : c <> "]"%char -> strip_suffix "[]" (s ++ [c]) = None.
Proof.
  intros Hc. destruct (strip_suffix _ _) as [r|] eqn:E; [|done]. apply strip_suffix_spec in E.
  change (lit "[]") with (["["%char] ++ ["]"%char]) in E. rewrite app_assoc in E. apply app_inj_tail in E as [_ E]. done.
Qed.

(** No decimal, by its first character. *)
Lemma not_decimal c s : trim (c :: s) = c :: s -> char_to_lower c <> "d"%char -> char_to_lower c <> "n"%char ->
  parse_decimal (c :: s) = Ok None.
Proof.
  intros Ht Hd Hn. unfold parse_decimal. rewrite Ht. cbn [find_map to_ascii_lowercase fmap list_fmap].
  assert (forall p x r, x <> char_to_lower c -> strip_prefix (x :: p) (char_to_lower c :: r) = None) as Hs.
  { intros p x r Hx. cbn. apply char_eqb_neq in Hx. by rewrite Hx. }
  change (lit "decimal") with ("d"%char :: lit "ecimal"). change (lit "numeric") with ("n"%char :: lit "umeric").
  by rewrite !Hs by congruence.
Qed.

Lemma starts_other p x c s : char_to_lower c <> x -> starts_with (x :: p) (to_ascii_lowercase (c :: s)) = false.
Proof. intros Hx. unfold starts_with. cbn. assert (char_eqb x (char_to_lower c) = false) as -> by (apply char_eqb_neq; congruence). done. Qed.

Lemma starts_app p s : to_ascii_lowercase p = p -> starts_with p (to_ascii_lowercase (p ++ s)) = true.
Proof. intros Hp. apply starts_with_spec. exists (to_ascii_lowercase s). by rewrite lowercase_app, Hp. Qed.

Section round.
Variable n : nat.
Abbreviation inner := (ducklake_to_arrow_type_inner n).

(** The text of a nested type, which is neither a decimal nor [type[]]. *)
Lemma parse_list_text s t : type_text s -> inner s = Ok t ->
  ducklake_to_arrow_type_inner (S n) ("list<" ++ s ++ ">") = Ok (List (LIST_ELEMENT_NAME, t, true)).
Proof.
  intros Hs Hi. cbn [ducklake_to_arrow_type_inner]. set (text := lit "list<" ++ s ++ lit ">").
  assert (text = "l"%char :: (lit "ist<" ++ s ++ lit ">")) as Hhead by done.
  assert (text = (lit "list<" ++ s) ++ [">"%char]) as Hlast by (unfold text; by rewrite <- app_assoc).
  assert (trim text = text) as Htrim.
  { eapply (type_trim_ends _ ">"%char); [by rewrite Hhead; apply ws_head_plain|exact Hlast|done]. }
  rewrite Htrim. rewrite Hhead at 1. rewrite not_decimal; [|by rewrite <- Hhead, Htrim|done|done]. cbn [result_bind].
  unfold parse_list_type. unfold text at 1. rewrite starts_app by done. cbn [orb].
  rewrite Hlast at 1. change (lit ">") with [">"%char]. rewrite ends_snoc.
  unfold text. change (lit "list<" ++ s ++ lit ">") with (lit "list" ++ "<"%char :: (s ++ [">"%char])).
  change (lit "<") with ["<"%char]. rewrite split_once_char by (unfold lit; cbn; set_solver).
  cbn [mbind option_bind]. rewrite removelast_snoc, (text_trim s Hs), (text_nonempty s Hs), Hi. done.
Qed.

Lemma parse_struct_text body fields :
  (body = [] /\ fields = [] \/ body <> [] /\ exists pieces, split_top_level body "," = Ok pieces
                            /\ mapM_result (parse_struct_field inner) pieces = Ok fields) ->
  ducklake_to_arrow_type_inner (S n) ("struct<" ++ body ++ ">") = Ok (Struct fields).
Proof.
  intros Hbody. cbn [ducklake_to_arrow_type_inner]. set (text := lit "struct<" ++ body ++ lit ">").
  assert (text = "s"%char :: (lit "truct<" ++ body ++ lit ">")) as Hhead by done.
  assert (text = (lit "struct<" ++ body) ++ [">"%char]) as Hlast by (unfold text; by rewrite <- app_assoc).
  assert (trim text = text) as Htrim.
  { eapply (type_trim_ends _ ">"%char (lit "struct<" ++ body)); [by rewrite Hhead; apply ws_head_plain|done|done]. }
  rewrite Htrim. rewrite Hhead at 1. rewrite not_decimal; [|by rewrite <- Hhead, Htrim|done|done]. cbn [result_bind].
  unfold parse_list_type. rewrite Hhead at 1 2. change (lit "list<") with ("l"%char :: lit "ist<").
  change (lit "array<") with ("a"%char :: lit "rray<"). rewrite !starts_other by done. cbn [orb].
  rewrite Hlast at 1. rewrite no_brackets by done. cbn [result_bind].
  unfold parse_struct_type. unfold text at 1. rewrite starts_app by done. cbn [negb].
  rewrite Hlast at 1. change (lit ">") with [">"%char]. rewrite ends_snoc. cbn [negb].
  assert (removelast_byte (drop 7 text) = body) as ->.
  { unfold text. change (drop 7 (lit "struct<" ++ body ++ lit ">")) with (body ++ [">"%char]). apply removelast_snoc. }
  destruct Hbody as [[-> ->]|(Hne & pieces & Hsplit & Hfields)]; [done|].
  destruct body as [|c body]; [done|]. cbn [is_empty]. rewrite Hsplit. cbn [result_bind]. by rewrite Hfields.
Qed.

Lemma parse_map_text key value k v : type_text key -> type_text value -> inner key = Ok k -> inner value = Ok v ->
  ducklake_to_arrow_type_inner (S n) ("map<" ++ key ++ "," ++ value ++ ">")
  = Ok (Map (lit "entries", Struct [(lit "key", k, false); (lit "value", v, true)], false) false).
Proof.
  intros Hk Hv Hik Hiv. cbn [ducklake_to_arrow_type_inner]. set (text := lit "map<" ++ key ++ lit "," ++ value ++ lit ">").
  assert (text = "m"%char :: (lit "ap<" ++ key ++ lit "," ++ value ++ lit ">")) as Hhead by done.
  assert (text = (lit "map<" ++ key ++ lit "," ++ value) ++ [">"%char]) as Hlast by (unfold text; by rewrite <- !app_assoc).
  assert (trim text = text) as Htrim.
  { eapply (type_trim_ends _ ">"%char); [by rewrite Hhead; apply ws_head_plain|exact Hlast|done]. }
  rewrite Htrim. rewrite Hhead at 1. rewrite not_decimal; [|by rewrite <- Hhead, Htrim|done|done]. cbn [result_bind].
  unfold parse_list_type. rewrite Hhead at 1 2. change (lit "list<") with ("l"%char :: lit "ist<").
  change (lit "array<") with ("a"%char :: lit "rray<"). rewrite !starts_other by done. cbn [orb].
  rewrite Hlast at 1. rewrite no_brackets by done. cbn [result_bind].
  unfold parse_struct_type. rewrite Hhead at 1. change (lit "struct<") with ("s"%char :: lit "truct<").
  rewrite starts_other by done. cbn [negb result_bind].
  unfold parse_map_type. unfold text at 1. rewrite starts_app by done. cbn [negb].
  rewrite Hlast at 1. change (lit ">") with [">"%char]. rewrite ends_snoc. cbn [negb].
  assert (removelast_byte (drop 4 text) = join [","%char] [key; value]) as ->.
  { rewrite Hlast. change (drop 4 ((lit "map<" ++ key ++ lit "," ++ value) ++ [">"%char])) with ((key ++ lit "," ++ value) ++ [">"%char]).
    apply removelast_snoc. }
  unfold split_top_level. rewrite split_join; [|done|done|].
  2:{ repeat constructor; (eapply inside_weaken; [|apply text_closed; done]); unfold both; set_solver. }
  cbn [ok_or result_bind fmap list_fmap]. rewrite !text_trim, Hik, Hiv by done. done.
Qed.
End round.

(** ** Printing, then parsing *)

Lemma inside_plain_run seps s d : Forall (fun c => neutral c) s -> (forall c, c ∈ seps -> ~ neutral c) ->
  below d = false -> inside seps d s = Some d.
Proof. intros. by apply inside_neutral_run. Qed.

Lemma digit_neutral c : is_ascii_digit c = true \/ c = "-"%char -> neutral c.
Proof.
  intros H. destruct (decide (neutral c)) as [|Hc]; [done|]. unfold neutral in Hc. apply dec_stable in Hc.
  rewrite !elem_of_cons, elem_of_nil in Hc. destruct H as [H| ->]; destruct_or! Hc; by subst.
Qed.

Lemma show_Z_neutral z : Forall neutral (show_Z z).
Proof. eapply Forall_impl; [apply show_Z_chars|]. intros c Hc. by apply digit_neutral. Qed.

Lemma lower_digits s : Forall neutral s -> Forall (fun c => is_ascii_digit c = true \/ c = "-"%char) s -> to_ascii_lowercase s = s.
Proof.
  intros _ H. induction H as [|c s Hc _ IH]; [done|]. cbn. f_equal; [|exact IH].
  unfold char_to_lower, is_ascii_uppercase, is_ascii_digit in *. destruct Hc as [Hc| ->]; [|done].
  case_if; [|done]. breflect. lia.
Qed.

Definition decimal_text (p s : Z) : str := "decimal(" ++ show_Z p ++ ", " ++ show_Z s ++ ")".

Lemma decimal_text_ok p s : type_text (decimal_text p s).
Proof.
  unfold decimal_text. split.
  - unfold closed. rewrite (inside_app both (lit "decimal(")). change (inside both (0, 0) (lit "decimal(")) with (Some (0, 1)).
    cbn [mbind option_bind]. rewrite inside_app, (inside_neutral_run both (show_Z p) (0, 1)); [|apply seps_special|apply show_Z_neutral|done].
    cbn [mbind option_bind]. rewrite inside_app. change (inside both (0, 1) (lit ", ")) with (Some (0, 1)).
    cbn [mbind option_bind]. rewrite inside_app, (inside_neutral_run both (show_Z s) (0, 1)); [|apply seps_special|apply show_Z_neutral|done].
    done.
  - by exists "d"%char, (lit "ecimal(" ++ show_Z p ++ lit ", " ++ show_Z s ++ lit ")").
  - exists ")"%char, (lit "decimal(" ++ show_Z p ++ lit ", " ++ show_Z s). by rewrite <- !app_assoc.
Qed.

Lemma parse_decimal_text p s : 1 <= p <= 76 -> -128 <= s <= p ->
  parse_decimal (decimal_text p s) = Ok (Some (decimal_data_type p s)).
Proof.
  intros Hp Hs. unfold parse_decimal. rewrite (text_trim _ (decimal_text_ok p s)). unfold decimal_text at 1.
  rewrite !lowercase_app, (lower_digits (show_Z p)), (lower_digits (show_Z s)) by auto using show_Z_neutral, show_Z_chars.
  set (rest := show_Z p ++ lit ", " ++ show_Z s ++ lit ")").
  change (to_ascii_lowercase (lit "decimal(") ++ show_Z p ++ to_ascii_lowercase (lit ", ") ++ show_Z s ++ to_ascii_lowercase (lit ")"))
    with (lit "decimal" ++ "("%char :: rest).
  cbn [find_map]. rewrite (proj2 (strip_prefix_spec (lit "decimal") _ ("("%char :: rest))) by done.
  assert (trim_start ("("%char :: rest) = "("%char :: rest) as -> by (apply strip_ws_id; by apply ws_head_plain).
  change (starts_with (lit "(") ("("%char :: rest)) with true. cbn [negb].
  assert (decimal_text p s = lit "decimal(" ++ rest) as -> by done.
  assert ((length (lit "decimal(" ++ rest) - length ("("%char :: rest))%nat = 7%nat) as ->.
  { rewrite length_app. cbn [length lit]. change (length (lit "decimal(")) with 8%nat. lia. }
  change (drop (7 + 1) (lit "decimal(" ++ rest)) with rest.
  assert (rest = (show_Z p ++ ","%char :: (" "%char :: show_Z s)) ++ lit ")") as Hrest.
  { unfold rest. rewrite <- app_assoc. done. }
  rewrite (proj2 (strip_suffix_spec (lit ")") rest _) Hrest).
  assert (existsb is_paren (show_Z p ++ ","%char :: " "%char :: show_Z s) = false) as ->.
  { apply existsb_false_iff, Forall_app. split; [|repeat (constructor; [done|])].
    all: eapply Forall_impl; [apply show_Z_neutral|]; intros c Hc; unfold is_paren, neutral in *;
      rewrite !(proj2 (char_eqb_neq _ _)); set_solver. }
  assert (split_on (char_eqb ",") (show_Z p ++ ","%char :: " "%char :: show_Z s) = [show_Z p; " "%char :: show_Z s]) as ->.
  { assert (forall z, Forall (fun c => char_eqb "," c = false) (show_Z z)) as Hz.
    { intros z. eapply Forall_impl; [apply show_Z_neutral|]. intros c Hc. unfold neutral in Hc. apply char_eqb_neq. set_solver. }
    rewrite split_on_app_sep; [|apply Hz|done]. f_equal. apply split_on_no_sep. constructor; [done|apply Hz]. }
  cbn [fmap list_fmap]. rewrite trim_show_Z.
  assert (trim (" "%char :: show_Z s) = show_Z s) as ->.
  { unfold trim. assert (trim_start (" "%char :: show_Z s) = show_Z s) as ->.
    { unfold trim_start. cbn [length strip_ws]. change (ws_head (" "%char :: show_Z s)) with (Some 1%nat). cbn [drop].
      apply strip_ws_id. pose proof (show_Z_plain s) as Hpl. destruct (show_Z s) as [|c r]; [done|]. apply ws_head_plain. by inversion Hpl. }
    transitivity (trim (show_Z s)); [|apply trim_show_Z]. unfold trim. f_equal. symmetry. unfold trim_start.
    apply strip_ws_id. pose proof (show_Z_plain s) as Hpl. destruct (show_Z s) as [|c r]; [done|]. apply ws_head_plain. by inversion Hpl. }
  unfold parse_u8, parse_i8. assert (parse_unsigned 255 (show_Z p) = Some p) as ->.
  { unfold show_Z. assert (p <? 0 = false) as -> by lia. apply parse_show_u. lia. }
  rewrite parse_show_Z by lia. cbn [ok_or result_bind]. unfold validate_decimal_precision_scale, DECIMAL_MAX_PRECISION.
  assert (p =? 0 = false) as -> by lia. assert (76 <? p = false) as -> by lia.
  assert (p <? s = false) as -> by lia. rewrite andb_false_r. done.
Qed.

Definition print_field (f : Field) : result str :=
  let '(name, t, _) := f in
  let? text := arrow_to_ducklake_type t in
  Ok (name ++ ":" ++ text).

Lemma print_struct fields :
  arrow_to_ducklake_type (Struct fields)
  = let? texts := mapM_result print_field fields in Ok ("struct<" ++ join "," texts ++ ">").
Proof.
  cbn [arrow_to_ducklake_type]. f_equal. induction fields as [|[[name t] nullable] fields IH]; [done|].
  cbn [mapM_result print_field]. destruct (arrow_to_ducklake_type t); [|done]. cbn [result_bind]. by rewrite IH.
Qed.

(** One level down no separator is at the top. *)
Lemma inside_deep seps seps' s : forall d d', below d = false ->
  inside seps d s = Some d' -> inside seps' (d.1 + 1, d.2) s = Some (d'.1 + 1, d'.2).
Proof.
  induction s as [|c s IH]; intros d d' Hb; cbn [inside]; [by intros [= <-]|]. cbv zeta.
  replace (nest (d.1 + 1, d.2) c) with ((nest d c).1 + 1, (nest d c).2).
  2:{ rewrite <- (Z.add_0_r d.2) at 1. rewrite nest_shift. f_equal. lia. }
  destruct (below (nest d c)) eqn:E; [done|]. destruct (nest d c) as [a p]. cbn [fst snd]. unfold below in E. cbn in E.
  assert (below (a + 1, p) = false) as -> by (unfold below; cbn; lia).
  assert (at_top (a + 1, p) = false) as -> by (unfold at_top; cbn; lia). rewrite andb_false_r.
  case_if; [done|]. intros Hi. by apply (IH (a, p)).
Qed.

Lemma inside_join pieces : Forall (fun p => inside [","%char] (0, 0) p = Some (0, 0)) pieces ->
  inside both (1, 0) (join "," pieces) = Some (1, 0).
Proof.
  induction 1 as [|p pieces Hp _ IH]; [done|].
  pose proof (inside_deep _ both p (0, 0) (0, 0) eq_refl Hp) as Hdeep. cbn [fst snd] in Hdeep.
  destruct pieces as [|q pieces]; [exact Hdeep|].
  rewrite join_cons by done. rewrite inside_app. change (0 + 1) with 1 in Hdeep. rewrite Hdeep.
  cbn [mbind option_bind]. rewrite inside_app. exact IH.
Qed.

Lemma type_text_check s :
  closed s -> match s with c :: _ => plain_char c | [] => false end = true ->
  match reverse s with c :: _ => plain_char c | [] => false end = true -> type_text s.
Proof.
  intros Hc Hh Hl. split; [done|destruct s; [done|eauto]|].
  destruct (reverse s) as [|c r] eqn:E; [done|]. exists c, (reverse r). split; [|done].
  by rewrite <- (reverse_involutive s), E, reverse_cons.
Qed.

Lemma wrapped_text head body c : inside both (0, 0) head = Some (1, 0) -> inside both (1, 0) body = Some (1, 0) ->
  match head with c :: _ => plain_char c | [] => false end = true -> c = ">"%char -> type_text (head ++ body ++ [c]).
Proof.
  intros Hh Hb Hp ->. split.
  - unfold closed. rewrite inside_app, Hh. cbn [mbind option_bind]. rewrite inside_app, Hb. done.
  - destruct head as [|d head]; [done|]. by exists d, (head ++ body ++ [">"%char]).
  - exists ">"%char, (head ++ body). by rewrite <- app_assoc.
Qed.

(** What printing and parsing owe to a type. *)
Definition round_trips (n : nat) (t : DataType) : Prop :=
  exists s, arrow_to_ducklake_type t = Ok s /\ type_text s
    /\ ducklake_to_arrow_type_inner n s = Ok (canon t) /\ arrow_to_ducklake_type (canon t) = Ok s.

Lemma basic_round_trips n t : t ∈ basic_types.*2 -> round_trips (S n) t.
Proof.
  assert (Forall (round_trips (S n)) basic_types.*2) as H; [|rewrite Forall_forall in H; apply H].
  repeat constructor; (eexists; split; [reflexivity|]; split; [by apply type_text_check|split; reflexivity]).
Qed.

Lemma decimal_round_trips n p s : 1 <= p <= 76 -> -128 <= s <= p -> round_trips (S n) (decimal_data_type p s).
Proof.
  intros Hp Hs. exists (decimal_text p s). split; [|split; [apply decimal_text_ok|split]].
  - unfold decimal_data_type. by case_if.
  - cbn [ducklake_to_arrow_type_inner]. rewrite (text_trim _ (decimal_text_ok p s)), parse_decimal_text by done.
    unfold decimal_data_type. by case_if.
  - unfold decimal_data_type. by case_if.
Qed.

Lemma list_round_trips n t : round_trips n t -> round_trips (S n) (List (LIST_ELEMENT_NAME, t, true)).
Proof.
  intros (s & Hp & Ht & Hi & Hc). exists ("list<" ++ s ++ ">"). cbn [arrow_to_ducklake_type canon]. rewrite Hp, Hc.
  split; [done|]. split; [|split; [by apply parse_list_text|done]].
  apply wrapped_text; [done| |done|done]. pose proof (inside_deep _ both s (0, 0) _ eq_refl (text_closed s Ht)) as Hd. exact Hd.
Qed.

Lemma map_round_trips n k v : round_trips n k -> round_trips n v ->
  round_trips (S n) (Map (lit "entries", Struct [(lit "key", k, false); (lit "value", v, true)], false) false).
Proof.
  intros (s & Hp & Ht & Hi & Hc) (s' & Hp' & Ht' & Hi' & Hc'). exists ("map<" ++ s ++ "," ++ s' ++ ">").
  cbn [arrow_to_ducklake_type canon map]. rewrite Hp, Hp', Hc, Hc'. split; [done|]. split; [|split; [by apply parse_map_text|done]].
  assert (lit "map<" ++ s ++ lit "," ++ s' ++ lit ">" = lit "map<" ++ join "," [s; s'] ++ [">"%char]) as ->.
  { cbn [join]. by rewrite <- !app_assoc. }
  apply wrapped_text; [done| |done|done]. apply inside_join. repeat constructor;
    (eapply inside_weaken; [|apply text_closed; done]); unfold both; set_solver.
Qed.

(** A field's text between separators, and read back. *)
Lemma field_text name s : good_name name -> type_text s ->
  inside [","%char] (0, 0) (name ++ ":" ++ s) = Some (0, 0) /\ trim (name ++ ":" ++ s) = name ++ ":" ++ s.
Proof.
  intros (Hn & Hne & Htrim) Hs. split.
  - rewrite inside_app, (inside_weaken both _ name (0, 0) (0, 0)); [|unfold both; set_solver|done]. cbn [mbind option_bind].
    rewrite inside_app. change (inside [","%char] (0, 0) (lit ":")) with (Some (0, 0)). cbn [mbind option_bind].
    eapply inside_weaken; [|apply text_closed; done]. unfold both; set_solver.
  - destruct (text_last s Hs) as (c & r & -> & Hc). eapply (type_trim_ends _ c (name ++ lit ":" ++ r)); [| |done].
    + change (lit ":" ++ r ++ [c]) with (":"%char :: (r ++ [c])). rewrite ws_head_cut by done. by apply trim_fixed.
    + by rewrite <- !app_assoc.
Qed.

Lemma parse_field_text inner name s t : good_name name -> type_text s -> inner s = Ok t ->
  parse_struct_field inner (name ++ ":" ++ s) = Ok (name, t, true).
Proof.
  intros (Hn & Hne & Htrim) Hs Hi. unfold parse_struct_field, top_level_separator.
  rewrite (separator_inside ":" name (0, 0) (0, 0)) by (eapply inside_weaken; [|exact Hn]; unfold both; set_solver).
  change (separator_from ":" (0, 0) (lit ":" ++ s)) with (Some 0%nat). cbn [fmap option_fmap option_map].
  rewrite Nat.add_0_r, take_app_length, Htrim.
  assert (drop (length name + 1) (name ++ lit ":" ++ s) = s) as ->.
  { rewrite drop_app_add. done. }
  rewrite (text_trim s Hs), (text_nonempty s Hs). destruct name; [done|]. cbn [is_empty orb]. by rewrite Hi.
Qed.

Lemma struct_round_trips n fields :
  Forall (fun f : Field => good_name f.1.1 /\ f.2 = true /\ round_trips n f.1.2) fields -> round_trips (S n) (Struct fields).
Proof.
  intros Hall.
  assert (exists texts, mapM_result print_field fields = Ok texts
    /\ mapM_result print_field (map (fun '(name, t, nullable) => (name, canon t, nullable)) fields) = Ok texts
    /\ Forall (fun p => inside [","%char] (0, 0) p = Some (0, 0)) texts
    /\ trim <$> texts = texts
    /\ mapM_result (parse_struct_field (ducklake_to_arrow_type_inner n)) texts
       = Ok (map (fun '(name, t, nullable) => (name, canon t, nullable)) fields)
    /\ (texts = [] -> fields = []) /\ Forall (fun p => p <> []) texts)
    as (texts & Hp & Hc & Hin & Htr & Hparse & Hnil & Hne).
  { induction Hall as [|[[name t] nullable] fields (Hg & Hnull & s & Hps & Ht & Hi & Hcs) _ IH].
    { exists []. by repeat split. }
    destruct IH as (texts & Hp & Hc & Hin & Htr & Hparse & _ & Hne). cbn [fst snd] in *. subst nullable.
    exists ((name ++ lit ":" ++ s) :: texts). destruct (field_text name s Hg Ht) as [H1 H2].
    cbn [mapM_result print_field map fmap list_fmap]. rewrite Hps, Hcs, (parse_field_text _ name s (canon t) Hg Ht Hi).
    cbn [result_bind]. rewrite Hp, Hc, Hparse, H2. cbn [result_bind]. repeat split; try done; [by constructor|by f_equal|].
    constructor; [|done]. destruct Hg as (_ & Hg & _). by destruct name. }
  exists ("struct<" ++ join "," texts ++ ">"). cbn [canon]. rewrite !print_struct, Hp, Hc. cbn [result_bind].
  split; [done|]. split; [|split; [|done]].
  - apply wrapped_text; [done| |done|done]. by apply inside_join.
  - apply parse_struct_text. destruct texts as [|p texts]; [left; by rewrite Hnil|right]. split.
    + apply Forall_cons in Hne as [Hpne _]. destruct texts; cbn [join]; destruct p; done.
    + exists (p :: texts). split; [|done]. unfold split_top_level. change (lit ",") with [","%char].
      rewrite split_join by done. by rewrite Htr.
Qed.

Lemma readable_round_trips n : forall t, readable n t -> round_trips n t.
Proof.
  induction n as [|n IH]; intros t Hr; [done|].
  destruct t as [| | | | | | | | | | | | |p s|p s| | | | | | | | | | | | | | |[[name e] nullable]| | |fields|[[name e] nullable] sorted|];
    cbn [readable] in Hr; try (by apply basic_round_trips).
  - assert (decimal_data_type p s = Decimal128 p s) as <- by (unfold decimal_data_type; case_if; [lia|done]).
    apply decimal_round_trips; lia.
  - assert (decimal_data_type p s = Decimal256 p s) as <- by (unfold decimal_data_type; case_if; [done|lia]).
    apply decimal_round_trips; lia.
  - destruct Hr as (-> & -> & Hr). by apply list_round_trips, IH.
  - apply struct_round_trips. eapply Forall_impl; [exact Hr|]. intros f (H1 & H2 & H3). auto.
  - destruct Hr as (-> & -> & -> & k & v & -> & Hk & Hv). apply map_round_trips; by apply IH.
Qed.

(** ** Parsing yields readable types *)

Lemma parse_signed_range lo hi s n : parse_signed lo hi s = Some n -> lo <= n <= hi.
Proof.
  unfold parse_signed. destruct s as [|c s]; [done|].
  assert (forall m : option Z, (m ≫= fun n => if (lo <=? n) && (n <=? hi) then Some n else None) = Some n -> lo <= n <= hi) as H.
  { intros [m|]; cbn; [|done]. destruct (_ && _) eqn:E; [|done]. intros [= <-]. lia. }
  destruct (char_eqb c "-"); [|destruct (char_eqb c "+"); by apply H].
  destruct (parse_nonempty s) as [m|]; cbn; [|done]. destruct (_ && _) eqn:E; [|done]. intros [= <-]. lia.
Qed.

Lemma parse_decimal_range s t : parse_decimal s = Ok (Some t) ->
  exists p sc, t = decimal_data_type p sc /\ 1 <= p <= 76 /\ -128 <= sc <= p.
Proof.
  unfold parse_decimal. set (str := trim s).
  destruct (find_map _ _) as [rest|]; [|done]. destruct (negb _); [done|].
  destruct (strip_suffix _ _) as [params|]; [|done]. destruct (existsb _ _); [done|].
  assert (forall p sc u, 0 <= p -> -128 <= sc -> validate_decimal_precision_scale p sc str = Ok u -> 1 <= p <= 76 /\ -128 <= sc <= p) as Hv.
  { unfold validate_decimal_precision_scale, DECIMAL_MAX_PRECISION. intros p sc u Hp Hsc.
    destruct (p =? 0) eqn:E1; [done|]. destruct (76 <? p) eqn:E2; [done|]. destruct (_ && _) eqn:E3; [done|]. intros _. lia. }
  destruct (trim <$> _) as [|p [|sc [|]]]; try done.
  - intros H. destruct (parse_u8 p) as [z|] eqn:Ep; [|done]. cbn [ok_or result_bind] in H.
    apply parse_unsigned_range in Ep. destruct (validate_decimal_precision_scale z 0 str) as [u|] eqn:Ev; [|done].
    injection H as <-. exists z, 0. split; [done|]. eapply Hv; [| |exact Ev]; lia.
  - intros H. destruct (parse_u8 p) as [z|] eqn:Ep; [|done]. cbn [ok_or result_bind] in H.
    destruct (parse_i8 sc) as [y|] eqn:Es; [|done]. cbn [ok_or result_bind] in H.
    apply parse_unsigned_range in Ep. apply parse_signed_range in Es.
    destruct (validate_decimal_precision_scale z y str) as [u|] eqn:Ev; [|done].
    injection H as <-. exists z, y. split; [done|]. eapply Hv; [| |exact Ev]; lia.
Qed.

Lemma at_top_eq d : at_top d = true -> d = (0, 0).
Proof. unfold at_top. destruct d; cbn. intros. f_equal; lia. Qed.

Lemma inside_snoc seps d s d' c :
  inside seps d s = Some d' -> below (nest d' c) = false -> bool_decide (c ∈ seps) && at_top (nest d' c) = false ->
  inside seps d (s ++ [c]) = Some (nest d' c).
Proof. intros Hs Hb Ht. rewrite inside_app, Hs. cbn. by rewrite Hb, Ht. Qed.

Lemma split_pieces_closed sep value : (forall d, nest d sep = d) -> forall d piece pieces,
  inside [sep] (0, 0) piece = Some d -> split_pieces sep d piece value = Some pieces ->
  Forall (fun p => exists raw, p = trim raw /\ inside [sep] (0, 0) raw = Some (0, 0)) pieces.
Proof.
  intros Hsep. induction value as [|c value IH]; intros d piece pieces Hi; cbn [split_pieces].
  - destruct (at_top d) eqn:E; [|done]. intros [= <-]. constructor; [|constructor]. exists piece. split; [done|].
    by rewrite Hi, (at_top_eq d E).
  - cbv zeta. destruct (below (nest d c)) eqn:Eb; [done|]. destruct (char_eqb c sep) eqn:Ec; cbn [andb].
    + apply char_eqb_eq in Ec as ->. destruct (at_top (nest d sep)) eqn:Et.
      * destruct (split_pieces sep (nest d sep) [] value) as [rest|] eqn:Er; [|done]. intros [= <-].
        pose proof (at_top_eq _ Et) as Hn. rewrite Hsep in Hn. subst d.
        constructor; [by exists piece|]. eapply IH; [|exact Er]. by rewrite Hsep.
      * apply IH. apply inside_snoc; [done|done|]. by rewrite Et, andb_false_r.
    + apply IH. apply inside_snoc; [done|done|]. apply char_eqb_neq in Ec. by rewrite bool_decide_false by set_solver.
Qed.

(** The name before the first separator of a balanced piece. *)
Lemma separator_name s : forall d i d', below d = false -> inside [","%char] d s = Some d' ->
  separator_from ":" d s = Some i -> inside both d (take i s) = Some (0, 0).
Proof.
  assert (forall d, nest d ":" = d) as Hcolon by (by intros []).
  induction s as [|c s IH]; intros d i d' Hb; cbn [separator_from inside]; [done|]. cbv zeta.
  destruct (below (nest d c)) eqn:Eb; [done|]. destruct (char_eqb c ":") eqn:Ec; cbn [andb].
  - apply char_eqb_eq in Ec as ->. destruct (at_top (nest d ":")) eqn:Et.
    + intros _ [= <-]. cbn [take inside]. rewrite Hcolon in Et. by rewrite (at_top_eq d Et).
    + destruct (separator_from ":" (nest d ":") s) as [j|] eqn:Ej; [|done]. intros Hi [= <-]. cbn [take inside].
      rewrite Eb, Et, andb_false_r. eapply IH; [done| |done]. revert Hi. rewrite bool_decide_false by set_solver. intros Hi; exact Hi.
  - destruct (separator_from ":" (nest d c) s) as [j|] eqn:Ej; [|done]. intros Hi [= <-]. cbn [take inside].
    rewrite Eb. apply char_eqb_neq in Ec. destruct (bool_decide (c ∈ [","%char])) eqn:Es; cbn [andb] in Hi.
    + destruct (at_top (nest d c)) eqn:Et; [done|]. rewrite andb_false_r. by eapply IH.
    + apply bool_decide_eq_false in Es. rewrite bool_decide_false by (unfold both; set_solver). cbn [andb]. by eapply IH.
Qed.

Lemma nonempty_is_empty {A} (l : list A) : is_empty l = false -> l <> [].
Proof. by destruct l. Qed.

Lemma parse_struct_field_good inner piece f :
  inside [","%char] (0, 0) piece = Some (0, 0) -> parse_struct_field inner piece = Ok f ->
  good_name f.1.1 /\ f.2 = true /\ exists text, inner text = Ok f.1.2.
Proof.
  intros Hi. unfold parse_struct_field, top_level_separator. destruct (separator_from ":" (0, 0) piece) as [i|] eqn:Es; [|done].
  destruct (_ || _) eqn:En; [done|]. apply orb_false_iff in En as [En _]. intros H.
  destruct (inner _) as [t|] eqn:Et; [|done]. injection H as <-. cbn [fst snd]. split; [|split; [done|by eexists]].
  split; [|split; [by apply nonempty_is_empty|apply trim_idem]].
  apply inside_trim; [apply seps_special|]. by eapply (separator_name _ (0, 0)).
Qed.

Lemma parse_readable n : forall s t, ducklake_to_arrow_type_inner n s = Ok t -> readable n t.
Proof.
  induction n as [|n IH]; intros s t; cbn [ducklake_to_arrow_type_inner]; [done|].
  destruct (parse_decimal (trim s)) as [[d|]|] eqn:Ed; cbn [result_bind]; [| |done].
  { intros [= <-]. apply parse_decimal_range in Ed as (p & sc & -> & Hp & Hs). unfold decimal_data_type. case_if; cbn; lia. }
  destruct (parse_list_type _ (trim s)) as [[l|]|] eqn:El; cbn [result_bind]; [| |done].
  { intros [= <-]. unfold parse_list_type in El. destruct (if _ || _ then _ else _) as [text|]; [|done].
    destruct (is_empty _); [done|]. destruct (ducklake_to_arrow_type_inner n (trim text)) as [e|] eqn:Ee; [|done].
    injection El as <-. cbn. split; [done|]. split; [done|]. by eapply IH. }
  destruct (parse_struct_type _ (trim s)) as [[st|]|] eqn:Est; cbn [result_bind]; [| |done].
  { intros [= <-]. unfold parse_struct_type in Est. destruct (negb _); [done|]. destruct (negb _); [done|].
    destruct (is_empty _); [injection Est as <-; constructor|]. unfold split_top_level in Est.
    destruct (split_pieces _ _ _ _) as [pieces|] eqn:Ep; [|done]. cbn [ok_or result_bind] in Est.
    destruct (mapM_result _ pieces) as [fields|] eqn:Ef; [|done]. injection Est as <-. cbn [readable].
    assert (forall d, nest d "," = d) as Hcomma by (by intros []).
    pose proof (split_pieces_closed "," _ Hcomma (0, 0) [] pieces eq_refl Ep) as Hpieces.
    apply mapM_result_ok in Ef. clear Ep Ed El. induction Ef as [|p f pieces fields Hpf _ IHf]; [constructor|].
    apply Forall_cons in Hpieces as [(raw & -> & Hraw) Hrest]. constructor; [|by apply IHf].
    apply parse_struct_field_good in Hpf as (H1 & H2 & text & H3).
    - split; [exact H1|]. split; [exact H2|]. by eapply IH.
    - apply inside_trim; [|done]. intros c Hc. apply seps_special. unfold both. set_solver. }
  destruct (parse_map_type _ (trim s)) as [[m|]|] eqn:Em; cbn [result_bind]; [| |done].
  { intros [= <-]. unfold parse_map_type in Em. destruct (negb _); [done|]. destruct (negb _); [done|].
    destruct (split_top_level _ _) as [parts|]; [|done]. cbn [result_bind] in Em. destruct parts as [|k [|v [|]]]; try done.
    destruct (ducklake_to_arrow_type_inner n k) as [tk|] eqn:Ek; [|done]. cbn [result_bind] in Em.
    destruct (ducklake_to_arrow_type_inner n v) as [tv|] eqn:Ev; [|done]. injection Em as <-. cbn [readable].
    repeat split; try done. exists tk, tv. split; [done|]. split; by eapply IH. }
  unfold basic_type. destruct (find_first _ _) as [[names b]|] eqn:Eb; [|done]. intros [= <-].
  apply find_first_some in Eb as [Hin _].
  assert (b ∈ basic_types.*2) as Hb by (apply list_elem_of_fmap; by exists (names, b)).
  revert Hb. clear. intros Hb. cbn [snd]. unfold basic_types in Hb. cbn [fmap list_fmap snd] in Hb.
  rewrite !elem_of_cons, elem_of_nil in Hb. destruct_or! Hb; subst b; cbn [readable]; unfold basic_types; cbn [fmap list_fmap snd]; set_solver.
Qed.

(** ** Theorems *)



(** The canonical text of a type text. *)
Lemma normalize_parsed s t : ducklake_to_arrow_type s = Ok t ->
  exists c, normalize_ducklake_type s = Ok c /\ ducklake_to_arrow_type c = Ok (canon t)
    /\ arrow_to_ducklake_type t = Ok c /\ arrow_to_ducklake_type (canon t) = Ok c.
Proof.
  intros Ht. destruct (readable_round_trips _ t (parse_readable _ _ _ Ht)) as (c & Hp & _ & Hi & Hc).
  exists c. unfold normalize_ducklake_type. rewrite Ht. by repeat split.
Qed.

(** Every type text that parses has a canonical text, and the canonical text is
    its own: normalizing it again changes nothing. *)
Theorem normalizing_is_idempotent s t :
  ducklake_to_arrow_type s = Ok t ->
  exists c, normalize_ducklake_type s = Ok c /\ normalize_ducklake_type c = Ok c.
Proof.
  intros (c & Hn & Hp & _ & Hc)%normalize_parsed. exists c. split; [done|].
  unfold normalize_ducklake_type. by rewrite Hp.
Qed.

Lemma normalizing_is_idempotent_witness :
  exists c, normalize_ducklake_type "MAP< Text ,struct<x : numeric( 5 ), y:bigint[]>>" = Ok c
    /\ normalize_ducklake_type c = Ok c.
Proof. eapply normalizing_is_idempotent. vm_compute. reflexivity. Defined.

(** Two type texts are canonically equal exactly when both parse and stand for
    the same type (geometries being blobs): aliases, case and white space never
    make a difference, and a widening always does. *)
Theorem canonical_equality_is_type_equality a b :
  types_equal_canonical a b = true
  <-> exists ta tb, ducklake_to_arrow_type a = Ok ta /\ ducklake_to_arrow_type b = Ok tb /\ canon ta = canon tb.
Proof.
  unfold types_equal_canonical. split.
  - unfold normalize_ducklake_type. destruct (ducklake_to_arrow_type a) as [ta|] eqn:Ea; [|done].
    destruct (ducklake_to_arrow_type b) as [tb|] eqn:Eb; cbn [result_bind]; [|destruct (arrow_to_ducklake_type ta); done].
    destruct (normalize_parsed a ta Ea) as (ca & _ & Hpa & Hca & _), (normalize_parsed b tb Eb) as (cb & _ & Hpb & Hcb & _).
    cbn [result_bind]. rewrite Hca, Hcb. unfold str_eqb. intros ->%bool_decide_eq_true. exists ta, tb.
    split; [done|]. split; [done|]. congruence.
  - intros (ta & tb & Ha & Hb & Heq).
    destruct (normalize_parsed a ta Ha) as (ca & -> & _ & _ & Hca), (normalize_parsed b tb Hb) as (cb & -> & _ & _ & Hcb).
    unfold str_eqb. apply bool_decide_eq_true. rewrite Heq in Hca. congruence.
Qed.

(** The integers a type holds. *)
Definition int_range (t : DataType) : option (Z * Z) :=
  match t with
  | Int8 => Some (-2^7, 2^7 - 1) | Int16 => Some (-2^15, 2^15 - 1)
  | Int32 => Some (-2^31, 2^31 - 1) | Int64 => Some (-2^63, 2^63 - 1)
  | UInt8 => Some (0, 2^8 - 1) | UInt16 => Some (0, 2^16 - 1)
  | UInt32 => Some (0, 2^32 - 1) | UInt64 => Some (0, 2^64 - 1)
  | _ => None
  end.

(** A promotion that changes the type widens an integer type of the same sign, or
    is [Float32] to [Float64]; promotions compose and never cycle. *)
Lemma promotion_widens a b : is_arrow_promotable a b = true -> a <> b ->
  (exists la ha lb hb, int_range a = Some (la, ha) /\ int_range b = Some (lb, hb) /\ lb <= la /\ ha < hb)
  \/ (a = Float32 /\ b = Float64).
Proof.
  unfold is_arrow_promotable. intros H Hne. rewrite bool_decide_false in H by done.
  destruct a, b; try done; cbn in H; try done; try (by right); left; (eexists _, _, _, _; split; [done|]; split; [done|]; lia).
Qed.

Lemma promotion_trans a b c : is_arrow_promotable a b = true -> is_arrow_promotable b c = true -> is_arrow_promotable a c = true.
Proof.
  intros Hab Hbc. destruct (decide (a = b)) as [->|H1]; [done|]. destruct (decide (b = c)) as [->|H2]; [done|].
  unfold is_arrow_promotable in *. rewrite bool_decide_false in Hab, Hbc by done. case_bool_decide; [done|].
  destruct a, b; cbn in Hab; try done; destruct c; cbn in Hbc; done.
Qed.
