(* ===== verification/DuckdbCast.v ===== *)
(** * DuckDB's integer casts: [duckdb_cast.rs]

    A stored setting is text; the code reads it the way DuckDB casts a [VARCHAR]
    to an integer: white space around it, a sign, [0x] and [0b] prefixes, single
    underscores between digits, a fraction rounded half away from zero and an
    exponent. [Cast] carries the operation and the types of one cast; a loop over
    the bytes returns the final state, or nothing where the source's returns
    [false]. The casts to [DOUBLE] are left to the float parser of the standard
    library and are not modelled.

    Theorems: a cast yields a value of its type; every printed integer casts back
    to itself; a fraction rounds half away from zero. *)

From S2P Require Import Prelude RustStd WriterTypes.

(** ** Integer types *)

Record IntType := { it_min : Z; it_max : Z; it_digits : Z }.

Definition UINT64 : IntType := {| it_min := 0; it_max := u64_max; it_digits := 20 |}.
Definition INT8 : IntType := {| it_min := -128; it_max := 127; it_digits := 3 |}.
Definition INT64 : IntType := {| it_min := i64_min; it_max := i64_max; it_digits := 19 |}.
Definition INT16 : IntType := {| it_min := -32768; it_max := 32767; it_digits := 5 |}.

Definition signed (t : IntType) : bool := it_min t <? 0.
Definition fits (t : IntType) (value : Z) : bool := (it_min t <=? value) && (value <=? it_max t).

(** [is_space]: blank, tab, line feed, vertical tab, form feed, carriage return. *)
Definition is_space (byte : ascii) : bool :=
  existsb (Z.eqb (byte_val byte)) [32; 9; 10; 11; 12; 13].

Record State := { result_ : Z; decimal : Z; decimal_digits : Z }.
Definition State_default : State := {| result_ := 0; decimal := 0; decimal_digits := 0 |}.

Inductive Op := Simple | Decimal.
#[global] Instance Op_eq_dec : EqDecision Op.
Proof. solve_decision. Defined.

Record Cast := { op : Op; store : IntType; cast_result : IntType }.

(** Wrap-around at a width of [w] bits, unsigned and signed. *)
Definition wrap_u (w z : Z) : Z := z mod 2 ^ w.
Definition wrap_s (w z : Z) : Z :=
  let u := wrap_u w z in if u <? 2 ^ (w - 1) then u else u - 2 ^ w.

(** ** One step of a cast *)

Section cast.
Context (c : Cast).

Definition with_result (state : State) (r : Z) : State :=
  {| result_ := r; decimal := decimal state; decimal_digits := decimal_digits state |}.

(** [Cast::handle_digit]. *)
Definition handle_digit (state : State) (negative : bool) (digit : Z) : option State :=
  if negative then
    if result_ state <? Z.quot (it_min (store c) + digit) 10 then None
    else Some (with_result state (result_ state * 10 - digit))
  else
    if Z.quot (it_max (store c) - digit) 10 <? result_ state then None
    else Some (with_result state (result_ state * 10 + digit)).

(** [Cast::handle_radix_digit]. *)
Definition handle_radix_digit (state : State) (radix digit : Z) : option State :=
  if Z.quot (it_max (store c) - digit) radix <? result_ state then None
  else Some (with_result state (result_ state * radix + digit)).

(** [Cast::handle_decimal]. *)
Definition handle_decimal (state : State) (digit : Z) : option State :=
  match op c with
  | Simple => None
  | Decimal =>
      if Z.quot (it_max (store c) - digit) 10 <? decimal state then Some state
      else Some {| result_ := result_ state; decimal := decimal state * 10 + digit;
                   decimal_digits := wrap_u 16 (decimal_digits state + 1) |}
  end.

(** [Cast::checked]. *)
Definition checked (value : Z) : option Z := if fits (store c) value then Some value else None.

(** [Cast::power_of_ten]. *)
Fixpoint power_of_ten (n : nat) : Z :=
  match n with
  | O => 1
  | S n => if signed (store c) then wrap_s 64 (power_of_ten n * 10) else wrap_u 64 (power_of_ten n * 10)
  end.

(** The loop of [Cast::finalize]: the fraction's first digits. *)
Fixpoint leading_digits (fuel : nat) (state : State) : State :=
  match fuel with
  | O => state
  | S fuel =>
      if 10 <? decimal state
      then leading_digits fuel {| result_ := result_ state; decimal := Z.quot (decimal state) 10;
                                  decimal_digits := wrap_u 16 (decimal_digits state - 1) |}
      else state
  end.

(** [Cast::finalize]. *)
Definition finalize (state : State) (negative : bool) : option State :=
  match op c with
  | Simple => Some state
  | Decimal =>
      if negb (fits (cast_result c) (result_ state)) then None
      else
        let state := leading_digits (S (Z.to_nat (Z.log2 (decimal state)))) state in
        if (decimal_digits state =? 1) && (5 <=? decimal state) then
          let rounded := if negative then result_ state - 1 else result_ state + 1 in
          if negb (fits (cast_result c) rounded) then None else Some (with_result state rounded)
        else Some state
  end.

(** The loops of [Cast::handle_exponent]: dividing the value by ten [e] times,
    multiplying the integer part, and multiplying the fraction. *)
Fixpoint divide_down (e : nat) (state : State) : State :=
  match e with
  | O => state
  | S e =>
      let state := {| result_ := Z.quot (result_ state) 10; decimal := Z.rem (result_ state) 10;
                      decimal_digits := decimal_digits state |} in
      if (result_ state =? 0) && (decimal state =? 0) then state else divide_down e state
  end.

Fixpoint multiply_up (e : nat) (r : Z) : option Z :=
  match e with
  | O => Some r
  | S e => if r =? 0 then Some r else r' ← checked (r * 10); multiply_up e r'
  end.

Fixpoint multiply_decimal (e : nat) (d : Z) : option Z :=
  match e with
  | O => Some d
  | S e => d' ← checked (d * 10); multiply_decimal e d'
  end.

(** [Cast::handle_exponent]; [exponent] is an [i16]. *)
Definition handle_exponent (state : State) (negative : bool) (exponent : Z) : option State :=
  match op c with
  | Simple => None
  | Decimal =>
      if exponent <? 0 then
        let state := divide_down (Z.to_nat (- exponent)) state in
        finalize {| result_ := result_ state; decimal := Z.abs (decimal state); decimal_digits := 1 |} negative
      else
        r ← multiply_up (Z.to_nat exponent) (result_ state);
        let state := with_result state r in
        if decimal state =? 0 then finalize state negative
        else
          let e := wrap_s 16 (exponent - decimal_digits state) in
          '(d, remainder) ←
            (if e <? 0 then
               if Z.abs e <=? it_digits (store c)
               then let power := power_of_ten (Z.to_nat (Z.abs e)) in
                    Some (Z.quot (decimal state) power, Z.rem (decimal state) power)
               else Some (0, 0)
             else d ← multiply_decimal (Z.to_nat e) (decimal state); Some (d, 0));
          r ← checked (if negative then result_ state - d else result_ state + d);
          finalize {| result_ := r; decimal := remainder;
                      decimal_digits := wrap_u 16 (decimal_digits state - wrap_u 16 exponent) |} negative
  end.
End cast.

(** ** The loops over the bytes *)

Definition digit_val (byte : ascii) : Z := byte_val byte - 48.
Definition starts_with_digit (buf : str) : bool :=
  match buf with b :: _ => is_ascii_digit b | [] => false end.

(** After a digit a single underscore may stand, when another digit follows it:
    the bytes the loop goes on with. *)
Definition past_underscore (p : ascii -> bool) (rest : str) : option str :=
  match rest with
  | b :: rest' =>
      if char_eqb b "_" then
        match rest' with b' :: _ => if p b' then Some rest' else None | [] => None end
      else Some rest
  | [] => Some []
  end.

(** The digits after a period; [moved] says whether one was read. The recursion
    reads at least one byte a step, so the length of the text is enough. *)
Fixpoint fraction (c : Cast) (fuel : nat) (state : State) (rest : str) (moved : bool)
  : option (State * str * bool) :=
  match rest with
  | [] => Some (state, [], moved)
  | b :: rest' =>
      if is_ascii_digit b then
        match fuel with
        | O => None
        | S fuel =>
            state ← handle_decimal c state (digit_val b);
            rest' ← past_underscore is_ascii_digit rest';
            fraction c fuel state rest' true
        end
      else Some (state, rest, moved)
  end.

(** What follows the digits: white space to the end, or an exponent, which
    [exponent] reads where it is allowed. [any] says whether a byte was read. *)
Definition cast_tail (c : Cast) (exponent : option (State -> str -> option State)) (negative any : bool)
  (state : State) (rest : str) : option State :=
  match rest with
  | [] => if any then finalize c state negative else None
  | b :: rest' =>
      if is_space b then
        if forallb is_space rest' then finalize c state negative else None
      else
        match exponent with
        | Some read => if char_eqb b "e" || char_eqb b "E"
                       then if any then read state rest' else None
                       else None
        | None => None
        end
  end.

(** The loop of [Cast::cast_loop]. *)
Fixpoint cast_digits (c : Cast) (exponent : option (State -> str -> option State)) (negative : bool)
  (fuel : nat) (any : bool) (state : State) (rest : str) : option State :=
  match rest with
  | [] => cast_tail c exponent negative any state []
  | b :: rest' =>
      if is_ascii_digit b then
        match fuel with
        | O => None
        | S fuel =>
            state ← handle_digit c state negative (digit_val b);
            rest' ← past_underscore is_ascii_digit rest';
            cast_digits c exponent negative fuel true state rest'
        end
      else if char_eqb b "." then
        '(state, rest, moved) ← fraction c (length rest') state rest' false;
        if any || moved then cast_tail c exponent negative true state rest else None
      else cast_tail c exponent negative any state rest
  end.

(** [Cast::cast_loop]: [buf] starts with the sign when [negative]. *)
Definition cast_loop_with (c : Cast) (exponent : option (State -> str -> option State)) (buf : str)
  (negative : bool) : option State :=
  let digits := if negative || match buf with b :: _ => char_eqb b "+" | [] => false end
                then drop 1 buf else buf in
  cast_digits c exponent negative (length digits) false State_default digits.

(** The exponent: an [INT16] of its own, whose digits allow no exponent. *)
Definition read_exponent (c : Cast) (negative : bool) (state : State) (rest : str) : option State :=
  match rest with
  | [] => None
  | b :: _ =>
      exponent ← cast_loop_with {| op := Simple; store := INT16; cast_result := INT16 |} None rest
                   (char_eqb b "-");
      handle_exponent c state negative (result_ exponent)
  end.

Definition cast_loop (c : Cast) (buf : str) (negative allow_exponent : bool) : option State :=
  cast_loop_with c (if allow_exponent then Some (read_exponent c negative) else None) buf negative.

(** [char::to_digit]. *)
Definition to_digit (radix : Z) (b : ascii) : option Z :=
  let v := byte_val b in
  let d := if is_ascii_digit b then v - 48
           else if is_ascii_lowercase b then v - 87
           else if is_ascii_uppercase b then v - 55
           else radix in
  if d <? radix then Some d else None.

(** [Cast::radix_loop], past the [x] or [b] of the prefix. *)
Fixpoint radix_loop (c : Cast) (radix : Z) (fuel : nat) (any : bool) (state : State) (rest : str)
  : option State :=
  match rest with
  | [] => if any then finalize c state false else None
  | b :: rest' =>
      match fuel with
      | O => None
      | S fuel =>
          digit ← to_digit radix b;
          rest' ← past_underscore (fun b => bool_decide (is_Some (to_digit radix b))) rest';
          state ← handle_radix_digit c state radix digit;
          radix_loop c radix fuel true state rest'
      end
  end.

(** [Cast::try_cast]. *)
Definition try_cast (c : Cast) (input : str) (allow_exponent : bool) : option Z :=
  let buf := drop_while is_space input in
  match buf with
  | [] => None
  | b :: rest =>
      result_ <$>
      (if char_eqb b "-" then
         if negb (signed (store c)) && existsb (fun byte => negb (char_eqb byte "0")) rest then None
         else cast_loop c buf true allow_exponent
       else
         match rest with
         | x :: digits =>
             if char_eqb b "0" && existsb (char_eqb x) ["x"; "X"; "b"; "B"]%char then
               radix_loop c (if char_eqb x "x" || char_eqb x "X" then 16 else 2) (length digits)
                 false State_default digits
             else cast_loop c buf false allow_exponent
         | [] => cast_loop c buf false allow_exponent
         end)
  end.

(** [varchar_to_ubigint] and [varchar_to_tinyint]: the plain cast, else the one with
    fractions and exponents. The final [as u64] or [as i8] keeps a value of the
    type, which the result is ([ubigint_is_a_u64]). *)
Definition varchar_to_ubigint (input : str) : option Z :=
  wrap_u 64 <$>
  or_else (try_cast {| op := Simple; store := UINT64; cast_result := UINT64 |} input false)
          (try_cast {| op := Decimal; store := UINT64; cast_result := UINT64 |} input true).

Definition varchar_to_tinyint (input : str) : option Z :=
  wrap_s 8 <$>
  or_else (try_cast {| op := Simple; store := INT8; cast_result := INT8 |} input false)
          (try_cast {| op := Decimal; store := INT64; cast_result := INT8 |} input true).

(** [varchar_to_boolean]. *)
Definition varchar_to_boolean (input : str) : option bool :=
  let lower := to_ascii_lowercase input in
  if existsb (str_eqb lower) ["t" : str; "y" : str; "1" : str; "yes" : str; "true" : str] then Some true
  else if existsb (str_eqb lower) ["f" : str; "n" : str; "0" : str; "no" : str; "false" : str]
  then Some false else None.

(** [stored_inlining_limit] ([metadata_writer.rs]); a [usize] has 64 bits. *)
Definition stored_inlining_limit (value : str) : result nat :=
  ok_or (Z.to_nat <$> varchar_to_ubigint value)
    (InvalidConfig ("invalid data_inlining_row_limit '" ++ value ++ "': could not convert it to UBIGINT")).

(** The values DuckDB's own cast gives, from the module's tests. *)
Example ubigint_casts :
  varchar_to_ubigint <$> ["1.5" : str; "1e2" : str; "1_000" : str; "0x10" : str; "-1" : str; "-0" : str;
    " 7 " : str; "+07" : str; "" : str; "ten" : str; "1.4" : str; "2.5" : str; "0.5" : str; "1e-1" : str;
    "1.5e1" : str; "0b101" : str; "0o17" : str; "1__0" : str; "_1" : str; "1_" : str; "0X1F" : str]
  = [Some 2; Some 100; Some 1000; Some 16; None; Some 0; Some 7; Some 7; None; None; Some 1; Some 3;
     Some 1; Some 0; Some 15; Some 5; None; None; None; None; Some 31].
Proof. vm_compute. reflexivity. Qed.

Example ubigint_edges :
  varchar_to_ubigint <$> ["18446744073709551615" : str; "18446744073709551616" : str; "1e20" : str;
    "-0.4" : str; "-0.5" : str; "0.49999" : str; "1." : str; ".5" : str; "1e" : str; "e1" : str; "0x" : str;
    "0xFFFFFFFFFFFFFFFF" : str; "0x1_0" : str; "1_0.5" : str; "1.2_3" : str; "1e1_0" : str; "+" : str;
    "-" : str; "1 2" : str; "00012" : str; "12.50e-1" : str; "0b" : str; "1e+2" : str; "0x-1" : str;
    "1.0000000000000000000001" : str; "99999999999999999999.5" : str; "18446744073709551615.4" : str;
    "18446744073709551615.5" : str; "1d" : str; "0.0" : str; "1,000" : str]
  = [Some 18446744073709551615; None; None; None; None; Some 0; Some 1; Some 1; None; None; None;
     Some 18446744073709551615; Some 16; Some 11; Some 1; Some 10000000000; None; None; None; Some 12;
     Some 1; None; Some 100; None; Some 1; None; Some 18446744073709551615; None; None; Some 0; None].
Proof. vm_compute. reflexivity. Qed.

(** ** Casts of digits *)

Lemma digit_not_underscore b : is_ascii_digit b = true -> char_eqb b "_" = false.
Proof. intros Hb. apply char_eqb_neq. intros ->. discriminate Hb. Qed.

Lemma past_underscore_digit p rest : digits rest -> past_underscore p rest = Some rest.
Proof.
  destruct rest as [|b rest]; [done|]. intros Hb%Forall_inv. simpl. by rewrite digit_not_underscore.
Qed.

Lemma past_underscore_suffix p rest rest' : past_underscore p rest = Some rest' -> rest' `suffix_of` rest.
Proof.
  destruct rest as [|b [|b' rest]]; simpl; repeat case_match; intros; simplify_eq/=; try done.
  by apply suffix_cons_r.
Qed.

Lemma digit_val_range b : is_ascii_digit b = true -> 0 <= digit_val b <= 9.
Proof. unfold is_ascii_digit, digit_val. intros. breflect. lia. Qed.

(** The types the module casts to hold every digit, of either sign they have. *)
Definition holds_digits (t : IntType) : Prop :=
  36 <= it_max t /\ (it_min t = 0 \/ it_min t <= -10).

Lemma UINT64_holds_digits : holds_digits UINT64.
Proof. split; [done|by left]. Qed.
Lemma INT8_holds_digits : holds_digits INT8.
Proof. split; [done|by right]. Qed.
Lemma INT64_holds_digits : holds_digits INT64.
Proof. split; [done|by right]. Qed.
#[export] Hint Resolve UINT64_holds_digits INT8_holds_digits INT64_holds_digits : ducklake.

Lemma fits_spec t n : fits t n = true <-> it_min t <= n <= it_max t.
Proof. unfold fits. rewrite andb_true_iff, !Z.leb_le. done. Qed.

Lemma parse_digits_from_mono s : forall a n, 0 <= a -> parse_digits_from a s = Some n -> a <= n.
Proof.
  induction s as [|b s IH]; intros a n Ha; simpl; [intros [= <-]; lia|].
  destruct (is_ascii_digit b) eqn:E; [|done]. unfold is_ascii_digit in E. breflect.
  intros Hn%IH; lia.
Qed.

Section digits.
Context (c : Cast) (Hstore : holds_digits (store c)).

(** A digit is taken exactly when the value still fits, for a value on the side of
    the sign; an unsigned type takes no digit but zero after a minus. *)
Lemma handle_digit_exact state negative d :
  0 <= d <= 9 -> (negative = true -> signed (store c) = true \/ d = 0) ->
  fits (store c) (result_ state) = true ->
  (if negative then result_ state <= 0 else 0 <= result_ state) ->
  let next := if negative then result_ state * 10 - d else result_ state * 10 + d in
  handle_digit c state negative d
  = if fits (store c) next then Some (with_result state next) else None.
Proof.
  unfold holds_digits, handle_digit, signed in *. rewrite fits_spec. intros Hd Hneg Hf Hs.
  destruct negative; case_if; destruct (fits _ _) eqn:F; try done;
    (apply fits_spec in F || (apply not_true_iff_false in F; rewrite fits_spec in F)); breflect; exfalso.
  - destruct (Hneg eq_refl); breflect; Z.to_euclidean_division_equations; lia.
  - destruct (Hneg eq_refl); breflect; Z.to_euclidean_division_equations; lia.
  - Z.to_euclidean_division_equations; lia.
  - Z.to_euclidean_division_equations; lia.
Qed.

(** Reading digits accumulates their value, with the sign, while it fits. *)
Lemma cast_digits_value exponent negative s : forall fuel any state n rest,
  digits s -> (length s <= fuel)%nat -> starts_with_digit rest = false -> char_eqb (hd "0"%char rest) "_" = false ->
  (negative = true -> signed (store c) = true) ->
  0 <= n -> result_ state = (if negative then - n else n) -> fits (store c) (result_ state) = true ->
  forall m, parse_digits_from n s = Some m ->
  let v := if negative then - m else m in
  cast_digits c exponent negative fuel any state (s ++ rest)
  = if fits (store c) v
    then cast_digits c exponent negative (fuel - length s) (any || negb (is_empty s)) (with_result state v) rest
    else None.
Proof.
  induction s as [|b s IH]; intros fuel any state n rest Hs Hfuel Hrest Hrest' Hneg Hn Hr Hf m Hm.
  - injection Hm as <-. simpl. rewrite <- Hr, Hf, Nat.sub_0_r, orb_false_r. by destruct state.
  - apply Forall_cons in Hs as [Hb Hs]. destruct fuel as [|fuel]; [simpl in Hfuel; lia|].
    change ((b :: s) ++ rest) with (b :: (s ++ rest)). cbn [cast_digits parse_digits_from] in *.
    rewrite Hb in *. pose proof (digit_val_range b Hb) as Hd.
    rewrite handle_digit_exact; [|done|by auto|done|destruct negative; lia].
    assert (next : (if negative then result_ state * 10 - digit_val b else result_ state * 10 + digit_val b)
      = if negative then - (n * 10 + digit_val b) else n * 10 + digit_val b) by (destruct negative; lia).
    simpl. rewrite next. fold (digit_val b) in Hm.
    assert (Hge : n * 10 + digit_val b <= m).
    { apply (parse_digits_from_mono s); [lia|done]. }
    destruct (fits _ (if negative then - (_ + _) else _)) eqn:F; simpl.
    + assert (Hp : past_underscore is_ascii_digit (s ++ rest) = Some (s ++ rest)).
      { destruct s as [|b' s]; simpl.
        - destruct rest as [|r rest]; [done|]. simpl in *. by rewrite Hrest'.
        - apply Forall_inv in Hs. by rewrite digit_not_underscore. }
      rewrite Hp. simpl.
      rewrite (IH fuel true (with_result state _) (n * 10 + digit_val b) rest Hs ltac:(simpl in Hfuel; lia)
        Hrest Hrest' Hneg ltac:(lia) eq_refl F m Hm).
      by rewrite orb_true_r.
    + destruct (fits _ (if negative then - m else m)) eqn:F'; [|done].
      apply not_true_iff_false in F. rewrite fits_spec in F, F'. unfold holds_digits in Hstore.
      destruct negative; lia.
Qed.
End digits.

(** ** A cast yields a value of its type *)

Lemma finalize_fits c state negative state' :
  op c = Decimal -> finalize c state negative = Some state' -> fits (cast_result c) (result_ state') = true.
Proof.
  intros Hop. unfold finalize. rewrite Hop. case_if; [done|]. breflect.
  assert (Hkeep : forall fuel st, result_ (leading_digits fuel st) = result_ st).
  { induction fuel as [|fuel IH]; intros st; simpl; [done|]. by case_if; [rewrite IH|]. }
  case_if; [case_if; [done|]; intros [= <-]; by breflect|].
  intros H. apply (inj Some) in H as <-. by rewrite Hkeep.
Qed.

Lemma handle_exponent_fits c state negative e state' :
  op c = Decimal -> handle_exponent c state negative e = Some state' ->
  fits (cast_result c) (result_ state') = true.
Proof.
  intros Hop. unfold handle_exponent. rewrite Hop. case_if; [by apply finalize_fits|].
  intros H. apply bind_Some in H as (r & _ & H). case_if; [by eapply finalize_fits|].
  apply bind_Some in H as ([d rem] & _ & H). apply bind_Some in H as (r' & _ & H).
  by eapply finalize_fits.
Qed.

Section bounds.
Context (c : Cast) (Hstore : holds_digits (store c)) (Hsimple : op c = Simple -> cast_result c = store c).

(** Where the loop stands: on the side of the sign, and within the type while no
    fraction can follow. *)
Definition in_store (negative : bool) (state : State) : Prop :=
  fits (store c) (result_ state) = true /\ if negative then result_ state <= 0 else 0 <= result_ state.

Lemma fraction_keeps_result fuel : forall state rest moved state' rest' moved',
  fraction c fuel state rest moved = Some (state', rest', moved') -> result_ state' = result_ state.
Proof.
  induction fuel as [|fuel IH]; intros state rest moved state' rest' moved'; destruct rest as [|b rest]; simpl;
    try (by intros [= <- <- <-]); case_if; try done; try (by intros [= <- <- <-]).
  intros H. apply bind_Some in H as (st & Hst & H). apply bind_Some in H as (r & _ & H%IH).
  rewrite H. unfold handle_decimal in Hst. destruct (op c); [done|]. by case_if; simplify_eq/=.
Qed.

Lemma finalize_in_store negative state state' :
  (op c = Simple -> fits (store c) (result_ state) = true) ->
  finalize c state negative = Some state' -> fits (cast_result c) (result_ state') = true.
Proof.
  destruct (op c) eqn:Hop; [|intros _; by apply finalize_fits].
  unfold finalize. rewrite Hop. intros Hf [= <-]. rewrite Hsimple by done. by apply Hf.
Qed.

Lemma cast_tail_fits negative any state rest state' :
  (op c = Simple -> fits (store c) (result_ state) = true) ->
  cast_tail c (Some (read_exponent c negative)) negative any state rest = Some state'
  \/ cast_tail c None negative any state rest = Some state' ->
  fits (cast_result c) (result_ state') = true.
Proof.
  intros Hf. destruct rest as [|b rest]; simpl.
  - destruct any; [|naive_solver]. intros [H|H]; by eapply finalize_in_store.
  - destruct (is_space b).
    + case_if; [|naive_solver]. intros [H|H]; by eapply finalize_in_store.
    + intros [H|H]; [|done]. repeat case_if; try done.
      destruct rest as [|b' rest]; simpl in H; [done|]. apply bind_Some in H as (e & _ & H).
      destruct (op c) eqn:Hop; [unfold handle_exponent in H; by rewrite Hop in H|].
      by eapply handle_exponent_fits.
Qed.

Lemma cast_digits_fits negative (allow : bool) fuel : forall any state rest state',
  Forall (fun b => is_ascii_digit b = true -> negative = true -> signed (store c) = true \/ digit_val b = 0) rest ->
  in_store negative state ->
  cast_digits c (if allow then Some (read_exponent c negative) else None) negative fuel any state rest
    = Some state' ->
  fits (cast_result c) (result_ state') = true.
Proof.
  assert (Htail : forall any state rest state',
    (op c = Simple -> fits (store c) (result_ state) = true) ->
    cast_tail c (if allow then Some (read_exponent c negative) else None) negative any state rest
      = Some state' -> fits (cast_result c) (result_ state') = true).
  { intros. eapply cast_tail_fits; [done|]. destruct allow; [by left|by right]. }
  induction fuel as [|fuel IH]; intros any state rest state' Hrest [Hf Hs] H;
    destruct rest as [|b rest]; cbn [cast_digits] in H; try (by eapply Htail);
    destruct (is_ascii_digit b) eqn:Hb; try done.
  all: try (case_if; [|by eapply Htail]; apply bind_Some in H as ([[st r] moved] & Hfr & H);
    case_if; [|done]; eapply Htail; [|done]; intros _;
    by rewrite (fraction_keeps_result _ _ _ _ _ _ _ Hfr)).
  apply bind_Some in H as (st & Hst & H). apply bind_Some in H as (r & Hr & H).
  apply Forall_cons in Hrest as [Hd Hrest].
  rewrite handle_digit_exact in Hst by (auto using digit_val_range).
  cbv zeta in Hst. destruct (fits _ (if negative then _ else _)) eqn:F; [|done].
  apply (inj Some) in Hst as <-.
  apply IH in H; [done| |split; [exact F|]].
  - apply past_underscore_suffix in Hr as [p ->]. by apply Forall_app in Hrest as [_ ?].
  - pose proof (digit_val_range b Hb). simpl. destruct negative; lia.
Qed.

Lemma radix_loop_fits radix fuel : forall any state rest state',
  2 <= radix <= 36 -> 0 <= result_ state -> (op c = Simple -> result_ state <= it_max (store c)) ->
  radix_loop c radix fuel any state rest = Some state' -> fits (cast_result c) (result_ state') = true.
Proof.
  unfold holds_digits in Hstore.
  induction fuel as [|fuel IH]; intros any state rest state' Hr Hp Hmax H;
    destruct rest as [|b rest]; simpl in H; try done.
  all: try (destruct any; [|done]; eapply finalize_in_store; [|done]; intros; apply fits_spec; intuition lia).
  apply bind_Some in H as (d & Hd & H). apply bind_Some in H as (r & _ & H).
  apply bind_Some in H as (st & Hst & H).
  assert (Hd0 : 0 <= d).
  { unfold to_digit in Hd. case_if; [|done]. injection Hd as <-.
    unfold is_ascii_digit, is_ascii_lowercase, is_ascii_uppercase in *. repeat case_if; breflect; lia. }
  unfold handle_radix_digit in Hst. case_if; [done|]. injection Hst as <-. breflect.
  eapply IH; [done| | |done]; simpl; [nia|]. intros Hop.
  assert (d < radix) by (unfold to_digit in Hd; case_if; [|done]; injection Hd as <-; breflect; lia).
  rewrite Z.quot_div_nonneg in * by lia.
  pose proof (Z.mul_div_le (it_max (store c) - d) radix ltac:(lia)). nia.
Qed.
End bounds.

Lemma try_cast_fits c input allow n :
  holds_digits (store c) -> (op c = Simple -> cast_result c = store c) ->
  try_cast c input allow = Some n -> fits (cast_result c) n = true.
Proof.
  intros Hstore Hsimple. unfold try_cast.
  assert (H0 : forall negative, in_store c negative State_default).
  { intros negative. destruct Hstore. split; [apply fits_spec; simpl; lia|]. by destruct negative. }
  destruct (drop_while is_space input) as [|b rest]; [done|].
  rewrite fmap_Some. intros (state & H & ->).
  assert (Hpos : forall buf, cast_loop c buf false allow = Some state -> fits (cast_result c) (result_ state) = true).
  { intros buf. unfold cast_loop, cast_loop_with. simpl. case_match; apply cast_digits_fits; try done;
      by apply Forall_true. }
  destruct (char_eqb b "-").
  - case_if; [done|]. unfold cast_loop, cast_loop_with in H. simpl in H.
    eapply cast_digits_fits; [done|done| |done|exact H].
    apply andb_false_iff in E as [E|E]; breflect.
    + apply Forall_true. by left.
    + apply existsb_false_iff in E. eapply Forall_impl; [exact E|]. intros b' Hb' _ _.
      apply negb_false_iff in Hb'. apply char_eqb_eq in Hb' as ->. by right.
  - destruct rest as [|x rest]; [by eapply Hpos|]. case_if; [|by eapply Hpos].
    eapply radix_loop_fits in H; [done|done|done| |done|].
    + case_if; lia.
    + intros _. destruct Hstore. simpl. lia.
Qed.

(** ** Printed integers cast back *)

Lemma drop_while_head {A} (p : A -> bool) x l : p x = false -> drop_while p (x :: l) = x :: l.
Proof. simpl. by intros ->. Qed.

Lemma digit_not_space b : is_ascii_digit b = true -> is_space b = false.
Proof.
  unfold is_ascii_digit, is_space. intros. breflect.
  apply existsb_false_iff. repeat constructor; apply Z.eqb_neq; lia.
Qed.

Lemma cast_digit_not_char b x : is_ascii_digit b = true -> is_ascii_digit x = false -> char_eqb b x = false.
Proof. intros Hb Hx. apply char_eqb_neq. congruence. Qed.

(** Digits, without a sign or a prefix, go to the loop as they are. *)
Lemma try_cast_digits c b t allow :
  is_ascii_digit b = true -> not (hd "0"%char t ∈ ["x"; "X"; "b"; "B"]%char) ->
  try_cast c (b :: t) allow
  = result_ <$> cast_digits c (if allow then Some (read_exponent c false) else None) false
      (length (b :: t)) false State_default (b :: t).
Proof.
  intros Hb Ht. unfold try_cast. rewrite drop_while_head by by apply digit_not_space.
  cbv zeta iota. rewrite (cast_digit_not_char b "-") by done.
  assert (Hl : cast_loop c (b :: t) false allow = cast_digits c (if allow then Some (read_exponent c false) else None)
      false (length (b :: t)) false State_default (b :: t)).
  { unfold cast_loop, cast_loop_with. simpl orb. by rewrite (cast_digit_not_char b "+"). }
  destruct t as [|x t]; [by rewrite Hl|].
  destruct (existsb (char_eqb x) _) eqn:E; [|by rewrite andb_false_r, Hl].
  exfalso. apply Ht. apply existsb_exists in E as (y & Hy & ->%char_eqb_eq). by apply list_elem_of_In.
Qed.

Lemma cast_digits_end c exponent negative fuel any state :
  cast_digits c exponent negative fuel any state [] = cast_tail c exponent negative any state [].
Proof. by destruct fuel. Qed.

(** A plain cast of digits is their value, where it fits. *)
Lemma simple_cast_digits t b s n :
  holds_digits t -> digits (b :: s) -> parse_digits_from 0 (b :: s) = Some n ->
  try_cast {| op := Simple; store := t; cast_result := t |} (b :: s) false = if fits t n then Some n else None.
Proof.
  intros Ht Hs Hn. pose proof (Forall_inv Hs) as Hb.
  rewrite try_cast_digits; [|done|].
  - rewrite <- (app_nil_r (b :: s)).
    rewrite (cast_digits_value {| op := Simple; store := t; cast_result := t |} Ht _ false (b :: s) _ _ _ 0 []) with (m := n); try done.
    + rewrite cast_digits_end. cbn [store]. by destruct (fits t n).
    + rewrite length_app. simpl. lia.
    + apply fits_spec. destruct Ht. simpl. lia.
  - apply Forall_inv_tail in Hs. destruct s as [|x s]; [set_solver|]. simpl. apply Forall_inv in Hs.
    intros Hin. repeat (apply elem_of_cons in Hin as [->|Hin]; [discriminate Hs|]). by apply elem_of_nil in Hin.
Qed.

Lemma simple_cast_negative t s n :
  holds_digits t -> signed t = true -> digits s -> s <> [] -> parse_digits_from 0 s = Some n ->
  try_cast {| op := Simple; store := t; cast_result := t |} ("-" ++ s) false
  = if fits t (- n) then Some (- n) else None.
Proof.
  intros Ht Hsig Hs Hne Hn. unfold try_cast. change ("-" ++ s) with ("-"%char :: s).
  rewrite drop_while_head by done. cbv zeta iota. rewrite char_eqb_refl. cbn [store]. rewrite Hsig. simpl negb.
  cbv iota. simpl andb. cbv iota. unfold cast_loop, cast_loop_with. simpl orb. cbv iota. simpl drop.
  rewrite <- (app_nil_r s) at 2.
  rewrite (cast_digits_value {| op := Simple; store := t; cast_result := t |} Ht _ true s _ _ _ 0 []) with (m := n); try done.
  - rewrite cast_digits_end. cbn [store]. destruct s; [done|]. by destruct (fits t (- n)).
  - apply fits_spec. destruct Ht. simpl. lia.
Qed.

Lemma simple_cast_show t n :
  holds_digits t -> fits t n = true ->
  try_cast {| op := Simple; store := t; cast_result := t |} (show_Z n) false = Some n.
Proof.
  intros Ht Hf. unfold show_Z. case_if; breflect.
  - pose proof (show_u_nonempty (- n)) as Hne. rewrite simple_cast_negative with (n := - n); try done.
    + by rewrite Z.opp_involutive, Hf.
    + unfold signed. apply fits_spec in Hf. apply Z.ltb_lt. lia.
    + apply show_u_digits. lia.
    + pose proof (digits_of_parse (- n) ltac:(lia)) as Hp. unfold parse_nonempty in Hp.
      by destruct (show_u (- n)).
  - pose proof (digits_of_parse n ltac:(lia)) as Hp. pose proof (show_u_digits n ltac:(lia)) as Hd.
    unfold parse_nonempty in Hp. destruct (show_u n) as [|b s] eqn:Es; [done|].
    by rewrite simple_cast_digits with (n := n), Hf.
Qed.

(** Printed integers cast back: an unsigned 64-bit integer and a signed 8-bit one
    print as a text whose cast is the integer. *)
Theorem printed_integers_cast_back n :
  (in_u64 n = true -> varchar_to_ubigint (show_Z n) = Some n)
  /\ (-128 <= n <= 127 -> varchar_to_tinyint (show_Z n) = Some n).
Proof.
  split; intros H.
  - unfold varchar_to_ubigint. rewrite simple_cast_show by auto with ducklake. simpl. f_equal.
    unfold in_u64 in H. breflect. unfold wrap_u. rewrite Z.mod_small; [done|]. unfold u64_max in *. lia.
  - unfold varchar_to_tinyint. rewrite simple_cast_show; [|auto with ducklake|by apply fits_spec]. simpl. f_equal.
    unfold wrap_s, wrap_u. case_if; breflect; simpl Z.pow in *; Z.to_euclidean_division_equations; lia.
Qed.

Lemma printed_integers_cast_back_witness :
  in_u64 u64_max = true /\ varchar_to_ubigint (show_Z u64_max) = Some u64_max
  /\ varchar_to_tinyint (show_Z (-128)) = Some (-128).
Proof.
  split; [reflexivity|split].
  - apply (printed_integers_cast_back u64_max). reflexivity.
  - apply (printed_integers_cast_back (-128)). lia.
Defined.

(** A cast yields a value of its type: whatever the text, a cast to [UBIGINT]
    lies in the range of an unsigned 64-bit integer and one to [TINYINT] in a
    byte's, so the conversion that ends each cast changes nothing. *)
Theorem casts_stay_in_range input n :
  (varchar_to_ubigint input = Some n ->
     0 <= n <= u64_max
     /\ (try_cast {| op := Simple; store := UINT64; cast_result := UINT64 |} input false = Some n
         \/ try_cast {| op := Decimal; store := UINT64; cast_result := UINT64 |} input true = Some n))
  /\ (varchar_to_tinyint input = Some n ->
     -128 <= n <= 127
     /\ (try_cast {| op := Simple; store := INT8; cast_result := INT8 |} input false = Some n
         \/ try_cast {| op := Decimal; store := INT64; cast_result := INT8 |} input true = Some n)).
Proof.
  assert (Hor : forall {A} (o o' : option A) x, or_else o o' = Some x -> o = Some x \/ o' = Some x).
  { intros A [y|] o' x; naive_solver. }
  split; intros H; apply fmap_Some in H as (m & Hm%Hor & ->).
  - assert (Hf : 0 <= m <= u64_max).
    { destruct Hm as [Hm|Hm]; apply try_cast_fits in Hm; auto with ducklake; try done;
        by apply fits_spec in Hm. }
    unfold wrap_u. rewrite Z.mod_small by (unfold u64_max in *; lia). done.
  - assert (Hf : -128 <= m <= 127).
    { destruct Hm as [Hm|Hm]; apply try_cast_fits in Hm; auto with ducklake; try done;
        by apply fits_spec in Hm. }
    assert (wrap_s 8 m = m) as ->; [|done].
    unfold wrap_s, wrap_u. case_if; breflect; simpl Z.pow in *; Z.to_euclidean_division_equations; lia.
Qed.

Lemma casts_stay_in_range_witness :
  varchar_to_ubigint "1e19" = Some 10000000000000000000 /\ varchar_to_tinyint "-1.28e2" = Some (-128)
  /\ 0 <= 10000000000000000000 <= u64_max /\ -128 <= -128 <= 127.
Proof.
  split; [vm_compute; reflexivity|]. split; [vm_compute; reflexivity|]. split.
  - apply (casts_stay_in_range "1e19" 10000000000000000000). vm_compute. reflexivity.
  - apply (casts_stay_in_range "-1.28e2" (-128)). vm_compute. reflexivity.
Defined.

(** ** Fractions round half away from zero *)

(** The fraction is read whole while it is short of the store type's digits. *)
Lemma fraction_value c f : forall fuel state moved F,
  op c = Decimal -> digits f -> (length f <= fuel)%nat -> 0 <= decimal state ->
  0 <= decimal_digits state -> decimal_digits state + Z.of_nat (length f) < 65536 ->
  parse_digits_from (decimal state) f = Some F -> F <= it_max (store c) ->
  fraction c fuel state f moved
  = Some ({| result_ := result_ state; decimal := F;
             decimal_digits := decimal_digits state + Z.of_nat (length f) |}, [], moved || negb (is_empty f)).
Proof.
  induction f as [|b f IH]; intros fuel state moved F Hop Hf Hfuel Hd Hdd Hw HF Hmax.
  - injection HF as <-. destruct fuel; simpl; rewrite orb_false_r, Z.add_0_r; by destruct state.
  - apply Forall_cons in Hf as [Hb Hf]. destruct fuel as [|fuel]; [simpl in Hfuel; lia|].
    cbn [fraction parse_digits_from] in *. rewrite Hb in *. pose proof (digit_val_range b Hb) as Hv.
    fold (digit_val b) in HF. 
    assert (Hge : decimal state * 10 + digit_val b <= F) by (eapply parse_digits_from_mono; [|exact HF]; lia).
    unfold handle_decimal. rewrite Hop.
    rewrite (proj2 (Z.ltb_ge (Z.quot (it_max (store c) - digit_val b) 10) _)).
    + cbn [length] in *.
      assert (wrap_u 16 (decimal_digits state + 1) = decimal_digits state + 1) as ->
        by (unfold wrap_u; apply Z.mod_small; lia).
      simpl. rewrite past_underscore_digit by done. simpl.
      rewrite (IH fuel _ true F); simpl; try done; try lia.
      rewrite orb_true_r. do 4 f_equal. lia.
    + rewrite Z.quot_div_nonneg by lia. apply Z.div_le_lower_bound; lia.
Qed.

Lemma parse_digits_below f : forall a F, 0 <= a -> parse_digits_from a f = Some F ->
  F < (a + 1) * 10 ^ Z.of_nat (length f).
Proof.
  induction f as [|b f IH]; intros a F Ha; cbn [length parse_digits_from]; [intros [= <-]; lia|].
  destruct (is_ascii_digit b) eqn:Hb; [|done]. pose proof (digit_val_range b Hb) as Hv.
  unfold digit_val in Hv. intros HF%IH; [|lia].
  rewrite Nat2Z.inj_succ, Z.pow_succ_r by lia. nia.
Qed.

(** The loop leaves one digit of at least five exactly when the fraction's first
    digit is. *)
Lemma leading_digits_round fuel : forall state k,
  0 <= decimal state -> (1 <= k)%nat -> Z.of_nat k < 65536 -> decimal_digits state = Z.of_nat k ->
  decimal state < 10 ^ Z.of_nat k -> decimal state < 10 * 10 ^ Z.of_nat fuel ->
  let final := leading_digits fuel state in
  (decimal_digits final =? 1) && (5 <=? decimal final) = (5 * 10 ^ Z.of_nat (k - 1) <=? decimal state)
  /\ result_ final = result_ state.
Proof.
  induction fuel as [|fuel IH]; intros state k Hd Hk Hw Hkd Hlt Hfuel; cbn [leading_digits].
  2: destruct (10 <? decimal state) eqn:E; breflect.
  2: { destruct k as [|[|k]]; [lia|simpl in Hlt; lia|].
       edestruct (IH {| result_ := result_ state; decimal := Z.quot (decimal state) 10;
         decimal_digits := wrap_u 16 (decimal_digits state - 1) |} (S k)) as [-> Hr]; cbn [decimal decimal_digits result_].
       - apply Z.quot_pos; lia.
       - lia.
       - lia.
       - unfold wrap_u. rewrite Z.mod_small by lia. lia.
       - rewrite Z.quot_div_nonneg by lia. apply Z.div_lt_upper_bound; [lia|].
         rewrite <- Z.pow_succ_r by lia. by rewrite <- Nat2Z.inj_succ.
       - rewrite Z.quot_div_nonneg by lia. apply Z.div_lt_upper_bound; [lia|].
         rewrite <- Z.pow_succ_r by lia. by rewrite <- Nat2Z.inj_succ.
       - rewrite Hr. split; [|done]. replace (S k - 1)%nat with k by lia. replace (S (S k) - 1)%nat with (S k) by lia.
         rewrite Nat2Z.inj_succ, Z.pow_succ_r, Z.quot_div_nonneg by lia.
         destruct (5 * 10 ^ Z.of_nat k <=? decimal state / 10) eqn:E1;
           destruct (5 * (10 * 10 ^ Z.of_nat k) <=? decimal state) eqn:E2; breflect; try done;
           pose proof (Z.div_mod (decimal state) 10); pose proof (Z.mod_pos_bound (decimal state) 10); lia. }
  all: split; [|done].
  all: destruct k as [|[|k]]; [lia| |].
  all: rewrite Hkd.
  all: try (change (Z.of_nat 1 =? 1) with true; simpl; done).
  all: rewrite (proj2 (Z.eqb_neq _ 1)) by lia; simpl andb; symmetry; apply Z.leb_gt.
  all: replace (S (S k) - 1)%nat with (S k) by lia; rewrite Nat2Z.inj_succ, Z.pow_succ_r by lia.
  all: pose proof (Z.pow_pos_nonneg 10 (Z.of_nat k)); simpl in *; lia.
Qed.

Definition ubigint_cast (o : Op) : Cast := {| op := o; store := UINT64; cast_result := UINT64 |}.

(** The cast of digits, a period and digits is the fraction's, from the value of the
    first digits. *)
Lemma try_cast_fraction o allow b a f A :
  digits (b :: a) -> parse_digits_from 0 (b :: a) = Some A -> A <= u64_max ->
  try_cast (ubigint_cast o) ((b :: a) ++ "." ++ f) allow
  = result_ <$> ('(state, rest, moved) ← fraction (ubigint_cast o) (length f) (with_result State_default A) f false;
      cast_tail (ubigint_cast o) (if allow then Some (read_exponent (ubigint_cast o) false) else None)
        false true state rest).
Proof.
  intros Hba HA HAmax. pose proof (parse_digits_from_ge _ 0 A ltac:(lia) HA) as HA0.
  change ((b :: a) ++ "." ++ f) with (b :: (a ++ "." ++ f)).
  rewrite try_cast_digits; [|by apply Forall_inv in Hba|].
  - change (b :: (a ++ "." ++ f)) with ((b :: a) ++ "." ++ f).
    rewrite (cast_digits_value (ubigint_cast o) UINT64_holds_digits _ false (b :: a) _ _ _ 0 ("." ++ f))
      with (m := A); try done.
    + cbn [store ubigint_cast]. rewrite (proj2 (fits_spec UINT64 A)) by (simpl; lia). rewrite length_app.
      replace (length (b :: a) + length ("." ++ f) - length (b :: a))%nat with (S (length f)) by (simpl; lia).
      change ("." ++ f) with ("."%char :: f). cbn [cast_digits]. change (is_ascii_digit ".") with false.
      rewrite char_eqb_refl. cbv iota. by rewrite orb_true_r.
    + rewrite length_app. lia.
  - apply Forall_inv_tail in Hba. destruct a as [|x a]; simpl.
    + intros Hin. by repeat (apply elem_of_cons in Hin as [Hin|Hin]; [discriminate Hin|]); apply elem_of_nil in Hin.
    + apply Forall_inv in Hba. intros Hin.
      repeat (apply elem_of_cons in Hin as [->|Hin]; [discriminate Hba|]). by apply elem_of_nil in Hin.
Qed.

(** The value a cast ends with: the integer part, or one more from a half on. *)
Lemma finalize_rounds A F k :
  0 <= A <= u64_max -> 0 <= F < 10 ^ Z.of_nat k -> (1 <= k <= 19)%nat ->
  let unit := 10 ^ Z.of_nat k in
  let rounded := (2 * (A * unit + F) + unit) / (2 * unit) in
  wrap_u 64 <$> (result_ <$> finalize (ubigint_cast Decimal)
    {| result_ := A; decimal := F; decimal_digits := Z.of_nat k |} false)
  = if rounded <=? u64_max then Some rounded else None.
Proof.
  intros HA HF Hk unit rounded. set (st := {| result_ := A; decimal := F; decimal_digits := Z.of_nat k |}).
  destruct (leading_digits_round (S (Z.to_nat (Z.log2 F))) st k) as [Hround Hres]; try (simpl; lia).
  { simpl decimal. pose proof (log2_fuel F (proj1 HF)). rewrite Nat2Z.inj_succ, Z.pow_succ_r in * by lia. nia. }
  change (decimal st) with F in Hround. change (result_ st) with A in Hres.
  assert (Hr : rounded = if 5 * 10 ^ Z.of_nat (k - 1) <=? F then A + 1 else A).
  { assert (Hu : unit = 10 * 10 ^ Z.of_nat (k - 1)).
    { unfold unit. rewrite <- Z.pow_succ_r by lia. f_equal. lia. }
    fold unit in HF. unfold rounded. case_if; breflect; symmetry.
    - apply (Z.div_unique_pos _ _ _ (2 * F + unit - 2 * unit)); lia.
    - apply (Z.div_unique_pos _ _ _ (2 * F + unit)); lia. }
  unfold finalize. cbn [op cast_result ubigint_cast]. change (result_ st) with A. change (decimal st) with F.
  rewrite (proj2 (fits_spec UINT64 A)) by (simpl; lia). cbn [negb]. cbv zeta iota.
  set (final := leading_digits _ st) in *. rewrite Hround. unfold with_result. rewrite Hres, Hr.
  destruct (_ <=? F).
  - destruct (fits UINT64 (A + 1)) eqn:Ef; simpl.
    + apply fits_spec in Ef. simpl in Ef. rewrite (proj2 (Z.leb_le _ _)) by lia. f_equal. apply Z.mod_small.
      unfold u64_max in *. lia.
    + apply not_true_iff_false in Ef. rewrite fits_spec in Ef. simpl in Ef.
      by rewrite (proj2 (Z.leb_gt _ _)) by lia.
  - change (wrap_u 64 <$> (result_ <$> Some final)) with (Some (wrap_u 64 (result_ final))).
    rewrite Hres, (proj2 (Z.leb_le _ _)) by lia. f_equal. apply Z.mod_small.
    unfold u64_max in *. lia.
Qed.

(** Fractions round half away from zero: an integer part and up to nineteen
    digits after a period cast to the nearest integer, the greater of two, and the
    cast fails exactly when that integer is past the type. *)
Theorem fractions_round_half_up b a f A F :
  digits (b :: a) -> digits f -> (1 <= length f <= 19)%nat ->
  parse_digits_from 0 (b :: a) = Some A -> A <= u64_max -> parse_digits_from 0 f = Some F ->
  let unit := 10 ^ Z.of_nat (length f) in
  let rounded := (2 * (A * unit + F) + unit) / (2 * unit) in
  varchar_to_ubigint ((b :: a) ++ "." ++ f) = if rounded <=? u64_max then Some rounded else None.
Proof.
  intros Hba Hf Hlen HA HAmax HF unit rounded.
  pose proof (parse_digits_from_ge f 0 F ltac:(lia) HF) as HF0.
  pose proof (parse_digits_from_ge _ 0 A ltac:(lia) HA) as HA0.
  pose proof (parse_digits_below f 0 F ltac:(lia) HF) as HFlt. rewrite Z.mul_1_l in HFlt.
  assert (10 ^ Z.of_nat (length f) <= 10 ^ 19) by (apply Z.pow_le_mono_r; lia).
  unfold varchar_to_ubigint. fold (ubigint_cast Simple) (ubigint_cast Decimal).
  rewrite !(try_cast_fraction _ _ b a f A) by done.
  assert (fraction (ubigint_cast Simple) (length f) (with_result State_default A) f false = None) as ->.
  { destruct f as [|d f]; [simpl in Hlen; lia|]. cbn [length fraction]. apply Forall_inv in Hf. by rewrite Hf. }
  rewrite fraction_value with (F := F); try done; cbn [with_result State_default decimal decimal_digits]; try lia;
    [|simpl; unfold u64_max; lia].
  apply (finalize_rounds A F (length f)); [lia|lia|done].
Qed.

Lemma fractions_round_half_up_witness :
  varchar_to_ubigint "41.50" = Some 42 /\ varchar_to_ubigint "18446744073709551615.5" = None.
Proof.
  split.
  - apply (fractions_round_half_up "4" ["1"%char] "50" 41 50); try done; [by repeat constructor..|simpl; lia].
  - apply (fractions_round_half_up "1" "8446744073709551615" "5" u64_max 5); try done;
      [by repeat constructor..|simpl; lia].
Defined.
