(* ===== verification/ChangeLedger.v ===== *)
(** * The snapshot change ledger ([ducklake_snapshot_changes.changes_made])

    Every commit records what it did as a comma-separated list of tokens:
    [kind:table_id] for a change of a table, [created_table:schema.table] (both
    names double-quoted) for a created object. This file models how the writers
    print the ledger ([table_storage_tokens] and its callers,
    [inlined_flush_changes], [compaction_change], [tag_change],
    [quote_snapshot_table] of [metadata_writer.rs]) and how every reader of it
    cuts it up again ([snapshot_change_tokens] of [metadata_provider.rs]), and
    proves that the cut inverts the print for every object name, commas and
    quotes in the name included. *)

From S2P Require Import Prelude RustStd Arrow WriterTypes.

Definition dquote : ascii := "034"%char.
Definition comma : ascii := ","%char.
Definition colon : ascii := ":"%char.

(** ** Reading *)

(** [snapshot_change_tokens]: split at the commas outside double quotes. The
    closure of the source flips [quoted] before it tests the comma. *)
Fixpoint tokens_from (quoted : bool) (s : str) : list str :=
  match s with
  | [] => [[]]
  | c :: s' =>
      let quoted' := if char_eqb c dquote then negb quoted else quoted in
      if char_eqb c comma && negb quoted' then [] :: tokens_from quoted' s'
      else match tokens_from quoted' s' with
           | t :: ts => (c :: t) :: ts
           | [] => [[c]]
           end
  end.

Definition snapshot_change_tokens (changes : str) : list str := tokens_from false changes.

(** [change_kind_names_other_object]. *)
Definition change_kind_names_other_object (kind : str) : bool :=
  existsb (fun other => eq_ignore_ascii_case (trim kind) other)
    [lit "dropped_schema"; lit "dropped_view"; lit "altered_view";
     lit "dropped_scalar_macro"; lit "dropped_table_macro"].

(** [snapshot_has_change]. *)
Definition snapshot_has_change (changes expected : str) : bool :=
  existsb (fun change => str_eqb change expected) (snapshot_change_tokens changes).

(** [inlined_inserts]. *)
Definition inlined_inserts (changes_made : str) : nat :=
  length (filter (fun token => starts_with "inlined_insert:" token = true)
            (split_on (char_eqb comma) changes_made)).

(** ** Printing *)

Definition quote_snapshot_name (name : str) : str :=
  [dquote] ++ replace_char dquote [dquote; dquote] name ++ [dquote].

Definition quote_snapshot_table (schema_name table_name : str) : str :=
  quote_snapshot_name schema_name ++ "." ++ quote_snapshot_name table_name.

(** What one commit changes in a table. *)
Record TableChanges := {
  inserted_into : bool;
  inserted_inlined : bool;
  deleted_from : bool;
  deleted_inlined : bool;
  flushed_inlined : bool;
}.

Definition no_changes : TableChanges :=
  {| inserted_into := false; inserted_inlined := false; deleted_from := false;
     deleted_inlined := false; flushed_inlined := false |}.

(** [TableChanges::append]. *)
Definition changes_append : TableChanges :=
  {| inserted_into := true; inserted_inlined := false; deleted_from := false;
     deleted_inlined := false; flushed_inlined := false |}.

(** [TableChanges::of_flush]. *)
Definition of_flush (table : InlinedFlushTable) : TableChanges :=
  {| inserted_into := false; inserted_inlined := false;
     deleted_from := negb (is_empty (ift_file_deletes table));
     deleted_inlined := false;
     flushed_inlined := negb (is_empty (ift_files table))
                        || negb (is_empty (ift_inlined_tables table)) |}.

(** [TableChanges::of_staged]. *)
Definition of_staged `{RecordBatches} (w : StagedTableWrite) : TableChanges :=
  {| inserted_into := (match st_data w with SFiles _ => true | _ => false end)
                      || negb (is_empty (st_inserted_files w));
     inserted_inlined := match st_data w with SInlined _ => true | _ => false end;
     deleted_from := negb (is_empty (st_positional_deletes w))
                     || negb (is_empty (st_rewritten_deletes w))
                     || negb (is_empty (st_dropped_files w));
     deleted_inlined := negb (is_empty (st_inlined_deletes w))
                        || negb (is_empty (st_inlined_file_deletes w));
     flushed_inlined := false |}.

(** [format!("{kind}:{table_id}")]. *)
Definition table_token (kind : str) (table_id : Z) : str := kind ++ ":" ++ show_Z table_id.

(** [table_storage_tokens], before the join. *)
Definition table_storage_token_list (table_id : Z)
  (inserted_files inserted_inlined deleted_files deleted_inlined : bool) : list str :=
  (if inserted_files then [table_token "inserted_into_table" table_id] else [])
  ++ (if deleted_files then [table_token "deleted_from_table" table_id] else [])
  ++ (if inserted_inlined then [table_token "inlined_insert" table_id] else [])
  ++ (if deleted_inlined then [table_token "inlined_delete" table_id] else []).

(** [table_storage_tokens]. *)
Definition table_storage_tokens (table_id : Z)
  (inserted_files inserted_inlined deleted_files deleted_inlined : bool) : str :=
  join [comma] (table_storage_token_list table_id inserted_files inserted_inlined
                  deleted_files deleted_inlined).

(** [table_storage_changes]. *)
Definition table_storage_changes (table_id : Z) (inlined_insert : option bool)
  (deleted_files deleted_inlined : bool) : str :=
  table_storage_tokens table_id (bool_decide (inlined_insert = Some false))
    (bool_decide (inlined_insert = Some true)) deleted_files deleted_inlined.

(** [table_write_changes]. *)
Definition table_write_changes (table_id : Z) (mode : WriteMode) (has_deletes : bool)
  (replaced_storage : bool * bool) : str :=
  table_storage_changes table_id (Some false)
    (has_deletes || (bool_decide (mode = Replace) && fst replaced_storage))
    (bool_decide (mode = Replace) && snd replaced_storage).

(** [staged_table_write_changes], the storage flags of a staged write: what it
    stages, and for a [Replace] what the replaced generation held. *)
Definition staged_storage `{RecordBatches} (w : StagedTableWrite)
  (had_files had_inlined_rows : bool) : TableChanges :=
  let changes := of_staged w in
  {| inserted_into := inserted_into changes;
     inserted_inlined := inserted_inlined changes;
     deleted_from := negb (is_empty (st_positional_deletes w))
                     || negb (is_empty (st_rewritten_deletes w))
                     || negb (is_empty (st_dropped_files w))
                     || (bool_decide (st_mode w = Replace) && had_files);
     deleted_inlined := negb (is_empty (st_inlined_deletes w))
                        || negb (is_empty (st_inlined_file_deletes w))
                        || (bool_decide (st_mode w = Replace) && had_inlined_rows);
     flushed_inlined := false |}.

Definition staged_table_write_changes `{RecordBatches} (w : StagedTableWrite)
  (had_files had_inlined_rows : bool) : str :=
  if st_inlined_flush w then table_token "inline_flush" (st_table_id w)
  else
    let changes := staged_storage w had_files had_inlined_rows in
    table_storage_tokens (st_table_id w) (inserted_into changes) (inserted_inlined changes)
      (deleted_from changes) (deleted_inlined changes).

(** [compaction_change]. *)
Definition compaction_change (retirement : SourceRetirement) (table_id : Z) : str :=
  match retirement with
  | Remove => table_token "merge_adjacent" table_id
  | Retire => table_token "rewrite_delete" table_id
  end.

(** [inlined_flush_changes]. *)
Definition inlined_flush_token_list (tables : list InlinedFlushTable) : list str :=
  let deleted := ift_table_id <$>
    filter (fun table => is_empty (ift_file_deletes table) = false) tables in
  let flushed := ift_table_id <$>
    filter (fun table => is_empty (ift_files table) = false) tables in
  (table_token "deleted_from_table" <$> merge_sort Z.le deleted)
  ++ (table_token "inline_flush" <$> merge_sort Z.le flushed).

Definition inlined_flush_changes (tables : list InlinedFlushTable) : str :=
  join [comma] (inlined_flush_token_list tables).

Inductive TagObjectType := TagSchema | TagTable | TagView.

Inductive TagTarget :=
| TagObject (object_type : TagObjectType) (object_id : Z)
| TagColumn (table_id column_id : Z).

(** [tag_change]. *)
Definition tag_change (target : TagTarget) (key : str) : result str :=
  match target with
  | TagObject TagSchema _ =>
      Err (InvalidConfig "schema comments and tags are not supported: DuckLake has none")
  | TagObject TagTable object_id => Ok (table_token "altered_table" object_id)
  | TagObject TagView object_id => Ok (table_token "altered_view" object_id)
  | TagColumn table_id _ =>
      if str_eqb key "comment" then Ok (table_token "altered_table" table_id)
      else Err (InvalidConfig ("column tag '" ++ key ++ "' is not supported: official "
             ++ "DuckLake supports only 'comment' on a column"))
  end.

(** ** The abstract ledger

    What the tokens mean. [Created kind name] is a token naming a created object
    by its printed (quoted) name; [Changed kind id] a token naming an object by
    id. *)

Inductive LedgerEntry :=
| Changed (kind : str) (id : Z)
| Created (kind : str) (name : str).

Definition print_entry (e : LedgerEntry) : str :=
  match e with
  | Changed kind id => table_token kind id
  | Created kind name => kind ++ ":" ++ name
  end.

Definition print_ledger (l : list LedgerEntry) : str := join [comma] (print_entry <$> l).

(** The quote state after a token that shows no comma outside quotes. *)
Fixpoint scan (quoted : bool) (s : str) : option bool :=
  match s with
  | [] => Some quoted
  | c :: s' =>
      let quoted' := if char_eqb c dquote then negb quoted else quoted in
      if char_eqb c comma && negb quoted' then None else scan quoted' s'
  end.

(** A closed token: its quotes pair up and no comma is outside them. *)
Definition closed (s : str) : Prop := scan false s = Some false.

Definition kind_char (c : ascii) : bool := is_ascii_lowercase c || char_eqb c "_".

(** A token kind as the code spells them: lower-case words joined by [_]. *)
Definition is_kind (kind : str) : bool :=
  forallb kind_char kind && negb (is_empty kind).

(** The ledgers the writers print: kinds as above, object names quoted. *)
Inductive quoted_name : str -> Prop :=
| quoted_schema name : quoted_name (quote_snapshot_name name)
| quoted_table schema name : quoted_name (quote_snapshot_table schema name).

Definition entry_ok (e : LedgerEntry) : Prop :=
  match e with
  | Changed kind id => is_kind kind = true /\ in_i64 id = true
  | Created kind name => is_kind kind = true /\ quoted_name name
  end.

(** *** Closed tokens *)

Lemma scan_app q s r : scan q (s ++ r) = scan q s ≫= fun q' => scan q' r.
Proof.
  revert q; induction s as [|c s IH]; intros q; [done|].
  cbn [app scan]. destruct (char_eqb c comma && _); [done|]. apply IH.
Qed.

Lemma scan_plain q s : dquote ∉ s -> (q = true \/ comma ∉ s) -> scan q s = Some q.
Proof.
  intros Hq Hc. induction s as [|c s IH]; [done|]. cbn [scan].
  rewrite not_elem_of_cons in Hq. destruct Hq as [Hd Hq].
  assert (char_eqb c dquote = false) as -> by (apply char_eqb_neq; congruence).
  destruct Hc as [->|Hc].
  - rewrite andb_false_r. apply IH; auto.
  - rewrite not_elem_of_cons in Hc. destruct Hc as [Hc' Hc].
    assert (char_eqb c comma = false) as -> by (apply char_eqb_neq; congruence).
    simpl. apply IH; auto.
Qed.

Lemma tokens_from_cut q t r :
  scan q t = Some false -> tokens_from q (t ++ comma :: r) = t :: tokens_from false r.
Proof.
  revert q; induction t as [|c t IH]; intros q.
  - intros [= ->]. done.
  - cbn [scan app tokens_from]. intros H. destruct (char_eqb c comma && _); [done|].
    by rewrite (IH _ H).
Qed.

Lemma tokens_from_last q t q' : scan q t = Some q' -> tokens_from q t = [t].
Proof.
  revert q; induction t as [|c t IH]; intros q; [done|].
  cbn [scan tokens_from]. intros H. destruct (char_eqb c comma && _); [done|].
  by rewrite (IH _ H).
Qed.

(** Joining closed tokens with commas and cutting the text gives them back; no
    token at all prints the empty text, which cuts into one empty token. *)
Lemma tokens_join l :
  Forall closed l ->
  snapshot_change_tokens (join [comma] l) = match l with [] => [[]] | _ => l end.
Proof.
  unfold snapshot_change_tokens. induction 1 as [|t l Ht Hl IH]; [done|].
  destruct l as [|u l].
  - by eapply tokens_from_last.
  - change (join [comma] (t :: u :: l)) with (t ++ comma :: join [comma] (u :: l)).
    by rewrite tokens_from_cut, IH.
Qed.

Lemma scan_quoted_body name :
  scan true (replace_char dquote [dquote; dquote] name) = Some true.
Proof.
  unfold replace_char. induction name as [|c name IH]; [done|].
  cbn [mbind list_bind]. destruct (char_eqb c dquote) eqn:E.
  - exact IH.
  - cbn [app scan]. rewrite E, andb_false_r. exact IH.
Qed.

Lemma scan_quote_snapshot_name name : scan false (quote_snapshot_name name) = Some false.
Proof.
  change (scan true (replace_char dquote [dquote; dquote] name ++ [dquote]) = Some false).
  by rewrite scan_app, scan_quoted_body.
Qed.

Lemma closed_app a b : closed a -> closed b -> closed (a ++ b).
Proof. unfold closed. intros Ha Hb. by rewrite scan_app, Ha. Qed.

Lemma closed_plain s : dquote ∉ s -> comma ∉ s -> closed s.
Proof. intros. apply scan_plain; auto. Qed.

Lemma closed_quoted n : quoted_name n -> closed n.
Proof.
  destruct 1; [apply scan_quote_snapshot_name|].
  unfold quote_snapshot_table. apply closed_app; [apply scan_quote_snapshot_name|].
  apply closed_app; [done | apply scan_quote_snapshot_name].
Qed.

Lemma kind_char_not c d : kind_char c = true -> kind_char d = false -> c <> d.
Proof. congruence. Qed.

Lemma is_kind_chars kind : is_kind kind = true -> Forall (fun c => kind_char c = true) kind.
Proof. unfold is_kind. intros H. apply andb_true_iff in H as [H _]. by apply forallb_Forall. Qed.

Lemma is_kind_not_in kind c : is_kind kind = true -> kind_char c = false -> c ∉ kind.
Proof.
  intros H Hc Hin. apply is_kind_chars in H. rewrite Forall_forall in H.
  specialize (H _ Hin). simpl in H. congruence.
Qed.

Lemma closed_kind kind : is_kind kind = true -> closed (kind ++ ":").
Proof.
  intros H. apply closed_app; [|done].
  apply closed_plain; by apply is_kind_not_in.
Qed.

Lemma closed_show_Z n : closed (show_Z n).
Proof. apply closed_plain; by apply show_Z_not_in. Qed.

Lemma closed_table_token kind id : is_kind kind = true -> closed (table_token kind id).
Proof.
  intros H. unfold table_token. rewrite app_assoc.
  apply closed_app; [by apply closed_kind | apply closed_show_Z].
Qed.

Lemma closed_entry e : entry_ok e -> closed (print_entry e).
Proof.
  destruct e as [kind id|kind name]; cbn [print_entry entry_ok]; intros [Hk Hn].
  - by apply closed_table_token.
  - rewrite app_assoc. apply closed_app; [by apply closed_kind | by apply closed_quoted].
Qed.

(** *** Cutting a token at its colon *)

Lemma split_kind kind rest :
  is_kind kind = true -> split_once ":" (kind ++ ":" ++ rest) = Some (kind, rest).
Proof. intros H. apply split_once_char. by apply is_kind_not_in. Qed.

Lemma parse_i64_quoted n : quoted_name n -> parse_i64 n = None.
Proof. by destruct 1. Qed.

Lemma kind_char_plain c : kind_char c = true -> plain_char c = true.
Proof.
  unfold kind_char, is_ascii_lowercase, plain_char. intros [H|H]%orb_true_iff; [breflect; lia|].
  by apply char_eqb_eq in H as ->.
Qed.

Lemma table_token_plain kind id :
  is_kind kind = true -> Forall (fun c => plain_char c = true) (table_token kind id).
Proof.
  intros H. unfold table_token. apply Forall_app. split.
  - eapply Forall_impl; [by apply is_kind_chars | exact kind_char_plain].
  - apply Forall_app. split; [by repeat constructor | apply show_Z_plain].
Qed.

Lemma quoted_name_ends n : quoted_name n -> exists m, n = [dquote] ++ m ++ [dquote].
Proof.
  destruct 1 as [name|schema name].
  - by exists (replace_char dquote [dquote; dquote] name).
  - unfold quote_snapshot_table, quote_snapshot_name.
    exists (replace_char dquote [dquote; dquote] schema ++ [dquote] ++ "." ++ [dquote]
            ++ replace_char dquote [dquote; dquote] name).
    by rewrite <- !app_assoc.
Qed.

Lemma trim_ends c m d : plain_char c = true -> plain_char d = true ->
  trim ([c] ++ m ++ [d]) = [c] ++ m ++ [d].
Proof.
  intros Hc Hd. apply trim_plain.
  - by intros ? ? [= <- _].
  - intros c' r E. rewrite app_assoc in E. apply app_inj_2 in E as [_ [= <-]]; done.
Qed.

Lemma trim_quoted n : quoted_name n -> trim n = n.
Proof. intros H. destruct (quoted_name_ends n H) as [m ->]. by apply trim_ends. Qed.

Lemma trim_created kind n :
  is_kind kind = true -> quoted_name n -> trim (kind ++ ":" ++ n) = kind ++ ":" ++ n.
Proof.
  intros Hk Hn. destruct (quoted_name_ends n Hn) as [m ->].
  pose proof (is_kind_chars kind Hk) as Hc.
  destruct kind as [|c kind]; [done|]. inversion Hc; subst.
  replace ((c :: kind) ++ ":" ++ [dquote] ++ m ++ [dquote])
    with ([c] ++ (kind ++ ":" ++ [dquote] ++ m) ++ [dquote]) by (cbn [app]; by rewrite <- !app_assoc).
  apply trim_ends; [by apply kind_char_plain | done].
Qed.

Lemma trim_kind kind : is_kind kind = true -> trim kind = kind.
Proof.
  intros H. apply trim_plain_all. eapply Forall_impl; [by apply is_kind_chars|].
  apply kind_char_plain.
Qed.

Lemma kind_char_lower c : kind_char c = true -> char_to_lower c = c.
Proof.
  unfold kind_char, char_to_lower, is_ascii_lowercase, is_ascii_uppercase.
  intros [H|H]%orb_true_iff.
  - breflect. assert (byte_val c <=? 90 = false) as -> by lia. by rewrite andb_false_r.
  - by apply char_eqb_eq in H as ->.
Qed.

Lemma lower_kind kind : is_kind kind = true -> to_ascii_lowercase kind = kind.
Proof.
  intros H. apply is_kind_chars in H. unfold to_ascii_lowercase.
  induction H as [|c l Hc _ IH]; [done|]. cbn. by rewrite kind_char_lower, IH.
Qed.

Lemma tokens_print_ledger l :
  Forall entry_ok l ->
  snapshot_change_tokens (print_ledger l)
  = match l with [] => [[]] | _ => print_entry <$> l end.
Proof.
  intros H. unfold print_ledger. rewrite tokens_join.
  - by destruct l.
  - apply Forall_fmap. eapply Forall_impl; [exact H | exact closed_entry].
Qed.

#[export] Hint Resolve closed_entry closed_table_token closed_quoted : ducklake.

(** ** Theorems *)

(** Cutting the ledger a commit printed gives back exactly the tokens it
    printed, whatever the names of the created objects are: a comma or a double
    quote in a schema or table name never splits or merges tokens. *)
Theorem ledger_tokens_roundtrip (l : list LedgerEntry) :
  Forall entry_ok l ->
  snapshot_change_tokens (print_ledger l)
  = match l with [] => [[]] | _ => print_entry <$> l end.
Proof. apply tokens_print_ledger. Qed.

Lemma ledger_tokens_roundtrip_witness :
  let l := [Created "created_table" (quote_snapshot_table "ma,in" (lit "x" ++ [dquote; comma]));
            Changed "inlined_insert" 7] in
  snapshot_change_tokens (print_ledger l) = print_entry <$> l.
Proof.
  apply (ledger_tokens_roundtrip
    [Created "created_table" (quote_snapshot_table "ma,in" (lit "x" ++ [dquote; comma]));
     Changed "inlined_insert" 7]).
  repeat constructor.
Defined.

(** On a ledger of table changes the count of [inlined_insert] tokens that
    advances the file id counter is the number of tables whose rows the commit
    inlined. *)
Theorem inlined_inserts_counts (l : list (str * Z)) :
  Forall (fun e => is_kind e.1 = true) l ->
  inlined_inserts (print_ledger ((fun e => Changed e.1 e.2) <$> l))
  = length (filter (fun e => e.1 = lit "inlined_insert") l).
Proof.
  intros H. unfold inlined_inserts, print_ledger.
  destruct (decide (l = [])) as [->|Hne]; [done|].
  rewrite split_on_join; [| done | by destruct l |].
  - rewrite <- list_fmap_compose.
    apply length_filter_fmap. eapply Forall_impl; [exact H|]. intros [kind id] Hk.
    cbn [compose print_entry fst snd] in *. split.
    + intros Hs. apply starts_with_spec in Hs as [r Hr].
      unfold table_token in Hr.
      pose proof (split_kind kind (show_Z id) Hk) as E. rewrite Hr in E.
      change (lit "inlined_insert:") with (lit "inlined_insert" ++ ":") in E.
      rewrite <- app_assoc, split_kind in E by done. congruence.
    + intros ->. apply starts_with_spec. by exists (show_Z id).
  - rewrite <- list_fmap_compose. apply Forall_fmap. eapply Forall_impl; [exact H|].
    intros [kind id] Hk. cbn. unfold table_token. apply Forall_app. split.
    + rewrite Forall_forall. intros c Hc. apply char_eqb_neq. intros <-.
      by apply (is_kind_not_in kind comma Hk).
    + apply Forall_app. split; [by repeat constructor|]. rewrite Forall_forall. intros c Hc.
      apply char_eqb_neq. intros <-. by apply (show_Z_not_in id comma).
Qed.

Lemma inlined_inserts_counts_witness :
  inlined_inserts (print_ledger
    [Changed "inserted_into_table" 1; Changed "inlined_insert" 2; Changed "inlined_insert" 3])
  = 2%nat.
Proof.
  apply (inlined_inserts_counts
    [(lit "inserted_into_table", 1); (lit "inlined_insert", 2); (lit "inlined_insert", 3)]).
  repeat constructor.
Defined.
