(* ===== verification/Conflicts.v ===== *)
(** * Commit conflict detection ([src/src/metadata_writer.rs])

    A commit staged against a base snapshot is checked against the
    [changes_made] of every snapshot committed since: [table_conflict] is the
    table-level rule, [staged_conflict] and [inlined_flush_table_conflict] apply
    it to a staged write and to a flush, [inlined_deletion_conflict] is the
    row-level rule for inlined deletions. The abstract specification is the
    matrix [conflicts_with]: which change of another transaction each of our
    changes excludes. The refinement theorems say that the textual check over
    the printed ledger decides the matrix. *)

From S2P Require Import Prelude RustStd Arrow WriterTypes ChangeLedger.

(** ** The check *)

(** The kinds of the ledger's tokens that name [table_id] by id, lower-cased:
    the [HashSet] [other] of [table_conflict]. *)
Definition other_kinds (table_id : Z) (changes : list (option str)) : list str :=
  omap (fun token =>
          '(kind, id) ← split_once ":" token;
          if bool_decide (parse_i64 id = Some table_id)
          then Some (to_ascii_lowercase kind) else None)
    (mjoin (snapshot_change_tokens <$> omap id changes)).

Abbreviation rules := (list (list str * str)).

Definition INSERT : rules :=
  [([lit "dropped_table"], lit "dropped it");
   ([lit "altered_table"], lit "altered it");
   ([lit "deleted_from_table"], lit "deleted from it");
   ([lit "inlined_delete"], lit "deleted inlined data from it")].

Definition DELETE_FROM : rules :=
  [([lit "dropped_table"], lit "dropped it");
   ([lit "altered_table"], lit "altered it");
   ([lit "merge_adjacent"], lit "compacted it");
   ([lit "rewrite_delete"; lit "compacted_table"], lit "compacted it");
   ([lit "inserted_into_table"], lit "inserted into it");
   ([lit "inlined_insert"], lit "inserted into it")].

Definition DELETE_INLINED : rules :=
  [([lit "dropped_table"], lit "dropped it");
   ([lit "altered_table"], lit "altered it");
   ([lit "inlined_delete"], lit "deleted from it");
   ([lit "flushed_inlined"; lit "inline_flush"], lit "flushed the inlined data");
   ([lit "inserted_into_table"], lit "inserted into it");
   ([lit "inlined_insert"], lit "inserted into it")].

Definition FLUSH : rules :=
  [([lit "dropped_table"], lit "dropped it");
   ([lit "inlined_delete"], lit "deleted from it");
   ([lit "flushed_inlined"; lit "inline_flush"], lit "flushed it")].

(** The closure [check] of [table_conflict]: the first rule another
    transaction's change matches. *)
Definition check_rules (table_id : Z) (other : list str) (action : str) (rs : rules)
  : option DuckLakeError :=
  find_map (fun '(kinds, described) =>
    if existsb (fun kind => bool_decide (kind ∈ other)) kinds then
      Some (Conflict ("Transaction conflict - attempting to " ++ action ++ " with index "
             ++ [dquote] ++ show_Z table_id ++ [dquote]
             ++ " - but another transaction has " ++ described))
    else None) rs.

(** [table_conflict]. *)
Definition table_conflict (table_id : Z) (ours : TableChanges) (changes : list (option str))
  : option DuckLakeError :=
  let other := other_kinds table_id changes in
  let check := check_rules table_id other in
  let conflict := None in
  let conflict := if inserted_into ours || inserted_inlined ours
                  then or_else conflict (check "insert into table" INSERT) else conflict in
  let conflict := if deleted_from ours
                  then or_else conflict (check "delete from table" DELETE_FROM) else conflict in
  let conflict := if deleted_inlined ours
                  then or_else conflict (check "delete from table" DELETE_INLINED)
                  else conflict in
  if flushed_inlined ours
  then or_else conflict (check "flush inline data" FLUSH) else conflict.

(** [inlined_flush_table_conflict]: first the deletions of every table by table
    id, then the flush of every table by table id. [sort_by_key] is stable. *)
Definition by_table_id (a b : InlinedFlushTable) : Prop := ift_table_id a <= ift_table_id b.
#[global] Instance by_table_id_dec : RelDecision by_table_id.
Proof. intros a b. unfold by_table_id. apply _. Defined.

Definition only (table : InlinedFlushTable) (deletes : bool) : TableChanges :=
  let changes := of_flush table in
  if deletes then
    {| inserted_into := inserted_into changes; inserted_inlined := inserted_inlined changes;
       deleted_from := deleted_from changes; deleted_inlined := deleted_inlined changes;
       flushed_inlined := false |}
  else
    {| inserted_into := inserted_into changes; inserted_inlined := inserted_inlined changes;
       deleted_from := false; deleted_inlined := deleted_inlined changes;
       flushed_inlined := flushed_inlined changes |}.

Definition inlined_flush_table_conflict (tables : list InlinedFlushTable)
  (changes : list (option str)) : option DuckLakeError :=
  let ordered := merge_sort by_table_id tables in
  find_map (fun deletes =>
    find_map (fun table => table_conflict (ift_table_id table) (only table deletes) changes)
      ordered) [true; false].

(** [changes_name_table]. *)
Definition changes_name_table (changes : list (option str)) (table_id : Z) : bool :=
  existsb (fun token =>
    match split_once ":" (trim token) with
    | Some (kind, id) =>
        negb (change_kind_names_other_object kind)
        && bool_decide (parse_i64 (trim id) = Some table_id)
    | None => false
    end) (mjoin (snapshot_change_tokens <$> omap id changes)).

(** [staged_conflict]. *)
Definition staged_conflict `{RecordBatches} (w : StagedTableWrite)
  (changes : list (option str)) : option DuckLakeError :=
  if st_exclusive w && changes_name_table changes (st_table_id w) then
    Some (Conflict ("Transaction conflict - attempting to restore rows of table with index "
           ++ [dquote] ++ show_Z (st_table_id w) ++ [dquote]
           ++ " - but another transaction has changed it"))
  else if st_inlined_flush w then
    table_conflict (st_table_id w)
      {| inserted_into := false; inserted_inlined := false; deleted_from := false;
         deleted_inlined := negb (is_empty (st_inlined_deletes w));
         flushed_inlined := false |} changes
  else
    let ours := of_staged w in
    let ours :=
      if bool_decide (st_mode w = Replace) then
        {| inserted_into := false; inserted_inlined := false;
           deleted_from := deleted_from ours; deleted_inlined := deleted_inlined ours;
           flushed_inlined := flushed_inlined ours |}
      else ours in
    table_conflict (st_table_id w) ours changes.

(** [SourceFile]: a data file a commit deletes from or drops. *)
Record SourceFile := { sf_data_file_id : Z; sf_positions : option (list Z) }.

Definition SourceFile_any (data_file_id : Z) : SourceFile :=
  {| sf_data_file_id := data_file_id; sf_positions := None |}.
Definition SourceFile_deleted_by (data_file_id : Z) (delete : DeleteFileInfo) : SourceFile :=
  {| sf_data_file_id := data_file_id; sf_positions := del_deleted_positions delete |}.

(** [SourceFile::of_entries]. *)
Definition SourceFile_of_entries (entries : list DeleteFileEntry) (deleting : bool)
  : list SourceFile :=
  (fun entry => if deleting then SourceFile_deleted_by (de_data_file_id entry) (de_delete entry)
                else SourceFile_any (de_data_file_id entry)) <$> entries.

(** [is_pure_delete]. *)
Definition is_pure_delete `{RecordBatches} (w : StagedTableWrite) : bool :=
  negb (inserts_rows w) && negb (st_inlined_flush w).

(** [row_mutation_source_files]. *)
Definition row_mutation_source_files `{RecordBatches} (w : StagedTableWrite) : list SourceFile :=
  let deleting := is_pure_delete w in
  SourceFile_of_entries (st_positional_deletes w) deleting
  ++ ((fun d => if deleting
                then SourceFile_deleted_by (iffd_data_file_id d) (ifd_delete (iffd_delete d))
                else SourceFile_any (iffd_data_file_id d)) <$> st_rewritten_deletes w)
  ++ ((fun d => SourceFile_any (dr_data_file_id d)) <$> st_dropped_files w).

(** [inlined_deletion_conflict]: [concurrent] are the [(file_id, row_id)] of the
    inlined deletions recorded since the base snapshot. *)
Definition deletion_conflicts (sources : list SourceFile) (file_id : Z) (row_id : option Z)
  : bool :=
  existsb (fun source =>
    (sf_data_file_id source =? file_id)
    && match sf_positions source, row_id with
       | Some positions, Some row_id => bool_decide (row_id ∈ positions)
       | _, _ => true
       end) sources.

Fixpoint inlined_deletion_conflict (table_id base_snapshot : Z) (sources : list SourceFile)
  (concurrent : list (Z * option Z)) : result unit :=
  match concurrent with
  | [] => Ok tt
  | (file_id, row_id) :: rest =>
      if deletion_conflicts sources file_id row_id then
        Err (Conflict ("table " ++ show_Z table_id
               ++ " gained an inlined delete on a source file since snapshot "
               ++ show_Z base_snapshot ++ "; re-open the catalog and re-plan"))
      else inlined_deletion_conflict table_id base_snapshot sources rest
  end.

(** ** Conflicts the code recognises by their text *)

Definition CHANGED_DELETE_FILE_CONFLICT : str := " got a delete file since snapshot".
Definition REWRITTEN_DELETE_CONFLICT : str :=
  ": the catalog committed a snapshot at or after snapshot".

(** [changed_delete_file_conflict]. *)
Definition changed_delete_file_conflict (data_file_id base_snapshot : Z) : DuckLakeError :=
  Conflict ("data file " ++ show_Z data_file_id ++ CHANGED_DELETE_FILE_CONFLICT ++ " "
    ++ show_Z base_snapshot ++ "; re-open the catalog and retry the statement").

(** [changed_delete_file_of]. *)
Definition changed_delete_file_of (error : DuckLakeError) : option Z :=
  match error with
  | Conflict message =>
      '(head, _) ← split_once CHANGED_DELETE_FILE_CONFLICT message;
      rest ← strip_prefix "data file " head;
      parse_i64 rest
  | _ => None
  end.

(** [rewritten_delete_conflict]. *)
Definition rewritten_delete_conflict (table_id dated : Z) : DuckLakeError :=
  Conflict ("table " ++ show_Z table_id ++ REWRITTEN_DELETE_CONFLICT ++ " " ++ show_Z dated
    ++ ", the snapshot the rewritten delete file dates its deletions to").

(** [is_rewritten_delete_conflict]. *)
Definition is_rewritten_delete_conflict (error : DuckLakeError) : bool :=
  match error with
  | Conflict message => contains REWRITTEN_DELETE_CONFLICT message
  | _ => false
  end.

(** [created_table_conflict]. *)
Definition created_table_conflict (table_id base_snapshot : Z) : DuckLakeError :=
  Conflict ("table " ++ show_Z table_id ++ " was created by another transaction after snapshot "
    ++ show_Z base_snapshot ++ "; retry the write").

(** ** The specification: the conflict matrix *)

(** The kinds of change another transaction can have made to the table that
    exclude each of ours. *)
Definition conflicts_with (ours : TableChanges) (kind : str) : bool :=
  ((inserted_into ours || inserted_inlined ours)
   && bool_decide (kind ∈ [lit "dropped_table"; lit "altered_table"; lit "deleted_from_table";
                           lit "inlined_delete"]))
  || (deleted_from ours
      && bool_decide (kind ∈ [lit "dropped_table"; lit "altered_table"; lit "merge_adjacent";
                              lit "rewrite_delete"; lit "compacted_table";
                              lit "inserted_into_table"; lit "inlined_insert"]))
  || (deleted_inlined ours
      && bool_decide (kind ∈ [lit "dropped_table"; lit "altered_table"; lit "inlined_delete";
                              lit "flushed_inlined"; lit "inline_flush";
                              lit "inserted_into_table"; lit "inlined_insert"]))
  || (flushed_inlined ours
      && bool_decide (kind ∈ [lit "dropped_table"; lit "inlined_delete";
                              lit "flushed_inlined"; lit "inline_flush"])).

Definition union_changes (a b : TableChanges) : TableChanges :=
  {| inserted_into := inserted_into a || inserted_into b;
     inserted_inlined := inserted_inlined a || inserted_inlined b;
     deleted_from := deleted_from a || deleted_from b;
     deleted_inlined := deleted_inlined a || deleted_inlined b;
     flushed_inlined := flushed_inlined a || flushed_inlined b |}.

(** ** Proofs *)

Lemma is_Some_or_else {A} (o o' : option A) :
  is_Some (or_else o o') <-> is_Some o \/ is_Some o'.
Proof.
  destruct o; simpl; split; intros; [left; eauto | eauto | auto |].
  destruct H as [[? [=]]|]; done.
Qed.

Lemma check_rules_some t other action rs :
  is_Some (check_rules t other action rs)
  <-> exists kind, kind ∈ mjoin rs.*1 /\ kind ∈ other.
Proof.
  unfold check_rules. rewrite find_map_is_some. setoid_rewrite Exists_exists.
  split.
  - intros ([kinds d] & Hin & [e He]).
    destruct (existsb _ kinds) eqn:E; [|done].
    apply existsb_exists in E as (kind & Hk & Ho). apply bool_decide_eq_true in Ho.
    exists kind. split; [|done]. apply list_elem_of_join. exists kinds.
    split; [by apply list_elem_of_In|]. apply list_elem_of_fmap. by exists (kinds, d).
  - intros (kind & Hk & Ho). apply list_elem_of_join in Hk as (kinds & Hk & Hin).
    apply list_elem_of_fmap in Hin as ([kinds' d] & -> & Hin). exists (kinds', d).
    split; [done|]. simpl.
    replace (existsb _ kinds') with true; [eauto|]. symmetry.
    apply existsb_exists. exists kind. split; [by apply list_elem_of_In|].
    by apply bool_decide_eq_true.
Qed.

(** The check holds a conflict exactly when some change of another transaction
    to the table is excluded by the matrix. *)
Lemma table_conflict_matrix t ours changes :
  is_Some (table_conflict t ours changes)
  <-> exists kind, kind ∈ other_kinds t changes /\ conflicts_with ours kind = true.
Proof.
  unfold table_conflict, conflicts_with.
  destruct ours as [i ii d di f]; cbn -[check_rules bool_decide elem_of or_else].
  setoid_rewrite orb_true_iff. setoid_rewrite orb_true_iff. setoid_rewrite orb_true_iff.
  setoid_rewrite andb_true_iff. setoid_rewrite bool_decide_eq_true.
  assert (forall (b : bool) o action rs,
            is_Some (if b then or_else o (check_rules t (other_kinds t changes) action rs) else o)
            <-> is_Some o \/ (b = true /\ exists kind, kind ∈ mjoin rs.*1
                                        /\ kind ∈ other_kinds t changes)) as Hstep.
  { intros b o action rs. destruct b.
    - rewrite is_Some_or_else, check_rules_some. naive_solver.
    - naive_solver. }
  rewrite !Hstep.
  unfold INSERT, DELETE_FROM, DELETE_INLINED, FLUSH. cbn [fmap list_fmap mjoin list_join app fst].
  split.
  - intros [[[[[? [=]]|(?&k&?&?)]|(?&k&?&?)]|(?&k&?&?)]|(?&k&?&?)]; exists k; tauto.
  - intros (k & Ho & [[[[Hb Hk]|[Hb Hk]]|[Hb Hk]]|[Hb Hk]]);
      [do 3 left; right | do 2 left; right | left; right | right];
      exact (conj Hb (ex_intro _ k (conj Hk Ho))).
Qed.

(** *** Reading the printed ledger *)

(** What the token filter of [table_conflict] makes of a printed entry. *)
Lemma other_kind_of_entry t e :
  entry_ok e ->
  ('(kind, id) ← split_once ":" (print_entry e);
   if bool_decide (parse_i64 id = Some t) then Some (to_ascii_lowercase kind) else None)
  = match e with
    | Changed kind id => if decide (id = t) then Some kind else None
    | Created _ _ => None
    end.
Proof.
  destruct e as [kind id|kind name]; cbn [entry_ok print_entry]; intros [Hk Hn].
  - unfold table_token. rewrite split_kind by done. cbn [mbind option_bind].
    rewrite parse_show_i64, lower_kind by done.
    case_bool_decide; case_decide; naive_solver.
  - rewrite split_kind by done. cbn [mbind option_bind]. by rewrite parse_i64_quoted.
Qed.

Definition ledger_ok (l : option (list LedgerEntry)) : Prop :=
  match l with Some l => Forall entry_ok l | None => True end.

Definition print_changes : list (option (list LedgerEntry)) -> list (option str) :=
  fmap (M := list) (fmap (M := option) print_ledger).

(** The tokens of a printed history: those of every entry, and an empty token
    for a printed empty ledger. *)
Lemma elem_of_history_tokens ledgers token :
  Forall ledger_ok ledgers ->
  token ∈ mjoin (snapshot_change_tokens <$> omap id (print_changes ledgers))
  <-> (token = [] /\ Some [] ∈ ledgers)
      \/ exists l e, Some l ∈ ledgers /\ e ∈ l /\ token = print_entry e.
Proof.
  intros Hok. rewrite list_elem_of_join. setoid_rewrite list_elem_of_fmap.
  setoid_rewrite list_elem_of_omap. unfold print_changes. setoid_rewrite list_elem_of_fmap.
  assert (forall l, Some l ∈ ledgers -> Forall entry_ok l) as Hl.
  { intros l Hin. rewrite Forall_forall in Hok. apply (Hok _ Hin). }
  split.
  - intros (ts & Ht & s & -> & o & (o' & -> & Hin) & Ho).
    destruct o' as [l|]; [|done]. cbn in Ho. injection Ho as <-.
    rewrite tokens_print_ledger in Ht by by apply Hl.
    destruct l as [|e l]; [left; set_solver|]. right.
    apply list_elem_of_fmap in Ht as (e' & -> & He). eauto.
  - intros [[-> Hin]|(l & e & Hin & He & ->)].
    + exists [[]]. split; [constructor|]. exists []. split; [done|].
      exists (Some []). split; [|done]. by exists (Some []).
    + exists (print_entry <$> l). split; [by apply list_elem_of_fmap; eauto|].
      exists (print_ledger l). split.
      * rewrite tokens_print_ledger by by apply Hl.
        destruct l; [by inversion He | done].
      * exists (Some (print_ledger l)). split; [|done]. by exists (Some l).
Qed.

Lemma other_kinds_printed t ledgers kind :
  Forall ledger_ok ledgers ->
  kind ∈ other_kinds t (print_changes ledgers)
  <-> exists l, Some l ∈ ledgers /\ Changed kind t ∈ l.
Proof.
  intros Hok. unfold other_kinds. rewrite list_elem_of_omap.
  setoid_rewrite elem_of_history_tokens; [|done]. split.
  - intros (token & [[-> _]|(l & e & Hl & He & ->)] & H); [done|].
    assert (entry_ok e) as Heok.
    { rewrite Forall_forall in Hok. specialize (Hok _ Hl). cbn in Hok.
      rewrite Forall_forall in Hok. by apply Hok. }
    rewrite other_kind_of_entry in H by done. destruct e as [k id|]; [|done].
    case_decide; [|done]. simplify_eq. eauto.
  - intros (l & Hl & He). exists (print_entry (Changed kind t)).
    split; [right; eauto|].
    rewrite other_kind_of_entry; [by rewrite decide_True|].
    rewrite Forall_forall in Hok. specialize (Hok _ Hl). cbn in Hok.
    rewrite Forall_forall in Hok. by apply Hok.
Qed.

(** *** The ledger of a staged write *)

Definition staged_entries `{RecordBatches} (w : StagedTableWrite) (had_files had_inlined : bool)
  : list LedgerEntry :=
  let t := st_table_id w in
  let c := staged_storage w had_files had_inlined in
  if st_inlined_flush w then [Changed "inline_flush" t]
  else (if inserted_into c then [Changed "inserted_into_table" t] else [])
       ++ (if deleted_from c then [Changed "deleted_from_table" t] else [])
       ++ (if inserted_inlined c then [Changed "inlined_insert" t] else [])
       ++ (if deleted_inlined c then [Changed "inlined_delete" t] else []).

Section staged.
Context `{RecordBatches}.

Lemma staged_changes_printed w hf hi :
  staged_table_write_changes w hf hi = print_ledger (staged_entries w hf hi).
Proof.
  unfold staged_table_write_changes, staged_entries.
  destruct (st_inlined_flush w); [done|].
  unfold table_storage_tokens, table_storage_token_list, print_ledger.
  by destruct (inserted_into _), (deleted_from _), (inserted_inlined _), (deleted_inlined _).
Qed.

Lemma staged_entries_ok w hf hi :
  in_i64 (st_table_id w) = true -> Forall entry_ok (staged_entries w hf hi).
Proof.
  intros Hid. unfold staged_entries. destruct (st_inlined_flush w); [by repeat constructor|].
  destruct (inserted_into _), (deleted_from _), (inserted_inlined _), (deleted_inlined _);
    repeat constructor; done.
Qed.

Lemma staged_entries_ids w hf hi kind id :
  Changed kind id ∈ staged_entries w hf hi -> id = st_table_id w.
Proof.
  unfold staged_entries. destruct (st_inlined_flush w); [set_solver|].
  destruct (inserted_into _), (deleted_from _), (inserted_inlined _), (deleted_inlined _);
    set_solver.
Qed.

(** A commit's ledger read by another commit to the same table. *)
Lemma table_conflict_staged w hf hi t ours :
  in_i64 (st_table_id w) = true ->
  is_Some (table_conflict t ours [Some (staged_table_write_changes w hf hi)])
  <-> exists kind, Changed kind t ∈ staged_entries w hf hi /\ conflicts_with ours kind = true.
Proof.
  intros Hid. rewrite staged_changes_printed.
  change [Some (print_ledger (staged_entries w hf hi))]
    with (print_changes [Some (staged_entries w hf hi)]).
  rewrite table_conflict_matrix. setoid_rewrite other_kinds_printed.
  - setoid_rewrite list_elem_of_singleton. naive_solver.
  - constructor; [|constructor]. by apply staged_entries_ok.
Qed.

(** The conflict matrix between two staged writes, on what they stage. *)
Definition writes_conflict (ours theirs : TableChanges) : bool :=
  let inserts c := inserted_into c || inserted_inlined c in
  (inserts ours && (deleted_from theirs || deleted_inlined theirs))
  || (deleted_from ours && inserts theirs)
  || (deleted_inlined ours && (deleted_inlined theirs || inserts theirs)).

Lemma elem_of_optional (b : bool) (x y : LedgerEntry) :
  x ∈ (if b then [y] else []) <-> b = true /\ x = y.
Proof. destruct b; set_solver. Qed.

Lemma staged_entries_kinds w hf hi ours (c := staged_storage w hf hi) :
  st_inlined_flush w = false ->
  (exists kind, Changed kind (st_table_id w) ∈ staged_entries w hf hi
                /\ conflicts_with ours kind = true)
  <-> (inserted_into c && conflicts_with ours "inserted_into_table")
      || (deleted_from c && conflicts_with ours "deleted_from_table")
      || (inserted_inlined c && conflicts_with ours "inlined_insert")
      || (deleted_inlined c && conflicts_with ours "inlined_delete") = true.
Proof.
  intros Hf. unfold staged_entries. rewrite Hf. fold c.
  setoid_rewrite elem_of_app. setoid_rewrite elem_of_app. setoid_rewrite elem_of_app.
  setoid_rewrite elem_of_optional.
  rewrite !orb_true_iff, !andb_true_iff. split.
  - intros (kind & [[? [=]]|[[? [=]]|[[? [=]]|[? [=]]]]] & Hc); subst kind; tauto.
  - intros [[[[? ?]|[? ?]]|[? ?]]|[? ?]]; eexists; (split; [|eassumption]); tauto.
Qed.

Lemma staged_entries_conflict w hf hi ours :
  st_inlined_flush w = false -> flushed_inlined ours = false ->
  (exists kind, Changed kind (st_table_id w) ∈ staged_entries w hf hi
                /\ conflicts_with ours kind = true)
  <-> writes_conflict ours (staged_storage w hf hi) = true.
Proof.
  intros Hf Ho. rewrite staged_entries_kinds by done.
  destruct (staged_storage w hf hi) as [i ii d di f], ours as [oi oii od odi of_].
  cbn [flushed_inlined] in Ho. subst of_.
  match goal with |- ?a = true <-> ?b = true => replace b with a; [done|] end.
  by destruct i, ii, d, di, oi, oii, od, odi.
Qed.

End staged.

(** *** Row-level conflicts *)

Lemma inlined_deletion_conflict_spec t base sources concurrent :
  inlined_deletion_conflict t base sources concurrent = Ok tt
  <-> Forall (fun c => deletion_conflicts sources c.1 c.2 = false) concurrent.
Proof.
  induction concurrent as [|[f r] rest IH]; cbn [inlined_deletion_conflict]; [split; auto|].
  rewrite Forall_cons. cbn [fst snd]. destruct (deletion_conflicts sources f r); naive_solver.
Qed.

Lemma deletion_conflicts_false sources f r :
  deletion_conflicts sources f r = false
  <-> forall s, s ∈ sources -> sf_data_file_id s = f ->
        exists ps p, sf_positions s = Some ps /\ r = Some p /\ p ∉ ps.
Proof.
  unfold deletion_conflicts. rewrite existsb_false_iff, Forall_forall. split.
  - intros H s Hs Hf. specialize (H s Hs). simpl in H.
    rewrite (proj2 (Z.eqb_eq _ _) Hf) in H. cbn [andb] in H.
    destruct (sf_positions s) as [ps|], r as [p|]; try done.
    apply bool_decide_eq_false in H. eauto.
  - intros H s Hs. destruct (sf_data_file_id s =? f) eqn:E; [|done]. breflect.
    destruct (H s Hs E) as (ps & p & -> & -> & Hp). by rewrite bool_decide_false.
Qed.

(** ** Theorems *)

(** C9. The textual conflict check over the [changes_made] history refines the
    conflict matrix: a commit making [ours] to table [t] is refused exactly when
    some snapshot since its base records, for [t] and not for an object whose id
    or name merely looks like it, a change the matrix excludes. A snapshot with
    no recorded ledger excludes nothing. *)
Theorem table_conflict_refines_matrix (t : Z) (ours : TableChanges)
  (ledgers : list (option (list LedgerEntry))) :
  Forall ledger_ok ledgers ->
  is_Some (table_conflict t ours (print_changes ledgers))
  <-> exists l kind, Some l ∈ ledgers /\ Changed kind t ∈ l /\ conflicts_with ours kind = true.
Proof.
  intros Hok. rewrite table_conflict_matrix. setoid_rewrite other_kinds_printed; [|done].
  naive_solver.
Qed.

Lemma table_conflict_refines_matrix_witness :
  is_Some (table_conflict 7 changes_append
    (print_changes [None; Some [Created "created_table" (quote_snapshot_table "s" "deleted_from_table:7");
                                Changed "deleted_from_table" 7]])).
Proof.
  apply (table_conflict_refines_matrix 7 changes_append
    [None; Some [Created "created_table" (quote_snapshot_table "s" "deleted_from_table:7");
                 Changed "deleted_from_table" 7]]).
  - repeat constructor.
  - exists [Created "created_table" (quote_snapshot_table "s" "deleted_from_table:7");
            Changed "deleted_from_table" 7], (lit "deleted_from_table").
    split; [right; left|]. split; [right; left | reflexivity].
Defined.


#[local] Existing Instance counted_batches.

(** Staged writes for the concrete evaluations. *)
Definition three_rows : StagedTableData := @SInlined counted_batches [3%nat].
Definition staged_example (t : Z) (mode : WriteMode) (data : StagedTableData)
  (dropped : list DroppedDataFile) : StagedTableWrite :=
  {| st_table_id := t; st_schema_name := "main"; st_table_name := "t";
     st_base_snapshot_id := 1; st_mode := mode; st_columns := []; st_column_ids := [];
     st_data := data; st_snapshot_id_columns := []; st_positional_deletes := [];
     st_rewritten_deletes := []; st_inlined_deletes := []; st_inlined_row_ids := None;
     st_inserted_files := []; st_inlined_file_deletes := []; st_dropped_files := dropped;
     st_inlined_flush := false; st_exclusive := false |}.


(** A commit to one table is never refused for a commit to another, whatever
    it staged: no id is taken for a prefix of another, in the rule check and in
    the exclusive check of a row restore alike. *)
Theorem other_tables_never_conflict `{RecordBatches} (w1 w2 : StagedTableWrite) (hf hi : bool) :
  in_i64 (st_table_id w1) = true -> st_table_id w2 <> st_table_id w1 ->
  staged_conflict w2 [Some (staged_table_write_changes w1 hf hi)] = None.
Proof.
  intros Hid Hne.
  assert (forall ours, table_conflict (st_table_id w2) ours
            [Some (staged_table_write_changes w1 hf hi)] = None) as Hn.
  { intros ours. apply eq_None_not_Some. rewrite table_conflict_staged by done.
    intros (kind & Hin & _). by apply staged_entries_ids in Hin. }
  unfold staged_conflict. rewrite !Hn.
  assert (changes_name_table [Some (staged_table_write_changes w1 hf hi)] (st_table_id w2) = false)
    as ->; [|rewrite andb_false_r; by destruct (st_inlined_flush w2)].
  unfold changes_name_table. apply existsb_false_iff, Forall_forall. intros token Hin.
  rewrite staged_changes_printed in Hin.
  apply (elem_of_history_tokens [Some (staged_entries w1 hf hi)]) in Hin.
  2: { constructor; [|constructor]. by apply staged_entries_ok. }
  destruct Hin as [[-> _]|(l & e & Hl & He & ->)]; [done|].
  apply list_elem_of_singleton in Hl. injection Hl as ->.
  pose proof (staged_entries_ok w1 hf hi Hid) as Hok. rewrite Forall_forall in Hok.
  specialize (Hok e He). destruct e as [kind id|kind name].
  - apply staged_entries_ids in He. subst id. cbn [print_entry entry_ok] in *.
    destruct Hok as [Hk Hi]. rewrite trim_plain_all by by apply table_token_plain.
    unfold table_token. rewrite split_kind, trim_show_Z, parse_show_i64 by done.
    by rewrite bool_decide_false, andb_false_r by congruence.
  - unfold staged_entries in He. destruct (st_inlined_flush w1); [set_solver|].
    revert He. rewrite !elem_of_app, !elem_of_optional. naive_solver.
Qed.

Lemma other_tables_never_conflict_witness :
  staged_conflict (staged_example 4 Append three_rows [])
    [Some (staged_table_write_changes (staged_example 44 Replace SNone []) true true)] = None.
Proof. apply other_tables_never_conflict; [reflexivity | discriminate]. Defined.

(** C11. The row-level check commits a row mutation exactly when it deletes no row
    a concurrent inlined deletion deletes: every concurrent deletion of a file
    the mutation deletes from names a position, the mutation registered the
    positions of its own delete file of that file, and the two are disjoint. So a
    drop or a rewrite with unknown positions commits only beside no concurrent
    deletion of its files at all. *)
Theorem inlined_deletion_conflict_exact (t base : Z) (sources : list SourceFile)
  (concurrent : list (Z * option Z)) :
  inlined_deletion_conflict t base sources concurrent = Ok tt
  <-> forall file row source, (file, row) ∈ concurrent -> source ∈ sources ->
        sf_data_file_id source = file ->
        exists ps p, sf_positions source = Some ps /\ row = Some p /\ p ∉ ps.
Proof.
  rewrite inlined_deletion_conflict_spec, Forall_forall.
  setoid_rewrite deletion_conflicts_false. split.
  - intros H f r s Hc Hs Hf. exact (H (f, r) Hc s Hs Hf).
  - intros H [f r] Hc s Hs Hf. exact (H f r s Hc Hs Hf).
Qed.

(** The retry logic reads back from an error's text what the conflict was: the
    data file of a changed-delete-file conflict is recovered, a
    rewritten-delete conflict is recognised, and neither is taken for the other. *)
Theorem conflict_texts_roundtrip (file base t dated : Z) :
  in_i64 file = true ->
  changed_delete_file_of (changed_delete_file_conflict file base) = Some file
  /\ is_rewritten_delete_conflict (rewritten_delete_conflict t dated) = true
  /\ changed_delete_file_of (rewritten_delete_conflict t dated) = None.
Proof.
  intros Hf. split; [|split].
  - unfold changed_delete_file_of, changed_delete_file_conflict.
    destruct (show_Z file) as [|c s] eqn:Es; [by apply show_Z_nonempty in Es|].
    pose proof (show_Z_chars file) as Hch. rewrite Es in Hch.
    inversion Hch as [|? ? Hc Hs]; subst.
    assert (no_start CHANGED_DELETE_FILE_CONFLICT (lit "data file " ++ [c]) = true) as Hno.
    { destruct Hc as [Hc|Hc]; [|by subst c]. revert Hc. clear.
      destruct c as [[][][][][][][][]]; vm_compute; congruence. }
    change (lit "data file " ++ (c :: s) ++ ?x) with ((lit "data file " ++ [c]) ++ (s ++ x)).
    rewrite split_once_skip by done.
    assert (" "%char ∉ c :: s) as Hsp by (rewrite <- Es; by apply show_Z_not_in).
    change CHANGED_DELETE_FILE_CONFLICT
      with (" "%char :: lit "got a delete file since snapshot").
    rewrite split_once_fresh by set_solver. cbn [mbind option_bind].
    rewrite (proj2 (strip_prefix_spec (lit "data file ") _ (c :: s))) by done.
    cbn [mbind option_bind]. rewrite <- Es. by apply parse_show_i64.
  - unfold is_rewritten_delete_conflict, rewritten_delete_conflict.
    rewrite app_assoc. apply contains_app.
  - unfold changed_delete_file_of, rewritten_delete_conflict.
    destruct (split_once _ _) as [[head r]|] eqn:E; [|done]. cbn [mbind option_bind].
    destruct (strip_prefix (lit "data file ") head) as [x|] eqn:Ex; [|done]. exfalso.
    apply strip_prefix_spec in Ex. subst head.
    match type of E with split_once _ (lit "table " ++ ?y) = _ =>
      change (lit "table " ++ y) with (["t"%char] ++ (lit "able " ++ y)) in E end.
    rewrite split_once_skip in E by done.
    destruct (split_once _ (lit "able " ++ _)) as [[??]|]; [by injection E|done].
Qed.

Lemma conflict_texts_roundtrip_witness :
  changed_delete_file_of (changed_delete_file_conflict 12 3) = Some 12.
Proof. apply (conflict_texts_roundtrip 12 3 0 0). reflexivity. Defined.
