(* ===== verification/ChangeDetection.v ===== *)
(** * Change detection ([src/src/change_detection.rs])

    Whether a table's rows changed between two snapshots, from the change
    ledger, the ids of the snapshots that survive (an id missing from a
    consecutive sequence is an expired snapshot) and, where the ledger records
    only flushes and compactions, the change feed.

    The catalog is read through [MetadataProvider]; the model's [History] holds
    what its four reads return and implements them by the trait's default
    methods ([src/src/metadata_provider.rs]). The change feed reads data files
    through DataFusion, so it is a parameter. *)

From S2P Require Import Prelude RustStd Arrow WriterTypes ChangeLedger Conflicts.

(** ** The catalog reads *)

Record History := {
  hi_head : Z;                              (* get_current_snapshot *)
  hi_snapshots : list (Z * option str);     (* list_snapshot_changes, in snapshot order *)
  hi_consecutive : bool;                    (* snapshot_ids_are_consecutive *)
  hi_first_snapshot : Z -> option Z;        (* table_first_snapshot *)
}.

(** [MetadataProvider::list_table_snapshot_changes]. *)
Definition list_table_snapshot_changes (h : History) (table_id after through : Z)
  : list (Z * option str) :=
  let needle := ":" ++ show_Z table_id in
  filter (fun row => match row.2 with Some changes => contains needle changes | None => true end = true)
    (filter (fun row => after < row.1 /\ row.1 <= through) (hi_snapshots h)).

(** [MetadataProvider::snapshot_ids_between]. *)
Definition snapshot_ids_between (h : History) (from through : Z) : list Z :=
  filter (fun id => from <= id /\ id <= through) (hi_snapshots h).*1.

(** ** [TableDataChanges] *)

Record TableDataChanges := {
  dc_inserted : bool;
  dc_deleted : bool;
  dc_inlined_inserted : bool;
  dc_inlined_deleted : bool;
  dc_flushed : bool;
  dc_compacted : bool;
  dc_altered : bool;
  dc_dropped : bool;
  dc_unrecorded : bool;
  dc_history_incomplete : bool;
  dc_last_rows_changed_snapshot : option Z;
  dc_last_changed_snapshot : option Z;
}.

(** [TableDataChanges::default]. *)
Definition no_data_changes : TableDataChanges :=
  {| dc_inserted := false; dc_deleted := false; dc_inlined_inserted := false;
     dc_inlined_deleted := false; dc_flushed := false; dc_compacted := false;
     dc_altered := false; dc_dropped := false; dc_unrecorded := false;
     dc_history_incomplete := false; dc_last_rows_changed_snapshot := None;
     dc_last_changed_snapshot := None |}.

Definition rows_changed (c : TableDataChanges) : bool :=
  dc_inserted c || dc_deleted c || dc_inlined_inserted c || dc_inlined_deleted c
  || dc_dropped c || dc_unrecorded c || dc_history_incomplete c.

Definition layout_changed (c : TableDataChanges) : bool :=
  rows_changed c || dc_flushed c || dc_compacted c.

Definition any_changed (c : TableDataChanges) : bool := layout_changed c || dc_altered c.

(** Setting one flag, as the arms of the [match] in [record] do. *)
Inductive Flag :=
| FInserted | FDeleted | FInlinedInserted | FInlinedDeleted
| FFlushed | FCompacted | FAltered | FDropped | FUnrecorded | FIncomplete.

#[global] Instance Flag_eq_dec : EqDecision Flag.
Proof. solve_decision. Defined.

Definition set_flag (f : Flag) (c : TableDataChanges) : TableDataChanges :=
  let on g b := if decide (f = g) then true else b in
  {| dc_inserted := on FInserted (dc_inserted c);
     dc_deleted := on FDeleted (dc_deleted c);
     dc_inlined_inserted := on FInlinedInserted (dc_inlined_inserted c);
     dc_inlined_deleted := on FInlinedDeleted (dc_inlined_deleted c);
     dc_flushed := on FFlushed (dc_flushed c);
     dc_compacted := on FCompacted (dc_compacted c);
     dc_altered := on FAltered (dc_altered c);
     dc_dropped := on FDropped (dc_dropped c);
     dc_unrecorded := on FUnrecorded (dc_unrecorded c);
     dc_history_incomplete := on FIncomplete (dc_history_incomplete c);
     dc_last_rows_changed_snapshot := dc_last_rows_changed_snapshot c;
     dc_last_changed_snapshot := dc_last_changed_snapshot c |}.

Definition set_last (rows any : option Z) (c : TableDataChanges) : TableDataChanges :=
  {| dc_inserted := dc_inserted c; dc_deleted := dc_deleted c;
     dc_inlined_inserted := dc_inlined_inserted c; dc_inlined_deleted := dc_inlined_deleted c;
     dc_flushed := dc_flushed c; dc_compacted := dc_compacted c; dc_altered := dc_altered c;
     dc_dropped := dc_dropped c; dc_unrecorded := dc_unrecorded c;
     dc_history_incomplete := dc_history_incomplete c;
     dc_last_rows_changed_snapshot := rows; dc_last_changed_snapshot := any |}.

Inductive SnapshotRows := Unchanged | Moved | RowsChanged.
#[global] Instance SnapshotRows_eq_dec : EqDecision SnapshotRows.
Proof. solve_decision. Defined.

(** The arms of the [match kind.as_str()] in [record]: the flag a kind sets and
    whether it sets [rows] or [moved]. *)
Definition kind_effect (kind : str) : Flag * SnapshotRows :=
  if str_eqb kind "inserted_into_table" then (FInserted, RowsChanged)
  else if str_eqb kind "deleted_from_table" then (FDeleted, RowsChanged)
  else if str_eqb kind "inlined_insert" then (FInlinedInserted, RowsChanged)
  else if str_eqb kind "inlined_delete" then (FInlinedDeleted, RowsChanged)
  else if str_eqb kind "dropped_table" then (FDropped, RowsChanged)
  else if str_eqb kind "inline_flush" || str_eqb kind "flushed_inlined" then (FFlushed, Moved)
  else if str_eqb kind "merge_adjacent" || str_eqb kind "rewrite_delete"
          || str_eqb kind "compacted_table" then (FCompacted, Moved)
  else if str_eqb kind "altered_table" then (FAltered, Unchanged)
  else (FUnrecorded, RowsChanged).

(** The kind of a token that [record] counts for the table. *)
Definition token_kind (table_id : Z) (token : str) : option str :=
  '(kind, value) ← split_once ":" (trim token);
  if bool_decide (parse_i64 (trim value) = Some table_id) then
    let kind := to_ascii_lowercase (trim kind) in
    if change_kind_names_other_object kind then None else Some kind
  else None.

(** [TableDataChanges::record]. *)
Definition record (c : TableDataChanges) (snapshot_id : Z) (changes_made : option str)
  (table_id : Z) : TableDataChanges * SnapshotRows :=
  match changes_made with
  | None =>
      (set_last (Some snapshot_id) (Some snapshot_id) (set_flag FUnrecorded c), RowsChanged)
  | Some changes =>
      let kinds := omap (token_kind table_id) (snapshot_change_tokens changes) in
      let c' := foldl (fun acc kind => set_flag (kind_effect kind).1 acc) c kinds in
      let rows := existsb (fun kind => bool_decide ((kind_effect kind).2 = RowsChanged)) kinds in
      let moved := existsb (fun kind => bool_decide ((kind_effect kind).2 = Moved)) kinds in
      let any := negb (is_empty kinds) in
      let c'' := set_last
        (if rows then Some snapshot_id else dc_last_rows_changed_snapshot c')
        (if any then Some snapshot_id else dc_last_changed_snapshot c') c' in
      (c'', if rows then RowsChanged else if moved then Moved else Unchanged)
  end.

(** [TableDataChanges::record_gap]. *)
Definition record_gap (c : TableDataChanges) (bound : Z) : TableDataChanges :=
  let raise o := Some (match o with Some snapshot => Z.max snapshot bound | None => bound end) in
  set_last (raise (dc_last_rows_changed_snapshot c)) (raise (dc_last_changed_snapshot c))
    (set_flag FIncomplete c).

(** ** Expired snapshots *)

(** The ids [first..=last] in descending order. *)
Definition descending (first last : Z) : list Z := reverse (seqZ first (last - first + 1)).

(** [expired_in_window]. *)
Definition expired_in_window (h : History) (table_id after through : Z) : option Z :=
  let end_ := Z.min through (hi_head h) in
  let ids := snapshot_ids_between h (Z.max after 0) end_ in
  let after_id id := default end_ (find_first (fun candidate => id <? candidate) ids) in
  if hi_consecutive h then
    let cont (bound : option Z) (first : Z) : option Z :=
      if end_ <? first then bound
      else match find_first (fun id => negb (bool_decide (id ∈ ids))) (descending first end_) with
      | Some missing =>
          let gap_end := after_id missing in
          Some (match bound with Some b => Z.max b gap_end | None => gap_end end)
      | None => bound
      end in
    if 0 <=? after then cont None (after + 1)
    else match head ids with
    | Some first => if first <=? 1 then cont None first else cont (Some first) first
    | None => if 1 <=? end_ then Some end_ else None
    end
  else
    let bound :=
      if after <? 0 then
        if is_empty ids && (0 <=? end_) then Some end_ else None
      else if bool_decide (head ids = Some after) then None else Some (after_id after) in
    match hi_first_snapshot h table_id with
    | Some created =>
        if (after <? created) && (created <=? end_) && negb (bool_decide (created ∈ ids)) then
          let gap_end := after_id created in
          Some (match bound with Some b => Z.max b gap_end | None => gap_end end)
        else bound
    | None => bound
    end.

(** ** The analysis *)

(** [table_change_like_pattern]. *)
Definition table_change_like_pattern (table_id : Z) : str := "%:" ++ show_Z table_id ++ "%".

(** The loop over the window's ledger rows: the changes recorded and the
    snapshots that only moved rows, in order. *)
Fixpoint record_all (table_id : Z) (c : TableDataChanges) (rows : list (Z * option str))
  : TableDataChanges * list Z :=
  match rows with
  | [] => (c, [])
  | (snapshot_id, changes_made) :: rest =>
      let '(c', r) := record c snapshot_id changes_made table_id in
      let '(c'', moved) := record_all table_id c' rest in
      (c'', if decide (r = Moved) then snapshot_id :: moved else moved)
  end.

Section analysis.
(** [ChangeFeed::open] and [ChangeFeed::reports]: whether the table is visible
    at the window's end and, if so, whether the deletions and the insertions
    feeds report a row between two snapshots. *)
Variable feed_open : Z -> Z -> result (option (Z -> Z -> result (bool * bool))).

(** The search of [analyse] for the latest moved snapshot that changed rows. *)
Fixpoint latest_reported (reports : Z -> Z -> result (bool * bool)) (fallback : Z)
  (snapshots : list Z) : result Z :=
  match snapshots with
  | [] => Ok fallback
  | s :: rest =>
      let? r := reports s s in
      if fst r || snd r then Ok s else latest_reported reports fallback rest
  end.

(** [analyse]. *)
Definition analyse (h : History) (table_id after through : Z) (complete : bool)
  : result TableDataChanges :=
  if through <=? after then Ok no_data_changes
  else
    let '(changes, moved) :=
      record_all table_id no_data_changes
        (list_table_snapshot_changes h table_id after through) in
    let changes := match expired_in_window h table_id after through with
                   | Some bound => record_gap changes bound
                   | None => changes
                   end in
    if negb complete && rows_changed changes then Ok changes
    else
      let settled := default i64_min (dc_last_rows_changed_snapshot changes) in
      let moved := filter (fun snapshot => settled < snapshot) moved in
      match head moved, last moved with
      | Some first, Some last =>
          let? feed := feed_open table_id through in
          match feed with
          | None => Ok (set_last (Some last) (dc_last_changed_snapshot changes)
                          (set_flag FUnrecorded changes))
          | Some reports =>
              let? r := reports first last in
              let '(deleted, inserted) := r in
              if negb deleted && negb inserted then Ok changes
              else
                let changes := if deleted then set_flag FDeleted changes else changes in
                let changes := if inserted then set_flag FInserted changes else changes in
                let? latest :=
                  if complete && (1 <? Z.of_nat (length moved))
                  then latest_reported reports last (reverse moved) else Ok last in
                Ok (set_last (Some latest) (dc_last_changed_snapshot changes) changes)
          end
      | _, _ => Ok changes
      end.

(** [table_data_changes], [table_rows_changed] and [last_rows_changed_snapshot]. *)
Definition table_data_changes (h : History) (table_id after through : Z) :=
  analyse h table_id after through true.

Definition table_rows_changed (h : History) (table_id after through : Z) : result bool :=
  let? c := analyse h table_id after through false in Ok (rows_changed c).

Definition last_rows_changed_snapshot (h : History) (table_id through : Z) : result (option Z) :=
  let? c := table_data_changes h table_id (-1) through in Ok (dc_last_rows_changed_snapshot c).

End analysis.

(** ** Lemmas *)

(** The flags [rows_changed] reads. *)
Definition row_flag (f : Flag) : bool :=
  match f with FFlushed | FCompacted | FAltered => false | _ => true end.

Lemma set_flag_rows f c :
  rows_changed (set_flag f c) = rows_changed c || row_flag f.
Proof.
  destruct c; unfold rows_changed, set_flag; cbn.
  destruct f; cbn; rewrite ?orb_true_r, ?orb_false_r; try done.
Qed.

Lemma kind_effect_rows kind :
  row_flag (kind_effect kind).1 = bool_decide ((kind_effect kind).2 = RowsChanged).
Proof. unfold kind_effect. by repeat case_if. Qed.

Lemma foldl_flags_rows (kinds : list str) : forall c,
  rows_changed (foldl (fun acc kind => set_flag (kind_effect kind).1 acc) c kinds)
  = rows_changed c
    || existsb (fun kind => bool_decide ((kind_effect kind).2 = RowsChanged)) kinds.
Proof.
  induction kinds as [|k ks IH]; intros c; cbn [foldl existsb]; [by rewrite orb_false_r|].
  by rewrite IH, set_flag_rows, kind_effect_rows, orb_assoc.
Qed.

(** [record] reports rows changed exactly when it leaves the flags saying so. *)
Lemma record_rows c s changes t :
  rows_changed (record c s changes t).1
  = rows_changed c || bool_decide ((record c s changes t).2 = RowsChanged).
Proof.
  destruct changes as [changes|]; cbn [record fst snd].
  - change (rows_changed (set_last ?a ?b ?c)) with (rows_changed c). rewrite foldl_flags_rows.
    f_equal. destruct (existsb _ _); [done|]. by destruct (existsb _ _).
  - change (rows_changed (set_last ?a ?b ?c)) with (rows_changed c). by rewrite set_flag_rows.
Qed.

Lemma record_all_rows t rows : forall c,
  rows_changed (record_all t c rows).1
  = rows_changed c
    || existsb (fun row => bool_decide ((record no_data_changes row.1 row.2 t).2 = RowsChanged)) rows.
Proof.
  induction rows as [|[s ch] rest IH]; intros c; cbn [record_all existsb fst snd];
    [by rewrite orb_false_r|].
  destruct (record c s ch t) as [c' r] eqn:E. specialize (IH c').
  destruct (record_all t c' rest) as [c'' moved]. cbn [fst] in *. rewrite IH.
  pose proof (record_rows c s ch t) as Hr. rewrite E in Hr. cbn [fst snd] in Hr.
  rewrite Hr, <- orb_assoc. do 2 f_equal.
  assert (r = (record no_data_changes s ch t).2) as ->; [|done].
  destruct ch; cbn in *; by injection E.
Qed.

Lemma record_gap_rows c bound : rows_changed (record_gap c bound) = true.
Proof.
  unfold record_gap. change (rows_changed (set_last ?a ?b ?c)) with (rows_changed c).
  by rewrite set_flag_rows, orb_true_r.
Qed.

(** A row of the window is read: its ledger is missing, or names the table. *)
Lemma list_table_snapshot_changes_elem h t after through s ch :
  (s, ch) ∈ list_table_snapshot_changes h t after through
  <-> (s, ch) ∈ hi_snapshots h /\ after < s <= through
      /\ match ch with Some changes => contains (":" ++ show_Z t) changes = true | None => True end.
Proof.
  unfold list_table_snapshot_changes. rewrite !list_elem_of_filter. cbn.
  destruct ch; naive_solver.
Qed.

Lemma contains_join sep p x l : x ∈ l -> contains p x = true -> contains p (join sep l) = true.
Proof.
  assert (forall s, contains p s = true <-> exists a b, s = a ++ p ++ b) as Hc.
  { intros s. split; [|intros (a & b & ->); apply contains_app].
    unfold contains. induction s as [|c s IH]; rewrite split_once_unfold.
    - destruct (strip_prefix p []) eqn:E; [|done]. intros _.
      apply strip_prefix_spec in E. by exists [], l0.
    - destruct (strip_prefix p (c :: s)) eqn:E.
      + intros _. apply strip_prefix_spec in E. by exists [], l0.
      + destruct (split_once p s) as [[a b]|]; [|done]. intros H.
        destruct (IH H) as (a' & b' & ->). by exists (c :: a'), b'. }
  rewrite !Hc. intros Hin (a & b & ->).
  induction l as [|y l IH]; [by inversion Hin|]. apply elem_of_cons in Hin as [<-|Hin].
  - destruct l as [|z l]; [by exists a, b|]. exists a, (b ++ sep ++ join sep (z :: l)).
    cbn [join]. by rewrite <- !app_assoc.
  - destruct (IH Hin) as (a' & b' & E). destruct l as [|z l]; [by inversion Hin|].
    exists (y ++ sep ++ a'), b'. change (join sep (y :: z :: l)) with (y ++ sep ++ join sep (z :: l)).
    by rewrite E, <- !app_assoc.
Qed.

(** A ledger entry that changes the table's rows: an insert, a delete, a drop or
    a kind this crate does not know. *)
Definition row_change (e : LedgerEntry) (t : Z) : Prop :=
  match e with
  | Changed kind id =>
      id = t /\ change_kind_names_other_object kind = false
      /\ (kind_effect kind).2 = RowsChanged
  | Created _ _ => False
  end.

Lemma token_kind_entry t e :
  entry_ok e ->
  token_kind t (print_entry e)
  = match e with
    | Changed kind id =>
        if decide (id = t) then
          if change_kind_names_other_object kind then None else Some kind
        else None
    | Created _ _ => None
    end.
Proof.
  destruct e as [kind id|kind name]; cbn [entry_ok print_entry]; intros [Hk Hn];
    unfold token_kind.
  - rewrite trim_plain_all by by apply table_token_plain. unfold table_token.
    rewrite split_kind by done. cbn [mbind option_bind].
    rewrite trim_show_Z, parse_show_i64, trim_kind, lower_kind by done.
    case_bool_decide; case_decide; naive_solver.
  - rewrite trim_created, split_kind by done. cbn [mbind option_bind].
    by rewrite trim_quoted, parse_i64_quoted by done.
Qed.

Lemma omap_token_kind_printed t l :
  Forall entry_ok l ->
  omap (token_kind t) (snapshot_change_tokens (print_ledger l))
  = omap (fun e => token_kind t (print_entry e)) l.
Proof.
  intros H. rewrite tokens_print_ledger by done. destruct l as [|e l]; [done|].
  generalize (e :: l). intros l'. induction l' as [|x l' IH]; [done|].
  cbn. by rewrite IH.
Qed.

Lemma record_printed_rows t l s :
  Forall entry_ok l ->
  (record no_data_changes s (Some (print_ledger l)) t).2 = RowsChanged
  <-> Exists (fun e => row_change e t) l.
Proof.
  intros Hok. cbn [record snd]. rewrite omap_token_kind_printed by done.
  match goal with |- (if ?b then _ else _) = _ <-> _ =>
    transitivity (b = true); [destruct b; [done|]; by destruct (existsb _ _)|] end.
  rewrite existsb_exists, Exists_exists. setoid_rewrite <- list_elem_of_In.
  setoid_rewrite list_elem_of_omap. rewrite Forall_forall in Hok. split.
  - intros (kind & (e & He & Hk) & Hb). exists e. split; [done|].
    rewrite token_kind_entry in Hk by by apply Hok. apply bool_decide_eq_true in Hb.
    destruct e as [k id|]; [|done]. case_decide; [|done].
    destruct (change_kind_names_other_object k) eqn:E; [done|]. simplify_eq. by split.
  - intros (e & He & Hr). destruct e as [k id|]; [|done]. destruct Hr as (-> & Ho & Hk).
    exists k. split; [|by apply bool_decide_eq_true]. exists (Changed k t). split; [done|].
    rewrite token_kind_entry by by apply Hok. by rewrite decide_True, Ho.
Qed.

Lemma printed_names_table t l kind :
  Changed kind t ∈ l -> contains (":" ++ show_Z t) (print_ledger l) = true.
Proof.
  intros H. apply (contains_join [comma] _ (print_entry (Changed kind t))).
  - apply list_elem_of_fmap. by exists (Changed kind t).
  - cbn [print_entry]. unfold table_token.
    pose proof (contains_app kind (":" ++ show_Z t) []) as E. by rewrite app_nil_r in E.
Qed.

(** *** Windows the ledger decides *)

Lemma analyse_rows_at_once feed h t after through :
  after < through ->
  existsb (fun row => bool_decide ((record no_data_changes row.1 row.2 t).2 = RowsChanged))
    (list_table_snapshot_changes h t after through) = true
  \/ is_Some (expired_in_window h t after through) ->
  exists c, analyse feed h t after through false = Ok c /\ rows_changed c = true.
Proof.
  intros Hw H. unfold analyse. rewrite (proj2 (Z.leb_gt _ _)) by lia.
  pose proof (record_all_rows t (list_table_snapshot_changes h t after through) no_data_changes) as Hr.
  destruct (record_all t no_data_changes _) as [c moved]. cbn [fst] in Hr.
  destruct (expired_in_window h t after through) as [bound|].
  - rewrite record_gap_rows. cbn. eexists. split; [done|]. apply record_gap_rows.
  - destruct H as [H|[? [=]]]. rewrite H, orb_true_r in Hr. rewrite Hr. cbn. eauto.
Qed.

Lemma row_change_read h t after through s l :
  (s, Some (print_ledger l)) ∈ hi_snapshots h -> after < s <= through ->
  Forall entry_ok l -> Exists (fun e => row_change e t) l ->
  existsb (fun row => bool_decide ((record no_data_changes row.1 row.2 t).2 = RowsChanged))
    (list_table_snapshot_changes h t after through) = true.
Proof.
  intros Hin Hw Hok Hex. apply existsb_exists. exists (s, Some (print_ledger l)). split.
  - apply list_elem_of_In, list_table_snapshot_changes_elem. split; [done|]. split; [done|].
    apply Exists_exists in Hex as (e & He & Hr). destruct e as [k id|]; [|done].
    destruct Hr as (-> & _). by eapply printed_names_table.
  - apply bool_decide_eq_true. by apply record_printed_rows.
Qed.

(** *** Windows with expired snapshots *)

Lemma elem_of_descending first last x : x ∈ descending first last <-> first <= x <= last.
Proof.
  unfold descending. rewrite elem_of_reverse, elem_of_seqZ. lia.
Qed.

Lemma elem_of_snapshot_ids h a b x :
  x ∈ snapshot_ids_between h a b <-> x ∈ (hi_snapshots h).*1 /\ a <= x <= b.
Proof. unfold snapshot_ids_between. rewrite list_elem_of_filter. tauto. Qed.

Lemma expired_consecutive h t after through :
  hi_consecutive h = true -> 0 <= after ->
  expired_in_window h t after through = None
  <-> forall id, after < id <= Z.min through (hi_head h) -> id ∈ (hi_snapshots h).*1.
Proof.
  intros Hc Ha. unfold expired_in_window. rewrite Hc.
  rewrite (proj2 (Z.leb_le 0 after) Ha).
  set (e := Z.min through (hi_head h)).
  set (ids := snapshot_ids_between h (Z.max after 0) e).
  destruct (e <? after + 1) eqn:E; breflect; [split; [intros _ id ?; lia|done]|].
  destruct (find_first _ _) as [missing|] eqn:Ef.
  - split; [done|]. intros Hall. apply find_first_some in Ef as [Hin Hm].
    apply elem_of_descending in Hin. apply negb_true_iff, bool_decide_eq_false in Hm.
    exfalso. apply Hm. apply elem_of_snapshot_ids. split; [apply Hall; lia|lia].
  - split; [|done]. intros _ id Hid. apply find_first_none in Ef.
    rewrite Forall_forall in Ef. specialize (Ef id).
    rewrite elem_of_descending in Ef. specialize (Ef ltac:(lia)). simpl in Ef.
    apply negb_false_iff, bool_decide_eq_true, elem_of_snapshot_ids in Ef. tauto.
Qed.

(** The bound of a gap: no id of the window at or above it is missing, and it is
    in the window. *)
Lemma expired_bound h t after through bound :
  hi_consecutive h = true -> 0 <= after ->
  expired_in_window h t after through = Some bound ->
  after < bound <= Z.min through (hi_head h)
  /\ (forall id, bound < id <= Z.min through (hi_head h) -> id ∈ (hi_snapshots h).*1).
Proof.
  intros Hc Ha. unfold expired_in_window. rewrite Hc, (proj2 (Z.leb_le 0 after) Ha).
  set (e := Z.min through (hi_head h)).
  set (ids := snapshot_ids_between h (Z.max after 0) e).
  destruct (e <? after + 1) eqn:E; breflect; [done|].
  destruct (find_first _ (descending _ _)) as [missing|] eqn:Ef; [|done]. intros [= <-].
  assert (after + 1 <= missing <= e) as Hm.
  { apply find_first_some in Ef as [Hin _]. by apply elem_of_descending in Hin. }
  assert (forall id, missing < id <= e -> id ∈ ids) as Hpresent.
  { intros id Hid. revert Ef. unfold descending.
    intros Ef. destruct (decide (id ∈ ids)) as [|Hn]; [done|]. exfalso.
    assert (forall n, find_first (fun id => negb (bool_decide (id ∈ ids)))
              (reverse (seqZ (after + 1) (Z.of_nat n))) = Some missing ->
              after + Z.of_nat n >= id -> False) as Hgo.
    { induction n as [|n IH]; intros Hf Hge; [done|].
      rewrite seqZ_S in Hf. rewrite reverse_snoc in Hf. cbn [find_first] in Hf.
      case_bool_decide as Hd; cbn [negb] in Hf.
      - apply IH; [done|]. destruct (decide (after + 1 + Z.of_nat n = id)); [congruence|lia].
      - injection Hf as Hf. lia. }
    replace (e - (after + 1) + 1) with (Z.of_nat (Z.to_nat (e - after))) in Ef by lia.
    apply (Hgo _ Ef). rewrite Z2Nat.id by lia. lia. }
  destruct (find_first (fun candidate => missing <? candidate) ids) as [g|] eqn:Eg; simpl.
  - apply find_first_some in Eg as [Hg Hlt]. breflect. apply elem_of_snapshot_ids in Hg.
    split; [lia|]. intros id Hid. apply (elem_of_snapshot_ids h (Z.max after 0) e).
    apply Hpresent. lia.
  - split; [lia|]. intros id Hid. lia.
Qed.

(** *** Windows that do not name the table *)

Definition quiet (t : Z) (row : Z * option str) : Prop :=
  exists l, row.2 = Some (print_ledger l) /\ Forall entry_ok l
    /\ Forall (fun e => match e with
                        | Changed kind id => id = t -> change_kind_names_other_object kind = true
                        | Created _ _ => True
                        end) l.

Lemma record_quiet c t row : quiet t row -> record c row.1 row.2 t = (c, Unchanged).
Proof.
  intros (l & -> & Hok & Hq). cbn [record]. rewrite omap_token_kind_printed by done.
  assert (omap (fun e => token_kind t (print_entry e)) l = []) as ->; [|by destruct c].
  induction Hok as [|e l He _ IH]; [done|]. inversion Hq as [|? ? Hqe Hql]; subst.
  cbn. rewrite token_kind_entry by done. destruct e as [k id|]; [|by apply IH].
  case_decide; [rewrite Hqe by done|]; by apply IH.
Qed.

Lemma record_all_quiet t rows : Forall (quiet t) rows ->
  forall c, record_all t c rows = (c, []).
Proof.
  induction 1 as [|row rows Hr _ IH]; intros c; [done|]. destruct row as [s ch]. cbn [record_all].
  pose proof (record_quiet c t (s, ch) Hr) as E. cbn [fst snd] in E. rewrite E, IH. done.
Qed.

(** ** Theorems *)

(** C22. No row change is missed: when a snapshot of the window records, among
    whatever else, an insert into or delete from the table (Parquet or inlined),
    its drop, or a change of it of a kind this crate does not know, then
    [table_rows_changed] answers [true], whatever the change feed says and
    without reading it. *)
Theorem recorded_row_change_is_reported
  (feed : Z -> Z -> result (option (Z -> Z -> result (bool * bool))))
  (h : History) (t after through s : Z) (l : list LedgerEntry) :
  (s, Some (print_ledger l)) ∈ hi_snapshots h -> after < s <= through ->
  Forall entry_ok l -> Exists (fun e => row_change e t) l ->
  table_rows_changed feed h t after through = Ok true.
Proof.
  intros Hin Hw Hok Hex. unfold table_rows_changed.
  destruct (analyse_rows_at_once feed h t after through) as (c & -> & Hc); [lia| |].
  - left. by eapply row_change_read.
  - cbn. by rewrite Hc.
Qed.

Definition history_example : History :=
  {| hi_head := 3;
     hi_snapshots :=
       [(1, Some (print_ledger [Created "created_table" (quote_snapshot_table "main" "t")]));
        (2, Some (print_ledger [Changed "inserted_into_table" 70]));
        (3, Some (print_ledger [Changed "inlined_insert" 7]))];
     hi_consecutive := true; hi_first_snapshot := fun _ => None |}.

Lemma recorded_row_change_is_reported_witness :
  table_rows_changed (fun _ _ => Err (Internal [])) history_example 7 1 3 = Ok true.
Proof.
  apply (recorded_row_change_is_reported _ _ 7 1 3 3 [Changed "inlined_insert" 7]).
  - right; right; left.
  - lia.
  - repeat constructor.
  - constructor. repeat split.
Defined.

(** The writer and the detector agree: a snapshot committed by a staged write
    that inserts or deletes rows, or by a [Replace] of a table that held any, is
    reported as a row change of its table. *)
Theorem staged_write_is_reported `{RecordBatches}
  (feed : Z -> Z -> result (option (Z -> Z -> result (bool * bool))))
  (h : History) (w : StagedTableWrite) (hf hi : bool) (after through s : Z)
  (c := staged_storage w hf hi) :
  in_i64 (st_table_id w) = true -> st_inlined_flush w = false ->
  inserted_into c || inserted_inlined c || deleted_from c || deleted_inlined c = true ->
  (s, Some (staged_table_write_changes w hf hi)) ∈ hi_snapshots h -> after < s <= through ->
  table_rows_changed feed h (st_table_id w) after through = Ok true.
Proof.
  intros Hid Hf Hc Hin Hw. rewrite staged_changes_printed in Hin. unfold table_rows_changed.
  destruct (analyse_rows_at_once feed h (st_table_id w) after through) as (d & -> & Hd); [lia| |].
  - left. eapply row_change_read; [exact Hin|done|by apply staged_entries_ok|].
    apply Exists_exists. unfold staged_entries. rewrite Hf. fold c.
    setoid_rewrite elem_of_app. setoid_rewrite elem_of_app. setoid_rewrite elem_of_app.
    setoid_rewrite elem_of_optional.
    rewrite !orb_true_iff in Hc. destruct Hc as [[[Hc|Hc]|Hc]|Hc].
    + eexists. split; [left; by split|]. by repeat split.
    + eexists. split; [right; right; left; by split|]. by repeat split.
    + eexists. split; [right; left; by split|]. by repeat split.
    + eexists. split; [right; right; right; by split|]. by repeat split.
  - cbn. by rewrite Hd.
Qed.

#[local] Existing Instance counted_batches.

Lemma staged_write_is_reported_witness :
  let w := staged_example 4 Append three_rows [] in
  table_rows_changed (fun _ _ => Ok None)
    {| hi_head := 2; hi_snapshots := [(2, Some (staged_table_write_changes w false false))];
       hi_consecutive := true; hi_first_snapshot := fun _ => None |} 4 1 2 = Ok true.
Proof.
  apply (staged_write_is_reported (fun _ _ => Ok None) _ (staged_example 4 Append three_rows [])
    false false 1 2 2); [reflexivity | reflexivity | reflexivity | left | lia].
Defined.

(** On a catalog that numbers its snapshots consecutively, the history of a
    window that starts at a taken snapshot is reported incomplete exactly when a
    snapshot of it was expired; the bound is then inside the window and every
    snapshot past it survives. *)
Theorem expired_in_window_exact (h : History) (t after through : Z) :
  hi_consecutive h = true -> 0 <= after ->
  match expired_in_window h t after through with
  | None => forall id, after < id <= Z.min through (hi_head h) -> id ∈ (hi_snapshots h).*1
  | Some bound =>
      (exists id, after < id <= Z.min through (hi_head h) /\ id ∉ (hi_snapshots h).*1)
      /\ after < bound <= Z.min through (hi_head h)
      /\ forall id, bound < id <= Z.min through (hi_head h) -> id ∈ (hi_snapshots h).*1
  end.
Proof.
  intros Hc Ha. destruct (expired_in_window h t after through) as [bound|] eqn:E.
  - split; [|by eapply expired_bound].
    destruct (decide (Forall (fun id => id ∈ (hi_snapshots h).*1)
                (seqZ (after + 1) (Z.min through (hi_head h) - after)))) as [Hall|Hn].
    + exfalso. enough (expired_in_window h t after through = None) by congruence.
      apply expired_consecutive; [done..|]. intros id Hid. rewrite Forall_forall in Hall.
      apply Hall, elem_of_seqZ. lia.
    + apply not_Forall_Exists in Hn; [|apply _]. apply Exists_exists in Hn as (id & Hid & Hnot).
      apply elem_of_seqZ in Hid. exists id. split; [lia|done].
  - by apply (expired_consecutive h t).
Qed.

Lemma expired_in_window_exact_witness :
  expired_in_window history_example 7 1 3 = None
  /\ forall id, 1 < id <= 3 -> id ∈ (hi_snapshots history_example).*1.
Proof.
  split; [reflexivity|].
  exact (expired_in_window_exact history_example 7 1 3 eq_refl ltac:(lia)).
Defined.

(** No change is invented: when the window's history is complete and every
    snapshot of it records a ledger that names the table by no token (an id that
    merely starts with the table's digits, another object's id or a created
    object's name included), the analysis returns the empty report and never
    reads the change feed. *)
Theorem unnamed_table_is_unchanged
  (feed : Z -> Z -> result (option (Z -> Z -> result (bool * bool))))
  (h : History) (t after through : Z) (complete : bool) :
  expired_in_window h t after through = None ->
  Forall (fun row => after < row.1 <= through -> quiet t row) (hi_snapshots h) ->
  analyse feed h t after through complete = Ok no_data_changes.
Proof.
  intros He Hq. unfold analyse. destruct (through <=? after); [done|].
  rewrite record_all_quiet.
  - rewrite He. by destruct complete.
  - rewrite Forall_forall in *. intros [s ch] Hin.
    apply list_table_snapshot_changes_elem in Hin as (Hin & Hw & _). by apply (Hq _ Hin).
Qed.

Lemma unnamed_table_is_unchanged_witness :
  analyse (fun _ _ => Err (Internal [])) history_example 7 0 2 true = Ok no_data_changes.
Proof.
  apply unnamed_table_is_unchanged; [reflexivity|].
  repeat constructor; intros Hw; try (cbn in Hw; lia).
  - eexists; split; [reflexivity|]; split; repeat constructor.
  - eexists; split; [reflexivity|]; split; repeat constructor; discriminate.
Defined.
