(* ===== verification/PathResolver.v ===== *)
(** * Path resolution ([src/src/path_resolver.rs], [directory_path] and
    [table_directory] of [src/src/metadata_writer.rs])

    Paths read from the catalog are validated (no NUL byte, no [..] component,
    literal or percent-encoded) before they are joined below the data path. A
    slice of a string at an index inside a character panics in Rust, so the
    validator's outcome is [Returns] a result or [Panics].

    URL parsing, [ObjectStoreUrl] and [std::path::absolute] (which reads the
    process's working directory) are parameters. *)

From S2P Require Import Prelude RustStd.

(** ** Validation *)

Definition nul : ascii := "000"%char.
Definition slash : ascii := "/"%char.
Definition backslash : ascii := "092"%char.
Definition percent : ascii := "%"%char.
Definition is_sep (c : ascii) : bool := char_eqb c slash || char_eqb c backslash.

(** [validate_no_null_bytes]. *)
Definition validate_no_null_bytes (path : str) : result unit :=
  if contains [nul] path then
    Err (InvalidConfig ("Path contains null byte: "
           ++ replace_char nul [backslash; "0"%char] path))
  else if contains "%00" path then
    Err (InvalidConfig ("Path contains URL-encoded null byte (%00): " ++ path))
  else Ok tt.

(** A hexadecimal digit's value. *)
Definition hex_digit (c : ascii) : option Z :=
  let b := byte_val c in
  if (48 <=? b) && (b <=? 57) then Some (b - 48)
  else if (65 <=? b) && (b <=? 70) then Some (b - 55)
  else if (97 <=? b) && (b <=? 102) then Some (b - 87)
  else None.

(** [u8::from_str_radix] of two characters in base 16; like every integer parse
    of the standard library it takes a leading [+]. *)
Definition from_hex2 (a b : ascii) : option Z :=
  if char_eqb a "+" then hex_digit b
  else x ← hex_digit a; y ← hex_digit b; Some (x * 16 + y).

(** [byte as char] pushed on a [String]: a byte past 127 takes two bytes. *)
Definition push_byte (b : Z) : str :=
  if b <? 128 then [chr b] else [chr (192 + b / 64); chr (128 + b mod 64)].

Definition is_continuation (c : ascii) : bool :=
  (128 <=? byte_val c) && (byte_val c <=? 191).

(** [percent_decode_path]; [None] is the panic of the slice [path[i + 1..i + 3]]
    when one of its ends falls inside a character. *)
Fixpoint percent_decode_path (s : str) : option str :=
  match s with
  | [] => Some []
  | c :: tail =>
      let literal := r ← percent_decode_path tail; Some (push_byte (byte_val c) ++ r) in
      if char_eqb c percent then
        match tail with
        | a :: b :: rest =>
            if is_continuation a
               || (match rest with d :: _ => is_continuation d | [] => false end)
            then None
            else match from_hex2 a b with
                 | Some byte => r ← percent_decode_path rest; Some (push_byte byte ++ r)
                 | None => literal
                 end
        | _ => literal
        end
      else literal
  end.

(** [has_dotdot_component]. *)
Definition has_dotdot_component (path : str) : bool :=
  existsb (fun c => str_eqb c "..") (split_on is_sep path).

(** [validate_no_path_traversal]. *)
Definition validate_no_path_traversal (path : str) : outcome unit :=
  if has_dotdot_component path then
    Returns (Err (InvalidConfig
      ("Path traversal detected: path contains '..' component: " ++ path)))
  else if negb (contains [percent] path) then Returns (Ok tt)
  else match percent_decode_path path with
  | None => Panics
  | Some decoded =>
      if negb (str_eqb decoded path) && has_dotdot_component decoded then
        Returns (Err (InvalidConfig ("Path traversal detected: URL-encoded '..': " ++ path)))
      else Returns (Ok tt)
  end.

(** [validate_path]. *)
Definition validate_path (path : str) : outcome unit :=
  let! _ := Returns (validate_no_null_bytes path) in
  let! _ := validate_no_path_traversal path in
  Returns (Ok tt).

(** ** Joining *)

Definition ends_with_sep (s : str) : bool := ends_with [slash] s || ends_with [backslash] s.

(** [join_paths]. *)
Definition join_paths (base_path relative_path : str) : outcome str :=
  let! _ := validate_path relative_path in
  Returns (Ok (if ends_with_sep base_path then base_path ++ relative_path
               else base_path ++ "/" ++ relative_path)).

(** [resolve_path]. *)
Definition resolve_path (base_path path : str) (is_relative : bool) : outcome str :=
  if is_relative then join_paths base_path path
  else let! _ := validate_path path in Returns (Ok path).

(** [directory_path]. *)
Definition directory_path (path : str) : str :=
  if ends_with [slash] path then path else path ++ "/".

(** [table_directory]. *)
Definition table_directory (data_path : str) (schema table : str * bool) : outcome str :=
  let! schema_directory := resolve_path data_path schema.1 schema.2 in
  resolve_path schema_directory table.1 table.2.

(** ** Object store URLs *)

(** [has_url_scheme]. *)
Definition has_url_scheme (data_path : str) : bool :=
  match split_once "://" data_path with
  | None => false
  | Some (scheme, _) =>
      (1 <? Z.of_nat (length scheme))
      && match scheme with
         | c :: rest =>
             is_ascii_alphabetic c
             && forallb (fun c => is_ascii_alphanumeric c || char_eqb c "+" || char_eqb c "-"
                                  || char_eqb c ".") rest
         | [] => false
         end
  end.

Section urls.
Variable Url : Type.
Variable url_parse : str -> result Url.           (* url::Url::parse *)
Variable host_str : Url -> option str.            (* Url::host_str *)
Variable before_path : Url -> str.                (* &url[..Position::BeforePath] *)
Variable url_path : Url -> str.                   (* Url::path *)
Variable ObjectStoreUrl : Type.
Variable object_store_url_parse : str -> result ObjectStoreUrl.  (* ObjectStoreUrl::parse *)
Variable percent_decode_utf8 : str -> result str. (* percent_decode_str(..).decode_utf8() *)
Variable path_absolute : str -> result str.       (* std::path::absolute(..).to_string_lossy() *)

(** [parse_bucket_url]. *)
Definition parse_bucket_url (data_path : str) : result (ObjectStoreUrl * str) :=
  let? url := url_parse data_path in
  if match host_str url with None => true | Some h => bool_decide (h = []) end then
    Err (InvalidConfig ("URL missing bucket: " ++ data_path))
  else
    let? object_store_url := object_store_url_parse (before_path url ++ "/") in
    Ok (object_store_url, url_path url).

(** [parse_file_url]. *)
Definition parse_file_url (data_path : str) : result (ObjectStoreUrl * str) :=
  let? url := url_parse data_path in
  let? object_store_url := object_store_url_parse "file:///" in
  let? decoded_path := percent_decode_utf8 (url_path url) in
  Ok (object_store_url, decoded_path).

(** [parse_local_path]. *)
Definition parse_local_path (data_path : str) : result (ObjectStoreUrl * str) :=
  if has_dotdot_component data_path then
    Err (InvalidConfig "Path contains '..' traversal component")
  else
    let has_trailing_slash := ends_with_sep data_path in
    let? absolute_path := path_absolute data_path in
    let? object_store_url := object_store_url_parse "file:///" in
    Ok (object_store_url,
        if has_trailing_slash && negb (ends_with_sep absolute_path)
        then absolute_path ++ "/" else absolute_path).

(** [parse_object_store_url]. *)
Definition parse_object_store_url (data_path : str) : outcome (ObjectStoreUrl * str) :=
  let data_path := trim data_path in
  let! _ := validate_path data_path in
  Returns (if starts_with "file://" (to_ascii_lowercase data_path) then parse_file_url data_path
           else if has_url_scheme data_path then parse_bucket_url data_path
           else parse_local_path data_path).

(** ** [PathResolver] *)

Record PathResolver := { pr_base_url : ObjectStoreUrl; pr_base_path : str }.

Definition PathResolver_resolve (r : PathResolver) (path : str) (is_relative : bool)
  : outcome str :=
  resolve_path (pr_base_path r) path is_relative.

Definition child_resolver (r : PathResolver) (path : str) (is_relative : bool)
  : outcome PathResolver :=
  let! resolved := PathResolver_resolve r path is_relative in
  Returns (Ok {| pr_base_url := pr_base_url r; pr_base_path := resolved |}).

(** The resolvers a catalog walk builds: catalog, then schema, then table, then
    file, each a child of the one above. *)
Fixpoint descend (r : PathResolver) (steps : list (str * bool)) : outcome PathResolver :=
  match steps with
  | [] => Returns (Ok r)
  | (path, is_relative) :: rest =>
      let! r' := child_resolver r path is_relative in descend r' rest
  end.

End urls.
Arguments pr_base_url {ObjectStoreUrl} _.
Arguments pr_base_path {ObjectStoreUrl} _.
Arguments descend {ObjectStoreUrl} r steps.
Arguments child_resolver {ObjectStoreUrl} r path is_relative.

(** ** Safe paths *)

(** What validation establishes of the path as it is written. *)
Definition safe_path (p : str) : Prop := has_dotdot_component p = false /\ nul ∉ p.

Lemma outcome_bind_ok {A B} (m : outcome A) (k : A -> outcome B) b :
  outcome_bind m k = Returns (Ok b) <-> exists a, m = Returns (Ok a) /\ k a = Returns (Ok b).
Proof. destruct m as [[a|e]|]; cbn; naive_solver. Qed.

Lemma validate_path_ok p :
  validate_path p = Returns (Ok tt)
  <-> nul ∉ p /\ contains "%00" p = false /\ has_dotdot_component p = false
      /\ (percent ∈ p -> exists d, percent_decode_path p = Some d
                                   /\ (d = p \/ has_dotdot_component d = false)).
Proof.
  unfold validate_path. rewrite outcome_bind_ok. unfold validate_no_null_bytes.
  rewrite <- (contains_char nul p), <- (contains_char percent p).
  destruct (contains [nul] p) eqn:En; [naive_solver|].
  destruct (contains "%00" p) eqn:Ez; [naive_solver|].
  setoid_rewrite outcome_bind_ok. unfold validate_no_path_traversal.
  destruct (has_dotdot_component p) eqn:Ed; [naive_solver|].
  destruct (contains [percent] p) eqn:Ep; cbn [negb]; [|naive_solver].
  destruct (percent_decode_path p) as [d|]; [|naive_solver].
  unfold str_eqb. case_bool_decide; cbn [negb andb].
  - naive_solver.
  - destruct (has_dotdot_component d) eqn:Edd; naive_solver.
Qed.

(** Joining with a separator keeps components apart. *)
Lemma split_on_app p a c b :
  p c = true -> split_on p (a ++ c :: b) = split_on p a ++ split_on p b.
Proof.
  intros Hc. induction a as [|d a IH]; cbn; [by rewrite Hc|].
  destruct (p d); [by rewrite IH|]. rewrite IH.
  by destruct (split_on p a) eqn:E; [apply split_on_nonempty in E|].
Qed.

Lemma has_dotdot_app a c b :
  is_sep c = true ->
  has_dotdot_component (a ++ c :: b) = has_dotdot_component a || has_dotdot_component b.
Proof. intros Hc. unfold has_dotdot_component. by rewrite split_on_app, existsb_app. Qed.

Lemma ends_with_sep_spec s :
  ends_with_sep s = true -> exists r c, s = r ++ [c] /\ is_sep c = true.
Proof.
  unfold ends_with_sep. intros [H|H]%orb_true_iff; apply ends_with_spec in H as [r ->]; eauto.
Qed.

Lemma safe_join base rel sep_end :
  safe_path base -> safe_path rel ->
  (sep_end = true -> ends_with_sep base = true) ->
  safe_path (if sep_end then base ++ rel else base ++ "/" ++ rel).
Proof.
  intros [Hb Hbn] [Hr Hrn] Hs. destruct sep_end.
  - destruct (ends_with_sep_spec base (Hs eq_refl)) as (b & c & -> & Hc).
    rewrite <- app_assoc. cbn [app]. split; [|set_solver].
    rewrite has_dotdot_app in * by done. apply orb_false_iff in Hb as [-> _]. done.
  - change (lit "/" ++ rel) with (slash :: rel). split.
    + rewrite has_dotdot_app by done. by rewrite Hb, Hr.
    + rewrite elem_of_app, elem_of_cons. intros [?|[[=]|?]]; done.
Qed.

Lemma resolve_path_safe base p rel q :
  safe_path base -> resolve_path base p rel = Returns (Ok q) -> safe_path q.
Proof.
  intros Hb. unfold resolve_path, join_paths. destruct rel; rewrite outcome_bind_ok;
    intros ([] & Hv & [= <-]); apply validate_path_ok in Hv as (Hn & _ & Hd & _).
  - apply safe_join; [done | by split | done].
  - by split.
Qed.

Lemma resolve_path_prefix base p q :
  resolve_path base p true = Returns (Ok q) -> base `prefix_of` q.
Proof.
  unfold resolve_path, join_paths. rewrite outcome_bind_ok. intros ([] & _ & [= <-]).
  destruct (ends_with_sep base); by eexists.
Qed.

(** Decoding a text of ASCII characters never slices inside a character. *)
Lemma percent_decode_total p :
  Forall (fun c => byte_val c < 128) p -> is_Some (percent_decode_path p).
Proof.
  remember (length p) as n eqn:E. assert (length p <= n)%nat as Hn by lia. clear E. revert p Hn.
  induction n as [|n IH]; intros p Hn Hp.
  { destruct p; [by eexists | cbn in Hn; lia]. }
  destruct p as [|c tail]; [by eexists|]. cbn [length] in Hn. inversion Hp as [|? ? Hc Ht]; subst.
  destruct (IH tail ltac:(lia) Ht) as [lt Hlt]. cbn [percent_decode_path].
  assert (forall d, byte_val d < 128 -> is_continuation d = false) as Hcont.
  { intros d Hd. unfold is_continuation. by rewrite (proj2 (Z.leb_gt 128 (byte_val d))). }
  destruct (char_eqb c percent); [|rewrite Hlt; by eexists].
  destruct tail as [|a [|b rest]]; try (rewrite Hlt; by eexists).
  inversion Ht as [|? ? Ha Ht2]; subst. inversion Ht2 as [|? ? Hb Ht3]; subst.
  rewrite (Hcont a Ha).
  assert (match rest with d :: _ => is_continuation d | [] => false end = false) as ->.
  { destruct rest; [done|]. inversion Ht3; subst. auto. }
  cbn [orb]. destruct (from_hex2 a b); [|rewrite Hlt; by eexists].
  destruct (IH rest) as [lr ->]; [cbn in Hn; lia|done|]. by eexists.
Qed.

(** ** Theorems *)

(** C33. A catalog walk cannot be led out of the catalog by what is stored in it:
    starting from a resolver whose base path has no [..] component and no NUL
    byte, any accepted sequence of schema, table and file paths, relative or
    absolute, ends at a path without them in the same store, and a sequence of
    relative paths ends below the base. *)
Theorem resolved_paths_do_not_escape {O} (r r' : PathResolver O) (steps : list (str * bool)) :
  safe_path (pr_base_path r) -> descend r steps = Returns (Ok r') ->
  safe_path (pr_base_path r') /\ pr_base_url r' = pr_base_url r
  /\ (Forall (fun step => step.2 = true) steps -> pr_base_path r `prefix_of` pr_base_path r').
Proof.
  revert r; induction steps as [|[p rel] steps IH]; intros r Hr; cbn [descend].
  - by intros [= ->].
  - rewrite outcome_bind_ok. intros (r1 & H1 & H2). unfold child_resolver in H1.
    apply outcome_bind_ok in H1 as (q & Hq & [= <-]).
    apply IH in H2 as (Hs & Hu & Hp); [|by eapply resolve_path_safe]. split; [done|]. split; [done|].
    intros [Hrel Hrest]%Forall_cons. cbn in Hrel. subst rel.
    etrans; [by eapply resolve_path_prefix|]. by apply Hp.
Qed.

Lemma resolved_paths_do_not_escape_witness :
  exists r', descend {| pr_base_url := tt; pr_base_path := "/data/" |}
               [(lit "main/", true); (lit "t", true); (lit "f.parquet", true)] = Returns (Ok r')
             /\ safe_path (pr_base_path r') /\ pr_base_path r' = "/data/main/t/f.parquet".
Proof.
  eexists. split; [reflexivity|]. split; [|reflexivity].
  eapply (resolved_paths_do_not_escape {| pr_base_url := tt; pr_base_path := "/data/" |} _
    [(lit "main/", true); (lit "t", true); (lit "f.parquet", true)]); [|reflexivity].
  split; [reflexivity|]. apply (bool_decide_unpack _). reflexivity.
Defined.

(** The validator accepts a path exactly when it holds no NUL byte, literal or
    as [%00], no [..] component between slashes or backslashes, and, when it
    holds a percent sign, a percent-decoded form without such a component. *)
Theorem validate_path_exact (p : str) :
  validate_path p = Returns (Ok tt)
  <-> nul ∉ p /\ contains "%00" p = false /\ has_dotdot_component p = false
      /\ (percent ∈ p -> exists d, percent_decode_path p = Some d
                                   /\ (d = p \/ has_dotdot_component d = false)).
Proof. apply validate_path_ok. Qed.

(** C34. Validation of an ASCII path always returns; it is the multi-byte
    characters that can make it panic. The text [a%aé] does: the two bytes after
    the percent sign end inside the [é], and slicing there panics, so resolving a
    catalog path with such a name stops the process instead of returning an
    error. *)
Theorem validate_path_panics_only_past_ascii :
  (forall p, Forall (fun c => byte_val c < 128) p -> validate_path p <> Panics)
  /\ join_paths "/data/" (lit "a%a" ++ [chr 195; chr 169]) = Panics.
Proof.
  split; [|reflexivity]. intros p Hp. unfold validate_path, validate_no_null_bytes.
  destruct (contains [nul] p); [done|]. destruct (contains "%00" p); [done|]. cbn [outcome_bind].
  unfold validate_no_path_traversal. destruct (has_dotdot_component p); [done|].
  destruct (negb _); [done|]. destruct (percent_decode_total p Hp) as [d ->].
  by destruct (negb _ && _).
Qed.

(** The directory of a table whose stored paths are relative, as the writer
    stores them (ending in a slash), is the plain concatenation readers make, and
    a stored absolute path replaces everything above it. *)
Theorem table_directory_concatenates (data schema table : str) :
  validate_path (directory_path schema) = Returns (Ok tt) ->
  validate_path table = Returns (Ok tt) ->
  table_directory (directory_path data) (directory_path schema, true) (table, true)
  = Returns (Ok (directory_path data ++ directory_path schema ++ table))
  /\ table_directory data (directory_path schema, true) (table, false) = Returns (Ok table).
Proof.
  assert (forall p, ends_with_sep (directory_path p) = true) as Hd.
  { intros p. unfold ends_with_sep, directory_path. destruct (ends_with [slash] p) eqn:E.
    - by rewrite E.
    - change (lit "/") with [slash]. by rewrite ends_with_snoc. }
  assert (forall p q, ends_with_sep q = true -> ends_with_sep (p ++ q) = true) as Happ.
  { intros p q Hq. apply ends_with_sep_spec in Hq as (r & c & -> & Hc).
    unfold ends_with_sep. rewrite app_assoc, !ends_with_snoc.
    unfold is_sep in Hc. rewrite !orb_true_iff, !char_eqb_eq in *. naive_solver. }
  intros Hs Ht. unfold table_directory, resolve_path, join_paths. cbn [fst snd].
  rewrite Hs, Ht. cbn [outcome_bind]. rewrite Hd. cbn [outcome_bind].
  rewrite Happ by apply Hd. by rewrite app_assoc.
Qed.

Lemma table_directory_concatenates_witness :
  table_directory (directory_path "/data") (directory_path "main", true) (lit "t/", true)
  = Returns (Ok (lit "/data/main/t/")).
Proof. apply (table_directory_concatenates "/data" "main" "t/"); reflexivity. Defined.
