(* ===== verification/CatalogVersion.v ===== *)
(** * Catalog layout versions ([src/src/catalog_version.rs])

    A catalog records in [ducklake_metadata] the layout version it is at and the
    oldest layout version whose release may still use it. [classify] reads the
    rows a writer or reader finds on open; [require_writable],
    [require_readable] and [require_migratable] decide what it may do. *)

From S2P Require Import Prelude RustStd.

Record Layout := {
  key : str;
  current : Z;
  min_key : str;
  min_version : Z;
  other_key : str;
  other_name : str;
}.

Definition LAYOUT_VERSION_KEY : str := "datafusion_ducklake_version".
Definition MULTICATALOG_LAYOUT_VERSION_KEY : str := "datafusion_ducklake_multicatalog_version".
Definition LAYOUT_VERSION : Z := 2.
Definition MULTICATALOG_LAYOUT_VERSION : Z := 2.
Definition MIN_VERSION_KEY : str := "datafusion_ducklake_min_version".
Definition MULTICATALOG_MIN_VERSION_KEY : str := "datafusion_ducklake_multicatalog_min_version".
Definition MIN_VERSION : Z := 1.
Definition MULTICATALOG_MIN_VERSION : Z := 1.

Definition SINGLE_CATALOG : Layout :=
  {| key := LAYOUT_VERSION_KEY; current := LAYOUT_VERSION; min_key := MIN_VERSION_KEY;
     min_version := MIN_VERSION; other_key := MULTICATALOG_LAYOUT_VERSION_KEY;
     other_name := "a PostgreSQL multicatalog store" |}.

Definition MULTICATALOG : Layout :=
  {| key := MULTICATALOG_LAYOUT_VERSION_KEY; current := MULTICATALOG_LAYOUT_VERSION;
     min_key := MULTICATALOG_MIN_VERSION_KEY; min_version := MULTICATALOG_MIN_VERSION;
     other_key := LAYOUT_VERSION_KEY; other_name := "a single-catalog DuckLake catalog" |}.

(** [Layout::sql_keys]. *)
Definition sql_keys (l : Layout) : str :=
  "('version', '" ++ key l ++ "', '" ++ min_key l ++ "', '" ++ other_key l ++ "')".

(** [Layout::stamp]. *)
Definition stamp (l : Layout) : list (str * str) :=
  [(key l, show_u (current l)); (min_key l, show_u (min_version l))].

Inductive CatalogState :=
| Absent
| Current
| NeedsMigration (version : option Z)
| NewerCompatible (version : Z)
| Newer (version : Z)
| Official (version : str)
| OtherLayout (name : str).

Section rendering.
(** The [Debug] rendering of a string and of a state in an error text. *)
Variable debug_str : str -> str.
Variable debug_state : CatalogState -> str.

(** The closures [row] and [parse] of [classify]. *)
Definition row (rows : list (str * str)) (k : str) : option str :=
  snd <$> find_first (fun r => str_eqb r.1 k) rows.

Definition parse_version (k value : str) : result Z :=
  ok_or (parse_u64 (trim value))
    (InvalidConfig (k ++ " is " ++ debug_str value ++ ", not a layout version")).

(** [classify]. *)
Definition classify (rows : list (str * str)) (layout : Layout) : result CatalogState :=
  if bool_decide (is_Some (row rows (other_key layout))) then Ok (OtherLayout (other_name layout))
  else match row rows (key layout) with
  | None =>
      Ok (match row rows "version" with
          | Some official => Official official
          | None => NeedsMigration None
          end)
  | Some version =>
      let? version := parse_version (key layout) version in
      match version ?= current layout with
      | Eq => Ok Current
      | Lt => Ok (NeedsMigration (Some version))
      | Gt =>
          let? min_version :=
            match row rows (min_key layout) with
            | Some m => parse_version (min_key layout) m
            | None => Ok version
            end in
          Ok (if min_version <=? current layout then NewerCompatible version else Newer version)
      end
  end.

(** [refusal]. *)
Definition refusal (state : CatalogState) : DuckLakeError :=
  Unsupported
    (match state with
     | Newer version =>
         "this catalog is at layout version " ++ show_Z version
         ++ ", newer than this release writes; upgrade datafusion-ducklake"
     | NewerCompatible version =>
         "this catalog is at layout version " ++ show_Z version
         ++ ", newer than this release migrates to"
     | Official version =>
         "official DuckDB created this catalog (DuckLake " ++ version
         ++ "); datafusion-ducklake writes and migrates only catalogs it created"
     | OtherLayout name => "this database holds " ++ name
     | other => "unexpected catalog state " ++ debug_state other
     end).

(** [require_writable]. *)
Definition require_writable (state : CatalogState) (migrate : str) : result unit :=
  match state with
  | Absent | Current | NewerCompatible _ => Ok tt
  | NeedsMigration version =>
      let found : str := match version with
        | None => lit "this catalog records no datafusion-ducklake layout version: an earlier "
            ++ "release created it, or its creation stopped before recording one"
        | Some version => "this catalog is at layout version " ++ show_Z version
        end in
      Err (MigrationRequired (found ++ "; call " ++ migrate ++ " to migrate it"))
  | refused => Err (refusal refused)
  end.

(** [require_readable]. *)
Definition require_readable (state : CatalogState) : result unit :=
  match state with
  | Newer version => Err (Unsupported ("this catalog is at layout version " ++ show_Z version
      ++ ", newer than this release reads; upgrade datafusion-ducklake"))
  | _ => Ok tt
  end.

(** [require_migratable]. *)
Definition require_migratable (state : CatalogState) : result unit :=
  match state with
  | NewerCompatible _ | Newer _ | Official _ | OtherLayout _ => Err (refusal state)
  | _ => Ok tt
  end.

(** ** Two releases *)

(** A layout as some release knows it: the same keys, its own versions, which
    fit the [u64] they are stored as; a release never asks for a minimum above
    the version it writes. *)
Definition release (l : Layout) (v m : Z) : Layout :=
  {| key := key l; current := v; min_key := min_key l; min_version := m;
     other_key := other_key l; other_name := other_name l |}.

Definition release_ok (v m : Z) : Prop := 0 <= m <= v /\ v <= u64_max.

Definition keys_distinct (l : Layout) : Prop :=
  key l <> min_key l /\ key l <> other_key l /\ min_key l <> other_key l
  /\ key l <> lit "version" /\ min_key l <> lit "version" /\ other_key l <> lit "version".

Lemma parse_version_show k n : 0 <= n <= u64_max -> parse_version k (show_u n) = Ok n.
Proof.
  intros H. unfold parse_version. rewrite trim_plain_all.
  - unfold parse_u64. by rewrite parse_show_u.
  - eapply Forall_impl; [apply show_u_digits; lia | apply digit_plain].
Qed.

(** What a release at layout [v] makes of a catalog a release at layout [v'] with
    minimum [m'] stamped. *)
Lemma classify_stamp l v m v' m' official :
  keys_distinct l -> release_ok v' m' ->
  classify ((lit "version", official) :: stamp (release l v' m')) (release l v m)
  = Ok (if v' =? v then Current
        else if v' <? v then NeedsMigration (Some v')
        else if m' <=? v then NewerCompatible v' else Newer v').
Proof.
  intros (H1 & H2 & H3 & H4 & H5 & H6) Hr. unfold release_ok in Hr.
  assert (forall a b : str, a <> b -> str_eqb a b = false) as Hne
    by (intros; by apply bool_decide_eq_false).
  assert (forall a : str, str_eqb a a = true) as Heq by (intros; by apply bool_decide_eq_true).
  unfold classify, row, stamp, release.
  cbn [key min_key other_key current min_version other_name find_first fst snd fmap option_fmap option_map].
  rewrite !Hne by congruence. cbn [fmap option_fmap option_map].
  rewrite bool_decide_false by (by intros [? [=]]). rewrite Heq. cbn -[parse_version show_u].
  rewrite parse_version_show by lia. cbn [result_bind].
  destruct (Z.compare_spec v' v) as [->|?|?].
  - by rewrite Z.eqb_refl.
  - rewrite (proj2 (Z.eqb_neq v' v)), (proj2 (Z.ltb_lt v' v)) by lia. done.
  - rewrite (proj2 (Z.eqb_neq v' v)), (proj2 (Z.ltb_ge v' v)) by lia.
    rewrite !Hne, Heq by congruence. cbn -[parse_version show_u]. rewrite parse_version_show by lia. done.
Qed.

End rendering.

(** ** Theorems *)

(** Rolling deploys: on a catalog created or migrated by a release at layout
    version [v'] with minimum [m'], a release at version [v] may write exactly
    when it is the same version, or an older one the minimum admits; it may read
    also when the catalog needs a migration; and it may migrate it, which records
    its own version, only when the catalog is not newer. So no release writes a
    catalog that excludes it and no migration lowers a recorded version. *)
Theorem releases_interoperate (debug_str : str -> str) (debug_state : CatalogState -> str)
  (l : Layout) (v m v' m' : Z) (official migrate : str) :
  keys_distinct l -> release_ok v m -> release_ok v' m' ->
  exists s,
    classify debug_str ((lit "version", official) :: stamp (release l v' m')) (release l v m) = Ok s
    /\ (is_ok (require_writable debug_state s migrate) = true <-> v' = v \/ (v < v' /\ m' <= v))
    /\ (is_ok (require_readable s) = true <-> v' <= v \/ m' <= v)
    /\ (is_ok (require_migratable debug_state s) = true <-> v' <= v).
Proof.
  intros Hk Hr Hr'. unfold release_ok in *. eexists. split; [by apply classify_stamp|].
  destruct (v' =? v) eqn:E1; breflect; [cbn; repeat split; intros; lia|].
  destruct (v' <? v) eqn:E2; breflect; [cbn; repeat split; intros; (done || lia)|].
  destruct (m' <=? v) eqn:E3; breflect; cbn; repeat split; intros; (done || lia).
Qed.

Lemma releases_interoperate_witness :
  exists s, classify id ((lit "version", lit "1.0") :: stamp (release SINGLE_CATALOG 3 1)) SINGLE_CATALOG = Ok s
    /\ is_ok (require_writable (fun _ => []) s []) = true.
Proof.
  destruct (releases_interoperate id (fun _ => []) SINGLE_CATALOG 2 1 3 1 (lit "1.0") [])
    as (s & Hs & [_ Hw] & _).
  - repeat split; discriminate.
  - split; [lia | discriminate].
  - split; [lia | discriminate].
  - exists s. split; [exact Hs|]. apply Hw. right. lia.
Defined.

(** A catalog official DuckDB created, or one of the other layout, is never
    written nor migrated, whatever its version rows say, and is still readable. *)
Theorem foreign_catalogs_are_never_written (debug_str : str -> str)
  (debug_state : CatalogState -> str) (rows : list (str * str)) (l : Layout) (migrate : str)
  (s : CatalogState) :
  is_Some (row rows (other_key l))
  \/ (row rows (key l) = None /\ is_Some (row rows "version")) ->
  classify debug_str rows l = Ok s ->
  is_ok (require_writable debug_state s migrate) = false
  /\ is_ok (require_migratable debug_state s) = false
  /\ is_ok (require_readable s) = true.
Proof.
  intros H Hs. unfold classify in Hs. case_bool_decide as Ho.
  - by injection Hs as <-.
  - destruct H as [?|[Hk [v Hv]]]; [done|]. rewrite Hk, Hv in Hs. by injection Hs as <-.
Qed.

Lemma foreign_catalogs_are_never_written_witness :
  is_ok (require_writable (fun _ => []) (Official "1.0") []) = false.
Proof.
  apply (foreign_catalogs_are_never_written id (fun _ => []) [(lit "version", lit "1.0")]
           SINGLE_CATALOG [] (Official "1.0")); [|reflexivity].
  right. split; [reflexivity | by eexists].
Defined.
