(* ===== verification/Calendar.v ===== *)
(** * Calendar text: DuckDB's spelling of dates, times and timestamps

    The part of [src/src/stats_encode.rs] that spells temporal statistics the
    way DuckDB does and reads them back to compare them: [civil_from_days] and
    [days_from_civil] (Hinnant's algorithms on [i64] day counts), the texts of a
    [DATE], [TIME] and [TIMESTAMP], [parse_stat_instant] which places a text on
    one ordered line, and the canonical-shape tests that guard text comparison.

    The theorems: the day count is the calendar (day 0 is 1970-01-01 and day
    [n + 1] is the day after day [n]); a date, a time and a timestamp of each
    unit reads back as the instant it spells, so two bounds compare as the
    values they were written from. *)

From S2P Require Import Prelude RustStd.

(** ** Dates *)

(** The month lengths and the leap rule, as [days_from_civil] spells them. *)
Definition leap (year : Z) : bool :=
  (year mod 4 =? 0) && (negb (year mod 100 =? 0) || (year mod 400 =? 0)).

Definition month_days (year month : Z) : Z :=
  if month =? 2 then (if leap year then 29 else 28)
  else if (month =? 4) || (month =? 6) || (month =? 9) || (month =? 11) then 30
  else 31.

(** [days_from_civil]. The divisors are positive, so [div_euclid] and
    [rem_euclid] are the floor division and its remainder; the operands of [/]
    and [%] are not negative. *)
Definition days_from_civil (year month day : Z) : option Z :=
  if negb ((1 <=? month) && (month <=? 12)) then None
  else if negb ((1 <=? day) && (day <=? month_days year month)) then None
  else
    let year := if month <=? 2 then year - 1 else year in
    let era := year / 400 in
    let year_of_era := year mod 400 in
    let month_from_march := (month + 9) mod 12 in
    let day_of_year := (153 * month_from_march + 2) / 5 + day - 1 in
    let day_of_era := year_of_era * 365 + year_of_era / 4 - year_of_era / 100 + day_of_year in
    n ← checked_i64 (era * 146097);
    n ← checked_i64 (n + day_of_era);
    checked_i64 (n - 719468).

(** [civil_from_days]. *)
Definition civil_from_days (days : Z) : Z * Z * Z :=
  let z := days + 719468 in
  let era := z / 146097 in
  let day_of_era := z mod 146097 in
  let year_of_era :=
    (day_of_era - day_of_era / 1460 + day_of_era / 36524 - day_of_era / 146096) / 365 in
  let day_of_year := day_of_era - (365 * year_of_era + year_of_era / 4 - year_of_era / 100) in
  let month_from_march := (5 * day_of_year + 2) / 153 in
  let day := day_of_year - (153 * month_from_march + 2) / 5 + 1 in
  let month := if month_from_march <? 10 then month_from_march + 3 else month_from_march - 9 in
  let year := year_of_era + era * 400 + (if month <=? 2 then 1 else 0) in
  (year, month, day).

(** [duckdb_date_text]. *)
Definition duckdb_date_text (days : Z) : str :=
  let '(year, month, day) := civil_from_days days in
  let text y := pad_zeros 4 (show_Z y) ++ "-" ++ pad_zeros 2 (show_Z month)
                  ++ "-" ++ pad_zeros 2 (show_Z day) in
  if year <=? 0 then text (1 - year) ++ " (BC)" else text year.

Definition DATE_INFINITY : Z := 2147483647.
Definition TIMESTAMP_INFINITY : Z := i64_max.
Definition TIMESTAMP_MIN_MICROS : Z := -9223372022400000000.
Definition TIMESTAMP_MAX_MICROS : Z := 9223372036854775806.
Definition TIMESTAMP_NS_MIN : Z := -9223286400000000000.

(** [encode_date32]; [i32::MIN] is no date. *)
Definition encode_date32 (days : Z) : option str :=
  if days =? DATE_INFINITY then Some (lit "infinity")
  else if days =? - DATE_INFINITY then Some (lit "-infinity")
  else if days =? -2147483648 then None
  else Some (duckdb_date_text days).

(** ** Times of day and timestamps *)

(** [encode_time]. *)
Definition encode_time (value units_per_second : Z) : option str :=
  if (value <? 0) || (86400 * units_per_second <? value) then None
  else
    let secs := value / units_per_second in
    let sub := value mod units_per_second in
    let hours := secs / 3600 in
    let minutes := (secs / 60) mod 60 in
    let seconds := secs mod 60 in
    let width := if units_per_second =? 1000 then 3%nat
                 else if units_per_second =? 1000000 then 6%nat
                 else if units_per_second =? 1000000000 then 9%nat else 0%nat in
    let text := pad_zeros 2 (show_Z hours) ++ ":" ++ pad_zeros 2 (show_Z minutes)
                  ++ ":" ++ pad_zeros 2 (show_Z seconds) in
    Some (if sub =? 0 then text
          else text ++ "." ++ trim_end_matches (chr 48) (pad_zeros width (show_Z sub))).

(** [encode_timestamp]. *)
Definition encode_timestamp (value units_per_second : Z) (timezone : bool) : option str :=
  if value =? TIMESTAMP_INFINITY then Some (lit "infinity")
  else if value =? - TIMESTAMP_INFINITY then Some (lit "-infinity")
  else if value =? i64_min then None
  else if (if units_per_second <=? 1000000
           then let micros := value * (1000000 / units_per_second) in
                (micros <? TIMESTAMP_MIN_MICROS) || (TIMESTAMP_MAX_MICROS <? micros)
           else value <? TIMESTAMP_NS_MIN)
  then None
  else
    let secs := value / units_per_second in
    let sub := value mod units_per_second in
    let days := secs / 86400 in
    let second_of_day := secs mod 86400 in
    let base := duckdb_date_text days ++ " "
                  ++ pad_zeros 2 (show_Z (second_of_day / 3600)) ++ ":"
                  ++ pad_zeros 2 (show_Z ((second_of_day / 60) mod 60)) ++ ":"
                  ++ pad_zeros 2 (show_Z (second_of_day mod 60)) in
    let frac := if units_per_second =? 1000 then pad_zeros 3 (show_Z sub)
                else if units_per_second =? 1000000 then pad_zeros 6 (show_Z sub)
                else if units_per_second =? 1000000000 then pad_zeros 9 (show_Z sub)
                else [] in
    let frac := trim_end_matches (chr 48) frac in
    let encoded := match frac with [] => base | _ => base ++ "." ++ frac end in
    Some (if timezone then encoded ++ "+00" else encoded).

(** ** Reading them back *)

(** [parse_digits]. *)
Definition parse_digits (text : str) : option Z :=
  if bool_decide (text = []) || (18 <? Z.of_nat (length text)) || negb (forallb is_ascii_digit text)
  then None else parse_i64 text.

(** The closure [seconds_of_day] of [parse_time_of_day]. *)
Definition seconds_of_day (hours minutes seconds : Z) : option Z :=
  n ← checked_i128 (hours * 60);
  n ← checked_i128 (n + minutes);
  n ← checked_i128 (n * 60);
  n ← checked_i128 (n + seconds);
  checked_i128 (n * 1000000000).

(** An offset field that may be missing. *)
Definition optional_digits (fields : list str) (i : nat) : option Z :=
  match fields !! i with Some m => parse_digits m | None => Some 0 end.

Definition is_sign (c : ascii) : bool := char_eqb c "+" || char_eqb c "-".

(** [parse_time_of_day]. *)
Definition parse_time_of_day (text : str) : option Z :=
  let '(clock, offset) :=
    match position is_sign text with
    | Some at_ => (take at_ text, Some (drop at_ text))
    | None => (text, None)
    end in
  let '(hms, fraction) := default (clock, []) (split_once "." clock) in
  let fields := split_on (char_eqb ":") hms in
  hours ← fields !! 0%nat ≫= parse_digits;
  minutes ← fields !! 1%nat ≫= parse_digits;
  seconds ← fields !! 2%nat ≫= parse_digits;
  if bool_decide (is_Some (fields !! 3%nat)) || (9 <? Z.of_nat (length fraction))
     || negb (forallb is_ascii_digit fraction)
  then None
  else
    fraction ← match fraction with
               | [] => Some 0
               | _ => parse_i128 (pad_zeros_right 9 fraction)
               end;
    nanos ← seconds_of_day hours minutes seconds;
    nanos ← checked_i128 (nanos + fraction);
    match offset with
    | None => Some nanos
    | Some offset =>
        let negative := starts_with "-" offset in
        let fields := split_on (char_eqb ":") (drop 1 offset) in
        hours ← fields !! 0%nat ≫= parse_digits;
        minutes ← optional_digits fields 1;
        seconds ← optional_digits fields 2;
        shift ← seconds_of_day hours minutes seconds;
        checked_i128 (if negative then nanos + shift else nanos - shift)
    end.

Definition NANOS_PER_DAY : Z := 86400000000000.

(** [parse_stat_instant]: [(-1, 0)] and [(1, 0)] are the infinities, [(0, n)] is
    [n] nanoseconds since 1970-01-01 (or since midnight for a bare time). *)
Definition parse_stat_instant (text : str) : option (Z * Z) :=
  if str_eqb text "infinity" then Some (1, 0)
  else if str_eqb text "-infinity" then Some (-1, 0)
  else if (8 <=? length text)%nat && bool_decide (text !! 2%nat = Some ":"%char)
  then (fun nanos => (0, nanos)) <$> parse_time_of_day text
  else
    let '(date, rest) := match split_once " " text with
                         | Some (date, rest) => (date, Some rest)
                         | None => (text, None)
                         end in
    let '(bc, time) := match rest with
                       | Some rest =>
                           if str_eqb rest "(BC)" then (true, None)
                           else match strip_prefix "(BC) " rest with
                                | Some time => (true, Some time)
                                | None => (false, Some rest)
                                end
                       | None => (false, None)
                       end in
    '(year, date) ← split_once "-" date;
    year ← parse_digits year;
    '(month, day) ← split_once "-" date;
    month ← parse_digits month;
    day ← parse_digits day;
    let year := if bc : bool then 1 - year else year in
    days ← days_from_civil year month day;
    nanos ← match time with Some time => parse_time_of_day time | None => Some 0 end;
    Some (0, days * NANOS_PER_DAY + nanos).

(** ** Canonical shapes *)

(** [matches_shape]. *)
Fixpoint matches_shape (text shape : str) : bool :=
  match text, shape with
  | [], [] => true
  | actual :: text, expected :: shape =>
      (if char_eqb expected "N" then is_ascii_digit actual else char_eqb actual expected)
      && matches_shape text shape
  | _, _ => false
  end.

Definition is_canonical_date (text : str) : bool := matches_shape text "NNNN-NN-NN".

(** [is_canonical_timestamp]; [split_at_checked] also refuses a cut inside a
    character. *)
Definition is_canonical_timestamp (text : str) : bool :=
  if is_char_boundary text 19 then
    let base := take 19 text in
    let fraction := drop 19 text in
    if negb (matches_shape base "NNNN-NN-NN NN:NN:NN") then false
    else match strip_prefix "." fraction with
         | None => bool_decide (fraction = [])
         | Some digits =>
             negb (bool_decide (digits = [])) && forallb is_ascii_digit digits
             && negb (ends_with "0" digits)
         end
  else false.

Definition is_canonical_timestamptz (text : str) : bool :=
  match strip_suffix "+00" text with
  | Some text => is_canonical_timestamp text
  | None => false
  end.

(** ** The calendar *)

(** The day after a date. *)
Definition next_day (date : Z * Z * Z) : Z * Z * Z :=
  let '(year, month, day) := date in
  if day <? month_days year month then (year, month, day + 1)
  else if month <? 12 then (year, month + 1, 1)
  else (year + 1, 1, 1).

Definition valid_date (date : Z * Z * Z) : Prop :=
  let '(year, month, day) := date in
  1 <= month <= 12 /\ 1 <= day <= month_days year month.

(** The day count without the range checks: the days before March 1st of the year
    [v], and the days of that year before the first of a month. *)
Definition march_days (v : Z) : Z :=
  v / 400 * 146097 + (v mod 400 * 365 + v mod 400 / 4 - v mod 400 / 100).

Definition month_offset (month : Z) : Z := (153 * ((month + 9) mod 12) + 2) / 5.

Definition day_number (date : Z * Z * Z) : Z :=
  let '(year, month, day) := date in
  march_days (if month <=? 2 then year - 1 else year) + month_offset month + day - 1 - 719468.

Lemma next_day_valid date : valid_date date -> valid_date (next_day date).
Proof.
  destruct date as [[y m] d]. unfold valid_date, next_day. intros [Hm Hd].
  destruct (d <? month_days y m) eqn:E; breflect; [lia|].
  destruct (m <? 12) eqn:E2; breflect.
  - split; [lia|]. unfold month_days. repeat case_if; lia.
  - split; [lia|]. unfold month_days. simpl. lia.
Qed.

Lemma months_cases m : 1 <= m <= 12 ->
  m = 1 \/ m = 2 \/ m = 3 \/ m = 4 \/ m = 5 \/ m = 6 \/ m = 7 \/ m = 8 \/ m = 9
  \/ m = 10 \/ m = 11 \/ m = 12.
Proof. lia. Qed.

(** The length of the year from March that ends in February of [y]. *)
Lemma march_year y : march_days y = march_days (y - 1) + (if leap y then 366 else 365).
Proof.
  unfold march_days, leap.
  destruct (y mod 4 =? 0) eqn:E4; destruct (y mod 100 =? 0) eqn:E100;
    destruct (y mod 400 =? 0) eqn:E400; breflect; simpl;
    Z.to_euclidean_division_equations; lia.
Qed.

Lemma month_offset_next m l :
  1 <= m <= 11 ->
  (if m =? 2 then if l : bool then 366 else 365 else 0) + month_offset (m + 1)
  = month_offset m
    + (if m =? 2 then if l then 29 else 28
       else if (m =? 4) || (m =? 6) || (m =? 9) || (m =? 11) then 30 else 31).
Proof.
  intros Hm. assert (1 <= m <= 12) as Hm' by lia. apply months_cases in Hm'.
  repeat destruct Hm' as [->|Hm']; destruct l; (reflexivity || lia).
Qed.

Lemma day_number_next date :
  valid_date date -> day_number (next_day date) = day_number date + 1.
Proof.
  destruct date as [[y m] d]. unfold valid_date. intros [Hm Hd].
  pose proof (march_year y) as Hy. unfold next_day, day_number.
  destruct (d <? month_days y m) eqn:E; breflect; [lia|].
  assert (d = month_days y m) as -> by lia. clear E Hd.
  destruct (m <? 12) eqn:E; breflect.
  - pose proof (month_offset_next m (leap y) ltac:(lia)) as Hn. unfold month_days.
    destruct (m =? 2) eqn:E2; breflect.
    + subst m. change (2 <=? 2) with true. change (2 + 1 <=? 2) with false.
      destruct (leap y); lia.
    + destruct (m <=? 2) eqn:E3, (m + 1 <=? 2) eqn:E4; breflect; try lia;
        destruct (_ || _); lia.
  - assert (m = 12) as -> by lia. replace (y + 1 - 1) with y by lia.
    change (month_offset 1) with 306. change (month_offset 12) with 275.
    change (month_days y 12) with 31. simpl. lia.
Qed.

Lemma year_of_era_spec c q r doy :
  0 <= c <= 3 -> 0 <= q <= 24 -> 0 <= r <= 3 ->
  0 <= doy <= (if (r =? 3) && ((q <? 24) || (c =? 3)) then 365 else 364) ->
  let doe := 36524 * c + 1461 * q + 365 * r + doy in
  0 <= doe < 146097
  /\ (doe - doe / 1460 + doe / 36524 - doe / 146096) / 365 = 100 * c + 4 * q + r.
Proof.
  intros Hc Hq Hr Hd. cbn zeta.
  assert (doy <= 365 /\ (doy = 365 -> r = 3 /\ (q < 24 \/ c = 3))) as [Hd1 Hd2].
  { destruct (r =? 3) eqn:E1, (q <? 24) eqn:E2, (c =? 3) eqn:E3; simpl in Hd; breflect; lia. }
  assert (0 <= doy) by lia. clear Hd.
  set (doe := 36524 * c + 1461 * q + 365 * r + doy).
  assert (0 <= doe <= 146096) by lia.
  assert (doe / 36524 - doe / 146096 = c) as Hcent.
  { Z.to_euclidean_division_equations. lia. }
  assert (exists e, doe / 1460 = 25 * c + q + e /\ 0 <= doy - e < 365) as (e & He & Hde).
  { destruct (24 * c + q + 365 * r + doy <? 1460) eqn:E; breflect.
    - exists 0. split; [|lia]. symmetry. apply (Z.div_unique _ _ _ (24 * c + q + 365 * r + doy)); lia.
    - exists 1. split; [|lia]. symmetry.
      apply (Z.div_unique _ _ _ (24 * c + q + 365 * r + doy - 1460)); lia. }
  split; [lia|]. rewrite He. symmetry. apply (Z.div_unique _ _ _ (doy - e)); lia.
Qed.

Lemma march_days_era era c q r :
  0 <= c <= 3 -> 0 <= q <= 24 -> 0 <= r <= 3 ->
  march_days (400 * era + (100 * c + 4 * q + r))
  = era * 146097 + (36524 * c + 1461 * q + 365 * r)
  /\ (400 * era + (100 * c + 4 * q + r)) mod 400 = 100 * c + 4 * q + r.
Proof.
  intros Hc Hq Hr. set (yoe := 100 * c + 4 * q + r).
  assert ((400 * era + yoe) mod 400 = yoe) as Hm
    by (symmetry; apply (Z.mod_unique _ _ era); lia).
  assert ((400 * era + yoe) / 400 = era) as Hd
    by (symmetry; apply (Z.div_unique _ _ _ yoe); lia).
  unfold march_days. rewrite Hm, Hd. split; [|done].
  assert (yoe / 4 = 25 * c + q) as -> by (symmetry; apply (Z.div_unique _ _ _ r); lia).
  assert (yoe / 100 = c) as -> by (symmetry; apply (Z.div_unique _ _ _ (4 * q + r)); lia).
  lia.
Qed.

(** The last day of a year from March exists only in a leap year. *)
Lemma leap_era era c q r :
  0 <= c <= 3 -> 0 <= q <= 24 -> 0 <= r <= 3 ->
  leap (400 * era + (100 * c + 4 * q + r) + 1) = (r =? 3) && ((q <? 24) || (c =? 3)).
Proof.
  intros Hc Hq Hr. set (yoe := 100 * c + 4 * q + r + 1). unfold leap.
  replace (400 * era + (100 * c + 4 * q + r) + 1) with (yoe + era * 4 * 100) by lia.
  rewrite (Z_mod_plus_full yoe). replace (yoe + era * 4 * 100) with (yoe + era * 100 * 4) by lia.
  rewrite Z_mod_plus_full. replace (yoe + era * 100 * 4) with (yoe + era * 400) by lia.
  rewrite Z_mod_plus_full. subst yoe.
  destruct (r =? 3) eqn:Er, (q <? 24) eqn:Eq, (c =? 3) eqn:Ec; breflect;
    repeat match goal with |- context [?a =? 0] => destruct (a =? 0) eqn:?; breflect end;
    simpl; try done; exfalso; Z.to_euclidean_division_equations; lia.
Qed.

Lemma year_of_era_digits yoe :
  0 <= yoe < 400 ->
  exists c q r, yoe = 100 * c + 4 * q + r /\ 0 <= c <= 3 /\ 0 <= q <= 24 /\ 0 <= r <= 3.
Proof.
  intros H. exists (yoe / 100), (yoe mod 100 / 4), (yoe mod 4).
  Z.to_euclidean_division_equations; lia.
Qed.

(** A day of a year from March names its month and its day in the month. *)
Lemma month_of_day_of_year y m d :
  valid_date (y, m, d) ->
  let doy := month_offset m + d - 1 in
  let mp := (5 * doy + 2) / 153 in
  0 <= doy <= (if leap (if m <=? 2 then y else y + 1) then 365 else 364)
  /\ (if mp <? 10 then mp + 3 else mp - 9) = m
  /\ doy - (153 * mp + 2) / 5 + 1 = d.
Proof.
  intros [Hm Hd]. unfold month_days in Hd. cbn zeta.
  apply months_cases in Hm.
  assert (exists mp, month_offset m = (153 * mp + 2) / 5 /\ (if mp <? 10 then mp + 3 else mp - 9) = m
    /\ (5 * (month_offset m + d - 1) + 2) / 153 = mp
    /\ 0 <= month_offset m + d - 1 <= (if leap (if m <=? 2 then y else y + 1) then 365 else 364))
    as (mp & H1 & H2 & -> & H3); [|rewrite H1 at 2; lia].
  exists ((m + 9) mod 12). split; [done|].
  destruct (leap (if m <=? 2 then y else y + 1)) eqn:El.
  all: repeat destruct Hm as [->|Hm]; subst; cbn [Z.leb Z.compare Pos.compare Pos.compare_cont] in El;
    rewrite ?El in Hd;
    match goal with |- context [month_offset ?k] =>
      let v := eval vm_compute in (month_offset k) in change (month_offset k) with v end;
    match goal with |- context [?k mod 12] =>
      let v := eval vm_compute in (k mod 12) in change (k mod 12) with v end;
    cbn in Hd; (split; [reflexivity|]); (split; [Z.to_euclidean_division_equations; lia | lia]).
Qed.

Lemma civil_from_days_day_number date :
  valid_date date -> civil_from_days (day_number date) = date.
Proof.
  destruct date as [[y m] d]. intros Hv.
  pose proof (month_of_day_of_year y m d Hv) as (Hdoy & Hmon & Hday). cbn zeta in *.
  set (doy := month_offset m + d - 1) in *. set (v := if m <=? 2 then y - 1 else y).
  destruct (year_of_era_digits (v mod 400)) as (c & q & r & Hyoe & Hc & Hq & Hr).
  { apply Z.mod_pos_bound. lia. }
  assert (v = 400 * (v / 400) + (100 * c + 4 * q + r)) as Hv' by (pose proof (Z.div_mod v 400); lia).
  assert (leap (if m <=? 2 then y else y + 1) = (r =? 3) && ((q <? 24) || (c =? 3))) as Hl.
  { rewrite <- (leap_era (v / 400) c q r), <- Hv' by done. f_equal. subst v. case_if; lia. }
  rewrite Hl in Hdoy.
  destruct (year_of_era_spec c q r doy Hc Hq Hr Hdoy) as [Hdoe Hy]. cbn zeta in Hy.
  set (doe := 36524 * c + 1461 * q + 365 * r + doy) in *.
  assert (day_number (y, m, d) + 719468 = 146097 * (v / 400) + doe) as Hz.
  { unfold day_number. fold v. rewrite Hv' at 1. rewrite (proj1 (march_days_era _ c q r Hc Hq Hr)). lia. }
  unfold civil_from_days. rewrite Hz.
  rewrite <- (Z.div_unique (146097 * (v / 400) + doe) 146097 (v / 400) doe) by lia.
  rewrite <- (Z.mod_unique (146097 * (v / 400) + doe) 146097 (v / 400) doe) by lia.
  cbn zeta. rewrite Hy.
  replace ((100 * c + 4 * q + r) / 4) with (25 * c + q) by (apply (Z.div_unique _ _ _ r); lia).
  replace ((100 * c + 4 * q + r) / 100) with c by (apply (Z.div_unique _ _ _ (4 * q + r)); lia).
  replace (doe - (365 * (100 * c + 4 * q + r) + (25 * c + q) - c)) with doy by lia.
  rewrite Hday, Hmon. do 2 f_equal. subst v. case_if; lia.
Qed.

Lemma day_number_era y m d k : day_number (y + 400 * k, m, d) = day_number (y, m, d) + 146097 * k.
Proof.
  assert (forall v, march_days (v + 400 * k) = march_days v + 146097 * k) as H.
  { intros v. unfold march_days. replace (v + 400 * k) with (v + k * 400) by lia.
    rewrite Z_mod_plus_full, Z.div_add by lia. lia. }
  unfold day_number. destruct (m <=? 2).
  - replace (y + 400 * k - 1) with (y - 1 + 400 * k) by lia. rewrite H. lia.
  - rewrite H. lia.
Qed.

(** Every day count is some date's. *)
Lemma day_number_surjective n : exists date, valid_date date /\ day_number date = n.
Proof.
  assert (forall k : nat, exists date, valid_date date /\ day_number date = Z.of_nat k) as Hpos.
  { induction k as [|k [date [Hv Hk]]].
    - exists (1970, 1, 1). split; [repeat split; (done || lia) | done].
    - exists (next_day date). split; [by apply next_day_valid|].
      rewrite day_number_next by done. lia. }
  destruct (Hpos (Z.to_nat (n + 146097 * Z.abs n))) as ([[y m] d] & Hv & Hn).
  exists (y + 400 * - Z.abs n, m, d). split.
  - destruct Hv as [? Hd]. split; [done|]. unfold month_days, leap in *.
    replace (y + 400 * - Z.abs n) with (y + - Z.abs n * 100 * 4) at 1 by lia.
    replace (y + 400 * - Z.abs n) with (y + - Z.abs n * 4 * 100) at 1 by lia.
    replace (y + 400 * - Z.abs n) with (y + - Z.abs n * 400) at 1 by lia.
    by rewrite !Z_mod_plus_full.
  - rewrite day_number_era, Hn. lia.
Qed.

Lemma civil_from_days_spec n :
  valid_date (civil_from_days n) /\ day_number (civil_from_days n) = n.
Proof.
  destruct (day_number_surjective n) as (date & Hv & <-).
  by rewrite civil_from_days_day_number.
Qed.

(** [days_from_civil] is the day number of a date that exists, when the count
    fits the type. *)
Lemma days_from_civil_day_number y m d n :
  days_from_civil y m d = Some n -> valid_date (y, m, d) /\ day_number (y, m, d) = n.
Proof.
  unfold days_from_civil. destruct (negb _) eqn:E1; [done|]. destruct (negb _) eqn:E2 in |- *; [done|].
  intros H. breflect. split; [by split|].
  unfold day_number, march_days, month_offset. revert H. cbn zeta. unfold checked_i64.
  set (v := if m <=? 2 then y - 1 else y). intros H.
  repeat (case_if; simpl in H; [|done]). injection H as <-. lia.
Qed.

Lemma days_from_civil_complete date :
  valid_date date -> i64_min + 146097 + 719468 <= day_number date <= i64_max - 719468 ->
  let '(y, m, d) := date in days_from_civil y m d = Some (day_number date).
Proof.
  destruct date as [[y m] d]. intros Hv Hr. pose proof (month_of_day_of_year y m d Hv) as (Hdoy & _).
  destruct Hv as [Hm Hd]. unfold days_from_civil.
  rewrite (proj2 (Z.leb_le 1 m)), (proj2 (Z.leb_le m 12)), (proj2 (Z.leb_le 1 d)),
    (proj2 (Z.leb_le d (month_days y m))) by lia. cbn [andb negb].
  unfold day_number, march_days, month_offset in *. cbn zeta in Hdoy.
  set (v := if m <=? 2 then y - 1 else y) in *.
  assert (0 <= v mod 400 < 400) by (apply Z.mod_pos_bound; lia).
  assert (0 <= v mod 400 * 365 + v mod 400 / 4 - v mod 400 / 100 <= 146096 - 365)
    by (Z.to_euclidean_division_equations; lia).
  assert (0 <= (153 * ((m + 9) mod 12) + 2) / 5 + d - 1 <= 365) by (destruct (leap _); lia).
  unfold i64_min, i64_max in *. cbn zeta. unfold checked_i64, in_i64, i64_min, i64_max.
  repeat (rewrite (proj2 (andb_true_iff _ _)) by (split; apply Z.leb_le; lia); cbn [mbind option_bind]).
  f_equal. lia.
Qed.

(** ** The texts read back *)

Lemma parse_digits_pad w n :
  0 <= n < 10 ^ 18 -> (w <= 18)%nat -> parse_digits (pad_zeros w (show_Z n)) = Some n.
Proof.
  intros Hn Hw. unfold parse_digits. pose proof (length_pad w n 18 Hn ltac:(lia) Hw) as Hl.
  rewrite bool_decide_false by apply pad_nonempty.
  rewrite (proj2 (digits_forallb _)) by (apply digits_pad; lia).
  rewrite (proj2 (Z.ltb_ge _ _)) by lia. cbn [orb negb].
  apply parse_signed_digits; [apply digits_pad; lia | apply pad_nonempty | apply parse_digits_from_pad; lia |].
  unfold i64_min, i64_max. lia.
Qed.

Lemma position_app {A} (p : A -> bool) l r :
  Forall (fun x => p x = false) l -> position p (l ++ r) = ((fun i => (length l + i)%nat) <$> position p r).
Proof.
  induction 1 as [|x l Hx _ IH]; simpl; [by destruct (position p r)|]. rewrite Hx, IH.
  by destruct (position p r).
Qed.

Lemma seconds_of_day_spec h m s :
  0 <= h < 10 ^ 18 -> 0 <= m < 10 ^ 18 -> 0 <= s < 10 ^ 18 ->
  seconds_of_day h m s = Some ((h * 3600 + m * 60 + s) * 1000000000).
Proof.
  intros. unfold seconds_of_day, checked_i128, in_i128, i128_min, i128_max.
  repeat (rewrite (proj2 (andb_true_iff _ _)) by (split; apply Z.leb_le; lia); cbn [mbind option_bind]).
  f_equal. lia.
Qed.

(** The clock part of a text: [HH:MM:SS], and a fraction when there is one. *)
Definition hms_text (h m s : Z) : str :=
  pad_zeros 2 (show_Z h) ++ ":" ++ pad_zeros 2 (show_Z m) ++ ":" ++ pad_zeros 2 (show_Z s).

Definition fraction_text (frac : str) : str :=
  match frac with [] => [] | _ => "." ++ frac end.

Definition fraction_value (frac : str) : option Z :=
  match frac with [] => Some 0 | _ => parse_i128 (pad_zeros_right 9 frac) end.

Lemma hms_text_chars h m s (P : ascii -> Prop) :
  0 <= h -> 0 <= m -> 0 <= s ->
  (forall c, is_ascii_digit c = true -> P c) -> P ":"%char -> Forall P (hms_text h m s).
Proof.
  intros Hh Hm Hs Hd Hc. unfold hms_text.
  assert (forall n, 0 <= n -> Forall P (pad_zeros 2 (show_Z n))) as Hall
    by (intros n Hn; eapply Forall_impl; [by apply digits_pad | done]).
  change (lit ":") with [":"%char]. rewrite !Forall_app, !Forall_singleton. auto 10.
Qed.

Lemma digit_not_char c d : is_ascii_digit c = true -> is_ascii_digit d = false -> char_eqb d c = false.
Proof. intros Hc Hd. apply char_eqb_neq. intros ->. congruence. Qed.

Lemma split_clock h m s :
  0 <= h -> 0 <= m -> 0 <= s ->
  split_on (char_eqb ":") (hms_text h m s)
  = [pad_zeros 2 (show_Z h); pad_zeros 2 (show_Z m); pad_zeros 2 (show_Z s)].
Proof.
  intros Hh Hm Hs. unfold hms_text.
  assert (forall n, 0 <= n -> Forall (fun c => char_eqb ":" c = false) (pad_zeros 2 (show_Z n))) as Hp.
  { intros n Hn. eapply Forall_impl; [by apply digits_pad|]. intros c Hc. by apply digit_not_char. }
  change (lit ":") with [":"%char]. cbn [app].
  rewrite !split_on_app_sep, split_on_no_sep by auto. done.
Qed.

Lemma hms_text_no_dot h m s : 0 <= h -> 0 <= m -> 0 <= s -> "."%char ∉ hms_text h m s.
Proof.
  intros Hh Hm Hs Hin.
  pose proof (hms_text_chars h m s (fun c => char_eqb "." c = false) Hh Hm Hs) as Hall.
  rewrite Forall_forall in Hall. apply Hall in Hin; [|intros c Hc; by apply digit_not_char|done].
  by rewrite char_eqb_refl in Hin.
Qed.

Lemma split_fraction a frac :
  "."%char ∉ a ->
  default (a ++ fraction_text frac, []) (split_once "." (a ++ fraction_text frac)) = (a, frac).
Proof.
  intros Ha. destruct frac as [|c frac]; cbn [fraction_text].
  - rewrite app_nil_r. change (lit ".") with ["."%char]. by rewrite split_once_absent.
  - change (lit ".") with ["."%char]. cbn [app]. by rewrite split_once_char.
Qed.

(** Cutting a text at its zone offset. *)
Lemma split_offset a (tz : bool) :
  Forall (fun c => is_sign c = false) a ->
  match position is_sign (a ++ (if tz then "+00" else [])) with
  | Some at_ => (take at_ (a ++ (if tz then "+00" else [])),
                 Some (drop at_ (a ++ (if tz then "+00" else []))))
  | None => (a ++ (if tz then "+00" else []), None)
  end = (a, if tz then Some (lit "+00") else None).
Proof.
  intros Ha. rewrite (position_app _ _ _ Ha). destruct tz.
  - change (position is_sign "+00") with (Some 0%nat). cbn [fmap option_fmap option_map].
    rewrite Nat.add_0_r, take_app_length, drop_app_length. done.
  - cbn. by rewrite app_nil_r.
Qed.

Lemma no_sign_clock h m s frac :
  0 <= h -> 0 <= m -> 0 <= s -> digits frac ->
  Forall (fun c => is_sign c = false) (hms_text h m s ++ fraction_text frac).
Proof.
  intros Hh Hm Hs Hf.
  assert (forall c, is_ascii_digit c = true -> is_sign c = false) as Hd.
  { intros c Hc. unfold is_sign. destruct (digit_not_sign c Hc) as [-> ->]. done. }
  apply Forall_app. split; [by apply hms_text_chars|].
  destruct frac; [constructor|]. cbn [fraction_text]. change (lit ".") with ["."%char].
  apply Forall_app. split; [by repeat constructor | by eapply Forall_impl].
Qed.

Lemma parse_clock h m s frac v (tz : bool) :
  0 <= h < 100 -> 0 <= m < 100 -> 0 <= s < 100 ->
  digits frac -> (length frac <= 9)%nat -> fraction_value frac = Some v -> 0 <= v < 10 ^ 18 ->
  parse_time_of_day ((hms_text h m s ++ fraction_text frac) ++ (if tz then "+00" else []))
  = Some ((h * 3600 + m * 60 + s) * 1000000000 + v).
Proof.
  intros Hh Hm Hs Hf Hl Hv Hv18. unfold parse_time_of_day.
  rewrite split_offset by (apply no_sign_clock; (lia || done)).
  rewrite split_fraction by (apply hms_text_no_dot; lia).
  rewrite split_clock by lia. cbn [lookup list_lookup mbind option_bind].
  rewrite !parse_digits_pad by lia. cbn [mbind option_bind].
  rewrite bool_decide_false by (by intros [? [=]]).
  rewrite (proj2 (Z.ltb_ge _ _)), (proj2 (digits_forallb frac)) by (lia || done). cbn [orb negb].
  fold (fraction_value frac). rewrite Hv. cbn [mbind option_bind].
  rewrite seconds_of_day_spec by lia. cbn [mbind option_bind].
  unfold checked_i128, in_i128, i128_min, i128_max.
  rewrite (proj2 (andb_true_iff _ _)) by (split; apply Z.leb_le; lia). cbn [mbind option_bind].
  destruct tz; [|done]. change (split_on (char_eqb ":") (drop 1 "+00")) with [lit "00"].
  cbn [lookup list_lookup mbind option_bind optional_digits].
  change (parse_digits "00") with (Some 0). cbn [mbind option_bind].
  change (seconds_of_day 0 0 0) with (Some 0). cbn [mbind option_bind].
  change (starts_with "-" "+00") with false. cbv iota. rewrite Z.sub_0_r.
  by rewrite (proj2 (andb_true_iff _ _)) by (split; apply Z.leb_le; lia).
Qed.

(** The fraction of [sub] units below the second, [w] decimal digits of them,
    with the trailing zeros cut. *)
Lemma fraction_spec w sub :
  (1 <= w <= 9)%nat -> 0 <= sub < 10 ^ Z.of_nat w ->
  let frac := trim_end_matches (chr 48) (pad_zeros w (show_Z sub)) in
  digits frac /\ (length frac <= 9)%nat
  /\ fraction_value frac = Some (sub * 10 ^ Z.of_nat (9 - w)) /\ (frac = [] <-> sub = 0).
Proof.
  intros Hw Hs frac. destruct (trim_end_matches_spec (chr 48) (pad_zeros w (show_Z sub))) as [k Hk].
  fold frac in Hk.
  pose proof (length_pad w sub w Hs ltac:(lia) ltac:(lia)) as Hl.
  pose proof (digits_pad w sub ltac:(lia)) as Hd. pose proof (parse_digits_from_pad w sub ltac:(lia)) as Hp.
  assert (digits frac) as Hf by (rewrite Hk in Hd; by apply Forall_app in Hd as [? _]).
  assert (length frac + k = w)%nat as Hlen
    by (rewrite Hk, length_app, length_replicate in Hl; lia).
  assert (parse_digits_from 0 (pad_zeros_right 9 frac) = Some (sub * 10 ^ Z.of_nat (9 - w))) as Hv.
  { unfold pad_zeros_right. replace (9 - length frac)%nat with (k + (9 - w))%nat by lia.
    rewrite replicate_add, app_assoc, <- Hk, parse_digits_from_app, Hp. apply parse_digits_from_zeros. }
  assert (frac = [] <-> sub = 0) as Hz.
  { split.
    - intros E. rewrite E in Hk. cbn [app] in Hk. rewrite Hk, parse_digits_from_zeros in Hp.
      injection Hp as Hp. lia.
    - intros ->. subst frac. change (show_Z 0) with [chr 48]. unfold pad_zeros. cbn [length].
      change [chr 48] with (replicate 1 (chr 48)). rewrite <- replicate_add. apply trim_end_matches_all. }
  repeat split; try done; try lia; try apply Hz.
  unfold fraction_value. destruct frac as [|c frac'] eqn:E.
  { rewrite (proj1 Hz eq_refl). done. }
  apply parse_signed_digits; [|done|done|].
  - apply Forall_app. split; [done|apply digits_zeros].
  - assert (10 ^ Z.of_nat w * 10 ^ Z.of_nat (9 - w) = 10 ^ 9).
    { rewrite <- Z.pow_add_r by lia. f_equal. lia. }
    unfold i128_min, i128_max. nia.
Qed.

Lemma day_number_year y m d :
  valid_date (y, m, d) -> Z.abs (day_number (y, m, d)) <= 2 ^ 32 -> Z.abs y <= 10 ^ 8.
Proof.
  intros Hv H. pose proof (month_of_day_of_year y m d Hv) as (Hdoy & _). cbn zeta in Hdoy.
  unfold day_number, march_days in H.
  assert (0 <= month_offset m + d - 1 <= 365) by (destruct (leap _); lia).
  set (v := if m <=? 2 then y - 1 else y) in *.
  assert (v <= y <= v + 1) by (subst v; case_if; lia).
  Z.to_euclidean_division_equations; lia.
Qed.

(** The year a date's text spells, and the date's digits. *)
Definition date_digits (year month day : Z) : str :=
  pad_zeros 4 (show_Z year) ++ "-" ++ pad_zeros 2 (show_Z month) ++ "-" ++ pad_zeros 2 (show_Z day).

Definition era_text (bc : bool) : str := if bc then " (BC)" else [].

Lemma duckdb_date_text_eq n y m d :
  civil_from_days n = (y, m, d) ->
  duckdb_date_text n = date_digits (if y <=? 0 then 1 - y else y) m d ++ era_text (y <=? 0).
Proof.
  intros H. unfold duckdb_date_text. rewrite H. unfold date_digits, era_text.
  destruct (y <=? 0); [done|]. by rewrite app_nil_r.
Qed.

(** A text that follows a date: nothing, or a space and a time that starts with
    a digit. *)
Definition time_suffix (time : option str) : str :=
  match time with Some t => " " ++ t | None => [] end.

Definition starts_with_digit (t : str) : Prop :=
  exists c t', t = c :: t' /\ is_ascii_digit c = true.

Lemma split_era_time a bc time :
  " "%char ∉ a -> (forall t, time = Some t -> starts_with_digit t) ->
  let '(date, rest) := match split_once " " (a ++ era_text bc ++ time_suffix time) with
                       | Some (date, rest) => (date, Some rest)
                       | None => (a ++ era_text bc ++ time_suffix time, None)
                       end in
  date = a
  /\ match rest with
     | Some rest => if str_eqb rest "(BC)" then (true, None)
                    else match strip_prefix "(BC) " rest with
                         | Some time => (true, Some time)
                         | None => (false, Some rest)
                         end
     | None => (false, None)
     end = (bc, time).
Proof.
  intros Ha Ht. change (lit " ") with [" "%char].
  destruct bc; cbn [era_text].
  - change (lit " (BC)" ++ time_suffix time) with (" "%char :: lit "(BC)" ++ time_suffix time).
    rewrite split_once_char by done. split; [done|].
    destruct time as [t|]; cbn [time_suffix]; [|by rewrite app_nil_r].
    unfold str_eqb. rewrite bool_decide_false by (intros H; apply (f_equal length) in H; by rewrite length_app in H).
    change (lit "(BC)" ++ " " ++ t) with (lit "(BC) " ++ t).
    by rewrite (proj2 (strip_prefix_spec _ _ t)).
  - cbn [app]. destruct time as [t|]; cbn [time_suffix].
    + change (lit " " ++ t) with (" "%char :: t). rewrite split_once_char by done. split; [done|].
      destruct (Ht t eq_refl) as (c & t' & -> & Hc).
      assert (char_eqb "(" c = false) as Hp by (by apply digit_not_char).
      unfold str_eqb. rewrite bool_decide_false.
      2:{ intros H. injection H as -> _. done. }
      change (lit "(BC) ") with ("("%char :: lit "BC) "). cbn [strip_prefix]. by rewrite Hp.
    + rewrite app_nil_r, split_once_absent by done. done.
Qed.

Lemma date_digits_chars y m d (P : ascii -> Prop) :
  0 <= y -> 0 <= m -> 0 <= d ->
  (forall c, is_ascii_digit c = true -> P c) -> P "-"%char -> Forall P (date_digits y m d).
Proof.
  intros Hy Hm Hd Hdig Hc. unfold date_digits.
  assert (forall w n, 0 <= n -> Forall P (pad_zeros w (show_Z n))) as Hall
    by (intros w n Hn; eapply Forall_impl; [by apply digits_pad | done]).
  change (lit "-") with ["-"%char]. rewrite !Forall_app, !Forall_singleton. auto 10.
Qed.

Lemma split_date y m d :
  0 <= y -> 0 <= m -> 0 <= d ->
  split_once "-" (date_digits y m d)
  = Some (pad_zeros 4 (show_Z y), pad_zeros 2 (show_Z m) ++ "-" ++ pad_zeros 2 (show_Z d))
  /\ split_once "-" (pad_zeros 2 (show_Z m) ++ "-" ++ pad_zeros 2 (show_Z d))
     = Some (pad_zeros 2 (show_Z m), pad_zeros 2 (show_Z d)).
Proof.
  intros Hy Hm Hd. unfold date_digits. change (lit "-") with ["-"%char]. cbn [app].
  split; apply split_once_char; (eapply digits_not_in; [by apply digits_pad | done]).
Qed.

(** A date's text starts with four digits, so it is neither an infinity nor a
    time of day. *)
Lemma date_digits_head y m d r :
  0 <= y < 10 ^ 18 ->
  str_eqb (date_digits y m d ++ r) "infinity" = false
  /\ str_eqb (date_digits y m d ++ r) "-infinity" = false
  /\ bool_decide ((date_digits y m d ++ r) !! 2%nat = Some ":"%char) = false.
Proof.
  intros Hy. pose proof (length_pad 4 y 18 Hy ltac:(lia) ltac:(lia)) as Hl.
  pose proof (digits_pad 4 y ltac:(lia)) as Hd. unfold date_digits. rewrite <- app_assoc.
  destruct (pad_zeros 4 (show_Z y)) as [|a [|b [|c l]]]; simpl in Hl; try lia.
  rewrite !Forall_cons in Hd. destruct Hd as (Ha & Hb & Hc & _). cbn [app].
  repeat split; apply bool_decide_eq_false; intros H.
  - injection H as -> _. done.
  - injection H as -> _. done.
  - injection H as ->. done.
Qed.

Lemma instant_of_text n time nanos :
  Z.abs n <= 2 ^ 32 ->
  (forall t, time = Some t -> starts_with_digit t) ->
  match time with Some t => parse_time_of_day t | None => Some 0 end = Some nanos ->
  parse_stat_instant (duckdb_date_text n ++ time_suffix time) = Some (0, n * NANOS_PER_DAY + nanos).
Proof.
  intros Hn Ht Htime. destruct (civil_from_days_spec n) as [Hv Hnum].
  destruct (civil_from_days n) as [[y m] d] eqn:E.
  rewrite <- Hnum in Hn. pose proof (day_number_year y m d Hv Hn) as Hy. rewrite Hnum in Hn.
  pose proof (days_from_civil_complete (y, m, d) Hv) as Hdays. rewrite Hnum in Hdays.
  specialize (Hdays ltac:(unfold i64_min, i64_max; lia)). cbv beta iota in Hdays.
  assert (0 <= m < 100 /\ 0 <= d < 100) as [Hm Hd].
  { destruct Hv as [? Hd]. unfold month_days in Hd. split; [lia|]. repeat case_if; lia. }
  rewrite (duckdb_date_text_eq n y m d E), <- app_assoc.
  set (y' := if y <=? 0 then 1 - y else y).
  assert (0 <= y' < 10 ^ 18) as Hy' by (subst y'; case_if; breflect; lia).
  unfold parse_stat_instant.
  destruct (date_digits_head y' m d (era_text (y <=? 0) ++ time_suffix time) Hy') as (-> & -> & ->).
  rewrite andb_false_r.
  pose proof (split_era_time (date_digits y' m d) (y <=? 0) time) as Hsplit.
  destruct (match split_once " " _ with Some _ => _ | None => _ end) as [date rest].
  destruct Hsplit as [-> ->]; [|done|].
  { intros Hin. pose proof (date_digits_chars y' m d (fun c => c <> " "%char)) as Hall.
    rewrite Forall_forall in Hall. eapply Hall; [lia|lia|lia| |done|exact Hin|done].
    intros c Hc ->. done. }
  destruct (split_date y' m d) as [-> Hs]; [lia..|]. cbn [mbind option_bind].
  rewrite parse_digits_pad by lia. cbn [mbind option_bind]. rewrite Hs. cbn [mbind option_bind].
  rewrite !parse_digits_pad by lia. cbn [mbind option_bind].
  replace (if y <=? 0 then 1 - y' else y') with y by (subst y'; case_if; lia).
  rewrite Hdays. cbn [mbind option_bind]. by rewrite Htime.
Qed.

(** ** Values and their texts *)

(** The units of Arrow's time types, per second, and their decimal digits below
    the second. *)
Inductive unit_digits : Z -> nat -> Prop :=
| unit_seconds : unit_digits 1 0
| unit_millis : unit_digits 1000 3
| unit_micros : unit_digits 1000000 6
| unit_nanos : unit_digits 1000000000 9.

Definition nanos_of (units_per_second value : Z) : Z := value * (1000000000 / units_per_second).

(** The point a timestamp's value stands for. *)
Definition timestamp_instant (units_per_second value : Z) : Z * Z :=
  if value =? TIMESTAMP_INFINITY then (1, 0)
  else if value =? - TIMESTAMP_INFINITY then (-1, 0)
  else (0, nanos_of units_per_second value).

Definition date_instant (days : Z) : Z * Z :=
  if days =? DATE_INFINITY then (1, 0)
  else if days =? - DATE_INFINITY then (-1, 0)
  else (0, days * NANOS_PER_DAY).

(** The fraction [encode_timestamp] and [encode_time] write for [sub] units. *)
Definition unit_fraction (w : nat) (sub : Z) : str :=
  match w with
  | O => []
  | _ => trim_end_matches (chr 48) (pad_zeros w (show_Z sub))
  end.

Lemma unit_fraction_spec u w sub :
  unit_digits u w -> 0 <= sub < u ->
  digits (unit_fraction w sub) /\ (length (unit_fraction w sub) <= 9)%nat
  /\ fraction_value (unit_fraction w sub) = Some (nanos_of u sub)
  /\ 0 <= nanos_of u sub < 10 ^ 9
  /\ (unit_fraction w sub = [] <-> sub = 0).
Proof.
  intros Hu Hs. unfold nanos_of. destruct Hu; cbn [unit_fraction].
  { assert (sub = 0) as -> by lia. repeat split; (done || simpl; lia). }
  all: match goal with |- context [pad_zeros ?w _] =>
         destruct (fraction_spec w sub ltac:(lia) ltac:(simpl; lia)) as (H1 & H2 & H3 & H4) end;
    split; [exact H1|]; split; [exact H2|]; split; [rewrite H3; reflexivity|];
    split; [|exact H4];
    match goal with |- context [_ * ?k] =>
      let v := eval vm_compute in k in change k with v end; lia.
Qed.

Lemma starts_hms h m s r : 0 <= h -> starts_with_digit (hms_text h m s ++ r).
Proof.
  intros Hh. unfold hms_text. pose proof (digits_pad 2 h Hh) as Hd.
  destruct (pad_zeros 2 (show_Z h)) as [|c l] eqn:E; [by apply pad_nonempty in E|].
  inversion Hd; subst. exists c. eexists. split; [|done]. cbn [app]. reflexivity.
Qed.

Lemma encode_timestamp_unfold v u w tz text :
  unit_digits u w -> in_i64 v = true -> encode_timestamp v u tz = Some text ->
  v <> TIMESTAMP_INFINITY -> v <> - TIMESTAMP_INFINITY ->
  let secs := v / u in
  let sod := secs mod 86400 in
  Z.abs (secs / 86400) <= 2 ^ 32
  /\ text = duckdb_date_text (secs / 86400)
       ++ time_suffix (Some ((hms_text (sod / 3600) ((sod / 60) mod 60) (sod mod 60)
                               ++ fraction_text (unit_fraction w (v mod u)))
                             ++ (if tz then "+00" else []))).
Proof.
  intros Hu Hr. unfold encode_timestamp. intros H Hi1 Hi2. unfold in_i64 in Hr.
  rewrite (proj2 (Z.eqb_neq _ _) Hi1), (proj2 (Z.eqb_neq _ _) Hi2) in H.
  destruct (v =? i64_min) eqn:Em; [done|].
  destruct (if u <=? 1000000 then _ else _) eqn:Er; [done|].
  apply (inj Some) in H as <-. cbn zeta. split.
  - unfold TIMESTAMP_MIN_MICROS, TIMESTAMP_MAX_MICROS, TIMESTAMP_NS_MIN, TIMESTAMP_INFINITY, i64_max, i64_min in *.
    cbn zeta in Er; destruct Hu; cbn [Z.leb Z.compare Pos.compare Pos.compare_cont] in Er;
      repeat match type of Er with context [1000000 / ?k] =>
        let v := eval vm_compute in (1000000 / k) in change (1000000 / k) with v in Er end;
      breflect; Z.to_euclidean_division_equations; lia.
  - unfold hms_text, time_suffix. set (sod := (v / u) mod 86400). set (sub := v mod u).
    set (f := trim_end_matches (chr 48) _).
    assert (f = unit_fraction w sub) as -> by (subst f; by destruct Hu).
    set (base := duckdb_date_text _ ++ _).
    replace (match unit_fraction w sub with [] => base | _ => base ++ "." ++ unit_fraction w sub end)
      with (base ++ fraction_text (unit_fraction w sub))
      by (destruct (unit_fraction w sub); [apply app_nil_r | done]).
    subst base. destruct tz; rewrite ?app_nil_r, <- ?app_assoc; done.
Qed.

Lemma encode_timestamp_instant v u w tz text :
  unit_digits u w -> in_i64 v = true -> encode_timestamp v u tz = Some text ->
  parse_stat_instant text = Some (timestamp_instant u v).
Proof.
  intros Hu Hr H. unfold timestamp_instant.
  destruct (v =? TIMESTAMP_INFINITY) eqn:E1.
  { unfold encode_timestamp in H. rewrite E1 in H. injection H as <-. done. }
  destruct (v =? - TIMESTAMP_INFINITY) eqn:E2.
  { unfold encode_timestamp in H. rewrite E1, E2 in H. injection H as <-. done. }
  breflect. destruct (encode_timestamp_unfold v u w tz text Hu Hr H E1 E2) as [Hd ->]. cbn zeta in Hd.
  assert (0 < u) as Hpos by (destruct Hu; lia).
  set (secs := v / u) in *. set (sod := secs mod 86400).
  assert (0 <= v mod u < u) as Hsub by (by apply Z.mod_pos_bound).
  assert (0 <= sod < 86400) as Hsod by (apply Z.mod_pos_bound; lia).
  destruct (unit_fraction_spec u w _ Hu Hsub) as (Hf1 & Hf2 & Hf3 & Hf4 & _).
  pose proof (parse_clock (sod / 3600) ((sod / 60) mod 60) (sod mod 60) _ _ tz
    ltac:(Z.to_euclidean_division_equations; lia) ltac:(Z.to_euclidean_division_equations; lia)
    ltac:(Z.to_euclidean_division_equations; lia) Hf1 Hf2 Hf3 ltac:(lia)) as Hp.
  rewrite (instant_of_text _ (Some _) _ Hd) with (2 := Hp).
  - do 2 f_equal. unfold nanos_of, NANOS_PER_DAY in *.
    assert (1000000000 = u * (1000000000 / u)) as Hu' by (destruct Hu; reflexivity).
    assert (v = u * secs + v mod u) as Hv by (apply Z.div_mod; lia).
    assert (secs = 86400 * (secs / 86400) + sod) as Hs by (apply Z.div_mod; lia).
    assert (sod / 3600 * 3600 + (sod / 60) mod 60 * 60 + sod mod 60 = sod) as ->
      by (clear - Hsod; Z.to_euclidean_division_equations; lia).
    rewrite Hv at 2. revert Hu' Hs. generalize (1000000000 / u) (v mod u) (secs / 86400).
    clearbody sod secs.
    clear. intros k a b Hu' Hs. transitivity ((86400 * b + sod) * 1000000000 + a * k); [ring|].
    rewrite <- Hs, Hu'. ring.
  - intros t [= <-]. rewrite <- app_assoc. apply starts_hms. Z.to_euclidean_division_equations; lia.
Qed.

Lemma encode_date_instant days text :
  - 2 ^ 31 <= days < 2 ^ 31 -> encode_date32 days = Some text ->
  parse_stat_instant text = Some (date_instant days).
Proof.
  intros Hr. unfold encode_date32, date_instant.
  destruct (days =? DATE_INFINITY); [by intros [= <-]|].
  destruct (days =? - DATE_INFINITY); [by intros [= <-]|].
  destruct (days =? -2147483648); [done|]. intros [= <-].
  pose proof (instant_of_text days None 0 ltac:(lia)) as H. cbn [time_suffix] in H.
  rewrite app_nil_r, Z.add_0_r in H. by apply H.
Qed.

Lemma hms_text_head h m s r :
  0 <= h < 100 -> 0 <= m < 100 -> 0 <= s < 100 ->
  exists a b r', hms_text h m s ++ r = a :: b :: ":"%char :: r'
    /\ is_ascii_digit a = true /\ (5 <= length r')%nat.
Proof.
  intros Hh Hm Hs. unfold hms_text. change (lit ":") with [":"%char].
  pose proof (length_pad 2 h 2 ltac:(lia) ltac:(lia) ltac:(lia)) as Lh.
  pose proof (length_pad 2 m 2 ltac:(lia) ltac:(lia) ltac:(lia)) as Lm.
  pose proof (length_pad 2 s 2 ltac:(lia) ltac:(lia) ltac:(lia)) as Ls.
  pose proof (digits_pad 2 h ltac:(lia)) as Hd.
  destruct (pad_zeros 2 (show_Z h)) as [|a [|b [|? ?]]]; simpl in Lh; try lia.
  inversion Hd; subst. exists a, b. eexists. split; [reflexivity|]. split; [done|].
  rewrite !length_app. simpl. lia.
Qed.

Lemma encode_time_instant v u w text :
  unit_digits u w -> encode_time v u = Some text ->
  parse_stat_instant text = Some (0, nanos_of u v).
Proof.
  intros Hu. unfold encode_time. destruct (_ || _) eqn:Er; [done|].
  intros H. apply (inj Some) in H as <-. breflect.
  assert (0 < u) as Hpos by (destruct Hu; lia).
  set (secs := v / u). assert (0 <= v mod u < u) as Hsub by (by apply Z.mod_pos_bound).
  assert (v = u * secs + v mod u) as Hv by (apply Z.div_mod; lia).
  assert (0 <= secs <= 86400) as Hsecs by (destruct Hu; lia).
  destruct (unit_fraction_spec u w _ Hu Hsub) as (Hf1 & Hf2 & Hf3 & Hf4 & Hf5).
  match goal with |- parse_stat_instant ?t = _ =>
    assert (t = (hms_text (secs / 3600) ((secs / 60) mod 60) (secs mod 60)
                 ++ fraction_text (unit_fraction w (v mod u))) ++ []) as -> end.
  { rewrite app_nil_r. fold (hms_text (secs / 3600) ((secs / 60) mod 60) (secs mod 60)).
    destruct (v mod u =? 0) eqn:E; breflect.
    - rewrite (proj2 Hf5 E). by rewrite app_nil_r.
    - assert (unit_fraction w (v mod u) <> []) as Hne by tauto.
      f_equal. destruct (unit_fraction w (v mod u)) eqn:Ef; [done|]. cbn [fraction_text]. rewrite <- Ef.
      by destruct Hu. }
  pose proof (parse_clock (secs / 3600) ((secs / 60) mod 60) (secs mod 60) _ _ false
    ltac:(Z.to_euclidean_division_equations; lia) ltac:(Z.to_euclidean_division_equations; lia)
    ltac:(Z.to_euclidean_division_equations; lia) Hf1 Hf2 Hf3 ltac:(lia)) as Hp.
  cbv beta iota in Hp.
  unfold parse_stat_instant, str_eqb.
  destruct (hms_text_head (secs / 3600) ((secs / 60) mod 60) (secs mod 60)
    (fraction_text (unit_fraction w (v mod u)) ++ []))
    as (a & b & r & Ht & Ha & Hr); [Z.to_euclidean_division_equations; lia..|].
  rewrite <- app_assoc in Hp |- *. rewrite Ht in Hp |- *.
  rewrite !bool_decide_false by (intros Heq; injection Heq as -> _; done).
  rewrite (proj2 (Nat.leb_le _ _)) by (simpl; lia). rewrite bool_decide_true by done.
  cbn [andb]. rewrite Hp. cbn. do 2 f_equal. unfold nanos_of.
  assert (1000000000 = u * (1000000000 / u)) as Hu' by (destruct Hu; reflexivity).
  assert (secs / 3600 * 3600 + (secs / 60) mod 60 * 60 + secs mod 60 = secs) as ->
    by (Z.to_euclidean_division_equations; lia).
  rewrite Hv at 2. revert Hu'. generalize (1000000000 / u) (v mod u). clearbody secs. clear.
  intros k a Hu'. rewrite Hu'. ring.
Qed.

(** ** Theorems *)

(** The day count is the proleptic Gregorian calendar: day 0 is 1970-01-01,
    each day's date is the day after the one before it, every date exists, and
    [days_from_civil] is the inverse on the dates that exist (and [None] on the
    others, whatever the year). *)
Theorem civil_calendar_is_gregorian :
  civil_from_days 0 = (1970, 1, 1)
  /\ (forall n, civil_from_days (n + 1) = next_day (civil_from_days n))
  /\ (forall n, Z.abs n <= 2 ^ 62 ->
        let '(y, m, d) := civil_from_days n in days_from_civil y m d = Some n)
  /\ (forall y m d n, days_from_civil y m d = Some n -> civil_from_days n = (y, m, d))
  /\ (forall y m d, ~ (1 <= m <= 12 /\ 1 <= d <= month_days y m) -> days_from_civil y m d = None).
Proof.
  split; [reflexivity|]. split; [|split; [|split]].
  - intros n. destruct (civil_from_days_spec n) as [Hv Hn].
    rewrite <- (civil_from_days_day_number (next_day (civil_from_days n))) by (by apply next_day_valid).
    by rewrite day_number_next, Hn.
  - intros n Hn. destruct (civil_from_days_spec n) as [Hv Hd].
    pose proof (days_from_civil_complete _ Hv) as H. rewrite Hd in H.
    destruct (civil_from_days n) as [[y m] d]. apply H. unfold i64_min, i64_max. lia.
  - intros y m d n H. apply days_from_civil_day_number in H as [Hv <-].
    by apply civil_from_days_day_number.
  - intros y m d H. destruct (days_from_civil y m d) as [n|] eqn:E; [|done].
    by apply days_from_civil_day_number in E as [Hv _].
Qed.

Lemma civil_calendar_is_gregorian_witness :
  days_from_civil 2024 2 29 = Some 19782 /\ civil_from_days 19782 = (2024, 2, 29).
Proof.
  split; [reflexivity|]. apply (proj1 (proj2 (proj2 (proj2 civil_calendar_is_gregorian)))).
  reflexivity.
Defined.

(** Every date, time of day and timestamp (seconds to nanoseconds, with and
    without a zone) that has a DuckDB text reads back as the instant it was
    written from; the infinities as the two ends of the line. *)
Theorem temporal_texts_read_back (u v : Z) (w : nat) (tz : bool) (text : str) :
  unit_digits u w -> in_i64 v = true ->
  (encode_timestamp v u tz = Some text -> parse_stat_instant text = Some (timestamp_instant u v))
  /\ (encode_time v u = Some text -> parse_stat_instant text = Some (0, nanos_of u v))
  /\ (- 2 ^ 31 <= v < 2 ^ 31 -> encode_date32 v = Some text ->
      parse_stat_instant text = Some (date_instant v)).
Proof.
  intros Hu Hr. split; [|split].
  - by apply (encode_timestamp_instant v u w).
  - by apply (encode_time_instant v u w).
  - by apply encode_date_instant.
Qed.

Lemma temporal_texts_read_back_witness :
  encode_timestamp (-62831853072500000) 1000000 true = Some (lit "0023-12-09 (BC) 11:28:47.5+00")
  /\ parse_stat_instant "0023-12-09 (BC) 11:28:47.5+00"
     = Some (timestamp_instant 1000000 (-62831853072500000)).
Proof.
  assert (encode_timestamp (-62831853072500000) 1000000 true
          = Some (lit "0023-12-09 (BC) 11:28:47.5+00")) as H by (vm_compute; reflexivity).
  split; [exact H|].
  exact (proj1 (temporal_texts_read_back 1000000 (-62831853072500000) 6 true
    "0023-12-09 (BC) 11:28:47.5+00" unit_micros eq_refl) H).
Defined.
