(* ===== verification/StatsOrder.v ===== *)
(** * Comparing statistics texts

    [StatKind], [stat_cmp_kind] and the parsers behind it in
    [src/src/stats_encode.rs]: a column's min and max are stored as text, and a
    commit widens them by comparing texts. The class [BoundSpelling] is what the
    roll-up ([StatsRollup]) needs of a column type: that the texts of its values
    compare as the values do. The instances discharge it for integers, booleans,
    decimals, strings, dates, times and timestamps. *)

From S2P Require Import Prelude RustStd Calendar.
From Stdlib Require Import SpecFloat.

(** ** Kinds *)

Inductive StatKind := Numeric | Boolean | Temporal | Text.

#[export] Instance StatKind_eq_dec : EqDecision StatKind.
Proof. solve_decision. Defined.

Definition is_numeric_ducklake_type (ducklake_type : str) : bool :=
  let t := to_ascii_lowercase (trim ducklake_type) in
  contains "int" t || starts_with "decimal" t || starts_with "float" t
  || str_eqb t "double" || str_eqb t "real".

(** [StatKind::of_ducklake_type]. *)
Definition of_ducklake_type (ducklake_type : str) : StatKind :=
  let t := to_ascii_lowercase (trim ducklake_type) in
  if str_eqb t "boolean" || str_eqb t "bool" then Boolean
  else if str_eqb t "interval" then Text
  else if is_numeric_ducklake_type t then Numeric
  else if existsb (str_eqb t)
            [lit "date"; lit "time"; lit "timetz"; lit "time_ns"; lit "timestamp";
             lit "timestamptz"; lit "timestamp_s"; lit "timestamp_ms"; lit "timestamp_ns"]
  then Temporal
  else Text.

(** ** [str::parse::<f64>]

    An optional sign, then [inf], [infinity] or [nan] in any case, or decimal
    digits with an optional point and exponent, at least one digit. The value is
    the exact decimal rounded once to binary64: a quotient of two integers goes
    through the correctly rounded division of [SpecFloat]. *)

Fixpoint span_digits (s : str) : str * str :=
  match s with
  | c :: s' => if is_ascii_digit c then let '(a, b) := span_digits s' in (c :: a, b) else ([], s)
  | [] => ([], [])
  end.

(** [m * 10 ^ e], rounded. *)
Definition round_decimal (neg : bool) (m e : Z) : spec_float :=
  match m with
  | Zpos p =>
      match 10 ^ Z.max 0 (- e) with
      | Zpos q => SFdiv 53 1024 (S754_finite neg (p * Z.to_pos (10 ^ Z.max 0 e))%positive 0)
                                (S754_finite false q 0)
      | _ => S754_nan
      end
  | _ => S754_zero neg
  end.

Definition parse_exponent (s : str) : option Z :=
  match s with
  | [] => Some 0
  | c :: s' =>
      if char_eqb c "e" || char_eqb c "E" then
        match s' with
        | d :: s'' =>
            if char_eqb d "-" then Z.opp <$> parse_nonempty s''
            else if char_eqb d "+" then parse_nonempty s''
            else parse_nonempty s'
        | [] => None
        end
      else None
  end.

Definition parse_f64 (s : str) : option spec_float :=
  let '(neg, body) := match s with
                      | c :: s' => if char_eqb c "-" then (true, s')
                                   else if char_eqb c "+" then (false, s') else (false, s)
                      | [] => (false, s)
                      end in
  if eq_ignore_ascii_case body "inf" || eq_ignore_ascii_case body "infinity"
  then Some (S754_infinity neg)
  else if eq_ignore_ascii_case body "nan" then Some S754_nan
  else
    let '(int_part, rest) := span_digits body in
    let '(frac_part, rest) := match rest with
                              | c :: r => if char_eqb c "." then span_digits r else ([], rest)
                              | [] => ([], [])
                              end in
    if bool_decide (int_part ++ frac_part = []) then None
    else
      m ← parse_nonempty (int_part ++ frac_part);
      e ← parse_exponent rest;
      Some (round_decimal neg m (e - Z.of_nat (length frac_part))).

Definition is_nan (f : spec_float) : bool :=
  match f with S754_nan => true | _ => false end.

(** ** [stat_cmp_kind] *)

(** [parse_stat_bool]. *)
Definition parse_stat_bool (text : str) : option bool :=
  if str_eqb text "true" || str_eqb text "1" then Some true
  else if str_eqb text "false" || str_eqb text "0" then Some false
  else None.

(** The inner function [split] of [cmp_fixed_point]. *)
Definition split_fixed_point (s : str) : option (bool * str * str) :=
  let '(neg, rest) := match strip_prefix "-" s with Some r => (true, r) | None => (false, s) end in
  let '(int_part, frac_part) := default (rest, []) (split_once "." rest) in
  if bool_decide (int_part = []) && bool_decide (frac_part = []) then None
  else if negb (forallb is_ascii_digit int_part) || negb (forallb is_ascii_digit frac_part) then None
  else Some (neg, int_part, frac_part).

(** [cmp_fixed_point]. *)
Definition cmp_fixed_point (a b : str) : option comparison :=
  '(neg_a, int_a, frac_a) ← split_fixed_point a;
  '(neg_b, int_b, frac_b) ← split_fixed_point b;
  let scale := Nat.max (length frac_a) (length frac_b) in
  let scaled int_part frac_part := parse_i128 (int_part ++ pad_zeros_right scale frac_part) in
  x ← scaled int_a frac_a;
  y ← scaled int_b frac_b;
  Some ((if neg_a : bool then - x else x) ?= (if neg_b : bool then - y else y)).

Definition bool_cmp (a b : bool) : comparison :=
  match a, b with
  | false, true => Lt
  | true, false => Gt
  | _, _ => Eq
  end.

(** Tuples compare lexicographically. *)
Definition pair_cmp (a b : Z * Z) : comparison :=
  match a.1 ?= b.1 with Eq => a.2 ?= b.2 | c => c end.

(** [stat_cmp_kind]. *)
Definition stat_cmp_kind (a b : str) (kind : StatKind) : comparison :=
  match kind with
  | Numeric =>
      match parse_i128 a, parse_i128 b with
      | Some x, Some y => x ?= y
      | _, _ =>
          match cmp_fixed_point a b with
          | Some ord => ord
          | None =>
              match parse_f64 a, parse_f64 b with
              | Some x, Some y =>
                  match is_nan x, is_nan y with
                  | true, true => Eq
                  | true, false => Gt
                  | false, true => Lt
                  | false, false => default Eq (SFcompare x y)
                  end
              | _, _ => str_cmp a b
              end
          end
      end
  | Boolean =>
      match parse_stat_bool a, parse_stat_bool b with
      | Some x, Some y => bool_cmp x y
      | _, _ => str_cmp a b
      end
  | Temporal =>
      match parse_stat_instant a, parse_stat_instant b with
      | Some x, Some y => pair_cmp x y
      | _, _ => str_cmp a b
      end
  | Text => str_cmp a b
  end.

(** [stat_cmp]. *)
Definition stat_cmp (a b : str) (numeric : bool) : comparison :=
  stat_cmp_kind a b (if numeric then Numeric else Text).

(** ** Texts of decimals *)

(** [encode_decimal128]. *)
Definition encode_decimal128 (value scale : Z) : str :=
  if scale <=? 0 then show_Z value
  else
    let scale := Z.to_nat scale in
    let digits := show_u (Z.abs value) in
    let body :=
      if (scale <? length digits)%nat
      then take (length digits - scale) digits ++ "." ++ drop (length digits - scale) digits
      else "0." ++ pad_zeros scale digits in
    if value <? 0 then "-" ++ body else body.

(** ** What a column type promises the roll-up *)

(** The values of a column, their order and the texts that spell them as bounds;
    two texts compare as the values they spell. *)
Class BoundSpelling (kind : StatKind) (V : Type) := {
  val_cmp : V -> V -> comparison;
  val_cmp_flip x y : val_cmp y x = CompOpp (val_cmp x y);
  val_cmp_trans x y z : val_cmp x y <> Gt -> val_cmp y z <> Gt -> val_cmp x z <> Gt;
  spells : V -> str -> Prop;
  spells_cmp x y a b : spells x a -> spells y b -> stat_cmp_kind a b kind = val_cmp x y
}.

Lemma Zcompare_trans_le x y z : (x ?= y) <> Gt -> (y ?= z) <> Gt -> (x ?= z) <> Gt.
Proof. rewrite !Z.compare_le_iff. lia. Qed.

Lemma str_cmp_flip a : forall b, str_cmp b a = CompOpp (str_cmp a b).
Proof.
  induction a as [|c a IH]; intros [|d b]; simpl; try done.
  rewrite Z.compare_antisym. destruct (byte_val c ?= byte_val d); simpl; auto.
Qed.

Lemma str_cmp_trans a : forall b c, str_cmp a b <> Gt -> str_cmp b c <> Gt -> str_cmp a c <> Gt.
Proof.
  induction a as [|x a IH]; intros [|y b] [|z c]; simpl; try done.
  destruct (Z.compare_spec (byte_val x) (byte_val y)), (Z.compare_spec (byte_val y) (byte_val z)),
    (Z.compare_spec (byte_val x) (byte_val z)); try lia; try done; eauto.
Qed.

(** *** Integers *)

Definition Integer := Z.

#[export, refine] Instance integer_bounds : BoundSpelling Numeric Integer := {
  val_cmp := Z.compare;
  spells v s := in_i128 v = true /\ s = show_Z v
}.
Proof.
  - intros. apply Z.compare_antisym.
  - apply Zcompare_trans_le.
  - intros x y a b [Hx ->] [Hy ->]. unfold in_i128 in *. breflect. unfold stat_cmp_kind, parse_i128.
    by rewrite !parse_show_Z by lia.
Defined.

(** *** Booleans: this crate's [true] and [false], official's [1] and [0] *)

#[export, refine] Instance boolean_bounds : BoundSpelling Boolean bool := {
  val_cmp := bool_cmp;
  spells (v : bool) s := if v then s = lit "true" \/ s = lit "1" else s = lit "false" \/ s = lit "0"
}.
Proof.
  - by intros [] [].
  - by intros [] [] [].
  - intros [] [] a b; cbn; intros [-> | ->] [-> | ->]; reflexivity.
Defined.

(** *** Strings *)

#[export, refine] Instance text_bounds : BoundSpelling Text str := {
  val_cmp := str_cmp;
  spells v s := s = v
}.
Proof.
  - intros. apply str_cmp_flip.
  - intros x y z. apply str_cmp_trans.
  - by intros x y a b -> ->.
Defined.

(** *** Decimals *)

Definition Decimal (scale : Z) := Z.

Lemma parse_digits_from_none s : forall a, ~ digits s -> parse_digits_from a s = None.
Proof.
  induction s as [|c s IH]; intros a H; [by destruct H|]. simpl.
  destruct (is_ascii_digit c) eqn:E; [|done]. apply IH. intros Hs. apply H. by constructor.
Qed.

(** A text with a point in it is no integer. *)
Lemma parse_signed_point lo hi a b : parse_signed lo hi (a ++ "." ++ b) = None.
Proof.
  assert (forall p q, parse_nonempty (p ++ "." ++ q) = None) as Hp.
  { intros p q. unfold parse_nonempty.
    destruct (p ++ "." ++ q) eqn:E; [by destruct p|]. rewrite <- E. apply parse_digits_from_none.
    intros H. apply Forall_app in H as [_ H]. change (lit ".") with ["."%char] in H.
    inversion H. discriminate. }
  unfold parse_signed. pose proof (Hp a b) as Hab. destruct a as [|c a].
  - change ([] ++ lit "." ++ b) with ("."%char :: b) in *.
    change (char_eqb "." "-") with false. change (char_eqb "." "+") with false. by rewrite Hab.
  - cbn [app] in *. rewrite Hab, Hp. by destruct (char_eqb c "-"), (char_eqb c "+").
Qed.

(** The digits of a decimal's text: sign, integer part and [scale] digits after
    the point, which together are the unscaled value. *)
Lemma encode_decimal128_split v scale :
  0 < scale -> Z.abs v <= i128_max ->
  exists int frac, encode_decimal128 v scale = (if v <? 0 then lit "-" else []) ++ int ++ "." ++ frac
    /\ split_fixed_point (encode_decimal128 v scale) = Some (v <? 0, int, frac)
    /\ length frac = Z.to_nat scale
    /\ parse_i128 (int ++ frac) = Some (Z.abs v).
Proof.
  intros Hs Hv. unfold encode_decimal128. rewrite (proj2 (Z.leb_gt scale 0)) by lia.
  set (ds := show_u (Z.abs v)). set (k := Z.to_nat scale).
  assert (digits ds) as Hd by (apply show_u_digits; lia).
  assert (exists int frac, (if (k <? length ds)%nat
      then take (length ds - k) ds ++ "." ++ drop (length ds - k) ds else "0." ++ pad_zeros k ds)
      = int ++ "." ++ frac /\ length frac = k /\ int <> [] /\ digits int /\ digits frac
      /\ parse_digits_from 0 (int ++ frac) = Some (Z.abs v)) as (int & frac & Hb & Hl & Hne & Hi & Hf & Hp).
  { assert (parse_digits_from 0 ds = Some (Z.abs v)) as Hp.
    { pose proof (digits_of_parse (Z.abs v) ltac:(lia)) as H. fold ds in H. unfold parse_nonempty in H.
      destruct ds eqn:E; [by apply show_u_nonempty in E | done]. }
    destruct (k <? length ds)%nat eqn:E.
    - apply Nat.ltb_lt in E. exists (take (length ds - k) ds), (drop (length ds - k) ds).
      split; [done|]. split; [rewrite length_drop; lia|]. split.
      { intros H. apply (f_equal length) in H. rewrite length_take in H. simpl in H. lia. }
      split; [by apply Forall_take|]. split; [by apply Forall_drop|]. by rewrite take_drop.
    - apply Nat.ltb_ge in E. exists [chr 48], (pad_zeros k ds). split; [done|].
      split; [unfold pad_zeros; rewrite length_app, length_replicate; lia|].
      split; [done|]. split; [by repeat constructor|]. split; [by apply Forall_app; split; [apply digits_zeros|]|].
      change ([chr 48] ++ pad_zeros k ds) with (replicate 1 (chr 48) ++ (replicate (k - length ds) (chr 48) ++ ds)).
      rewrite app_assoc, <- replicate_add, parse_digits_from_app, parse_digits_from_zeros.
      done. }
  rewrite Hb. exists int, frac. split; [by destruct (v <? 0)|]. split; [|split; [done|]].
  2:{ apply parse_signed_digits; [by apply Forall_app | by destruct int | done |].
      unfold i128_min, i128_max in *. lia. }
  unfold split_fixed_point.
  assert (exists rest, rest = int ++ "." ++ frac /\
    match strip_prefix "-" (if v <? 0 then lit "-" ++ int ++ "." ++ frac else int ++ "." ++ frac) with
    | Some r => (true, r)
    | None => (false, if v <? 0 then lit "-" ++ int ++ "." ++ frac else int ++ "." ++ frac)
    end = (v <? 0, rest)) as (rest & -> & ->).
  { eexists. split; [reflexivity|]. destruct (v <? 0).
    - by rewrite (proj2 (strip_prefix_spec _ _ (int ++ "." ++ frac))).
    - destruct int as [|c int]; [done|]. inversion Hi as [|? ? Hc ?]; subst.
      change (lit "-") with ["-"%char]. cbn [app strip_prefix]. by rewrite digit_not_char. }
  change (lit ".") with ["."%char]. cbn [app].
  rewrite split_once_char by (by eapply digits_not_in). cbn [default from_option id].
  rewrite bool_decide_false by done. cbn [andb].
  by rewrite (proj2 (digits_forallb int)), (proj2 (digits_forallb frac)).
Qed.

Lemma decimal_cmp scale x y :
  0 < scale -> Z.abs x <= i128_max -> Z.abs y <= i128_max ->
  stat_cmp_kind (encode_decimal128 x scale) (encode_decimal128 y scale) Numeric = (x ?= y).
Proof.
  intros Hs Hx Hy.
  destruct (encode_decimal128_split x scale Hs Hx) as (i & f & Et & Es & El & Ep).
  destruct (encode_decimal128_split y scale Hs Hy) as (i' & f' & Et' & Es' & El' & Ep').
  unfold stat_cmp_kind, parse_i128 at 1. rewrite Et at 1. rewrite app_assoc, parse_signed_point.
  unfold cmp_fixed_point. rewrite Es, Es'. cbn [mbind option_bind].
  unfold pad_zeros_right. rewrite El, El', Nat.max_id, Nat.sub_diag, !app_nil_r, Ep, Ep'.
  cbn. destruct (x <? 0) eqn:E1, (y <? 0) eqn:E2; breflect; f_equal; lia.
Qed.

#[export, refine] Instance decimal_bounds (scale : Z) : BoundSpelling Numeric (Decimal scale) := {
  val_cmp := Z.compare;
  spells v s := 0 < scale /\ Z.abs v <= i128_max /\ s = encode_decimal128 v scale
}.
Proof.
  - intros. apply Z.compare_antisym.
  - apply Zcompare_trans_le.
  - intros x y a b (Hs & Hx & ->) (_ & Hy & ->). by apply decimal_cmp.
Defined.

(** *** Dates, times and timestamps *)

Definition Date := Z.
Definition TimeOfDay (u : Z) (w : nat) := Z.
Definition Timestamp (u : Z) (w : nat) (tz : bool) := Z.

Lemma date_instant_cmp x y :
  - 2 ^ 31 < x < 2 ^ 31 -> - 2 ^ 31 < y < 2 ^ 31 ->
  pair_cmp (date_instant x) (date_instant y) = (x ?= y).
Proof.
  intros Hx Hy. unfold date_instant, pair_cmp, NANOS_PER_DAY, DATE_INFINITY in *.
  repeat case_if; breflect; simpl; try (subst; symmetry; (apply Z.compare_eq_iff || apply Z.compare_lt_iff
    || apply Z.compare_gt_iff); lia).
  destruct (Z.compare_spec x y); subst; [apply Z.compare_refl | apply Z.compare_lt_iff | apply Z.compare_gt_iff]; lia.
Qed.

Lemma nanos_of_pos u w : unit_digits u w -> 0 < 1000000000 / u.
Proof. by destruct 1. Qed.

Lemma timestamp_instant_cmp u w x y :
  unit_digits u w -> i64_min < x <= i64_max -> i64_min < y <= i64_max ->
  pair_cmp (timestamp_instant u x) (timestamp_instant u y) = (x ?= y).
Proof.
  intros Hu Hx Hy. pose proof (nanos_of_pos u w Hu) as Hk.
  unfold timestamp_instant, pair_cmp, nanos_of, TIMESTAMP_INFINITY, i64_max, i64_min in *.
  repeat case_if; breflect; simpl; try (subst; symmetry; (apply Z.compare_eq_iff || apply Z.compare_lt_iff
    || apply Z.compare_gt_iff); lia).
  destruct (Z.compare_spec x y); subst; [apply Z.compare_refl | apply Z.compare_lt_iff | apply Z.compare_gt_iff];
    nia.
Qed.

#[export, refine] Instance date_bounds : BoundSpelling Temporal Date := {
  val_cmp := Z.compare;
  spells v s := - 2 ^ 31 <= v < 2 ^ 31 /\ encode_date32 v = Some s
}.
Proof.
  - intros. apply Z.compare_antisym.
  - apply Zcompare_trans_le.
  - intros x y a b [Hx Ha] [Hy Hb]. unfold stat_cmp_kind.
    rewrite (encode_date_instant x a Hx Ha), (encode_date_instant y b Hy Hb).
    apply date_instant_cmp.
    + destruct (Z.eq_dec x (- 2 ^ 31)) as [->|]; [discriminate|lia].
    + destruct (Z.eq_dec y (- 2 ^ 31)) as [->|]; [discriminate|lia].
Defined.

Lemma encode_timestamp_not_min u tz s : encode_timestamp i64_min u tz <> Some s.
Proof. done. Qed.

#[export, refine] Instance timestamp_bounds (u : Z) (w : nat) (tz : bool)
  : BoundSpelling Temporal (Timestamp u w tz) := {
  val_cmp := Z.compare;
  spells v s := unit_digits u w /\ in_i64 v = true /\ encode_timestamp v u tz = Some s
}.
Proof.
  - intros. apply Z.compare_antisym.
  - apply Zcompare_trans_le.
  - intros x y a b (Hu & Hx & Ha) (_ & Hy & Hb). unfold stat_cmp_kind.
    rewrite (encode_timestamp_instant x u w tz a Hu Hx Ha), (encode_timestamp_instant y u w tz b Hu Hy Hb).
    assert (x <> i64_min) by (intros ->; by eapply encode_timestamp_not_min).
    assert (y <> i64_min) by (intros ->; by eapply encode_timestamp_not_min).
    unfold in_i64 in *. breflect. apply (timestamp_instant_cmp u w); [done|lia..].
Defined.

#[export, refine] Instance time_bounds (u : Z) (w : nat) : BoundSpelling Temporal (TimeOfDay u w) := {
  val_cmp := Z.compare;
  spells v s := unit_digits u w /\ encode_time v u = Some s
}.
Proof.
  - intros. apply Z.compare_antisym.
  - apply Zcompare_trans_le.
  - intros x y a b (Hu & Ha) (_ & Hb). unfold stat_cmp_kind.
    rewrite (encode_time_instant x u w a Hu Ha), (encode_time_instant y u w b Hu Hb).
    pose proof (nanos_of_pos u w Hu). unfold pair_cmp, nanos_of. simpl.
    destruct (Z.compare_spec x y); subst;
      [apply Z.compare_refl | apply Z.compare_lt_iff | apply Z.compare_gt_iff]; nia.
Defined.

(** ** Theorems *)

(** C31. Stored bounds compare as the values they were written from: the texts of
    integers, of decimals of one scale, of dates, of times and of timestamps of
    one unit compare under the column's kind exactly as the values, for every
    value that has a text (years before 1 and past 9999, fractions of any length
    and the infinities included). *)
Theorem stored_bounds_compare_as_values (x y : Z) (a b : str) :
  (in_i128 x = true -> in_i128 y = true -> stat_cmp_kind (show_Z x) (show_Z y) Numeric = (x ?= y))
  /\ (forall scale, 0 < scale -> Z.abs x <= i128_max -> Z.abs y <= i128_max ->
        stat_cmp_kind (encode_decimal128 x scale) (encode_decimal128 y scale) Numeric = (x ?= y))
  /\ (- 2 ^ 31 <= x < 2 ^ 31 -> - 2 ^ 31 <= y < 2 ^ 31 ->
        encode_date32 x = Some a -> encode_date32 y = Some b -> stat_cmp_kind a b Temporal = (x ?= y))
  /\ (forall u w tz, unit_digits u w -> in_i64 x = true -> in_i64 y = true ->
        encode_timestamp x u tz = Some a -> encode_timestamp y u tz = Some b ->
        stat_cmp_kind a b Temporal = (x ?= y))
  /\ (forall u w, unit_digits u w -> encode_time x u = Some a -> encode_time y u = Some b ->
        stat_cmp_kind a b Temporal = (x ?= y)).
Proof.
  split; [|split; [|split; [|split]]].
  - intros Hx Hy. exact (spells_cmp (BoundSpelling := integer_bounds) x y _ _ (conj Hx eq_refl) (conj Hy eq_refl)).
  - intros scale. apply decimal_cmp.
  - intros Hx Hy Ha Hb. exact (spells_cmp (BoundSpelling := date_bounds) x y _ _ (conj Hx Ha) (conj Hy Hb)).
  - intros u w tz Hu Hx Hy Ha Hb.
    exact (spells_cmp (BoundSpelling := timestamp_bounds u w tz) x y _ _ (conj Hu (conj Hx Ha)) (conj Hu (conj Hy Hb))).
  - intros u w Hu Ha Hb. exact (spells_cmp (BoundSpelling := time_bounds u w) x y _ _ (conj Hu Ha) (conj Hu Hb)).
Qed.

(** A date of year 12345 sorts below one of 2024 as text; compared as a bound it
    does not. *)
Lemma stored_bounds_compare_as_values_witness :
  encode_date32 3789696 = Some (lit "12345-11-02") /\ encode_date32 19782 = Some (lit "2024-02-29")
  /\ str_cmp "12345-11-02" "2024-02-29" = Lt
  /\ stat_cmp_kind "12345-11-02" "2024-02-29" Temporal = Gt.
Proof.
  assert (encode_date32 3789696 = Some (lit "12345-11-02")) as H1 by (vm_compute; reflexivity).
  assert (encode_date32 19782 = Some (lit "2024-02-29")) as H2 by (vm_compute; reflexivity).
  assert (- 2 ^ 31 <= 3789696 < 2 ^ 31) as R1 by lia.
  assert (- 2 ^ 31 <= 19782 < 2 ^ 31) as R2 by lia.
  split; [exact H1|]. split; [exact H2|]. split; [reflexivity|].
  exact (proj1 (proj2 (proj2 (stored_bounds_compare_as_values 3789696 19782 "12345-11-02" "2024-02-29")))
    R1 R2 H1 H2).
Defined.
