(* ===== verification/FloatText.v ===== *)
(** * Floating-point statistics texts

    [encode_f64], [encode_f32], [ties_to_even], [format_shortest],
    [format_fixed] and [format_scientific] of [src/src/stats_encode.rs]: a float
    bound is stored in DuckDB's shortest round-trip spelling, rearranged from
    Rust's [{:e}]. A float is a [spec_float], the IEEE data of both widths; Rust's
    formatting and parsing of one width are the class [FloatFormat].

    The theorem: a stored text reads back as the float it was written from, given
    only that [{:e}] does and that parsing looks at the decimal number a text
    denotes, not at its spelling. *)

From S2P Require Import Prelude RustStd StatsOrder.
From Stdlib Require Import SpecFloat QArith Qpower.
#[local] Open Scope Z_scope.

(** ** Rust's floats *)

Class FloatFormat := {
  (** [format!("{v:e}")] and [format!("{v:.800e}")] of a positive finite value *)
  lower_exp : spec_float -> str;
  lower_exp_800 : spec_float -> str;
  (** [str::parse] *)
  parse_float : str -> option spec_float;
}.

Definition is_infinite (v : spec_float) : bool := match v with S754_infinity _ => true | _ => false end.
Definition is_zero (v : spec_float) : bool := match v with S754_zero _ => true | _ => false end.
Definition is_sign_negative (v : spec_float) : bool :=
  match v with S754_zero s | S754_infinity s | S754_finite s _ _ => s | S754_nan => false end.

Definition i32_min : Z := -2147483648.
Definition parse_i32 : str -> option Z := parse_signed i32_min i32_max.

(** ** Encoding *)

Definition not_dot (c : ascii) : bool := negb (char_eqb c ".").

(** The digits of a mantissa, without the point. *)
Definition mantissa_digits (mantissa : str) : str := filter (fun c => not_dot c = true) mantissa.

(** The closure [split] of [ties_to_even]. *)
Definition split_sci (sci : str) : option (str * Z) :=
  '(mantissa, exp) ← split_once "e" sci;
  e ← parse_i32 exp;
  Some (mantissa_digits mantissa, e).

(** A spelling of [digits] whose leading digit has power of ten [exp]. *)
Definition sci_text (digits : str) (exp : Z) : str :=
  match digits with
  | [d] => [d] ++ "e" ++ show_Z exp
  | _ => List.firstn 1 digits ++ "." ++ List.skipn 1 digits ++ "e" ++ show_Z exp
  end.

(** One turn of the loop of [ties_to_even]: the neighbour's spelling, when the value
    is the midpoint. *)
Definition tie_candidate (digits : str) (exp : Z) (exact_digits : str) (exact_exp other midpoint : Z)
  : option str :=
  let midpoint_text := show_Z midpoint in
  let midpoint_exp := exp - Z.of_nat (length digits) + Z.of_nat (length midpoint_text) - 1 in
  if bool_decide (midpoint_text <> exact_digits) || bool_decide (midpoint_exp <> exact_exp) then None
  else
    let other_text := show_Z other in
    let other_exp := exp - Z.of_nat (length digits) + Z.of_nat (length other_text) in
    let trimmed := trim_end_matches (chr 48) other_text in
    match trimmed with
    | [] => None
    | _ => Some (sci_text trimmed other_exp)
    end.

(** The loop of [ties_to_even] over the two neighbours. *)
Fixpoint tie_loop (digits : str) (exp : Z) (exact_digits : str) (exact_exp : Z) (reads_back : str -> bool)
    (neighbours : list (Z * Z)) : option str :=
  match neighbours with
  | [] => None
  | (other, midpoint) :: rest =>
      match tie_candidate digits exp exact_digits exact_exp other midpoint with
      | Some candidate =>
          if reads_back candidate then Some candidate
          else tie_loop digits exp exact_digits exact_exp reads_back rest
      | None => tie_loop digits exp exact_digits exact_exp reads_back rest
      end
  end.

(** [ties_to_even]. *)
Definition ties_to_even (shortest exact : str) (reads_back : str -> bool) : str :=
  match split_sci shortest, split_sci exact with
  | Some (digits, exp), Some (exact_digits, exact_exp) =>
      match parse_u64 digits with
      | None => shortest
      | Some v =>
          if (v mod 2 =? 0) || (18 <? length digits)%nat then shortest
          else
            default shortest
              (tie_loop digits exp (trim_end_matches (chr 48) exact_digits) exact_exp reads_back
                 [(v - 1, v * 10 - 5); (v + 1, v * 10 + 5)])
      end
  | _, _ => shortest
  end.

(** [format_fixed]. *)
Definition format_fixed (digits : str) (exp10 : Z) : str :=
  if 0 <=? exp10 then
    let int_len := Z.to_nat (exp10 + 1) in
    if (length digits <=? int_len)%nat then
      digits ++ replicate (int_len - length digits) (chr 48) ++ ".0"
    else List.firstn int_len digits ++ "." ++ List.skipn int_len digits
  else "0." ++ replicate (Z.to_nat (- exp10 - 1)) (chr 48) ++ digits.

(** [format_scientific]. *)
Definition format_scientific (digits : str) (exp10 : Z) : str :=
  let mantissa :=
    if (length digits =? 1)%nat then digits else List.firstn 1 digits ++ "." ++ List.skipn 1 digits in
  mantissa ++ "e" ++ (if exp10 <? 0 then "-" else "+") ++ pad_zeros 2 (show_Z (Z.abs exp10)).

(** [format_shortest]; [None] where an [expect] would panic. *)
Definition format_shortest (sci : str) (neg : bool) : option str :=
  '(digits, exp10) ← split_sci sci;
  let body := if (-4 <=? exp10) && (exp10 <? 16) then format_fixed digits exp10
              else format_scientific digits exp10 in
  Some (if neg then "-" ++ body else body).

Section encode.
Context (T : FloatFormat).

Definition special (v : spec_float) : option (option str) :=
  if is_nan v then Some None
  else if is_infinite v then Some (Some (if is_sign_negative v then lit "-inf" else lit "inf"))
  else if is_zero v then Some (Some (if is_sign_negative v then lit "-0.0" else lit "0.0"))
  else None.

(** [encode_f64]; no text of [{:e}] makes [format_shortest] panic. *)
Definition encode_f64 (v : spec_float) : option str :=
  match special v with
  | Some text => text
  | None =>
      let sci := ties_to_even (lower_exp (SFabs v)) (lower_exp_800 (SFabs v))
                   (fun text => match parse_float text with Some w => SFeqb w (SFabs v) | None => false end) in
      format_shortest sci (is_sign_negative v)
  end.

(** [encode_f32]. *)
Definition encode_f32 (v : spec_float) : option str :=
  match special v with
  | Some text => text
  | None => format_shortest (lower_exp (SFabs v)) (is_sign_negative v)
  end.
End encode.

(** ** The decimal a text denotes *)

(** [digits[.digits][e[sign]digits]] read as [value * 10 ^ exponent]. *)
Definition decimal (text : str) : option (Z * Z) :=
  let '(mantissa, exp) :=
    match split_once "e" text with
    | Some (mantissa, exp) => (mantissa, parse_i32 exp)
    | None => (text, Some 0)
    end in
  let '(int_part, frac) := default (mantissa, []) (split_once "." mantissa) in
  v ← parse_nonempty (int_part ++ frac);
  e ← exp;
  Some (v, e - Z.of_nat (length frac)).

Definition dec_value (d : Z * Z) : Q := (inject_Z d.1 * Qpower (inject_Z 10) d.2)%Q.

(** Two texts denote the same number. *)
Definition same_decimal (t t' : str) : Prop :=
  exists d d', decimal t = Some d /\ decimal t' = Some d' /\ (dec_value d == dec_value d')%Q.

Lemma dec_value_shift v e k : 0 <= k -> (dec_value ((v * 10 ^ k)%Z, e) == dec_value (v, (e + k)%Z))%Q.
Proof.
  intros Hk. unfold dec_value. cbn [fst snd]. rewrite Qpower_plus by (intros H; discriminate H).
  rewrite inject_Z_mult, Zpower_Qpower by done. ring.
Qed.

Lemma digits_no c s : digits s -> is_ascii_digit c = false -> split_once [c] s = None.
Proof. intros Hs Hc. apply split_once_absent. by apply digits_not_in. Qed.

Lemma digits_parse s : digits s -> s <> [] -> exists v, parse_digits_from 0 s = Some v /\ parse_nonempty s = Some v.
Proof.
  intros Hs Hne. assert (forall a, exists v, parse_digits_from a s = Some v) as H.
  { clear Hne. induction Hs as [|c s Hc _ IH]; intros a; cbn [parse_digits_from]; [eauto|]. rewrite Hc. apply IH. }
  destruct (H 0) as [v Hv]. exists v. split; [done|]. by destruct s.
Qed.

(** A plain [digits.digits] text. *)
Lemma decimal_point int_part frac v :
  digits int_part -> digits frac -> int_part ++ frac <> [] -> parse_digits_from 0 (int_part ++ frac) = Some v ->
  decimal (int_part ++ "." ++ frac) = Some (v, - Z.of_nat (length frac)).
Proof.
  intros Hi Hf Hne Hv. unfold decimal. change (lit ".") with ["."%char]. change (lit "e") with ["e"%char].
  rewrite (split_once_absent "e").
  2:{ rewrite !elem_of_app. intros [H|[H|H]]; [by apply digits_not_in in H| |by apply digits_not_in in H].
      apply list_elem_of_singleton in H. done. }
  cbn [app]. rewrite split_once_char by (by apply digits_not_in). cbn [default from_option id].
  unfold parse_nonempty. destruct (int_part ++ frac) eqn:E; [done|]. rewrite Hv. done.
Qed.

(** A [d[.ddd]e<exp>] text. *)
Lemma decimal_sci (ds exp : str) v e :
  digits ds -> ds <> [] -> parse_digits_from 0 ds = Some v -> parse_i32 exp = Some e ->
  decimal ((if (length ds =? 1)%nat then ds else List.firstn 1 ds ++ "." ++ List.skipn 1 ds) ++ "e" ++ exp)
  = Some (v, e - Z.of_nat (length ds - 1)).
Proof.
  intros Hd Hne Hv He. unfold decimal. change (lit ".") with ["."%char]. change (lit "e") with ["e"%char]. cbn [app].
  destruct ds as [|d ds]; [done|]. apply Forall_cons in Hd as [Hc Hd].
  assert (forall l, l = d :: ds \/ l = d :: "."%char :: ds -> "e"%char ∉ l) as Hnote.
  { intros l Hl. assert ("e"%char <> d) by (intros <-; done).
    destruct Hl as [->| ->]; rewrite !not_elem_of_cons; repeat split; try done; by apply digits_not_in. }
  destruct ds as [|d' ds]; cbn [length Nat.eqb List.firstn List.skipn app].
  - change (d :: "e"%char :: exp) with ([d] ++ "e"%char :: exp). rewrite split_once_char by (apply Hnote; by left).
    rewrite He. rewrite digits_no by (try done; by constructor). cbn [default from_option id app parse_nonempty].
    rewrite Hv. done.
  - change (d :: "."%char :: d' :: (ds ++ "e"%char :: exp)) with ((d :: "."%char :: d' :: ds) ++ "e"%char :: exp).
    rewrite split_once_char by (apply Hnote; by right). rewrite He.
    change (d :: "."%char :: d' :: ds) with ([d] ++ "."%char :: d' :: ds).
    rewrite split_once_char by (apply digits_not_in; [by constructor|done]).
    cbn [default from_option id app parse_nonempty length Nat.sub]. rewrite Hv. done.
Qed.

(** ** Spellings *)

(** The digits and exponent of a [{:e}] text. *)
Definition good_sci (ds : str) (exp : Z) : Prop := digits ds /\ ds <> [] /\ -10000 <= exp <= 10000.

Lemma sci_text_form ds exp :
  ds <> [] ->
  sci_text ds exp
  = (if (length ds =? 1)%nat then ds else List.firstn 1 ds ++ "." ++ List.skipn 1 ds) ++ "e" ++ show_Z exp.
Proof. destruct ds as [|d [|d' ds]]; [done|done|]. intros _. unfold sci_text. cbn. by rewrite <- app_assoc. Qed.

Lemma parse_i32_show e : -20000 <= e <= 20000 -> parse_i32 (show_Z e) = Some e.
Proof. intros H. apply parse_show_Z. unfold i32_min, i32_max. lia. Qed.

Lemma mantissa_digits_id s : digits s -> mantissa_digits s = s.
Proof.
  intros Hs. apply filter_every. intros c Hc. rewrite Forall_forall in Hs. specialize (Hs c Hc). unfold not_dot.
  apply negb_true_iff, char_eqb_neq. intros ->. done.
Qed.

Lemma split_sci_text ds exp :
  digits ds -> ds <> [] -> -20000 <= exp <= 20000 -> split_sci (sci_text ds exp) = Some (ds, exp).
Proof.
  intros Hd Hne He. unfold split_sci. change (lit "e") with ["e"%char].
  assert ("e"%char ∉ ds) as Hnote by (by apply digits_not_in).
  destruct ds as [|d [|d' ds]]; [done|..]; unfold sci_text; change (lit "e") with ["e"%char]; change (lit ".") with ["."%char].
  - cbn [app]. change (d :: "e"%char :: show_Z exp) with ([d] ++ "e"%char :: show_Z exp).
    rewrite split_once_char by done. cbn [mbind option_bind]. rewrite parse_i32_show by done. cbn [mbind option_bind].
    by rewrite mantissa_digits_id.
  - cbn [List.firstn List.skipn app].
    change (d :: "."%char :: d' :: (ds ++ "e"%char :: show_Z exp)) with ((d :: "."%char :: d' :: ds) ++ "e"%char :: show_Z exp).
    rewrite split_once_char by (rewrite !not_elem_of_cons in *; naive_solver).
    cbn [mbind option_bind]. rewrite parse_i32_show by done. cbn [mbind option_bind]. f_equal. f_equal.
    change (d :: "."%char :: d' :: ds) with ([d] ++ ["."%char] ++ d' :: ds). unfold mantissa_digits.
    rewrite !filter_app. change (d :: d' :: ds) with ([d] ++ d' :: ds) in Hd. apply Forall_app in Hd as [Hd1 Hd2].
    fold (mantissa_digits [d]) (mantissa_digits (d' :: ds)).
    rewrite (mantissa_digits_id [d]), (mantissa_digits_id (d' :: ds)) by done. reflexivity.
Qed.

Lemma digits_skipn n s : digits s -> digits (List.skipn n s).
Proof. intros H. rewrite <- (List.firstn_skipn n s) in H. by apply Forall_app in H as [_ H]. Qed.

Lemma digits_firstn n s : digits s -> digits (List.firstn n s).
Proof. intros H. rewrite <- (List.firstn_skipn n s) in H. by apply Forall_app in H as [H _]. Qed.

(** Both layouts denote the number the [{:e}] text does. *)
Lemma format_fixed_decimal ds exp :
  good_sci ds exp -> same_decimal (format_fixed ds exp) (sci_text ds exp).
Proof.
  intros (Hd & Hne & He). destruct (digits_parse ds Hd Hne) as (v & Hv & _).
  assert (decimal (sci_text ds exp) = Some (v, exp - Z.of_nat (length ds - 1))) as Hsci.
  { rewrite sci_text_form by done. apply decimal_sci; [done..|]. apply parse_i32_show. lia. }
  assert (1 <= length ds)%nat as Hlen by (destruct ds; [done|cbn; lia]).
  unfold format_fixed. destruct (Z.leb_spec 0 exp) as [H0|H0].
  - destruct (Nat.leb_spec (length ds) (Z.to_nat (exp + 1))) as [Hl|Hl].
    + set (k := (Z.to_nat (exp + 1) - length ds)%nat). eexists. eexists. split; [|split; [exact Hsci|]].
      * change (lit ".0") with (lit "." ++ [chr 48]). rewrite app_assoc. apply decimal_point.
        -- apply Forall_app. split; [done|apply digits_zeros].
        -- by constructor.
        -- by destruct ds.
        -- change [chr 48] with (replicate 1 (chr 48)). rewrite <- app_assoc, <- replicate_add.
           rewrite parse_digits_from_app, Hv. cbn [mbind option_bind]. apply parse_digits_from_zeros.
      * rewrite dec_value_shift by lia. cbn [length]. replace (- Z.of_nat 1 + Z.of_nat (k + 1)) with (exp - Z.of_nat (length ds - 1)) by lia.
        reflexivity.
    + eexists. eexists. split; [|split; [exact Hsci|]].
      * apply decimal_point; [by apply digits_firstn|by apply digits_skipn| |].
        -- by rewrite List.firstn_skipn.
        -- by rewrite List.firstn_skipn.
      * rewrite List.length_skipn. replace (- Z.of_nat (length ds - Z.to_nat (exp + 1))) with (exp - Z.of_nat (length ds - 1)) by lia.
        reflexivity.
  - eexists. eexists. split; [|split; [exact Hsci|]].
    + change (lit "0.") with ([chr 48] ++ lit "."). rewrite <- app_assoc. apply decimal_point.
      * by constructor.
      * apply Forall_app. split; [apply digits_zeros|done].
      * done.
      * cbn [app]. change (chr 48 :: replicate (Z.to_nat (- exp - 1)) (chr 48) ++ ds)
          with (replicate (S (Z.to_nat (- exp - 1))) (chr 48) ++ ds).
        rewrite parse_digits_from_app, parse_digits_from_zeros. cbn [mbind option_bind]. rewrite Z.mul_0_l. exact Hv.
    + rewrite length_app, length_replicate.
      replace (- Z.of_nat (Z.to_nat (- exp - 1) + length ds)) with (exp - Z.of_nat (length ds - 1)) by lia. reflexivity.
Qed.

Lemma parse_exponent_text exp :
  -10000 <= exp <= 10000 -> parse_i32 ((if exp <? 0 then "-" else "+") ++ pad_zeros 2 (show_Z (Z.abs exp))) = Some exp.
Proof.
  intros He. assert (parse_nonempty (pad_zeros 2 (show_Z (Z.abs exp))) = Some (Z.abs exp)) as Hp.
  { unfold parse_nonempty. destruct (pad_zeros 2 (show_Z (Z.abs exp))) eqn:E; [by apply pad_nonempty in E|].
    rewrite <- E. apply parse_digits_from_pad. lia. }
  unfold parse_i32, parse_signed. destruct (Z.ltb_spec exp 0); change (lit "-") with ["-"%char]; change (lit "+") with ["+"%char];
    cbn [app]; rewrite Hp; cbn [mbind option_bind]; change (char_eqb "-" "-") with true; change (char_eqb "+" "-") with false;
    change (char_eqb "+" "+") with true; cbv iota.
  - rewrite (proj2 (Z.leb_le i32_min _)), (proj2 (Z.leb_le _ i32_max)) by (unfold i32_min, i32_max; lia).
    cbn. f_equal. lia.
  - rewrite (proj2 (Z.leb_le i32_min _)), (proj2 (Z.leb_le _ i32_max)) by (unfold i32_min, i32_max; lia).
    cbn. f_equal. lia.
Qed.

Lemma format_scientific_decimal ds exp :
  good_sci ds exp -> same_decimal (format_scientific ds exp) (sci_text ds exp).
Proof.
  intros (Hd & Hne & He). destruct (digits_parse ds Hd Hne) as (v & Hv & _). eexists. eexists.
  split; [|split; [|reflexivity]].
  - unfold format_scientific. cbv zeta. apply decimal_sci; [done..|]. by apply parse_exponent_text.
  - rewrite sci_text_form by done. apply decimal_sci; [done..|]. apply parse_i32_show. lia.
Qed.

(** ** Ties *)

Lemma digits_trim s : digits s -> digits (trim_end_matches (chr 48) s).
Proof.
  intros H. destruct (trim_end_matches_spec (chr 48) s) as [k Hk]. rewrite Hk in H. by apply Forall_app in H as [H _].
Qed.

Lemma show_Z_pos n : 0 <= n -> show_Z n = show_u n.
Proof. intros H. unfold show_Z. by rewrite (proj2 (Z.ltb_ge n 0)) by lia. Qed.

Lemma length_show_u64 n : 0 <= n < 10 ^ 20 -> (length (show_Z n) <= 20)%nat.
Proof. intros H. rewrite show_Z_pos by lia. unfold show_u. apply digits_of_length; lia. Qed.

(** A neighbour's spelling is one. *)
Lemma tie_candidate_good ds exp ed ee other mid c :
  -1000 <= exp <= 1000 -> (length ds <= 18)%nat -> 0 <= other < 10 ^ 20 ->
  tie_candidate ds exp ed ee other mid = Some c ->
  exists ds' exp', good_sci ds' exp' /\ c = sci_text ds' exp'.
Proof.
  intros He Hl Ho. unfold tie_candidate. case_if; [done|].
  pose proof (length_show_u64 other Ho) as Hlen.
  destruct (trim_end_matches (chr 48) (show_Z other)) as [|d t] eqn:Et; [done|]. intros Hc.
  exists (d :: t), (exp - Z.of_nat (length ds) + Z.of_nat (length (show_Z other))).
  split; [|congruence]. split; [|split; [done|lia]].
  rewrite <- Et. apply digits_trim. rewrite show_Z_pos by lia. apply show_u_digits. lia.
Qed.

Lemma tie_loop_good ds exp ed ee reads_back neighbours c :
  -1000 <= exp <= 1000 -> (length ds <= 18)%nat ->
  Forall (fun n => 0 <= n.1 < 10 ^ 20) neighbours ->
  tie_loop ds exp ed ee reads_back neighbours = Some c ->
  reads_back c = true /\ exists ds' exp', good_sci ds' exp' /\ c = sci_text ds' exp'.
Proof.
  intros He Hl Hn. induction Hn as [|[other mid] rest Ho _ IH]; cbn [tie_loop]; [done|].
  destruct (tie_candidate ds exp ed ee other mid) as [c'|] eqn:Et; [|done].
  destruct (reads_back c') eqn:Er; [|done]. intros [= <-]. split; [done|]. by eapply tie_candidate_good.
Qed.

(** [ties_to_even] keeps the text, or takes another that reads back. *)
Lemma ties_to_even_good ds exp exact reads_back :
  digits ds -> ds <> [] -> -1000 <= exp <= 1000 ->
  let sci := ties_to_even (sci_text ds exp) exact reads_back in
  (sci = sci_text ds exp \/ reads_back sci = true)
  /\ exists ds' exp', good_sci ds' exp' /\ sci = sci_text ds' exp'.
Proof.
  intros Hd Hne He sci.
  assert (exists ds' exp', good_sci ds' exp' /\ sci_text ds exp = sci_text ds' exp') as Hsame.
  { exists ds, exp. split; [|done]. split; [done|]. split; [done|lia]. }
  unfold sci, ties_to_even. rewrite split_sci_text by (try done; lia).
  destruct (split_sci exact) as [[ed ee]|]; [|by split; [left|]].
  destruct (parse_u64 ds) as [v|] eqn:Ev; [|by split; [left|]].
  destruct ((v mod 2 =? 0) || (18 <? length ds)%nat) eqn:Eg; [by split; [left|]|].
  apply orb_false_iff in Eg as [Hodd Hl]. breflect. apply Nat.ltb_ge in Hl.
  apply parse_unsigned_range in Ev. unfold u64_max in Ev.
  destruct (tie_loop _ _ _ _ _ _) as [c|] eqn:Et; cbn [default from_option id]; [|by split; [left|]].
  apply tie_loop_good in Et as [Hr Hg]; [by split; [right|]|done|done|].
  assert (v <> 0) by (intros ->; done).
  repeat constructor; cbn [fst]; change (10 ^ 20) with 100000000000000000000; lia.
Qed.

(** ** Reading back *)

(** What the code relies on of [{:e}] at a value: a normalized text that parses
    to the value. *)
Definition formats (T : FloatFormat) (v : spec_float) : Prop :=
  match v with
  | S754_finite _ _ _ =>
      exists ds exp, digits ds /\ ds <> [] /\ -1000 <= exp <= 1000
        /\ lower_exp (SFabs v) = sci_text ds exp
        /\ parse_float (lower_exp (SFabs v)) = Some (SFabs v)
  | _ => True
  end.

(** What it relies on of parsing: the number denoted decides, a leading minus
    negates, and the texts of the infinities and zeros. *)
Record parses (T : FloatFormat) : Prop := {
  parse_decimal (t t' : str) : same_decimal t t' -> parse_float t = parse_float t';
  parse_minus (t : str) : is_Some (decimal t) -> parse_float ("-" ++ t) = SFopp <$> parse_float t;
  parse_infinity (s : bool) : parse_float (if s then lit "-inf" else lit "inf") = Some (S754_infinity s);
  parse_zero (s : bool) : parse_float (if s then lit "-0.0" else lit "0.0") = Some (S754_zero s)
}.

Lemma format_shortest_reads (T : FloatFormat) ds exp neg w :
  parses T -> good_sci ds exp -> parse_float (sci_text ds exp) = Some w ->
  exists t, format_shortest (sci_text ds exp) neg = Some t
    /\ parse_float t = Some (if neg then SFopp w else w).
Proof.
  intros HT Hg Hw. unfold format_shortest. rewrite split_sci_text by (destruct Hg as (? & ? & ?); try done; lia).
  cbn [mbind option_bind]. eexists. split; [reflexivity|].
  set (body := if (-4 <=? exp) && (exp <? 16) then format_fixed ds exp else format_scientific ds exp).
  assert (same_decimal body (sci_text ds exp)) as Hs.
  { unfold body. destruct ((-4 <=? exp) && (exp <? 16)); [by apply format_fixed_decimal|by apply format_scientific_decimal]. }
  rewrite <- (parse_decimal T HT _ _ Hs) in Hw. destruct neg; [|done].
  rewrite (parse_minus T HT), Hw; [done|]. destruct Hs as (d & _ & -> & _). eauto.
Qed.

(** The sign put back. *)
Lemma abs_signed v : (if is_sign_negative v then SFopp (SFabs v) else SFabs v) = v.
Proof. by destruct v as [[]|[]| |[]]. Qed.

Lemma eqb_finite w s m e : SFeqb w (S754_finite s m e) = true -> w = S754_finite s m e.
Proof.
  unfold SFeqb, SFcompare. destruct w as [[]|[]| |s' m' e']; try (by destruct s).
  destruct s', s; try done; destruct (Z.compare_spec e' e) as [->|?|?]; try done;
    destruct (Pos.compare_cont Eq m' m) eqn:E; cbn; try done;
    intros _; apply Pos.compare_eq in E; by subst.
Qed.

(** ** Theorems *)

(** C32. A stored float bound reads back as the float it was written from. For
    both widths: a NaN, and nothing else, has no text; any other value has one
    (no [expect] panics), and parsing it gives the value back, sign of zero
    included, whichever of DuckDB's two layouts and whichever of two equally short
    spellings was chosen. *)
Theorem float_texts_read_back (T : FloatFormat) (v : spec_float) :
  parses T -> formats T v ->
  (encode_f64 T v = None <-> v = S754_nan)
  /\ (encode_f32 T v = None <-> v = S754_nan)
  /\ (forall text, encode_f64 T v = Some text \/ encode_f32 T v = Some text -> parse_float text = Some v).
Proof.
  intros HT Hv. destruct v as [s|s| |s m e].
  - split; [by destruct s|]. split; [by destruct s|]. intros text. pose proof (parse_zero T HT s) as Hz.
    unfold encode_f64, encode_f32. destruct s; cbn; intros [[= <-]|[= <-]]; exact Hz.
  - split; [by destruct s|]. split; [by destruct s|]. intros text. pose proof (parse_infinity T HT s) as Hz.
    unfold encode_f64, encode_f32. destruct s; cbn; intros [[= <-]|[= <-]]; exact Hz.
  - split; [done|]. split; [done|]. by intros text [[=]|[=]].
  - destruct Hv as (ds & exp & Hd & Hne & He & Hsci & Hback).
    set (v := S754_finite s m e) in *. rewrite Hsci in Hback.
    assert (exists t, encode_f32 T v = Some t /\ parse_float t = Some v) as (t32 & H32 & P32).
    { unfold encode_f32. cbn [special is_nan is_infinite is_zero v]. fold v. rewrite Hsci.
      destruct (format_shortest_reads T ds exp (is_sign_negative v) (SFabs v) HT) as (t & Ht & Hp); [|done|].
      - split; [done|]. split; [done|lia].
      - exists t. by rewrite abs_signed in Hp. }
    assert (exists t, encode_f64 T v = Some t /\ parse_float t = Some v) as (t64 & H64 & P64).
    { unfold encode_f64. cbn [special is_nan is_infinite is_zero v]. fold v. rewrite Hsci.
      destruct (ties_to_even_good ds exp (lower_exp_800 (SFabs v))
        (fun text => match parse_float text with Some w => SFeqb w (SFabs v) | None => false end) Hd Hne He)
        as [Hr (ds' & exp' & Hg & Hs)].
      rewrite Hs in Hr |- *.
      destruct (format_shortest_reads T ds' exp' (is_sign_negative v) (SFabs v) HT Hg) as (t & Ht & Hp).
      - destruct Hr as [->|Hr]; [done|]. destruct (parse_float (sci_text ds' exp')) as [w|]; [|done].
        by apply eqb_finite in Hr as ->.
      - exists t. by rewrite abs_signed in Hp. }
    split; [by rewrite H64|]. split; [by rewrite H32|]. intros text [H|H]; congruence.
Qed.

(** A format that knows one number, for a concrete evaluation: 768223024721377.25,
    whose two shortest spellings tie. *)
Definition tie_number : spec_float := S754_finite false 6145784197771018 (-3).

Definition near_tie (d : Z * Z) : bool :=
  Qeq_bool (dec_value d) (dec_value (7682230247213772, -1))
  || Qeq_bool (dec_value d) (dec_value (7682230247213773, -1)).

Definition one_number : FloatFormat := {|
  lower_exp _ := lit "7.682230247213773e14";
  lower_exp_800 _ := lit "7.6822302472137725000e14";
  parse_float t :=
    if bool_decide (t = lit "inf") then Some (S754_infinity false)
    else if bool_decide (t = lit "-inf") then Some (S754_infinity true)
    else
      let '(neg, body) := match strip_prefix "-" t with Some body => (true, body) | None => (false, t) end in
      d ← decimal body;
      let sign v := if neg then SFopp v else v in
      if Qeq_bool (dec_value d) 0 then Some (sign (S754_zero false))
      else if near_tie d then Some (sign tie_number) else None
|}.

Lemma decimal_minus s : decimal ("-"%char :: s) = None.
Proof.
  unfold decimal. change (lit "e") with ["e"%char]. change (lit ".") with ["."%char].
  cbn [split_once strip_prefix]. change (char_eqb "e" "-") with false. cbv iota.
  destruct (split_once ["e"%char] s) as [[m e]|]; cbn [mbind option_bind split_once strip_prefix];
    change (char_eqb "." "-") with false; cbv iota.
  - by destruct (split_once ["."%char] m) as [[i f]|].
  - by destruct (split_once ["."%char] s) as [[i f]|].
Qed.

(** What [one_number] reads from a text that denotes a decimal. *)
Lemma one_number_parse t d :
  decimal t = Some d ->
  parse_float (FloatFormat := one_number) t
  = (if Qeq_bool (dec_value d) 0 then Some (S754_zero false) else if near_tie d then Some tie_number else None)
  /\ parse_float (FloatFormat := one_number) ("-" ++ t)
  = (if Qeq_bool (dec_value d) 0 then Some (SFopp (S754_zero false))
     else if near_tie d then Some (SFopp tie_number) else None).
Proof.
  intros Hd. cbn [parse_float one_number]. change (lit "-") with ["-"%char]. cbn [app].
  assert (t <> lit "inf") as Hi by (intros ->; discriminate Hd).
  assert (strip_prefix ["-"%char] t = None) as Hs.
  { destruct t as [|c t]; [done|]. cbn. destruct (char_eqb "-" c) eqn:E; [|done].
    apply char_eqb_eq in E. subst c. rewrite decimal_minus in Hd. done. }
  rewrite !(bool_decide_false _ Hi). rewrite (bool_decide_false (t = lit "-inf")) by (intros ->; discriminate Hd).
  rewrite Hs, Hd. split; [done|].
  rewrite bool_decide_false by done.
  rewrite bool_decide_false by (intros [= H]; by apply Hi).
  cbn [strip_prefix]. change (char_eqb "-" "-") with true. cbv iota. rewrite Hd. done.
Qed.

Lemma one_number_parses : parses one_number.
Proof.
  split.
  - intros t t' (d & d' & Hd & Hd' & He). rewrite (proj1 (one_number_parse t d Hd)), (proj1 (one_number_parse t' d' Hd')).
    unfold near_tie. by rewrite !He.
  - intros t [d Hd]. destruct (one_number_parse t d Hd) as [-> ->].
    destruct (Qeq_bool (dec_value d) 0); [done|]. by destruct (near_tie d).
  - intros []; vm_compute; reflexivity.
  - intros []; vm_compute; reflexivity.
Qed.

Lemma float_texts_read_back_witness :
  encode_f64 one_number tie_number = Some (lit "768223024721377.2")
  /\ encode_f32 one_number tie_number = Some (lit "768223024721377.3")
  /\ parse_float (FloatFormat := one_number) "768223024721377.2" = Some tie_number.
Proof.
  assert (encode_f64 one_number tie_number = Some (lit "768223024721377.2")) as H by (vm_compute; reflexivity).
  split; [exact H|]. split; [vm_compute; reflexivity|].
  refine (proj2 (proj2 (float_texts_read_back one_number tie_number one_number_parses _)) _ (or_introl H)).
  exists (lit "7682230247213773"), 14. split; [by apply digits_forallb|]. split; [done|]. split; [lia|].
  split; vm_compute; reflexivity.
Defined.
