(* ===== verification/StatsRollup.v ===== *)
(** * The table-wide statistics roll-up

    [src/src/stats_encode.rs]: [aggregate_global_column_stats] recomputes a
    table's [ducklake_table_column_stats] from its live files, and
    [merge_table_column_stats] with [merge_file_column_stats] and
    [merge_inlined_column_stats] merges a commit's statistics into the stored
    rows. Readers prune with these rows, so a stored bound must bound every row
    of the table. The theorems state it against the rows themselves: a row of the
    roll-up is sound for the data, whatever statistics some files lack. They are
    proved against the interface [BoundSpelling], for every column type that
    implements it. *)

From S2P Require Import Prelude RustStd Calendar StatsOrder.

(** ** Rows of the statistics tables *)

Record FileColumnStat := {
  fc_column_id : Z;
  fc_min_value : option str;
  fc_max_value : option str;
  fc_null_count : option Z;
  fc_contains_nan : option bool;
  fc_value_count : option Z
}.

(** [FileColumnStat::all_null]. *)
Definition all_null (f : FileColumnStat) : bool :=
  bool_decide (is_Some (fc_null_count f)) && bool_decide (fc_value_count f = Some 0).

Record GlobalColumnStat := {
  gc_column_id : Z;
  gc_min_value : option str;
  gc_max_value : option str;
  gc_contains_null : option bool;
  gc_contains_nan : option bool
}.

(** A [BTreeMap]'s entries, and a [HashMap]'s after [sort_by_key], in key order. *)
Definition key_le {A} (a b : Z * A) : Prop := a.1 <= b.1.
#[export] Instance key_le_dec {A} : RelDecision (@key_le A).
Proof. intros a b. unfold key_le. apply _. Defined.
Definition sorted_entries {A} (m : gmap Z A) : list (Z * A) := merge_sort key_le (map_to_list m).

Lemma elem_of_sorted_entries {A} (m : gmap Z A) k v :
  (k, v) ∈ sorted_entries m <-> m !! k = Some v.
Proof. unfold sorted_entries. by rewrite merge_sort_Permutation, elem_of_map_to_list. Qed.

(** ** [aggregate_global_column_stats] *)

(** The local struct [Agg]; its field [kind] is the argument of the steps. *)
Record Agg := {
  ag_min : option str;
  ag_max : option str;
  min_present : Z;
  max_present : Z;
  nullcount_present : Z;
  nan_present : Z;
  has_null : bool;
  has_nan : bool
}.

Definition Agg_new : Agg :=
  {| ag_min := None; ag_max := None; min_present := 0; max_present := 0;
     nullcount_present := 0; nan_present := 0; has_null := false; has_nan := false |}.

(** Keep the current bound unless the new one is past it. *)
Definition keep_min (kind : StatKind) (cur : option str) (mn : str) : str :=
  match cur with
  | Some cur => match stat_cmp_kind cur mn kind with Gt => mn | _ => cur end
  | None => mn
  end.

Definition keep_max (kind : StatKind) (cur : option str) (mx : str) : str :=
  match cur with
  | Some cur => match stat_cmp_kind cur mx kind with Lt => mx | _ => cur end
  | None => mx
  end.

Definition counted {A} (o : option A) : Z := match o with Some _ => 1 | None => 0 end.

(** One row of [per_file]. *)
Definition agg_add (kind : StatKind) (agg : Agg) (f : FileColumnStat) : Agg :=
  {| ag_min := if all_null f then ag_min agg
               else match fc_min_value f with
                    | Some mn => Some (keep_min kind (ag_min agg) mn)
                    | None => ag_min agg
                    end;
     ag_max := if all_null f then ag_max agg
               else match fc_max_value f with
                    | Some mx => Some (keep_max kind (ag_max agg) mx)
                    | None => ag_max agg
                    end;
     min_present := min_present agg + (if all_null f then 1 else counted (fc_min_value f));
     max_present := max_present agg + (if all_null f then 1 else counted (fc_max_value f));
     nullcount_present := nullcount_present agg + counted (fc_null_count f);
     nan_present := nan_present agg + counted (fc_contains_nan f);
     has_null := has_null agg || match fc_null_count f with Some nc => 0 <? nc | None => false end;
     has_nan := has_nan agg || default false (fc_contains_nan f) |}.

Definition then_some {A} (b : bool) (a : A) : option A := if b then Some a else None.

Definition agg_row (live_file_count column_id : Z) (a : Agg) : GlobalColumnStat :=
  {| gc_column_id := column_id;
     gc_min_value := mjoin (then_some (min_present a =? live_file_count) (ag_min a));
     gc_max_value := mjoin (then_some (max_present a =? live_file_count) (ag_max a));
     gc_contains_null := then_some (nullcount_present a =? live_file_count) (has_null a);
     gc_contains_nan := then_some (nan_present a =? live_file_count) (has_nan a) |}.

Definition aggregate_files (kind : Z -> StatKind) (per_file : list FileColumnStat) : gmap Z Agg :=
  foldl (fun aggs f =>
           <[fc_column_id f := agg_add (kind (fc_column_id f))
                                 (default Agg_new (aggs !! fc_column_id f)) f]> aggs)
    ∅ per_file.

Definition aggregate_global_column_stats (per_file : list FileColumnStat) (live_file_count : Z)
    (kind : Z -> StatKind) : list GlobalColumnStat :=
  (fun e => agg_row live_file_count e.1 e.2) <$> sorted_entries (aggregate_files kind per_file).

(** ** [ColumnStats] *)

Record ColumnStats := {
  cs_min_value : option str;
  cs_max_value : option str;
  cs_null_count : option Z;
  cs_num_values : option Z;
  cs_contains_nan : option bool;
  cs_any_valid : bool
}.

Record InlinedColumnStat := {
  ic_column_id : Z;
  ic_any_valid : bool;
  ic_contains_null : bool;
  ic_min_value : option str;
  ic_max_value : option str
}.

Definition from_global (stat : GlobalColumnStat) : ColumnStats :=
  {| cs_min_value := gc_min_value stat;
     cs_max_value := gc_max_value stat;
     cs_null_count := Z.b2z <$> gc_contains_null stat;
     cs_num_values := None;
     cs_contains_nan := gc_contains_nan stat;
     cs_any_valid := bool_decide (is_Some (gc_min_value stat)) || bool_decide (is_Some (gc_max_value stat)) |}.

(** [u64::try_from] of an [i64]. *)
Definition u64_try_from (n : Z) : option Z := if n <? 0 then None else Some n.

Definition from_file (stat : FileColumnStat) : ColumnStats :=
  let null_count := fc_null_count stat ≫= u64_try_from in
  {| cs_min_value := fc_min_value stat;
     cs_max_value := fc_max_value stat;
     cs_null_count := null_count;
     cs_num_values := match fc_value_count stat, null_count with
                      | Some values, Some nulls => (fun v => v + nulls) <$> u64_try_from values
                      | _, _ => None
                      end;
     cs_contains_nan := fc_contains_nan stat;
     cs_any_valid := true |}.

Definition from_inlined (stat : InlinedColumnStat) : ColumnStats :=
  {| cs_min_value := ic_min_value stat;
     cs_max_value := ic_max_value stat;
     cs_null_count := Some (Z.b2z (ic_contains_null stat));
     cs_num_values := None;
     cs_contains_nan := None;
     cs_any_valid := ic_any_valid stat |}.

Definition has_valid (s : ColumnStats) : bool :=
  match cs_num_values s, cs_null_count s with
  | Some values, Some nulls => nulls <? values
  | _, _ => cs_any_valid s
  end.

(** [u64] addition, which wraps in a release build. *)
Definition add_u64 (a b : Z) : Z := (a + b) mod 2 ^ 64.

Definition both {A B} (f : A -> A -> B) (a b : option A) : option B :=
  match a, b with Some a, Some b => Some (f a b) | _, _ => None end.

(** The closure [widen] of [merge]. *)
Definition widen (kind : StatKind) (keep : comparison) (stored value : option str) : option str :=
  both (fun current value => if bool_decide (stat_cmp_kind value current kind = keep)
                             then value else current) stored value.

(** [ColumnStats::merge]. *)
Definition merge (kind : StatKind) (self new : ColumnStats) : ColumnStats :=
  let had_valid := has_valid self in
  let null_count := both add_u64 (cs_null_count self) (cs_null_count new) in
  let num_values := both add_u64 (cs_num_values self) (cs_num_values new) in
  let contains_nan := both orb (cs_contains_nan self) (cs_contains_nan new) in
  let with_bounds min max any_valid :=
    {| cs_min_value := min; cs_max_value := max; cs_null_count := null_count;
       cs_num_values := num_values; cs_contains_nan := contains_nan; cs_any_valid := any_valid |} in
  if negb (has_valid new) then with_bounds (cs_min_value self) (cs_max_value self) (cs_any_valid self)
  else if negb had_valid then with_bounds (cs_min_value new) (cs_max_value new) true
  else with_bounds (widen kind Lt (cs_min_value self) (cs_min_value new))
                   (widen kind Gt (cs_max_value self) (cs_max_value new)) (cs_any_valid self).

Definition has_nul (text : str) : bool := existsb (char_eqb (chr 0)) text.

(** [ColumnStats::to_global]. *)
Definition to_global (s : ColumnStats) (column_id : Z) : GlobalColumnStat :=
  let stored bound := bound ≫= fun text => if has_nul text then None else Some text in
  {| gc_column_id := column_id;
     gc_min_value := stored (cs_min_value s);
     gc_max_value := stored (cs_max_value s);
     gc_contains_null := (fun nulls => 0 <? nulls) <$> cs_null_count s;
     gc_contains_nan := cs_contains_nan s |}.

(** ** Merging a commit *)

(** The locals of [merge_table_column_stats]. *)
Record MergeState := {
  merged : gmap Z ColumnStats;
  added : gset Z;
  touched : gset Z;
  unknown : gset Z
}.

Definition bounds_unknown (stats : ColumnStats) : bool :=
  has_valid stats
  && (bool_decide (cs_min_value stats = None) || bool_decide (cs_max_value stats = None))
  && negb (bool_decide (cs_contains_nan stats = Some true)).

Definition merge_step (kind : Z -> StatKind) (st : MergeState) (entry : Z * ColumnStats) : MergeState :=
  let '(column_id, stats) := entry in
  let touched := {[column_id]} ∪ touched st in
  let unknown := if bounds_unknown stats then {[column_id]} ∪ unknown st else unknown st in
  match merged st !! column_id with
  | Some current =>
      {| merged := <[column_id := merge (kind column_id) current stats]> (merged st);
         added := added st; touched := touched; unknown := unknown |}
  | None =>
      {| merged := <[column_id := stats]> (merged st);
         added := {[column_id]} ∪ added st; touched := touched; unknown := unknown |}
  end.

Definition nul_bound (bound : option str) : bool :=
  match bound with Some text => has_nul text | None => false end.

(** The filters between [merged] and the rows returned. *)
Definition keep_row (initialized : bool) (st : MergeState) (entry : Z * ColumnStats) : bool :=
  let '(column_id, stats) := entry in
  let is_touched := bool_decide (column_id ∈ touched st) in
  (negb initialized || negb (bool_decide (column_id ∈ added st)))
  && negb (bool_decide (column_id ∈ unknown st))
  && (negb is_touched || negb (nul_bound (cs_min_value stats) || nul_bound (cs_max_value stats)))
  && negb (is_touched && has_valid stats
           && bool_decide (cs_min_value stats = None) && bool_decide (cs_max_value stats = None)).

Definition merge_start (existing : list GlobalColumnStat) (initialized : bool) : MergeState :=
  {| merged := if initialized
               then foldl (fun m stat => <[gc_column_id stat := from_global stat]> m) ∅ existing
               else ∅;
     added := ∅; touched := ∅; unknown := ∅ |}.

Definition merge_table_column_stats (existing : list GlobalColumnStat) (initialized : bool)
    (new : list (Z * ColumnStats)) (kind : Z -> StatKind) : list GlobalColumnStat :=
  let st := foldl (merge_step kind) (merge_start existing initialized) new in
  (fun e => to_global e.2 e.1) <$> filter (fun e => keep_row initialized st e = true) (sorted_entries (merged st)).

(** [merge_file_column_stats]. *)
Definition merge_file_column_stats (existing : list GlobalColumnStat) (initialized : bool)
    (files : list (list FileColumnStat)) (live_fields : list Z) (kind : Z -> StatKind)
    : list GlobalColumnStat :=
  let covered : gset Z :=
    list_to_set (fc_column_id <$> concat files)
    ∪ (if initialized then list_to_set (gc_column_id <$> existing) else ∅) in
  let is_unknown id :=
    bool_decide (id ∈ covered) && bool_decide (id ∈ live_fields)
    && existsb (fun file => negb (existsb (fun stat => fc_column_id stat =? id) file)) files in
  let merged := merge_table_column_stats existing initialized
                  ((fun stat => (fc_column_id stat, from_file stat)) <$> concat files) kind in
  filter (fun stat => is_unknown (gc_column_id stat) = false) merged.

(** [merge_inlined_column_stats]. *)
Definition merge_inlined_column_stats (existing : list GlobalColumnStat)
    (inlined : list InlinedColumnStat) (initialized : bool) (kind : Z -> StatKind)
    : list GlobalColumnStat :=
  merge_table_column_stats existing initialized
    ((fun stat => (ic_column_id stat, from_inlined stat)) <$> inlined) kind.

(** ** Gathering the statistics of inlined rows *)

Record LeafStat := {
  lf_kind : StatKind;
  lf_any_valid : bool;
  lf_contains_null : bool;
  lf_min : option str;
  lf_max : option str;
  lf_bounds_known : bool
}.

Definition LeafStat_new (ducklake_type : str) : LeafStat :=
  {| lf_kind := of_ducklake_type ducklake_type; lf_any_valid := false; lf_contains_null := false;
     lf_min := None; lf_max := None; lf_bounds_known := true |}.

(** [LeafStat::add]. *)
Definition LeafStat_add (self : LeafStat) (value : option str) : LeafStat :=
  match value with
  | None =>
      {| lf_kind := lf_kind self; lf_any_valid := true; lf_contains_null := lf_contains_null self;
         lf_min := lf_min self; lf_max := lf_max self; lf_bounds_known := false |}
  | Some text =>
      {| lf_kind := lf_kind self; lf_any_valid := true; lf_contains_null := lf_contains_null self;
         lf_min := match lf_min self with
                   | Some min => match stat_cmp_kind text min (lf_kind self) with Lt => Some text | _ => Some min end
                   | None => Some text
                   end;
         lf_max := match lf_max self with
                   | Some max => match stat_cmp_kind text max (lf_kind self) with Gt => Some text | _ => Some max end
                   | None => Some text
                   end;
         lf_bounds_known := lf_bounds_known self |}
  end.

(** The loop over a leaf field's values in [gather_field]: a NULL (after the
    fill) only sets the flag; any other value is added with its text, if it has
    one. *)
Definition LeafStat_value (self : LeafStat) (value : option (option str)) : LeafStat :=
  match value with
  | None =>
      {| lf_kind := lf_kind self; lf_any_valid := lf_any_valid self; lf_contains_null := true;
         lf_min := lf_min self; lf_max := lf_max self; lf_bounds_known := lf_bounds_known self |}
  | Some text => LeafStat_add self text
  end.

(** [LeafStat::finish]. *)
Definition LeafStat_finish (self : LeafStat) (column_id : Z) : InlinedColumnStat :=
  {| ic_column_id := column_id;
     ic_any_valid := lf_any_valid self;
     ic_contains_null := lf_contains_null self;
     ic_min_value := if lf_bounds_known self then lf_min self else None;
     ic_max_value := if lf_bounds_known self then lf_max self else None |}.

(** ** Soundness *)

Section soundness.
Context {k : StatKind} {V : Type} {B : BoundSpelling k V}.
(** Which values are NaN; a float's bounds leave them out. *)
Variable val_nan : V -> bool.

(** A column's cells over some rows; [None] is NULL. *)
Implicit Types R : list (option V).

Definition val_le (x y : V) : Prop := val_cmp x y <> Gt.

Definition lower (t : option str) R : Prop :=
  forall s, t = Some s -> exists b, spells b s /\ forall x, Some x ∈ R -> val_nan x = false -> val_le b x.

Definition upper (t : option str) R : Prop :=
  forall s, t = Some s -> exists b, spells b s /\ forall x, Some x ∈ R -> val_nan x = false -> val_le x b.

Definition no_valid R : Prop := forall x, Some x ∉ R.
Definition no_nan R : Prop := forall x, Some x ∈ R -> val_nan x = false.
Definition nulls R : Z := Z.of_nat (length (filter (fun c => c = None) R)).
Definition count R : Z := Z.of_nat (length R).

(** A file's statistics row is right about the file's cells. *)
Definition file_sound (f : FileColumnStat) R : Prop :=
  lower (fc_min_value f) R /\ upper (fc_max_value f) R
  /\ (forall n, fc_null_count f = Some n -> n = nulls R)
  /\ (forall n, fc_value_count f = Some n -> n = count R - nulls R)
  /\ (forall b, fc_contains_nan f = Some b -> b = true \/ no_nan R).

(** A stored row is right about the table's cells; one with neither bound, which
    is read as holding no valid value, stands for no valid value; and no stored
    text holds a NUL byte. *)
Definition global_sound (g : GlobalColumnStat) R : Prop :=
  lower (gc_min_value g) R /\ upper (gc_max_value g) R
  /\ (gc_min_value g = None -> gc_max_value g = None -> no_valid R)
  /\ (forall b, gc_contains_null g = Some b -> b = true <-> None ∈ R)
  /\ (gc_contains_nan g = Some false -> no_nan R)
  /\ nul_bound (gc_min_value g) = false /\ nul_bound (gc_max_value g) = false.

(** The statistics while they are merged. *)
Definition stats_sound (s : ColumnStats) R : Prop :=
  lower (cs_min_value s) R /\ upper (cs_max_value s) R
  /\ (cs_any_valid s = false -> no_valid R)
  /\ (is_Some (cs_num_values s) -> cs_any_valid s = true)
  /\ (forall n, cs_null_count s = Some n -> 0 <= n <= count R /\ (0 < n <-> None ∈ R))
  /\ (forall n m, cs_num_values s = Some n -> cs_null_count s = Some m -> n = count R /\ m = nulls R)
  /\ (forall n, cs_num_values s = Some n -> 0 <= n <= count R)
  /\ (cs_contains_nan s = Some false -> no_nan R).

Lemma val_le_trans x y z : val_le x y -> val_le y z -> val_le x z.
Proof. apply val_cmp_trans. Qed.

Lemma val_le_total x y : val_cmp x y = Gt -> val_le y x.
Proof. intros H. unfold val_le. rewrite val_cmp_flip, H. done. Qed.

(** *** Bounds of more rows *)

Lemma lower_app t R R' : lower t R -> lower t R' -> lower t (R ++ R').
Proof.
  intros H H' s Hs. destruct (H s Hs) as (b & Hb & Hl), (H' s Hs) as (b' & Hb' & Hl').
  destruct (val_cmp b b') eqn:E.
  - exists b. split; [done|]. intros x [?|?]%elem_of_app; [by apply Hl|]. intros.
    eapply val_le_trans; [|by apply Hl']. unfold val_le. by rewrite E.
  - exists b. split; [done|]. intros x [?|?]%elem_of_app; [by apply Hl|]. intros.
    eapply val_le_trans; [|by apply Hl']. unfold val_le. by rewrite E.
  - exists b'. split; [done|]. intros x [?|?]%elem_of_app; [|by apply Hl']. intros.
    eapply val_le_trans; [by apply val_le_total|by apply Hl].
Qed.

Lemma upper_app t R R' : upper t R -> upper t R' -> upper t (R ++ R').
Proof.
  intros H H' s Hs. destruct (H s Hs) as (b & Hb & Hl), (H' s Hs) as (b' & Hb' & Hl').
  destruct (val_cmp b' b) eqn:E.
  - exists b. split; [done|]. intros x [?|?]%elem_of_app; [by apply Hl|]. intros.
    eapply val_le_trans; [by apply Hl'|]. unfold val_le. by rewrite E.
  - exists b. split; [done|]. intros x [?|?]%elem_of_app; [by apply Hl|]. intros.
    eapply val_le_trans; [by apply Hl'|]. unfold val_le. by rewrite E.
  - exists b'. split; [done|]. intros x [?|?]%elem_of_app; [|by apply Hl']. intros.
    eapply val_le_trans; [by apply Hl|]. by apply val_le_total.
Qed.

Lemma lower_weaken s s' R b b' :
  spells b s -> spells b' s' -> val_le b' b -> lower (Some s) R -> lower (Some s') R.
Proof.
  intros Hb Hb' Hle H s0 [= <-]. destruct (H s eq_refl) as (c & Hc & Hl). exists b'. split; [done|].
  intros x Hx Hn. eapply val_le_trans; [exact Hle|]. eapply val_le_trans; [|by apply Hl].
  unfold val_le. rewrite <- (spells_cmp b c s s Hb Hc), (spells_cmp b b s s Hb Hb).
  pose proof (val_cmp_flip b b) as E. by destruct (val_cmp b b).
Qed.

Lemma upper_weaken s s' R b b' :
  spells b s -> spells b' s' -> val_le b b' -> upper (Some s) R -> upper (Some s') R.
Proof.
  intros Hb Hb' Hle H s0 [= <-]. destruct (H s eq_refl) as (c & Hc & Hl). exists b'. split; [done|].
  intros x Hx Hn. eapply val_le_trans; [by apply Hl|]. eapply val_le_trans; [|exact Hle].
  unfold val_le. rewrite <- (spells_cmp c b s s Hc Hb), (spells_cmp b b s s Hb Hb).
  pose proof (val_cmp_flip b b) as E. by destruct (val_cmp b b).
Qed.

Lemma lower_app_no_valid t R R' : lower t R -> no_valid R' -> lower t (R ++ R').
Proof.
  intros H Hn. apply lower_app; [done|]. intros s Hs. destruct (H s Hs) as (b & Hb & _).
  exists b. split; [done|]. intros x Hx. by apply Hn in Hx.
Qed.

Lemma upper_app_no_valid t R R' : upper t R -> no_valid R' -> upper t (R ++ R').
Proof.
  intros H Hn. apply upper_app; [done|]. intros s Hs. destruct (H s Hs) as (b & Hb & _).
  exists b. split; [done|]. intros x Hx. by apply Hn in Hx.
Qed.

(** The texts that a comparison of two sound bounds keeps. *)
Lemma lower_pick s s' R R' :
  lower (Some s) R -> lower (Some s') R' ->
  (stat_cmp_kind s s' k <> Gt -> lower (Some s) (R ++ R'))
  /\ (stat_cmp_kind s s' k <> Lt -> lower (Some s') (R ++ R')).
Proof.
  intros H H'. destruct (H s eq_refl) as (b & Hb & _), (H' s' eq_refl) as (b' & Hb' & _).
  rewrite (spells_cmp b b' s s' Hb Hb'). split; intros Hc; apply lower_app; try done.
  - by apply (lower_weaken s' s R' b' b).
  - apply (lower_weaken s s' R b b'); try done. unfold val_le. rewrite val_cmp_flip. by destruct (val_cmp b b').
Qed.

Lemma upper_pick s s' R R' :
  upper (Some s) R -> upper (Some s') R' ->
  (stat_cmp_kind s s' k <> Lt -> upper (Some s) (R ++ R'))
  /\ (stat_cmp_kind s s' k <> Gt -> upper (Some s') (R ++ R')).
Proof.
  intros H H'. destruct (H s eq_refl) as (b & Hb & _), (H' s' eq_refl) as (b' & Hb' & _).
  rewrite (spells_cmp b b' s s' Hb Hb'). split; intros Hc; apply upper_app; try done.
  - apply (upper_weaken s' s R' b' b); try done. unfold val_le. rewrite val_cmp_flip. by destruct (val_cmp b b').
  - by apply (upper_weaken s s' R b b').
Qed.

(** *** Counting cells *)

Lemma nulls_app R R' : nulls (R ++ R') = nulls R + nulls R'.
Proof. unfold nulls. rewrite filter_app, length_app. lia. Qed.

Lemma count_app R R' : count (R ++ R') = count R + count R'.
Proof. unfold count. rewrite length_app. lia. Qed.

Lemma nulls_range R : 0 <= nulls R <= count R.
Proof. unfold nulls, count. pose proof (length_filter (fun c => c = None) R). lia. Qed.

Lemma nulls_pos R : 0 < nulls R <-> None ∈ R.
Proof.
  unfold nulls. split.
  - intros H. destruct (filter (fun c => c = None) R) as [|c l] eqn:E; [simpl in H; lia|].
    assert (c ∈ filter (fun c => c = None) R) as Hc by (rewrite E; constructor).
    apply list_elem_of_filter in Hc as [-> ?]. done.
  - intros H. assert (None ∈ filter (fun c => c = None) R) as Hc by (by apply list_elem_of_filter).
    destruct (filter _ R); [by inversion Hc|]. simpl. lia.
Qed.

Lemma all_nulls R : nulls R = count R -> no_valid R.
Proof.
  unfold nulls, count. induction R as [|[x|] R IH]; intros H y Hy; [by inversion Hy| |].
  - rewrite filter_cons_False in H by done.
    pose proof (length_filter (fun c => c = None) R). simpl in H. lia.
  - rewrite filter_cons_True in H by done. apply elem_of_cons in Hy as [?|Hy]; [done|].
    eapply IH; [|exact Hy]. simpl in H. lia.
Qed.

Lemma no_valid_app R R' : no_valid R -> no_valid R' -> no_valid (R ++ R').
Proof. intros H H' x [?|?]%elem_of_app; [by eapply H | by eapply H']. Qed.

Lemma no_nan_app R R' : no_nan R -> no_nan R' -> no_nan (R ++ R').
Proof. intros H H' x [?|?]%elem_of_app; [by apply H | by apply H']. Qed.

(** *** [ColumnStats] *)

Lemma has_valid_false s R : stats_sound s R -> has_valid s = false -> no_valid R.
Proof.
  intros (_ & _ & Ha & _ & Hn & Hc & _ & _) H. unfold has_valid in H.
  destruct (cs_num_values s) as [n|], (cs_null_count s) as [m|]; auto.
  destruct (Hc n m eq_refl eq_refl) as [-> ->]. breflect.
  apply all_nulls. pose proof (nulls_range R). lia.
Qed.

Lemma from_file_sound f R : file_sound f R -> stats_sound (from_file f) R.
Proof.
  intros (Hl & Hu & Hn & Hv & Hnan). pose proof (nulls_range R) as Hr.
  assert (forall n, (fc_null_count f ≫= u64_try_from) = Some n -> n = nulls R) as Hnc.
  { intros n. destruct (fc_null_count f) as [m|]; simpl; [|done]. unfold u64_try_from.
    case_if; [done|]. intros [= <-]. by apply Hn. }
  assert (forall n, cs_num_values (from_file f) = Some n -> n = count R) as Hnum.
  { intros n. cbn. destruct (fc_value_count f) as [v|]; [|done].
    destruct (_ ≫= u64_try_from) as [m|]; [|done]. unfold u64_try_from. case_if; [done|].
    cbn. intros [= <-]. rewrite (Hv v eq_refl), (Hnc m eq_refl). lia. }
  split; [done|]. split; [done|]. split; [done|]. split; [done|].
  split; [|split; [|split]].
  - intros n ->%Hnc. split; [done|]. apply nulls_pos.
  - intros n m ->%Hnum ->%Hnc. done.
  - intros n ->%Hnum. lia.
  - cbn. intros H. by destruct (Hnan false H).
Qed.

Lemma from_global_sound g R : global_sound g R -> stats_sound (from_global g) R.
Proof.
  intros (Hl & Hu & Hv & Hn & Hnan & _). split; [done|]. split; [done|]. cbn.
  split; [|split; [by intros [? ?]|split; [|split; [done|split; done]]]].
  - destruct (gc_min_value g), (gc_max_value g); try done. intros _. by apply Hv.
  - intros n Hb. destruct (gc_contains_null g) as [b|]; [|done]. injection Hb as <-.
    destruct (Hn b eq_refl) as [H1 H2]. destruct b; cbn.
    + pose proof (nulls_range R). pose proof (proj2 (nulls_pos R) (H1 eq_refl)). split; [lia|].
      split; [auto|lia].
    + unfold count. split; [lia|]. split; [lia|]. intros H. by apply H2 in H.
Qed.

(** Widening two sound bounds. *)
Lemma widen_lower t t' R R' :
  lower t R -> lower t' R' -> lower (widen k Lt t t') (R ++ R').
Proof.
  destruct t as [s|], t' as [s'|]; try (intros _ _ ? ?; discriminate). intros H H'. unfold widen, both.
  destruct (H s eq_refl) as (b & Hb & _), (H' s' eq_refl) as (b' & Hb' & _).
  destruct (lower_pick s s' R R' H H') as [H1 H2].
  rewrite (spells_cmp b b' s s' Hb Hb') in H1, H2. rewrite (spells_cmp b' b s' s Hb' Hb), (val_cmp_flip b b').
  case_bool_decide as E; [apply H2|apply H1]; destruct (val_cmp b b'); done.
Qed.

Lemma widen_upper t t' R R' :
  upper t R -> upper t' R' -> upper (widen k Gt t t') (R ++ R').
Proof.
  destruct t as [s|], t' as [s'|]; try (intros _ _ ? ?; discriminate). intros H H'. unfold widen, both.
  destruct (H s eq_refl) as (b & Hb & _), (H' s' eq_refl) as (b' & Hb' & _).
  destruct (upper_pick s s' R R' H H') as [H1 H2].
  rewrite (spells_cmp b b' s s' Hb Hb') in H1, H2. rewrite (spells_cmp b' b s' s Hb' Hb), (val_cmp_flip b b').
  case_bool_decide as E; [apply H2|apply H1]; destruct (val_cmp b b'); done.
Qed.

Lemma lower_perm t R R' : (forall x, Some x ∈ R' -> Some x ∈ R) -> lower t R -> lower t R'.
Proof. intros HR H s Hs. destruct (H s Hs) as (b & Hb & Hl). exists b. split; [done|]. auto. Qed.

Lemma upper_perm t R R' : (forall x, Some x ∈ R' -> Some x ∈ R) -> upper t R -> upper t R'.
Proof. intros HR H s Hs. destruct (H s Hs) as (b & Hb & Hl). exists b. split; [done|]. auto. Qed.

(** The bounds and the flag a merge leaves. *)
Lemma merge_bounds s new R R' :
  stats_sound s R -> stats_sound new R' ->
  exists mn mx av, merge k s new
    = {| cs_min_value := mn; cs_max_value := mx;
         cs_null_count := both add_u64 (cs_null_count s) (cs_null_count new);
         cs_num_values := both add_u64 (cs_num_values s) (cs_num_values new);
         cs_contains_nan := both orb (cs_contains_nan s) (cs_contains_nan new);
         cs_any_valid := av |}
    /\ lower mn (R ++ R') /\ upper mx (R ++ R')
    /\ (av = false -> no_valid (R ++ R')) /\ (cs_any_valid s = true -> av = true).
Proof.
  intros Hs Hnew. pose proof (has_valid_false s R Hs) as Hnv.
  pose proof (has_valid_false new R' Hnew) as Hnv'.
  destruct Hs as (Hl & Hu & Ha & Hj & _). destruct Hnew as (Hl' & Hu' & _).
  unfold merge. destruct (has_valid new) eqn:En; cbn [negb]; [destruct (has_valid s) eqn:Es; cbn [negb]|].
  - do 3 eexists. split; [reflexivity|]. split; [by apply widen_lower|]. split; [by apply widen_upper|].
    split; [|done]. intros Hav. exfalso. unfold has_valid in Es. rewrite Hav in Es.
    destruct (cs_num_values s) as [n|] eqn:E; [|destruct (cs_null_count s); done].
    rewrite Hj in Hav by eauto. done.
  - do 3 eexists. split; [reflexivity|]. specialize (Hnv eq_refl).
    assert (forall x, Some x ∈ R ++ R' -> Some x ∈ R' ++ R) as Hsw by (intros x; rewrite !elem_of_app; tauto).
    split; [by eapply lower_perm, lower_app_no_valid|]. split; [by eapply upper_perm, upper_app_no_valid|]. done.
  - do 3 eexists. split; [reflexivity|]. specialize (Hnv' eq_refl).
    split; [by apply lower_app_no_valid|]. split; [by apply upper_app_no_valid|].
    split; [|done]. intros Hav. by apply no_valid_app; [apply Ha|].
Qed.

(** Merging keeps the statistics sound for the rows of both sides. *)
Lemma merge_sound s new R R' :
  stats_sound s R -> stats_sound new R' -> count (R ++ R') < 2 ^ 64 ->
  stats_sound (merge k s new) (R ++ R').
Proof.
  intros Hs Hnew Hlt.
  destruct (merge_bounds s new R R' Hs Hnew) as (mn & mx & av & -> & Hmn & Hmx & Hav & Hav').
  destruct Hs as (Hl & Hu & Ha & Hj & Hn & Hc & Hnum & Hnan).
  destruct Hnew as (Hl' & Hu' & Ha' & Hj' & Hn' & Hc' & Hnum' & Hnan').
  rewrite count_app in Hlt.
  assert (forall n, both add_u64 (cs_null_count s) (cs_null_count new) = Some n ->
    exists a b, cs_null_count s = Some a /\ cs_null_count new = Some b /\ n = a + b) as Hnulls.
  { intros n. destruct (cs_null_count s) as [a|], (cs_null_count new) as [b|]; cbn; try done.
    intros [= <-]. exists a, b. repeat split; try done. unfold add_u64. apply Z.mod_small.
    destruct (Hn a eq_refl), (Hn' b eq_refl). lia. }
  assert (forall n, both add_u64 (cs_num_values s) (cs_num_values new) = Some n ->
    exists a b, cs_num_values s = Some a /\ cs_num_values new = Some b /\ n = a + b) as Hnums.
  { intros n. destruct (cs_num_values s) as [a|], (cs_num_values new) as [b|]; cbn; try done.
    intros [= <-]. exists a, b. repeat split; try done. unfold add_u64. apply Z.mod_small.
    pose proof (Hnum a eq_refl). pose proof (Hnum' b eq_refl). lia. }
  unfold stats_sound. cbn. rewrite count_app, nulls_app.
  split; [done|]. split; [done|]. split; [done|]. split; [|split; [|split; [|split]]].
  - intros [n H]. apply Hnums in H as (a & b & Ea & Eb & _). apply Hav'. by apply Hj; eexists.
  - intros n H. apply Hnulls in H as (a & b & Ea & Eb & ->).
    destruct (Hn a Ea) as [? H1], (Hn' b Eb) as [? H2]. split; [lia|].
    rewrite elem_of_app, <- H1, <- H2. lia.
  - intros n m H1 H2. apply Hnums in H1 as (a & b & Ea & Eb & ->).
    apply Hnulls in H2 as (a' & b' & Ea' & Eb' & ->).
    destruct (Hc a a' Ea Ea') as [-> ->], (Hc' b b' Eb Eb') as [-> ->]. done.
  - intros n H. apply Hnums in H as (a & b & Ea & Eb & ->).
    pose proof (Hnum a Ea). pose proof (Hnum' b Eb). lia.
  - destruct (cs_contains_nan s) as [[]|], (cs_contains_nan new) as [[]|]; cbn; try done.
    intros _. by apply no_nan_app; [apply Hnan|apply Hnan'].
Qed.

Lemma to_global_sound s R c :
  stats_sound s R -> nul_bound (cs_min_value s) = false -> nul_bound (cs_max_value s) = false ->
  (cs_min_value s = None -> cs_max_value s = None -> no_valid R) ->
  global_sound (to_global s c) R.
Proof.
  intros (Hl & Hu & _ & _ & Hn & _ & _ & Hnan) Hn1 Hn2 Hv.
  assert (forall t, nul_bound t = false ->
    (t ≫= fun text => if has_nul text then None else Some text) = t) as Ht.
  { intros [t|]; cbn; [by intros -> | done]. }
  unfold to_global. rewrite (Ht _ Hn1), (Ht _ Hn2).
  split; [done|]. split; [done|]. split; [done|]. cbn. split; [|done].
  intros b Hb. destruct (cs_null_count s) as [n|]; [|done]. injection Hb as <-.
  destruct (Hn n eq_refl) as [? <-]. by rewrite Z.ltb_lt.
Qed.

(** *** The fold over the new statistics, column by column *)

Definition entries (c : Z) (new : list (Z * ColumnStats)) : list ColumnStats :=
  omap (fun e => if e.1 =? c then Some e.2 else None) new.

Definition merge_all (kind : StatKind) (o : option ColumnStats) (es : list ColumnStats)
  : option ColumnStats :=
  foldl (fun o s => Some (match o with Some cur => merge kind cur s | None => s end)) o es.

Lemma merge_fold kind c new : forall st,
  let st' := foldl (merge_step kind) st new in
  merged st' !! c = merge_all (kind c) (merged st !! c) (entries c new)
  /\ (c ∈ touched st' <-> c ∈ touched st \/ entries c new <> [])
  /\ (c ∈ added st' <-> c ∈ added st \/ (merged st !! c = None /\ entries c new <> [])).
Proof.
  induction new as [|[id s] new IH]; intros st; cbn zeta; [by cbn; tauto|].
  cbn [foldl]. destruct (IH (merge_step kind st (id, s))) as (H1 & H2 & H3). cbn zeta in *.
  rewrite H1, H2, H3. clear IH H1 H2 H3. cbn [entries omap list_omap fst snd].
  fold (entries c new). destruct (id =? c) eqn:E; breflect.
  - subst id. unfold merge_step. destruct (merged st !! c) as [cur|] eqn:Em; cbn;
      rewrite lookup_insert_eq; split; try done; set_solver.
  - unfold merge_step. destruct (merged st !! id) as [cur|] eqn:Em; cbn;
      rewrite lookup_insert_ne by done; split; try done; set_solver.
Qed.

Lemma start_lookup existing c s :
  foldl (fun m stat => <[gc_column_id stat := from_global stat]> m) (∅ : gmap Z ColumnStats) existing !! c
  = Some s -> exists g, g ∈ existing /\ gc_column_id g = c /\ s = from_global g.
Proof.
  induction existing as [|g existing IH] using rev_ind; [done|].
  rewrite foldl_app. cbn. destruct (decide (gc_column_id g = c)) as [E|E].
  - rewrite E, lookup_insert_eq. intros [= <-]. exists g. split; [set_solver|done].
  - rewrite lookup_insert_ne by done. intros (g' & ? & ? & ?)%IH. exists g'. split; [set_solver|done].
Qed.

Lemma merge_all_sound es Rs : Forall2 stats_sound es Rs -> forall s R,
  stats_sound s R -> count (R ++ concat Rs) < 2 ^ 64 ->
  exists s', merge_all k (Some s) es = Some s' /\ stats_sound s' (R ++ concat Rs).
Proof.
  induction 1 as [|e R' es Rs He _ IH]; intros s R Hs Hlt.
  - exists s. cbn. by rewrite app_nil_r.
  - cbn [concat] in *. rewrite app_assoc in Hlt |- *. apply IH; [|done].
    apply merge_sound; [done|done|]. rewrite count_app in Hlt. unfold count in *. lia.
Qed.

Lemma merge_table_sound existing initialized new kind c R0 Rs g :
  kind c = k ->
  (initialized = true -> forall g0, g0 ∈ existing -> gc_column_id g0 = c -> global_sound g0 R0) ->
  (initialized = false -> R0 = []) ->
  Forall2 stats_sound (entries c new) Rs -> count (R0 ++ concat Rs) < 2 ^ 64 ->
  g ∈ merge_table_column_stats existing initialized new kind -> gc_column_id g = c ->
  global_sound g (R0 ++ concat Rs).
Proof.
  intros Hk Hex Hempty Hnew Hlt Hg Hc. unfold merge_table_column_stats in Hg.
  apply list_elem_of_fmap in Hg as ([c' s] & -> & Hin). cbn in Hc. subst c'.
  apply list_elem_of_filter in Hin as [Hkeep Hin]. apply elem_of_sorted_entries in Hin.
  destruct (merge_fold kind c new (merge_start existing initialized)) as (Hm & Ht & Ha).
  cbn zeta in *. set (st := foldl _ _ new) in *. rewrite Hin in Hm.
  unfold keep_row in Hkeep. apply andb_true_iff in Hkeep as [Hkeep K4].
  apply andb_true_iff in Hkeep as [Hkeep K3]. apply andb_true_iff in Hkeep as [K1 _].
  cbn [touched added merge_start] in Ht, Ha.
  (* the statistics are sound, and untouched ones are a stored row's *)
  assert (stats_sound s (R0 ++ concat Rs)
          /\ (entries c new = [] -> exists g0, s = from_global g0 /\ global_sound g0 (R0 ++ concat Rs)))
    as [Hs Hun].
  { rewrite Hk in Hm. destruct (merged (merge_start existing initialized) !! c) as [s0|] eqn:E0.
    - cbn in E0. destruct initialized; [|done]. apply start_lookup in E0 as (g0 & Hg0 & Hid & ->).
      pose proof (Hex eq_refl g0 Hg0 Hid) as Hg.
      destruct (merge_all_sound _ _ Hnew (from_global g0) R0) as (s' & Hs' & Hsound);
        [by apply from_global_sound|done|].
      rewrite Hs' in Hm. injection Hm as ->. split; [done|]. intros En. rewrite En in *.
      inversion Hnew; subst. cbn in Hs'. injection Hs' as <-. exists g0. cbn. by rewrite app_nil_r.
    - destruct (entries c new) as [|e es] eqn:En; [done|].
      destruct initialized.
      { exfalso. rewrite bool_decide_true in K1; [done|]. apply Ha. by right. }
      rewrite (Hempty eq_refl) in *. cbn [app] in *. inversion Hnew as [|? R' ? Rs' He Hes]; subst.
      destruct (merge_all_sound es Rs' Hes e R' He Hlt) as (s' & Hs' & Hsound).
      cbn in Hm. unfold merge_all in Hs'. rewrite Hs' in Hm. injection Hm as ->. by split. }
  destruct (entries c new) as [|e es] eqn:En.
  - destruct (Hun eq_refl) as (g0 & -> & Hg0). pose proof Hg0 as (_ & _ & Hv & _ & _ & N1 & N2).
    by apply to_global_sound.
  - rewrite bool_decide_true in K3, K4 by (apply Ht; by right). cbn [andb negb orb] in K3, K4.
    apply negb_true_iff, orb_false_iff in K3 as [N1 N2]. apply negb_true_iff in K4. cbn [fst snd].
    apply to_global_sound; [done|done|done|]. intros E1 E2. apply (has_valid_false s _ Hs).
    destruct (has_valid s); [|done]. rewrite E1, E2 in K4. done.
Qed.

(** *** A commit's files *)

Definition column_rows (c : Z) (file : list FileColumnStat) : list FileColumnStat :=
  filter (fun stat => fc_column_id stat = c) file.

Definition column_stats (c : Z) (files : list (list FileColumnStat)) : list ColumnStats :=
  concat (map (fun file => map from_file (column_rows c file)) files).

Definition file_entries (l : list FileColumnStat) : list (Z * ColumnStats) :=
  map (fun stat => (fc_column_id stat, from_file stat)) l.

Lemma entries_concat c files : entries c (file_entries (concat files)) = column_stats c files.
Proof.
  assert (forall l, entries c (file_entries l) = map from_file (column_rows c l)) as H.
  { induction l as [|f l IH]; [done|].
    change (entries c (file_entries (f :: l)))
      with (match (if fc_column_id f =? c then Some (from_file f) else None) with
            | Some y => y :: entries c (file_entries l)
            | None => entries c (file_entries l)
            end). unfold column_rows in *. rewrite filter_cons. destruct (fc_column_id f =? c) eqn:E; breflect.
    - rewrite decide_True by done. cbn. by rewrite <- IH.
    - by rewrite decide_False, IH. }
  rewrite H. unfold column_stats, column_rows.
  induction files as [|file files IH]; [done|]. cbn [concat map].
  by rewrite filter_app, map_app, IH.
Qed.

(** A file of the commit: its cells of the column, of which it records at most
    one statistics row. *)
Definition file_stats_sound (c : Z) (file : list FileColumnStat) R : Prop :=
  (length (column_rows c file) <= 1)%nat
  /\ forall stat, stat ∈ file -> fc_column_id stat = c -> file_sound stat R.

Lemma files_entries_sound c files Rs :
  Forall2 (file_stats_sound c) files Rs ->
  Forall (fun file => existsb (fun stat => fc_column_id stat =? c) file = true) files ->
  Forall2 stats_sound (column_stats c files) Rs.
Proof.
  induction 1 as [|file R files Rs [Hone Hf] _ IH]; [by constructor|].
  intros [Hfile Hrest]%Forall_cons. unfold column_stats. cbn [map concat].
  apply existsb_exists in Hfile as (stat & Hin & Hid). breflect.
  apply list_elem_of_In in Hin.
  assert (stat ∈ column_rows c file) as Hst by (by apply list_elem_of_filter).
  destruct (column_rows c file) as [|s' [|? ?]]; [by inversion Hst| |simpl in Hone; lia].
  apply list_elem_of_singleton in Hst as ->. cbn. constructor; [|by apply IH].
  by apply from_file_sound, Hf.
Qed.

Lemma merge_covered existing initialized files kind g :
  g ∈ merge_table_column_stats existing initialized (file_entries (concat files)) kind ->
  gc_column_id g ∈ (list_to_set (fc_column_id <$> concat files)
    ∪ (if initialized then list_to_set (gc_column_id <$> existing) else ∅) : gset Z).
Proof.
  intros Hg. unfold merge_table_column_stats in Hg.
  apply list_elem_of_fmap in Hg as ([c s] & -> & Hin). cbn.
  apply list_elem_of_filter in Hin as [_ Hin]. apply elem_of_sorted_entries in Hin.
  match type of Hin with merged (foldl _ ?st ?new) !! _ = _ =>
    destruct (merge_fold kind c new st) as (Hm & _) end. cbn zeta in Hm. rewrite Hin in Hm.
  apply elem_of_union. destruct (merged (merge_start existing initialized) !! c) as [s0|] eqn:E0.
  - right. cbn in E0. destruct initialized; [|done]. apply start_lookup in E0 as (g0 & Hg0 & <- & _).
    apply elem_of_list_to_set, list_elem_of_fmap. by exists g0.
  - left. destruct (entries c _) as [|e es] eqn:E; [done|].
    assert (e ∈ entries c (file_entries (concat files))) as He
      by (rewrite E; constructor).
    apply list_elem_of_omap in He as ([id s'] & Hin' & He). cbn in He.
    destruct (id =? c) eqn:Eid; [|done]. breflect. subst id.
    apply list_elem_of_fmap in Hin' as (stat & [= Hid _] & Hstat).
    apply elem_of_list_to_set, list_elem_of_fmap. by exists stat.
Qed.

Lemma merge_file_sound existing initialized files live_fields kind c R0 Rs g :
  kind c = k -> c ∈ live_fields ->
  (initialized = true -> forall g0, g0 ∈ existing -> gc_column_id g0 = c -> global_sound g0 R0) ->
  (initialized = false -> R0 = []) ->
  Forall2 (file_stats_sound c) files Rs -> count (R0 ++ concat Rs) < 2 ^ 64 ->
  g ∈ merge_file_column_stats existing initialized files live_fields kind -> gc_column_id g = c ->
  global_sound g (R0 ++ concat Rs).
Proof.
  intros Hk Hlive Hex Hempty Hfiles Hlt Hg Hc. unfold merge_file_column_stats in Hg.
  apply list_elem_of_filter in Hg as [Hun Hg]. rewrite Hc in Hun.
  pose proof (merge_covered _ _ _ _ _ Hg) as Hcov. rewrite Hc in Hcov.
  rewrite bool_decide_true, bool_decide_true in Hun by done. cbn [andb] in Hun.
  apply existsb_false_iff in Hun.
  eapply merge_table_sound; try done. rewrite entries_concat.
  apply files_entries_sound; [done|]. eapply Forall_impl; [exact Hun|].
  intros file H. by apply negb_false_iff in H.
Qed.

(** *** Recomputing the roll-up from the live files *)

Lemma aggregate_lookup kind c per_file :
  aggregate_files kind per_file !! c
  = match filter (fun f => fc_column_id f = c) per_file with
    | [] => None
    | fs => Some (foldl (agg_add (kind c)) Agg_new fs)
    end.
Proof.
  unfold aggregate_files. induction per_file as [|f per_file IH] using rev_ind; [done|].
  rewrite foldl_app, filter_app. cbn [foldl]. rewrite filter_cons, filter_nil.
  destruct (decide (fc_column_id f = c)) as [E|E].
  - subst c. rewrite lookup_insert_eq, IH.
    destruct (filter _ per_file) as [|f' fs] eqn:Ef; [done|]. cbn [app default from_option id].
    change (f' :: fs ++ [f]) with ((f' :: fs) ++ [f]). by rewrite foldl_app.
  - rewrite lookup_insert_ne, app_nil_r by done. exact IH.
Qed.

(** A live file: its cells and the statistics row it has, if it has one. *)
Definition live_file : Type := list (option V) * option FileColumnStat.
Definition stats_of (files : list live_file) : list FileColumnStat := omap snd files.
Definition cells_of (files : list live_file) : list (option V) := concat (fst <$> files).

Definition contributes (p : FileColumnStat -> bool) (file : live_file) : bool :=
  match file.2 with Some f => p f | None => false end.

Lemma stats_of_cons R o (files : list live_file) :
  stats_of ((R, o) :: files) = match o with Some f => f :: stats_of files | None => stats_of files end.
Proof. done. Qed.

(** A counter that reaches the number of live files was raised by each of them. *)
Lemma counter_full (p : FileColumnStat -> bool) (files : list live_file) :
  Z.of_nat (length (filter (fun f => p f = true) (stats_of files))) = Z.of_nat (length files) ->
  Forall (fun file => contributes p file = true) files.
Proof.
  intros H. apply Nat2Z.inj in H. revert H.
  assert (forall l : list live_file, length (filter (fun f => p f = true) (stats_of l)) <= length l)%nat as Hle.
  { induction l as [|[R [f|]] l IH]; rewrite ?stats_of_cons; cbn [length]; [done| |lia].
    rewrite filter_cons. case_decide; cbn [length]; lia. }
  induction files as [|[R o] files IH]; intros H; [constructor|].
  specialize (Hle files). rewrite stats_of_cons in H. cbn [length] in H. destruct o as [f|]; [|lia].
  rewrite filter_cons in H. case_decide; cbn [length] in H; [|lia]. constructor; [done|]. apply IH. lia.
Qed.

Definition gives_min (f : FileColumnStat) : bool := all_null f || bool_decide (is_Some (fc_min_value f)).
Definition gives_max (f : FileColumnStat) : bool := all_null f || bool_decide (is_Some (fc_max_value f)).
Definition gives_nulls (f : FileColumnStat) : bool := bool_decide (is_Some (fc_null_count f)).
Definition gives_nan (f : FileColumnStat) : bool := bool_decide (is_Some (fc_contains_nan f)).

Lemma agg_counters kind fs :
  let a := foldl (agg_add kind) Agg_new fs in
  min_present a = Z.of_nat (length (filter (fun f => gives_min f = true) fs))
  /\ max_present a = Z.of_nat (length (filter (fun f => gives_max f = true) fs))
  /\ nullcount_present a = Z.of_nat (length (filter (fun f => gives_nulls f = true) fs))
  /\ nan_present a = Z.of_nat (length (filter (fun f => gives_nan f = true) fs)).
Proof.
  cbn zeta. induction fs as [|f fs IH] using rev_ind; [done|].
  rewrite foldl_app. cbn [foldl]. destruct IH as (H1 & H2 & H3 & H4).
  set (a := foldl (agg_add kind) Agg_new fs) in *.
  rewrite !filter_app, !length_app, !Nat2Z.inj_add. unfold agg_add; cbn [min_present max_present nullcount_present nan_present].
  rewrite H1, H2, H3, H4, !filter_cons, !filter_nil. unfold gives_min, gives_max, gives_nulls, gives_nan, counted.
  repeat split; f_equal.
  - destruct (all_null f), (fc_min_value f); done.
  - destruct (all_null f), (fc_max_value f); done.
  - destruct (fc_null_count f); done.
  - destruct (fc_contains_nan f); done.
Qed.

Definition files_sound (files : list live_file) : Prop :=
  forall R f, (R, Some f) ∈ files -> file_sound f R.

Lemma all_null_no_valid f R : file_sound f R -> all_null f = true -> no_valid R.
Proof.
  intros (_ & _ & _ & Hv & _) H. unfold all_null in H. breflect.
  apply all_nulls. specialize (Hv 0 ltac:(done)). lia.
Qed.

Lemma cells_of_snoc files file : cells_of (files ++ [file]) = cells_of files ++ file.1.
Proof. unfold cells_of. rewrite fmap_app, concat_app. cbn. by rewrite app_nil_r. Qed.

Lemma agg_bounds_sound (files : list live_file) :
  files_sound files ->
  let a := foldl (agg_add k) Agg_new (stats_of files) in
  (Forall (fun file => contributes gives_min file = true) files ->
     lower (ag_min a) (cells_of files) /\ (ag_min a = None -> no_valid (cells_of files)))
  /\ (Forall (fun file => contributes gives_max file = true) files ->
     upper (ag_max a) (cells_of files) /\ (ag_max a = None -> no_valid (cells_of files))).
Proof.
  cbn zeta. induction files as [|[R o] files IH] using rev_ind; intros Hsound.
  { split; intros _; (split; [intros ? [=] | intros _ x Hx; by inversion Hx]). }
  assert (files_sound files) as Hs by (intros R' f Hf; apply Hsound; set_solver).
  destruct (IH Hs) as [IH1 IH2]. clear IH Hs.
  unfold stats_of in *. rewrite omap_app, cells_of_snoc. cbn [fst].
  split; intros [Hall Hlast]%Forall_app; rewrite Forall_singleton in Hlast;
    unfold contributes in Hlast; destruct o as [f|]; cbn in Hlast; try discriminate Hlast;
    cbn [omap list_omap snd]; rewrite foldl_app; cbn [foldl]; set (a := foldl (agg_add k) Agg_new _) in *;
    assert (file_sound f R) as Hf by (apply Hsound; set_solver).
  - destruct (IH1 Hall) as [Hl Hn]. clear IH1 IH2. unfold agg_add. cbn [ag_min]. unfold gives_min in Hlast.
    destruct (all_null f) eqn:Ea.
    + pose proof (all_null_no_valid f R Hf Ea) as Hnv. split; [by apply lower_app_no_valid|].
      intros Hnone. by apply no_valid_app; [apply Hn|].
    + destruct (fc_min_value f) as [mn|] eqn:Em; [|done]. split; [|done].
      destruct Hf as (Hfl & _). rewrite Em in Hfl. unfold keep_min.
      destruct (ag_min a) as [cur|] eqn:Ec.
      * destruct (lower_pick cur mn _ R Hl Hfl) as [P1 P2].
        destruct (stat_cmp_kind cur mn k) eqn:E; [apply P1|apply P1|apply P2]; done.
      * eapply lower_perm; [|by apply (lower_app_no_valid _ R (cells_of files)); [|apply Hn]].
        intros x. rewrite !elem_of_app. tauto.
  - destruct (IH2 Hall) as [Hl Hn]. clear IH1 IH2. unfold agg_add. cbn [ag_max]. unfold gives_max in Hlast.
    destruct (all_null f) eqn:Ea.
    + pose proof (all_null_no_valid f R Hf Ea) as Hnv. split; [by apply upper_app_no_valid|].
      intros Hnone. by apply no_valid_app; [apply Hn|].
    + destruct (fc_max_value f) as [mx|] eqn:Em; [|done]. split; [|done].
      destruct Hf as (_ & Hfl & _). rewrite Em in Hfl. unfold keep_max.
      destruct (ag_max a) as [cur|] eqn:Ec.
      * destruct (upper_pick cur mx _ R Hl Hfl) as [P1 P2].
        destruct (stat_cmp_kind cur mx k) eqn:E; [apply P1|apply P2|apply P1]; done.
      * eapply upper_perm; [|by apply (upper_app_no_valid _ R (cells_of files)); [|apply Hn]].
        intros x. rewrite !elem_of_app. tauto.
Qed.

Lemma agg_flags_sound (files : list live_file) :
  files_sound files ->
  let a := foldl (agg_add k) Agg_new (stats_of files) in
  (Forall (fun file => contributes gives_nulls file = true) files ->
     has_null a = true <-> None ∈ cells_of files)
  /\ (Forall (fun file => contributes gives_nan file = true) files ->
     has_nan a = false -> no_nan (cells_of files)).
Proof.
  cbn zeta. induction files as [|[R o] files IH] using rev_ind; intros Hsound.
  { split; intros _; [split; [done|by inversion 1] | intros _ x Hx; by inversion Hx]. }
  assert (files_sound files) as Hs by (intros R' f Hf; apply Hsound; set_solver).
  destruct (IH Hs) as [IH1 IH2]. clear IH Hs.
  unfold stats_of in *. rewrite omap_app, cells_of_snoc. cbn [fst].
  split; intros [Hall Hlast]%Forall_app; rewrite Forall_singleton in Hlast;
    unfold contributes in Hlast; destruct o as [f|]; cbn in Hlast; try discriminate Hlast;
    cbn [omap list_omap snd]; rewrite foldl_app; cbn [foldl]; set (a := foldl (agg_add k) Agg_new _) in *;
    assert (file_sound f R) as (_ & _ & Hn & _ & Hnan) by (apply Hsound; set_solver);
    unfold agg_add; cbn [has_null has_nan].
  - rewrite orb_true_iff, (IH1 Hall), elem_of_app. unfold gives_nulls in Hlast.
    destruct (fc_null_count f) as [n|]; [|done]. rewrite (Hn n eq_refl), Z.ltb_lt, nulls_pos. done.
  - intros [H1 H2]%orb_false_iff. apply no_nan_app; [by apply IH2|].
    unfold gives_nan in Hlast. destruct (fc_contains_nan f) as [b|]; [|done]. cbn in H2. subst b.
    by destruct (Hnan false eq_refl).
Qed.

Lemma aggregate_sound kind c per_file (files : list live_file) g :
  kind c = k -> filter (fun f => fc_column_id f = c) per_file = stats_of files -> files_sound files ->
  g ∈ aggregate_global_column_stats per_file (Z.of_nat (length files)) kind -> gc_column_id g = c ->
  lower (gc_min_value g) (cells_of files) /\ upper (gc_max_value g) (cells_of files)
  /\ (forall b, gc_contains_null g = Some b -> b = true <-> None ∈ cells_of files)
  /\ (gc_contains_nan g = Some false -> no_nan (cells_of files)).
Proof.
  intros Hk Hfilter Hsound Hg Hc. unfold aggregate_global_column_stats in Hg.
  apply list_elem_of_fmap in Hg as ([c' a] & -> & Hin). cbn in Hc. subst c'.
  apply elem_of_sorted_entries in Hin. rewrite aggregate_lookup, Hfilter, Hk in Hin.
  assert (a = foldl (agg_add k) Agg_new (stats_of files)) as -> by (destruct (stats_of files); by simplify_eq).
  clear Hin. destruct (agg_counters k (stats_of files)) as (C1 & C2 & C3 & C4).
  destruct (agg_bounds_sound files Hsound) as [B1 B2], (agg_flags_sound files Hsound) as [F1 F2].
  cbn zeta in *. unfold agg_row, then_some. cbn. rewrite C1, C2, C3, C4.
  split; [|split; [|split]].
  - case_if; [|intros ? [=]]. breflect. by apply B1, counter_full.
  - case_if; [|intros ? [=]]. breflect. by apply B2, counter_full.
  - intros b. case_if; [|done]. breflect. intros [= <-]. by apply F1, counter_full.
  - case_if; [|done]. breflect. intros [= E']. by apply F2; [apply counter_full|].
Qed.

(** *** Rows written inline *)

(** The texts of a column's cells: a NULL has none, a value's text spells it when
    it has one. *)
Definition cell_text (cell : option V) (text : option (option str)) : Prop :=
  match cell, text with
  | None, None => True
  | Some x, Some t => forall s, t = Some s -> spells x s
  | _, _ => False
  end.

Definition leaf_sound (l : LeafStat) R : Prop :=
  lf_kind l = k
  /\ (lf_any_valid l = false -> no_valid R)
  /\ (lf_contains_null l = true <-> None ∈ R)
  /\ (lf_bounds_known l = true ->
        lower (lf_min l) R /\ upper (lf_max l) R
        /\ (lf_min l = None -> no_valid R) /\ (lf_max l = None -> no_valid R)).

Lemma val_le_refl x : val_le x x.
Proof. unfold val_le. pose proof (val_cmp_flip x x) as E. by destruct (val_cmp x x). Qed.

Lemma value_bounds x s : spells x s -> lower (Some s) [Some x] /\ upper (Some s) [Some x].
Proof.
  intros Hs. split; intros ? [= <-]; exists x; (split; [done|]);
    intros y Hy%list_elem_of_singleton; injection Hy as ->; intros _; apply val_le_refl.
Qed.

Lemma leaf_add_sound l R x t :
  leaf_sound l R -> (forall s, t = Some s -> spells x s) ->
  leaf_sound (LeafStat_add l t) (R ++ [Some x]).
Proof.
  intros (Hk & Hv & Hn & Hb) Ht. destruct t as [s|]; cbn [LeafStat_add].
  2:{ split; [done|]. split; [done|]. split; [|done]. cbn. rewrite Hn. set_solver. }
  destruct (value_bounds x s (Ht s eq_refl)) as [Hlx Hux]. rewrite Hk.
  split; [done|]. split; [done|]. split; [cbn; rewrite Hn; set_solver|]. cbn. intros Hknown.
  destruct (Hb Hknown) as (Hl & Hu & Hl0 & Hu0).
  assert (forall y, Some y ∈ R ++ [Some x] -> Some y ∈ [Some x] ++ R) as Hsw
    by (intros y; rewrite !elem_of_app; tauto).
  split; [|split; [|split]].
  - destruct (lf_min l) as [m|] eqn:Em.
    + destruct (lower_pick s m _ _ Hlx Hl) as [P1 P2]. eapply lower_perm; [exact Hsw|].
      destruct (stat_cmp_kind s m k) eqn:E; [apply P2|apply P1|apply P2]; done.
    + eapply lower_perm; [exact Hsw|]. apply lower_app_no_valid; auto.
  - destruct (lf_max l) as [m|] eqn:Em.
    + destruct (upper_pick s m _ _ Hux Hu) as [P1 P2]. eapply upper_perm; [exact Hsw|].
      destruct (stat_cmp_kind s m k) eqn:E; [apply P2|apply P2|apply P1]; done.
    + eapply upper_perm; [exact Hsw|]. apply upper_app_no_valid; auto.
  - destruct (lf_min l); [by destruct (stat_cmp_kind _ _ _)|done].
  - destruct (lf_max l); [by destruct (stat_cmp_kind _ _ _)|done].
Qed.

Lemma leaf_fold_sound cells texts : Forall2 cell_text cells texts -> forall l R,
  leaf_sound l R -> leaf_sound (foldl LeafStat_value l texts) (R ++ cells).
Proof.
  induction 1 as [|cell text cells texts Hc _ IH]; intros l R Hl; [by rewrite app_nil_r|].
  cbn [foldl]. change (cell :: cells) with ([cell] ++ cells). rewrite app_assoc. apply IH.
  destruct cell as [x|], text as [t|]; try done; cbn [LeafStat_value]; [by apply leaf_add_sound|].
  destruct Hl as (Hk & Hv & Hn & Hb). split; [done|]. cbn.
  assert (no_valid [@None V]) as Hnv by (intros y Hy%list_elem_of_singleton; done).
  split; [intros H; by apply no_valid_app; [apply Hv|]|]. split; [set_solver|].
  intros (Hlo & Hu & Hl0 & Hu0)%Hb.
  split; [by apply lower_app_no_valid|]. split; [by apply upper_app_no_valid|].
  split; intros; by apply no_valid_app; auto.
Qed.

Lemma leaf_new_sound ty : of_ducklake_type ty = k -> leaf_sound (LeafStat_new ty) [].
Proof.
  intros Hk. assert (no_valid (@nil (option V))) as Hnv by (intros x Hx; by inversion Hx).
  split; [done|]. split; [done|]. split; [split; [done|by inversion 1]|].
  intros _. split; [intros ? [=]|]. split; [intros ? [=]|]. done.
Qed.

Lemma finish_sound l R c : leaf_sound l R -> stats_sound (from_inlined (LeafStat_finish l c)) R.
Proof.
  intros (Hk & Hv & Hn & Hb). unfold stats_sound. cbn.
  split; [|split; [|split; [done|split; [by intros [? ?]|split; [|split; [done|split; done]]]]]].
  - destruct (lf_bounds_known l); [by destruct (Hb eq_refl) as (? & _)|intros ? [=]].
  - destruct (lf_bounds_known l); [by destruct (Hb eq_refl) as (_ & ? & _)|intros ? [=]].
  - intros n [= <-]. destruct (lf_contains_null l); cbn.
    + pose proof (proj2 (nulls_pos R) (proj1 Hn eq_refl)). pose proof (nulls_range R).
      split; [lia|]. split; [tauto|lia].
    + unfold count. split; [lia|]. split; [lia|]. intros H. by apply Hn in H.
Qed.

Lemma merge_inlined_sound existing initialized inlined kind c ty R0 cells texts g :
  kind c = k -> of_ducklake_type ty = k ->
  (initialized = true -> forall g0, g0 ∈ existing -> gc_column_id g0 = c -> global_sound g0 R0) ->
  (initialized = false -> R0 = []) ->
  Forall2 cell_text cells texts ->
  filter (fun stat => ic_column_id stat = c) inlined
    = [LeafStat_finish (foldl LeafStat_value (LeafStat_new ty) texts) c] ->
  count (R0 ++ cells) < 2 ^ 64 ->
  g ∈ merge_inlined_column_stats existing inlined initialized kind -> gc_column_id g = c ->
  global_sound g (R0 ++ cells).
Proof.
  intros Hk Hty Hex Hempty Htexts Hin Hlt Hg Hc.
  replace (R0 ++ cells) with (R0 ++ concat [cells]) in * by (cbn; by rewrite app_nil_r).
  eapply merge_table_sound; try done.
  assert (forall l, entries c ((fun stat => (ic_column_id stat, from_inlined stat)) <$> l)
    = from_inlined <$> filter (fun stat => ic_column_id stat = c) l) as ->.
  { induction l as [|f l IH]; [done|]. rewrite filter_cons. cbn [fmap list_fmap entries omap list_omap fst snd].
    fold (entries c ((fun stat => (ic_column_id stat, from_inlined stat)) <$> l)).
    destruct (ic_column_id f =? c) eqn:E; breflect; [rewrite decide_True by done|by rewrite decide_False].
    cbn [fmap list_fmap]. by rewrite <- IH. }
  rewrite Hin. constructor; [|constructor]. apply finish_sound.
  apply (leaf_fold_sound cells texts Htexts (LeafStat_new ty) []). by apply leaf_new_sound.
Qed.
End soundness.

(** ** Theorems *)

(** C28. A commit keeps the stored statistics sound: if the stored row of a live
    column is right about the table's rows and every data file's own statistics
    are right about that file, then a row [merge_file_column_stats] stores is
    right about all the rows — its bounds enclose every value that is not NaN,
    its NULL flag is exact, and a row with neither bound stands for no valid
    value — even when some files record no statistics or no bounds. *)
Theorem commit_keeps_rollup_sound {k : StatKind} {V : Type} {B : BoundSpelling k V}
  (val_nan : V -> bool) (existing : list GlobalColumnStat) (initialized : bool)
  (files : list (list FileColumnStat)) (live_fields : list Z) (kind : Z -> StatKind) (c : Z)
  (stored : list (option V)) (written : list (list (option V))) (g : GlobalColumnStat) :
  kind c = k -> c ∈ live_fields ->
  (initialized = true -> forall g0, g0 ∈ existing -> gc_column_id g0 = c -> global_sound val_nan g0 stored) ->
  (initialized = false -> stored = []) ->
  Forall2 (file_stats_sound val_nan c) files written ->
  count (stored ++ concat written) < 2 ^ 64 ->
  g ∈ merge_file_column_stats existing initialized files live_fields kind -> gc_column_id g = c ->
  global_sound val_nan g (stored ++ concat written).
Proof. apply merge_file_sound. Qed.

(** A table of the integers 3 and 9 and two files: one with 10 and a NULL, one
    whose column is all NULL. *)
Definition sample_stored : GlobalColumnStat :=
  {| gc_column_id := 1; gc_min_value := Some (lit "3"); gc_max_value := Some (lit "9");
     gc_contains_null := Some false; gc_contains_nan := None |}.

Definition sample_file : FileColumnStat :=
  {| fc_column_id := 1; fc_min_value := Some (lit "10"); fc_max_value := Some (lit "10");
     fc_null_count := Some 1; fc_contains_nan := None; fc_value_count := Some 1 |}.

Definition sample_nulls : FileColumnStat :=
  {| fc_column_id := 1; fc_min_value := None; fc_max_value := None;
     fc_null_count := Some 1; fc_contains_nan := None; fc_value_count := Some 0 |}.

Definition sample_result : GlobalColumnStat :=
  {| gc_column_id := 1; gc_min_value := Some (lit "3"); gc_max_value := Some (lit "10");
     gc_contains_null := Some true; gc_contains_nan := None |}.

Ltac solve_bound v :=
  let H := fresh in intros ? H; try discriminate H; injection H as <-; exists v;
  (split; [split; reflexivity|]); intros ? H _; revert H; rewrite ?elem_of_cons, ?elem_of_nil;
  intros H; decompose [or] H; simplify_eq; try done; cbn; discriminate.

Lemma commit_keeps_rollup_sound_witness :
  merge_file_column_stats [sample_stored] true [[sample_file]; [sample_nulls]] [1] (fun _ => Numeric)
  = [sample_result]
  /\ global_sound (B := integer_bounds) (fun _ => false) sample_result [Some 3; Some 9; Some 10; None; None].
Proof.
  split; [vm_compute; reflexivity|].
  apply (commit_keeps_rollup_sound (B := integer_bounds) (fun _ => false) [sample_stored] true
           [[sample_file]; [sample_nulls]] [1] (fun _ => Numeric) 1 [Some 3; Some 9]
           [[Some 10; None]; [None]] sample_result).
  - reflexivity.
  - constructor.
  - intros _ g0 Hg0 _. apply list_elem_of_singleton in Hg0 as ->.
    split; [solve_bound 3|]. split; [solve_bound 9|]. split; [done|]. split; [|done].
    intros b [= <-]. split; [done|]. rewrite !elem_of_cons, elem_of_nil. naive_solver.
  - done.
  - repeat apply Forall2_cons_2; try apply Forall2_nil_2.
    + split; [vm_compute; lia|]. intros stat Hs%list_elem_of_singleton _. subst stat.
      split; [solve_bound 10|]. split; [solve_bound 10|].
      split; [by intros n [= <-]|]. split; [by intros n [= <-]|]. done.
    + split; [vm_compute; lia|]. intros stat Hs%list_elem_of_singleton _. subst stat.
      split; [solve_bound 10|]. split; [solve_bound 10|].
      split; [by intros n [= <-]|]. split; [by intros n [= <-]|]. done.
  - vm_compute. reflexivity.
  - vm_compute. constructor.
  - reflexivity.
Defined.

(** Writing rows inline keeps the stored statistics sound: the statistics
    gathered cell by cell over the written rows, merged into a stored row that is
    right about the table, give a row that is right about both, whatever cells
    have no text. *)
Theorem inlined_write_keeps_rollup_sound {k : StatKind} {V : Type} {B : BoundSpelling k V}
  (val_nan : V -> bool) (existing : list GlobalColumnStat) (initialized : bool)
  (inlined : list InlinedColumnStat) (kind : Z -> StatKind) (c : Z) (ty : str)
  (stored cells : list (option V)) (texts : list (option (option str))) (g : GlobalColumnStat) :
  kind c = k -> of_ducklake_type ty = k ->
  (initialized = true -> forall g0, g0 ∈ existing -> gc_column_id g0 = c -> global_sound val_nan g0 stored) ->
  (initialized = false -> stored = []) ->
  Forall2 cell_text cells texts ->
  filter (fun stat => ic_column_id stat = c) inlined
    = [LeafStat_finish (foldl LeafStat_value (LeafStat_new ty) texts) c] ->
  count (stored ++ cells) < 2 ^ 64 ->
  g ∈ merge_inlined_column_stats existing inlined initialized kind -> gc_column_id g = c ->
  global_sound val_nan g (stored ++ cells).
Proof. apply merge_inlined_sound. Qed.

Definition sample_inlined : GlobalColumnStat :=
  {| gc_column_id := 1; gc_min_value := Some (lit "-2"); gc_max_value := Some (lit "9");
     gc_contains_null := Some true; gc_contains_nan := None |}.

Lemma inlined_write_keeps_rollup_sound_witness :
  merge_inlined_column_stats [sample_stored]
    [LeafStat_finish (foldl LeafStat_value (LeafStat_new "BIGINT") [Some (Some (lit "-2")); None]) 1]
    true (fun _ => Numeric) = [sample_inlined]
  /\ global_sound (B := integer_bounds) (fun _ => false) sample_inlined [Some 3; Some 9; Some (-2); None].
Proof.
  split; [vm_compute; reflexivity|].
  apply (inlined_write_keeps_rollup_sound (B := integer_bounds) (fun _ => false) [sample_stored] true
    [LeafStat_finish (foldl LeafStat_value (LeafStat_new "BIGINT") [Some (Some (lit "-2")); None]) 1]
    (fun _ => Numeric) 1 "BIGINT" [Some 3; Some 9] [Some (-2); None]
    [Some (Some (lit "-2")); None] sample_inlined).
  - reflexivity.
  - reflexivity.
  - intros _ g0 Hg0 _. apply list_elem_of_singleton in Hg0 as ->.
    split; [solve_bound 3|]. split; [solve_bound 9|]. split; [done|]. split; [|done].
    intros b [= <-]. split; [done|]. rewrite !elem_of_cons, elem_of_nil. naive_solver.
  - done.
  - apply Forall2_cons_2; [|apply Forall2_cons_2; [done|apply Forall2_nil_2]].
    intros s [= <-]. split; reflexivity.
  - reflexivity.
  - vm_compute. reflexivity.
  - vm_compute. constructor.
  - reflexivity.
Defined.

(** C30. The roll-up recomputed from the live files never claims more than the
    files support: with [files] the live files and the statistics row each has
    for a column (none for some), the recomputed bounds enclose every value of
    every file, a NULL flag is given only when it is exact, and [contains_nan] is
    [false] only when no file holds a NaN. *)
Theorem aggregated_stats_are_sound {k : StatKind} {V : Type} {B : BoundSpelling k V}
  (val_nan : V -> bool) (kind : Z -> StatKind) (c : Z) (per_file : list FileColumnStat)
  (files : list (@live_file V)) (g : GlobalColumnStat) :
  kind c = k ->
  filter (fun f => fc_column_id f = c) per_file = stats_of files ->
  files_sound val_nan files ->
  g ∈ aggregate_global_column_stats per_file (Z.of_nat (length files)) kind -> gc_column_id g = c ->
  lower val_nan (gc_min_value g) (cells_of files) /\ upper val_nan (gc_max_value g) (cells_of files)
  /\ (forall b, gc_contains_null g = Some b -> b = true <-> None ∈ cells_of files)
  /\ (gc_contains_nan g = Some false -> no_nan val_nan (cells_of files)).
Proof. apply aggregate_sound. Qed.

(** Two files with statistics and one without: nothing is claimed. *)
Lemma aggregated_stats_are_sound_witness :
  let files : list (@live_file Integer) :=
    [([Some 10; None], Some sample_file); ([None], Some sample_nulls)] in
  aggregate_global_column_stats [sample_file; sample_nulls] 2 (fun _ => Numeric)
  = [{| gc_column_id := 1; gc_min_value := Some (lit "10"); gc_max_value := Some (lit "10");
        gc_contains_null := Some true; gc_contains_nan := None |}]
  /\ aggregate_global_column_stats [sample_file; sample_nulls] 3 (fun _ => Numeric)
  = [{| gc_column_id := 1; gc_min_value := None; gc_max_value := None;
        gc_contains_null := None; gc_contains_nan := None |}]
  /\ lower (B := integer_bounds) (fun _ => false) (Some (lit "10")) (cells_of files).
Proof.
  intros files. split; [vm_compute; reflexivity|]. split; [vm_compute; reflexivity|].
  apply (aggregated_stats_are_sound (B := integer_bounds) (fun _ => false) (fun _ => Numeric) 1
    [sample_file; sample_nulls] files
    {| gc_column_id := 1; gc_min_value := Some (lit "10"); gc_max_value := Some (lit "10");
       gc_contains_null := Some true; gc_contains_nan := None |}).
  - reflexivity.
  - reflexivity.
  - intros R f Hf. apply elem_of_cons in Hf as [[= -> ->]|Hf%list_elem_of_singleton];
      [|injection Hf as -> ->].
    + split; [solve_bound 10|]. split; [solve_bound 10|].
      split; [by intros n [= <-]|]. split; [by intros n [= <-]|]. done.
    + split; [solve_bound 10|]. split; [solve_bound 10|].
      split; [by intros n [= <-]|]. split; [by intros n [= <-]|]. done.
  - vm_compute. constructor.
  - reflexivity.
Defined.
