(* ===== verification/Partition.v ===== *)
(** * Partition transforms, specs and Hive paths

    [src/src/partition.rs] without the splitting of batches (see
    [PartitionSplit]): [PartitionTransform] and its catalog text, the spec a
    table's catalog rows give, its resolution against the columns of a write, the
    Hive directory a file is placed under, and the calendar parts the temporal
    transforms compute.

    The theorems: the catalog text of every transform parses back; a write spec
    resolves exactly when every key is producible and present, each key to the
    first column with its id; a Hive path has one component per key and none of
    them can climb out of the table directory; and a file's [year] partition
    value encloses every row written under it. *)

From S2P Require Import Prelude RustStd Arrow Calendar.

(** ** [PartitionTransform] *)

Inductive PartitionTransform :=
| Identity
| Year
| Month
| Day
| Hour
| Bucket (n : Z)
| Unknown (s : str).

#[export] Instance PartitionTransform_eq_dec : EqDecision PartitionTransform.
Proof. solve_decision. Defined.

(** [PartitionTransform::parse]. *)
Definition parse_transform (transform : str) : PartitionTransform :=
  let trimmed := trim transform in
  let lower := to_ascii_lowercase trimmed in
  if str_eqb lower "identity" then Identity
  else if str_eqb lower "year" then Year
  else if str_eqb lower "month" then Month
  else if str_eqb lower "day" then Day
  else if str_eqb lower "hour" then Hour
  else
    match match strip_prefix "bucket(" trimmed with
          | Some rest => Some rest
          | None => strip_prefix "BUCKET(" trimmed
          end with
    | Some rest =>
        match strip_suffix ")" rest with
        | Some inner =>
            match parse_u32 (trim inner) with
            | Some n => Bucket n
            | None => Unknown trimmed
            end
        | None => Unknown trimmed
        end
    | None => Unknown trimmed
    end.

(** [PartitionTransform::to_catalog_string]. *)
Definition to_catalog_string (t : PartitionTransform) : str :=
  match t with
  | Identity => "identity"
  | Year => "year"
  | Month => "month"
  | Day => "day"
  | Hour => "hour"
  | Bucket n => "bucket(" ++ show_u n ++ ")"
  | Unknown s => s
  end.

(** [PartitionTransform::is_producible]. *)
Definition is_producible (t : PartitionTransform) : bool :=
  match t with
  | Identity | Year | Month | Day | Hour => true
  | Bucket _ | Unknown _ => false
  end.

(** ** Specs *)

Record PartitionSpecColumn := {
  partition_key_index : Z;
  sc_column_id : Z;
  sc_transform : PartitionTransform
}.

Record PartitionSpec := {
  ps_partition_id : Z;
  ps_columns : list PartitionSpecColumn;
  prune_safe : bool
}.

(** [PartitionSpec::transform_for_column]. *)
Definition transform_for_column (spec : PartitionSpec) (column_id : Z) : option PartitionTransform :=
  sc_transform <$> find_first (fun c => sc_column_id c =? column_id) (ps_columns spec).

(** [PartitionSpec::from_rows]. *)
Definition from_rows (rows : list (Z * Z * Z * str)) (prune_safe : bool) : option PartitionSpec :=
  match rows with
  | [] => None
  | (partition_id, _, _, _) :: _ =>
      Some {| ps_partition_id := partition_id;
              ps_columns := (fun '(_, key_index, column_id, transform) =>
                {| partition_key_index := key_index; sc_column_id := column_id;
                   sc_transform := parse_transform transform |}) <$> rows;
              prune_safe := prune_safe |}
  end.

Record PartitionWriteKey := {
  input_index : nat;
  wk_name : str;
  wk_transform : PartitionTransform
}.

Record PartitionWriteSpec := {
  pw_partition_id : Z;
  pw_keys : list PartitionWriteKey
}.

(** One column of [PartitionWriteSpec::resolve]; a write schema is the names of
    its fields here. *)
Definition resolve_key (column_ids : list Z) (fields : list str) (column : PartitionSpecColumn)
  : result PartitionWriteKey :=
  if negb (is_producible (sc_transform column)) then
    Err (Unsupported ("writing to a table partitioned by '" ++ to_catalog_string (sc_transform column)
                        ++ "' is not supported"))
  else
    let? index := ok_or (position (fun id => id =? sc_column_id column) column_ids)
      (Internal ("partition column_id " ++ show_Z (sc_column_id column) ++ " not found in table schema")) in
    let? name := ok_or (fields !! index)
      (Internal ("partition column index " ++ show_nat index ++ " out of range for write schema")) in
    Ok {| input_index := index; wk_name := name; wk_transform := sc_transform column |}.

(** [PartitionWriteSpec::resolve]. *)
Definition resolve_write_spec (spec : PartitionSpec) (column_ids : list Z) (fields : list str)
  : result PartitionWriteSpec :=
  let? keys := mapM_result (resolve_key column_ids fields) (ps_columns spec) in
  Ok {| pw_partition_id := ps_partition_id spec; pw_keys := keys |}.

(** ** Hive paths *)

Definition key_prefix (column : str) (transform : PartitionTransform) : str :=
  match transform with
  | Identity => column
  | Year => "year"
  | Month => "month"
  | Day => "day"
  | Hour => "hour"
  | Bucket _ => "bucket"
  | Unknown transform => transform
  end.

(** [hive_key_names]: the closure over [used]. *)
Fixpoint hive_names (used : list str) (keys : list (str * PartitionTransform)) : list str :=
  match keys with
  | [] => []
  | (column, transform) :: keys' =>
      let prefix := key_prefix column transform in
      let name := if existsb (fun u => eq_ignore_ascii_case u prefix) used
                  then prefix ++ "_" ++ column else prefix in
      name :: hive_names (used ++ [name]) keys'
  end.

Definition hive_key_names (keys : list (str * PartitionTransform)) : list str := hive_names [] keys.

(** [PartitionWriteSpec::key_names]. *)
Definition key_names (spec : PartitionWriteSpec) : list str :=
  hive_key_names ((fun k => (wk_name k, wk_transform k)) <$> pw_keys spec).

(** [sanitize_partition_path] maps characters; each character that is not ASCII
    becomes one underscore, so its continuation bytes are dropped. *)
Definition is_continuation_byte (c : ascii) : bool := (128 <=? byte_val c) && (byte_val c <=? 191).

Definition path_safe (c : ascii) : bool :=
  is_ascii_alphanumeric c || char_eqb c "-" || char_eqb c "_" || char_eqb c "." || char_eqb c ":".

Definition sanitize_partition_path (value : str) : str :=
  (fun c => if path_safe c then c else "_"%char) <$> filter (fun c => is_continuation_byte c = false) value.

(** [hive_subpath]: the loop over the values from key [i] on. *)
Fixpoint hive_from (key_names : list str) (i : nat) (rel : str) (values : list (option str)) : str :=
  match values with
  | [] => rel
  | value :: values' =>
      let name := default (lit "key") (key_names !! i) in
      let encoded := match value with
                     | Some v => sanitize_partition_path v
                     | None => "__HIVE_DEFAULT_PARTITION__"
                     end in
      let rel' := match rel with
                  | [] => name ++ "=" ++ encoded
                  | _ => rel ++ "/" ++ name ++ "=" ++ encoded
                  end in
      hive_from key_names (S i) rel' values'
  end.

Definition hive_subpath (key_names : list str) (values : list (option str)) : str :=
  hive_from key_names 0 [] values.

(** ** Calendar parts *)

(** The units of a time unit in an hour. *)
Definition per_hour (unit : TimeUnit) : Z :=
  match unit with
  | Second => 3600
  | Millisecond => 3600000
  | Microsecond => 3600000000
  | Nanosecond => 3600000000000
  end.

(** The [(days, hour)] of a date or timestamp; [None] for NULL and the
    infinities. *)
Definition date_instant_parts (days : option Z) : option (Z * Z) :=
  d ← days;
  if (d =? i32_max) || (d =? - i32_max) then None else Some (d, 0).

Definition timestamp_instant_parts (unit : TimeUnit) (value : option Z) : option (Z * Z) :=
  v ← value;
  if (v =? i64_max) || (v =? - i64_max) then None
  else let hours := v / per_hour unit in Some (hours / 24, hours mod 24).

(** The part of one instant. *)
Definition calendar_part (transform : PartitionTransform) (zoned : bool) (instant : Z * Z) : Z :=
  let '(days, hour) := instant in
  let '(year, month, day) := civil_from_days days in
  match transform with
  | Year => if zoned && (year <=? 0) then 1 - year else year
  | Month => month
  | Day => day
  | _ => hour
  end.

(** The instants of an array of the given type. *)
Definition array_instants (data_type : DataType) (values : list (option Z))
  : option (list (option (Z * Z))) :=
  match data_type with
  | Date32 => Some (map date_instant_parts values)
  | Timestamp unit _ => Some (map (timestamp_instant_parts unit) values)
  | _ => None
  end.

(** [calendar_parts], on the values of an array of the given type. *)
Definition calendar_parts (transform : PartitionTransform) (data_type : DataType)
    (values : list (option Z)) : option (list (option Z)) :=
  match transform with
  | Year | Month | Day | Hour =>
      let zoned := match data_type with Timestamp _ (Some _) => true | _ => false end in
      instants ← array_instants data_type values;
      Some (map (option_map (calendar_part transform zoned)) instants)
  | _ => None
  end.

(** [year_bounds], over Arrow's [ScalarValue::try_from_string]. [year + 1] wraps
    in a release build. *)
Definition wrap_i64 (z : Z) : Z := (z + 2 ^ 63) mod 2 ^ 64 - 2 ^ 63.

Section year_bounds.
Context {ScalarValue : Type}.
Variable try_from_string : str -> DataType -> option ScalarValue.

Definition year_bounds (year : Z) (data_type : DataType) : option (ScalarValue * ScalarValue) :=
  let envelope (suffix : str) :=
    lo ← try_from_string (show_Z year ++ suffix) data_type;
    hi ← try_from_string (show_Z (wrap_i64 (year + 1)) ++ suffix) data_type;
    Some (lo, hi) in
  match data_type with
  | Date32 | Date64 => envelope "-01-01"
  | Timestamp _ None => envelope "-01-01 00:00:00"
  | Int8 | Int16 | Int32 | Int64 | UInt8 | UInt16 | UInt32 | UInt64 =>
      scalar ← try_from_string (show_Z year) data_type; Some (scalar, scalar)
  | _ => None
  end.
End year_bounds.

(** ** Catalog text *)

Lemma strip_suffix_snoc s c : strip_suffix [c] (s ++ [c]) = Some s.
Proof. by apply strip_suffix_spec. Qed.

Lemma parse_bucket n : 0 <= n <= u32_max -> parse_transform ("bucket(" ++ show_u n ++ ")") = Bucket n.
Proof.
  intros Hn. assert (digits (show_u n)) as Hd by (apply show_u_digits; lia).
  assert (Forall (fun c => plain_char c = true) (show_u n)) as Hp
    by (eapply Forall_impl; [exact Hd|apply digit_plain]).
  unfold parse_transform. rewrite trim_plain_all.
  2:{ change (lit ")") with [")"%char]. rewrite !Forall_app, Forall_singleton.
      split; [by repeat constructor|]. done. }
  assert (forall w, (length (lit w) < 9)%nat ->
    str_eqb (to_ascii_lowercase ("bucket(" ++ show_u n ++ ")")) w = false) as Hne.
  { intros w Hl. apply bool_decide_eq_false. intros H.
    apply (f_equal length) in H. unfold to_ascii_lowercase in H.
    rewrite length_fmap, !length_app in H. change (length (lit "bucket(")) with 7%nat in H.
    change (length (lit ")")) with 1%nat in H. destruct (show_u n) eqn:E; [by apply show_u_nonempty in E|].
    simpl in H. lia. }
  rewrite !Hne by (vm_compute; lia).
  rewrite (proj2 (strip_prefix_spec _ _ (show_u n ++ ")"))) by done.
  change (lit ")") with [")"%char]. rewrite strip_suffix_snoc, trim_plain_all by done.
  unfold parse_u32. by rewrite parse_show_u.
Qed.

(** The cases of [parse_transform]. *)
Lemma parse_transform_cases x :
  is_producible (parse_transform x) = true
  \/ (exists n, parse_transform x = Bucket n /\ 0 <= n <= u32_max)
  \/ parse_transform x = Unknown (trim x).
Proof.
  unfold parse_transform. repeat case_if; auto.
  destruct (match strip_prefix "bucket(" _ with Some rest => _ | None => _ end) as [rest|]; [|auto].
  destruct (strip_suffix ")" rest) as [inner|]; [|auto].
  destruct (parse_u32 (trim inner)) as [n|] eqn:En; [|auto].
  right. left. exists n. split; [done|]. by apply parse_unsigned_range in En.
Qed.

Lemma parse_transform_trim x : parse_transform (trim x) = parse_transform x.
Proof. unfold parse_transform. by rewrite trim_idem. Qed.

(** ** Hive paths *)

(** One directory of a Hive path. *)
Definition hive_component (key_names : list str) (i : nat) (value : option str) : str :=
  default (lit "key") (key_names !! i) ++ "="
  ++ match value with Some v => sanitize_partition_path v | None => "__HIVE_DEFAULT_PARTITION__" end.

Definition is_slash (c : ascii) : bool := char_eqb c "/".

Lemma hive_component_nonempty names i v : hive_component names i v <> [].
Proof.
  unfold hive_component. intros H. apply (f_equal length) in H. rewrite !length_app in H.
  change (length (lit "=")) with 1%nat in H. simpl in H. lia.
Qed.

Lemma hive_from_join names values : forall i rel comps,
  rel = join "/" comps -> (comps = [] <-> rel = []) ->
  hive_from names i rel values
  = join "/" (comps ++ imap (fun j v => hive_component names (i + j) v) values).
Proof.
  induction values as [|v values IH]; intros i rel comps Hrel Hne; cbn [hive_from imap].
  { by rewrite app_nil_r. }
  rewrite (IH (S i) _ (comps ++ [hive_component names i v])).
  - f_equal. rewrite <- app_assoc. f_equal. rewrite Nat.add_0_r. cbn [app]. f_equal.
    apply imap_ext. intros j x _. cbn. f_equal. lia.
  - destruct rel as [|c rel'] eqn:Er.
    + rewrite (proj2 Hne eq_refl). cbn [app join]. done.
    + rewrite join_snoc by (intros ->; by destruct Hne as [H _]; specialize (H eq_refl)). by rewrite <- Hrel.
  - split; [intros []%app_nil; done|]. intros H. exfalso. destruct rel.
    + apply (hive_component_nonempty names i v). exact H.
    + discriminate H.
Qed.

Lemma hive_subpath_join names values :
  hive_subpath names values = join "/" (imap (hive_component names) values).
Proof. apply (hive_from_join names values 0 [] []); done. Qed.

Lemma sanitize_safe v : Forall (fun c => path_safe c = true) (sanitize_partition_path v).
Proof.
  unfold sanitize_partition_path. apply Forall_fmap, Forall_true. intros c. cbn.
  by destruct (path_safe c) eqn:E.
Qed.

Lemma hive_component_no_slash names i v :
  Forall (fun n => "/"%char ∉ n) names ->
  Forall (fun c => is_slash c = false) (hive_component names i v).
Proof.
  intros Hn. unfold hive_component, is_slash. change (lit "=") with ["="%char].
  rewrite !Forall_app, Forall_singleton. split; [|split; [done|]].
  - destruct (names !! i) as [n|] eqn:E; cbn.
    + apply list_elem_of_lookup_2 in E. rewrite Forall_forall in Hn. specialize (Hn n E).
      rewrite Forall_forall. intros c Hc. apply char_eqb_neq. by intros ->.
    + by repeat constructor.
  - destruct v as [v|].
    + eapply Forall_impl; [apply sanitize_safe|]. intros c Hc. apply char_eqb_neq. intros ->. done.
    + by repeat constructor.
Qed.

(** ** Theorems *)

(** A transform survives the catalog: what [from_rows] reads from a stored
    text is what the text written for it reads as again, a producible transform
    and a bucket count of 32 bits keep their identity, and a text this crate does
    not know is stored as it was found. *)
Theorem transforms_survive_the_catalog (x : str) (t : PartitionTransform) (n : Z) :
  parse_transform (to_catalog_string (parse_transform x)) = parse_transform x
  /\ (is_producible t = true -> parse_transform (to_catalog_string t) = t)
  /\ (0 <= n <= u32_max -> parse_transform (to_catalog_string (Bucket n)) = Bucket n).
Proof.
  assert (forall t, is_producible t = true -> parse_transform (to_catalog_string t) = t) as Hp
    by (intros []; done).
  split; [|split; [apply Hp|apply parse_bucket]].
  destruct (parse_transform_cases x) as [H|[(m & -> & Hm)| H]].
  - by apply Hp.
  - by apply parse_bucket.
  - pose proof (parse_transform_trim x) as Ht. rewrite H in Ht |- *. exact Ht.
Qed.

Lemma transforms_survive_the_catalog_witness :
  parse_transform (to_catalog_string (Bucket 16)) = Bucket 16
  /\ parse_transform " Year " = Year.
Proof.
  split; [|reflexivity].
  apply (transforms_survive_the_catalog [] Year 16). unfold u32_max. lia.
Defined.

(** A spec resolves for a write exactly when this crate can produce every
    transform and the written columns hold every key; then each key keeps its
    transform and names the first written column with its id. *)
Theorem resolve_write_spec_exact (spec : PartitionSpec) (column_ids : list Z) (fields : list str)
  (ws : PartitionWriteSpec) :
  resolve_write_spec spec column_ids fields = Ok ws
  <-> pw_partition_id ws = ps_partition_id spec
      /\ Forall2 (fun column key =>
           is_producible (sc_transform column) = true
           /\ wk_transform key = sc_transform column
           /\ column_ids !! input_index key = Some (sc_column_id column)
           /\ (forall j, (j < input_index key)%nat -> column_ids !! j <> Some (sc_column_id column))
           /\ fields !! input_index key = Some (wk_name key)) (ps_columns spec) (pw_keys ws).
Proof.
  assert (forall column key, resolve_key column_ids fields column = Ok key <->
    is_producible (sc_transform column) = true
    /\ wk_transform key = sc_transform column
    /\ column_ids !! input_index key = Some (sc_column_id column)
    /\ (forall j, (j < input_index key)%nat -> column_ids !! j <> Some (sc_column_id column))
    /\ fields !! input_index key = Some (wk_name key)) as Hkey.
  { intros column [i name t]. unfold resolve_key. cbn.
    destruct (is_producible (sc_transform column)); cbn [negb]; [|split; [done|by intros [? _]]].
    rewrite result_bind_ok. setoid_rewrite result_bind_ok. split.
    - intros (j & Hj & name' & Hn & [= -> -> <-]). unfold ok_or in *.
      destruct (position _ column_ids) as [j'|] eqn:Ep; simplify_eq.
      destruct (fields !! i) eqn:Ef; simplify_eq. apply position_spec in Ep as (v & Hv & Hp & Hfirst).
      breflect. subst v. repeat split; try done. intros j Hj Hc. specialize (Hfirst j _ Hj Hc). breflect. done.
    - intros (_ & -> & Hi & Hfirst & Hf). exists i. split.
      + rewrite (proj2 (position_spec _ column_ids i)); [done|].
        exists (sc_column_id column). split; [done|]. split; [apply Z.eqb_refl|].
        intros j v Hj Hv. apply Z.eqb_neq. intros ->. by apply (Hfirst j).
      + exists name. rewrite Hf. done. }
  unfold resolve_write_spec. rewrite result_bind_ok. split.
  - intros (keys & Hk & [= <-]). cbn. split; [done|]. apply mapM_result_ok in Hk.
    eapply Forall2_impl; [exact Hk|]. intros. by apply Hkey.
  - intros [Hid Hk]. exists (pw_keys ws). split.
    + apply mapM_result_ok. eapply Forall2_impl; [exact Hk|]. intros. by apply Hkey.
    + destruct ws. cbn in *. by subst.
Qed.

(** A partitioned file's directory has exactly one component per key, below
    the table directory: the values are reduced to characters that hold no
    separator, so with key names free of slashes the path splits back into
    [name=value] components, none of which is [..]. *)
Theorem hive_subpath_components (names : list str) (values : list (option str)) :
  Forall (fun n => "/"%char ∉ n) names -> values <> [] ->
  split_on is_slash (hive_subpath names values) = imap (hive_component names) values
  /\ Forall (fun comp => "="%char ∈ comp /\ comp <> lit "..") (split_on is_slash (hive_subpath names values)).
Proof.
  intros Hn Hv. rewrite hive_subpath_join.
  assert (split_on is_slash (join "/" (imap (hive_component names) values))
          = imap (hive_component names) values) as ->.
  { apply split_on_join; [done| |].
    - destruct values; [done|]. cbn. discriminate.
    - apply Forall_lookup. intros i x Hx. rewrite list_lookup_imap in Hx.
      destruct (values !! i); [|done]. injection Hx as <-. by apply hive_component_no_slash. }
  split; [done|]. apply Forall_lookup. intros i x Hx. rewrite list_lookup_imap in Hx.
  destruct (values !! i); [|done]. injection Hx as <-.
  assert ("="%char ∈ hive_component names i o) as Hin by (unfold hive_component; set_solver).
  split; [done|]. intros Heq. rewrite Heq in Hin. revert Hin. change (lit "..") with ["."%char; "."%char].
  rewrite !elem_of_cons, elem_of_nil. naive_solver.
Qed.

Lemma hive_subpath_components_witness :
  hive_subpath [lit "region"; lit "year"] [Some (lit "../eu west"); None]
  = "region=.._eu_west/year=__HIVE_DEFAULT_PARTITION__"
  /\ split_on is_slash (hive_subpath [lit "region"; lit "year"] [Some (lit "../eu west"); None])
     = [lit "region=.._eu_west"; lit "year=__HIVE_DEFAULT_PARTITION__"].
Proof.
  split; [reflexivity|].
  rewrite (proj1 (hive_subpath_components [lit "region"; lit "year"] [Some (lit "../eu west"); None]
    ltac:(repeat constructor; apply (bool_decide_unpack _); reflexivity) ltac:(discriminate))).
  reflexivity.
Defined.

(** ** The envelope of a year *)

(** A date lies between the first days of its year and of the next. *)
Lemma year_encloses y m d :
  valid_date (y, m, d) ->
  day_number (y, 1, 1) <= day_number (y, m, d) < day_number (y + 1, 1, 1).
Proof.
  intros [Hm Hd]. unfold day_number. pose proof (march_year y) as Hy.
  replace (y + 1 - 1) with y by lia. change (1 <=? 2) with true. change (month_offset 1) with 306. cbv iota.
  assert (month_days y m <= 31) as Hd' by (unfold month_days; repeat case_if; lia).
  destruct (m <=? 2) eqn:E; breflect.
  - assert (m = 1 \/ m = 2) as [-> | ->] by lia.
    + change (month_offset 1) with 306. destruct (leap y); lia.
    + change (month_offset 2) with 337. change (month_days y 2) with (if leap y then 29 else 28) in Hd.
      destruct (leap y); lia.
  - assert (0 <= month_offset m <= 275) by (unfold month_offset; Z.to_euclidean_division_equations; lia).
    destruct (leap y); lia.
Qed.

Lemma civil_year_encloses n y m d :
  civil_from_days n = (y, m, d) -> day_number (y, 1, 1) <= n < day_number (y + 1, 1, 1).
Proof.
  intros H. destruct (civil_from_days_spec n) as [Hv Hn]. rewrite H in Hv, Hn. rewrite <- Hn.
  by apply year_encloses.
Qed.

Definition units_per_second (unit : TimeUnit) : Z := per_hour unit / 3600.

Section year_envelope.
Context {ScalarValue : Type}.
Variable try_from_string : str -> DataType -> option ScalarValue.
(** The scalar of a date or of a naive timestamp, by its value. *)
Variable date_scalar : Z -> ScalarValue.
Variable timestamp_scalar : TimeUnit -> Z -> ScalarValue.

(** Arrow reads [YYYY-01-01] as that date and [YYYY-01-01 00:00:00] as its
    midnight, when it reads the text at all. *)
Definition reads_year_starts : Prop :=
  (forall year s, try_from_string (show_Z year ++ "-01-01") Date32 = Some s ->
     exists n, days_from_civil year 1 1 = Some n /\ s = date_scalar n)
  /\ (forall year unit s, try_from_string (show_Z year ++ "-01-01 00:00:00") (Timestamp unit None) = Some s ->
     exists n, days_from_civil year 1 1 = Some n
               /\ s = timestamp_scalar unit (n * (86400 * units_per_second unit))).

(** The [Year] branch of [PartitionTransform::source_bounds]. *)
Definition year_source_bounds (value : str) (data_type : DataType) : option (ScalarValue * ScalarValue) :=
  year ← parse_i64 (trim value);
  year_bounds try_from_string year data_type.

Lemma year_bounds_enclose year (s : str) (dt : DataType) lo hi (scalar : Z -> ScalarValue) (scale : Z) :
  i64_min <= year < i64_max ->
  (forall y v, try_from_string (show_Z y ++ s) dt = Some v ->
     exists n, days_from_civil y 1 1 = Some n /\ v = scalar (n * scale)) ->
  (lo' ← try_from_string (show_Z year ++ s) dt;
   hi' ← try_from_string (show_Z (wrap_i64 (year + 1)) ++ s) dt; Some (lo', hi')) = Some (lo, hi) ->
  lo = scalar (day_number (year, 1, 1) * scale) /\ hi = scalar (day_number (year + 1, 1, 1) * scale).
Proof.
  intros Hy Hread H.
  assert (wrap_i64 (year + 1) = year + 1) as Hw
    by (unfold wrap_i64, i64_min, i64_max in *; rewrite Z.mod_small; lia).
  rewrite Hw in H.
  destruct (try_from_string (show_Z year ++ s) dt) as [l|] eqn:E1; [|done]. cbn in H.
  destruct (try_from_string (show_Z (year + 1) ++ s) dt) as [h|] eqn:E2; [|done]. cbn in H.
  injection H as -> ->.
  apply Hread in E1 as (n1 & H1 & ->). apply Hread in E2 as (n2 & H2 & ->).
  apply days_from_civil_day_number in H1 as [_ <-]. by apply days_from_civil_day_number in H2 as [_ <-].
Qed.
End year_envelope.

(** A file partitioned by [year] is never pruned by its partition value for a
    row it holds: the value written for a date or a naive timestamp of any unit,
    read back and turned into bounds on the source column, encloses that very
    date or timestamp, whatever year it is of. *)
Theorem year_value_encloses_its_rows {ScalarValue : Type}
  (try_from_string : str -> DataType -> option ScalarValue)
  (date_scalar : Z -> ScalarValue) (timestamp_scalar : TimeUnit -> Z -> ScalarValue)
  (v part : Z) (bounds : ScalarValue * ScalarValue) :
  reads_year_starts try_from_string date_scalar timestamp_scalar -> in_i64 v = true ->
  (calendar_parts Year Date32 [Some v] = Some [Some part] ->
   year_source_bounds try_from_string (show_Z part) Date32 = Some bounds ->
   exists lo hi, bounds = (date_scalar lo, date_scalar hi) /\ lo <= v <= hi)
  /\ (forall unit, calendar_parts Year (Timestamp unit None) [Some v] = Some [Some part] ->
      year_source_bounds try_from_string (show_Z part) (Timestamp unit None) = Some bounds ->
      exists lo hi, bounds = (timestamp_scalar unit lo, timestamp_scalar unit hi) /\ lo <= v <= hi).
Proof.
  intros [Hd Ht] Hv. unfold in_i64, i64_min, i64_max in Hv. breflect.
  assert (forall n y m d, civil_from_days n = (y, m, d) -> Z.abs n <= 2 ^ 63 -> i64_min <= y < i64_max) as Hyr.
  { intros n y m d Hc Hn. destruct (civil_from_days_spec n) as [Hval Hnum]. rewrite Hc in Hval, Hnum.
    pose proof (month_of_day_of_year y m d Hval) as (Hdoy & _). cbn zeta in Hdoy.
    unfold day_number, march_days in Hnum.
    assert (0 <= month_offset m + d - 1 <= 365) by (destruct (leap _); lia).
    set (w := if m <=? 2 then y - 1 else y) in *.
    assert (w <= y <= w + 1) by (subst w; case_if; lia).
    unfold i64_min, i64_max. Z.to_euclidean_division_equations; lia. }
  destruct bounds as [lo hi]. split.
  - unfold calendar_parts, array_instants, date_instant_parts. cbn [map mbind option_bind].
    destruct (_ || _); [done|]. cbn -[civil_from_days]. destruct (civil_from_days v) as [[y m] d] eqn:Ec. intros [= <-] Hb.
    pose proof (Hyr v y m d Ec ltac:(lia)) as Hy.
    unfold year_source_bounds in Hb. rewrite trim_show_Z, parse_show_i64 in Hb
      by (unfold in_i64; rewrite andb_true_iff, !Z.leb_le; lia). cbn [mbind option_bind year_bounds] in Hb.
    apply (year_bounds_enclose _ y _ _ lo hi date_scalar 1) in Hb as [-> ->]; [|done|].
    + exists (day_number (y, 1, 1) * 1), (day_number (y + 1, 1, 1) * 1). split; [done|].
      apply civil_year_encloses in Ec. lia.
    + intros y' s Hs. apply Hd in Hs as (n & Hn & ->). exists n. by rewrite Z.mul_1_r.
  - intros unit. unfold calendar_parts, array_instants, timestamp_instant_parts. cbn [map mbind option_bind].
    destruct (_ || _); [done|]. cbn -[civil_from_days]. destruct (civil_from_days _) as [[y m] d] eqn:Ec. intros [= <-] Hb.
    assert (0 < per_hour unit) as Hph by (by destruct unit).
    assert (24 * per_hour unit = 86400 * units_per_second unit) as Hu by (by destruct unit).
    rewrite Z.div_div in Ec by lia. replace (per_hour unit * 24) with (86400 * units_per_second unit) in Ec by lia.
    assert (0 < 86400 * units_per_second unit) as Hsec by lia.
    set (k := 86400 * units_per_second unit) in *.
    pose proof (Z.div_mod v k ltac:(lia)) as Hdm. pose proof (Z.mod_pos_bound v k ltac:(lia)) as Hmod.
    assert (Z.abs (v / k) <= 2 ^ 63) as Hq
      by (apply Z.abs_le; split; [apply Z.div_le_lower_bound | apply Z.div_le_upper_bound]; nia).
    pose proof (Hyr _ y m d Ec Hq) as Hy.
    unfold year_source_bounds in Hb. rewrite trim_show_Z, parse_show_i64 in Hb
      by (unfold in_i64; rewrite andb_true_iff, !Z.leb_le; lia). cbn [mbind option_bind year_bounds] in Hb.
    apply (year_bounds_enclose _ y _ _ lo hi (timestamp_scalar unit) k) in Hb as [-> ->]; [|done|].
    + exists (day_number (y, 1, 1) * k), (day_number (y + 1, 1, 1) * k). split; [done|].
      apply civil_year_encloses in Ec. nia.
    + intros y' s Hs. by apply Ht in Hs.
Qed.

(** A reader that knows the first days of 2023 and 2024, for a concrete
    evaluation; scalars are the values themselves. *)
Definition read_2023 (text : str) (dt : DataType) : option Z :=
  match dt with
  | Date32 => if str_eqb text (show_Z 2023 ++ "-01-01") then Some 19358
              else if str_eqb text (show_Z 2024 ++ "-01-01") then Some 19723 else None
  | _ => None
  end.

Lemma year_value_encloses_its_rows_witness :
  calendar_parts Year Date32 [Some 19500] = Some [Some 2023]
  /\ exists lo hi, year_source_bounds read_2023 "2023" Date32 = Some (lo, hi) /\ lo <= 19500 <= hi.
Proof.
  split; [reflexivity|]. exists 19358, 19723. split; [reflexivity|].
  destruct (proj1 (year_value_encloses_its_rows read_2023 id (fun _ => id) 19500 2023 (19358, 19723)
    ltac:(split; [intros year s; unfold read_2023, str_eqb; repeat case_bool_decide; intros Hs; try discriminate Hs;
            injection Hs as <-;
            match goal with E : _ ++ _ = _ ++ _ |- _ => apply (inj (fun l => l ++ lit "-01-01")), show_Z_inj in E; subst year end;
            eexists; split; reflexivity
          | intros; discriminate]) ltac:(reflexivity))) as (lo & hi & Hb & Hle); [reflexivity|reflexivity|].
  cbn in Hb. injection Hb as <- <-. exact Hle.
Defined.
