(* ===== verification/PartitionSplit.v ===== *)
(** * Splitting batches by partition

    [encode_scalar] of [src/src/stats_encode.rs] and [transform_array] and
    [split_batches_by_partition] of [src/src/partition.rs]: every write of a
    partitioned table cuts its batches into one group per distinct tuple of
    partition values. Arrow's arrays, batches and kernels are the class
    [ArrowKernels]; what the code relies on of its [take] kernel is
    [takes_rows]. The theorem: the groups hold every input row exactly once, under the values
    computed for it, in input order, one group per distinct tuple in first-seen
    order, and no group holds an empty batch. *)

From S2P Require Import Prelude RustStd Arrow Calendar StatsOrder FloatText Partition.
From Stdlib Require Import SpecFloat.

(** ** Scalars *)

(** [ScalarValue]: the variants [encode_scalar] matches on; [IntValue] and
    [StringValue] carry which of Arrow's integer and string types they have, and
    [OtherValue] stands for the rest, which may be NULL. *)
Inductive ScalarValue :=
| IntValue (ty : DataType) (v : option Z)
| BooleanValue (v : option bool)
| Float32Value (v : option spec_float)
| Float64Value (v : option spec_float)
| Decimal128Value (v : option Z) (precision scale : Z)
| Date32Value (v : option Z)
| TimestampValue (unit : TimeUnit) (v : option Z) (zone : option str)
| StringValue (ty : DataType) (v : option str)
| OtherValue (ty : DataType) (null : bool).

(** [ScalarValue::is_null]. *)
Definition is_null (s : ScalarValue) : bool :=
  match s with
  | IntValue _ v | Decimal128Value v _ _ | Date32Value v | TimestampValue _ v _ =>
      bool_decide (v = None)
  | BooleanValue v => bool_decide (v = None)
  | Float32Value v | Float64Value v => match v with None => true | Some _ => false end
  | StringValue _ v => bool_decide (v = None)
  | OtherValue _ null => null
  end.

(** A tuple of partition values; [None] is NULL. *)
Abbreviation Key := (list (option str)).

Definition MAX_STRING_STAT_BYTES : nat := 2048.

Section encoding.
(** Rust's formatting of the two float types. *)
Variables F32 F64 : FloatFormat.

(** [encode_scalar]. *)
Definition encode_scalar (value : ScalarValue) : option str :=
  match value with
  | IntValue _ (Some v) => Some (show_Z v)
  | BooleanValue (Some v) => Some (if v then lit "true" else lit "false")
  | Float32Value (Some v) => encode_f32 F32 v
  | Float64Value (Some v) => encode_f64 F64 v
  | Decimal128Value (Some v) _ scale => Some (encode_decimal128 v scale)
  | Date32Value (Some days) => encode_date32 days
  | TimestampValue unit (Some v) zone =>
      encode_timestamp v (units_per_second unit) (bool_decide (is_Some zone))
  | StringValue _ (Some s) => if (length s <=? MAX_STRING_STAT_BYTES)%nat then Some s else None
  | _ => None
  end.

(** ** Arrow *)

Inductive DatePart := PartYear | PartMonth | PartDay | PartHour.

Class ArrowKernels := {
  ArrayRef : Type;
  RecordBatch : Type;
  SchemaRef : Type;
  data_type : ArrayRef -> DataType;
  (** [as_primitive::<T>().iter()] of a date or timestamp array. *)
  primitive_values : ArrayRef -> list (option Z);
  int64_array : list (option Z) -> ArrayRef;
  try_from_array : ArrayRef -> nat -> result ScalarValue;
  date_part : ArrayRef -> DatePart -> result ArrayRef;
  take_values : ArrayRef -> list nat -> result ArrayRef;
  num_rows : RecordBatch -> nat;
  columns : RecordBatch -> list ArrayRef;
  column : RecordBatch -> nat -> ArrayRef;
  try_new : SchemaRef -> list ArrayRef -> result RecordBatch;
}.

Context {K : ArrowKernels}.
(** [Display] of a data type, in an error text. *)
Variable show_type : DataType -> str.

(** [transform_array]. *)
Definition transform_array (transform : PartitionTransform) (array : ArrayRef) : result ArrayRef :=
  match calendar_parts transform (data_type array) (primitive_values array) with
  | Some parts => Ok (int64_array parts)
  | None =>
      match transform with
      | Identity => Ok array
      | Year => date_part array PartYear
      | Month => date_part array PartMonth
      | Day => date_part array PartDay
      | Hour => date_part array PartHour
      | other => Err (Unsupported ("partitioned write with transform '" ++ to_catalog_string other
                                     ++ "' is not supported"))
      end
  end.

(** ** Splitting *)

(** The partition value of one row under one key: NULL for NULL, the whole string
    for a string, else the scalar's text; a value with no text is an error. *)
Definition encode_key (array : ArrayRef) (row : nat) : result (option str) :=
  let? scalar := try_from_array array row in
  if is_null scalar then Ok None
  else
    match (match scalar with
           | StringValue _ (Some text) => Some text
           | _ => encode_scalar scalar
           end) with
    | Some encoded => Ok (Some encoded)
    | None => Err (Unsupported ("partitioned write: partition-key value of type "
        ++ show_type (data_type array)
        ++ " cannot be encoded; partitioning by this column type is not supported"))
    end.

Definition row_key (transformed : list ArrayRef) (row : nat) : result Key :=
  mapM_result (fun array => encode_key array row) transformed.

(** The loop over a batch's rows; [row as u32] keeps the row, a batch having
    fewer than 2^32 of them. *)
Fixpoint bucket_rows (transformed : list ArrayRef) (rows : list nat)
    (per_batch : gmap Key (list nat)) (per_batch_order : list Key)
    : result (gmap Key (list nat) * list Key) :=
  match rows with
  | [] => Ok (per_batch, per_batch_order)
  | row :: rows' =>
      let? values := row_key transformed row in
      bucket_rows transformed rows'
        (<[values := default [] (per_batch !! values) ++ [row]]> per_batch)
        (if decide (is_Some (per_batch !! values)) then per_batch_order
         else per_batch_order ++ [values])
  end.

(** The group state: the keys in first-seen order and each key's batches. *)
Definition Groups : Type := list Key * gmap Key (list RecordBatch).

Definition take_rows (output_schema : SchemaRef) (batch : RecordBatch) (indices : list nat)
  : result RecordBatch :=
  let? cols := mapM_result (fun c => take_values c indices) (columns batch) in
  try_new output_schema cols.

(** The loop that materializes a batch's contribution. *)
Fixpoint materialize (output_schema : SchemaRef) (batch : RecordBatch) (keys : list Key)
    (per_batch : gmap Key (list nat)) (st : Groups) : result Groups :=
  match keys with
  | [] => Ok st
  | values :: keys' =>
      let indices := default [] (per_batch !! values) in
      let per_batch := delete values per_batch in
      match indices with
      | [] => materialize output_schema batch keys' per_batch st
      | _ =>
          let? out := take_rows output_schema batch indices in
          let '(order, groups) := st in
          let order := if decide (is_Some (groups !! values)) then order else order ++ [values] in
          materialize output_schema batch keys' per_batch
            (order, <[values := default [] (groups !! values) ++ [out]]> groups)
      end
  end.

(** One input batch. *)
Definition split_batch (output_schema : SchemaRef) (spec : PartitionWriteSpec) (st : Groups)
    (batch : RecordBatch) : result Groups :=
  if (num_rows batch =? 0)%nat then Ok st
  else
    let? transformed := mapM_result (fun key => transform_array (wk_transform key)
                                                  (column batch (input_index key))) (pw_keys spec) in
    let? buckets := bucket_rows transformed (seq 0 (num_rows batch)) ∅ [] in
    materialize output_schema batch buckets.2 buckets.1 st.

Fixpoint split_loop (output_schema : SchemaRef) (spec : PartitionWriteSpec)
    (batches : list RecordBatch) (st : Groups) : result Groups :=
  match batches with
  | [] => Ok st
  | batch :: batches' =>
      let? st := split_batch output_schema spec st batch in
      split_loop output_schema spec batches' st
  end.

(** The final [filter_map] over [groups.remove]. *)
Fixpoint collect_groups (order : list Key) (groups : gmap Key (list RecordBatch))
  : list (Key * list RecordBatch) :=
  match order with
  | [] => []
  | values :: order' =>
      match groups !! values with
      | Some batches => (values, batches) :: collect_groups order' (delete values groups)
      | None => collect_groups order' groups
      end
  end.

(** [split_batches_by_partition]. *)
Definition split_batches_by_partition (output_schema : SchemaRef) (batches : list RecordBatch)
    (spec : PartitionWriteSpec) : result (list (Key * list RecordBatch)) :=
  let? st := split_loop output_schema spec batches ([], ∅) in
  Ok (collect_groups st.1 st.2).
End encoding.

Arguments split_batches_by_partition F32 F64 {K} show_type output_schema batches spec.

(** ** First occurrences *)

Definition add_first {A} `{EqDecision A} (acc : list A) (k : A) : list A :=
  if decide (k ∈ acc) then acc else acc ++ [k].

(** The distinct elements of a list in first-seen order. *)
Definition firsts {A} `{EqDecision A} (l : list A) : list A := foldl add_first [] l.

Section firsts.
Context {A : Type} `{EqDecision A}.
Implicit Types l acc : list A.

Lemma elem_of_add_first acc k x : x ∈ add_first acc k <-> x ∈ acc \/ x = k.
Proof. unfold add_first. case_decide; set_solver. Qed.

Lemma elem_of_foldl_add l : forall acc x, x ∈ foldl add_first acc l <-> x ∈ acc \/ x ∈ l.
Proof.
  induction l as [|k l IH]; intros acc x; cbn; [set_solver|].
  rewrite IH, elem_of_add_first. set_solver.
Qed.

Lemma elem_of_firsts l x : x ∈ firsts l <-> x ∈ l.
Proof. unfold firsts. rewrite elem_of_foldl_add. set_solver. Qed.

Lemma NoDup_foldl_add l : forall acc, NoDup acc -> NoDup (foldl add_first acc l).
Proof.
  induction l as [|k l IH]; intros acc H; cbn; [done|]. apply IH. unfold add_first.
  case_decide; [done|]. apply NoDup_app. split; [done|]. split; [set_solver|]. apply NoDup_singleton.
Qed.

Lemma NoDup_firsts l : NoDup (firsts l).
Proof. apply NoDup_foldl_add. constructor. Qed.

Lemma firsts_snoc l k : firsts (l ++ [k]) = add_first (firsts l) k.
Proof. unfold firsts. by rewrite foldl_app. Qed.

(** Adding the distinct elements of a list is adding them all. *)
Lemma foldl_add_firsts l : forall acc, foldl add_first acc (firsts l) = foldl add_first acc l.
Proof.
  induction l as [|k l IH] using rev_ind; intros acc; [done|].
  rewrite firsts_snoc, foldl_app, <- IH. cbn. unfold add_first at 2. case_decide as Hk.
  - unfold add_first. rewrite decide_True; [done|]. apply elem_of_foldl_add. by right.
  - by rewrite foldl_app.
Qed.
End firsts.

(** ** The rows of the groups *)

Section splitting.
Context {K : ArrowKernels}.
Variables F32 F64 : FloatFormat.
Variable show_type : DataType -> str.
(** The rows of a batch. *)
Context {Row : Type}.
Variable row : RecordBatch -> nat -> Row.
Variable output_schema : SchemaRef.
Variable spec : PartitionWriteSpec.

Definition rows (b : RecordBatch) : list Row := row b <$> seq 0 (num_rows b).

(** Arrow's [take] and [RecordBatch::try_new] on a batch of the output schema:
    the rows at the given indices, in that order. *)
Definition takes_rows (b : RecordBatch) : Prop :=
  forall indices, Forall (fun i => (i < num_rows b)%nat) indices ->
    exists out, take_rows output_schema b indices = Ok out /\ rows out = row b <$> indices.

(** The partition values of a batch's rows. *)
Definition batch_keys (b : RecordBatch) : result (list Key) :=
  if (num_rows b =? 0)%nat then Ok []
  else
    let? transformed := mapM_result (fun key => transform_array (wk_transform key)
                                                  (column b (input_index key))) (pw_keys spec) in
    mapM_result (row_key F32 F64 show_type transformed) (seq 0 (num_rows b)).

(** A batch's rows with their values. *)
Definition tagged (b : RecordBatch) : list (Key * Row) :=
  match batch_keys b with Ok ks => zip ks (rows b) | Err _ => [] end.

Definition tagged_rows (batches : list RecordBatch) : list (Key * Row) := batches ≫= tagged.

(** The rows of one key. *)
Definition rows_of_key (k : Key) (l : list (Key * Row)) : list Row := snd <$> filter (fun e => e.1 = k) l.

(** *** Bucketing one batch *)

Definition indices_of (k : Key) (l : list (nat * Key)) : list nat := fst <$> filter (fun e => e.2 = k) l.

Definition buckets_ok (l : list (nat * Key)) (pb : gmap Key (list nat)) (order : list Key) : Prop :=
  order = firsts (snd <$> l)
  /\ forall k, pb !! k = if decide (k ∈ snd <$> l) then Some (indices_of k l) else None.

Lemma bucket_rows_ok transformed is_ ks :
  Forall2 (fun i k => row_key F32 F64 show_type transformed i = Ok k) is_ ks ->
  forall l pb order, buckets_ok l pb order ->
  exists pb' order', bucket_rows F32 F64 show_type transformed is_ pb order = Ok (pb', order')
    /\ buckets_ok (l ++ zip is_ ks) pb' order'.
Proof.
  induction 1 as [|i k is_ ks Hk _ IH]; intros l pb order Hb.
  { exists pb, order. cbn. by rewrite app_nil_r. }
  cbn [bucket_rows]. rewrite Hk. cbn [result_bind zip_with].
  change ((i, k) :: zip is_ ks) with ([(i, k)] ++ zip is_ ks). rewrite app_assoc. apply IH.
  destruct Hb as [-> Hpb]. split.
  - rewrite fmap_app. cbn [fmap list_fmap snd]. rewrite firsts_snoc. unfold add_first.
    rewrite (Hpb k). destruct (decide (k ∈ snd <$> l)) as [Hin|Hin].
    + rewrite decide_True by eauto. by rewrite decide_True by (by apply elem_of_firsts).
    + rewrite decide_False by (by intros [? [=]]).
      by rewrite decide_False by (by rewrite elem_of_firsts).
  - intros k'. unfold indices_of. rewrite fmap_app, filter_app, fmap_app, filter_cons, filter_nil. cbn [fmap list_fmap snd fst].
    destruct (decide (k' = k)) as [->|Hne].
    + rewrite lookup_insert_eq, decide_True by set_solver. rewrite decide_True by done. f_equal. f_equal.
      rewrite Hpb. destruct (decide (k ∈ snd <$> l)) as [Hin|Hin]; [done|]. cbn.
      rewrite filter_none; [done|]. intros e He <-. apply Hin. apply list_elem_of_fmap. by exists e.
    + rewrite lookup_insert_ne, Hpb by done. rewrite (decide_False (P := k = k')) by done. cbn [fmap list_fmap].
      rewrite app_nil_r. apply decide_ext. set_solver.
Qed.

(** *** Materializing one batch *)

(** The groups hold, for each key of [ord], exactly the rows [f] gives. *)
Definition groups_ok (st : Groups) (ord : list Key) (f : Key -> list Row) : Prop :=
  st.1 = ord
  /\ forall k, match st.2 !! k with
               | Some bs => k ∈ ord /\ bs ≫= rows = f k /\ Forall (fun b => rows b <> []) bs
               | None => k ∉ ord /\ f k = []
               end.

Lemma groups_ok_ext st ord ord' f f' :
  groups_ok st ord f -> ord = ord' -> (forall k, f k = f' k) -> groups_ok st ord' f'.
Proof. intros [H1 H2] <- Hf. split; [done|]. intros k. rewrite <- Hf. apply H2. Qed.

(** Adding one taken batch to its group. *)
Lemma groups_ok_add order groups f k out l :
  groups_ok (order, groups) order f -> rows out = l -> l <> [] ->
  groups_ok (if decide (is_Some (groups !! k)) then order else order ++ [k],
             <[k := default [] (groups !! k) ++ [out]]> groups)
    (add_first order k) (fun k' => f k' ++ if decide (k' = k) then l else []).
Proof.
  intros [_ Hg] Hout Hl. cbn [fst snd] in Hg. split; cbn [fst snd].
  - unfold add_first. specialize (Hg k). destruct (groups !! k) as [bs|].
    + rewrite decide_True by eauto. by rewrite decide_True by tauto.
    + rewrite decide_False by (by intros [? [=]]). by rewrite decide_False by tauto.
  - intros k'. destruct (decide (k' = k)) as [->|Hne].
    + rewrite lookup_insert_eq. specialize (Hg k). split; [apply elem_of_add_first; by right|].
      destruct (groups !! k) as [bs|]; cbn [default from_option id].
      * destruct Hg as (_ & Hb & Hall). rewrite bind_app, Hb. cbn. rewrite app_nil_r, Hout.
        split; [done|]. apply Forall_app. split; [done|]. constructor; [by rewrite Hout|constructor].
      * destruct Hg as [_ ->]. cbn. rewrite app_nil_r, Hout. split; [done|]. constructor; [by rewrite Hout|constructor].
    + rewrite lookup_insert_ne by done. specialize (Hg k'). destruct (groups !! k') as [bs|].
      * rewrite app_nil_r, elem_of_add_first. tauto.
      * rewrite app_nil_r, elem_of_add_first. tauto.
Qed.

Lemma materialize_ok b (idx : Key -> list nat) :
  takes_rows b ->
  (forall k, Forall (fun i => (i < num_rows b)%nat) (idx k)) ->
  forall keys pb order groups f,
  NoDup keys -> (forall k, k ∈ keys -> pb !! k = Some (idx k) /\ idx k <> []) ->
  groups_ok (order, groups) order f ->
  exists st', materialize output_schema b keys pb (order, groups) = Ok st'
    /\ groups_ok st' (foldl add_first order keys)
         (fun k => f k ++ if decide (k ∈ keys) then row b <$> idx k else []).
Proof.
  intros Htake Hrange. induction keys as [|k keys IH]; intros pb order groups f Hnd Hpb Hg.
  { eexists. split; [reflexivity|]. eapply groups_ok_ext; [exact Hg|done|]. intros k'. by rewrite app_nil_r. }
  cbn [materialize]. destruct (Hpb k ltac:(set_solver)) as [-> Hne]. cbn [default from_option id].
  apply NoDup_cons in Hnd as [Hk Hnd].
  destruct (Htake (idx k) (Hrange k)) as (out & Hout & Hrows).
  destruct (idx k) as [|i idx'] eqn:Ei; [done|]. rewrite Hout. cbn [result_bind].
  edestruct (IH (delete k pb)) as (st' & Hst' & Hgst').
  - done.
  - intros k' Hk'. destruct (Hpb k' ltac:(set_solver)) as [Hl Hn]. split; [|done].
    rewrite lookup_delete_ne by (intros ->; done). done.
  - eapply groups_ok_ext; [apply (groups_ok_add order groups f k out (row b <$> (i :: idx'))); done| |].
    + unfold add_first. destruct Hg as [_ Hg]. specialize (Hg k). cbn in Hg.
      destruct (groups !! k); [rewrite decide_True by tauto|rewrite decide_False by tauto].
      * by rewrite decide_True by eauto.
      * by rewrite decide_False by (by intros [? [=]]).
    + reflexivity.
  - exists st'. split; [exact Hst'|]. eapply groups_ok_ext; [exact Hgst'| |].
    + cbn [foldl]. f_equal. unfold add_first. destruct Hg as [_ Hg]. specialize (Hg k). cbn in Hg.
      destruct (groups !! k); [rewrite (decide_True (P := k ∈ order)) by tauto|rewrite (decide_False (P := k ∈ order)) by tauto].
      * by rewrite decide_True by eauto.
      * by rewrite decide_False by (by intros [? [=]]).
    + intros k'. cbv beta. rewrite <- app_assoc. f_equal. destruct (decide (k' = k)) as [->|Hne'].
      * rewrite (decide_False (P := k ∈ keys)) by done. rewrite decide_True by set_solver. rewrite Ei. by rewrite app_nil_r.
      * cbn [app]. apply decide_ext. set_solver.
Qed.

(** *** One batch after another *)

Lemma rows_of_key_zip b ks k :
  length ks = num_rows b ->
  row b <$> indices_of k (zip (seq 0 (num_rows b)) ks) = rows_of_key k (zip ks (rows b)).
Proof.
  unfold rows. generalize (num_rows b) as n, 0%nat as s. intros n s Hl. revert n s Hl.
  induction ks as [|k0 ks IH]; intros [|n] s Hl; try done. cbn in Hl. injection Hl as Hl.
  unfold indices_of, rows_of_key. cbn [seq zip_with fmap list_fmap]. rewrite !filter_cons. cbn [fst snd].
  destruct (decide (k0 = k)); cbn [fmap list_fmap fst snd]; [f_equal|]; apply (IH n (S s) Hl).
Qed.

Lemma split_batch_ok b T order groups ks :
  takes_rows b -> batch_keys b = Ok ks ->
  groups_ok (order, groups) (firsts (fst <$> T)) (fun k => rows_of_key k T) ->
  exists st', split_batch F32 F64 show_type output_schema spec (order, groups) b = Ok st'
    /\ groups_ok st' (firsts (fst <$> (T ++ tagged b))) (fun k => rows_of_key k (T ++ tagged b)).
Proof.
  intros Htake Hks Hg. assert (order = firsts (fst <$> T)) as Ho by apply Hg. unfold tagged. rewrite Hks.
  unfold split_batch, batch_keys in *. destruct (num_rows b =? 0)%nat eqn:E0.
  { injection Hks as <-. eexists. split; [reflexivity|]. cbn [zip_with]. by rewrite app_nil_r. }
  destruct (mapM_result _ (pw_keys spec)) as [tr|]; [|done]. cbn [result_bind] in *.
  apply mapM_result_ok in Hks. pose proof (Forall2_length _ _ _ Hks) as Hlen. rewrite length_seq in Hlen.
  destruct (bucket_rows_ok tr _ ks Hks [] ∅ []) as (pb & ord & Hb & Hbk & Hpb).
  { split; [done|]. intros k. by rewrite lookup_empty, decide_False by (cbn; apply not_elem_of_nil). }
  rewrite Hb. cbn [result_bind fst snd]. cbn [app] in Hbk, Hpb.
  set (l := zip (seq 0 (num_rows b)) ks) in *.
  assert (snd <$> l = ks) as Hsnd by (unfold l; apply snd_zip; rewrite length_seq; lia).
  rewrite Hsnd in Hbk. subst ord.
  destruct (materialize_ok b (fun k => indices_of k l)) with (keys := firsts ks) (pb := pb)
    (order := order) (groups := groups) (f := fun k => rows_of_key k T) as (st' & Hst' & Hgst').
  - done.
  - intros k. apply Forall_forall. intros i Hi. apply list_elem_of_fmap in Hi as ([i' k'] & -> & Hin).
    apply list_elem_of_filter in Hin as [_ Hin]. unfold l in Hin. apply elem_of_zip_l, elem_of_seq in Hin. cbn. lia.
  - apply NoDup_firsts.
  - intros k Hk. rewrite elem_of_firsts in Hk. split; [by rewrite Hpb, decide_True by (by rewrite Hsnd)|].
    intros Hnil. rewrite <- Hsnd in Hk. apply list_elem_of_fmap in Hk as ([i k'] & -> & Hin).
    apply fmap_nil_inv in Hnil. assert ((i, k') ∈ filter (fun e => e.2 = k') l) as Hf by (by apply list_elem_of_filter).
    cbn in Hnil. rewrite Hnil in Hf. by inversion Hf.
  - rewrite Ho. rewrite Ho in Hg. exact Hg.
  - exists st'. split; [exact Hst'|]. eapply groups_ok_ext; [exact Hgst'| |].
    + rewrite foldl_add_firsts, fmap_app, Ho. unfold firsts. rewrite foldl_app. f_equal.
      symmetry. apply fst_zip. unfold rows. rewrite length_fmap, length_seq. lia.
    + intros k. unfold l. rewrite (rows_of_key_zip b ks k) by lia.
      unfold rows_of_key at 3. rewrite filter_app, fmap_app. f_equal.
      destruct (decide (k ∈ firsts ks)) as [Hk|Hk]; [done|].
      rewrite filter_none; [done|]. intros [k' r] Hin Heq. cbn in Heq. subst k'.
      apply Hk, elem_of_firsts. by apply elem_of_zip_l in Hin.
Qed.

Lemma split_loop_ok batches : forall T order groups,
  Forall takes_rows batches -> Forall (fun b => is_ok (batch_keys b) = true) batches ->
  groups_ok (order, groups) (firsts (fst <$> T)) (fun k => rows_of_key k T) ->
  exists st', split_loop F32 F64 show_type output_schema spec batches (order, groups) = Ok st'
    /\ groups_ok st' (firsts (fst <$> (T ++ tagged_rows batches)))
         (fun k => rows_of_key k (T ++ tagged_rows batches)).
Proof.
  induction batches as [|b batches IH]; intros T order groups Htake Hok Hg.
  { eexists. split; [reflexivity|]. cbn. by rewrite app_nil_r. }
  apply Forall_cons in Htake as [Hb Htake]. apply Forall_cons in Hok as [Hk Hok].
  destruct (batch_keys b) as [ks|] eqn:Ek; [|done].
  destruct (split_batch_ok b T order groups ks Hb Ek Hg) as ([order' groups'] & Hst & Hg').
  cbn [split_loop]. rewrite Hst. cbn [result_bind].
  assert (order' = firsts (fst <$> (T ++ tagged b))) as Ho by apply Hg'.
  destruct (IH (T ++ tagged b) order' groups' Htake Hok Hg') as (st' & Hst' & Hg'').
  exists st'. split; [exact Hst'|]. unfold tagged_rows in *. cbn [mbind list_bind]. by rewrite app_assoc.
Qed.

(** Collecting the groups in order. *)
Lemma collect_groups_ok order : forall groups,
  NoDup order -> (forall k, k ∈ order -> is_Some (groups !! k)) ->
  fst <$> collect_groups order groups = order
  /\ forall k bs, (k, bs) ∈ collect_groups order groups -> groups !! k = Some bs.
Proof.
  induction order as [|k order IH]; intros groups Hnd Hin; [split; [done|set_solver]|].
  apply NoDup_cons in Hnd as [Hk Hnd]. cbn [collect_groups].
  destruct (Hin k ltac:(set_solver)) as [bs Hbs]. rewrite Hbs.
  destruct (IH (delete k groups) Hnd) as [H1 H2].
  { intros k' Hk'. rewrite lookup_delete_ne by (intros ->; done). apply Hin. set_solver. }
  split; [cbn [fmap list_fmap fst]; by rewrite H1|].
  intros k' bs' [[= -> ->]|Hc]%elem_of_cons; [done|]. apply H2 in Hc.
  by apply lookup_delete_Some in Hc as [_ ?].
Qed.

Lemma split_batches_ok batches :
  Forall takes_rows batches -> Forall (fun b => is_ok (batch_keys b) = true) batches ->
  exists groups,
    split_batches_by_partition F32 F64 show_type output_schema batches spec = Ok groups
    /\ fst <$> groups = firsts (fst <$> tagged_rows batches)
    /\ forall k bs, (k, bs) ∈ groups ->
         bs ≫= rows = rows_of_key k (tagged_rows batches) /\ Forall (fun b => rows b <> []) bs.
Proof.
  intros Htake Hok.
  destruct (split_loop_ok batches [] [] ∅ Htake Hok) as ([order groups] & Hst & Ho & Hg).
  { split; [done|]. intros k. cbn. rewrite lookup_empty. split; [apply not_elem_of_nil|done]. }
  unfold split_batches_by_partition. rewrite Hst. cbn [result_bind fst snd app] in *.
  eexists. split; [reflexivity|]. subst order.
  destruct (collect_groups_ok (firsts (fst <$> tagged_rows batches)) groups) as [H1 H2].
  - apply NoDup_firsts.
  - intros k Hk. specialize (Hg k). destruct (groups !! k); [by eexists|tauto].
  - split; [exact H1|]. intros k bs Hin. apply H2 in Hin. specialize (Hg k). rewrite Hin in Hg. tauto.
Qed.
(** *** Errors *)

Lemma bucket_rows_err transformed is_ e :
  mapM_result (row_key F32 F64 show_type transformed) is_ = Err e ->
  forall pb order, bucket_rows F32 F64 show_type transformed is_ pb order = Err e.
Proof.
  induction is_ as [|i is_ IH]; cbn [mapM_result bucket_rows]; intros H pb order; [done|].
  destruct (row_key _ _ _ transformed i) as [k|e']; cbn [result_bind] in *; [|congruence].
  apply IH. destruct (mapM_result _ is_); [done|]. exact H.
Qed.

Lemma split_loop_err batches : forall st,
  Forall takes_rows batches -> Exists (fun b => is_ok (batch_keys b) = false) batches ->
  is_ok (split_loop F32 F64 show_type output_schema spec batches st) = false.
Proof.
  induction batches as [|b batches IH]; intros st Htake Hex; [by inversion Hex|].
  apply Forall_cons in Htake as [Hb Htake]. cbn [split_loop].
  destruct (split_batch _ _ _ _ _ st b) as [st'|] eqn:Es; [|done]. cbn [result_bind].
  apply Exists_cons in Hex as [Hk|Hex]; [|by apply IH]. exfalso.
  unfold split_batch, batch_keys in *. destruct (num_rows b =? 0)%nat; [done|].
  destruct (mapM_result _ (pw_keys spec)) as [tr|]; [|done]. cbn [result_bind] in *.
  destruct (mapM_result _ (seq 0 (num_rows b))) as [|e] eqn:Em; [done|].
  by rewrite (bucket_rows_err tr _ e Em) in Es.
Qed.
End splitting.

(** ** Arrow's kernels over lists, for concrete evaluations *)

Definition list_kernels : ArrowKernels := {|
  ArrayRef := DataType * list ScalarValue;
  RecordBatch := nat * list (DataType * list ScalarValue);
  SchemaRef := unit;
  data_type a := a.1;
  primitive_values a := (fun s => match s with Date32Value v | TimestampValue _ v _ => v | _ => None end) <$> a.2;
  int64_array l := (Int64, IntValue Int64 <$> l);
  try_from_array a i := Ok (default (OtherValue a.1 true) (a.2 !! i));
  date_part a p := Err (External []);
  take_values a is_ := Ok (a.1, (fun i => default (OtherValue a.1 true) (a.2 !! i)) <$> is_);
  num_rows b := b.1;
  columns b := b.2;
  column b i := default (Null, []) (b.2 !! i);
  try_new _ cols := Ok (match cols with c :: _ => length c.2 | [] => 0%nat end, cols)
|}.

Definition list_row (b : @RecordBatch list_kernels) (i : nat) : list ScalarValue :=
  (fun c : DataType * list ScalarValue => default (OtherValue c.1 true) (c.2 !! i)) <$> b.2.

(** A batch of a date and an integer column. *)
Definition sample_batch (days values : list Z) : @RecordBatch list_kernels :=
  (length days, [(Date32, (fun d => Date32Value (Some d)) <$> days);
                 (Int64, (fun v => IntValue Int64 (Some v)) <$> values)]).

Definition sample_spec : PartitionWriteSpec :=
  {| pw_partition_id := 1;
     pw_keys := [{| input_index := 0; wk_name := "d"; wk_transform := Year |}] |}.

(** ** Theorems *)

(** C36. Splitting a write by partition keeps every row. With [tagged_rows] the
    input rows and the partition values computed for each, the split succeeds
    exactly when every row's values can be computed; then there is one group per
    distinct tuple of values, in first-seen order, its batches concatenated are
    exactly the rows with those values, in input order, and none of its batches
    is empty. *)
Theorem split_batches_keeps_rows {K : ArrowKernels} (F32 F64 : FloatFormat)
  (show_type : DataType -> str) {Row : Type} (row : RecordBatch -> nat -> Row)
  (output_schema : SchemaRef) (spec : PartitionWriteSpec) (batches : list RecordBatch) :
  Forall (takes_rows row output_schema) batches ->
  let keys_ok := forallb (fun b => is_ok (batch_keys F32 F64 show_type spec b)) batches in
  let input := tagged_rows F32 F64 show_type row spec batches in
  match split_batches_by_partition F32 F64 show_type output_schema batches spec with
  | Ok groups =>
      keys_ok = true
      /\ fst <$> groups = firsts (fst <$> input)
      /\ (forall k bs, (k, bs) ∈ groups ->
            bs ≫= rows row = rows_of_key k input /\ Forall (fun b => rows row b <> []) bs)
  | Err _ => keys_ok = false
  end.
Proof.
  intros Htake keys_ok input. destruct keys_ok eqn:Ek.
  - apply forallb_Forall in Ek.
    destruct (split_batches_ok F32 F64 show_type row output_schema spec batches Htake Ek)
      as (groups & -> & H). done.
  - assert (Exists (fun b => is_ok (batch_keys F32 F64 show_type spec b) = false) batches) as Hex.
    { by apply forallb_false_Exists. }
    pose proof (split_loop_err F32 F64 show_type row output_schema spec batches ([], ∅) Htake Hex) as He.
    unfold split_batches_by_partition. by destruct (split_loop _ _ _ _ _ _ _).
Qed.

Lemma sample_takes_rows days values :
  length days = length values -> takes_rows (K := list_kernels) list_row tt (sample_batch days values).
Proof.
  intros Hl indices Hi. eexists. split; [reflexivity|]. unfold rows. cbn. rewrite length_fmap.
  apply list_eq. intros j. rewrite !list_lookup_fmap.
  destruct (decide (j < length indices)%nat) as [Hj|Hj].
  - rewrite lookup_seq_lt by done. destruct (lookup_lt_is_Some_2 indices j Hj) as [i Hij]. rewrite Hij. cbn.
    unfold list_row. cbn. rewrite !list_lookup_fmap, !Hij. cbn. by rewrite !list_lookup_fmap.
  - rewrite lookup_seq_ge by lia. rewrite (lookup_ge_None_2 indices j) by lia. done.
Qed.

Lemma split_batches_keeps_rows_witness :
  exists groups,
    split_batches_by_partition (K := list_kernels) one_number one_number (fun _ => []) tt
      [sample_batch [19500; 20000; 19501] [1; 2; 3]; sample_batch [19502] [4]] sample_spec = Ok groups
    /\ fst <$> groups = [[Some (lit "2023")]; [Some (lit "2024")]]
    /\ (forall k bs, (k, bs) ∈ groups -> Forall (fun b => rows list_row b <> []) bs).
Proof.
  pose proof (split_batches_keeps_rows (K := list_kernels) one_number one_number (fun _ => [])
    list_row tt sample_spec [sample_batch [19500; 20000; 19501] [1; 2; 3]; sample_batch [19502] [4]]
    ltac:(repeat constructor; by apply sample_takes_rows)) as H.
  destruct (split_batches_by_partition _ _ _ _ _ _) as [groups|e]; [|vm_compute in H; discriminate H].
  destruct H as (_ & Hk & Hg). exists groups. split; [reflexivity|]. split.
  - rewrite Hk. vm_compute. reflexivity.
  - intros k bs Hin. exact (proj2 (Hg k bs Hin)).
Defined.

