(* ===== verification/RowIds.v ===== *)
(** * Row ids and the partition fence of a commit

    [src/src/metadata_writer.rs]: [allocate_row_id_start] and
    [carried_row_id_start] decide the [row_id_start] of every committed data file
    and how far the table's [next_row_id] moves; [enforce_partition_fence] refuses
    a file planned under another partition spec. [commit_files] is the part of a
    commit that uses them ([register_files_with_deletes] of [metadata_writer_duckdb.rs]): every
    file passes the fence, then each is given its range off the table's
    [next_row_id], which the [UPDATE] of [ducklake_table_stats] moves before the
    next.

    The theorem: over any sequence of commits no row id is ever issued twice, and
    no file lands in a table under a spec it was not split by. *)

From S2P Require Import Prelude RustStd Arrow WriterTypes.

(** ** Allocation *)

Record RowIdAllocation := { stored : option Z; advance : Z }.

(** [allocate_row_id_start]. *)
Definition allocate_row_id_start (next_row_id : Z) (file : DataFileInfo) : RowIdAllocation :=
  let base := Z.max next_row_id (default i64_min (df_row_id_floor file)) in
  let advance_to target := Z.max (saturating_i64 (target - next_row_id)) 0 in
  match df_row_id_start file with
  | Assign =>
      {| stored := Some base; advance := advance_to (saturating_i64 (base + df_record_count file)) |}
  | Embedded =>
      {| stored := None; advance := advance_to base |}
  | Preserved start =>
      {| stored := Some start;
         advance := advance_to (Z.max base (saturating_i64 (start + df_record_count file))) |}
  end.

(** [carried_row_id_start]. *)
Definition carried_row_id_start (file : DataFileInfo) : option Z :=
  match df_row_id_start file with
  | Preserved start => Some start
  | Assign | Embedded => None
  end.

(** ** The partition fence *)

(** [enforce_partition_fence]. *)
Definition enforce_partition_fence (table_id : Z) (live_partition_id : option Z) (file : DataFileInfo)
  : result unit :=
  match df_partition_id file with
  | Some pid =>
      if bool_decide (live_partition_id <> Some pid) then
        Err (Conflict ("partition spec (partition_id " ++ show_Z pid ++ ") for table " ++ show_Z table_id
          ++ " was changed by a concurrent SET/RESET PARTITIONED BY during this commit; "
          ++ "re-open the catalog and retry"))
      else Ok tt
  | None =>
      if (0 <? df_record_count file) && bool_decide (is_Some live_partition_id) then
        Err (Conflict ("table " ++ show_Z table_id ++ " gained a partition spec (concurrent SET "
          ++ "PARTITIONED BY) after this unpartitioned write was planned; re-open the catalog and retry"))
      else Ok tt
  end.

(** ** A commit's files *)

(** What a commit records of a file. *)
Record FileRow := {
  fr_file : DataFileInfo;
  fr_row_id_start : option Z
}.

(** The allocation loop: each file reads the [next_row_id] the one before left. *)
Fixpoint allocate_files (next_row_id : Z) (files : list DataFileInfo) : list FileRow * Z :=
  match files with
  | [] => ([], next_row_id)
  | file :: files' =>
      let row_ids := allocate_row_id_start next_row_id file in
      let '(rows, next) := allocate_files (next_row_id + advance row_ids) files' in
      ({| fr_file := file; fr_row_id_start := stored row_ids |} :: rows, next)
  end.

Definition commit_files (table_id : Z) (live_partition_id : option Z) (next_row_id : Z)
    (files : list DataFileInfo) : result (list FileRow * Z) :=
  let? _ := mapM_result (enforce_partition_fence table_id live_partition_id) files in
  Ok (allocate_files next_row_id files).

(** ** A table over time

    The allocator, the live partition spec and every file row of a table. A
    partition DDL statement changes the spec; a commit that is refused changes
    nothing. *)

Record TableState := {
  next_id : Z;
  live_spec : option Z;
  file_rows : list (option Z * FileRow)
}.

Inductive table_op :=
| SetPartition (spec : option Z)
| Commit (files : list DataFileInfo).

(** Each file row is kept with the spec that was live when it was committed. *)
Definition table_step (table_id : Z) (st : TableState) (op : table_op) : TableState :=
  match op with
  | SetPartition spec =>
      {| next_id := next_id st; live_spec := spec; file_rows := file_rows st |}
  | Commit files =>
      match commit_files table_id (live_spec st) (next_id st) files with
      | Ok (rows, next) =>
          {| next_id := next; live_spec := live_spec st;
             file_rows := file_rows st ++ ((fun r => (live_spec st, r)) <$> rows) |}
      | Err _ => st
      end
  end.

Definition run_table (table_id : Z) (st : TableState) (ops : list table_op) : TableState :=
  foldl (table_step table_id) st ops.

(** ** Ranges *)

(** Row id [id] belongs to the catalog range of a row. *)
Definition in_range (r : FileRow) (id : Z) : Prop :=
  exists s, fr_row_id_start r = Some s /\ s <= id < s + df_record_count (fr_file r).

(** A file a writer may commit: its counts and adopted ids fit [i64]. *)
Definition file_wf (file : DataFileInfo) : Prop :=
  0 <= df_record_count file <= i64_max
  /\ (forall f, df_row_id_floor file = Some f -> i64_min <= f <= i64_max)
  /\ (forall s, df_row_id_start file = Preserved s -> i64_min <= s <= i64_max).

Definition op_wf (op : table_op) : Prop :=
  match op with SetPartition _ => True | Commit files => Forall file_wf files end.

(** Whether the file takes fresh ids. *)
Definition assigned (r : FileRow) : Prop := df_row_id_start (fr_file r) = Assign.

Lemma saturating_i64_cases z :
  (saturating_i64 z = z /\ i64_min <= z <= i64_max)
  \/ (saturating_i64 z = i64_max /\ i64_max < z) \/ (saturating_i64 z = i64_min /\ z < i64_min).
Proof. unfold saturating_i64, i64_min, i64_max. lia. Qed.

(** One allocation: the allocator never moves back, stays in [i64], and short of
    its end covers the range it stored; a fresh range starts at or past it. *)
Lemma allocate_spec next file :
  0 <= next <= i64_max -> file_wf file ->
  let a := allocate_row_id_start next file in
  let next' := next + advance a in
  next <= next' <= i64_max
  /\ (next' < i64_max -> forall s, stored a = Some s ->
        s + df_record_count file <= next' /\ (df_row_id_start file = Assign -> next <= s)).
Proof.
  intros Hn (Hc & Hf & Hp). cbn zeta. unfold allocate_row_id_start.
  assert (i64_min <= default i64_min (df_row_id_floor file) <= i64_max) as Hfl.
  { destruct (df_row_id_floor file) as [f|]; cbn; [by apply Hf|]. unfold i64_min, i64_max. lia. }
  set (floor := default i64_min (df_row_id_floor file)) in *.
  destruct (df_row_id_start file) as [| |s] eqn:Es; cbn [stored advance].
  - unfold saturating_i64, i64_min, i64_max in *. split; [lia|]. intros H s [= <-]. split; [lia|lia].
  - unfold saturating_i64, i64_min, i64_max in *. split; [lia|]. intros H s [=].
  - specialize (Hp s eq_refl). unfold saturating_i64, i64_min, i64_max in *. split; [lia|].
    intros H s' [= <-]. split; [lia|done].
Qed.

Definition ends_by (n : Z) (r : FileRow) : Prop := forall id, in_range r id -> id < n.
Definition starts_from (n : Z) (r : FileRow) : Prop := assigned r -> forall id, in_range r id -> n <= id.

(** A fresh range shares no id with an earlier one. *)
Definition fresh_after (earlier later : FileRow) : Prop :=
  assigned later -> forall id, in_range earlier id -> ~ in_range later id.

Lemma fresh_after_split n earlier later :
  ends_by n earlier -> starts_from n later -> fresh_after earlier later.
Proof. intros He Hs Ha id Hid Hid'. apply He in Hid. specialize (Hs Ha id Hid'). lia. Qed.

Lemma allocate_files_spec files : forall next,
  0 <= next <= i64_max -> Forall file_wf files ->
  let '(rows, next') := allocate_files next files in
  next <= next' <= i64_max
  /\ fr_file <$> rows = files
  /\ (next' < i64_max ->
        Forall (ends_by next') rows /\ Forall (starts_from next) rows /\ ForallOrdPairs fresh_after rows).
Proof.
  induction files as [|file files IH]; intros next Hn Hwf; cbn [allocate_files].
  { split; [lia|]. split; [done|]. intros _. repeat constructor. }
  apply Forall_cons in Hwf as [Hf Hwf].
  destruct (allocate_spec next file Hn Hf) as [Hmono Hrange]. cbn zeta in *.
  set (a := allocate_row_id_start next file) in *.
  specialize (IH (next + advance a) ltac:(lia) Hwf).
  destruct (allocate_files (next + advance a) files) as [rows next'].
  destruct IH as (Hm & Hfiles & Hrows). split; [lia|]. split; [cbn; by rewrite Hfiles|].
  intros Hlt. destruct (Hrows Hlt) as (He & Hs & Hd). clear Hrows.
  set (r := {| fr_file := file; fr_row_id_start := stored a |}).
  assert (ends_by (next + advance a) r) as Hr.
  { intros id (s & Hst & Hid). cbn in Hst, Hid. destruct (Hrange ltac:(lia) s Hst). lia. }
  split; [|split].
  - constructor; [|done]. intros id Hid. apply Hr in Hid. lia.
  - constructor.
    + intros Ha id (s & Hst & Hid). cbn in Ha, Hst, Hid. destruct (Hrange ltac:(lia) s Hst) as [_ H].
      specialize (H Ha). lia.
    + eapply Forall_impl; [exact Hs|]. intros r' H Ha id Hid. specialize (H Ha id Hid). lia.
  - constructor; [|done]. eapply Forall_impl; [exact Hs|]. intros r' H. by eapply fresh_after_split.
Qed.

(** The spec a file row may be committed under. *)
Definition fits_spec (spec : option Z) (r : FileRow) : Prop :=
  match df_partition_id (fr_file r) with
  | Some pid => spec = Some pid
  | None => spec = None \/ df_record_count (fr_file r) <= 0
  end.

Lemma fence_fits table_id spec r :
  enforce_partition_fence table_id spec (fr_file r) = Ok tt <-> fits_spec spec r.
Proof.
  unfold enforce_partition_fence, fits_spec. destruct (df_partition_id (fr_file r)) as [pid|].
  - case_bool_decide; naive_solver.
  - destruct (0 <? df_record_count (fr_file r)) eqn:E; cbn; breflect.
    + destruct spec; cbn; split; try done; [intros [?|?]; [done|lia] | by left].
    + split; [by right|done].
Qed.

(** The invariant of a table's history. *)
Definition table_inv (st : TableState) : Prop :=
  0 <= next_id st <= i64_max
  /\ Forall (fun e => fits_spec e.1 e.2) (file_rows st)
  /\ (next_id st < i64_max ->
        Forall (ends_by (next_id st)) (snd <$> file_rows st)
        /\ ForallOrdPairs fresh_after (snd <$> file_rows st)).

Lemma ForallOrdPairs_app {A} (R : A -> A -> Prop) l1 l2 :
  ForallOrdPairs R l1 -> ForallOrdPairs R l2 ->
  (forall x y, x ∈ l1 -> y ∈ l2 -> R x y) -> ForallOrdPairs R (l1 ++ l2).
Proof.
  induction 1 as [|x l1 Hx _ IH]; intros H2 H12; [done|]. cbn. constructor.
  - apply Forall_app. split; [done|]. apply Forall_forall. intros y Hy. apply H12; [constructor|done].
  - apply IH; [done|]. intros z y Hz Hy. apply H12; [by constructor|done].
Qed.

Lemma ForallOrdPairs_lookup {A} (R : A -> A -> Prop) l :
  ForallOrdPairs R l -> forall i j x y, (i < j)%nat -> l !! i = Some x -> l !! j = Some y -> R x y.
Proof.
  induction 1 as [|z l Hz _ IH]; intros i j x y Hij Hi Hj; [by rewrite lookup_nil in Hi|].
  destruct i as [|i], j as [|j]; try lia; cbn in Hi, Hj.
  - injection Hi as ->. rewrite Forall_lookup in Hz. by apply (Hz j).
  - apply (IH i j); [lia|done|done].
Qed.

Lemma table_step_inv table_id st op :
  op_wf op -> table_inv st -> table_inv (table_step table_id st op) /\ next_id st <= next_id (table_step table_id st op).
Proof.
  intros Hop Hinv. destruct op as [spec|files]; cbn [table_step]; [split; [exact Hinv|cbn; lia]|].
  unfold commit_files. destruct (mapM_result _ files) as [oks|] eqn:Ef; [|split; [exact Hinv|cbn; lia]].
  cbn [result_bind]. destruct Hinv as (Hn & Hfit & Hdis).
  pose proof (allocate_files_spec files (next_id st) Hn Hop) as Hspec.
  destruct (allocate_files (next_id st) files) as [rows next'].
  destruct Hspec as (Hm & Hfiles & Hrows). split; [|cbn; lia]. split; [cbn; lia|]. split; cbn [file_rows next_id].
  - apply Forall_app. split; [done|]. apply Forall_fmap. apply mapM_result_ok in Ef.
    apply Forall_forall. intros r Hr. cbn. apply (fence_fits table_id).
    assert (fr_file r ∈ files) as Hin by (rewrite <- Hfiles; apply list_elem_of_fmap; by exists r).
    apply list_elem_of_lookup in Hin as [i Hi]. destruct (Forall2_lookup_l _ _ _ _ _ Ef Hi) as ([] & _ & H). exact H.
  - intros Hlt. destruct (Hrows Hlt) as (He & Hs & Hd), (Hdis ltac:(lia)) as [He0 Hd0].
    rewrite fmap_app. rewrite <- list_fmap_compose.
    replace ((snd ∘ (fun r => (live_spec st, r))) <$> rows) with rows by (symmetry; apply list_fmap_id).
    split.
    + apply Forall_app. split; [|done]. eapply Forall_impl; [exact He0|]. intros r H id Hid. apply H in Hid. lia.
    + apply ForallOrdPairs_app; [done|done|]. intros r r' Hr Hr'. rewrite Forall_forall in He0, Hs.
      eapply fresh_after_split; eauto.
Qed.

Lemma run_table_inv table_id ops : forall st,
  Forall op_wf ops -> table_inv st ->
  table_inv (run_table table_id st ops) /\ next_id st <= next_id (run_table table_id st ops).
Proof.
  induction ops as [|op ops IH]; intros st Hops Hinv; [split; [exact Hinv|cbn; lia]|].
  apply Forall_cons in Hops as [Hop Hops]. cbn [run_table foldl].
  destruct (table_step_inv table_id st op Hop Hinv) as [Hinv' Hle].
  destruct (IH _ Hops Hinv') as [H1 H2]. unfold run_table in *. split; [done|]. lia.
Qed.

(** ** Theorems *)

(** C16. Over any sequence of commits and partition changes of a table, refused
    commits included, and until the 63-bit id space is used up: a row id is never
    issued twice (the range given to a file that takes fresh ids holds no id of
    any range recorded before it, adopted ranges included), every recorded range
    lies below [next_row_id], and [next_row_id] never moves back. *)
Theorem row_ids_are_never_reissued (table_id : Z) (st : TableState) (ops : list table_op)
  (i j : nat) (a b : FileRow) (id : Z) :
  file_rows st = [] -> 0 <= next_id st <= i64_max -> Forall op_wf ops ->
  let final := run_table table_id st ops in
  next_id final < i64_max ->
  next_id st <= next_id final
  /\ ((snd <$> file_rows final) !! i = Some a -> in_range a id -> id < next_id final)
  /\ ((i < j)%nat -> (snd <$> file_rows final) !! i = Some a -> (snd <$> file_rows final) !! j = Some b ->
      assigned b -> in_range a id -> ~ in_range b id).
Proof.
  intros Hempty Hn Hops final Hlt.
  destruct (run_table_inv table_id ops st Hops) as [(_ & _ & Hd) Hle].
  { split; [done|]. rewrite Hempty. split; [constructor|]. intros _. split; constructor. }
  destruct (Hd Hlt) as [He Hp]. split; [done|]. split.
  - intros Hi Hid. rewrite Forall_lookup in He. by apply (He i a Hi).
  - intros Hij Hi Hj Hb Hid. by apply (ForallOrdPairs_lookup _ _ Hp i j a b Hij Hi Hj).
Qed.

Definition sample_data_file (rows : Z) (start : RowIdStart) (spec : option Z) : DataFileInfo :=
  {| df_path := "f.parquet"; df_path_is_relative := true; df_file_size_bytes := 100;
     df_footer_size := None; df_record_count := rows; df_column_stats := [];
     df_partition_id := spec; df_partition_values := []; df_owner_catalog_id := None;
     df_row_id_start := start; df_row_id_floor := None |}.

Definition sample_table : TableState := {| next_id := 7; live_spec := None; file_rows := [] |}.

Definition sample_ops : list table_op :=
  [Commit [sample_data_file 3 (Preserved 20) None; sample_data_file 5 Assign None];
   SetPartition (Some 4); Commit [sample_data_file 2 Assign None];
   Commit [sample_data_file 2 Assign (Some 4)]].

Lemma sample_file_wf rows start spec :
  0 <= rows <= i64_max -> (forall s, start = Preserved s -> i64_min <= s <= i64_max) ->
  file_wf (sample_data_file rows start spec).
Proof. intros H Hs. split; [done|]. split; [done|exact Hs]. Qed.

Lemma sample_ops_wf : Forall op_wf sample_ops.
Proof.
  repeat first [apply sample_file_wf | apply List.Forall_nil | apply List.Forall_cons | exact I];
    try (unfold i64_max; lia); intros s Hs; try discriminate Hs.
  injection Hs as <-. unfold i64_min, i64_max. lia.
Qed.

(** The adopted range 20..22 is skipped: the fresh files take 23..27 and 28..29,
    and the commit planned without the spec is refused. *)
Lemma row_ids_are_never_reissued_witness :
  let final := run_table 1 sample_table sample_ops in
  (fr_row_id_start ∘ snd) <$> file_rows final = [Some 20; Some 23; Some 28]
  /\ next_id final = 30
  /\ (forall id a b, (snd <$> file_rows final) !! 0%nat = Some a -> (snd <$> file_rows final) !! 2%nat = Some b ->
        assigned b -> in_range a id -> ~ in_range b id).
Proof.
  intros final. split; [reflexivity|]. split; [reflexivity|]. intros id a b.
  apply (row_ids_are_never_reissued 1 sample_table sample_ops 0 2 a b id); [reflexivity| |exact sample_ops_wf|reflexivity|lia].
  cbn. unfold i64_max. lia.
Defined.

(** The partition fence holds in both directions: whatever partition changes
    are interleaved with the commits, every file row was committed under the spec
    that was live then: a file that carries a spec, under that very spec; a file
    with rows that carries none, while the table had none. *)
Theorem files_fit_the_live_spec (table_id : Z) (st : TableState) (ops : list table_op)
  (spec : option Z) (r : FileRow) :
  file_rows st = [] -> 0 <= next_id st <= i64_max -> Forall op_wf ops ->
  (spec, r) ∈ file_rows (run_table table_id st ops) ->
  match df_partition_id (fr_file r) with
  | Some pid => spec = Some pid
  | None => 0 < df_record_count (fr_file r) -> spec = None
  end.
Proof.
  intros Hempty Hn Hops Hin.
  destruct (run_table_inv table_id ops st Hops) as [(_ & Hf & _) _].
  { split; [done|]. rewrite Hempty. split; [constructor|]. intros _. split; constructor. }
  rewrite Forall_forall in Hf. specialize (Hf _ Hin). unfold fits_spec in Hf. cbn in Hf.
  destruct (df_partition_id (fr_file r)); [done|]. intros Hpos. destruct Hf; [done|lia].
Qed.

Lemma files_fit_the_live_spec_witness :
  exists r, (Some 4, r) ∈ file_rows (run_table 1 sample_table sample_ops)
            /\ match df_partition_id (fr_file r) with
               | Some pid => Some 4 = Some pid
               | None => 0 < df_record_count (fr_file r) -> Some 4 = None
               end.
Proof.
  exists {| fr_file := sample_data_file 2 Assign (Some 4); fr_row_id_start := Some 28 |}.
  assert ((Some 4, {| fr_file := sample_data_file 2 Assign (Some 4); fr_row_id_start := Some 28 |})
          ∈ file_rows (run_table 1 sample_table sample_ops)) as Hin.
  { vm_compute. do 2 right. left. }
  split; [exact Hin|].
  apply (files_fit_the_live_spec 1 sample_table sample_ops (Some 4) _ eq_refl); [|exact sample_ops_wf|exact Hin].
  cbn. unfold i64_max. lia.
Defined.
