(* ===== verification/WriterChecks.v ===== *)
(** * Checks a writer makes before and while it commits

    [src/src/metadata_writer.rs]: catalog names, scoped settings, the
    [inlined_index_columns] setting, the table ids a setup reserves, and the
    shape of an inlined-data flush.

    The theorems: a name is accepted exactly when it holds something to see, no
    control character and at most [MAX_NAME_LENGTH] bytes; a stored list of index
    columns reads back as the columns it was written from; and an accepted flush
    names no inlined table for two tables. *)

From S2P Require Import Prelude RustStd Arrow WriterTypes ChangeLedger.

(** ** Names *)

Definition MAX_NAME_LENGTH : nat := 1024.

Definition hex_upper (n : Z) : ascii := if n <? 10 then chr (48 + n) else chr (55 + n).

(** [validate_name]. A position is a byte offset, as [str::find] gives it. *)
Definition validate_name (name kind : str) : result unit :=
  if bool_decide (trim name = []) then
    Err (InvalidConfig (kind ++ " name cannot be empty or whitespace-only"))
  else match position is_ascii_control name with
  | Some pos =>
      let byte := default 0 (byte_val <$> name !! pos) in
      Err (InvalidConfig (kind ++ " name contains control character 0x"
        ++ [hex_upper (byte / 16); hex_upper (byte mod 16)] ++ " at position " ++ show_nat pos))
  | None =>
      if (MAX_NAME_LENGTH <? length name)%nat then
        Err (InvalidConfig (kind ++ " name exceeds maximum length of " ++ show_nat MAX_NAME_LENGTH
          ++ " characters (got " ++ show_nat (length name) ++ ")"))
      else Ok tt
  end.

(** ** Scoped settings *)

(** A row [(scope, scope_id, value)] of [ducklake_metadata]. *)
Definition SettingRow : Type := option str * option Z * str.

Definition find_setting (rows : list SettingRow) (scope : option str) (id : option Z)
  : option SettingRow :=
  find_first (fun '(row_scope, row_id, _) =>
    bool_decide (row_scope = scope) && (bool_decide (scope = None) || bool_decide (row_id = id))) rows.

(** [scoped_setting]. *)
Definition scoped_setting (rows : list SettingRow) (schema_id table_id : Z) : option str :=
  (fun '(_, _, value) => value) <$>
    or_else (find_setting rows (Some (lit "table")) (Some table_id))
      (or_else (find_setting rows (Some (lit "schema")) (Some schema_id)) (find_setting rows None None)).

(** [scoped_setting_of]. *)
Definition scoped_setting_of (rows : list SettingRow) (schema_id table_id : option Z) : option str :=
  scoped_setting rows (default (-1) schema_id) (default (-1) table_id).

(** [enables_inlining]. *)
Definition enables_inlining (key value : str) : bool :=
  eq_ignore_ascii_case key "data_inlining_row_limit"
  && match parse_u64 (trim value) with Some limit => 0 <? limit | None => false end.

(** ** Index columns of inlined data *)

(** The loop of [encode_inlined_index_columns], after the columns in [seen]. *)
Fixpoint encode_index_columns (seen : gset str) (columns : list str) : result (list str) :=
  match columns with
  | [] => Ok []
  | column :: columns' =>
      let column := trim column in
      let? _ := validate_name column "Inlined index column" in
      if contains "," column then
        Err (InvalidConfig ("inlined index column '" ++ column ++ "' contains a comma"))
      else if bool_decide (column ∈ seen) then
        Err (InvalidConfig ("duplicate inlined index column '" ++ column ++ "'"))
      else
        let? rest := encode_index_columns ({[column]} ∪ seen) columns' in
        Ok (column :: rest)
  end.

Definition encode_inlined_index_columns (columns : list str) : result str :=
  let? normalized := encode_index_columns ∅ columns in
  Ok (join "," normalized).

Definition parse_inlined_index_columns (value : str) : result (list str) :=
  if bool_decide (trim value = []) then Ok []
  else
    let columns := map trim (split_on (char_eqb ",") value) in
    let? _ := encode_inlined_index_columns columns in
    Ok columns.

Definition live_inlined_index_columns (declared : list str) (available : gset str) : list str :=
  filter (fun column => column ∈ available) declared.

Fixpoint validate_inlined_index_columns (declared : list str) (available : gset str) : result unit :=
  match declared with
  | [] => Ok tt
  | column :: declared' =>
      if bool_decide (column ∈ available) then validate_inlined_index_columns declared' available
      else Err (InvalidConfig ("inlined index column '" ++ column
                  ++ "' is not a live top-level table column"))
  end.

(** ** Reserved table ids *)

Record ReservedTableId := {
  renamed : bool;
  taken : bool;
  base_expired : bool;
  reserved_at_setup : bool
}.

(** [ReservedTables] under its lock: the set of ids. *)
Definition ReservedTables : Type := gset Z.
Definition reserved_insert (table_id : Z) (s : ReservedTables) : ReservedTables := {[table_id]} ∪ s.
Definition reserved_take (table_id : Z) (s : ReservedTables) : bool * ReservedTables :=
  (bool_decide (table_id ∈ s), s ∖ {[table_id]}).

Definition reserved_id_taken : ReservedTableId :=
  {| renamed := false; taken := true; base_expired := false; reserved_at_setup := false |}.

(** [refuse_changed_table_id]. *)
Definition refuse_changed_table_id (reserved : ReservedTableId) (mode : WriteMode)
    (schema_name table_name : str) : result unit :=
  let table := quote_snapshot_table schema_name table_name in
  let refuse conflict := Err (Conflict (conflict ++ "; retry the write")) in
  if renamed reserved then
    refuse ("table " ++ table ++ " was dropped or renamed by another transaction")
  else if taken reserved then
    refuse ("the id reserved for table " ++ table ++ " was taken by another transaction")
  else if base_expired reserved && bool_decide (mode = Append) && negb (reserved_at_setup reserved) then
    refuse ("table " ++ table ++ " may have been dropped by another transaction: the snapshot this "
              ++ "write began on was expired")
  else Ok tt.

(** ** Inlined flushes *)

(** [is_inlined_data_table] of [metadata_provider.rs]. *)
Definition is_inlined_data_table (name : str) : bool :=
  starts_with "ducklake_inlined_data_" name
  && forallb (fun c => is_ascii_alphanumeric c || char_eqb c "_") name.

Definition owns_inlined_table (table_id : Z) (name : str) : bool :=
  is_inlined_data_table name
  && starts_with ("ducklake_inlined_data_" ++ show_Z table_id ++ "_") name.

(** The loop of [validate_inlined_flush]. *)
Fixpoint validate_flush (seen : gset Z) (tables : list InlinedFlushTable) : result unit :=
  match tables with
  | [] => Ok tt
  | table :: tables' =>
      if bool_decide (ift_table_id table ∈ seen) then
        Err (InvalidConfig ("commit_inlined_flush: table " ++ show_Z (ift_table_id table)
               ++ " appears more than once"))
      else if existsb (fun name => negb (is_inlined_data_table name)
                 || negb (starts_with ("ducklake_inlined_data_" ++ show_Z (ift_table_id table) ++ "_") name))
              (ift_inlined_tables table) then
        Err (InvalidConfig ("commit_inlined_flush: table " ++ show_Z (ift_table_id table)
               ++ " names an inlined table it does not own"))
      else validate_flush ({[ift_table_id table]} ∪ seen) tables'
  end.

Definition validate_inlined_flush (tables : list InlinedFlushTable) : result unit :=
  validate_flush ∅ tables.

(** ** Lemmas *)

Lemma position_none {A} (p : A -> bool) l : position p l = None <-> Forall (fun x => p x = false) l.
Proof.
  induction l as [|x l IH]; cbn; [split; auto|]. rewrite Forall_cons.
  destruct (p x); [naive_solver|]. destruct (position p l); naive_solver.
Qed.

Lemma validate_name_ok name kind :
  validate_name name kind = Ok tt
  <-> trim name <> [] /\ Forall (fun c => is_ascii_control c = false) name
      /\ (length name <= MAX_NAME_LENGTH)%nat.
Proof.
  unfold validate_name. case_bool_decide as Ht; [naive_solver|].
  rewrite <- position_none. destruct (position is_ascii_control name); [naive_solver|].
  destruct (Nat.ltb_spec MAX_NAME_LENGTH (length name)); split; try done; naive_solver lia.
Qed.

(** A text that strips to nothing from its end starts with white space. *)
Lemma strip_tail_nil f : forall r, r <> [] -> strip_ws ws_tail f r = [] -> is_Some (ws_head (reverse r)).
Proof.
  induction f as [|f IH]; intros r Hr H; cbn in H; [done|].
  destruct (ws_tail r) as [n|] eqn:E; [|done].
  destruct (decide (drop n r = [])) as [Hd|Hd].
  - assert (exists k m, ws_head (reverse (take k r)) = Some m /\ take k r = r) as (k & m & Hk & Ht).
    { assert (length r <= n)%nat as Hl by (apply (f_equal length) in Hd; rewrite length_drop in Hd; cbn in Hd; lia).
      unfold ws_tail in E. repeat case_bool_decide; simplify_eq.
      - exists 1%nat, 1%nat. split; [|by apply take_ge]. destruct r as [|a r]; [done|]. exact H0.
      - exists 2%nat, 2%nat. split; [done|by apply take_ge].
      - exists 3%nat, 3%nat. split; [done|by apply take_ge]. }
    rewrite Ht in Hk. by eexists.
  - destruct (IH _ Hd H) as [m Hm]. exists m.
    rewrite <- (take_drop n r), reverse_app. by apply ws_head_app.
Qed.

Lemma trim_nil_head s : s <> [] -> ws_head s = None -> trim s <> [].
Proof.
  intros Hs Hw H. unfold trim, trim_start in H. rewrite (strip_ws_id ws_head _ s Hw) in H.
  unfold trim_end in H. apply (f_equal reverse) in H. rewrite reverse_involutive in H. cbn in H.
  destruct (strip_tail_nil (length s) (reverse s)) as [m Hm].
  - intros E. apply Hs. by rewrite <- (reverse_involutive s), E.
  - exact H.
  - rewrite reverse_involutive in Hm. congruence.
Qed.

(** What a trimmed text starts with. *)
Lemma trim_head s : ws_head (trim s) = None.
Proof.
  destruct (ws_head (trim s)) as [n|] eqn:E; [|done]. exfalso.
  unfold trim in E. destruct (strip_ws_suffix ws_tail (length (trim_start s)) (reverse (trim_start s))) as [p Hp].
  assert (trim_start s = trim_end (trim_start s) ++ reverse p) as Hr.
  { unfold trim_end. rewrite <- reverse_app, <- Hp. by rewrite reverse_involutive. }
  apply (ws_head_app _ (reverse p)) in E. rewrite <- Hr in E.
  unfold trim_start in E. rewrite strip_ws_stuck in E; [done|apply ws_head_range|done].
Qed.

(** A comma never completes a white-space character. *)
Lemma ws_head_comma s r : s <> [] -> ws_head s = None -> ws_head (s ++ ","%char :: r) = None.
Proof.
  unfold ws_head. intros Hs. destruct s as [|a [|b [|c s]]]; [done|..]; simpl;
    try change (byte_val ",") with 44; repeat case_match; intros; simplify_eq; try done; breflect; try lia.
  all: repeat match goal with H : _ \/ _ |- _ => destruct H end; breflect; try lia.
Qed.

(** *** Index columns *)

Definition good_column (column : str) : Prop :=
  validate_name column "Inlined index column" = Ok tt /\ ","%char ∉ column.

Lemma encode_index_columns_ok columns : forall seen ns,
  encode_index_columns seen columns = Ok ns
  <-> ns = map trim columns /\ Forall good_column ns /\ NoDup ns /\ (forall c, c ∈ ns -> c ∉ seen).
Proof.
  induction columns as [|c columns IH]; intros seen ns; cbn [encode_index_columns map].
  { split; [intros [= <-]; repeat split; try constructor; by inversion 1 | by intros (-> & _)]. }
  rewrite result_bind_ok. split.
  - intros ([] & Hv & H). destruct (contains "," (trim c)) eqn:Ec; [done|].
    case_bool_decide as Hs; [done|]. apply result_bind_ok in H as (rest & Hr & [= <-]).
    apply IH in Hr as (-> & Hg & Hnd & Hns). split; [done|]. split; [|split].
    + constructor; [|done]. split; [done|]. intros Hin. apply contains_char in Hin.
      change (lit ",") with [","%char] in Ec. congruence.
    + constructor; [|done]. intros Hin. apply Hns in Hin. set_solver.
    + intros x [->|Hx]%elem_of_cons; [done|]. apply Hns in Hx. set_solver.
  - intros (-> & Hg & Hnd & Hns). apply Forall_cons in Hg as [[Hv Hc] Hg]. apply NoDup_cons in Hnd as [Hni Hnd].
    exists tt. split; [done|].
    assert (contains "," (trim c) = false) as ->.
    { apply not_true_iff_false. change (lit ",") with [","%char]. by rewrite contains_char. }
    rewrite bool_decide_false by (apply Hns; constructor).
    apply result_bind_ok. exists (map trim columns). split; [|done]. apply IH. split; [done|].
    split; [done|]. split; [done|]. intros x Hx [->%elem_of_singleton|Hs]%elem_of_union; [done|].
    by apply (Hns x); [by constructor|].
Qed.

Lemma good_column_trim column : good_column column -> trim column <> [].
Proof. intros [H _]. by apply validate_name_ok in H as [? _]. Qed.

Lemma join_head_not_ws (columns : list str) :
  columns <> [] -> Forall (fun c => c <> [] /\ ws_head c = None) columns ->
  join "," columns <> [] /\ ws_head (join "," columns) = None.
Proof.
  destruct columns as [|c [|d columns]]; intros Hne H; [done|..].
  - apply Forall_cons in H as [[Hc Hw] _]. done.
  - apply Forall_cons in H as [[Hc Hw] _]. rewrite join_cons by done. change (lit ",") with [","%char].
    cbn [app]. split; [by destruct c|]. by apply ws_head_comma.
Qed.

Lemma map_trim_idem columns : map trim (map trim columns) = map trim columns.
Proof. rewrite map_map. apply map_ext. apply trim_idem. Qed.

Lemma index_columns_parse columns value :
  encode_inlined_index_columns columns = Ok value ->
  parse_inlined_index_columns value = Ok (map trim columns).
Proof.
  unfold encode_inlined_index_columns. intros H. apply result_bind_ok in H as (ns & Hns & [= <-]).
  pose proof Hns as Hns'. apply encode_index_columns_ok in Hns' as (-> & Hg & Hnd & _).
  unfold parse_inlined_index_columns. destruct columns as [|c columns]; [done|].
  set (cols := map trim (c :: columns)) in *.
  assert (cols <> []) as Hne by done.
  destruct (join_head_not_ws cols Hne) as [Hj Hw].
  { apply Forall_forall. intros x Hx. rewrite Forall_forall in Hg. split.
    - intros ->. apply (good_column_trim [] (Hg [] Hx)). reflexivity.
    - apply list_elem_of_fmap in Hx as (y & -> & _). apply trim_head. }
  rewrite bool_decide_false by (by apply trim_nil_head).
  change (lit ",") with [","%char] in *.
  rewrite split_on_join; [|done|done|].
  2:{ eapply Forall_impl; [exact Hg|]. intros x [_ Hx]. apply Forall_forall. intros a Ha.
      apply char_eqb_neq. intros <-. done. }
  assert (map trim cols = cols) as -> by (apply map_trim_idem).
  apply result_bind_ok. exists (join "," cols). split; [|done].
  apply result_bind_ok. exists cols. split; [|done]. apply encode_index_columns_ok.
  split; [symmetry; apply map_trim_idem|]. split; [done|]. split; [done|]. intros x _. apply not_elem_of_empty.
Qed.

(** *** Flushes *)

Lemma validate_flush_ok tables : forall seen,
  validate_flush seen tables = Ok tt
  <-> NoDup (ift_table_id <$> tables)
      /\ (forall t, t ∈ tables -> ift_table_id t ∉ seen)
      /\ (forall t name, t ∈ tables -> name ∈ ift_inlined_tables t ->
            owns_inlined_table (ift_table_id t) name = true).
Proof.
  induction tables as [|t tables IH]; intros seen; cbn [validate_flush].
  { split; [|done]. intros _. split; [constructor|]. split; set_solver. }
  case_bool_decide as Hs.
  { split; [done|]. intros (_ & H & _). exfalso. apply (H t); [constructor|done]. }
  destruct (existsb _ (ift_inlined_tables t)) eqn:Ee.
  { split; [done|]. intros (_ & _ & H). exfalso. apply existsb_exists in Ee as (name & Hin & Hn).
    apply list_elem_of_In in Hin. specialize (H t name ltac:(constructor) Hin). unfold owns_inlined_table in H.
    breflect. rewrite !negb_true_iff in Hn. naive_solver congruence. }
  apply existsb_false_iff in Ee. rewrite IH. rewrite fmap_cons, NoDup_cons.
  assert (forall name, name ∈ ift_inlined_tables t -> owns_inlined_table (ift_table_id t) name = true) as Hown.
  { intros name Hin. rewrite Forall_forall in Ee. specialize (Ee name Hin). unfold owns_inlined_table. breflect.
    by rewrite andb_true_iff. }
  split.
  - intros (Hnd & Hns & Ho). split; [split; [|done]|split].
    + intros Hin. apply list_elem_of_fmap in Hin as (t' & He & Hin). apply (Hns t' Hin). rewrite <- He. set_solver.
    + intros t' [->|Hin]%elem_of_cons; [done|]. specialize (Hns t' Hin). set_solver.
    + intros t' name [->|Hin]%elem_of_cons; [apply Hown|by apply Ho].
  - intros ((Hni & Hnd) & Hns & Ho). split; [done|]. split.
    + intros t' Hin [He%elem_of_singleton|Hin']%elem_of_union.
      * apply Hni. apply list_elem_of_fmap. by exists t'.
      * apply (Hns t'); [by constructor|done].
    + intros t' name Hin. apply Ho. by constructor.
Qed.

(** The prefix of an inlined table's name gives its table's id. *)
Lemma owner_unique a b name :
  owns_inlined_table a name = true -> owns_inlined_table b name = true -> a = b.
Proof.
  unfold owns_inlined_table. intros [_ Ha]%andb_true_iff [_ Hb]%andb_true_iff.
  apply starts_with_spec in Ha as [ra ->]. apply starts_with_spec in Hb as [rb Hb].
  rewrite <- !app_assoc in Hb. apply app_inv_head in Hb. change (lit "_") with ["_"%char] in Hb. cbn [app] in Hb.
  pose proof (split_once_char "_" (show_Z a) ra) as Sa. pose proof (split_once_char "_" (show_Z b) rb) as Sb.
  rewrite Hb in Sa. rewrite Sb in Sa by (by apply show_Z_not_in).
  specialize (Sa ltac:(by apply show_Z_not_in)). injection Sa as E _. symmetry. by apply show_Z_inj.
Qed.

(** ** Theorems *)

(** A name is accepted exactly when it has something besides white space, no
    ASCII control character and at most 1024 bytes. The limit is in bytes, not
    characters: a name of 513 two-byte characters is refused. *)
Theorem validate_name_exact (name kind : str) :
  (validate_name name kind = Ok tt
   <-> trim name <> [] /\ Forall (fun c => is_ascii_control c = false) name
       /\ (length name <= 1024)%nat)
  /\ is_ok (validate_name (concat (replicate 513 [chr 195; chr 169])) kind) = false.
Proof.
  split; [apply validate_name_ok|].
  destruct (validate_name (concat (replicate 513 [chr 195; chr 169])) kind) as [[]|] eqn:E; [|done].
  exfalso. apply validate_name_ok in E as (_ & _ & H).
  apply Nat.leb_le in H. vm_compute in H. discriminate.
Qed.

(** The index columns a writer declares are the ones it reads back: a list
    that encodes parses to its trimmed columns, which encode to the same text;
    the columns parsed are distinct, valid names without a comma. *)
Theorem inlined_index_columns_roundtrip (columns : list str) (value : str) :
  encode_inlined_index_columns columns = Ok value ->
  parse_inlined_index_columns value = Ok (map trim columns)
  /\ encode_inlined_index_columns (map trim columns) = Ok value
  /\ NoDup (map trim columns)
  /\ Forall good_column (map trim columns).
Proof.
  intros H. split; [by apply index_columns_parse|].
  unfold encode_inlined_index_columns in *. apply result_bind_ok in H as (ns & Hns & [= <-]).
  apply encode_index_columns_ok in Hns as (-> & Hg & Hnd & _). split; [|done].
  apply result_bind_ok. exists (map trim columns). split; [|done]. apply encode_index_columns_ok.
  split; [symmetry; apply map_trim_idem|]. split; [done|]. split; [done|]. intros x _. apply not_elem_of_empty.
Qed.

Lemma inlined_index_columns_roundtrip_witness :
  encode_inlined_index_columns [lit " id "; lit "region"] = Ok (lit "id,region")
  /\ parse_inlined_index_columns "id,region" = Ok [lit "id"; lit "region"].
Proof.
  assert (encode_inlined_index_columns [lit " id "; lit "region"] = Ok (lit "id,region")) as H by reflexivity.
  split; [exact H|]. exact (proj1 (inlined_index_columns_roundtrip _ _ H)).
Defined.

(** An inlined flush is accepted exactly when no table is listed twice and
    every inlined data table it names belongs to its table by name; so an
    accepted flush never ends the rows of one inlined data table for two
    tables. *)
Theorem validated_flush_owns_its_tables (tables : list InlinedFlushTable) :
  (validate_inlined_flush tables = Ok tt
   <-> NoDup (ift_table_id <$> tables)
       /\ (forall t name, t ∈ tables -> name ∈ ift_inlined_tables t ->
             owns_inlined_table (ift_table_id t) name = true))
  /\ (validate_inlined_flush tables = Ok tt ->
      forall i j t t' name, tables !! i = Some t -> tables !! j = Some t' ->
        name ∈ ift_inlined_tables t -> name ∈ ift_inlined_tables t' -> i = j).
Proof.
  unfold validate_inlined_flush. rewrite validate_flush_ok.
  split; [naive_solver set_solver|].
  intros (Hnd & _ & Ho) i j t t' name Hi Hj Hn Hn'.
  assert (ift_table_id t = ift_table_id t') as He.
  { eapply owner_unique; eapply Ho; eauto using list_elem_of_lookup_2. }
  eapply (NoDup_lookup _ i j (ift_table_id t) Hnd); rewrite list_lookup_fmap.
  - by rewrite Hi.
  - rewrite Hj. cbn. by rewrite He.
Qed.

Definition sample_flush (id : Z) (name : String.string) : InlinedFlushTable :=
  {| ift_table_id := id; ift_inlined_tables := [lit name]; ift_files := []; ift_file_deletes := [] |}.

Lemma validated_flush_owns_its_tables_witness :
  validate_inlined_flush [sample_flush 1 "ducklake_inlined_data_1_2"; sample_flush 12 "ducklake_inlined_data_12_0"] = Ok tt
  /\ (forall i j t t' name,
        [sample_flush 1 "ducklake_inlined_data_1_2"; sample_flush 12 "ducklake_inlined_data_12_0"] !! i = Some t ->
        [sample_flush 1 "ducklake_inlined_data_1_2"; sample_flush 12 "ducklake_inlined_data_12_0"] !! j = Some t' ->
        name ∈ ift_inlined_tables t -> name ∈ ift_inlined_tables t' -> i = j).
Proof.
  assert (validate_inlined_flush [sample_flush 1 "ducklake_inlined_data_1_2";
            sample_flush 12 "ducklake_inlined_data_12_0"] = Ok tt) as H by (vm_compute; reflexivity).
  split; [exact H|]. exact (proj2 (validated_flush_owns_its_tables _) H).
Defined.
