(* ===== verification/DeleteMemo.v ===== *)
(** * The delete memo

    [src/src/delete_memo.rs]: the positions a table keeps of the delete files its
    scans read, within a byte budget. An entry is keyed by the data file and
    serves only a read of the same delete file for the same snapshot; a memo that
    is full keeps what it has.

    Sizes are exact integers: the byte counts of [usize] values that fit memory.
    The two struct sizes and the capacity a hash set keeps after [shrink_to_fit]
    are the compiler's and the library's choice, so they are parameters.

    The theorem: over any sequence of insertions the memo's byte count is the sum
    of its entries' and within the budget (so its subtractions never underflow),
    an answer was inserted for that very data file, delete file and snapshot, and [fits] foretells an insertion. *)

From S2P Require Import Prelude RustStd.

Definition usize_max : Z := u64_max.
Definition saturating_usize (z : Z) : Z := Z.min usize_max z.

(** ** Options *)

Record DuckLakeReadOptions := { delete_memo_bytes : Z }.

Definition DEFAULT_DELETE_MEMO_BYTES : Z := Z.shiftl 16 20.

Definition with_delete_memo (max_bytes : Z) (options : DuckLakeReadOptions) : DuckLakeReadOptions :=
  {| delete_memo_bytes := max_bytes |}.

Definition memoized : DuckLakeReadOptions :=
  with_delete_memo DEFAULT_DELETE_MEMO_BYTES {| delete_memo_bytes := 0 |}.

(** ** Sizes *)

(** [usize::checked_next_power_of_two], for a positive argument. *)
Definition next_power_of_two (n : Z) : option Z :=
  let p := 2 ^ Z.log2_up n in if p <=? usize_max then Some p else None.

Section memo.
(** [size_of::<DeleteMemoEntry>()] and [size_of::<HashSet<i64>>()]. *)
Variables size_of_entry size_of_set : Z.
(** The capacity of a set of positions as it is kept. *)
Variable capacity : gset Z -> Z.

(** [positions_bytes]. *)
Definition positions_bytes (positions : gset Z) : Z :=
  capacity positions * (8 + 1) * 8 / 7 + size_of_set.

(** [set_bytes_for]. *)
Definition set_bytes_for (positions : Z) : Z :=
  let buckets :=
    if positions <? 4 then 4
    else if positions <? 8 then 8
    else default usize_max (next_power_of_two (saturating_usize (positions * 8) / 7)) in
  let cap := if buckets <? 8 then buckets - 1 else buckets / 8 * 7 in
  saturating_usize (saturating_usize (cap * (8 + 1)) * 8) / 7 + size_of_set.

(** ** The memo *)

Record DeleteMemoEntry := {
  me_path : str;
  me_read_snapshot : option Z;
  me_positions : gset Z;
  me_bytes : Z
}.

Record DeleteMemoState := { ms_bytes : Z; ms_files : gmap Z DeleteMemoEntry }.

Record DeletePositionMemo := { max_bytes : Z; memo_state : DeleteMemoState }.

(** [DeletePositionMemo::new]. *)
Definition memo_new (max_bytes : Z) : option DeletePositionMemo :=
  if 0 <? max_bytes then
    Some {| max_bytes := max_bytes; memo_state := {| ms_bytes := 0; ms_files := ∅ |} |}
  else None.

(** [DeletePositionMemo::get]. *)
Definition memo_get (memo : DeletePositionMemo) (data_file_id : Z) (path : str)
    (read_snapshot : option Z) : option (gset Z) :=
  match ms_files (memo_state memo) !! data_file_id with
  | Some entry =>
      if bool_decide (me_path entry = path) && bool_decide (me_read_snapshot entry = read_snapshot)
      then Some (me_positions entry) else None
  | None => None
  end.

(** The bytes an insertion for the data file gives back. *)
Definition replaced_bytes (memo : DeletePositionMemo) (data_file_id : Z) : Z :=
  default 0 (me_bytes <$> ms_files (memo_state memo) !! data_file_id).

(** [DeletePositionMemo::fits]. *)
Definition memo_fits (memo : DeletePositionMemo) (data_file_id : Z) (path : str) (positions : Z) : bool :=
  let bytes := size_of_entry + Z.of_nat (length path) + set_bytes_for positions in
  saturating_usize (ms_bytes (memo_state memo) - replaced_bytes memo data_file_id + bytes)
    <=? max_bytes memo.

(** [DeletePositionMemo::insert]. *)
Definition memo_insert (memo : DeletePositionMemo) (data_file_id : Z) (path : str)
    (read_snapshot : option Z) (positions : gset Z) : DeletePositionMemo :=
  let bytes := size_of_entry + Z.of_nat (length path) + positions_bytes positions in
  let state := memo_state memo in
  let replaced := replaced_bytes memo data_file_id in
  if max_bytes memo <? saturating_usize (ms_bytes state - replaced + bytes) then memo
  else
    {| max_bytes := max_bytes memo;
       memo_state :=
         {| ms_bytes := ms_bytes state - replaced + bytes;
            ms_files := <[data_file_id := {| me_path := path; me_read_snapshot := read_snapshot;
                                             me_positions := positions; me_bytes := bytes |}]>
                          (ms_files state) |} |}.

(** ** Insertions over time *)

Definition insertion : Type := Z * str * option Z * gset Z.

Definition insert_one (memo : DeletePositionMemo) (i : insertion) : DeletePositionMemo :=
  let '(data_file_id, path, read_snapshot, positions) := i in
  memo_insert memo data_file_id path read_snapshot positions.

Definition insert_all (memo : DeletePositionMemo) (l : list insertion) : DeletePositionMemo :=
  foldl insert_one memo l.

(** The bytes of the entries. *)
Definition entry_bytes (files : gmap Z DeleteMemoEntry) : Z :=
  map_fold (fun _ e total => me_bytes e + total) 0 files.

Definition memo_inv (memo : DeletePositionMemo) : Prop :=
  ms_bytes (memo_state memo) = entry_bytes (ms_files (memo_state memo))
  /\ ms_bytes (memo_state memo) <= max_bytes memo
  /\ map_Forall (fun _ e => 0 <= me_bytes e) (ms_files (memo_state memo)).

Lemma entry_bytes_insert_new files id e :
  files !! id = None -> entry_bytes (<[id := e]> files) = me_bytes e + entry_bytes files.
Proof. intros H. unfold entry_bytes. rewrite map_fold_insert_L; [done| |done]. intros. lia. Qed.

Lemma entry_bytes_split files id :
  entry_bytes files = default 0 (me_bytes <$> files !! id) + entry_bytes (delete id files).
Proof.
  destruct (files !! id) as [e|] eqn:E; cbn.
  - rewrite <- (insert_delete_id files id e E) at 1. apply entry_bytes_insert_new, lookup_delete_eq.
  - by rewrite delete_id by done.
Qed.

Lemma entry_bytes_insert files id e :
  entry_bytes (<[id := e]> files)
  = entry_bytes files - default 0 (me_bytes <$> files !! id) + me_bytes e.
Proof.
  rewrite (entry_bytes_split files id). rewrite <- insert_delete_eq.
  rewrite entry_bytes_insert_new by apply lookup_delete_eq. lia.
Qed.

Lemma entry_bytes_nonneg files :
  map_Forall (fun _ e => 0 <= me_bytes e) files -> 0 <= entry_bytes files.
Proof.
  induction files as [|fid e files Hn IH] using map_ind; [done|]. intros H.
  apply map_Forall_insert in H as [H1 H2]; [|done]. rewrite entry_bytes_insert_new by done.
  specialize (IH H2). lia.
Qed.

(** What is given back was counted. *)
Lemma replaced_counted memo id :
  memo_inv memo -> 0 <= replaced_bytes memo id <= ms_bytes (memo_state memo).
Proof.
  intros (Hb & _ & Hf). rewrite Hb, (entry_bytes_split _ id). unfold replaced_bytes. split.
  - destruct (_ !! id) as [e|] eqn:E; cbn; [|lia]. exact (Hf id e E).
  - assert (0 <= entry_bytes (delete id (ms_files (memo_state memo)))); [|lia].
    apply entry_bytes_nonneg. by apply map_Forall_delete.
Qed.

Hypothesis sizes : 0 <= size_of_entry /\ 0 <= size_of_set /\ forall s, 0 <= capacity s.

Lemma positions_bytes_nonneg positions : 0 <= positions_bytes positions.
Proof.
  destruct sizes as (_ & Hs & Hc). specialize (Hc positions). unfold positions_bytes.
  assert (0 <= capacity positions * (8 + 1) * 8 / 7) by (apply Z.div_pos; lia). lia.
Qed.

Lemma memo_insert_inv memo id path snap positions :
  max_bytes memo < usize_max -> memo_inv memo -> memo_inv (memo_insert memo id path snap positions).
Proof.
  intros Hm Hinv. unfold memo_insert. cbv zeta. case_if; [done|]. breflect.
  destruct Hinv as (Hb & Hle & Hf). pose proof (positions_bytes_nonneg positions). destruct sizes as (He & _).
  split; [|split]; cbn.
  - rewrite entry_bytes_insert. cbn. rewrite <- Hb. unfold replaced_bytes. lia.
  - unfold saturating_usize, usize_max in *. lia.
  - apply map_Forall_insert_2; [cbn; lia|done].
Qed.

Lemma max_bytes_insert memo id path snap positions :
  max_bytes (memo_insert memo id path snap positions) = max_bytes memo.
Proof. unfold memo_insert. cbv zeta. by case_if. Qed.

Lemma insert_all_inv l : forall memo,
  max_bytes memo < usize_max -> memo_inv memo ->
  memo_inv (insert_all memo l) /\ max_bytes (insert_all memo l) = max_bytes memo.
Proof.
  induction l as [|[[[id path] snap] positions] l IH]; intros memo Hm Hi; [done|]. cbn [insert_all foldl insert_one].
  rewrite <- (max_bytes_insert memo id path snap positions).
  apply IH; [by rewrite max_bytes_insert|]. by apply memo_insert_inv.
Qed.

(** An answer was inserted. *)
Definition answers_from (l : list insertion) (memo : DeletePositionMemo) : Prop :=
  forall id path snap positions, memo_get memo id path snap = Some positions ->
    (id, path, snap, positions) ∈ l.

Lemma memo_get_insert memo id path snap positions id' path' snap' positions' :
  memo_get (memo_insert memo id path snap positions) id' path' snap' = Some positions' ->
  (id', path', snap', positions') = (id, path, snap, positions)
  \/ memo_get memo id' path' snap' = Some positions'.
Proof.
  unfold memo_insert. cbv zeta. case_if; [by right|]. unfold memo_get at 1. cbn.
  destruct (decide (id' = id)) as [->|Hne].
  - rewrite lookup_insert_eq. cbn. case_if; [|done]. breflect. intros [= <-]. left. congruence.
  - rewrite lookup_insert_ne by done. by right.
Qed.

Lemma insert_all_answers l : forall l0 memo,
  answers_from l0 memo -> answers_from (l0 ++ l) (insert_all memo l).
Proof.
  induction l as [|[[[id path] snap] positions] l IH]; intros l0 memo Ha.
  { by rewrite app_nil_r. }
  cbn [insert_all foldl insert_one].
  rewrite cons_middle, app_assoc.
  apply IH. intros id' path' snap' positions' [Heq|Hg]%memo_get_insert.
  - rewrite Heq. set_solver.
  - apply Ha in Hg. set_solver.
Qed.

Lemma fits_then_kept memo id path snap positions :
  memo_inv memo -> positions_bytes positions <= set_bytes_for (Z.of_nat (size positions)) ->
  memo_fits memo id path (Z.of_nat (size positions)) = true ->
  memo_get (memo_insert memo id path snap positions) id path snap = Some positions.
Proof.
  intros Hinv Hb Hf. unfold memo_fits, memo_insert in *. cbv zeta in *. breflect.
  rewrite (proj2 (Z.ltb_ge _ _)) by (unfold saturating_usize in *; lia).
  unfold memo_get. cbn. rewrite lookup_insert_eq. cbn. by rewrite !bool_decide_true.
Qed.

Lemma memo_new_ok budget memo :
  memo_new budget = Some memo -> max_bytes memo = budget /\ memo_inv memo /\ answers_from [] memo.
Proof.
  unfold memo_new. case_if; [|done]. intros [= <-]. breflect. split; [done|]. split.
  - split; [reflexivity|]. split; [cbn; lia|]. apply map_Forall_empty.
  - intros fid path snap positions H. unfold memo_get in H. cbn in H. by rewrite lookup_empty in H.
Qed.
End memo.

(** ** Theorems *)

(** C37. Over any sequence of insertions into a new memo: its byte count is the
    sum of its entries', never above the budget and never below what a
    replacement gives back (so [state.bytes - replaced] does not underflow); every
    answer was inserted for the same data file, delete file and snapshot; and an
    insertion [fits] allows is kept, when a set takes no more than [fits] reckons
    for its size. *)
Theorem memo_is_bounded_and_truthful (size_of_entry size_of_set budget : Z) (capacity : gset Z -> Z)
  (memo : DeletePositionMemo) (l : list insertion) (fid : Z) (path : str) (snap : option Z) (positions : gset Z) :
  (0 <= size_of_entry /\ 0 <= size_of_set /\ forall s, 0 <= capacity s) ->
  budget < usize_max -> memo_new budget = Some memo ->
  let m := insert_all size_of_entry size_of_set capacity memo l in
  ms_bytes (memo_state m) = entry_bytes (ms_files (memo_state m))
  /\ replaced_bytes m fid <= ms_bytes (memo_state m) <= budget
  /\ (memo_get m fid path snap = Some positions -> (fid, path, snap, positions) ∈ l)
  /\ (positions_bytes size_of_set capacity positions <= set_bytes_for size_of_set (Z.of_nat (size positions)) ->
      memo_fits size_of_entry size_of_set m fid path (Z.of_nat (size positions)) = true ->
      memo_get (memo_insert size_of_entry size_of_set capacity m fid path snap positions) fid path snap
        = Some positions).
Proof.
  intros Hs Hb Hnew m. destruct (memo_new_ok budget memo Hnew) as (Hmax0 & Hinv0 & Ha0).
  destruct (insert_all_inv size_of_entry size_of_set capacity Hs l memo) as [Hinv Hmax]; [by rewrite Hmax0|done|].
  fold m in Hinv, Hmax. pose proof (replaced_counted m fid Hinv). split; [apply Hinv|]. split; [|split].
  - split; [lia|]. destruct Hinv as (_ & Hle & _). by rewrite Hmax, Hmax0 in Hle.
  - intros Hg. change l with ([] ++ l). eapply (insert_all_answers _ _ _ Hs); [exact Ha0|exact Hg].
  - intros Hp Hf. by apply fits_then_kept.
Qed.

Definition sample_capacity (s : gset Z) : Z := Z.of_nat (size s).

Lemma memo_is_bounded_and_truthful_witness :
  let m := insert_all 72 48 sample_capacity
             {| max_bytes := 300; memo_state := {| ms_bytes := 0; ms_files := ∅ |} |}
             [(1, lit "a", Some 7, {[1; 2; 3]}); (2, lit "a", Some 7, {[4]}); (1, lit "b", Some 8, {[1; 2; 3; 4]})] in
  memo_get m 1 "b" (Some 8) = Some {[1; 2; 3; 4]}
  /\ memo_get m 1 "a" (Some 7) = None
  /\ ms_bytes (memo_state m) <= 300.
Proof.
  intros m. split; [vm_compute; reflexivity|]. split; [vm_compute; reflexivity|].
  refine (proj2 (proj1 (proj2 (memo_is_bounded_and_truthful 72 48 300 sample_capacity _ _ 1 [] None ∅ _ _ _)))).
  - split; [lia|]. split; [lia|]. intros s. unfold sample_capacity. lia.
  - reflexivity.
  - reflexivity.
Defined.
