(* ===== verification/DeleteScan.v ===== *)
(** * Deletes applied to a scan

    [src/src/lazy_delete_filter.rs] and [src/src/delete_filter.rs]: a scan emits,
    beside each row, its data file's id and its physical position, and the filter
    drops the rows whose position is in the file's delete set. The lazy filter
    reads a file's delete set when the scan first meets the file, keeps it in a
    cell its partitions share, takes it from the table's delete memo when it can,
    and reads ahead in background tasks.

    The state [ScanState] is what the tasks share: the cells ([loaded]), the memo,
    the background tasks started and a count of reads. Arrow and DataFusion are
    the class [ScanArrow] and the parameters of the section [lazy]; a read of a
    delete file may fail at one attempt and succeed at the next, and [pending]
    says which background tasks (and which other scans of the same table) get to
    run before each wait for a delete set. A read of a delete file with the
    memo insertion that follows it is one step.

    The theorems: whatever the order of those tasks and whichever reads fail, a
    batch that comes out holds exactly the rows its file's deletes do not name at
    the snapshot read, and it comes out when the reads succeed; and the exact row
    count the filters publish is the number of rows they emit. *)

From S2P Require Import Prelude RustStd Arrow DeleteMemo.

(** ** Arrow *)

(** [Int64Array]: per slot, its validity and its value. *)
Definition Int64Array : Type := list (bool * Z).
Definition value (a : Int64Array) (i : nat) : Z := default 0 (snd <$> a !! i).
Definition is_valid (a : Int64Array) (i : nat) : bool := default false (fst <$> a !! i).

Class ScanArrow := {
  RecordBatch : Type;
  SchemaRef : Type;
  ArrayRef : Type;
  num_rows : RecordBatch -> nat;
  schema : RecordBatch -> SchemaRef;
  columns : RecordBatch -> list ArrayRef;
  column : RecordBatch -> nat -> ArrayRef;
  (** [schema().index_of(name)] *)
  index_of : SchemaRef -> str -> result nat;
  downcast_int64 : ArrayRef -> option Int64Array;
  (** [BooleanArray]: per slot, its validity and its value. *)
  downcast_boolean : ArrayRef -> option (list (bool * bool));
  (** [Int64Builder]: the array of the values appended. *)
  int64_array : list (option Z) -> ArrayRef;
  take : ArrayRef -> list nat -> result ArrayRef;
  try_new : SchemaRef -> list ArrayRef -> result RecordBatch;
  try_new_with_row_count : SchemaRef -> list ArrayRef -> nat -> result RecordBatch;
  filter_record_batch : RecordBatch -> list bool -> result RecordBatch;
}.

(** DataFusion's errors are carried by [External]. *)
Definition internal (message : str) : DuckLakeError := External message.

Section arrow.
Context {A : ScanArrow}.

Definition int64_column (batch : RecordBatch) (index : nat) (what : str) : result Int64Array :=
  ok_or (downcast_int64 (column batch index)) (internal ("the scan's " ++ what ++ " column is not Int64")).

(** The rows kept, as both eager filters build them. *)
Definition take_rows (batch : RecordBatch) (keep_indices : list nat) : result RecordBatch :=
  let? filtered_columns := mapM_result (fun col => take col keep_indices) (columns batch) in
  try_new (schema batch) filtered_columns.

(** [DeleteFilterStream::filter_batch]. *)
Definition delete_filter_batch (deleted_positions : gset Z) (pos_index : nat) (batch : RecordBatch)
  : result RecordBatch :=
  if bool_decide (deleted_positions = ∅) then Ok batch
  else
    let? pos := ok_or (downcast_int64 (column batch pos_index))
                  (internal "`__ducklake_row_pos` column is not Int64") in
    let keep_indices := filter (fun i => value pos i ∉ deleted_positions) (seq 0 (num_rows batch)) in
    if (length keep_indices =? num_rows batch)%nat then Ok batch else take_rows batch keep_indices.

(** [SnapshotFilterStream::filter_batch] of [snapshot_filter.rs]. *)
Definition snapshot_filter_batch (snapshot_column : str) (snapshot_index : nat) (read_snapshot : Z)
    (batch : RecordBatch) : result RecordBatch :=
  let? snap := ok_or (downcast_int64 (column batch snapshot_index))
                 (internal ("`" ++ snapshot_column ++ "` column is not Int64")) in
  let keep_indices := filter (fun i => is_valid snap i && (value snap i <=? read_snapshot) = true)
                        (seq 0 (num_rows batch)) in
  if (length keep_indices =? num_rows batch)%nat then Ok batch else take_rows batch keep_indices.
End arrow.

(** ** Published row counts *)

Inductive Precision := Exact (n : nat) | Inexact (n : nat) | Absent.

Definition to_inexact (p : Precision) : Precision :=
  match p with Exact n => Inexact n | Inexact n => Inexact n | Absent => Absent end.

(** [DeleteFilterExec::deleted_in_range]. *)
Definition deleted_in_range (deleted_positions : gset Z) (rows : nat) : nat :=
  length (filter (fun p => 0 <= p /\ p < Z.of_nat rows) (elements deleted_positions)).

(** The row count of [DeleteFilterExec::statistics_from_inputs]. *)
Definition delete_filter_num_rows (deleted_positions : gset Z) (input : Precision)
    (partition : option nat) : Precision :=
  match partition with
  | Some _ => to_inexact input
  | None =>
      match input with
      | Exact rows => Exact (rows - deleted_in_range deleted_positions rows)
      | other => to_inexact other
      end
  end.

(** One data file's deletes: the path its delete file's scan reads, the inlined
    deletions, the catalog's count and the snapshot read. *)
Record FileDeletes := {
  delete_file : option str;
  inlined : gset Z;
  catalog_deleted : option nat;
  read_snapshot : option Z
}.

(** [Iterator::sum::<Option<usize>>]. *)
Fixpoint sum_options (l : list (option nat)) : option nat :=
  match l with
  | [] => Some 0%nat
  | o :: l' => match o, sum_options l' with Some a, Some b => Some (a + b)%nat | _, _ => None end
  end.

(** The row count of [LazyDeleteFilterExec::statistics_from_inputs]. *)
Definition lazy_num_rows (files : gmap Z FileDeletes) (input : Precision) (partition : option nat) : Precision :=
  let deleted := sum_options ((fun e => catalog_deleted e.2) <$> map_to_list files) in
  match input, deleted, partition with
  | Exact rows, Some deleted, None =>
      if (deleted <=? rows)%nat then Exact (rows - deleted) else Absent
  | rows, _, _ => to_inexact rows
  end.

(** ** Reading a delete file *)

Definition DELETE_POS_COL : str := "pos".
Definition DELETE_SNAPSHOT_COL : str := "_ducklake_internal_snapshot_id".

Section reading.
Context {A : ScanArrow}.

(** A deleted position and the snapshot recorded for it. *)
Definition entry : Type := Z * option Z.

(** The entries of one batch of a delete file. *)
Definition batch_entries (batch : RecordBatch) : result (list entry) :=
  let? pos_index := index_of (schema batch) DELETE_POS_COL in
  let? pos := int64_column batch pos_index DELETE_POS_COL in
  let? snapshots :=
    match index_of (schema batch) DELETE_SNAPSHOT_COL with
    | Ok index => let? s := int64_column batch index DELETE_SNAPSHOT_COL in Ok (Some s)
    | Err _ => Ok None
    end in
  Ok (omap (fun row =>
        if is_valid pos row then
          Some (value pos row,
                match snapshots with
                | Some s => if is_valid s row then Some (value s row) else None
                | None => None
                end)
        else None) (seq 0 (num_rows batch))).

(** [reset_plan_states] and [execute] of the scan of the delete file at a path,
    at the n-th attempt; [is_object_store_not_found] and the [head] probe. *)
Variable reset_plan_states : nat -> str -> result unit.
Variable execute_scan : nat -> str -> result (list (result RecordBatch)).
Variable is_object_store_not_found : DuckLakeError -> bool.
Variable head_not_found : str -> bool.

(** [classify_delete_file_read_error]. *)
Definition classify_delete_file_read_error (resolved_path : str) (error : DuckLakeError) : DuckLakeError :=
  if is_object_store_not_found error || head_not_found resolved_path then
    External ("Delete file '" ++ resolved_path ++ "' referenced in catalog metadata was not found. "
      ++ "This may indicate catalog corruption or that the file was deleted outside of DuckLake.")
  else error.

Section each.
Context {S : Type}.
Variable on_batch : S -> RecordBatch -> list entry -> result S.

(** The [while let Some(batch)] loop of [for_each_delete_batch]. *)
Fixpoint each_batch (resolved_path : str) (stream : list (result RecordBatch)) (s : S) : result S :=
  match stream with
  | [] => Ok s
  | Err error :: _ => Err (classify_delete_file_read_error resolved_path error)
  | Ok batch :: stream' =>
      let? entries := batch_entries batch in
      let? s := on_batch s batch entries in
      each_batch resolved_path stream' s
  end.

(** [for_each_delete_batch]. *)
Definition for_each_delete_batch (attempt : nat) (resolved_path : str) (s : S) : result S :=
  let? _ := reset_plan_states attempt resolved_path in
  match execute_scan attempt resolved_path with
  | Ok stream => each_batch resolved_path stream s
  | Err error => Err (classify_delete_file_read_error resolved_path error)
  end.
End each.

(** [read_delete_entries]. *)
Definition read_delete_entries (attempt : nat) (resolved_path : str) : result (list entry) :=
  for_each_delete_batch (fun entries _ batch => Ok (entries ++ batch)) attempt resolved_path [].

(** Whether an entry applies to a read of the snapshot. *)
Definition applies (read_snapshot : option Z) (e : entry) : bool :=
  match read_snapshot, e.2 with
  | Some read_snapshot, Some snapshot => snapshot <=? read_snapshot
  | _, _ => true
  end.

(** The positions among the entries that apply. *)
Definition positions_of (read_snapshot : option Z) (entries : list entry) : gset Z :=
  list_to_set (fst <$> filter (fun e => applies read_snapshot e = true) entries).

(** [read_delete_positions]. *)
Definition read_delete_positions (attempt : nat) (resolved_path : str) (read_snapshot : option Z)
  : result (gset Z) :=
  let? entries := read_delete_entries attempt resolved_path in
  Ok (positions_of read_snapshot entries).
End reading.

(** ** The lazy filter *)

Definition PREFETCH_FILES : nat := 2.

(** What may run while the filter waits: a background task it started, the same
    work asked for by another partition of the scan, and another scan of the table,
    which shares the memo. *)
Inductive event :=
| Background (task : nat)
| OtherPartition (file_id : Z)
| OtherScan (file_id : Z) (path : str) (read_snapshot : option Z).

Record ScanState := {
  loaded : gmap Z (gset Z);
  position_memo : option DeletePositionMemo;
  tasks : list Z;
  started : nat;
  reads : nat;
  pending : list (list event)
}.

Definition set_loaded (l : gmap Z (gset Z)) (st : ScanState) : ScanState :=
  {| loaded := l; position_memo := position_memo st; tasks := tasks st; started := started st;
     reads := reads st; pending := pending st |}.
Definition set_memo (m : option DeletePositionMemo) (st : ScanState) : ScanState :=
  {| loaded := loaded st; position_memo := m; tasks := tasks st; started := started st;
     reads := reads st; pending := pending st |}.
Definition count_read (st : ScanState) : ScanState :=
  {| loaded := loaded st; position_memo := position_memo st; tasks := tasks st; started := started st;
     reads := S (reads st); pending := pending st |}.
Definition start_tasks (ids : list Z) (n : nat) (st : ScanState) : ScanState :=
  {| loaded := loaded st; position_memo := position_memo st; tasks := tasks st ++ ids; started := n;
     reads := reads st; pending := pending st |}.
Definition set_pending (p : list (list event)) (st : ScanState) : ScanState :=
  {| loaded := loaded st; position_memo := position_memo st; tasks := tasks st; started := started st;
     reads := reads st; pending := p |}.

(** A fallible step on the shared state. *)
Definition M (T : Type) : Type := ScanState -> result T * ScanState.

Section lazy.
Context {A : ScanArrow}.
Variables size_of_entry size_of_set : Z.
Variable capacity : gset Z -> Z.
Variable reset_plan_states : nat -> str -> result unit.
Variable execute_scan : nat -> str -> result (list (result RecordBatch)).
Variable is_object_store_not_found : DuckLakeError -> bool.
Variable head_not_found : str -> bool.
(** The plan. *)
Variables file_id_index pos_index : nat.
Variable kept : list nat.
Variable output_schema : SchemaRef.
Variable files : gmap Z FileDeletes.
Variable read_order : list Z.

(** One read of a delete file, the next attempt. *)
Definition read_positions (path : str) (read_snapshot : option Z) : M (gset Z) := fun st =>
  (read_delete_positions reset_plan_states execute_scan is_object_store_not_found head_not_found
     (reads st) path read_snapshot, count_read st).

(** [BatchFilter::delete_file_positions]. *)
Definition delete_file_positions (file_id : Z) (path : str) (read_snapshot : option Z) : M (gset Z) := fun st =>
  match position_memo st with
  | None => read_positions path read_snapshot st
  | Some m =>
      match memo_get m file_id path read_snapshot with
      | Some positions => (Ok positions, st)
      | None =>
          match read_positions path read_snapshot st with
          | (Ok positions, st) =>
              (Ok positions,
               set_memo (Some (memo_insert size_of_entry size_of_set capacity m file_id path
                                 read_snapshot positions)) st)
          | (Err e, st) => (Err e, st)
          end
      end
  end.

(** [BatchFilter::deleted]: the cell, filled by the first call that succeeds. *)
Definition deleted (file_id : Z) : M (gset Z) := fun st =>
  match files !! file_id with
  | None => (Ok ∅, st)
  | Some file =>
      match loaded st !! file_id with
      | Some positions => (Ok positions, st)
      | None =>
          let '(r, st) :=
            match delete_file file with
            | None => (Ok (inlined file), st)
            | Some path =>
                let '(r, st) := delete_file_positions file_id path (read_snapshot file) st in
                (let? from_file := r in
                 Ok (if bool_decide (inlined file = ∅) then from_file else inlined file ∪ from_file), st)
            end in
          match r with
          | Ok positions => (Ok positions, set_loaded (<[file_id := positions]> (loaded st)) st)
          | Err e => (Err e, st)
          end
      end
  end.

(** [BatchFilter::prefetch_after]. *)
Definition prefetch_after (file_id : Z) (st : ScanState) : ScanState :=
  match position (fun id => id =? file_id) read_order with
  | None => st
  | Some position =>
      let stop := Nat.min (position + 1 + PREFETCH_FILES) (length read_order) in
      let start := Nat.max (started st) (position + 1) in
      let start := Nat.min start stop in
      start_tasks (List.firstn (stop - start) (List.skipn start read_order))
        (Nat.max (started st) stop) st
  end.

Definition run_event (st : ScanState) (e : event) : ScanState :=
  match e with
  | Background task =>
      match tasks st !! task with Some id => (deleted id st).2 | None => st end
  | OtherPartition id => (deleted id st).2
  | OtherScan id path snapshot => (delete_file_positions id path snapshot st).2
  end.

(** A suspension point. *)
Definition settle (st : ScanState) : ScanState :=
  match pending st with
  | [] => st
  | events :: rest => foldl run_event (set_pending rest st) events
  end.

(** The loop over a batch's rows in [BatchFilter::apply]. *)
Fixpoint keep_rows (file_ids positions : Int64Array) (rows : list nat)
    (current : option (Z * gset Z)) : M (list bool) := fun st =>
  match rows with
  | [] => (Ok [], st)
  | row :: rows' =>
      let file_id := value file_ids row in
      let keep_with (set : gset Z) current st :=
        let '(r, st) := keep_rows file_ids positions rows' current st in
        (let? keep := r in Ok (bool_decide (value positions row ∉ set) :: keep), st) in
      let load st :=
        match deleted file_id (settle (prefetch_after file_id st)) with
        | (Ok set, st) => keep_with set (Some (file_id, set)) st
        | (Err e, st) => (Err e, st)
        end in
      match current with
      | Some (id, set) => if id =? file_id then keep_with set current st else load st
      | None => load st
      end
  end.

(** [project_kept_columns]. *)
Definition project_kept_columns (batch : RecordBatch) : result RecordBatch :=
  try_new_with_row_count output_schema (column batch <$> kept) (num_rows batch).

(** [BatchFilter::apply]. *)
Definition apply_filter (batch : RecordBatch) : M RecordBatch := fun st =>
  match int64_column batch file_id_index "data file id", int64_column batch pos_index "row position" with
  | Err e, _ => (Err e, st)
  | Ok _, Err e => (Err e, st)
  | Ok file_ids, Ok positions =>
      if bool_decide (files = ∅) then (project_kept_columns batch, st)
      else
        let '(r, st) := keep_rows file_ids positions (seq 0 (num_rows batch)) None st in
        (let? keep := r in
         let? filtered := filter_record_batch batch keep in
         project_kept_columns filtered, st)
  end.

(** The stream of [LazyDeleteFilterExec::execute]: one item per item of the
    input, an input's error passed on. *)
Fixpoint execute_filter (input : list (result RecordBatch)) (st : ScanState)
  : list (result RecordBatch) * ScanState :=
  match input with
  | [] => ([], st)
  | item :: input' =>
      let '(out, st) := match item with Ok batch => apply_filter batch st | Err e => (Err e, st) end in
      let '(outs, st) := execute_filter input' st in
      (out :: outs, st)
  end.
End lazy.

(** The input columns [LazyDeleteFilterExec::try_new] keeps. *)
Definition kept_columns (fields file_id_index pos_index : nat) : list nat :=
  filter (fun index => index <> file_id_index /\ index <> pos_index) (seq 0 fields).

(** ** What the filters must compute *)

Section rows.
Context {A : ScanArrow} {Row : Type}.
Variable row : RecordBatch -> nat -> Row.

Definition rows (b : RecordBatch) : list Row := row b <$> seq 0 (num_rows b).

(** Arrow's [take] on every column: the rows at the indices, in that order. *)
Definition takes_rows (b : RecordBatch) : Prop :=
  forall indices, Forall (fun i => (i < num_rows b)%nat) indices ->
    exists out, take_rows b indices = Ok out /\ rows out = row b <$> indices.

(** Column [index] of the batch holds [f] of each row. *)
Definition column_holds (b : RecordBatch) (index : nat) (f : Row -> bool * Z) : Prop :=
  exists a, downcast_int64 (column b index) = Some a
    /\ forall i, (i < num_rows b)%nat -> a !! i = Some (f (row b i)).

(** The rows a mask keeps. *)
Definition masked {B} (keep : list bool) (l : list B) : list B := snd <$> filter (fun e => e.1 = true) (zip keep l).

Lemma filter_seq_rows b (P : Row -> Prop) (Q : nat -> Prop)
  `{!forall r, Decision (P r)} `{!forall i, Decision (Q i)} :
  (forall i, (i < num_rows b)%nat -> Q i <-> P (row b i)) ->
  row b <$> filter Q (seq 0 (num_rows b)) = filter P (rows b).
Proof.
  unfold rows. intros HQP. assert (Forall (fun i => Q i <-> P (row b i)) (seq 0 (num_rows b))) as HF.
  { apply Forall_forall. intros i Hi. apply elem_of_seq in Hi. apply HQP. lia. }
  induction HF as [|i l Hi _ IH]; [done|]. cbn [fmap list_fmap]. rewrite !filter_cons.
  destruct (decide (Q i)) as [HQ|HQ], (decide (P (row b i))) as [HP|HP]; try tauto.
  cbn [fmap list_fmap]. by f_equal.
Qed.

(** An eager filter: the batch itself when nothing is dropped, else the rows
    taken. *)
Lemma take_or_same b (P : Row -> Prop) (Q : nat -> Prop)
  `{!forall r, Decision (P r)} `{!forall i, Decision (Q i)} :
  takes_rows b -> (forall i, (i < num_rows b)%nat -> Q i <-> P (row b i)) ->
  let keep := filter Q (seq 0 (num_rows b)) in
  exists out, (if (length keep =? num_rows b)%nat then Ok b else take_rows b keep) = Ok out
    /\ rows out = filter P (rows b).
Proof.
  intros Htake HQ keep. rewrite <- (filter_seq_rows b P Q HQ). destruct (Nat.eqb_spec (length keep) (num_rows b)) as [Hl|_].
  - exists b. split; [done|]. unfold rows. f_equal. symmetry. apply filter_every. intros i Hi.
    destruct (decide (Q i)) as [|Hn]; [done|]. exfalso. pose proof (length_filter_lt Q _ i Hi Hn) as Hlt.
    fold keep in Hlt. rewrite length_seq in Hlt. lia.
  - apply Htake. apply Forall_forall. intros i Hi. apply list_elem_of_filter in Hi as [_ Hi].
    apply elem_of_seq in Hi. lia.
Qed.

Lemma delete_filter_batch_ok deleted_positions pos_index b (pos : Row -> Z) :
  takes_rows b -> column_holds b pos_index (fun r => (true, pos r)) ->
  exists out, delete_filter_batch deleted_positions pos_index b = Ok out
    /\ rows out = filter (fun r => pos r ∉ deleted_positions) (rows b).
Proof.
  intros Htake (a & Ha & Hv). unfold delete_filter_batch. case_bool_decide as He.
  { exists b. split; [done|]. symmetry. apply filter_every. intros. subst. apply not_elem_of_empty. }
  rewrite Ha. cbn [ok_or result_bind].
  apply take_or_same; [done|]. intros i Hi. unfold value. by rewrite (Hv i Hi).
Qed.

(** [origin] is the validity and value of a row's embedded snapshot. *)
Lemma snapshot_filter_batch_ok name index read_snapshot b (origin : Row -> bool * Z) :
  takes_rows b -> column_holds b index origin ->
  exists out, snapshot_filter_batch name index read_snapshot b = Ok out
    /\ rows out = filter (fun r => (origin r).1 && ((origin r).2 <=? read_snapshot) = true) (rows b).
Proof.
  intros Htake (a & Ha & Hv). unfold snapshot_filter_batch. rewrite Ha. cbn [ok_or result_bind].
  apply take_or_same; [done|]. intros i Hi. unfold is_valid, value. by rewrite (Hv i Hi).
Qed.
End rows.

(** ** The lazy filter is right in every order *)

Section correctness.
Context {A : ScanArrow} {Row : Type}.
Variable row : RecordBatch -> nat -> Row.
Variables size_of_entry size_of_set : Z.
Variable capacity : gset Z -> Z.
Variable reset_plan_states : nat -> str -> result unit.
Variable execute_scan : nat -> str -> result (list (result RecordBatch)).
Variable is_object_store_not_found : DuckLakeError -> bool.
Variable head_not_found : str -> bool.
Variables file_id_index pos_index : nat.
Variable kept : list nat.
Variable output_schema : SchemaRef.
Variable files : gmap Z FileDeletes.
Variable read_order : list Z.

(** The batches a delete file holds, and each row's file, position and kept
    columns. *)
Variable file_batches : str -> list RecordBatch.
Variables (row_file row_position : Row -> Z) (kept_of : Row -> Row).

(** A delete file is never rewritten in place: a read that gets to its end gets
    what the file holds. *)
Definition delete_files_are_immutable : Prop :=
  forall attempt path bs, execute_scan attempt path = Ok (Ok <$> bs) -> bs = file_batches path.

(** Every read gets to its end. *)
Definition reads_succeed : Prop :=
  forall attempt path,
    reset_plan_states attempt path = Ok tt
    /\ (exists bs, execute_scan attempt path = Ok (Ok <$> bs))
    /\ Forall (fun b => is_ok (batch_entries b) = true) (file_batches path).

(** The entries a delete file records. *)
Definition recorded (path : str) : list entry :=
  file_batches path ≫= (fun b => match batch_entries b with Ok es => es | Err _ => [] end).

(** The positions deleted from a data file at the snapshot read. *)
Definition deleted_set (file_id : Z) : gset Z :=
  match files !! file_id with
  | None => ∅
  | Some file =>
      inlined file
      ∪ match delete_file file with
        | Some path => positions_of (read_snapshot file) (recorded path)
        | None => ∅
        end
  end.

(** What the model of the scan calls. *)
Let read_entries := read_delete_entries reset_plan_states execute_scan is_object_store_not_found head_not_found.
Let read_positions' := read_positions reset_plan_states execute_scan is_object_store_not_found head_not_found.
Let file_positions := delete_file_positions size_of_entry size_of_set capacity reset_plan_states execute_scan
                        is_object_store_not_found head_not_found.
Let deleted' := deleted size_of_entry size_of_set capacity reset_plan_states execute_scan
                  is_object_store_not_found head_not_found files.
Let run_event' := run_event size_of_entry size_of_set capacity reset_plan_states execute_scan
                    is_object_store_not_found head_not_found files.
Let settle' := settle size_of_entry size_of_set capacity reset_plan_states execute_scan
                 is_object_store_not_found head_not_found files.
Let keep_rows' := keep_rows size_of_entry size_of_set capacity reset_plan_states execute_scan
                    is_object_store_not_found head_not_found files read_order.
Let apply_filter' := apply_filter size_of_entry size_of_set capacity reset_plan_states execute_scan
  is_object_store_not_found head_not_found file_id_index pos_index kept output_schema files read_order.
Let execute_filter' := execute_filter size_of_entry size_of_set capacity reset_plan_states execute_scan
  is_object_store_not_found head_not_found file_id_index pos_index kept output_schema files read_order.

(** The memo answers what its delete files record. *)
Definition memo_true (m : option DeletePositionMemo) : Prop :=
  forall memo fid path snap positions, m = Some memo -> memo_get memo fid path snap = Some positions ->
    positions = positions_of snap (recorded path).

Definition state_ok (st : ScanState) : Prop :=
  (forall fid s, loaded st !! fid = Some s -> s = deleted_set fid) /\ memo_true (position_memo st).

(** A step keeps the state right, gives the right answer when it gives one, and
    gives one when the reads succeed. *)
Definition answers {T} (m : M T) (P : T -> Prop) : Prop :=
  forall st, state_ok st ->
    state_ok (m st).2 /\ (forall t, (m st).1 = Ok t -> P t) /\ (reads_succeed -> is_ok (m st).1 = true).

Hypothesis immutable : delete_files_are_immutable.

Lemma each_batch_entries path stream : forall acc es,
  each_batch is_object_store_not_found head_not_found
    (fun entries _ batch => Ok (entries ++ batch)) path stream acc = Ok es ->
  exists bs, stream = Ok <$> bs
    /\ es = acc ++ (bs ≫= fun b => match batch_entries b with Ok es => es | Err _ => [] end).
Proof.
  induction stream as [|[b|e] stream IH]; intros acc es; cbn [each_batch].
  - intros [= <-]. exists []. split; [done|]. cbn. by rewrite app_nil_r.
  - destruct (batch_entries b) as [es'|] eqn:Eb; cbn [result_bind]; [|done]. intros H.
    apply IH in H as (bs & -> & ->). exists (b :: bs). split; [done|]. cbn [mbind list_bind]. rewrite Eb.
    by rewrite <- app_assoc.
  - done.
Qed.

Lemma each_batch_succeeds path bs : forall acc,
  Forall (fun b => is_ok (batch_entries b) = true) bs ->
  is_ok (each_batch is_object_store_not_found head_not_found
    (fun entries _ batch => Ok (entries ++ batch)) path (Ok <$> bs) acc) = true.
Proof.
  induction bs as [|b bs IH]; intros acc Hbs; [done|]. apply Forall_cons in Hbs as [Hb Hbs]. cbn [fmap list_fmap each_batch].
  destruct (batch_entries b); [|done]. cbn [result_bind]. by apply IH.
Qed.

Lemma read_entries_ok attempt path :
  (forall es, read_entries attempt path = Ok es -> es = recorded path)
  /\ (reads_succeed -> is_ok (read_entries attempt path) = true).
Proof.
  unfold read_entries, read_delete_entries, for_each_delete_batch. split.
  - intros es H. result_inv. destruct (execute_scan attempt path) as [stream|] eqn:Es; [|done].
    apply each_batch_entries in H as (bs & -> & ->). by apply immutable in Es as ->.
  - intros Hr. destruct (Hr attempt path) as (-> & (bs & Hbs) & Hall). cbn [result_bind]. rewrite Hbs.
    apply immutable in Hbs as ->. by apply each_batch_succeeds.
Qed.

Lemma read_positions_answers path snap :
  answers (read_positions' path snap) (fun s => s = positions_of snap (recorded path)).
Proof.
  intros st Hst. unfold read_positions', read_positions, read_delete_positions. cbn [fst snd].
  destruct (read_entries_ok (reads st) path) as [H1 H2]. split; [exact Hst|].
  fold (read_entries (reads st) path). split.
  - intros t Ht. result_inv. f_equal. by apply H1.
  - intros Hr. specialize (H2 Hr). by destruct (read_entries (reads st) path).
Qed.

Lemma file_positions_answers fid path snap :
  answers (file_positions fid path snap) (fun s => s = positions_of snap (recorded path)).
Proof.
  intros st Hst. unfold file_positions, delete_file_positions.
  destruct (position_memo st) as [m|] eqn:Em; [|by apply read_positions_answers].
  destruct (memo_get m fid path snap) as [positions|] eqn:Eg.
  - split; [done|]. cbn. split; [|done]. intros t [= <-]. destruct Hst as [_ Hm]. by eapply Hm.
  - destruct (read_positions_answers path snap st Hst) as (Hok & Ht & Hr).
    fold read_positions'. destruct (read_positions' path snap st) as [[positions|e] st'] eqn:Er; cbn in *; [|done].
    split; [|done]. destruct Hok as [Hl Hm]. split; [done|]. intros memo fid' path' snap' positions' [= <-] Hg.
    apply memo_get_insert in Hg as [[= -> -> -> ->]|Hg]; [by apply Ht|].
    destruct Hst as [_ Hm0]. by eapply Hm0.
Qed.

Lemma deleted_answers fid : answers (deleted' fid) (fun s => s = deleted_set fid).
Proof.
  intros st Hst. unfold deleted', deleted. unfold deleted_set.
  destruct (files !! fid) as [file|] eqn:Ef; [|cbn; naive_solver].
  destruct (loaded st !! fid) as [s|] eqn:El.
  { split; [done|]. cbn. split; [|done]. intros t [= <-]. destruct Hst as [Hl _]. rewrite (Hl _ _ El).
    unfold deleted_set. by rewrite Ef. }
  assert (forall s st', state_ok st' -> s = deleted_set fid -> state_ok (set_loaded (<[fid:=s]> (loaded st')) st')) as Hset.
  { intros s st' [Hl Hm] ->. split; [|done]. cbn. intros fid' s'. destruct (decide (fid' = fid)) as [->|].
    - rewrite lookup_insert_eq. naive_solver.
    - rewrite lookup_insert_ne by done. apply Hl. }
  unfold deleted_set in Hset. rewrite Ef in Hset.
  destruct (delete_file file) as [path|]; cbn.
  2:{ split; [apply Hset; [done|set_solver]|]. split; [|done]. intros t [= <-]. set_solver. }
  destruct (file_positions_answers fid path (read_snapshot file) st Hst) as (Hok & Ht & Hr).
  fold (file_positions fid path (read_snapshot file)).
  destruct (file_positions fid path (read_snapshot file) st) as [[s|e] st'] eqn:Er; cbn in *; [|done].
  assert ((if bool_decide (inlined file = ∅) then s else inlined file ∪ s)
          = inlined file ∪ positions_of (read_snapshot file) (recorded path)) as Hs.
  { rewrite (Ht s eq_refl). case_bool_decide as He; [|done]. rewrite He. set_solver. }
  split; [by apply Hset|]. split; [|done]. intros t [= <-]. exact Hs.
Qed.

Lemma settle_ok st : state_ok st -> state_ok (settle' st).
Proof.
  intros Hst. unfold settle', settle. destruct (pending st) as [|events rest]; [done|].
  assert (state_ok (set_pending rest st)) as H by exact Hst. clear Hst. revert H.
  generalize (set_pending rest st). induction events as [|e events IH]; intros st' H; cbn [foldl]; [done|].
  apply IH. destruct e as [task|fid|fid path snap]; cbn [run_event].
  - destruct (tasks st' !! task) as [fid|]; [|done]. by apply deleted_answers.
  - by apply deleted_answers.
  - by apply file_positions_answers.
Qed.

Lemma prefetch_ok fid st : state_ok st -> state_ok (prefetch_after read_order fid st).
Proof. intros Hst. unfold prefetch_after. by destruct (position _ read_order). Qed.

(** A row survives. *)
Definition survives (r : Row) : Prop := row_position r ∉ deleted_set (row_file r).

#[local] Instance survives_dec r : Decision (survives r).
Proof. unfold survives. apply _. Defined.

(** What the scan below hands the filter: the file id and position columns, and
    Arrow's filter and projection of the batch. *)
Definition scan_batch (b : RecordBatch) : Prop :=
  column_holds row b file_id_index (fun r => (true, row_file r))
  /\ column_holds row b pos_index (fun r => (true, row_position r))
  /\ (exists out, project_kept_columns kept output_schema b = Ok out /\ rows row out = kept_of <$> rows row b)
  /\ (forall keep, length keep = num_rows b ->
        exists filtered out, filter_record_batch b keep = Ok filtered
          /\ project_kept_columns kept output_schema filtered = Ok out
          /\ rows row out = kept_of <$> masked keep (rows row b)).

Lemma keep_rows_answers b file_ids positions (is_ : list nat) : forall current,
  Forall (fun i => value file_ids i = row_file (row b i) /\ value positions i = row_position (row b i)) is_ ->
  (forall fid s, current = Some (fid, s) -> s = deleted_set fid) ->
  answers (keep_rows' file_ids positions is_ current) (fun keep => keep = (fun i => bool_decide (survives (row b i))) <$> is_).
Proof.
  induction is_ as [|i is_ IH]; intros current His Hcur st Hst; unfold keep_rows'; cbn [keep_rows].
  { cbn. split; [done|]. split; [|done]. by intros t [= <-]. }
  apply Forall_cons in His as [[Hf Hp] His]. fold keep_rows'.
  assert (forall s cur st', state_ok st' -> s = deleted_set (row_file (row b i)) ->
            (forall fid s, cur = Some (fid, s) -> s = deleted_set fid) ->
            let out := (let '(r, st) := keep_rows' file_ids positions is_ cur st' in
              (let? keep := r in Ok (bool_decide (value positions i ∉ s) :: keep), st)) in
            state_ok out.2
            /\ (forall t, out.1 = Ok t -> t = (fun i => bool_decide (survives (row b i))) <$> (i :: is_))
            /\ (reads_succeed -> is_ok out.1 = true)) as Hstep.
  { intros s cur st' Hst' -> Hc. destruct (IH cur His Hc st' Hst') as (H1 & H2 & H3).
    destruct (keep_rows' file_ids positions is_ cur st') as [[keep|e] st'']; cbn in *; [|done].
    split; [done|]. split; [|done]. intros t [= <-]. rewrite Hp, (H2 keep eq_refl). done. }
  assert (let out := match deleted' (value file_ids i) (settle' (prefetch_after read_order (value file_ids i) st)) with
                     | (Ok set, st) => let '(r, st) := keep_rows' file_ids positions is_ (Some (value file_ids i, set)) st in
                         (let? keep := r in Ok (bool_decide (value positions i ∉ set) :: keep), st)
                     | (Err e, st) => (Err e, st)
                     end in
          state_ok out.2
          /\ (forall t, out.1 = Ok t -> t = (fun i => bool_decide (survives (row b i))) <$> (i :: is_))
          /\ (reads_succeed -> is_ok out.1 = true)) as Hload.
  { destruct (deleted_answers (value file_ids i) _ (settle_ok _ (prefetch_ok (value file_ids i) st Hst))) as (H1 & H2 & H3).
    destruct (deleted' _ _) as [[s|e] st']; cbn in *; [|done]. specialize (H2 s eq_refl).
    apply Hstep; [done|by rewrite <- Hf|]. by intros fid s' [= <- <-]. }
  destruct current as [[fid s]|]; [|exact Hload].
  destruct (Z.eqb_spec fid (value file_ids i)) as [->|_]; [|exact Hload].
  apply Hstep; [done| |done]. rewrite <- Hf. by apply Hcur.
Qed.

Lemma masked_filter {B} (P : B -> Prop) `{!forall x, Decision (P x)} (l : list B) :
  masked ((fun x => bool_decide (P x)) <$> l) l = filter P l.
Proof.
  unfold masked. induction l as [|x l IH]; [done|]. cbn [fmap list_fmap zip_with]. rewrite !filter_cons. cbn [fst].
  destruct (decide (P x)).
  - rewrite bool_decide_true, decide_True by done. cbn [fmap list_fmap snd]. by f_equal.
  - by rewrite bool_decide_false, decide_False by done.
Qed.

Lemma apply_filter_answers b :
  scan_batch b -> answers (apply_filter' b) (fun out => rows row out = kept_of <$> filter survives (rows row b)).
Proof.
  intros ((fa & Hfa & Hf) & (pa & Hpa & Hp) & (out0 & Hout0 & Hrows0) & Hfilter) st Hst.
  unfold apply_filter', apply_filter, int64_column. rewrite Hfa, Hpa. cbn [ok_or].
  case_bool_decide as He.
  { cbn. rewrite Hout0. split; [done|]. split; [|done]. intros t [= <-]. rewrite Hrows0. f_equal. symmetry.
    apply filter_every. intros r _. unfold survives, deleted_set. rewrite He, lookup_empty. apply not_elem_of_empty. }
  destruct (keep_rows_answers b fa pa (seq 0 (num_rows b)) None) with (st := st) as (H1 & H2 & H3); [|done|done|].
  { apply Forall_forall. intros i Hi. apply elem_of_seq in Hi. unfold value. rewrite Hf, Hp by lia. done. }
  fold keep_rows'. destruct (keep_rows' fa pa _ None st) as [[keep|e] st']; cbn in *; [|done].
  split; [done|]. specialize (H2 keep eq_refl).
  destruct (Hfilter keep) as (f & out & -> & Hout & Hrows); [subst keep; by rewrite length_fmap, length_seq|].
  cbn [result_bind]. rewrite Hout. split; [|done]. intros t [= <-]. rewrite Hrows. f_equal. subst keep.
  rewrite <- masked_filter. f_equal. unfold rows. by rewrite <- list_fmap_compose.
Qed.

Lemma execute_filter_ok input : forall st,
  state_ok st -> Forall (fun item => forall b, item = Ok b -> scan_batch b) input ->
  state_ok (execute_filter' input st).2
  /\ Forall2 (fun item out =>
       match item with
       | Err e => out = Err e
       | Ok b => (forall o, out = Ok o -> rows row o = kept_of <$> filter survives (rows row b))
                 /\ (reads_succeed -> is_ok out = true)
       end) input (execute_filter' input st).1.
Proof.
  induction input as [|item input IH]; intros st Hst Hin; unfold execute_filter'; cbn [execute_filter].
  { split; [done|constructor]. }
  apply Forall_cons in Hin as [Hitem Hin]. fold execute_filter'. destruct item as [b|e].
  - destruct (apply_filter_answers b (Hitem b eq_refl) st Hst) as (H1 & H2 & H3). fold (apply_filter' b st).
    destruct (apply_filter' b st) as [out st']. cbn in H1, H2, H3. destruct (IH st' H1 Hin) as [H4 H5].
    destruct (execute_filter' input st') as [outs st'']. cbn in *. split; [done|]. by constructor.
  - destruct (IH st Hst Hin) as [H4 H5]. destruct (execute_filter' input st) as [outs st'']. cbn in *.
    split; [done|]. by constructor.
Qed.
End correctness.

(** ** The published count *)

Lemma deleted_in_range_count (deleted_positions : gset Z) (n : nat) :
  length (filter (fun p => p ∉ deleted_positions) (Z.of_nat <$> seq 0 n))
  = (n - deleted_in_range deleted_positions n)%nat.
Proof.
  assert (deleted_in_range deleted_positions n
          = length (filter (fun p => p ∈ deleted_positions) (Z.of_nat <$> seq 0 n))) as ->.
  { unfold deleted_in_range. apply Permutation_length. apply NoDup_Permutation.
    - apply NoDup_filter, NoDup_elements.
    - apply NoDup_filter. apply NoDup_fmap_2; [apply _|apply NoDup_seq].
    - intros p. rewrite !list_elem_of_filter, elem_of_elements, list_elem_of_fmap. split.
      + intros [[H0 Hn] Hd]. split; [done|]. exists (Z.to_nat p). rewrite elem_of_seq. lia.
      + intros [Hd (i & -> & Hi)]. apply elem_of_seq in Hi. split; [lia|done]. }
  assert (forall l : list Z, (length (filter (fun p => p ∉ deleted_positions) l)
            + length (filter (fun p => p ∈ deleted_positions) l))%nat = length l) as Hsum.
  { induction l as [|p l IH]; [done|]. rewrite !filter_cons. repeat case_decide; cbn [length]; try lia; tauto. }
  specialize (Hsum (Z.of_nat <$> seq 0 n)). rewrite length_fmap, length_seq in Hsum. lia.
Qed.

Lemma delete_filter_batches_ok {A : ScanArrow} {Row : Type} (row : RecordBatch -> nat -> Row)
  deleted_positions pos_index (pos : Row -> Z) batches :
  Forall (takes_rows row) batches ->
  Forall (fun b => column_holds row b pos_index (fun r => (true, pos r))) batches ->
  exists outs, mapM_result (delete_filter_batch deleted_positions pos_index) batches = Ok outs
    /\ outs ≫= rows row = filter (fun r => pos r ∉ deleted_positions) (batches ≫= rows row).
Proof.
  intros Ht Hc. induction batches as [|b batches IH]; [by exists []|].
  apply Forall_cons in Ht as [Hb Ht]. apply Forall_cons in Hc as [Hcb Hc].
  destruct (IH Ht Hc) as (outs & Houts & Hrows).
  destruct (delete_filter_batch_ok row deleted_positions pos_index b pos Hb Hcb) as (out & Hout & Hr).
  exists (out :: outs). cbn [mapM_result mbind list_bind]. rewrite Hout. cbn [result_bind]. rewrite Houts. cbn [result_bind].
  split; [done|]. rewrite filter_app, Hr. by f_equal.
Qed.

(** ** Arrow over lists, for concrete evaluations *)

Definition list_arrow : ScanArrow := {|
  RecordBatch := list str * nat * list Int64Array;
  SchemaRef := list str;
  ArrayRef := Int64Array;
  num_rows b := b.1.2;
  schema b := b.1.1;
  columns b := b.2;
  column b i := default [] (b.2 !! i);
  index_of names name := ok_or (position (fun n => bool_decide (n = name)) names) (External []);
  downcast_int64 a := Some a;
  downcast_boolean a := Some ((fun e => (e.1, e.2 =? 1)) <$> a);
  int64_array l := (fun o => match o with Some z => (true, z) | None => (false, 0) end) <$> l;
  take a is_ := Ok ((fun i => default (false, 0) (a !! i)) <$> is_);
  try_new names cols := Ok (names, length (default [] (head cols)), cols);
  try_new_with_row_count names cols n := Ok (names, n, cols);
  filter_record_batch b keep :=
    Ok (b.1.1, length (filter (fun k => k = true) keep), masked keep <$> b.2)
|}.

Definition list_row (b : @RecordBatch list_arrow) (i : nat) : list (bool * Z) :=
  (fun c => default (false, 0) (c !! i)) <$> b.2.

Definition ints (l : list Z) : Int64Array := pair true <$> l.

(** A scan's batch: a value, the data file's id and the position of each row. *)
Definition sample_scan_batch : @RecordBatch list_arrow :=
  ([lit "v"; lit "file"; lit "pos"], 3%nat, [ints [10; 20; 30]; ints [1; 1; 2]; ints [0; 1; 0]]).

(** A delete file: position 0 deleted at snapshot 4, position 1 at snapshot 9. *)
Definition sample_delete_batch : @RecordBatch list_arrow :=
  ([DELETE_POS_COL; DELETE_SNAPSHOT_COL], 2%nat, [ints [0; 1]; ints [4; 9]]).

(** ** Theorems *)

(** C17. Deletes applied by the lazy filter, in every order of events. Take any
    schedule of background tasks, other partitions and other scans of the table,
    delete-file reads that may fail at some attempts, and a memo that holds what
    its delete files record. Then every batch that comes out holds exactly the
    input batch's rows whose position is not among the positions deleted from
    their file at the snapshot read (inlined deletions, and the delete file's
    entries recorded at or before it), in order; one comes out for every input
    batch when the reads succeed; and the memo still holds what its delete files
    record, for the next scan. *)
Theorem lazy_filter_drops_exactly_the_deleted {A : ScanArrow} {Row : Type} (row : RecordBatch -> nat -> Row)
  (size_of_entry size_of_set : Z) (capacity : gset Z -> Z)
  (reset_plan_states : nat -> str -> result unit)
  (execute_scan : nat -> str -> result (list (result RecordBatch)))
  (is_object_store_not_found : DuckLakeError -> bool) (head_not_found : str -> bool)
  (file_id_index pos_index : nat) (kept : list nat) (output_schema : SchemaRef)
  (files : gmap Z FileDeletes) (read_order : list Z) (file_batches : str -> list RecordBatch)
  (row_file row_position : Row -> Z) (kept_of : Row -> Row)
  (input : list (result RecordBatch)) (st : ScanState) :
  delete_files_are_immutable execute_scan file_batches ->
  loaded st = ∅ -> memo_true file_batches (position_memo st) ->
  Forall (fun item => forall b, item = Ok b ->
    scan_batch row file_id_index pos_index kept output_schema row_file row_position kept_of b) input ->
  let '(outs, st') := execute_filter size_of_entry size_of_set capacity reset_plan_states execute_scan
    is_object_store_not_found head_not_found file_id_index pos_index kept output_schema files read_order input st in
  Forall2 (fun item out =>
    match item with
    | Err e => out = Err e
    | Ok b =>
        (forall o, out = Ok o ->
           rows row o = kept_of <$> filter (fun r => row_position r ∉ deleted_set files file_batches (row_file r))
                                      (rows row b))
        /\ (reads_succeed reset_plan_states execute_scan file_batches -> is_ok out = true)
    end) input outs
  /\ memo_true file_batches (position_memo st').
Proof.
  intros Himm Hl Hm Hin.
  assert (state_ok files file_batches st) as Hst by (split; [rewrite Hl; set_solver|done]).
  destruct (execute_filter_ok row size_of_entry size_of_set capacity reset_plan_states execute_scan
    is_object_store_not_found head_not_found file_id_index pos_index kept output_schema files read_order
    file_batches row_file row_position kept_of Himm input st Hst Hin) as [[_ Hm'] H].
  destruct (execute_filter _ _ _ _ _ _ _ _ _ _ _ _ _ input st) as [outs st']. split; [exact H|exact Hm'].
Qed.

(** C19. The row count [DeleteFilterExec] publishes as exact, which answers
    [count( * )], is the number of rows it emits: for a file whose [n] rows arrive
    in any order and any batches, with any set of positions (some of them of
    other files), filtering every batch succeeds, keeps exactly the rows whose
    position is not in the set, and [n] less the positions in range is their
    number. *)
Theorem published_count_is_emitted {A : ScanArrow} {Row : Type} (row : RecordBatch -> nat -> Row)
  (deleted_positions : gset Z) (pos_index : nat) (pos : Row -> Z) (batches : list RecordBatch) (n : nat) :
  Forall (takes_rows row) batches ->
  Forall (fun b => column_holds row b pos_index (fun r => (true, pos r))) batches ->
  pos <$> (batches ≫= rows row) ≡ₚ Z.of_nat <$> seq 0 n ->
  exists outs, mapM_result (delete_filter_batch deleted_positions pos_index) batches = Ok outs
    /\ outs ≫= rows row = filter (fun r => pos r ∉ deleted_positions) (batches ≫= rows row)
    /\ delete_filter_num_rows deleted_positions (Exact n) None = Exact (length (outs ≫= rows row)).
Proof.
  intros Ht Hc Hpos. destruct (delete_filter_batches_ok row deleted_positions pos_index pos batches Ht Hc) as (outs & Houts & Hrows).
  exists outs. split; [done|]. split; [done|]. cbn. f_equal. rewrite <- deleted_in_range_count, <- Hpos, Hrows.
  apply length_filter_fmap. by apply Forall_forall.
Qed.

(** A scan of the sample batch at snapshot 5: file 1 has the sample delete file,
    file 2 one inlined deletion; the first read of the delete file fails, in
    another partition. *)
Definition sample_files : gmap Z FileDeletes :=
  {[ 1 := {| delete_file := Some (lit "d"); inlined := ∅; catalog_deleted := Some 1%nat; read_snapshot := Some 5 |};
     2 := {| delete_file := None; inlined := {[0]}; catalog_deleted := Some 1%nat; read_snapshot := Some 5 |} ]}.

Definition sample_execute (attempt : nat) (path : str) : result (list (result (@RecordBatch list_arrow))) :=
  match attempt with O => Err (External "timeout") | S _ => Ok [Ok sample_delete_batch] end.

Definition sample_state : ScanState :=
  {| loaded := ∅; position_memo := memo_new 1000; tasks := []; started := 0; reads := 0;
     pending := [[OtherPartition 1; Background 0]] |}.

Definition sample_run : list (result (@RecordBatch list_arrow)) * ScanState :=
  execute_filter (A := list_arrow) 72 48 sample_capacity (fun _ _ => Ok tt) sample_execute (fun _ => false)
    (fun _ => false) 1 2 [0%nat] [lit "v"] sample_files [1; 2] [Ok sample_scan_batch] sample_state.

Definition nth_value (n : nat) (r : list (bool * Z)) : Z := default 0 (snd <$> r !! n).

Lemma sample_scan_batch_ok :
  scan_batch (A := list_arrow) list_row 1 2 [0%nat] [lit "v"] (nth_value 1) (nth_value 2)
    (fun r => List.firstn 1 r) sample_scan_batch.
Proof.
  split; [|split; [|split]].
  - eexists. split; [reflexivity|]. intros i Hi. do 3 (destruct i as [|i]; [reflexivity|]). cbn in Hi. lia.
  - eexists. split; [reflexivity|]. intros i Hi. do 3 (destruct i as [|i]; [reflexivity|]). cbn in Hi. lia.
  - eexists. split; reflexivity.
  - intros keep Hl. destruct keep as [|[] [|[] [|[] [|? ?]]]]; try discriminate Hl;
      eexists; eexists; (split; [reflexivity|]); split; reflexivity.
Qed.

Lemma sample_immutable :
  delete_files_are_immutable (A := list_arrow) sample_execute (fun _ => [sample_delete_batch]).
Proof.
  intros attempt path bs H. destruct attempt; [done|]. cbn in H. injection H as H.
  destruct bs as [|b [|? ?]]; try done. by injection H as <-.
Qed.

Lemma lazy_filter_drops_exactly_the_deleted_witness :
  sample_run.1 = [Ok ([lit "v"], 1%nat, [ints [20]])]
  /\ (forall o, sample_run.1 = [Ok o] ->
        rows (A := list_arrow) list_row o
        = (fun r => List.firstn 1 r) <$>
            filter (fun r => nth_value 2 r ∉ deleted_set (A := list_arrow) sample_files
                               (fun _ => [sample_delete_batch]) (nth_value 1 r))
              (rows (A := list_arrow) list_row sample_scan_batch)).
Proof.
  split; [vm_compute; reflexivity|]. intros o Ho.
  pose proof (lazy_filter_drops_exactly_the_deleted (A := list_arrow) list_row 72 48 sample_capacity
    (fun _ _ => Ok tt) sample_execute (fun _ => false) (fun _ => false) 1 2 [0%nat] [lit "v"] sample_files [1; 2]
    (fun _ => [sample_delete_batch]) (nth_value 1) (nth_value 2) (fun r => List.firstn 1 r)
    [Ok sample_scan_batch] sample_state sample_immutable eq_refl) as T.
  assert (memo_true (A := list_arrow) (fun _ => [sample_delete_batch]) (position_memo sample_state)) as Hm.
  { intros memo fid path snap positions [= <-] Hg. unfold memo_get in Hg. cbn in Hg. by rewrite lookup_empty in Hg. }
  specialize (T Hm ltac:(constructor; [intros b [= <-]; exact sample_scan_batch_ok|constructor])).
  revert Ho T. unfold sample_run. destruct (execute_filter _ _ _ _ _ _ _ _ _ _ _ _ _ _ _) as [outs st'].
  intros Ho [T _]. cbn in Ho. subst outs. apply Forall2_cons in T as [T _]. destruct T as [H _]. by apply H.
Defined.

Lemma fmap_lookup_seq {B C D} (f : B -> C) (h : option C -> D) (l : list B) :
  (fun i => h ((f <$> l) !! i)) <$> seq 0 (length l) = (fun x => h (Some (f x))) <$> l.
Proof.
  apply list_eq. intros j. rewrite !list_lookup_fmap. destruct (l !! j) as [x|] eqn:Ej.
  - rewrite lookup_seq_lt by (by eapply lookup_lt_Some). cbn. by rewrite list_lookup_fmap, Ej.
  - rewrite lookup_seq_ge; [done|]. by apply lookup_ge_None in Ej.
Qed.

Lemma list_takes_rows (name : str) (n : nat) (c : Int64Array) :
  takes_rows (A := list_arrow) list_row ([name], n, [c]).
Proof.
  intros indices _. eexists. split; [reflexivity|]. unfold rows, list_row. cbn [num_rows list_arrow fst snd head default from_option id fmap list_fmap].
  rewrite length_fmap.
  exact (fmap_lookup_seq (fun i => default (false, 0) (c !! i)) (fun o => [default (false, 0) o]) indices).
Qed.

Lemma published_count_is_emitted_witness :
  exists outs, mapM_result (delete_filter_batch (A := list_arrow) {[1; 7]} 0)
                 [([lit "p"], 2%nat, [ints [1; 0]])] = Ok outs
    /\ delete_filter_num_rows {[1; 7]} (Exact 2) None = Exact (length (outs ≫= rows (A := list_arrow) list_row))
    /\ delete_filter_num_rows {[1; 7]} (Exact 2) None = Exact 1.
Proof.
  destruct (published_count_is_emitted (A := list_arrow) list_row {[1; 7]} 0 (nth_value 0)
              [([lit "p"], 2%nat, [ints [1; 0]])] 2) as (outs & H1 & _ & H2).
  - constructor; [|constructor]. apply list_takes_rows.
  - constructor; [|constructor]. eexists. split; [reflexivity|]. intros i Hi.
    do 2 (destruct i as [|i]; [reflexivity|]). cbn in Hi. lia.
  - apply perm_swap.
  - exists outs. split; [done|]. split; [done|]. vm_compute. reflexivity.
Defined.
