(* ===== verification/RowLineage.v ===== *)
(** * Row lineage

    [src/src/row_lineage.rs] and [src/src/row_id.rs]: the [rowid] of a scanned row
    is the id its file embeds, or else the file's catalog [row_id_start] plus the
    row's physical position; a file with neither fails the read. The position
    comes from a column of the reader's own, whose name must clash with no column
    of the file: [unique_row_pos_name] counts suffixes until one is free.

    The theorems: the ids of a scan over files the commits of a table recorded
    are exactly the ids those commits issued, so no two rows share one; and the
    suffix loop ends with a free name. *)

From S2P Require Import Prelude RustStd Arrow WriterTypes RowIds DeleteMemo DeleteScan.

(** ** The position column *)

Definition ROWID_COLUMN_NAME : str := "rowid".
Definition ROW_NUMBER_EXTENSION_TYPE : str := "parquet.virtual.row_number".
Definition ROW_POS_COLUMN_NAME : str := "__ducklake_row_pos".
Definition ROW_ID_PARQUET_FIELD_ID : Z := 2147483540.
Definition SNAPSHOT_ID_PARQUET_FIELD_ID : Z := 2147483539.

(** A field of a schema, as the check sees it. *)
Record Field := {
  field_name : str;
  field_type : DataType;
  extension_type_name : option str
}.

(** [validate_row_pos_field]. *)
Definition validate_row_pos_field (node : str) (index : nat) (field : Field) : result unit :=
  if bool_decide (field_type field <> Int64)
     || bool_decide (extension_type_name field <> Some ROW_NUMBER_EXTENSION_TYPE) then
    Err (internal (node ++ ": column " ++ show_nat index ++ " (`" ++ field_name field
      ++ "`) is not the reader-produced physical-position "
      ++ "column (expected Int64 carrying `" ++ ROW_NUMBER_EXTENSION_TYPE ++ "`)"))
  else Ok tt.

(** [row_pos_virtual_field]. *)
Definition row_pos_virtual_field (name : str) : Field :=
  {| field_name := name; field_type := Int64; extension_type_name := Some ROW_NUMBER_EXTENSION_TYPE |}.

(** Whether a name is a column's or reserved. *)
Definition name_taken (read_schema also_reserved : list str) (name : str) : bool :=
  existsb (fun other => bool_decide (other = name)) read_schema
  || existsb (fun other => bool_decide (other = name)) also_reserved.

Definition suffixed (suffix : Z) : str := ROW_POS_COLUMN_NAME ++ "_" ++ show_Z suffix.

(** The [loop] of [unique_row_pos_name]; [None] when the fuel ends. *)
Fixpoint suffix_loop (fuel : nat) (read_schema also_reserved : list str) (suffix : Z) : option str :=
  match fuel with
  | O => None
  | S fuel' =>
      let candidate := suffixed suffix in
      if name_taken read_schema also_reserved candidate
      then suffix_loop fuel' read_schema also_reserved (suffix + 1)
      else Some candidate
  end.

(** [unique_row_pos_name], over the names of the schema's fields. *)
Definition unique_row_pos_name (fuel : nat) (read_schema also_reserved : list str) : option str :=
  if negb (name_taken read_schema also_reserved ROW_POS_COLUMN_NAME) then Some ROW_POS_COLUMN_NAME
  else suffix_loop fuel read_schema also_reserved 1.

(** [positional_table_schema_reserving]: the file's fields and, last, the position
    column; with its index and name. *)
Definition positional_table_schema_reserving (fuel : nat) (read_schema : list Field) (also_reserved : list str)
  : option (list Field * nat * str) :=
  name ← unique_row_pos_name fuel (field_name <$> read_schema) also_reserved;
  Some (read_schema ++ [row_pos_virtual_field name], length read_schema, name).

(** ** Row ids *)

(** [i64] addition, which wraps in a release build. *)
Definition add_i64 (a b : Z) : Z := (a + b - i64_min) mod 2 ^ 64 + i64_min.

(** [LineageColumns]. *)
Record LineageColumns := {
  lc_embedded : nat;
  lc_has_embedded : nat;
  lc_file_id : nat;
  lc_row_id_start : nat;
  lc_position : nat
}.

Section lineage.
Context {A : ScanArrow}.

Definition flag_at (a : list (bool * bool)) (i : nat) : bool * bool := default (false, false) (a !! i).

(** The loop of [row_ids]. *)
Fixpoint row_id_values (embedded file_ids starts positions : Int64Array) (has_embedded : list (bool * bool))
    (paths : gmap Z str) (is_ : list nat) : result (list (option Z)) :=
  match is_ with
  | [] => Ok []
  | row :: is_' =>
      let? id :=
        (if (flag_at has_embedded row).1 && (flag_at has_embedded row).2 then
           Ok (if is_valid embedded row then Some (value embedded row) else None)
         else if is_valid starts row then Ok (Some (add_i64 (value starts row) (value positions row)))
         else
           let path := default (lit "<unknown>") (paths !! value file_ids row) in
           Err (External ("File " ++ [chr 34] ++ path ++ [chr 34]
             ++ " has no embedded `_ducklake_internal_row_id` column and no "
             ++ "`row_id_start` set in the catalog " ++ [chr 226; chr 128; chr 148]
             ++ " row lineage cannot be reconstructed"))) in
      let? ids := row_id_values embedded file_ids starts positions has_embedded paths is_' in
      Ok (id :: ids)
  end.

(** [row_ids]. *)
Definition row_ids (batch : RecordBatch) (cols : LineageColumns) (paths : gmap Z str) : result (list (option Z)) :=
  let? embedded := int64_column batch (lc_embedded cols) "embedded row id" in
  let? has_embedded := ok_or (downcast_boolean (column batch (lc_has_embedded cols)))
                         (internal "the scan's embedded-row-id flag is not Boolean") in
  let? file_ids := int64_column batch (lc_file_id cols) "data file id" in
  let? starts := int64_column batch (lc_row_id_start cols) "row_id_start" in
  let? positions := int64_column batch (lc_position cols) "row position" in
  row_id_values embedded file_ids starts positions has_embedded paths (seq 0 (num_rows batch)).

(** One batch of [RowLineageExec::execute]: the data columns, the row ids, the file
    id and the position. *)
Definition lineage_batch (output_schema : SchemaRef) (data_columns : nat) (cols : LineageColumns)
    (paths : gmap Z str) (batch : RecordBatch) : result RecordBatch :=
  let? rowid := row_ids batch cols paths in
  try_new output_schema (List.firstn data_columns (columns batch)
    ++ [int64_array rowid; column batch (lc_file_id cols); column batch (lc_position cols)]).

(** One batch of [RowIdStream]: the single-file form. *)
Definition row_id_batch (output_schema : SchemaRef) (row_id_start : option Z) (pos_index : nat)
    (batch : RecordBatch) : result RecordBatch :=
  let? rowid :=
    match row_id_start with
    | Some start =>
        let? pos := ok_or (downcast_int64 (column batch pos_index))
                      (internal ("`" ++ ROW_POS_COLUMN_NAME ++ "` column is not Int64")) in
        Ok ((fun i => Some (add_i64 start (value pos i))) <$> seq 0 (num_rows batch))
    | None => Ok (replicate (num_rows batch) None)
    end in
  try_new output_schema (columns batch ++ [int64_array rowid]).
End lineage.

(** ** The suffix loop ends *)

Lemma suffixed_inj m n : suffixed m = suffixed n -> m = n.
Proof. unfold suffixed. intros H. do 2 apply app_inv_head in H. by apply show_Z_inj. Qed.

Lemma name_taken_spec read_schema also_reserved name :
  name_taken read_schema also_reserved name = true <-> name ∈ read_schema ++ also_reserved.
Proof.
  unfold name_taken. rewrite orb_true_iff, elem_of_app, !existsb_exists.
  setoid_rewrite bool_decide_eq_true. setoid_rewrite <- list_elem_of_In. naive_solver.
Qed.

(** While the loop runs, it has seen that many distinct names taken. *)
Lemma suffix_loop_spec read_schema also_reserved fuel : forall suffix,
  match suffix_loop fuel read_schema also_reserved suffix with
  | Some name => name ∉ read_schema ++ also_reserved /\ exists n, suffix <= n /\ name = suffixed n
  | None => forall n, suffix <= n < suffix + Z.of_nat fuel -> suffixed n ∈ read_schema ++ also_reserved
  end.
Proof.
  induction fuel as [|fuel IH]; intros suffix; cbn [suffix_loop]; [intros; lia|].
  destruct (name_taken read_schema also_reserved (suffixed suffix)) eqn:Et.
  - apply name_taken_spec in Et. specialize (IH (suffix + 1)).
    destruct (suffix_loop fuel read_schema also_reserved (suffix + 1)) as [name|].
    + destruct IH as (H & n & Hn & ->). split; [done|]. exists n. split; [lia|done].
    + intros n Hn. destruct (decide (n = suffix)) as [->|]; [done|]. apply IH. lia.
  - split; [|exists suffix; split; [lia|done]]. intros H. apply name_taken_spec in H. congruence.
Qed.

Lemma suffix_loop_ends read_schema also_reserved fuel suffix :
  (length (read_schema ++ also_reserved) < fuel)%nat ->
  is_Some (suffix_loop fuel read_schema also_reserved suffix).
Proof.
  intros Hf. pose proof (suffix_loop_spec read_schema also_reserved fuel suffix) as H.
  destruct (suffix_loop fuel read_schema also_reserved suffix); [done|]. exfalso.
  assert (NoDup ((fun n => suffixed (suffix + Z.of_nat n)) <$> seq 0 fuel)) as Hnd.
  { apply NoDup_fmap_2; [|apply NoDup_seq]. intros m n Hmn. apply suffixed_inj in Hmn. lia. }
  assert (length (seq 0 fuel) <= length (read_schema ++ also_reserved))%nat as Hle.
  { rewrite <- (length_fmap (fun n => suffixed (suffix + Z.of_nat n))). apply submseteq_length.
    apply NoDup_submseteq; [done|]. intros name Hn. apply list_elem_of_fmap in Hn as (n & -> & Hn).
    apply elem_of_seq in Hn. apply H. lia. }
  rewrite length_seq in Hle. lia.
Qed.

(** ** Row ids of a table's files *)

(** What a commit stores fits [i64] from below. *)
Definition start_in_i64 (r : FileRow) : Prop := forall s, fr_row_id_start r = Some s -> i64_min <= s.

Lemma allocate_files_starts files : forall next,
  0 <= next <= i64_max -> Forall file_wf files -> Forall start_in_i64 (allocate_files next files).1.
Proof.
  induction files as [|file files IH]; intros next Hn Hwf; cbn [allocate_files]; [constructor|].
  apply Forall_cons in Hwf as [Hf Hwf]. destruct (allocate_spec next file Hn Hf) as [Hm _].
  specialize (IH (next + advance (allocate_row_id_start next file)) ltac:(cbn zeta in Hm; lia) Hwf).
  destruct (allocate_files _ files) as [rows next']. cbn in *. constructor; [|done].
  intros s Hs. cbn in Hs. unfold allocate_row_id_start in Hs. destruct (df_row_id_start file) as [| |p] eqn:E; cbn in Hs.
  - injection Hs as <-. unfold i64_min. lia.
  - done.
  - injection Hs as <-. destruct Hf as (_ & _ & Hp). by apply Hp.
Qed.

Lemma run_table_starts table_id ops : forall st,
  Forall op_wf ops -> table_inv st -> Forall start_in_i64 (snd <$> file_rows st) ->
  Forall start_in_i64 (snd <$> file_rows (run_table table_id st ops)).
Proof.
  induction ops as [|op ops IH]; intros st Hops Hinv Hs; [done|]. apply Forall_cons in Hops as [Hop Hops].
  cbn [run_table foldl]. apply IH; [done|by apply table_step_inv|].
  destruct op as [spec|files]; cbn [table_step]; [done|]. unfold commit_files.
  destruct (mapM_result _ files); [|done]. cbn [result_bind].
  pose proof (allocate_files_starts files (next_id st) ltac:(apply Hinv) Hop) as Ha.
  destruct (allocate_files (next_id st) files) as [rows next]. cbn [file_rows fst] in *.
  rewrite fmap_app, Forall_app. split; [done|]. rewrite <- list_fmap_compose. by rewrite list_fmap_id.
Qed.

(** A file that took fresh ids has a start. *)
Lemma run_table_stored table_id ops : forall st,
  Forall (fun f => assigned f -> is_Some (fr_row_id_start f)) (snd <$> file_rows st) ->
  forall f, f ∈ snd <$> file_rows (run_table table_id st ops) -> assigned f -> is_Some (fr_row_id_start f).
Proof.
  induction ops as [|op ops IH]; intros st Hs f; [by rewrite Forall_forall in Hs; apply Hs|].
  cbn [run_table foldl]. apply IH. destruct op as [spec|files]; cbn [table_step]; [done|]. unfold commit_files.
  destruct (mapM_result _ files); [|done]. cbn [result_bind].
  assert (forall next, Forall (fun f => assigned f -> is_Some (fr_row_id_start f)) (allocate_files next files).1) as Ha.
  { clear. induction files as [|file files IH]; intros next; cbn [allocate_files]; [constructor|].
    specialize (IH (next + advance (allocate_row_id_start next file))). destruct (allocate_files _ files) as [rows n].
    cbn in *. constructor; [|done]. intros Ha. cbn in Ha. unfold assigned in Ha. cbn in Ha. cbn.
    unfold allocate_row_id_start. rewrite Ha. cbn. eauto. }
  specialize (Ha (next_id st)). destruct (allocate_files (next_id st) files) as [rows next]. cbn [file_rows fst] in *.
  rewrite fmap_app, Forall_app. split; [done|]. rewrite <- list_fmap_compose. by rewrite list_fmap_id.
Qed.

Lemma add_i64_small a b : i64_min <= a + b <= i64_max -> add_i64 a b = a + b.
Proof.
  unfold add_i64, i64_min, i64_max. intros H. rewrite Z.mod_small by lia. lia.
Qed.

Section scanned.
Context {A : ScanArrow} {Row : Type}.
Variable row : RecordBatch -> nat -> Row.
(** The file rows of the table, and for each scanned row the file it comes from
    and its position there. *)
Variable catalog : list FileRow.
Variables (file_of : Row -> nat) (position_of : Row -> Z).

Definition start_of (k : nat) : Z := default 0 (catalog !! k ≫= fr_row_id_start).

(** A batch of a scan over files that embed no ids: the flag is false, the start
    is the catalog's, and each row lies within its file, one that took fresh
    ids. *)
Definition scans_catalog (b : RecordBatch) (cols : LineageColumns) : Prop :=
  is_Some (downcast_int64 (column b (lc_embedded cols)))
  /\ is_Some (downcast_int64 (column b (lc_file_id cols)))
  /\ (exists flags, downcast_boolean (column b (lc_has_embedded cols)) = Some flags
        /\ forall i, (flag_at flags i).1 && (flag_at flags i).2 = false)
  /\ column_holds row b (lc_row_id_start cols) (fun r => (true, start_of (file_of r)))
  /\ column_holds row b (lc_position cols) (fun r => (true, position_of r))
  /\ Forall (fun r => exists f, catalog !! file_of r = Some f /\ assigned f
               /\ 0 <= position_of r < df_record_count (fr_file f)) (rows row b).

Lemma row_id_values_ok embedded file_ids starts positions flags paths (s p : nat -> Z) is_ :
  Forall (fun i => (flag_at flags i).1 && (flag_at flags i).2 = false
                   /\ starts !! i = Some (true, s i) /\ positions !! i = Some (true, p i)) is_ ->
  row_id_values embedded file_ids starts positions flags paths is_
  = Ok ((fun i => Some (add_i64 (s i) (p i))) <$> is_).
Proof.
  induction 1 as [|i is_ (Hf & Hs & Hp) _ IH]; [done|]. cbn [row_id_values]. rewrite Hf, IH.
  unfold is_valid, value. by rewrite Hs, Hp.
Qed.

Hypothesis disjoint : ForallOrdPairs fresh_after catalog.
Hypothesis bounded : Forall (ends_by i64_max) catalog.
Hypothesis starts : Forall start_in_i64 catalog.
Hypothesis stored_starts : forall f, f ∈ catalog -> assigned f -> is_Some (fr_row_id_start f).

(** A position within a file of the catalog. *)
Definition within (e : nat * Z) : Prop :=
  exists f, catalog !! e.1 = Some f /\ assigned f /\ 0 <= e.2 < df_record_count (fr_file f).

Lemma within_range e :
  within e -> exists f, catalog !! e.1 = Some f /\ assigned f /\ in_range f (start_of e.1 + e.2)
    /\ add_i64 (start_of e.1) e.2 = start_of e.1 + e.2.
Proof.
  intros (f & Hf & Ha & Hp). exists f. split; [done|]. split; [done|].
  pose proof (list_elem_of_lookup_2 _ _ _ Hf) as Hin. destruct (stored_starts f Hin Ha) as [s Hs].
  assert (start_of e.1 = s) as -> by (unfold start_of; rewrite Hf; cbn; by rewrite Hs).
  assert (in_range f (s + e.2)) as Hr by (exists s; split; [done|lia]).
  split; [done|]. apply add_i64_small.
  rewrite Forall_forall in bounded, starts. specialize (bounded f Hin _ Hr). specialize (starts f Hin s Hs). lia.
Qed.

(** Positions of the files have distinct ids. *)
Lemma within_inj e e' :
  within e -> within e' -> start_of e.1 + e.2 = start_of e'.1 + e'.2 -> e = e'.
Proof.
  intros He He' Heq. destruct (within_range e He) as (f & Hf & Ha & Hr & _).
  destruct (within_range e' He') as (f' & Hf' & Ha' & Hr' & _). rewrite <- Heq in Hr'.
  destruct (lt_eq_lt_dec e.1 e'.1) as [[Hlt|Hk]|Hlt].
  - exfalso. by apply (ForallOrdPairs_lookup _ _ disjoint _ _ _ _ Hlt Hf Hf' Ha' _ Hr).
  - destruct e as [k p], e' as [k' p']. cbn in *. subst k'. f_equal. lia.
  - exfalso. by apply (ForallOrdPairs_lookup _ _ disjoint _ _ _ _ Hlt Hf' Hf Ha _ Hr').
Qed.

Lemma row_ids_unique b cols paths :
  scans_catalog b cols ->
  NoDup ((fun r => (file_of r, position_of r)) <$> rows row b) ->
  exists ids, row_ids b cols paths = Ok (Some <$> ids) /\ NoDup ids
    /\ Forall2 (fun r id => exists f, catalog !! file_of r = Some f /\ in_range f id) (rows row b) ids.
Proof.
  intros ([ea Hea] & [fa Hfa] & (flags & Hflags & Hfalse) & (sa & Hsa & Hs) & (pa & Hpa & Hp) & Hin) Hnd.
  assert (Forall within ((fun r => (file_of r, position_of r)) <$> rows row b)) as Hwithin.
  { apply Forall_fmap. eapply Forall_impl; [exact Hin|]. intros r Hr. exact Hr. }
  exists ((fun e : nat * Z => start_of e.1 + e.2) <$> ((fun r => (file_of r, position_of r)) <$> rows row b)).
  split; [|split].
  - unfold row_ids, int64_column. rewrite Hea, Hflags, Hfa, Hsa, Hpa. cbn [ok_or result_bind].
    rewrite (row_id_values_ok _ _ _ _ _ _ (fun i => start_of (file_of (row b i))) (fun i => position_of (row b i))).
    2:{ apply Forall_forall. intros i Hi. apply elem_of_seq in Hi. split; [done|]. split; [apply Hs; lia|apply Hp; lia]. }
    f_equal. unfold rows in *. rewrite <- !list_fmap_compose in *. apply list_fmap_ext. intros j i Hj. cbn. f_equal.
    rewrite Forall_fmap, Forall_lookup in Hwithin. specialize (Hwithin j i Hj). cbn in Hwithin.
    destruct (within_range _ Hwithin) as (_ & _ & _ & _ & Hadd). exact Hadd.
  - apply NoDup_fmap_2_strong; [|done]. intros e e' He He'. rewrite Forall_forall in Hwithin.
    apply within_inj; by apply Hwithin.
  - rewrite <- list_fmap_compose. apply Forall2_fmap_r, Forall_Forall2_diag. rewrite Forall_fmap in Hwithin.
    eapply Forall_impl; [exact Hwithin|]. intros r Hr. destruct (within_range _ Hr) as (f & Hf & _ & Hr' & _).
    exists f. by split.
Qed.
End scanned.

(** ** Theorems *)


(** The position column's name is free: with fuel for one more name than are
    taken (so the loop of the source ends), [unique_row_pos_name] returns a name
    that is neither a column of the file nor reserved; it is the plain name
    whenever that is free. *)
Theorem unique_row_pos_name_is_free (fuel : nat) (read_schema also_reserved : list str) :
  (length (read_schema ++ also_reserved) < fuel)%nat ->
  exists name, unique_row_pos_name fuel read_schema also_reserved = Some name
    /\ name ∉ read_schema ++ also_reserved
    /\ (ROW_POS_COLUMN_NAME ∉ read_schema ++ also_reserved -> name = ROW_POS_COLUMN_NAME).
Proof.
  intros Hf. unfold unique_row_pos_name.
  destruct (name_taken read_schema also_reserved ROW_POS_COLUMN_NAME) eqn:Et; cbn [negb].
  - apply name_taken_spec in Et. destruct (suffix_loop_ends read_schema also_reserved fuel 1 Hf) as [name Hn].
    pose proof (suffix_loop_spec read_schema also_reserved fuel 1) as H. rewrite Hn in *. exists name.
    split; [done|]. split; [apply H|]. done.
  - eexists. split; [done|]. split; [|done]. intros H. apply name_taken_spec in H. congruence.
Qed.

Lemma unique_row_pos_name_is_free_witness :
  unique_row_pos_name 4 [lit "a"; ROW_POS_COLUMN_NAME; lit "__ducklake_row_pos_1"] [] = Some (lit "__ducklake_row_pos_2")
  /\ exists name, unique_row_pos_name 4 [lit "a"; ROW_POS_COLUMN_NAME; lit "__ducklake_row_pos_1"] [] = Some name
       /\ name ∉ [lit "a"; ROW_POS_COLUMN_NAME; lit "__ducklake_row_pos_1"] ++ [].
Proof.
  split; [vm_compute; reflexivity|].
  destruct (unique_row_pos_name_is_free 4 [lit "a"; ROW_POS_COLUMN_NAME; lit "__ducklake_row_pos_1"] [] ltac:(cbn; lia))
    as (name & H1 & H2 & _).
  by exists name.
Defined.

(** Rows 0 and 4 of the second file of [sample_ops] and row 1 of the third. *)
Definition sample_lineage_batch : @RecordBatch list_arrow :=
  ([lit "e"; lit "h"; lit "f"; lit "s"; lit "p"], 3%nat,
   [[(false, 0); (false, 0); (false, 0)]; ints [0; 0; 0]; ints [1; 1; 2]; ints [23; 23; 28]; ints [0; 4; 1]]).

Definition sample_columns : LineageColumns :=
  {| lc_embedded := 0; lc_has_embedded := 1; lc_file_id := 2; lc_row_id_start := 3; lc_position := 4 |}.

Definition sample_file_of (r : list (bool * Z)) : nat := Z.to_nat (nth_value 2 r).

Lemma sample_scans_catalog :
  scans_catalog (A := list_arrow) list_row (snd <$> file_rows (run_table 1 sample_table sample_ops))
    sample_file_of (nth_value 4) sample_lineage_batch sample_columns.
Proof.
  split; [by eexists|]. split; [by eexists|]. split; [|split; [|split]].
  - eexists. split; [reflexivity|]. intros i. do 3 (destruct i as [|i]; [reflexivity|]). reflexivity.
  - eexists. split; [reflexivity|]. intros i Hi. do 3 (destruct i as [|i]; [reflexivity|]). cbn in Hi. lia.
  - eexists. split; [reflexivity|]. intros i Hi. do 3 (destruct i as [|i]; [reflexivity|]). cbn in Hi. lia.
  - repeat constructor; eexists; (split; [vm_compute; reflexivity|]); (split; [reflexivity|]); cbn; lia.
Qed.

