(* ===== verification/FilePruning.v ===== *)
(** * Pruning data files by their statistics

    [src/src/stats_filter.rs]: a scan's predicate is lowered to conditions over the
    per-file column statistics ([lower_predicate], [lower_conjunct], [lower_node],
    [lower_comparison]), which are rendered as SQL ([render_expr],
    [render_column]) and evaluated by the catalog database, so that files that
    cannot hold a matching row are not even listed. A rendered condition is kept as
    a syntax tree, [Sql]; the text of its atoms, and the lifting of a repeated
    conversion into a column of the statistics CTE, which names the same value, are
    not modelled.

    SQL conditions are three-valued: [None] is NULL. What a catalog engine makes of
    a stored bound and of a constant is a parameter, and the contract of
    [StatsSqlDialect::try_cast] ("the value, or NULL") its hypothesis. A predicate
    is a tree over the nodes the code looks at; any other node, and any comparison
    of another shape, means whatever it may.

    The theorem: a file that holds a row satisfying the predicate is kept, whatever
    statistics are missing or unreadable, NaN rows included. It covers every
    constant whose bounds are compared exactly; [FloatWindow] constants (FLOAT
    columns and zero) are outside it. *)

From S2P Require Import Prelude RustStd Arrow Calendar StatsOrder FloatText StatsRollup Partition PartitionSplit.
From Stdlib Require Import SpecFloat.

(** ** Data types *)

Definition is_integer (t : DataType) : bool :=
  match t with
  | Int8 | Int16 | Int32 | Int64 | UInt8 | UInt16 | UInt32 | UInt64 => true
  | _ => false
  end.

(** [DataType::is_numeric] and [is_temporal], on the types whose values have a
    text. *)
Definition is_numeric (t : DataType) : bool :=
  is_integer t || match t with Float16 | Float32 | Float64 | Decimal128 _ _ | Decimal256 _ _ => true | _ => false end.
Definition is_temporal (t : DataType) : bool :=
  match t with Date32 | Date64 | Time32 _ | Time64 _ | Arrow.Timestamp _ _ | Interval _ => true | _ => false end.

(** [ScalarValue::data_type]. *)
Definition scalar_type (value : ScalarValue) : DataType :=
  match value with
  | IntValue ty _ => ty
  | BooleanValue _ => Arrow.Boolean
  | Float32Value _ => Float32
  | Float64Value _ => Float64
  | Decimal128Value _ precision scale => Decimal128 precision scale
  | Date32Value _ => Date32
  | TimestampValue unit _ zone => Arrow.Timestamp unit zone
  | StringValue ty _ => ty
  | OtherValue ty _ => ty
  end.

(** ** Lowered conditions *)

(** One statistics column; distinct from the [StatKind] of [StatsOrder]. *)
Inductive StatKind := MinValue | MaxValue | NullCount | ValueCount | ContainsNan.

#[export] Instance StatKind_eq_dec : EqDecision StatKind.
Proof. solve_decision. Defined.
#[export] Instance StatKind_countable : Countable StatKind.
Proof.
  refine (inj_countable'
    (fun s => match s with MinValue => 0%nat | MaxValue => 1%nat | NullCount => 2%nat | ValueCount => 3%nat
              | ContainsNan => 4%nat end)
    (fun n => match n with 0%nat => MinValue | 1%nat => MaxValue | 2%nat => NullCount | 3%nat => ValueCount
              | _ => ContainsNan end) _).
  by intros [].
Defined.

(** The order of a [BTreeSet]. *)
Definition stat_kinds : list StatKind := [MinValue; MaxValue; NullCount; ValueCount; ContainsNan].

Definition is_bound (s : StatKind) : bool := match s with MinValue | MaxValue => true | _ => false end.

Inductive PartitionTextMatch := ExactText | CanonicalInteger.

#[export] Instance PartitionTextMatch_eq_dec : EqDecision PartitionTextMatch.
Proof. solve_decision. Defined.

Record FloatWindow := { fw_lo : str; fw_hi : str; fw_zero : bool }.

Record StatsLiteral := {
  sl_text : str;
  sl_cast : option DataType;
  sl_unquoted : bool;
  sl_partition_match : option PartitionTextMatch;
  sl_window : option FloatWindow;
  sl_number : option str
}.

Inductive BoundOp := BLt | BLtEq | BGt | BGtEq.

Inductive StatsExpr :=
| And (children : list StatsExpr)
| Or (children : list StatsExpr)
| LiteralWithinBounds (literal : StatsLiteral)
| NotEveryRowEqual (literal : StatsLiteral)
| BoundCompare (stat : StatKind) (op : BoundOp) (literal : StatsLiteral)
| CountPositive (stat : StatKind)
| FloatBoundsUnusable.

Record StatsColumnFilter := {
  cf_column_id : Z;
  cf_referenced_stats : gset StatKind;
  cf_needs_value_count_guard : bool;
  cf_partition_text : option PartitionTextMatch;
  cf_condition : StatsExpr
}.

(** [StatsColumnFilter::cte_stats]. *)
Definition cte_stats (c : StatsColumnFilter) : gset StatKind :=
  if cf_needs_value_count_guard c then {[ValueCount]} ∪ cf_referenced_stats c else cf_referenced_stats c.

(** ** Constants *)

Definition requires_value_comparison (t : DataType) : bool :=
  is_numeric t || is_temporal t || bool_decide (t = Arrow.Boolean).

Definition is_finite (v : spec_float) : bool := negb (is_nan v) && negb (is_infinite v).

Definition renders_unquoted (value : ScalarValue) (t : DataType) : bool :=
  if negb (is_numeric t) then false
  else match value with
  | Float32Value (Some v) | Float64Value (Some v) => is_finite v
  | _ => true
  end.

Definition partition_text_for (t : DataType) : option PartitionTextMatch :=
  match t with
  | Utf8 | LargeUtf8 | Utf8View => Some ExactText
  | _ => if is_integer t then Some CanonicalInteger else None
  end.

Definition is_float (t : DataType) : bool :=
  match t with Float16 | Float32 | Float64 => true | _ => false end.

(** [f64::from] of an [f32], halving and sums in [f64]. *)
Definition f64_from (v : spec_float) : spec_float :=
  match v with
  | S754_finite s m e => binary_normalize 53 1024 (cond_Zopp s (Zpos m)) e s
  | _ => v
  end.
Definition two : spec_float := S754_finite false 4503599627370496 (-51).
Definition halve (v : spec_float) : spec_float := SFdiv 53 1024 v two.

Section literals.
Context (F32 F64 : FloatFormat).

(** [format!("{v:e}")] of an [f64]. *)
Definition format_e (v : spec_float) : str :=
  if is_sign_negative v then "-" ++ lower_exp (FloatFormat := F64) (SFabs v)
  else lower_exp (FloatFormat := F64) v.

Definition window (lo hi : spec_float) (zero : bool) : FloatWindow :=
  {| fw_lo := format_e lo; fw_hi := format_e hi; fw_zero := zero |}.

(** [FloatWindow::of]. *)
Definition FloatWindow_of (value : ScalarValue) : option FloatWindow :=
  match value with
  | Float32Value (Some v) =>
      if is_zero v then
        let half := halve (f64_from (S754_finite false 1 (-149))) in
        Some (window (SFopp half) half true)
      else if is_finite v then
        let here := f64_from v in
        let below := f64_from (SFpred 24 128 v) in
        let above := f64_from (SFsucc 24 128 v) in
        let lo := if is_finite below then halve (SFadd 53 1024 here below)
                  else SFsub 53 1024 here (halve (SFsub 53 1024 above here)) in
        let hi := if is_finite above then halve (SFadd 53 1024 here above)
                  else SFadd 53 1024 here (halve (SFsub 53 1024 here below)) in
        Some (window lo hi false)
      else None
  | Float64Value (Some v) =>
      if is_zero v then
        let tiny := S754_finite false 1 (-1074) in
        Some (window (SFopp tiny) tiny true)
      else None
  | _ => None
  end.

(** [StatsLiteral::new]. *)
Definition StatsLiteral_new (value : ScalarValue) : option StatsLiteral :=
  if is_null value then None
  else
    let data_type := scalar_type value in
    match data_type with
    | Binary | LargeBinary | BinaryView | FixedSizeBinary _ => None
    | _ =>
        let is_float_value :=
          match value with Float32Value (Some _) | Float64Value (Some _) => true | _ => false end in
        if is_float_value && negb (renders_unquoted value data_type) then None
        else
          text ← encode_scalar F32 F64 value;
          if contains [chr 0] text then None
          else
            Some {| sl_text := text;
                    sl_cast := if requires_value_comparison data_type then
                                 Some (match data_type with Float32 => Float64 | other => other end)
                               else None;
                    sl_unquoted := renders_unquoted value data_type;
                    sl_partition_match := partition_text_for data_type;
                    sl_window := FloatWindow_of value;
                    sl_number := match value with
                                 | Float64Value (Some v) =>
                                     if is_finite v && negb (is_zero v) then Some (format_e v) else None
                                 | _ => None
                                 end |}
    end.

(** [StatsLiteral::for_column]. *)
Definition for_column (value : ScalarValue) (column_type : DataType) : option StatsLiteral :=
  let constant_type := scalar_type value in
  if bool_decide (constant_type <> column_type)
     && (is_float constant_type || is_float column_type
         || match constant_type, column_type with
            | Decimal128 _ constant_scale, Decimal128 _ column_scale => constant_scale <? column_scale
            | _, _ => false
            end)
  then None
  else StatsLiteral_new value.
End literals.

(** ** Predicates *)

Inductive Operator := OpEq | OpNotEq | OpLt | OpLtEq | OpGt | OpGtEq | OpAnd | OpOr | OtherOp (tag : Z).

(** [dyn PhysicalExpr], by the nodes the code downcasts to. *)
Inductive PhysicalExpr :=
| Column (index : nat)
| Literal (value : ScalarValue)
| BinaryExpr (lhs : PhysicalExpr) (op : Operator) (rhs : PhysicalExpr)
| IsNullExpr (arg : PhysicalExpr)
| IsNotNullExpr (arg : PhysicalExpr)
| InListExpr (expr : PhysicalExpr) (items : list PhysicalExpr) (negated : bool)
| OtherExpr (tag : Z) (children : list PhysicalExpr).

(** The columns [expr.apply] visits, in order. *)
Fixpoint visited_columns (e : PhysicalExpr) : list nat :=
  match e with
  | Column i => [i]
  | Literal _ => []
  | BinaryExpr l _ r => visited_columns l ++ visited_columns r
  | IsNullExpr a | IsNotNullExpr a => visited_columns a
  | InListExpr a items _ => visited_columns a ++ concat (map visited_columns items)
  | OtherExpr _ children => concat (map visited_columns children)
  end.

(** [sole_column_index]. *)
Definition sole_column_index (e : PhysicalExpr) : option nat :=
  match visited_columns e with
  | [] => None
  | i :: rest => if forallb (fun j => (j =? i)%nat) rest then Some i else None
  end.

Definition subject_column (e : PhysicalExpr) (column_index : nat) : bool :=
  match e with Column i => (i =? column_index)%nat | _ => false end.

Definition flip_operator (op : Operator) : option Operator :=
  match op with
  | OpEq => Some OpEq
  | OpNotEq => Some OpNotEq
  | OpLt => Some OpGt
  | OpLtEq => Some OpGtEq
  | OpGt => Some OpLt
  | OpGtEq => Some OpLtEq
  | _ => None
  end.

Definition as_literal (e : PhysicalExpr) : option ScalarValue :=
  match e with Literal v => Some v | _ => None end.

(** ** Lowering *)

Abbreviation lowered_node := (StatsExpr * gset StatKind)%type.

Section lowering.
Context (F32 F64 : FloatFormat).

Section node.
Variable column_index : nat.
Variable column_type : DataType.

(** [lower_comparison]. *)
Definition lower_comparison (lhs : PhysicalExpr) (operator : Operator) (rhs : PhysicalExpr)
  : option lowered_node :=
  '(value, operator) ←
    (if subject_column lhs column_index then v ← as_literal rhs; Some (v, operator)
     else if subject_column rhs column_index then
       v ← as_literal lhs; o ← flip_operator operator; Some (v, o)
     else None);
  literal ← for_column F32 F64 value column_type;
  match operator with
  | OpEq => Some (LiteralWithinBounds literal, {[MinValue; MaxValue]})
  | OpNotEq => Some (NotEveryRowEqual literal, {[MinValue; MaxValue]})
  | OpLt => Some (BoundCompare MinValue BLt literal, {[MinValue]})
  | OpLtEq => Some (BoundCompare MinValue BLtEq literal, {[MinValue]})
  | OpGt => Some (BoundCompare MaxValue BGt literal, {[MaxValue]})
  | OpGtEq => Some (BoundCompare MaxValue BGtEq literal, {[MaxValue]})
  | _ => None
  end.

(** The conditions of an [IN] list: all of them, or none. *)
Fixpoint in_list_parts (items : list PhysicalExpr) : option (list StatsExpr) :=
  match items with
  | [] => Some []
  | item :: items' =>
      value ← as_literal item;
      literal ← for_column F32 F64 value column_type;
      parts ← in_list_parts items';
      Some (LiteralWithinBounds literal :: parts)
  end.

(** [lower_node]. *)
Fixpoint lower_node (e : PhysicalExpr) : option lowered_node :=
  match e with
  | BinaryExpr lhs OpAnd rhs =>
      match lower_node lhs, lower_node rhs with
      | Some (l, sl), Some (r, sr) => Some (And [l; r], sl ∪ sr)
      | Some l, None => Some l
      | None, r => r
      end
  | BinaryExpr lhs OpOr rhs =>
      '(l, sl) ← lower_node lhs;
      '(r, sr) ← lower_node rhs;
      Some (Or [l; r], sl ∪ sr)
  | BinaryExpr lhs operator rhs => lower_comparison lhs operator rhs
  | IsNullExpr arg =>
      if subject_column arg column_index then Some (CountPositive NullCount, {[NullCount]}) else None
  | IsNotNullExpr arg =>
      if subject_column arg column_index then Some (CountPositive ValueCount, {[ValueCount]}) else None
  | InListExpr arg items negated =>
      if negated then None
      else if negb (subject_column arg column_index) then None
      else match items with
      | [] => None
      | _ =>
          parts ← in_list_parts items;
          Some (match parts with [part] => part | _ => Or parts end, {[MinValue; MaxValue]})
      end
  | _ => None
  end.
End node.

(** [needs_float_gate]. *)
Fixpoint needs_float_gate (e : StatsExpr) : bool :=
  match e with
  | And children | Or children => existsb needs_float_gate children
  | BoundCompare _ _ _ | NotEveryRowEqual _ => true
  | LiteralWithinBounds _ | CountPositive _ | FloatBoundsUnusable => false
  end.

Record Lowered := {
  lo_condition : StatsExpr;
  lo_referenced_stats : gset StatKind;
  lo_partition_text : option PartitionTextMatch
}.

(** [lower_conjunct]: over the schema's types and the columns' ids. *)
Definition lower_conjunct (e : PhysicalExpr) (schema : list DataType) (columns : list Z)
  : option (Z * Lowered) :=
  index ← sole_column_index e;
  column_type ← schema !! index;
  column_id ← columns !! index;
  '(condition, stats) ← lower_node index column_type e;
  let gated := needs_float_gate condition && is_float column_type in
  Some (column_id,
        {| lo_condition := if gated then Or [FloatBoundsUnusable; condition] else condition;
           lo_referenced_stats := if gated then {[ContainsNan]} ∪ stats else stats;
           lo_partition_text := partition_text_for column_type |}).

(** Two conjuncts on one column. *)
Definition intersect (existing lowered : Lowered) : Lowered :=
  {| lo_condition := match lo_condition existing with
                     | And parts => And (parts ++ [lo_condition lowered])
                     | other => And [other; lo_condition lowered]
                     end;
     lo_referenced_stats := lo_referenced_stats existing ∪ lo_referenced_stats lowered;
     lo_partition_text := if bool_decide (lo_partition_text existing = lo_partition_text lowered)
                          then lo_partition_text existing else None |}.

(** One turn of the loop over the conjuncts: into the first entry of the column,
    or a new one. *)
Fixpoint add_conjunct (column_id : Z) (lowered : Lowered) (by_column : list (Z * Lowered))
  : list (Z * Lowered) :=
  match by_column with
  | [] => [(column_id, lowered)]
  | (id, existing) :: rest =>
      if id =? column_id then (id, intersect existing lowered) :: rest
      else (id, existing) :: add_conjunct column_id lowered rest
  end.

Definition lower_conjuncts (conjuncts : list PhysicalExpr) (schema : list DataType) (columns : list Z)
  : list (Z * Lowered) :=
  foldl (fun by_column conjunct =>
    match lower_conjunct conjunct schema columns with
    | Some (column_id, lowered) => add_conjunct column_id lowered by_column
    | None => by_column
    end) [] conjuncts.

Definition column_filter (entry : Z * Lowered) : StatsColumnFilter :=
  let '(column_id, lowered) := entry in
  let reads_null_count := bool_decide (NullCount ∈ lo_referenced_stats lowered) in
  let reads_bound := existsb is_bound (elements (lo_referenced_stats lowered)) in
  {| cf_column_id := column_id;
     cf_needs_value_count_guard := negb reads_null_count && reads_bound;
     cf_referenced_stats := lo_referenced_stats lowered;
     cf_partition_text := lo_partition_text lowered;
     cf_condition := lo_condition lowered |}.

(** [datafusion::physical_expr::split_conjunction]. *)
Variable split_conjunction : PhysicalExpr -> list PhysicalExpr.

(** [lower_predicate]: the columns of the filter. *)
Definition lower_predicate (predicate : PhysicalExpr) (schema : list DataType) (columns : list Z)
  : option (list StatsColumnFilter) :=
  match lower_conjuncts (split_conjunction predicate) schema columns with
  | [] => None
  | by_column => Some (column_filter <$> merge_sort key_le by_column)
  end.
End lowering.

(** ** Rendering *)

(** A converted statistics column, a constant, and an edge of a window. *)
Inductive Operand :=
| Converted (stat : StatKind) (literal : StatsLiteral)
| Constant (literal : StatsLiteral)
| Edge (text : str).

Inductive SqlOp := SqlEq | SqlLt | SqlLtEq | SqlGt | SqlGtEq.

Inductive Sql :=
| SqlAnd (parts : list Sql)
| SqlOr (parts : list Sql)
| SqlNot (part : Sql)
| SqlCompare (a : Operand) (op : SqlOp) (b : Operand)
| SqlIsNull (stat : StatKind)
| SqlPositive (stat : StatKind)
| SqlIsNotFalse (stat : StatKind)
| SqlNoStatsRow.

Definition between (x lo hi : Operand) : Sql :=
  SqlAnd [SqlCompare x SqlGtEq lo; SqlCompare x SqlLtEq hi].

Definition bound_op (op : BoundOp) : SqlOp :=
  match op with BLt => SqlLt | BLtEq => SqlLtEq | BGt => SqlGt | BGtEq => SqlGtEq end.

Section rendering.
(** Whether the dialect's [try_cast] accepts the literal and type. *)
Variable try_casts : StatsLiteral -> DataType -> bool.

(** [StatsLiteral::render_stat]. *)
Definition render_stat (literal : StatsLiteral) (stat : StatKind) : option Operand :=
  match sl_cast literal with
  | Some data_type => if try_casts literal data_type then Some (Converted stat literal) else None
  | None => Some (Converted stat literal)
  end.

(** [render_expr]. *)
Fixpoint render_expr (e : StatsExpr) : option Sql :=
  match e with
  | And children =>
      match omap id (map render_expr children) with
      | [] => None
      | parts => Some (SqlAnd parts)
      end
  | Or children =>
      parts ← (fix all (l : list StatsExpr) : option (list Sql) :=
                 match l with
                 | [] => Some []
                 | child :: l' => p ← render_expr child; ps ← all l'; Some (p :: ps)
                 end) children;
      match parts with [] => None | _ => Some (SqlOr parts) end
  | LiteralWithinBounds literal =>
      min ← render_stat literal MinValue;
      max ← render_stat literal MaxValue;
      Some (match sl_window literal with
            | Some w => SqlAnd [SqlCompare min SqlLtEq (Edge (fw_hi w)); SqlCompare max SqlGtEq (Edge (fw_lo w))]
            | None => between (Constant literal) min max
            end)
  | NotEveryRowEqual literal =>
      if match sl_window literal with Some w => fw_zero w | None => false end then None
      else
        min ← render_stat literal MinValue;
        max ← render_stat literal MaxValue;
        Some (match sl_window literal with
              | Some w => SqlNot (SqlAnd [SqlCompare min SqlGt (Edge (fw_lo w)); SqlCompare max SqlLt (Edge (fw_hi w))])
              | None => SqlNot (SqlAnd [SqlCompare min SqlEq (Constant literal); SqlCompare max SqlEq (Constant literal)])
              end)
  | BoundCompare stat op literal =>
      bound ← render_stat literal stat;
      Some (match sl_window literal with
            | Some w =>
                match op with
                | BLt => if negb (fw_zero w) then SqlCompare bound SqlLtEq (Edge (fw_lo w))
                         else SqlCompare bound SqlLtEq (Edge (fw_hi w))
                | BLtEq => SqlCompare bound SqlLtEq (Edge (fw_hi w))
                | BGt => if negb (fw_zero w) then SqlCompare bound SqlGtEq (Edge (fw_hi w))
                         else SqlCompare bound SqlGtEq (Edge (fw_lo w))
                | BGtEq => SqlCompare bound SqlGtEq (Edge (fw_lo w))
                end
            | None => SqlCompare bound (bound_op op) (Constant literal)
            end)
  | CountPositive stat => Some (SqlPositive stat)
  | FloatBoundsUnusable => Some (SqlIsNotFalse ContainsNan)
  end.

(** The condition of [render_column], before [keep_when_unknown]. *)
Definition render_column (column : StatsColumnFilter) : option Sql :=
  condition ← render_expr (cf_condition column);
  let null_checks := SqlIsNull <$> filter (fun stat => stat ∈ cf_referenced_stats column) stat_kinds in
  let checked := SqlOr (null_checks ++ [condition]) in
  let body :=
    if cf_needs_value_count_guard column then
      SqlAnd [SqlOr [SqlIsNull ValueCount; SqlPositive ValueCount]; checked]
    else checked in
  Some (SqlOr [SqlNoStatsRow; body]).

(** [StatsFilter::render]. *)
Definition render (columns : list StatsColumnFilter) : option (list (Z * Sql)) :=
  match omap (fun column => sql ← render_column column; Some (cf_column_id column, sql)) columns with
  | [] => None
  | rendered => Some rendered
  end.
End rendering.

(** ** Three-valued logic *)

Definition and3 (a b : option bool) : option bool :=
  match a, b with
  | Some false, _ | _, Some false => Some false
  | Some true, Some true => Some true
  | _, _ => None
  end.
Definition or3 (a b : option bool) : option bool :=
  match a, b with
  | Some true, _ | _, Some true => Some true
  | Some false, Some false => Some false
  | _, _ => None
  end.

(** A condition is false only when it is definitely so: [IS NOT FALSE], as
    [keep_when_unknown] wraps it. *)
Definition is_not_false (t : option bool) : bool := match t with Some false => false | _ => true end.

Lemma and3_not_false l : is_not_false (foldr and3 (Some true) l) = true <-> Forall (fun t => is_not_false t = true) l.
Proof.
  induction l as [|t l IH]; cbn; [split; auto|]. rewrite Forall_cons, <- IH.
  destruct t as [[]|], (foldr and3 (Some true) l) as [[]|]; cbn; naive_solver.
Qed.

Lemma or3_not_false l : Exists (fun t => is_not_false t = true) l -> is_not_false (foldr or3 (Some false) l) = true.
Proof.
  induction 1 as [t l Ht|t l _ IH]; cbn.
  - destruct t as [[]|], (foldr or3 (Some false) l) as [[]|]; done.
  - destruct t as [[]|], (foldr or3 (Some false) l) as [[]|]; done.
Qed.

Lemma or3_true l : foldr or3 (Some false) l = Some true -> Exists (fun t => t = Some true) l.
Proof.
  induction l as [|t l IH]; cbn; [done|]. intros H. destruct (decide (t = Some true)) as [->|Hne]; [by left|]. right. apply IH.
  destruct t as [[]|], (foldr or3 (Some false) l) as [[]|]; done.
Qed.

(** ** Evaluating a rendered condition *)

Definition sql_op (op : SqlOp) (c : comparison) : bool :=
  match op, c with
  | SqlEq, Eq | SqlLt, Lt | SqlGt, Gt => true
  | SqlLtEq, (Lt | Eq) | SqlGtEq, (Gt | Eq) => true
  | _, _ => false
  end.

Definition stat_text (f : FileColumnStat) (stat : StatKind) : option str :=
  match stat with MinValue => fc_min_value f | MaxValue => fc_max_value f | _ => None end.

Definition stat_count (f : FileColumnStat) (stat : StatKind) : option Z :=
  match stat with NullCount => fc_null_count f | ValueCount => fc_value_count f | _ => None end.

Definition stat_is_null (f : FileColumnStat) (stat : StatKind) : bool :=
  match stat with
  | MinValue => bool_decide (fc_min_value f = None)
  | MaxValue => bool_decide (fc_max_value f = None)
  | NullCount => bool_decide (fc_null_count f = None)
  | ValueCount => bool_decide (fc_value_count f = None)
  | ContainsNan => bool_decide (fc_contains_nan f = None)
  end.

Section sql.
Context {k : StatsOrder.StatKind} {V : Type} {B : BoundSpelling k V}.
(** What the engine makes of a stored bound compared against a literal, of the
    literal, and of a window's edge. *)
Variable convert : StatsLiteral -> str -> option V.
Variable constant : StatsLiteral -> V.
Variable edge : str -> V.

Definition operand (f : FileColumnStat) (o : Operand) : option V :=
  match o with
  | Converted stat literal => text ← stat_text f stat; convert literal text
  | Constant literal => Some (constant literal)
  | Edge text => Some (edge text)
  end.

Fixpoint sql_eval (row : option FileColumnStat) (s : Sql) : option bool :=
  match s with
  | SqlAnd parts => foldr and3 (Some true) (map (sql_eval row) parts)
  | SqlOr parts => foldr or3 (Some false) (map (sql_eval row) parts)
  | SqlNot part => negb <$> sql_eval row part
  | SqlCompare a op b =>
      f ← row; x ← operand f a; y ← operand f b; Some (sql_op op (val_cmp x y))
  | SqlIsNull stat => Some (match row with Some f => stat_is_null f stat | None => true end)
  | SqlPositive stat => f ← row; n ← stat_count f stat; Some (0 <? n)
  | SqlIsNotFalse stat =>
      Some (match row with Some f => negb (bool_decide (fc_contains_nan f = Some false)) | None => true end)
  | SqlNoStatsRow => Some (match row with Some _ => false | None => true end)
  end.

Variable try_casts : StatsLiteral -> DataType -> bool.
Variable row : option FileColumnStat.

(** The condition, if it can be rendered, is not false. *)
Definition cond_ok (e : StatsExpr) : Prop :=
  forall sql, render_expr try_casts e = Some sql -> is_not_false (sql_eval row sql) = true.

Lemma cond_ok_and children : cond_ok (And children) <-> Forall cond_ok children.
Proof.
  unfold cond_ok at 1. cbn [render_expr].
  assert (forall l, Forall cond_ok l <-> Forall (fun p => is_not_false (sql_eval row p) = true) (omap id (map (render_expr try_casts) l))) as H.
  { induction l as [|c l IH]; cbn; [split; auto|]. rewrite Forall_cons, IH. unfold cond_ok.
    destruct (render_expr try_casts c) as [p|]; cbn; [rewrite Forall_cons|]; naive_solver. }
  rewrite H. destruct (omap id (map (render_expr try_casts) children)) as [|p parts] eqn:E.
  - split; [constructor|done].
  - split.
    + intros Hs. specialize (Hs _ eq_refl). cbn [sql_eval] in Hs. rewrite and3_not_false in Hs. by apply Forall_map in Hs.
    + intros Hf sql [= <-]. cbn [sql_eval]. apply and3_not_false. by apply Forall_map.
Qed.

Lemma cond_ok_or children : Exists cond_ok children -> cond_ok (Or children).
Proof.
  intros Hex sql. cbn [render_expr].
  set (all := fix all (l : list StatsExpr) : option (list Sql) :=
                match l with
                | [] => Some []
                | child :: l' => p ← render_expr try_casts child; ps ← all l'; Some (p :: ps)
                end).
  assert (forall l ps, Exists cond_ok l -> all l = Some ps -> Exists (fun p => is_not_false (sql_eval row p) = true) ps) as H.
  { intros l ps Hl. revert ps. induction Hl as [c l Hc|c l _ IH]; intros ps; cbn.
    - destruct (render_expr try_casts c) as [p|] eqn:Ec; [|done]. cbn.
      destruct (all l) as [ps'|]; [|done]. intros [= <-]. left. by apply Hc.
    - destruct (render_expr try_casts c) as [p|]; [|done]. cbn.
      destruct (all l) as [ps'|]; [|done]. intros [= <-]. right. by apply IH. }
  destruct (all children) as [ps|] eqn:Ea; [|done]. specialize (H _ _ Hex Ea). cbn [mbind option_bind].
  destruct ps as [|p ps]; [by inversion H|]. intros [= <-]. cbn [sql_eval]. apply or3_not_false.
  apply Exists_exists in H as (q & Hq & Hn). apply Exists_exists. exists (sql_eval row q).
  split; [apply list_elem_of_fmap; by exists q|done].
Qed.
End sql.

(** ** What a predicate means *)

(** The constants of a predicate. *)
Fixpoint constants (e : PhysicalExpr) : list ScalarValue :=
  match e with
  | Column _ => []
  | Literal v => [v]
  | BinaryExpr l _ r => constants l ++ constants r
  | IsNullExpr a | IsNotNullExpr a => constants a
  | InListExpr a items _ => constants a ++ concat (map constants items)
  | OtherExpr _ children => concat (map constants children)
  end.

(** A comparison that holds, from how its sides compare. *)
Definition holds (op : Operator) (c : comparison) : bool :=
  match op, c with
  | OpEq, Eq | OpLt, Lt | OpGt, Gt => true
  | OpNotEq, (Lt | Gt) | OpLtEq, (Lt | Eq) | OpGtEq, (Gt | Eq) => true
  | _, _ => false
  end.

Definition is_comparison (op : Operator) : bool :=
  match op with OpEq | OpNotEq | OpLt | OpLtEq | OpGt | OpGtEq => true | _ => false end.

Section predicates.
(** Each column has its values, their order and spelling, and its NaNs. *)
Variable kinds : nat -> StatsOrder.StatKind.
Variable dom : nat -> Type.
Context {B : forall i, BoundSpelling (kinds i) (dom i)}.
Variable nan : forall i, dom i -> bool.
(** The value a constant has in a column's order, and how a NaN compares with
    it. *)
Variable denotes : forall i, ScalarValue -> dom i.
Variable nan_cmp : forall i, dom i -> ScalarValue -> comparison.

Definition Row : Type := forall i, option (dom i).

(** Any other node. *)
Variable eval_other : Row -> PhysicalExpr -> option bool.

Definition cmp_constant (i : nat) (x : dom i) (c : ScalarValue) : comparison :=
  if nan i x then nan_cmp i x c else val_cmp x (denotes i c).

(** [column op constant] or, flipped, [constant op column]. *)
Definition compare3 (r : Row) (i : nat) (op : Operator) (c : ScalarValue) (flipped : bool) : option bool :=
  if is_null c then None
  else x ← r i; Some (holds op (if flipped then CompOpp (cmp_constant i x c) else cmp_constant i x c)).

Fixpoint eval (r : Row) (e : PhysicalExpr) : option bool :=
  match e with
  | BinaryExpr lhs OpAnd rhs => and3 (eval r lhs) (eval r rhs)
  | BinaryExpr lhs OpOr rhs => or3 (eval r lhs) (eval r rhs)
  | BinaryExpr (Column i) op (Literal c) =>
      if is_comparison op then compare3 r i op c false else eval_other r e
  | BinaryExpr (Literal c) op (Column i) =>
      if is_comparison op then compare3 r i op c true else eval_other r e
  | IsNullExpr (Column i) => Some (match r i with None => true | Some _ => false end)
  | IsNotNullExpr (Column i) => Some (match r i with None => false | Some _ => true end)
  | InListExpr (Column i) items false =>
      match mapM as_literal items with
      | Some values => foldr or3 (Some false) ((fun c => compare3 r i OpEq c false) <$> values)
      | None => eval_other r e
      end
  | _ => eval_other r e
  end.

Lemma eval_and r lhs rhs : eval r (BinaryExpr lhs OpAnd rhs) = and3 (eval r lhs) (eval r rhs).
Proof. by destruct lhs. Qed.
Lemma eval_or r lhs rhs : eval r (BinaryExpr lhs OpOr rhs) = or3 (eval r lhs) (eval r rhs).
Proof. by destruct lhs. Qed.

(** ** One column *)

Section column.
Context (F32 F64 : FloatFormat).
Variable i : nat.
Variable ty : DataType.
Variable convert : StatsLiteral -> str -> option (dom i).
Variable constant : StatsLiteral -> dom i.
Variable edge : str -> dom i.
Variable try_casts : StatsLiteral -> DataType -> bool.

(** The contract of a dialect: a bound that spells a value converts to it, or to
    NULL; a literal is the constant it was made from. *)
Definition dialect_ok : Prop :=
  (forall l s b v, spells b s -> convert l s = Some v -> val_cmp v b = Eq)
  /\ (forall c l, for_column F32 F64 c ty = Some l -> val_cmp (constant l) (denotes i c) = Eq).

Definition exact (e : PhysicalExpr) : Prop := Forall (fun c => FloatWindow_of F64 c = None) (constants e).

Hypothesis dialect : dialect_ok.
Hypothesis nan_differs : forall x c l, for_column F32 F64 c ty = Some l -> nan i x = true -> nan_cmp i x c <> Eq.

Variable R : list (option (dom i)).
Variable f : FileColumnStat.
Hypothesis sound : file_sound (nan i) f R.
Variable r : Row.
Hypothesis in_file : r i ∈ R.

(** The cell is no NaN. *)
Definition not_nan : Prop := forall x, r i = Some x -> nan i x = false.

Abbreviation ok := (cond_ok convert constant edge try_casts (Some f)).

Lemma for_column_window c l : for_column F32 F64 c ty = Some l -> sl_window l = FloatWindow_of F64 c /\ is_null c = false.
Proof.
  unfold for_column. case_if; [done|]. unfold StatsLiteral_new. destruct (is_null c); [done|].
  intros H. split; [|done]. destruct (scalar_type c); try done; cbv zeta in H;
    repeat (case_if; [done|]); destruct (encode_scalar F32 F64 c); cbn in H; try done; (case_if; [done|]); by injection H as <-.
Qed.

(** *** The order *)

Let le (x y : dom i) : Prop := val_cmp x y <> Gt.

Lemma le_trans x y z : le x y -> le y z -> le x z.
Proof. apply val_cmp_trans. Qed.

Lemma cmp_le_l x y : val_cmp x y <> Lt <-> le y x.
Proof. unfold le. rewrite (val_cmp_flip x y). destruct (val_cmp x y); cbn; intuition congruence. Qed.

Lemma cmp_eq x y : val_cmp x y = Eq <-> le x y /\ le y x.
Proof. rewrite <- (cmp_le_l x y). unfold le. destruct (val_cmp x y); intuition congruence. Qed.

Lemma cmp_lt x y : val_cmp x y = Lt <-> ~ le y x.
Proof. rewrite <- (cmp_le_l x y). destruct (val_cmp x y); intuition congruence. Qed.

Lemma cmp_gt x y : val_cmp x y = Gt <-> ~ le x y.
Proof. unfold le. destruct (val_cmp x y); intuition congruence. Qed.

Lemma op_le x y : le x y -> sql_op SqlLtEq (val_cmp x y) = true.
Proof. unfold le. by destruct (val_cmp x y). Qed.

Lemma op_ge x y : le y x -> sql_op SqlGtEq (val_cmp x y) = true.
Proof. rewrite <- cmp_le_l. by destruct (val_cmp x y). Qed.

(** *** Bounds *)

Lemma min_le l x v :
  r i = Some x -> nan i x = false -> operand convert constant edge f (Converted MinValue l) = Some v -> le v x.
Proof.
  intros Hx Hn Hv. cbn in Hv. destruct (fc_min_value f) as [s|] eqn:Es; [|done]. cbn in Hv.
  destruct sound as (Hl & _). destruct (Hl s Es) as (b & Hb & Hle).
  pose proof (proj1 dialect l s b v Hb Hv) as He. apply cmp_eq in He as [He _].
  eapply le_trans; [exact He|]. apply Hle; [by rewrite <- Hx|done].
Qed.

Lemma max_ge l x v :
  r i = Some x -> nan i x = false -> operand convert constant edge f (Converted MaxValue l) = Some v -> le x v.
Proof.
  intros Hx Hn Hv. cbn in Hv. destruct (fc_max_value f) as [s|] eqn:Es; [|done]. cbn in Hv.
  destruct sound as (_ & Hu & _). destruct (Hu s Es) as (b & Hb & Hle).
  pose proof (proj1 dialect l s b v Hb Hv) as He. apply cmp_eq in He as [_ He].
  eapply le_trans; [|exact He]. apply Hle; [by rewrite <- Hx|done].
Qed.

Lemma compare_ok a op b :
  (forall v w, operand convert constant edge f a = Some v -> operand convert constant edge f b = Some w ->
     sql_op op (val_cmp v w) = true) ->
  is_not_false (sql_eval convert constant edge (Some f) (SqlCompare a op b)) = true.
Proof.
  intros H. cbn. destruct (operand _ _ _ f a) as [v|]; [|done]. destruct (operand _ _ _ f b) as [w|]; [|done].
  cbn. by rewrite (H v w).
Qed.

Lemma compare_true a op b :
  sql_eval convert constant edge (Some f) (SqlCompare a op b) = Some true ->
  exists v w, operand convert constant edge f a = Some v /\ operand convert constant edge f b = Some w
    /\ sql_op op (val_cmp v w) = true.
Proof.
  cbn. destruct (operand _ _ _ f a) as [v|]; [|done]. destruct (operand _ _ _ f b) as [w|]; [|done].
  cbn. intros [= H]. by exists v, w.
Qed.

Lemma not_both s t :
  (sql_eval convert constant edge (Some f) s = Some true -> sql_eval convert constant edge (Some f) t = Some true -> False) ->
  is_not_false (sql_eval convert constant edge (Some f) (SqlNot (SqlAnd [s; t]))) = true.
Proof.
  cbn [sql_eval map foldr]. destruct (sql_eval _ _ _ (Some f) s) as [[]|], (sql_eval _ _ _ (Some f) t) as [[]|]; try done.
  intros H. by destruct (H eq_refl eq_refl).
Qed.

Lemma render_stat_inv l stat o : render_stat try_casts l stat = Some o -> o = Converted stat l.
Proof. unfold render_stat. destruct (sl_cast l); [case_if|]; by intros [= <-]. Qed.

(** *** Leaves *)

(** The condition of a comparison with the constant of [l]. *)
Definition comparison_condition (op : Operator) (l : StatsLiteral) : option StatsExpr :=
  match op with
  | OpEq => Some (LiteralWithinBounds l)
  | OpNotEq => Some (NotEveryRowEqual l)
  | OpLt => Some (BoundCompare MinValue BLt l)
  | OpLtEq => Some (BoundCompare MinValue BLtEq l)
  | OpGt => Some (BoundCompare MaxValue BGt l)
  | OpGtEq => Some (BoundCompare MaxValue BGtEq l)
  | _ => None
  end.

Section leaf.
Variables (c : ScalarValue) (l : StatsLiteral) (x : dom i).
Hypothesis literal : for_column F32 F64 c ty = Some l.
Hypothesis no_window : FloatWindow_of F64 c = None.
Hypothesis cell : r i = Some x.
Hypothesis ordered : nan i x = false.

Lemma constant_le : le (constant l) (denotes i c) /\ le (denotes i c) (constant l).
Proof. apply cmp_eq. by apply (proj2 dialect). Qed.

Lemma equal_ok : val_cmp x (denotes i c) = Eq -> ok (LiteralWithinBounds l).
Proof.
  intros [H1 H2]%cmp_eq sql. cbn [render_expr]. destruct (for_column_window c l literal) as [-> _]. rewrite no_window.
  destruct constant_le as [Hk1 Hk2].
  destruct (render_stat try_casts l MinValue) as [mn|] eqn:Emn; [|done]. cbn [mbind option_bind].
  destruct (render_stat try_casts l MaxValue) as [mx|] eqn:Emx; [|done]. cbn [mbind option_bind].
  apply render_stat_inv in Emn as ->, Emx as ->. intros [= <-].
  cbn [sql_eval between]. apply and3_not_false. repeat constructor; apply compare_ok; intros v w [= <-] Hw.
  - apply op_ge. eapply le_trans; [by eapply min_le|]. by eapply le_trans.
  - apply op_le. eapply le_trans; [|by eapply max_ge]. by eapply le_trans.
Qed.

Lemma not_equal_ok : val_cmp x (denotes i c) <> Eq -> ok (NotEveryRowEqual l).
Proof.
  intros Hne sql. cbn [render_expr]. destruct (for_column_window c l literal) as [-> _]. rewrite no_window.
  destruct constant_le as [Hk1 Hk2].
  destruct (render_stat try_casts l MinValue) as [mn|] eqn:Emn; [|done]. cbn [mbind option_bind].
  destruct (render_stat try_casts l MaxValue) as [mx|] eqn:Emx; [|done]. cbn [mbind option_bind].
  apply render_stat_inv in Emn as ->, Emx as ->. intros [= <-].
  apply not_both. intros (v & k1 & Hv & [= <-] & Cv)%compare_true (w & k2 & Hw & [= <-] & Cw)%compare_true.
  apply Hne, cmp_eq. destruct (val_cmp v (constant l)) eqn:Ev; try done. destruct (val_cmp w (constant l)) eqn:Ew; try done.
  apply cmp_eq in Ev as [Hv1 Hv2], Ew as [Hw1 Hw2]. split.
  - eapply le_trans; [by eapply max_ge|]. by eapply le_trans.
  - eapply le_trans; [exact Hk2|]. eapply le_trans; [exact Hv2|]. by eapply min_le.
Qed.

(** A range comparison reads the bound on its side. *)
Lemma range_ok stat op :
  (forall v, operand convert constant edge f (Converted stat l) = Some v ->
     sql_op (bound_op op) (val_cmp v (constant l)) = true) ->
  ok (BoundCompare stat op l).
Proof.
  intros H sql. cbn [render_expr]. destruct (for_column_window c l literal) as [-> _]. rewrite no_window.
  destruct (render_stat try_casts l stat) as [b|] eqn:Eb; [|done]. cbn [mbind option_bind].
  apply render_stat_inv in Eb as ->. intros [= <-]. apply compare_ok. intros v w Hv [= <-]. by apply H.
Qed.

Lemma comparison_ok op cond :
  comparison_condition op l = Some cond -> holds op (val_cmp x (denotes i c)) = true -> ok cond.
Proof.
  destruct constant_le as [Hk1 Hk2].
  destruct op; cbn; try done; intros [= <-] Hh.
  - apply equal_ok. revert Hh; by destruct (val_cmp x (denotes i c)).
  - apply not_equal_ok. revert Hh; by destruct (val_cmp x (denotes i c)).
  - apply range_ok. intros v Hv. assert (val_cmp v (constant l) = Lt) as ->; [|done]. apply cmp_lt. intros Hle.
    assert (~ le (denotes i c) x) as Hc by (apply cmp_lt; revert Hh; by destruct (val_cmp x (denotes i c))).
    apply Hc. eapply le_trans; [exact Hk2|]. eapply le_trans; [exact Hle|]. by eapply min_le.
  - apply range_ok. intros v Hv. apply op_le. eapply le_trans; [by eapply min_le|]. eapply le_trans; [|exact Hk2]. unfold le. revert Hh; by destruct (val_cmp x (denotes i c)).
  - apply range_ok. intros v Hv. assert (val_cmp v (constant l) = Gt) as ->; [|done]. apply cmp_gt. intros Hle.
    assert (~ le x (denotes i c)) as Hc by (apply cmp_gt; revert Hh; by destruct (val_cmp x (denotes i c))).
    apply Hc. eapply le_trans; [by eapply max_ge|]. eapply le_trans; [exact Hle|]. exact Hk1.
  - apply range_ok. intros v Hv. apply op_ge. eapply le_trans; [exact Hk1|]. eapply le_trans; [|by eapply max_ge].
    apply cmp_le_l. revert Hh; by destruct (val_cmp x (denotes i c)).
Qed.
End leaf.

(** A comparison that is true of the row. *)
Lemma compare3_ok op c l cond :
  for_column F32 F64 c ty = Some l -> FloatWindow_of F64 c = None ->
  comparison_condition op l = Some cond -> compare3 r i op c false = Some true ->
  not_nan \/ needs_float_gate cond = false -> ok cond /\ is_Some (r i).
Proof.
  intros Hl Hw Hc. unfold compare3. destruct (for_column_window c l Hl) as [_ ->].
  destruct (r i) as [x|] eqn:Hx in |- *; [|done]. cbn [mbind option_bind]. intros [= Hh] Hg. split; [|done].
  unfold cmp_constant in Hh. destruct (nan i x) eqn:En.
  - exfalso. pose proof (nan_differs x c l Hl En) as Hne. destruct Hg as [Hnn|Hg].
    + specialize (Hnn x Hx). congruence.
    + destruct op; cbn in Hc; try done; injection Hc as <-; cbn in Hg; try done. by destruct (nan_cmp i x c).
  - by apply (comparison_ok c l x Hl Hw Hx En op cond).
Qed.

Lemma flip_compare3 op op' c :
  flip_operator op = Some op' -> compare3 r i op c true = compare3 r i op' c false.
Proof.
  intros Hf. unfold compare3. destruct (is_null c); [done|]. destruct (r i) as [x|] in |- *; [|done]. cbn. f_equal.
  destruct op; cbn in Hf; try done; injection Hf as <-; by destruct (cmp_constant i x c).
Qed.

Lemma lower_comparison_inv lhs op rhs cond S :
  lower_comparison F32 F64 i ty lhs op rhs = Some (cond, S) ->
  exists c l op', for_column F32 F64 c ty = Some l /\ comparison_condition op' l = Some cond
    /\ c ∈ constants lhs ++ constants rhs /\ NullCount ∉ S
    /\ (eval r (BinaryExpr lhs op rhs) = Some true -> compare3 r i op' c false = Some true).
Proof.
  unfold lower_comparison.
  assert (forall c op' l, for_column F32 F64 c ty = Some l ->
            match op' with
            | OpEq => Some (LiteralWithinBounds l, {[MinValue; MaxValue]})
            | OpNotEq => Some (NotEveryRowEqual l, {[MinValue; MaxValue]})
            | OpLt => Some (BoundCompare MinValue BLt l, {[MinValue]})
            | OpLtEq => Some (BoundCompare MinValue BLtEq l, {[MinValue]})
            | OpGt => Some (BoundCompare MaxValue BGt l, {[MaxValue]})
            | OpGtEq => Some (BoundCompare MaxValue BGtEq l, {[MaxValue]})
            | _ => None
            end = Some (cond, S) ->
            comparison_condition op' l = Some cond /\ NullCount ∉ S /\ is_comparison op' = true) as Hops.
  { intros c op' l _. destruct op'; intros [= <- <-]; (split; [done|]); (split; [set_solver|done]). }
  destruct (subject_column lhs i) eqn:Hl.
  - destruct lhs as [j| | | | | |]; cbn in Hl; try done. apply Nat.eqb_eq in Hl as ->.
    destruct rhs as [|c| | | | |]; cbn; try done.
    destruct (for_column F32 F64 c ty) as [l|] eqn:El; [|done]. cbn. intros H.
    destruct (Hops c op l El H) as (H1 & H2 & H3). exists c, l, op. repeat (split; [done || set_solver|]).
    destruct op; done.
  - destruct (subject_column rhs i) eqn:Hr; [|done].
    destruct rhs as [j| | | | | |]; cbn in Hr; try done. apply Nat.eqb_eq in Hr as ->.
    destruct lhs as [|c| | | | |]; cbn; try done.
    destruct (flip_operator op) as [op'|] eqn:Ef; [|done]. cbn.
    destruct (for_column F32 F64 c ty) as [l|] eqn:El; [|done]. cbn. intros H.
    destruct (Hops c op' l El H) as (H1 & H2 & H3). exists c, l, op'. repeat (split; [done || set_solver|]).
    rewrite <- (flip_compare3 op op' c Ef). destruct op; done.
Qed.

Lemma in_list_ok items : forall parts values,
  in_list_parts F32 F64 ty items = Some parts -> mapM as_literal items = Some values ->
  Forall (fun c => FloatWindow_of F64 c = None) (concat (map constants items)) ->
  Exists (fun c => compare3 r i OpEq c false = Some true) values ->
  Exists ok parts /\ is_Some (r i).
Proof.
  induction items as [|item items IH]; intros parts values; cbn.
  { intros [= <-] [= <-] _ H. by inversion H. }
  destruct (as_literal item) as [c|] eqn:Ec; [|done]. cbn.
  destruct (for_column F32 F64 c ty) as [l|] eqn:El; [|done]. cbn.
  destruct (in_list_parts F32 F64 ty items) as [parts'|]; [|done]. cbn. intros [= <-].
  destruct (mapM as_literal items) as [values'|]; [|done]. cbn. intros [= <-] Hw Hex.
  destruct item as [|c'| | | | |]; cbn in Ec; try done. injection Ec as ->. cbn in Hw. apply Forall_cons in Hw as [Hw Hws].
  apply Exists_cons in Hex as [Hc|Hex].
  - destruct (compare3_ok OpEq c l _ El Hw eq_refl Hc (or_intror eq_refl)) as [H1 H2]. split; [by left|done].
  - destruct (IH parts' values' eq_refl eq_refl Hws Hex) as [H1 H2]. split; [by right|done].
Qed.

Lemma counts_ok : (r i = None -> ok (CountPositive NullCount)) /\ (is_Some (r i) -> ok (CountPositive ValueCount)).
Proof.
  destruct sound as (_ & _ & Hn & Hv & _). split.
  - intros Hr sql [= <-]. cbn. destruct (fc_null_count f) as [n|] eqn:E; [|done]. cbn.
    assert (0 < n) as Hpos; [|by apply Z.ltb_lt in Hpos as ->]. rewrite (Hn n eq_refl). apply nulls_pos. by rewrite <- Hr.
  - intros [x Hr] sql [= <-]. cbn. destruct (fc_value_count f) as [n|] eqn:E; [|done]. cbn.
    assert (0 < n) as Hpos; [|by apply Z.ltb_lt in Hpos as ->]. rewrite (Hv n eq_refl). rewrite Hr in in_file.
    apply list_elem_of_split in in_file as (R1 & R2 & ->). unfold count, nulls.
    rewrite length_app, filter_app, length_app, filter_cons, decide_False by done. cbn [length].
    pose proof (length_filter (fun c : option (dom i) => c = None) R1). pose proof (length_filter (fun c : option (dom i) => c = None) R2). lia.
Qed.

Lemma and3_true a b : and3 a b = Some true -> a = Some true /\ b = Some true.
Proof. by destruct a as [[]|], b as [[]|]. Qed.

Lemma or3_two a b : or3 a b = Some true -> a = Some true \/ b = Some true.
Proof. destruct a as [[]|], b as [[]|]; cbn; auto. Qed.

(** What a lowered node owes to a row it is true of. *)
Definition node_ok (e : PhysicalExpr) (cond : StatsExpr) (S : gset StatKind) : Prop :=
  (not_nan \/ needs_float_gate cond = false -> ok cond) /\ (NullCount ∉ S -> is_Some (r i)).

Lemma node_comparison lhs op rhs cond S :
  lower_comparison F32 F64 i ty lhs op rhs = Some (cond, S) -> exact (BinaryExpr lhs op rhs) ->
  eval r (BinaryExpr lhs op rhs) = Some true -> node_ok (BinaryExpr lhs op rhs) cond S.
Proof.
  intros H He Ht. apply lower_comparison_inv in H as (c & l & op' & Hl & Hc & Hin & _ & Hev). specialize (Hev Ht).
  unfold exact in He. rewrite Forall_forall in He. specialize (He c Hin).
  assert (is_Some (r i)) as Hs.
  { unfold compare3 in Hev. destruct (is_null c); [done|]. destruct (r i) as [x|] in Hev |- *; [by eexists|done]. }
  split; [|done]. intros Hg. by destruct (compare3_ok op' c l cond Hl He Hc Hev Hg).
Qed.

Lemma node_in_list a items negated cond S :
  lower_node F32 F64 i ty (InListExpr a items negated) = Some (cond, S) -> exact (InListExpr a items negated) ->
  eval r (InListExpr a items negated) = Some true -> node_ok (InListExpr a items negated) cond S.
Proof.
  cbn [lower_node]. destruct negated; [done|]. destruct (subject_column a i) eqn:Ha; [|done]. cbn [negb].
  destruct a as [j| | | | | |]; cbn in Ha; try done. apply Nat.eqb_eq in Ha as ->.
  destruct items as [|item items]; [done|]. set (l := item :: items).
  destruct (in_list_parts F32 F64 ty l) as [parts|] eqn:Ep; [|done]. cbn [mbind option_bind]. intros [= <- <-] He Ht.
  cbn [eval] in Ht. destruct (mapM as_literal l) as [values|] eqn:Ev.
  2:{ exfalso. clear -Ep Ev. revert parts Ep. induction l as [|x l' IH]; [done|]. intros parts. cbn in Ev |- *.
      destruct (as_literal x) as [c|]; [|done]. cbn in Ev |- *. destruct (for_column F32 F64 c ty); [|done]. cbn.
      destruct (in_list_parts F32 F64 ty l'); [|done]. destruct (mapM as_literal l'); [done|]. intros _. by eapply IH. }
  apply or3_true in Ht. unfold exact in He. cbn [constants app] in He.
  assert (Exists (fun c => compare3 r i OpEq c false = Some true) values) as Hex.
  { apply Exists_exists in Ht as (t & Ht & ->). apply list_elem_of_fmap in Ht as (c & Hc & Hin). apply Exists_exists. by exists c. }
  destruct (in_list_ok l parts values Ep Ev He Hex) as [Hok Hs]. split; [|done]. intros _.
  destruct parts as [|p [|q parts]]; [by inversion Hok| |by apply cond_ok_or].
  apply Exists_cons in Hok as [Hok|Hok]; [done|by inversion Hok].
Qed.

Lemma lower_node_ok e : forall cond S,
  lower_node F32 F64 i ty e = Some (cond, S) -> exact e -> eval r e = Some true -> node_ok e cond S.
Proof.
  induction e as [j|c|lhs IHl op rhs IHr|a _|a _|a _ items negated|tag children]; intros cond S Hl He Ht; try done.
  - destruct op; try (by apply node_comparison); unfold exact in He; cbn [constants] in He;
      apply Forall_app in He as [He1 He2]; cbn [lower_node] in Hl.
    + rewrite eval_and in Ht. apply and3_true in Ht as [Ht1 Ht2].
      destruct (lower_node F32 F64 i ty lhs) as [[cl sl]|], (lower_node F32 F64 i ty rhs) as [[cr sr]|].
      * injection Hl as <- <-. destruct (IHl cl sl eq_refl He1 Ht1) as [H1 H2], (IHr cr sr eq_refl He2 Ht2) as [H3 H4].
        split; [|intros Hn; apply H2; set_solver]. intros Hg. apply cond_ok_and. cbn in Hg. rewrite orb_false_r, orb_false_iff in Hg.
        repeat constructor; [apply H1|apply H3]; tauto.
      * injection Hl as <- <-. by apply IHl.
      * injection Hl as <- <-. by apply IHr.
      * done.
    + destruct (lower_node F32 F64 i ty lhs) as [[cl sl]|]; [|done]. cbn [mbind option_bind] in Hl.
      destruct (lower_node F32 F64 i ty rhs) as [[cr sr]|]; [|done]. cbn [mbind option_bind] in Hl. injection Hl as <- <-.
      assert (not_nan \/ needs_float_gate (Or [cl; cr]) = false ->
                (not_nan \/ needs_float_gate cl = false) /\ (not_nan \/ needs_float_gate cr = false)) as Hgates.
      { cbn. rewrite orb_false_r, orb_false_iff. tauto. }
      rewrite eval_or in Ht. apply or3_two in Ht as [Ht|Ht].
      * destruct (IHl cl sl eq_refl He1 Ht) as [H1 H2]. split; [|intros Hn; apply H2; set_solver].
        intros Hg. apply cond_ok_or. left. apply H1. by apply Hgates.
      * destruct (IHr cr sr eq_refl He2 Ht) as [H1 H2]. split; [|intros Hn; apply H2; set_solver].
        intros Hg. apply cond_ok_or. right. left. apply H1. by apply Hgates.
  - cbn [lower_node eval] in Hl, Ht. destruct a as [j| | | | | |]; cbn in Hl; try done.
    destruct (Nat.eqb_spec j i) as [->|]; [|done]. injection Hl as <- <-.
    destruct (r i) as [x|] eqn:Hr in Ht; [done|]. split; [intros _; by apply counts_ok|set_solver].
  - cbn [lower_node eval] in Hl, Ht. destruct a as [j| | | | | |]; cbn in Hl; try done.
    destruct (Nat.eqb_spec j i) as [->|]; [|done]. injection Hl as <- <-.
    assert (is_Some (r i)) as Hs by (destruct (r i) as [x|] in Ht |- *; [by eexists|done]).
    split; [intros _; by apply counts_ok|done].
  - by apply node_in_list.
Qed.

(** With the float gate. *)
Lemma gated_ok e cond S :
  (is_float ty = false -> not_nan) ->
  lower_node F32 F64 i ty e = Some (cond, S) -> exact e -> eval r e = Some true ->
  ok (if needs_float_gate cond && is_float ty then Or [FloatBoundsUnusable; cond] else cond)
  /\ (NullCount ∉ (if needs_float_gate cond && is_float ty then {[ContainsNan]} ∪ S else S) -> is_Some (r i)).
Proof.
  intros Hty Hl He Ht. destruct (lower_node_ok e cond S Hl He Ht) as [H1 H2].
  destruct (needs_float_gate cond) eqn:Eg; cbn [andb]; [|split; [apply H1; by right|done]].
  destruct (is_float ty) eqn:Ef; [|split; [apply H1; left; by apply Hty|done]].
  split; [|intros Hn; apply H2; set_solver]. apply cond_ok_or.
  assert (not_nan \/ exists x, r i = Some x /\ nan i x = true) as [Hnn|(x & Hx & Hn)].
  { unfold not_nan. destruct (r i) as [x|] in |- *; [|by left]. destruct (nan i x) eqn:En; [right; eauto|left]. by intros y [= <-]. }
  - right. left. apply H1. by left.
  - left. intros sql [= <-]. cbn. case_bool_decide as Hc; [|done]. exfalso.
    destruct sound as (_ & _ & _ & _ & Hnan). destruct (Hnan false Hc) as [?|Hno]; [done|].
    specialize (Hno x). rewrite Hx in in_file. specialize (Hno in_file). congruence.
Qed.
End column.

(** ** A file *)

Section file.
Context (F32 F64 : FloatFormat).
Variable schema : list DataType.
Variable columns : list Z.
Variable convert : forall i, StatsLiteral -> str -> option (dom i).
Variable constant : forall i, StatsLiteral -> dom i.
Variable edge : forall i, str -> dom i.
Variable try_casts : StatsLiteral -> DataType -> bool.
Variable rows : list Row.
(** The file's statistics row of each column id, if there is one. *)
Variable stats : Z -> option FileColumnStat.
Variable r : Row.

Hypothesis distinct : NoDup columns.
Hypothesis dialects : forall i ty, schema !! i = Some ty -> dialect_ok F32 F64 i ty (convert i) (constant i).
(** A NaN equals no constant that is lowered (those are finite), and only columns of
    a float type hold NaNs. *)
Hypothesis nan_differs : forall i ty x c l, schema !! i = Some ty -> for_column F32 F64 c ty = Some l ->
  nan i x = true -> nan_cmp i x c <> Eq.
Hypothesis nan_floats : forall i ty x, schema !! i = Some ty -> is_float ty = false -> nan i x = false.
Hypothesis stats_sound : forall i id f, columns !! i = Some id -> stats id = Some f ->
  file_sound (nan i) f ((fun row : Row => row i) <$> rows).
Hypothesis in_file : r ∈ rows.

Definition entry_ok (entry : Z * Lowered) : Prop :=
  forall i f, columns !! i = Some entry.1 -> stats entry.1 = Some f ->
    cond_ok (convert i) (constant i) (edge i) try_casts (Some f) (lo_condition entry.2)
    /\ (NullCount ∉ lo_referenced_stats entry.2 -> is_Some (r i)).

Lemma cell_in_file i : r i ∈ (fun row : Row => row i) <$> rows.
Proof. apply list_elem_of_fmap. by exists r. Qed.

Lemma lower_conjunct_ok e entry :
  lower_conjunct F32 F64 e schema columns = Some entry -> exact F64 e -> eval r e = Some true -> entry_ok entry.
Proof.
  unfold lower_conjunct. destruct (sole_column_index e) as [j|]; [|done]. cbn [mbind option_bind].
  destruct (schema !! j) as [ty|] eqn:Ety; [|done]. cbn [mbind option_bind].
  destruct (columns !! j) as [id|] eqn:Eid; [|done]. cbn [mbind option_bind].
  destruct (lower_node F32 F64 j ty e) as [[cond S]|] eqn:El; [|done]. cbn [mbind option_bind].
  intros [= <-] He Ht i f Hi Hf. cbn [fst snd lo_condition lo_referenced_stats] in *.
  assert (i = j) as -> by (by eapply NoDup_lookup).
  refine (gated_ok F32 F64 j ty (convert j) (constant j) (edge j) try_casts (dialects j ty Ety)
            (fun x c l => nan_differs j ty x c l Ety) _ f
            (stats_sound j id f Hi Hf) r (cell_in_file j) e cond S _ El He Ht).
  intros Hty x _. by eapply nan_floats.
Qed.

Lemma intersect_ok id a b : entry_ok (id, a) -> entry_ok (id, b) -> entry_ok (id, intersect a b).
Proof.
  intros Ha Hb i f Hi Hf. destruct (Ha i f Hi Hf) as [Ha1 Ha2], (Hb i f Hi Hf) as [Hb1 Hb2].
  cbn [fst snd lo_condition lo_referenced_stats intersect] in *.
  split; [|intros Hn; apply Ha2; set_solver].
  destruct (lo_condition a); apply cond_ok_and; rewrite ?Forall_app; try (by repeat constructor).
  apply cond_ok_and in Ha1. split; [done|]. by constructor.
Qed.

Lemma add_conjunct_ok id lo by_column :
  Forall entry_ok by_column -> entry_ok (id, lo) -> Forall entry_ok (add_conjunct id lo by_column).
Proof.
  intros Hall Hlo. induction Hall as [|[id' a] rest Ha Hrest IH]; cbn [add_conjunct]; [by constructor|].
  destruct (Z.eqb_spec id' id) as [->|]; constructor; auto using intersect_ok.
Qed.

Lemma lower_conjuncts_ok conjuncts :
  Forall (fun e => exact F64 e /\ eval r e = Some true) conjuncts ->
  Forall entry_ok (lower_conjuncts F32 F64 conjuncts schema columns).
Proof.
  unfold lower_conjuncts. assert (Forall entry_ok []) as H0 by constructor. revert H0. generalize (@nil (Z * Lowered)).
  intros acc Hacc Hc. revert acc Hacc. induction Hc as [|e conjuncts [He Ht] _ IH]; intros acc Hacc; cbn [foldl]; [done|].
  apply IH. destruct (lower_conjunct F32 F64 e schema columns) as [[id lo]|] eqn:El; [|done].
  apply add_conjunct_ok; [done|]. by eapply lower_conjunct_ok.
Qed.

Lemma render_column_ok id lo i sql :
  entry_ok (id, lo) -> columns !! i = Some id -> render_column try_casts (column_filter (id, lo)) = Some sql ->
  is_not_false (sql_eval (convert i) (constant i) (edge i) (stats id) sql) = true.
Proof.
  intros Hok Hi. unfold render_column.
  destruct (render_expr try_casts (cf_condition (column_filter (id, lo)))) as [cond|] eqn:Er; [|done].
  cbn [mbind option_bind column_filter cf_needs_value_count_guard cf_referenced_stats]. intros [= <-].
  cbn [sql_eval map]. apply or3_not_false. destruct (stats id) as [f|] eqn:Ef; [|by left]. right. left.
  destruct (Hok i f Hi Ef) as [Hc Hn]. specialize (Hc cond Er). cbn [fst snd] in Hn.
  set (checked := SqlOr (_ ++ [cond])).
  assert (is_not_false (sql_eval (convert i) (constant i) (edge i) (Some f) checked) = true) as Hchecked.
  { cbn [sql_eval checked]. apply or3_not_false. rewrite map_app. apply Exists_app. right. by left. }
  destruct (bool_decide (NullCount ∈ lo_referenced_stats lo)) eqn:En; cbn [negb andb]; [done|].
  destruct (existsb is_bound (elements (lo_referenced_stats lo))); [|done]. apply bool_decide_eq_false in En.
  cbn [sql_eval map]. apply and3_not_false. repeat constructor; [|done].
  apply or3_not_false. right. left.
  assert (cond_ok (convert i) (constant i) (edge i) try_casts (Some f) (CountPositive ValueCount)) as Hv.
  { eapply counts_ok; [by eapply stats_sound|apply cell_in_file|by apply Hn]. }
  by apply (Hv (SqlPositive ValueCount)).
Qed.

Lemma render_inv filter rendered : render try_casts filter = Some rendered ->
  rendered = omap (fun column => sql ← render_column try_casts column; Some (cf_column_id column, sql)) filter.
Proof. unfold render. destruct (omap _ filter); [done|]. by intros [= <-]. Qed.

(** [split_conjunction], as documented: the conjuncts of a predicate. *)
Variable split_conjunction : PhysicalExpr -> list PhysicalExpr.
Hypothesis splits : forall row e, eval row e = Some true ->
  Forall (fun conjunct => eval row conjunct = Some true /\ constants conjunct ⊆ constants e) (split_conjunction e).

End file.
End predicates.

(** ** An example *)

Module IntegerTable.
(** A table with one [Int64] column, id 7, of a catalog that reads integers. *)
Definition kinds (_ : nat) : StatsOrder.StatKind := Numeric.
Definition dom (_ : nat) : Type := Integer.
#[local] Instance spelling i : BoundSpelling (kinds i) (dom i) := integer_bounds.
Definition number (text : str) : Z := default 0 (parse_i128 text).
Definition denotes (_ : nat) (c : ScalarValue) : Integer := number (default [] (encode_scalar one_number one_number c)).
Definition constant (_ : nat) (l : StatsLiteral) : Integer := number (sl_text l).
Definition convert (_ : nat) (_ : StatsLiteral) (text : str) : option Integer := parse_i128 text.
Definition no_nan (_ : nat) (_ : Integer) : bool := false.
Definition nan_cmp (_ : nat) (_ : Integer) (_ : ScalarValue) : comparison := Lt.
Definition eval_other (_ : Row dom) (_ : PhysicalExpr) : option bool := None.

Fixpoint conjuncts (e : PhysicalExpr) : list PhysicalExpr :=
  match e with
  | BinaryExpr l OpAnd r => conjuncts l ++ conjuncts r
  | _ => [e]
  end.

Definition int (n : Z) : PhysicalExpr := Literal (IntValue Int64 (Some n)).
(** [x > 5 AND x <> 8 AND x IS NOT NULL] *)
Definition predicate : PhysicalExpr :=
  BinaryExpr (BinaryExpr (BinaryExpr (Column 0) OpGt (int 5)) OpAnd (BinaryExpr (int 8) OpNotEq (Column 0)))
    OpAnd (IsNotNullExpr (Column 0)).

Definition row (n : Z) : Row dom := fun _ => Some n.
Definition null_row : Row dom := fun _ => None.
Definition rows : list (Row dom) := [row 3; row 9; null_row].
Definition statistics (max : str) : FileColumnStat :=
  {| fc_column_id := 7; fc_min_value := Some ("3" : str); fc_max_value := Some max; fc_null_count := Some 1;
     fc_contains_nan := None; fc_value_count := Some 2 |}.
Definition stats (max : str) (id : Z) : option FileColumnStat := if id =? 7 then Some (statistics max) else None.

Lemma literal_text F32 F64 c ty l : for_column F32 F64 c ty = Some l -> encode_scalar F32 F64 c = Some (sl_text l).
Proof.
  unfold for_column. case_if; [done|]. unfold StatsLiteral_new. destruct (is_null c); [done|].
  intros H. destruct (scalar_type c); try done; cbv zeta in H;
    repeat (case_if; [done|]); destruct (encode_scalar F32 F64 c); cbn in H; try done; (case_if; [done|]); by injection H as <-.
Qed.

Lemma reads_integers i ty : dialect_ok kinds dom denotes one_number one_number i ty (convert i) (constant i).
Proof.
  split.
  - intros l s b v [Hb ->] Hv. unfold in_i128 in Hb. breflect. unfold convert, parse_i128 in Hv.
    rewrite parse_show_Z in Hv by lia. injection Hv as <-. apply Z.compare_refl.
  - intros c l Hl. unfold denotes, constant. rewrite (literal_text _ _ _ _ _ Hl). apply Z.compare_refl.
Qed.

Abbreviation eval := (FilePruning.eval kinds dom no_nan denotes nan_cmp eval_other).

Lemma conjuncts_hold (r : Row dom) e : eval r e = Some true ->
  Forall (fun c => eval r c = Some true /\ constants c ⊆ constants e) (conjuncts e).
Proof.
  induction e as [j|c|lhs IHl op rhs IHr|a _|a _|a _ items negated|tag children]; intros Ht; try (by repeat constructor).
  destruct op; try (by repeat constructor). rewrite eval_and in Ht. apply and3_true in Ht as [H1 H2]. cbn [conjuncts].
  apply Forall_app. split; (eapply Forall_impl; [by auto|]); intros c [H3 H4]; split; [done| |done|]; cbn; set_solver.
Qed.

Lemma cells i x : Some x ∈ (fun r : Row dom => r i) <$> rows -> x = 3 \/ x = 9.
Proof.
  intros (r & Hx & Hr)%list_elem_of_fmap. unfold rows in Hr. rewrite !elem_of_cons, elem_of_nil in Hr.
  destruct Hr as [->|[->|[->|[]]]]; [injection Hx as ->; by left|injection Hx as ->; by right|done].
Qed.

Lemma stats_right i : file_sound (B := spelling i) (no_nan i) (statistics "9") ((fun r : Row dom => r i) <$> rows).
Proof.
  repeat split; cbn.
  - intros s [= <-]. exists 3. split; [done|]. intros x [->| ->]%cells _; done.
  - intros s [= <-]. exists 9. split; [done|]. intros x [->| ->]%cells _; done.
  - by intros n [= <-].
  - by intros n [= <-].
  - done.
Qed.

Definition filter : list StatsColumnFilter :=
  Eval vm_compute in default [] (lower_predicate one_number one_number conjuncts predicate [Int64] [7]).
Definition sql : Sql :=
  Eval vm_compute in match render (fun _ _ => true) filter with Some [(_, sql)] => sql | _ => SqlNoStatsRow end.

Lemma filter_of_predicate : lower_predicate one_number one_number conjuncts predicate [Int64] [7] = Some filter.
Proof. vm_compute. reflexivity. Qed.

Lemma sql_of_filter : render (fun _ _ => true) filter = Some [(7, sql)].
Proof. vm_compute. reflexivity. Qed.

Lemma stats_right_file i id f : [7] !! i = Some id -> stats "9" id = Some f ->
  file_sound (B := spelling i) (no_nan i) f ((fun r : Row dom => r i) <$> rows).
Proof. intros Hi Hf. destruct i; [|done]. injection Hi as <-. injection Hf as <-. apply stats_right. Qed.

End IntegerTable.
