(* ===== verification/ColumnTrees.v ===== *)
(** * Column trees ([src/src/metadata_writer.rs], [src/src/metadata_provider.rs])

    The catalog stores a column as one row per node of its type, depth first, each
    nested row naming its parent. A write flattens its columns
    ([catalog_column_defs]), gives each node the id of the live column at the same
    path or a fresh one ([assign_column_ids]), decides whether the commit changes
    the schema ([catalog_columns_differ]) and numbers the columns
    ([proposed_column_orders]); a read rebuilds the types from the rows
    ([reconstruct_columns]). *)

From S2P Require Import Prelude RustStd StatsOrder StatsRollup Arrow WriterTypes Types WriterChecks.

(** ** Rows *)

Record CatalogColumnDef := {
  ccd_name : str;
  ccd_ducklake_type : str;
  ccd_logical_type : str;
  ccd_is_nullable : bool;
  ccd_parent_index : option nat;
  ccd_initial_default : option str;
  ccd_default_value : option str;
  ccd_default_value_type : option str;
  ccd_default_value_dialect : option str;
}.

Record ExistingCatalogColumn := {
  ec_column_id : Z;
  ec_name : str;
  ec_ducklake_type : str;
  ec_parent_column : option Z;
}.

(** ** Column definitions *)

(** [ColumnDef::new]. *)
Definition ColumnDef_new (name ducklake_type : str) (is_nullable : bool) : result ColumnDef :=
  let? _ := validate_name name "Column" in
  let? data_type := ducklake_to_arrow_type ducklake_type in
  Ok {| cd_name := name; cd_ducklake_type := ducklake_type; cd_is_nullable := is_nullable;
        cd_data_type := data_type; cd_initial_default := None; cd_default_value := None;
        cd_default_value_type := None; cd_default_value_dialect := None; cd_catalog_nodes := None |}.

(** [ColumnDef::from_arrow]. *)
Definition from_arrow (name : str) (data_type : DataType) (is_nullable : bool) : result ColumnDef :=
  let? _ := validate_name name "Column" in
  let? ducklake_type := arrow_to_ducklake_type data_type in
  Ok {| cd_name := name; cd_ducklake_type := ducklake_type; cd_is_nullable := is_nullable;
        cd_data_type := data_type; cd_initial_default := None; cd_default_value := None;
        cd_default_value_type := None; cd_default_value_dialect := None; cd_catalog_nodes := None |}.

(** [ColumnDef::copying]. *)
Definition copying (name : str) (data_type : DataType) (nodes : list CatalogNode) : result ColumnDef :=
  let? root := ok_or (head nodes) (Internal ("column '" ++ name ++ "' copies no catalog row")) in
  let? column := from_arrow name data_type (cn_is_nullable root) in
  Ok {| cd_name := cd_name column; cd_ducklake_type := cd_ducklake_type column;
        cd_is_nullable := cd_is_nullable column; cd_data_type := cd_data_type column;
        cd_initial_default := cn_initial_default root; cd_default_value := cn_default_value root;
        cd_default_value_type := cn_default_value_type root;
        cd_default_value_dialect := cn_default_value_dialect root;
        cd_catalog_nodes := Some nodes |}.

(** ** Flattening *)

(** [catalog_type_name]. *)
Definition catalog_type_name (data_type : DataType) : result str :=
  match data_type with
  | List _ | LargeList _ | FixedSizeList _ _ => Ok (lit "list")
  | Struct _ => Ok (lit "struct")
  | Map _ _ => Ok (lit "map")
  | _ => arrow_to_ducklake_type data_type
  end.

(** [append_column_def]; [result] is the vector it pushes to. *)
Fixpoint append_column_def (name : str) (data_type : DataType) (is_nullable : bool)
    (parent_index : option nat) (defs : list CatalogColumnDef) {struct data_type}
  : result (list CatalogColumnDef) :=
  let index := length defs in
  let? ducklake_type := catalog_type_name data_type in
  let? logical_type := arrow_to_ducklake_type data_type in
  let defs := defs ++ [{| ccd_name := name; ccd_ducklake_type := ducklake_type;
                          ccd_logical_type := logical_type; ccd_is_nullable := is_nullable;
                          ccd_parent_index := parent_index; ccd_initial_default := None;
                          ccd_default_value := None; ccd_default_value_type := None;
                          ccd_default_value_dialect := None |}] in
  match data_type with
  | List (_, element, nullable) | LargeList (_, element, nullable)
  | FixedSizeList (_, element, nullable) _ =>
      append_column_def "element" element nullable (Some index) defs
  | Struct fields =>
      (fix append_fields (fields : list Field) (defs : list CatalogColumnDef)
         : result (list CatalogColumnDef) :=
         match fields with
         | [] => Ok defs
         | (field_name, field_type, nullable) :: rest =>
             let? defs := append_column_def field_name field_type nullable (Some index) defs in
             append_fields rest defs
         end) fields defs
  | Map (_, entries, _) _ =>
      match entries with
      | Struct [(_, key, _); (_, value, nullable)] =>
          let? defs := append_column_def "key" key false (Some index) defs in
          append_column_def "value" value nullable (Some index) defs
      | Struct _ => Err (UnsupportedType "Arrow maps must have key and value fields")
      | _ => Err (UnsupportedType "Arrow map entries must be a struct")
      end
  | _ => Ok defs
  end.

(** The root takes the column's defaults. *)
Definition with_column_defaults (column : ColumnDef) (def : CatalogColumnDef) : CatalogColumnDef :=
  {| ccd_name := ccd_name def; ccd_ducklake_type := ccd_ducklake_type def;
     ccd_logical_type := ccd_logical_type def; ccd_is_nullable := ccd_is_nullable def;
     ccd_parent_index := ccd_parent_index def; ccd_initial_default := cd_initial_default column;
     ccd_default_value := cd_default_value column;
     ccd_default_value_type := cd_default_value_type column;
     ccd_default_value_dialect := cd_default_value_dialect column |}.

(** A node copied from the catalog row it stands for. *)
Definition with_node (def : CatalogColumnDef) (node : CatalogNode) : CatalogColumnDef :=
  {| ccd_name := ccd_name def; ccd_ducklake_type := cn_ducklake_type node;
     ccd_logical_type := ccd_logical_type def; ccd_is_nullable := cn_is_nullable node;
     ccd_parent_index := ccd_parent_index def; ccd_initial_default := cn_initial_default node;
     ccd_default_value := cn_default_value node;
     ccd_default_value_type := cn_default_value_type node;
     ccd_default_value_dialect := cn_default_value_dialect node |}.

(** One column of [catalog_column_defs]'s loop. *)
Definition append_column (defs : list CatalogColumnDef) (column : ColumnDef)
  : result (list CatalogColumnDef) :=
  let root_index := length defs in
  let? appended := append_column_def (cd_name column) (cd_data_type column)
                     (cd_is_nullable column) None defs in
  let appended := alter (with_column_defaults column) root_index appended in
  match cd_catalog_nodes column with
  | None => Ok appended
  | Some nodes =>
      let block := drop root_index appended in
      if (length block =? length nodes)%nat
      then Ok (take root_index appended ++ zip_with with_node block nodes)
      else Err (Internal ("column '" ++ cd_name column ++ "' copies " ++ show_nat (length nodes)
                          ++ " catalog rows for " ++ show_nat (length block) ++ " nodes"))
  end.

Fixpoint append_columns (defs : list CatalogColumnDef) (columns : list ColumnDef)
  : result (list CatalogColumnDef) :=
  match columns with
  | [] => Ok defs
  | column :: rest => let? defs := append_column defs column in append_columns defs rest
  end.

(** [catalog_column_defs]. *)
Definition catalog_column_defs (columns : list ColumnDef) : result (list CatalogColumnDef) :=
  append_columns [] columns.

(** [dropped_top_level_columns]. *)
Definition dropped_top_level_columns (existing : list ExistingCatalogColumn) (column_ids : list Z)
  : list str :=
  ec_name <$> filter (fun column => ec_parent_column column = None
                                    /\ ec_column_id column ∉ column_ids) existing.

(** [catalog_fields]. *)
Definition catalog_fields (columns : list ColumnDef) (field_ids : list Z) : result (list (Z * str)) :=
  let? defs := catalog_column_defs columns in
  if (length defs =? length field_ids)%nat
  then Ok (zip field_ids (ccd_ducklake_type <$> defs))
  else Err (Internal ("catalog column count " ++ show_nat (length defs)
                      ++ " does not match field id count " ++ show_nat (length field_ids))).

(** [reject_duplicate_column_stats]. *)
Definition reject_duplicate_column_stats (column_stats : list ColumnStat) : result unit :=
  match first_repeat [] (cs_column_id <$> column_stats) with
  | Some column_id =>
      Err (InvalidConfig ("a data file carries statistics for column_id " ++ show_Z column_id
             ++ " more than once; one statistics row per column per file is allowed"))
  | None => Ok tt
  end.

(** [file_column_stats]. *)
Definition file_column_stats (files : list DataFileInfo) : list (list FileColumnStat) :=
  (fun file => (fun stat =>
     {| fc_column_id := cs_column_id stat; fc_min_value := cs_min_value stat;
        fc_max_value := cs_max_value stat; fc_null_count := cs_null_count stat;
        fc_contains_nan := cs_contains_nan stat; fc_value_count := cs_value_count stat |})
     <$> df_column_stats file) <$> files.

(** [encrypted_option]. *)
Definition encrypted_option (values : list str) : result bool :=
  match last values with
  | None => Ok false
  | Some value =>
      if str_eqb value "false" then Ok false
      else if str_eqb value "true" then Ok true
      else Err (Unsupported "Encrypted should be either true or false")
  end.

(** [stat_kind_of]. *)
Definition stat_kind_of (fields : list (Z * str)) (field_id : Z) : StatKind :=
  match find_first (fun field => field.1 =? field_id) fields with
  | Some (_, ducklake_type) => of_ducklake_type ducklake_type
  | None => Text
  end.

(** [top_level_column_ids]. *)
Definition top_level_column_ids (columns : list CatalogColumnDef) (field_ids : list Z)
  : result (list Z) :=
  if (length columns =? length field_ids)%nat
  then Ok (omap (fun '(column, field_id) =>
                   match ccd_parent_index column with None => Some field_id | Some _ => None end)
             (zip columns field_ids))
  else Err (Internal ("catalog column count " ++ show_nat (length columns)
                      ++ " does not match field id count " ++ show_nat (length field_ids))).

(** ** Column ids *)

Abbreviation paths_by_id := (gmap Z (list str)).

(** The closure [retain] is given: [None] keeps the column for a later pass. *)
Definition resolve_column (existing_paths : paths_by_id) (column : ExistingCatalogColumn)
  : option paths_by_id :=
  parent_path ← match ec_parent_column column with
                | Some parent_id => existing_paths !! parent_id
                | None => Some []
                end;
  Some (<[ec_column_id column := parent_path ++ [ec_name column]]> existing_paths).

(** One [retain] over the unresolved columns: those kept, and the paths found. *)
Fixpoint retain_unresolved (existing_paths : paths_by_id) (unresolved : list ExistingCatalogColumn)
  : list ExistingCatalogColumn * paths_by_id :=
  match unresolved with
  | [] => ([], existing_paths)
  | column :: rest =>
      match resolve_column existing_paths column with
      | Some existing_paths => retain_unresolved existing_paths rest
      | None => let '(kept, existing_paths) := retain_unresolved existing_paths rest in
                (column :: kept, existing_paths)
      end
  end.

(** The loop of [assign_column_ids] over the unresolved columns; every pass but the
    last resolves one, so as many passes as columns are enough
    ([resolve_paths_enough]). *)
Fixpoint resolve_paths (passes : nat) (existing_paths : paths_by_id)
    (unresolved : list ExistingCatalogColumn) : result paths_by_id :=
  match unresolved, passes with
  | [], _ => Ok existing_paths
  | _, O => Err (Internal "out of passes")
  | _, S passes =>
      let '(kept, existing_paths) := retain_unresolved existing_paths unresolved in
      if (length kept =? length unresolved)%nat
      then Err (InvalidConfig "Catalog contains an orphaned or cyclic nested column")
      else resolve_paths passes existing_paths kept
  end.

(** The columns by path; a path twice is refused. *)
Fixpoint index_by_path (existing_paths : paths_by_id) (by_path : gmap (list str) Z)
    (existing : list ExistingCatalogColumn) : outcome (gmap (list str) Z) :=
  match existing with
  | [] => Returns (Ok by_path)
  | column :: rest =>
      let! path := or_panic (existing_paths !! ec_column_id column) in
      match by_path !! path with
      | Some _ => Returns (Err (InvalidConfig "Catalog contains duplicate nested column paths"))
      | None => index_by_path existing_paths (<[path := ec_column_id column]> by_path) rest
      end
  end.

(** The paths of the proposed columns, in order; [paths] are those before. *)
Fixpoint proposed_paths (paths : list (list str)) (proposed : list CatalogColumnDef)
  : outcome (list (list str)) :=
  match proposed with
  | [] => Returns (Ok paths)
  | column :: rest =>
      let! parent_path := match ccd_parent_index column with
                          | Some parent_index => or_panic (paths !! parent_index)
                          | None => Returns (Ok [])
                          end in
      let path := parent_path ++ [ccd_name column] in
      if bool_decide (path ∈ paths)
      then Returns (Err (InvalidConfig "Proposed schema contains duplicate nested column paths"))
      else proposed_paths (paths ++ [path]) rest
  end.

(** [assign_column_ids]. *)
Definition assign_column_ids (proposed : list CatalogColumnDef)
    (existing : list ExistingCatalogColumn) (fresh_ids : list Z) : outcome (list Z) :=
  if negb (length proposed =? length fresh_ids)%nat
  then Returns (Err (Internal ("proposed column count " ++ show_nat (length proposed)
         ++ " does not match reserved id count " ++ show_nat (length fresh_ids))))
  else
  let! existing_paths := Returns (resolve_paths (length existing) ∅ existing) in
  if negb (size existing_paths =? length existing)%nat
  then Returns (Err (InvalidConfig "Catalog contains duplicate column ids"))
  else
  let! existing_by_path := index_by_path existing_paths ∅ existing in
  let! paths := proposed_paths [] proposed in
  Returns (Ok (zip_with (fun path fresh_id => default fresh_id (existing_by_path !! path))
                 paths fresh_ids)).

(** ** Comparing schemas *)

(** [catalog_column_type_requires_migration]. *)
Definition catalog_column_type_requires_migration (existing_type : str) (proposed : CatalogColumnDef)
  : bool :=
  str_eqb (ccd_ducklake_type proposed) "list"
  && starts_with "list<" (to_ascii_lowercase (trim existing_type))
  && types_equal_canonical existing_type (ccd_logical_type proposed).

(** [catalog_column_type_equal]. *)
Definition catalog_column_type_equal (existing_type : str) (proposed : CatalogColumnDef) : bool :=
  eq_ignore_ascii_case existing_type (ccd_ducklake_type proposed)
  || types_equal_canonical existing_type (ccd_ducklake_type proposed)
  || catalog_column_type_requires_migration existing_type proposed.

(** [Iterator::any] and [Iterator::all] of a closure that may panic. *)
Fixpoint any_outcome {A} (f : A -> outcome bool) (l : list A) : outcome bool :=
  match l with
  | [] => Returns (Ok false)
  | x :: l' => let! b := f x in if b then Returns (Ok true) else any_outcome f l'
  end.

Definition all_outcome {A} (f : A -> outcome bool) (l : list A) : outcome bool :=
  let! b := any_outcome (fun x => let! b := f x in Returns (Ok (negb b))) l in
  Returns (Ok (negb b)).

(** [column.parent_index.map(|index| field_ids[index])]. *)
Definition parent_id_of (field_ids : list Z) (column : CatalogColumnDef) : outcome (option Z) :=
  match ccd_parent_index column with
  | None => Returns (Ok None)
  | Some index => let! id := or_panic (field_ids !! index) in Returns (Ok (Some id))
  end.

(** The live columns with their nullability, by id; a later column of an id wins, as
    [collect] into a map does. *)
Definition columns_by_id {A} (existing : list ExistingCatalogColumn) (values : list A)
  : gmap Z (ExistingCatalogColumn * A) :=
  foldl (fun by_id entry => <[ec_column_id entry.1 := entry]> by_id) ∅ (zip existing values).

Definition add_sibling (siblings : gmap (option Z) (list Z)) (parent : option Z) (id : Z)
  : gmap (option Z) (list Z) :=
  <[parent := default [] (siblings !! parent) ++ [id]]> siblings.

(** The proposed columns that are live, grouped by parent. *)
Fixpoint proposed_siblings (live : gset Z) (field_ids : list Z)
    (siblings : gmap (option Z) (list Z)) (entries : list (CatalogColumnDef * Z))
  : outcome (gmap (option Z) (list Z)) :=
  match entries with
  | [] => Returns (Ok siblings)
  | (column, field_id) :: rest =>
      if bool_decide (field_id ∈ live)
      then let! parent := parent_id_of field_ids column in
           proposed_siblings live field_ids (add_sibling siblings parent field_id) rest
      else proposed_siblings live field_ids siblings rest
  end.

(** [keeps_sibling_order]. *)
Definition keeps_sibling_order (existing : list ExistingCatalogColumn)
    (proposed : list CatalogColumnDef) (field_ids : list Z) : outcome bool :=
  let live : gset Z := list_to_set (ec_column_id <$> existing) in
  let existing_siblings :=
    foldl (fun siblings column => add_sibling siblings (ec_parent_column column) (ec_column_id column))
      ∅ (filter (fun column => ec_column_id column ∈ field_ids) existing) in
  let! proposed_siblings := proposed_siblings live field_ids ∅ (zip proposed field_ids) in
  Returns (Ok (bool_decide (proposed_siblings = existing_siblings))).

(** Whether one proposed column differs from the live column of its id. *)
Definition column_differs (by_id : gmap Z (ExistingCatalogColumn * bool)) (field_ids : list Z)
    (entry : CatalogColumnDef * Z) : outcome bool :=
  let '(proposed, field_id) := entry in
  match by_id !! field_id with
  | None => Returns (Ok true)
  | Some (existing, existing_nullable) =>
      let! parent_id := parent_id_of field_ids proposed in
      let same_type := catalog_column_type_equal (ec_ducklake_type existing) proposed
                       || is_promotable (ccd_ducklake_type proposed) (ec_ducklake_type existing) in
      Returns (Ok (negb (str_eqb (ec_name existing) (ccd_name proposed))
                   || negb same_type
                   || (bool_decide (ccd_parent_index proposed = None)
                       && negb (Bool.eqb existing_nullable (ccd_is_nullable proposed)))
                   || negb (bool_decide (ec_parent_column existing = parent_id))))
  end.

Definition lengths_differ {A B C D} (existing : list A) (nullability : list B) (proposed : list C)
    (field_ids : list D) : bool :=
  negb (length existing =? length proposed)%nat
  || negb (length existing =? length nullability)%nat
  || negb (length proposed =? length field_ids)%nat.

(** [catalog_columns_differ]. *)
Definition catalog_columns_differ (existing : list ExistingCatalogColumn)
    (existing_nullability : list bool) (proposed : list CatalogColumnDef) (field_ids : list Z)
  : outcome bool :=
  if lengths_differ existing existing_nullability proposed field_ids then Returns (Ok true)
  else
  let by_id := columns_by_id existing existing_nullability in
  let! differs := any_outcome (column_differs by_id field_ids) (zip proposed field_ids) in
  if differs then Returns (Ok true)
  else let! keeps := keeps_sibling_order existing proposed field_ids in Returns (Ok (negb keeps)).

(** Whether one staged column is still the live one of its id. *)
Definition staged_column_matches (by_id : gmap Z (ExistingCatalogColumn * bool)) (field_ids : list Z)
    (entry : CatalogColumnDef * Z) : outcome bool :=
  let '(proposed, field_id) := entry in
  match by_id !! field_id with
  | None => Returns (Ok false)
  | Some (existing, existing_nullable) =>
      if catalog_column_type_equal (ec_ducklake_type existing) proposed
         && (bool_decide (is_Some (ccd_parent_index proposed))
             || Bool.eqb existing_nullable (ccd_is_nullable proposed))
      then let! parent_id := parent_id_of field_ids proposed in
           Returns (Ok (bool_decide (ec_parent_column existing = parent_id)))
      else Returns (Ok false)
  end.

(** [staged_columns_match]. *)
Definition staged_columns_match (existing : list ExistingCatalogColumn)
    (existing_nullability : list bool) (proposed : list CatalogColumnDef) (field_ids : list Z)
  : outcome bool :=
  if lengths_differ existing existing_nullability proposed field_ids then Returns (Ok false)
  else all_outcome (staged_column_matches (columns_by_id existing existing_nullability) field_ids)
         (zip proposed field_ids).

(** ** Column orders *)

(** Whether the orders increase among each parent's children; [last] holds the last
    order of each parent's children so far. *)
Fixpoint orders_increase (last : gmap (option nat) Z) (entries : list (CatalogColumnDef * Z)) : bool :=
  match entries with
  | [] => true
  | (column, order) :: rest =>
      match last !! ccd_parent_index column with
      | Some previous => previous <? order
      | None => true
      end && orders_increase (<[ccd_parent_index column := order]> last) rest
  end.

(** [proposed_column_orders]. *)
Definition proposed_column_orders (existing : list ExistingCatalogColumn) (existing_orders : list Z)
    (proposed : list CatalogColumnDef) (field_ids : list Z) : list Z :=
  let current := columns_by_id existing existing_orders in
  let orders := (fun field_id => default field_id (snd <$> current !! field_id)) <$> field_ids in
  if orders_increase ∅ (zip proposed orders) then orders
  else Z.of_nat <$> seq 0 (length proposed).

(** ** Rebuilding columns from their rows *)

Record DuckLakeTableColumn := {
  tc_column_id : Z;
  tc_column_name : str;
  tc_column_type : str;
  tc_is_nullable : bool;
  tc_data_type : option DataType;
  tc_nested_column_ids : list Z;
  tc_nested_initial_defaults : gmap Z str;
  tc_initial_default : option str;
  tc_default_value : option str;
  tc_default_value_type : option str;
  tc_default_value_dialect : option str;
}.

(** [DuckLakeTableColumn::new]. *)
Definition DuckLakeTableColumn_new (column_id : Z) (column_name column_type : str)
    (is_nullable : bool) : DuckLakeTableColumn :=
  {| tc_column_id := column_id; tc_column_name := column_name; tc_column_type := column_type;
     tc_is_nullable := is_nullable; tc_data_type := None; tc_nested_column_ids := [];
     tc_nested_initial_defaults := ∅; tc_initial_default := None; tc_default_value := None;
     tc_default_value_type := None; tc_default_value_dialect := None |}.

(** [DuckLakeTableColumn::with_defaults]. *)
Definition with_defaults (column : DuckLakeTableColumn)
    (initial_default default_value default_value_type default_value_dialect : option str)
  : DuckLakeTableColumn :=
  {| tc_column_id := tc_column_id column; tc_column_name := tc_column_name column;
     tc_column_type := tc_column_type column; tc_is_nullable := tc_is_nullable column;
     tc_data_type := tc_data_type column; tc_nested_column_ids := tc_nested_column_ids column;
     tc_nested_initial_defaults := tc_nested_initial_defaults column;
     tc_initial_default := initial_default;
     tc_default_value := default_value ≫= (fun value => if str_eqb value "NULL" then None else Some value);
     tc_default_value_type := default_value_type;
     tc_default_value_dialect := default_value_dialect |}.

(** [DuckLakeTableColumn::data_type]. *)
Definition column_data_type (column : DuckLakeTableColumn) : result DataType :=
  match tc_data_type column with
  | Some data_type => Ok data_type
  | None => ducklake_to_arrow_type (tc_column_type column)
  end.

Abbreviation ColumnRow := (DuckLakeTableColumn * option Z)%type.

(** The rows' children by parent id, as indices in order. *)
Fixpoint index_children (ids : gset Z) (index : nat) (children : gmap Z (list nat))
    (rows : list ColumnRow) : result (gmap Z (list nat)) :=
  match rows with
  | [] => Ok children
  | (column, parent) :: rest =>
      match parent with
      | None => index_children ids (S index) children rest
      | Some parent_id =>
          if bool_decide (parent_id ∈ ids)
          then index_children ids (S index)
                 (<[parent_id := default [] (children !! parent_id) ++ [index]]> children) rest
          else Err (InvalidConfig ("Nested column " ++ show_Z (tc_column_id column)
                      ++ " references missing parent column " ++ show_Z parent_id))
      end
  end.

Section rebuild.
Context (rows : list ColumnRow) (children : gmap Z (list nat)).

(** [build_type]. [levels] is the depth left: [visiting] holds the columns above, and
    its size and [levels] add up to the limit. *)
Fixpoint build_type (levels : nat) (visiting : list Z) (index : nat) : outcome DataType :=
  let! row := or_panic (rows !! index) in
  let column := row.1 in
  match levels with
  | O => Returns (Err (InvalidConfig ("Nested column metadata exceeds maximum depth "
                                      ++ show_nat MAX_NESTED_TYPE_DEPTH)))
  | S levels =>
      if bool_decide (tc_column_id column ∈ visiting)
      then Returns (Err (InvalidConfig ("Nested column cycle includes column "
                                        ++ show_Z (tc_column_id column))))
      else
      let visiting := tc_column_id column :: visiting in
      let child_indices := default [] (children !! tc_column_id column) in
      let name := to_ascii_lowercase (tc_column_type column) in
      if str_eqb name "list" then
        match child_indices with
        | [child_index] =>
            let! child := or_panic (rows !! child_index) in
            let! element := build_type levels visiting child_index in
            Returns (Ok (List (lit "item", element, tc_is_nullable child.1)))
        | _ => Returns (Err (InvalidConfig ("List column '" ++ tc_column_name column
                                            ++ "' must have exactly one child")))
        end
      else if str_eqb name "struct" then
        let! fields :=
          (fix build_fields (child_indices : list nat) : outcome (list Field) :=
             match child_indices with
             | [] => Returns (Ok [])
             | child_index :: rest =>
                 let! child := or_panic (rows !! child_index) in
                 let! field_type := build_type levels visiting child_index in
                 let! fields := build_fields rest in
                 Returns (Ok ((tc_column_name child.1, field_type, tc_is_nullable child.1) :: fields))
             end) child_indices in
        Returns (Ok (Struct fields))
      else if str_eqb name "map" then
        match child_indices with
        | [key_index; value_index] =>
            let! key := or_panic (rows !! key_index) in
            let! value := or_panic (rows !! value_index) in
            if negb (str_eqb (tc_column_name key.1) "key") || negb (str_eqb (tc_column_name value.1) "value")
            then Returns (Err (InvalidConfig ("Map column '" ++ tc_column_name column
                                              ++ "' children must be named key then value")))
            else
            let! key_type := build_type levels visiting key_index in
            let! value_type := build_type levels visiting value_index in
            Returns (Ok (Map (lit "entries",
                              Struct [(lit "key", key_type, false);
                                      (lit "value", value_type, tc_is_nullable value.1)],
                              false) false))
        | _ => Returns (Err (InvalidConfig ("Map column '" ++ tc_column_name column
                                            ++ "' must have key and value children")))
        end
      else match child_indices with
      | [] => Returns (ducklake_to_arrow_type (tc_column_type column))
      | _ => Returns (Err (InvalidConfig ("Non-nested column '" ++ tc_column_name column
                                          ++ "' has child columns")))
      end
  end.

(** [collect_ids]: the ids below a column, depth first, and their defaults. It is
    called where [build_type] has succeeded, so [levels] deep is deep enough
    ([collect_ids_enough]). *)
Fixpoint collect_ids (levels : nat) (column_id : Z) (collected : list Z * gmap Z str)
  : outcome (list Z * gmap Z str) :=
  match levels with
  | O => Returns (Ok collected)
  | S levels =>
      (fix collect_children (child_indices : list nat) (collected : list Z * gmap Z str)
         : outcome (list Z * gmap Z str) :=
         match child_indices with
         | [] => Returns (Ok collected)
         | child_index :: rest =>
             let! child := or_panic (rows !! child_index) in
             let defaults := match tc_initial_default child.1 with
                             | Some initial_default => <[tc_column_id child.1 := initial_default]> collected.2
                             | None => collected.2
                             end in
             let! collected := collect_ids levels (tc_column_id child.1)
                                 (collected.1 ++ [tc_column_id child.1], defaults) in
             collect_children rest collected
         end) (default [] (children !! column_id)) collected
  end.
End rebuild.

(** [reconstructed_column_type]. *)
Definition reconstructed_column_type (catalog_type : str) (data_type : DataType) : result str :=
  let normalized := to_ascii_lowercase (trim catalog_type) in
  let preserves_logical_name :=
    match data_type with
    | Binary => true
    | Utf8View => negb (existsb (str_eqb normalized) [lit "varchar"; lit "text"; lit "string"])
    | _ => false
    end in
  if preserves_logical_name then Ok catalog_type else arrow_to_ducklake_type data_type.

(** One root of [reconstruct_columns]'s loop. *)
Definition rebuild_root (rows : list ColumnRow) (children : gmap Z (list nat)) (index : nat)
    (column : DuckLakeTableColumn) : outcome DuckLakeTableColumn :=
  let! data_type := build_type rows children MAX_NESTED_TYPE_DEPTH [] index in
  let! column_type := Returns (reconstructed_column_type (tc_column_type column) data_type) in
  let! collected := collect_ids rows children MAX_NESTED_TYPE_DEPTH (tc_column_id column)
                      (tc_nested_column_ids column, tc_nested_initial_defaults column) in
  Returns (Ok {| tc_column_id := tc_column_id column; tc_column_name := tc_column_name column;
                 tc_column_type := column_type; tc_is_nullable := tc_is_nullable column;
                 tc_data_type := Some data_type; tc_nested_column_ids := collected.1;
                 tc_nested_initial_defaults := collected.2;
                 tc_initial_default := tc_initial_default column;
                 tc_default_value := tc_default_value column;
                 tc_default_value_type := tc_default_value_type column;
                 tc_default_value_dialect := tc_default_value_dialect column |}).

Fixpoint rebuild_roots (all : list ColumnRow) (children : gmap Z (list nat)) (index : nat)
    (rows : list ColumnRow) : outcome (list DuckLakeTableColumn) :=
  match rows with
  | [] => Returns (Ok [])
  | (column, Some _) :: rest => rebuild_roots all children (S index) rest
  | (column, None) :: rest =>
      let! root := rebuild_root all children index column in
      let! roots := rebuild_roots all children (S index) rest in
      Returns (Ok (root :: roots))
  end.

(** [reconstruct_columns]. *)
Definition reconstruct_columns (rows : list ColumnRow) : outcome (list DuckLakeTableColumn) :=
  let ids : gset Z := list_to_set ((fun row => tc_column_id row.1) <$> rows) in
  if negb (size ids =? length rows)%nat
  then Returns (Err (InvalidConfig "DuckLake column metadata contains duplicate column ids"))
  else
  let! children := Returns (index_children ids 0 ∅ rows) in
  let! result := rebuild_roots rows children 0 rows in
  let reconstructed_count :=
    sum_list ((fun column => S (length (tc_nested_column_ids column))) <$> result) in
  if (reconstructed_count =? length rows)%nat then Returns (Ok result)
  else Returns (Err (InvalidConfig
         "DuckLake column metadata contains a parent cycle or unreachable nested column")).

(** ** Which columns can be inlined *)

Record InlinedSystemColumns := {
  sys_row_id : str;
  sys_begin_snapshot : str;
  sys_end_snapshot : str;
}.

Definition UNPREFIXED : InlinedSystemColumns :=
  {| sys_row_id := "row_id"; sys_begin_snapshot := "begin_snapshot"; sys_end_snapshot := "end_snapshot" |}.

Definition PREFIXED : InlinedSystemColumns :=
  {| sys_row_id := "_ducklake_row_id"; sys_begin_snapshot := "_ducklake_begin_snapshot";
     sys_end_snapshot := "_ducklake_end_snapshot" |}.

(** [InlinedSystemColumns::for_catalog_version]. *)
Definition for_catalog_version (version : option str) : InlinedSystemColumns :=
  let release :=
    version ← version;
    match split_on (char_eqb ".") (default version (head (split_on (char_eqb "-") version))) with
    | major :: minor :: _ =>
        major ← parse_u32 major;
        minor ← parse_u32 minor;
        Some (major, minor)
    | _ => None
    end in
  match release with
  | Some (major, minor) =>
      if (1 <? major) || ((major =? 1) && (1 <=? minor)) then PREFIXED else UNPREFIXED
  | None => UNPREFIXED
  end.

(** [InlinedSystemColumns::conflicts_with]. *)
Definition conflicts_with (system : InlinedSystemColumns) (name : str) : bool :=
  existsb (eq_ignore_ascii_case name)
    [sys_row_id system; sys_begin_snapshot system; sys_end_snapshot system;
     lit "_ducklake_internal_row_id"; lit "_ducklake_internal_snapshot_id"].

(** [InlinedSystemColumns::from_columns]. *)
Definition system_from_columns (table_name : str) (columns : list str) : result InlinedSystemColumns :=
  ok_or (find_first (fun layout =>
           match columns with
           | a :: b :: c :: _ => eq_ignore_ascii_case a (sys_row_id layout)
                                 && eq_ignore_ascii_case b (sys_begin_snapshot layout)
                                 && eq_ignore_ascii_case c (sys_end_snapshot layout)
           | _ => false
           end) [PREFIXED; UNPREFIXED])
    (Unsupported ("inlined data table '" ++ table_name
                  ++ "' does not start with the DuckLake system columns")).

(** [new_reserved_column]. *)
Definition new_reserved_column (existing : list ExistingCatalogColumn)
    (proposed : list CatalogColumnDef) (system : InlinedSystemColumns) : option str :=
  ccd_name <$> find_first (fun column =>
    bool_decide (ccd_parent_index column = None)
    && negb (existsb (fun old => bool_decide (ec_parent_column old = None)
                                 && eq_ignore_ascii_case (ec_name old) (ccd_name column)) existing)
    && conflicts_with system (ccd_name column)) proposed.

(** [inlined_table_shape_error]. *)
Definition inlined_table_shape_error (physical : str) (stored supplied : nat) : DuckLakeError :=
  InvalidConfig ("table " ++ physical ++ " has " ++ show_nat stored ++ " columns but "
                 ++ show_nat supplied ++ " values were supplied").

(** [reserved_inlining_column_error]; [dq] is the double quote. *)
Definition dq : str := ["034"%char].
Definition reserved_inlining_column_error (column : str) : DuckLakeError :=
  InvalidConfig ("Column name " ++ dq ++ column ++ dq ++ " is reserved by DuckLake for internal use when "
    ++ "data inlining is enabled. If you must use this column name, disable inlining by calling "
    ++ "ducklake_set_option('data_inlining_row_limit', 0).").

(** [reject_reserved_inlining_columns]; [columns] are table and column names. *)
Definition reject_reserved_inlining_columns (columns : list (str * str)) (system : InlinedSystemColumns)
  : result unit :=
  match find_first (fun column => conflicts_with system column.2) columns with
  | Some (table, column) =>
      Err (InvalidConfig ("Cannot enable data inlining for table " ++ dq ++ table ++ dq ++ ". Column " ++ dq
        ++ column ++ dq ++ " conflicts with a reserved DuckLake internal column name used for inlining. "
        ++ "To enable inlining for this table, rename or drop column " ++ dq ++ column ++ dq ++ "."))
  | None => Ok tt
  end.

(** The columns of [inlinable_columns], one by one; [None] refuses the table. *)
Fixpoint inlinable_each (system : InlinedSystemColumns) (max_identifier_length : option nat)
    (supported : DataType -> bool) (columns : list DuckLakeTableColumn)
  : option (list (str * DataType * str)) :=
  match columns with
  | [] => Some []
  | column :: rest =>
      match column_data_type column with
      | Err _ => None
      | Ok data_type =>
          if conflicts_with system (tc_column_name column)
             || match max_identifier_length with
                | Some max => (max <? length (tc_column_name column))%nat
                | None => false
                end
             || negb (supported data_type)
          then None
          else cons (tc_column_name column, data_type, tc_column_type column)
                 <$> inlinable_each system max_identifier_length supported rest
      end
  end.

(** [inlinable_columns]. *)
Definition inlinable_columns (rows : list ColumnRow) (system : InlinedSystemColumns)
    (max_identifier_length : option nat) (supported : DataType -> bool)
  : outcome (option (list (str * DataType * str))) :=
  if existsb (fun row => refuses_inlining (tc_column_type row.1)) rows then Returns (Ok None)
  else match reconstruct_columns rows with
       | Panics => Panics
       | Returns (Err _) => Returns (Ok None)
       | Returns (Ok columns) =>
           Returns (Ok (inlinable_each system max_identifier_length supported columns))
       end.

(** ** Flattened columns form trees *)

(** Every nested row names an earlier row as its parent. *)
Definition parents_precede (defs : list CatalogColumnDef) : Prop :=
  forall i d p, defs !! i = Some d -> ccd_parent_index d = Some p -> (p < i)%nat.

(** The rows of one column appended after [base] others: the root has the given
    parent, every other row a parent among them. *)
Definition block_at (base : nat) (parent : option nat) (block : list CatalogColumnDef) : Prop :=
  exists root rest, block = root :: rest /\ ccd_parent_index root = parent
  /\ forall i d, rest !! i = Some d ->
     exists p, ccd_parent_index d = Some p /\ (base <= p <= base + i)%nat.

(** Blocks of children one after another, all of one parent. *)
Definition forest_at (base index : nat) (forest : list CatalogColumnDef) : Prop :=
  forall i d, forest !! i = Some d ->
  exists p, ccd_parent_index d = Some p /\ (p = index \/ (base <= p < base + i)%nat).

Lemma block_forest base index block : block_at base (Some index) block -> forest_at base index block.
Proof.
  intros (root & rest & -> & Hroot & Hrest) [|i] d Hd; [simplify_eq/=; eauto|].
  destruct (Hrest i d Hd) as (p & ? & ?). exists p. split; [done|]. right. lia.
Qed.

Lemma forest_app base index a b :
  forest_at base index a -> forest_at (base + length a) index b -> forest_at base index (a ++ b).
Proof.
  intros Ha Hb i d Hd. apply lookup_app_Some in Hd as [Hd|[Hi Hd]]; [by apply Ha|].
  destruct (Hb _ _ Hd) as (p & Hp & [->|?]); [eauto|]. exists p. split; [done|]. right. lia.
Qed.

Lemma block_of_forest base parent root forest :
  ccd_parent_index root = parent -> forest_at (S base) base forest -> block_at base parent (root :: forest).
Proof.
  intros Hroot Hf. exists root, forest. split_and!; [done..|].
  intros i d Hd. destruct (Hf i d Hd) as (p & Hp & Hor). exists p. split; [done|lia].
Qed.

(** How many rows deep a column's type is. *)
Fixpoint catalog_depth (t : DataType) : nat :=
  match t with
  | List (_, e, _) | LargeList (_, e, _) | FixedSizeList (_, e, _) _ => S (catalog_depth e)
  | Struct fields => S (list_max ((fun '(_, t, _) => catalog_depth t) <$> fields))
  | Map (_, Struct [(_, k, _); (_, v, _)], _) _ => S (catalog_depth k `max` catalog_depth v)
  | _ => 1
  end.

Definition append_fields (index : nat) :=
  fix append_fields (fields : list Field) (defs : list CatalogColumnDef)
    : result (list CatalogColumnDef) :=
    match fields with
    | [] => Ok defs
    | (field_name, field_type, nullable) :: rest =>
        let? defs := append_column_def field_name field_type nullable (Some index) defs in
        append_fields rest defs
    end.

Lemma depth_pos t : (1 <= catalog_depth t)%nat.
Proof. destruct t as [| | | | | | | | | | | | | | | | | | | | | | | | | | | | |[[? ?] ?]|[[? ?] ?]|[[? ?] ?] ?| |[[? []] ?] ?|];
  cbn [catalog_depth]; repeat case_match; lia. Qed.

(** The types below a type in the catalog, with their names and nullability. *)
Definition subfields (t : DataType) : list Field :=
  match t with
  | List (_, e, nullable) | LargeList (_, e, nullable) | FixedSizeList (_, e, nullable) _ =>
      [(lit "element", e, nullable)]
  | Struct fields => fields
  | Map (_, Struct [(_, k, _); (_, v, nullable)], _) _ => [(lit "key", k, false); (lit "value", v, nullable)]
  | _ => []
  end.

Lemma subfields_depth t n : (catalog_depth t <= S n)%nat ->
  Forall (fun f : Field => catalog_depth f.1.2 <= n)%nat (subfields t).
Proof.
  destruct t as [| | | | | | | | | | | | | | | | | | | | | | | | | | | | |[[? ?] ?]|[[? ?] ?]|[[? ?] ?] ?|fields|[[? e] ?] ?|];
    cbn [catalog_depth subfields]; intros Hn; try (by constructor); try (constructor; [cbn; lia|constructor]).
  - assert (list_max ((fun '(_, t, _) => catalog_depth t) <$> fields) <= n)%nat as H by lia.
    apply list_max_le, Forall_fmap in H. eapply Forall_impl; [exact H|]. by intros [[? ?] ?].
  - destruct e as [| | | | | | | | | | | | | | | | | | | | | | | | | | | | | | | |[|[[? ?] ?] [|[[? ?] ?] [|]]]| |];
      cbn in *; repeat constructor; cbn; lia.
Qed.

Lemma append_column_def_eq name t nullable parent defs :
  append_column_def name t nullable parent defs =
  (let? ducklake_type := catalog_type_name t in
   let? logical_type := arrow_to_ducklake_type t in
   append_fields (length defs) (subfields t)
     (defs ++ [{| ccd_name := name; ccd_ducklake_type := ducklake_type;
                  ccd_logical_type := logical_type; ccd_is_nullable := nullable;
                  ccd_parent_index := parent; ccd_initial_default := None;
                  ccd_default_value := None; ccd_default_value_type := None;
                  ccd_default_value_dialect := None |}])).
Proof.
  destruct t as [| | | | | | | | | | | | | | | | | | | | | | | | | | | | |[[? ?] ?]|[[? ?] ?]|[[? ?] ?] ?|fields|[[? e] ?] ?|];
    try done; cbn [append_column_def catalog_type_name result_bind subfields].
  1-3: destruct (arrow_to_ducklake_type _); cbn [result_bind append_fields]; [|done];
    by destruct (append_column_def _ _ _ _ _).
  destruct e as [| | | | | | | | | | | | | | | | | | | | | | | | | | | | | | | |[|[[? ?] ?] [|[[? ?] ?] [|]]]| |]; try done.
  destruct (arrow_to_ducklake_type _); cbn [result_bind append_fields]; [|done].
  destruct (append_column_def _ _ _ _ _); cbn [result_bind]; [|done]. by destruct (append_column_def _ _ _ _ _).
Qed.

Lemma append_fields_forest index fields :
  (forall f, f ∈ fields -> forall name nullable parent defs defs',
     append_column_def name f.1.2 nullable parent defs = Ok defs' ->
     exists block, defs' = defs ++ block /\ block_at (length defs) parent block) ->
  forall defs defs', append_fields index fields defs = Ok defs' ->
  exists forest, defs' = defs ++ forest /\ forest_at (length defs) index forest.
Proof.
  induction fields as [|[[name t] nullable] fields IH]; intros Hf defs defs' H; cbn [append_fields] in H.
  - simplify_eq. exists []. by rewrite app_nil_r.
  - result_inv. apply (Hf (name, t, nullable)) in E as (block & -> & Hb); [|by left].
    apply IH in H as (forest & -> & Hr); [|intros f ?; apply Hf; by right].
    exists (block ++ forest). rewrite app_assoc. split; [done|]. apply forest_app; [by apply block_forest|].
    by rewrite length_app in Hr.
Qed.

Lemma append_column_def_block n : forall t, (catalog_depth t <= n)%nat -> forall name nullable parent defs defs',
  append_column_def name t nullable parent defs = Ok defs' ->
  exists block, defs' = defs ++ block /\ block_at (length defs) parent block.
Proof.
  induction n as [|n IH]; intros t Hn name nullable parent defs defs' H; [pose proof (depth_pos t); lia|].
  rewrite append_column_def_eq in H. apply subfields_depth in Hn. rewrite Forall_forall in Hn. result_inv.
  apply append_fields_forest in H as (forest & -> & Hf); [|naive_solver].
  rewrite <- app_assoc. eexists. split; [done|]. apply block_of_forest; [done|].
  by rewrite length_app, Nat.add_1_r in Hf.
Qed.

Definition same_shape (d d' : CatalogColumnDef) : Prop :=
  ccd_name d' = ccd_name d /\ ccd_parent_index d' = ccd_parent_index d.

Lemma with_nodes_same_shape plain mid nodes :
  Forall2 same_shape plain mid -> length mid = length nodes ->
  Forall2 same_shape plain (zip_with with_node mid nodes).
Proof.
  intros Hg. revert nodes. induction Hg as [|d d' plain mid [? ?] _ IH]; intros [|node nodes] Hlen; try done.
  cbn. apply Forall2_cons. split; [done|]. apply IH. cbn in Hlen. lia.
Qed.

(** The defaults and copied nodes of a column change neither names nor parents. *)
Lemma append_column_block defs column defs' :
  append_column defs column = Ok defs' ->
  exists block plain,
    append_column_def (cd_name column) (cd_data_type column) (cd_is_nullable column) None defs
      = Ok (defs ++ plain)
    /\ defs' = defs ++ block
    /\ Forall2 same_shape plain block
    /\ block_at (length defs) None block.
Proof.
  unfold append_column. intros H. result_inv. rename a into appended.
  destruct (append_column_def_block _ _ (le_n _) _ _ _ _ _ E) as (plain & -> & Hb).
  set (g := with_column_defaults column) in *.
  assert (alter g (length defs) (defs ++ plain) = defs ++ alter g 0%nat plain) as Ha.
  { rewrite alter_app_r_alt by done; by rewrite Nat.sub_diag. }
  assert (exists block, defs' = defs ++ block
    /\ Forall2 same_shape plain block)
    as (block & -> & Hbl).
  { assert (Forall2 same_shape
              plain (alter g 0%nat plain)) as Hg.
    { destruct plain as [|r plain]; [constructor|]. cbn. constructor; [done|].
      apply Forall_Forall2_diag, Forall_forall. by intros d _. }
    rewrite Ha in H. destruct (cd_catalog_nodes column) as [nodes|]; [|simplify_eq; eauto].
    rewrite drop_app_length, take_app_length in H. case_if; [|done]. apply Nat.eqb_eq in E0.
    simplify_eq. eexists. split; [done|]. by apply with_nodes_same_shape. }
  exists block, plain. split_and!; [done..|].
  destruct Hb as (root & rest & -> & Hroot & Hrest). apply Forall2_cons_inv_l in Hbl as (root' & rest' & [Hn Hp] & Hrr & ->).
  exists root', rest'. split_and!; [done|congruence|]. intros i d' Hd'.
  destruct (Forall2_lookup_r _ _ _ _ _ Hrr Hd') as (d & Hd & _ & ->). by apply Hrest in Hd.
Qed.

Lemma block_parents defs block :
  parents_precede defs -> block_at (length defs) None block -> parents_precede (defs ++ block).
Proof.
  intros Hd (root & rest & -> & Hroot & Hrest) i d p Hi Hp.
  apply lookup_app_Some in Hi as [Hi|[Hle Hi]]; [by apply (Hd i d p)|].
  destruct (i - length defs)%nat as [|j] eqn:Ej; [simplify_eq/=; congruence|].
  destruct (Hrest j d Hi) as (q & Hq & Hb). simplify_eq. lia.
Qed.

Lemma append_columns_parents columns : forall defs defs',
  parents_precede defs -> append_columns defs columns = Ok defs' -> parents_precede defs'.
Proof.
  induction columns as [|column columns IH]; intros defs defs' Hd H; cbn in H; [by simplify_eq|].
  result_inv. apply append_column_block in E as (block & plain & _ & -> & _ & Hb).
  eapply IH; [|done]. by apply block_parents.
Qed.

Lemma flattened_parents columns defs : catalog_column_defs columns = Ok defs -> parents_precede defs.
Proof. apply append_columns_parents. intros i d p H. by rewrite lookup_nil in H. Qed.

(** ** Paths *)

Definition path_of (paths : list (list str)) (d : CatalogColumnDef) : list str :=
  default [] (ccd_parent_index d ≫= (paths !!.)) ++ [ccd_name d].

Definition column_paths (defs : list CatalogColumnDef) : list (list str) :=
  foldl (fun paths d => paths ++ [path_of paths d]) [] defs.

Lemma column_paths_snoc defs d : column_paths (defs ++ [d]) = column_paths defs ++ [path_of (column_paths defs) d].
Proof. unfold column_paths. by rewrite foldl_app. Qed.

Lemma column_paths_length defs : length (column_paths defs) = length defs.
Proof.
  induction defs as [|d defs IH] using rev_ind; [done|]. rewrite column_paths_snoc, !length_app, IH. done.
Qed.

Lemma column_paths_lookup defs i d : parents_precede defs -> defs !! i = Some d ->
  column_paths defs !! i = Some (path_of (column_paths defs) d).
Proof.
  revert i d. induction defs as [|x defs IH] using rev_ind; intros i d Hp Hi; [by rewrite lookup_nil in Hi|].
  rewrite column_paths_snoc.
  assert (parents_precede defs) as Hp'.
  { intros j e q Hj. apply (Hp j e q). by apply lookup_app_l_Some. }
  assert (forall e j, (j <= length defs)%nat -> (defs ++ [x]) !! j = Some e ->
          path_of (column_paths defs ++ [path_of (column_paths defs) x]) e = path_of (column_paths defs) e) as Hext.
  { intros e j Hj He. unfold path_of. f_equal. f_equal. destruct (ccd_parent_index e) as [q|] eqn:Eq; [|done]. cbn.
    apply lookup_app_l. rewrite column_paths_length. pose proof (Hp j e q He Eq). lia. }
  pose proof (lookup_lt_Some _ _ _ Hi) as Hlt. rewrite length_app in Hlt. cbn in Hlt.
  rewrite (Hext d i) by (done || lia).
  destruct (decide (i < length defs)%nat) as [Hl|Hl].
  - rewrite lookup_app_l by (by rewrite column_paths_length). apply IH; [done|]. by rewrite lookup_app_l in Hi.
  - assert (i = length defs) as -> by lia. rewrite lookup_app_r in Hi by done. rewrite Nat.sub_diag in Hi. simplify_eq/=.
    rewrite lookup_app_r by (by rewrite column_paths_length). by rewrite column_paths_length, Nat.sub_diag.
Qed.

Lemma proposed_paths_from defs rest :
  parents_precede (defs ++ rest) -> NoDup (column_paths (defs ++ rest)) ->
  proposed_paths (column_paths defs) rest = Returns (Ok (column_paths (defs ++ rest))).
Proof.
  revert defs. induction rest as [|d rest IH]; intros defs Hp Hnd; [by rewrite app_nil_r|]. cbn [proposed_paths].
  assert ((defs ++ d :: rest) !! length defs = Some d) as Hd by (rewrite lookup_app_r, Nat.sub_diag; done).
  assert (match ccd_parent_index d with
          | Some parent_index => or_panic (column_paths defs !! parent_index)
          | None => Returns (Ok [])
          end = Returns (Ok (default [] (ccd_parent_index d ≫= (column_paths defs !!.))))) as ->.
  { destruct (ccd_parent_index d) as [q|] eqn:Eq; [|done]. cbn.
    pose proof (Hp _ _ _ Hd Eq) as Hlt. rewrite <- column_paths_length in Hlt.
    apply lookup_lt_is_Some in Hlt as [path ->]. done. }
  cbn [outcome_bind]. fold (path_of (column_paths defs) d). replace (defs ++ d :: rest) with ((defs ++ [d]) ++ rest) in * by (by rewrite <- app_assoc).
  rewrite bool_decide_eq_false_2.
  - rewrite <- column_paths_snoc. by apply IH.
  - intros Hin. unfold column_paths in Hnd. rewrite foldl_app in Hnd. fold (column_paths (defs ++ [d])) in Hnd.
    rewrite column_paths_snoc in Hnd.
    assert (forall l acc, NoDup (foldl (fun paths d => paths ++ [path_of paths d]) acc l) -> NoDup acc) as Hmono.
    { clear. induction l as [|x l IH]; intros acc H; [done|]. cbn in H. apply IH, NoDup_app in H. naive_solver. }
    apply Hmono, NoDup_app in Hnd as (_ & Hn & _). apply (Hn _ Hin). by left.
Qed.

Lemma proposed_paths_ok defs : parents_precede defs -> NoDup (column_paths defs) ->
  proposed_paths [] defs = Returns (Ok (column_paths defs)).
Proof. apply (proposed_paths_from []). Qed.

(** ** The ids of a committed schema *)

(** The live rows a commit of [defs] under [ids] leaves. *)
Definition committed_row (ids : list Z) (d : CatalogColumnDef) (id : Z) : ExistingCatalogColumn :=
  {| ec_column_id := id; ec_name := ccd_name d; ec_ducklake_type := ccd_ducklake_type d;
     ec_parent_column := ccd_parent_index d ≫= (ids !!.) |}.

Definition committed (defs : list CatalogColumnDef) (ids : list Z) : list ExistingCatalogColumn :=
  zip_with (committed_row ids) defs ids.

(** A schema a commit can leave: a forest with distinct paths and distinct ids. *)
Record well_formed_columns (defs : list CatalogColumnDef) (ids : list Z) : Prop := {
  wf_parents : parents_precede defs;
  wf_paths : NoDup (column_paths defs);
  wf_ids : NoDup ids;
  wf_length : length defs = length ids;
}.

Section committed.
Context (defs : list CatalogColumnDef) (ids : list Z) (Hwf : well_formed_columns defs ids).

Definition path_map : paths_by_id := list_to_map (zip ids (column_paths defs)).

Lemma path_map_lookup i id path :
  ids !! i = Some id -> column_paths defs !! i = Some path -> path_map !! id = Some path.
Proof.
  intros Hi Hp. apply elem_of_list_to_map.
  - rewrite fst_zip by (rewrite column_paths_length, (wf_length _ _ Hwf); done). apply (wf_ids _ _ Hwf).
  - apply list_elem_of_lookup. exists i. apply lookup_zip_with_Some. eauto.
Qed.

Lemma path_map_inv id path : path_map !! id = Some path ->
  exists i, ids !! i = Some id /\ column_paths defs !! i = Some path.
Proof.
  intros H. apply elem_of_list_to_map_2, list_elem_of_lookup in H as [i H].
  apply lookup_zip_with_Some in H as (? & ? & ? & ? & ?). simplify_eq. eauto.
Qed.

Lemma path_map_dom id : is_Some (path_map !! id) <-> id ∈ ids.
Proof.
  split.
  - intros [path H]. apply path_map_inv in H as (i & Hi & _). by apply list_elem_of_lookup_2 in Hi.
  - intros [i Hi]%list_elem_of_lookup. pose proof (lookup_lt_Some _ _ _ Hi) as Hl.
    rewrite <- (wf_length _ _ Hwf), <- column_paths_length in Hl. apply lookup_lt_is_Some in Hl as [path Hp].
    exists path. by apply (path_map_lookup i).
Qed.

Lemma committed_lookup i c : committed defs ids !! i = Some c ->
  exists d id, defs !! i = Some d /\ ids !! i = Some id /\ c = committed_row ids d id.
Proof. intros H. apply lookup_zip_with_Some in H as (d & id & -> & ? & ?). eauto. Qed.

(** The parent of a committed row is an earlier one. *)
Lemma committed_parent i d id : defs !! i = Some d -> ids !! i = Some id ->
  match ccd_parent_index d with
  | None => ec_parent_column (committed_row ids d id) = None
            /\ column_paths defs !! i = Some [ccd_name d]
  | Some p => (p < i)%nat /\ exists pid path, ids !! p = Some pid /\ column_paths defs !! p = Some path
              /\ ec_parent_column (committed_row ids d id) = Some pid
              /\ column_paths defs !! i = Some (path ++ [ccd_name d])
  end.
Proof.
  intros Hd Hi. pose proof (column_paths_lookup _ _ _ (wf_parents _ _ Hwf) Hd) as Hp. unfold path_of in Hp.
  cbn. destruct (ccd_parent_index d) as [p|] eqn:Ep; [|done].
  pose proof (wf_parents _ _ Hwf _ _ _ Hd Ep) as Hlt. split; [done|]. cbn in *.
  assert (p < length ids)%nat as [pid Hpid]%lookup_lt_is_Some by (apply lookup_lt_Some in Hi; lia).
  assert (p < length (column_paths defs))%nat as [path Hpath]%lookup_lt_is_Some
    by (rewrite column_paths_length; apply lookup_lt_Some in Hd; lia).
  rewrite Hpath in Hp. eauto 10.
Qed.

Lemma resolve_column_sound paths c paths' :
  paths ⊆ path_map -> c ∈ committed defs ids -> resolve_column paths c = Some paths' ->
  paths ⊆ paths' /\ paths' ⊆ path_map /\ is_Some (paths' !! ec_column_id c).
Proof.
  intros Hsub Hc Hr. apply list_elem_of_lookup in Hc as [i Hc].
  apply committed_lookup in Hc as (d & id & Hd & Hi & ->).
  pose proof (committed_parent i d id Hd Hi) as Hpar. unfold resolve_column in Hr.
  assert (exists path, paths' = <[id := path]> paths /\ path_map !! id = Some path) as (path & -> & Hpath).
  { destruct (ccd_parent_index d) as [p|].
    - destruct Hpar as (_ & pid & path & Hpid & Hpath & Hparent & Hcp). rewrite Hparent in Hr.
      destruct (paths !! pid) as [path'|] eqn:E; [|done]. cbn in Hr. simplify_eq.
      pose proof (lookup_weaken _ _ _ _ E Hsub) as E'. rewrite (path_map_lookup p pid path) in E' by done.
      simplify_eq. eexists. split; [done|]. by apply (path_map_lookup i).
    - destruct Hpar as [Hparent Hcp]. rewrite Hparent in Hr. cbn in Hr. simplify_eq.
      eexists. split; [done|]. by apply (path_map_lookup i). }
  split_and!.
  - destruct (paths !! id) as [path'|] eqn:E; [|by apply insert_subseteq].
    pose proof (lookup_weaken _ _ _ _ E Hsub). simplify_eq. by rewrite insert_id.
  - by apply insert_subseteq_l.
  - cbn. rewrite lookup_insert_eq. eauto.
Qed.

Lemma retain_sound unresolved : forall paths kept paths',
  paths ⊆ path_map -> (forall c, c ∈ unresolved -> c ∈ committed defs ids) ->
  retain_unresolved paths unresolved = (kept, paths') ->
  paths ⊆ paths' /\ paths' ⊆ path_map /\ sublist kept unresolved
  /\ (forall c, c ∈ unresolved -> c ∈ kept \/ is_Some (paths' !! ec_column_id c))
  /\ (forall c, c ∈ unresolved -> is_Some (resolve_column paths c) -> (length kept < length unresolved)%nat).
Proof.
  induction unresolved as [|c unresolved IH]; intros paths kept paths' Hsub Hin H; cbn [retain_unresolved] in H.
  { simplify_eq. split_and!; try done; intros c Hc; by apply elem_of_nil in Hc. }
  destruct (resolve_column paths c) as [paths1|] eqn:E.
  - destruct (resolve_column_sound _ _ _ Hsub (Hin c ltac:(by left)) E) as (Hs1 & Hs2 & Hc).
    destruct (IH paths1 kept paths' Hs2 ltac:(set_solver) H) as (H1 & H2 & H3 & H4 & _).
    apply sublist_length in H3 as Hlen. split_and!; [by etrans|done|by constructor| |].
    + intros x [->|Hx]%elem_of_cons; [|by apply H4]. right. destruct Hc as [v Hv]. exists v. by eapply lookup_weaken.
    + intros. cbn. lia.
  - destruct (retain_unresolved paths unresolved) as [kept1 paths1] eqn:E1. simplify_eq.
    destruct (IH paths kept1 paths' Hsub ltac:(set_solver) E1) as (H1 & H2 & H3 & H4 & H5).
    split_and!; [done|done|by constructor| |].
    + intros x [->|Hx]%elem_of_cons; [by left; left|]. destruct (H4 x Hx); [left; by right|by right].
    + intros x [->|Hx]%elem_of_cons [? Hr]; [congruence|]. cbn. specialize (H5 x Hx). rewrite Hr in H5.
      specialize (H5 ltac:(eauto)). lia.
Qed.

(** Some unresolved row has its parent resolved: the first of them in flattening order. *)
Lemma some_column_resolves paths unresolved :
  unresolved <> [] -> (forall c, c ∈ unresolved -> c ∈ committed defs ids) ->
  (forall c, c ∈ committed defs ids -> c ∈ unresolved \/ is_Some (paths !! ec_column_id c)) ->
  exists c, c ∈ unresolved /\ is_Some (resolve_column paths c).
Proof.
  intros Hne Hin Hall.
  assert (forall n i c, (i < n)%nat -> committed defs ids !! i = Some c -> c ∈ unresolved ->
          exists c, c ∈ unresolved /\ is_Some (resolve_column paths c)) as Hmin.
  { induction n as [|n IH]; intros i c Hi Hc Hu; [lia|].
    pose proof (committed_lookup i c Hc) as (d & id & Hd & Hid & Heq).
    pose proof (committed_parent i d id Hd Hid) as Hpar. rewrite <- Heq in Hpar.
    destruct (ccd_parent_index d) as [p|].
    - destruct Hpar as (Hlt & pid & path & Hpid & _ & Hparent & _).
      assert (p < length (committed defs ids))%nat as [cp Hcp]%lookup_lt_is_Some
        by (apply lookup_lt_Some in Hc; lia).
      destruct (Hall cp) as [Hcu|[v Hv]]; [by apply list_elem_of_lookup_2 in Hcp|by apply (IH p cp); [lia|..]|].
      exists c. split; [done|]. unfold resolve_column. rewrite Hparent.
      apply committed_lookup in Hcp as (d' & id' & _ & Hid' & ->). simplify_eq. cbn in Hv. rewrite Hv. eauto.
    - destruct Hpar as [Hparent _]. exists c. split; [done|]. unfold resolve_column. rewrite Hparent. eauto. }
  destruct unresolved as [|c unresolved]; [done|].
  pose proof (Hin c ltac:(by left)) as Hc. apply list_elem_of_lookup in Hc as [i Hc].
  apply (Hmin (S i) i c); [lia|done|by left].
Qed.

(** As many passes as columns resolve every path. *)
Lemma resolve_paths_enough passes : forall paths unresolved,
  (length unresolved <= passes)%nat -> paths ⊆ path_map ->
  (forall c, c ∈ unresolved -> c ∈ committed defs ids) ->
  (forall c, c ∈ committed defs ids -> c ∈ unresolved \/ is_Some (paths !! ec_column_id c)) ->
  resolve_paths passes paths unresolved = Ok path_map.
Proof.
  induction passes as [|passes IH]; intros paths unresolved Hlen Hsub Hin Hall.
  all: assert (unresolved = [] -> paths = path_map) as Hdone.
  1,3: intros ->; apply (anti_symm (⊆)); [done|]; apply map_subseteq_spec; intros id path Hid;
    pose proof Hid as Hid'; apply path_map_inv in Hid' as (i & Hi & Hp);
    assert (i < length (committed defs ids))%nat as [c Hc]%lookup_lt_is_Some
      by (unfold committed; rewrite length_zip_with; apply lookup_lt_Some in Hi; pose proof (wf_length _ _ Hwf); lia);
    destruct (Hall c) as [Hu|[v Hv]]; [by apply list_elem_of_lookup_2 in Hc|by apply elem_of_nil in Hu|];
    apply committed_lookup in Hc as (d & id' & _ & Hi' & ->); simplify_eq; cbn in Hv;
    pose proof (lookup_weaken _ _ _ _ Hv Hsub); congruence.
  { destruct unresolved; [|cbn in Hlen; lia]. cbn. by rewrite Hdone. }
  destruct unresolved as [|u unresolved'] eqn:Eu; [cbn; by rewrite Hdone|]. rewrite <- Eu in *. cbn [resolve_paths].
  rewrite Eu at 1. destruct (retain_unresolved paths unresolved) as [kept paths'] eqn:E.
  destruct (retain_sound _ _ _ _ Hsub Hin E) as (H1 & H2 & H3 & H4 & H5).
  destruct (some_column_resolves paths unresolved) as (c & Hc & Hr); [by rewrite Eu|done|done|].
  specialize (H5 c Hc Hr). rewrite (proj2 (Nat.eqb_neq _ _)) by lia.
  apply IH; [lia|done|..].
  - intros x Hx. apply Hin. by eapply elem_of_sublist.
  - intros x Hx. destruct (Hall x Hx) as [Hu|[v Hv]]; [by apply H4|]. right. exists v. by eapply lookup_weaken.
Qed.

Lemma path_map_inj id id' path : path_map !! id = Some path -> path_map !! id' = Some path -> id = id'.
Proof.
  intros (i & Hi & Hp)%path_map_inv (j & Hj & Hq)%path_map_inv.
  assert (i = j) as -> by (eapply NoDup_lookup; [apply (wf_paths _ _ Hwf)|done|done]). congruence.
Qed.

Lemma index_by_path_spec l : forall acc,
  (forall c, c ∈ l -> c ∈ committed defs ids) -> NoDup (ec_column_id <$> l) ->
  (forall path id, acc !! path = Some id -> path_map !! id = Some path /\ id ∉ ec_column_id <$> l) ->
  exists m, index_by_path path_map acc l = Returns (Ok m)
  /\ forall path id, m !! path = Some id
     <-> acc !! path = Some id \/ (id ∈ ec_column_id <$> l /\ path_map !! id = Some path).
Proof.
  induction l as [|c l IH]; intros acc Hin Hnd Hacc; cbn [index_by_path].
  { exists acc. split; [done|]. intros path id. set_solver. }
  cbn in Hnd. apply NoDup_cons in Hnd as [Hc Hnd].
  assert (ec_column_id c ∈ ids) as [path Hpath]%path_map_dom.
  { pose proof (Hin c ltac:(by left)) as H. apply list_elem_of_lookup in H as [i H].
    apply committed_lookup in H as (d & id & _ & Hi & ->). by apply list_elem_of_lookup_2 in Hi. }
  rewrite Hpath. cbn [or_panic outcome_bind].
  destruct (acc !! path) as [id'|] eqn:E.
  { apply Hacc in E as [E Hn]. rewrite (path_map_inj _ _ _ E Hpath) in Hn. cbn in Hn. set_solver. }
  destruct (IH (<[path := ec_column_id c]> acc)) as (m & Hm & Hspec).
  - intros x Hx. apply Hin. by right.
  - done.
  - intros q id Hq. apply lookup_insert_Some in Hq as [[<- <-]|[Hne Hq]]; [done|].
    apply Hacc in Hq as [Hq Hn]. split; [done|]. cbn in Hn. set_solver.
  - exists m. split; [done|]. intros q id. rewrite Hspec, lookup_insert_Some. cbn. rewrite elem_of_cons.
    split; [naive_solver|]. intros [Ha|[[->|Hl] Hq]]; [|left; left; split; congruence|by right].
    left. right. split; [|done]. congruence.
Qed.

Lemma committed_ids : ec_column_id <$> committed defs ids = ids.
Proof.
  apply list_eq_same_length with (length ids); [done|..].
  - unfold committed. rewrite length_fmap, length_zip_with. pose proof (wf_length _ _ Hwf). lia.
  - intros i x y _ Hx Hy. rewrite list_lookup_fmap in Hx. apply fmap_Some in Hx as (c & Hc & ->).
    apply committed_lookup in Hc as (d & id & _ & Hi & ->). cbn. congruence.
Qed.

(** The ids [assign_column_ids] gives: the committed id of a committed path, in
    whatever order the catalog lists its rows, and a fresh one otherwise. *)
Lemma assign_by_path existing proposed fresh :
  existing ≡ₚ committed defs ids ->
  parents_precede proposed -> NoDup (column_paths proposed) -> length proposed = length fresh ->
  exists assigned, assign_column_ids proposed existing fresh = Returns (Ok assigned)
  /\ length assigned = length proposed
  /\ forall i path fresh_id, column_paths proposed !! i = Some path -> fresh !! i = Some fresh_id ->
     (forall id, path_map !! id = Some path -> assigned !! i = Some id)
     /\ ((forall id, path_map !! id <> Some path) -> assigned !! i = Some fresh_id).
Proof.
  intros Hperm Hp Hnd Hlen. unfold assign_column_ids. rewrite (proj2 (Nat.eqb_eq _ _) Hlen). cbn [negb].
  rewrite (resolve_paths_enough (length existing) ∅ existing); [|lia|apply map_empty_subseteq| |].
  2: { intros c Hc. by rewrite <- Hperm. }
  2: { intros c Hc. left. by rewrite Hperm. }
  cbn [outcome_bind].
  assert (size path_map = length existing) as Hsize.
  { unfold path_map. rewrite map_size_list_to_map.
    - rewrite length_zip, column_paths_length, Hperm. unfold committed. rewrite length_zip_with.
      pose proof (wf_length _ _ Hwf). lia.
    - rewrite fst_zip by (rewrite column_paths_length, (wf_length _ _ Hwf); done). apply (wf_ids _ _ Hwf). }
  rewrite (proj2 (Nat.eqb_eq _ _) Hsize). cbn [negb].
  destruct (index_by_path_spec existing ∅) as (m & -> & Hm).
  { intros c Hc. by rewrite <- Hperm. }
  { rewrite Hperm, committed_ids. apply (wf_ids _ _ Hwf). }
  { intros path id H. by rewrite lookup_empty in H. }
  cbn [outcome_bind]. rewrite proposed_paths_ok by done. cbn [outcome_bind].
  eexists. split; [done|]. split.
  { rewrite length_zip_with, column_paths_length. lia. }
  assert (forall path id, m !! path = Some id <-> path_map !! id = Some path) as Hmap.
  { intros path id. rewrite Hm, lookup_empty, Hperm, committed_ids. split; [naive_solver|].
    intros H. right. split; [|done]. apply path_map_dom. eauto. }
  intros i path fresh_id Hpath Hfresh. split; intros.
  - apply lookup_zip_with_Some. exists path, fresh_id. split_and!; try done.
    by rewrite (proj2 (Hmap _ _) H).
  - apply lookup_zip_with_Some. exists path, fresh_id. split_and!; try done.
    destruct (m !! path) as [id|] eqn:E; [|done]. apply Hmap in E. by apply H in E.
Qed.

Lemma resubmit_ids existing fresh :
  existing ≡ₚ committed defs ids -> length fresh = length defs ->
  assign_column_ids defs existing fresh = Returns (Ok ids).
Proof.
  intros Hperm Hlen.
  destruct (assign_by_path existing defs fresh Hperm (wf_parents _ _ Hwf) (wf_paths _ _ Hwf) (eq_sym Hlen))
    as (assigned & -> & Hl & Hspec).
  do 2 f_equal. apply list_eq_same_length with (length defs); [by rewrite (wf_length _ _ Hwf)|done|].
  intros i x y Hi Hx Hy.
  assert (i < length (column_paths defs))%nat as [path Hpath]%lookup_lt_is_Some by (by rewrite column_paths_length).
  assert (i < length fresh)%nat as [f Hf]%lookup_lt_is_Some by lia.
  destruct (Hspec i path f Hpath Hf) as [Hold _]. rewrite (Hold y) in Hx; [congruence|]. by apply (path_map_lookup i).
Qed.
End committed.

(** ** Comparing a schema with itself *)

Lemma any_outcome_false {A} (f : A -> outcome bool) l :
  (forall x, x ∈ l -> f x = Returns (Ok false)) -> any_outcome f l = Returns (Ok false).
Proof.
  induction l as [|x l IH]; intros H; cbn; [done|]. rewrite (H x) by (by left). cbn. apply IH.
  intros y Hy. apply H. by right.
Qed.

Lemma columns_by_id_lookup {A} existing (values : list A) entry :
  NoDup (ec_column_id <$> existing) -> length existing = length values -> entry ∈ zip existing values ->
  columns_by_id existing values !! ec_column_id entry.1 = Some entry.
Proof.
  intros Hnd Hl Hin. unfold columns_by_id.
  assert (NoDup ((fun e : ExistingCatalogColumn * A => ec_column_id e.1) <$> zip existing values)) as Hnd'.
  { change (fun e : ExistingCatalogColumn * A => ec_column_id e.1) with (ec_column_id ∘ fst (B:=A)).
    rewrite list_fmap_compose, fst_zip by lia. done. }
  revert Hnd' Hin. clear. generalize (zip existing values). intros l.
  induction l as [|x l IH] using rev_ind; intros Hnd Hin; [by apply elem_of_nil in Hin|].
  rewrite foldl_app. cbn. rewrite fmap_app in Hnd. apply NoDup_app in Hnd as (Hnd & Hn & _).
  apply elem_of_app in Hin as [Hin|Hin].
  - rewrite lookup_insert_ne; [by apply IH|]. intros E.
    apply (Hn (ec_column_id entry.1)); [by apply (list_elem_of_fmap_2 (fun e => ec_column_id e.1))|].
    rewrite <- E. by left.
  - apply list_elem_of_singleton in Hin as ->. by rewrite lookup_insert_eq.
Qed.

Lemma siblings_lookup (entries : list (option Z * Z)) parent :
  foldl (fun siblings entry => add_sibling siblings entry.1 entry.2) ∅ entries !! parent
  = match snd <$> filter (fun entry => entry.1 = parent) entries with [] => None | ids => Some ids end.
Proof.
  induction entries as [|[p id] entries IH] using rev_ind; [done|]. rewrite foldl_app, filter_app, fmap_app, filter_cons.
  cbn [foldl fst snd]. unfold add_sibling in *. case_decide as Hp.
  - subst p. rewrite lookup_insert_eq, IH. cbn. by destruct (snd <$> filter _ entries).
  - rewrite lookup_insert_ne, IH by done. cbn. by rewrite app_nil_r.
Qed.

Lemma catalog_type_equal_refl d : catalog_column_type_equal (ccd_ducklake_type d) d = true.
Proof.
  unfold catalog_column_type_equal, eq_ignore_ascii_case, str_eqb.
  by rewrite (bool_decide_eq_true_2 (to_ascii_lowercase _ = _)).
Qed.

Section resubmission.
Context (defs : list CatalogColumnDef) (ids : list Z) (Hwf : well_formed_columns defs ids).
Context (existing : list ExistingCatalogColumn) (nullability : list bool).
Hypothesis Hrows : zip existing nullability ≡ₚ zip (committed defs ids) (ccd_is_nullable <$> defs).
Hypothesis Hlen : length existing = length nullability.
Hypothesis Horder : forall p, filter (fun c => ec_parent_column c = p) existing
                              = filter (fun c => ec_parent_column c = p) (committed defs ids).

Lemma existing_committed : existing ≡ₚ committed defs ids.
Proof.
  pose proof (fmap_Permutation fst _ _ Hrows) as H. rewrite !fst_zip in H; [done| |lia].
  unfold committed. rewrite length_zip_with, length_fmap. lia.
Qed.

Lemma parent_id_committed i d : defs !! i = Some d ->
  parent_id_of ids d = Returns (Ok (ccd_parent_index d ≫= (ids !!.))).
Proof.
  intros Hd. unfold parent_id_of. destruct (ccd_parent_index d) as [p|] eqn:Ep; [|done]. cbn.
  pose proof (wf_parents _ _ Hwf _ _ _ Hd Ep). apply lookup_lt_Some in Hd.
  assert (p < length ids)%nat as [pid ->]%lookup_lt_is_Some by (rewrite <- (wf_length _ _ Hwf); lia). done.
Qed.

Lemma column_by_id i d id : defs !! i = Some d -> ids !! i = Some id ->
  columns_by_id existing nullability !! id = Some (committed_row ids d id, ccd_is_nullable d).
Proof.
  intros Hd Hi. apply (columns_by_id_lookup existing nullability (committed_row ids d id, ccd_is_nullable d)).
  - rewrite existing_committed, (committed_ids _ _ Hwf). apply (wf_ids _ _ Hwf).
  - done.
  - rewrite Hrows. apply list_elem_of_lookup. exists i. apply lookup_zip_with_Some.
    do 2 eexists. split; [done|]. split.
    + apply lookup_zip_with_Some. eauto.
    + by rewrite list_lookup_fmap, Hd.
Qed.

Lemma no_column_differs :
  any_outcome (column_differs (columns_by_id existing nullability) ids) (zip defs ids) = Returns (Ok false).
Proof.
  apply any_outcome_false. intros [d id] Hin. apply list_elem_of_lookup in Hin as [i Hi].
  apply lookup_zip_with_Some in Hi as (d' & id' & [= <- <-] & Hd & Hid). cbn [column_differs].
  rewrite (column_by_id i d id), (parent_id_committed i d) by done. cbn [outcome_bind].
  cbn [committed_row ec_ducklake_type ec_name ec_parent_column]. rewrite catalog_type_equal_refl.
  unfold str_eqb. rewrite (bool_decide_eq_true_2 (ccd_name d = ccd_name d)) by done.
  rewrite (bool_decide_eq_true_2 (ccd_parent_index d ≫= _ = _)) by done.
  by rewrite Bool.eqb_reflx, andb_false_r.
Qed.

Lemma committed_zip : (fun c => (ec_parent_column c, ec_column_id c)) <$> committed defs ids
  = (fun entry => (ccd_parent_index entry.1 ≫= (ids !!.), entry.2)) <$> zip defs ids.
Proof.
  unfold committed. rewrite zip_with_zip, <- list_fmap_compose. apply list_fmap_ext. by intros i [d id] _.
Qed.

Lemma proposed_siblings_fold (live : gset Z) entries : forall siblings,
  (forall d id, (d, id) ∈ entries -> id ∈ live /\ exists i, defs !! i = Some d) ->
  proposed_siblings live ids siblings entries
  = Returns (Ok (foldl (fun siblings entry => add_sibling siblings entry.1 entry.2) siblings
      ((fun entry => (ccd_parent_index entry.1 ≫= (ids !!.), entry.2)) <$> entries))).
Proof.
  induction entries as [|[d id] entries IH]; intros siblings H; cbn; [done|].
  destruct (H d id ltac:(by left)) as [Hlive [i Hd]]. rewrite bool_decide_eq_true_2 by done.
  rewrite (parent_id_committed i d Hd). cbn. apply IH. intros d' id' Hin. apply H. by right.
Qed.

Lemma foldl_siblings l : forall acc,
  foldl (fun siblings column => add_sibling siblings (ec_parent_column column) (ec_column_id column)) acc l
  = foldl (fun siblings entry => add_sibling siblings entry.1 entry.2) acc
      ((fun c => (ec_parent_column c, ec_column_id c)) <$> l).
Proof. induction l as [|c l IH]; intros acc; cbn; [done|apply IH]. Qed.

Lemma filter_parents (p : option Z) (l : list ExistingCatalogColumn) :
  filter (fun entry : option Z * Z => entry.1 = p) ((fun c => (ec_parent_column c, ec_column_id c)) <$> l)
  = (fun c => (ec_parent_column c, ec_column_id c)) <$> filter (fun c => ec_parent_column c = p) l.
Proof.
  induction l as [|c l IH]; [done|]. cbn [fmap list_fmap]. rewrite !filter_cons. cbn [fst].
  case_decide; cbn [fmap list_fmap]; by rewrite IH.
Qed.

Lemma sibling_order_kept : keeps_sibling_order existing defs ids = Returns (Ok true).
Proof.
  unfold keeps_sibling_order. rewrite proposed_siblings_fold.
  - cbn [outcome_bind]. do 2 f_equal. apply bool_decide_eq_true_2. rewrite foldl_siblings.
    rewrite filter_every.
    2: { intros c Hc. rewrite existing_committed in Hc.
         apply (list_elem_of_fmap_2 ec_column_id) in Hc. by rewrite (committed_ids _ _ Hwf) in Hc. }
    apply map_eq. intros p. rewrite !siblings_lookup.
    rewrite <- committed_zip.
    by rewrite !filter_parents, Horder.
  - intros d id Hin. apply list_elem_of_lookup in Hin as [i Hi].
    apply lookup_zip_with_Some in Hi as (d' & id' & [= <- <-] & Hd & Hid). split; [|eauto].
    apply elem_of_list_to_set. rewrite existing_committed, (committed_ids _ _ Hwf). by apply list_elem_of_lookup_2 in Hid.
Qed.

Lemma resubmit_unchanged : catalog_columns_differ existing nullability defs ids = Returns (Ok false).
Proof.
  unfold catalog_columns_differ, lengths_differ.
  assert (length existing = length defs) as Hl.
  { rewrite existing_committed. unfold committed. rewrite length_zip_with. pose proof (wf_length _ _ Hwf). lia. }
  rewrite (proj2 (Nat.eqb_eq _ _) Hl), (proj2 (Nat.eqb_eq _ _) Hlen), (proj2 (Nat.eqb_eq _ _) (wf_length _ _ Hwf)).
  cbn [negb orb]. rewrite no_column_differs. cbn [outcome_bind]. by rewrite sibling_order_kept.
Qed.
End resubmission.

(** ** Column orders *)

Lemma orders_increase_spec entries : forall last,
  orders_increase last entries = true ->
  (forall j d o previous, entries !! j = Some (d, o) -> last !! ccd_parent_index d = Some previous -> previous < o)
  /\ forall i j d o d' o', (i < j)%nat -> entries !! i = Some (d, o) -> entries !! j = Some (d', o') ->
     ccd_parent_index d = ccd_parent_index d' -> o < o'.
Proof.
  induction entries as [|[x ox] entries IH]; intros last H; cbn in H.
  { split; intros *; rewrite lookup_nil; naive_solver. }
  apply andb_true_iff in H as [Hx H]. apply IH in H as [H1 H2].
  assert (forall j d o previous, entries !! j = Some (d, o) -> last !! ccd_parent_index d = Some previous -> previous < o) as H3.
  { intros j d o previous Hj Hl. destruct (decide (ccd_parent_index d = ccd_parent_index x)) as [E|E].
    - rewrite E in Hl. rewrite Hl in Hx. apply Z.ltb_lt in Hx.
      assert (ox < o); [|lia]. apply (H1 j d o); [done|]. by rewrite E, lookup_insert_eq.
    - apply (H1 j d o); [done|]. by rewrite lookup_insert_ne. }
  split.
  - intros [|j] d o previous Hj Hl; [|by apply (H3 j d o)]. simplify_eq/=. rewrite Hl in Hx. by apply Z.ltb_lt.
  - intros [|i] [|j] d o d' o' Hlt Hi Hj Hp; try lia; simplify_eq/=.
    + apply (H1 j d' o'); [done|]. by rewrite <- Hp, lookup_insert_eq.
    + apply (H2 i j d o d' o'); try done. lia.
Qed.

(** ** What a read rebuilds from the rows of a type

    The rows keep names and nullability of struct fields, the nullability of list
    elements and map values, and of every leaf the canonical type text. *)
Fixpoint rebuilt (levels : nat) (t : DataType) : result DataType :=
  match levels with
  | O => Err (Internal [])
  | S levels =>
      match t with
      | List (_, e, nullable) | LargeList (_, e, nullable) | FixedSizeList (_, e, nullable) _ =>
          let? e := rebuilt levels e in Ok (List (lit "item", e, nullable))
      | Struct fields =>
          let? fields := mapM_result (fun '(name, t, nullable) =>
                           let? t := rebuilt levels t in Ok (name, t, nullable)) fields in
          Ok (Struct fields)
      | Map (_, Struct [(_, k, _); (_, v, nullable)], _) _ =>
          let? k := rebuilt levels k in
          let? v := rebuilt levels v in
          Ok (Map (lit "entries", Struct [(lit "key", k, false); (lit "value", v, nullable)], false) false)
      | Map _ _ => Err (Internal [])
      | _ => let? text := arrow_to_ducklake_type t in ducklake_to_arrow_type text
      end
  end.

(** The flattening as a function of the first free index. *)
Definition type_name (t : DataType) : str :=
  match catalog_type_name t with Ok s => s | Err _ => [] end.

Fixpoint flat (n base : nat) (name : str) (t : DataType) (nullable : bool) (parent : option nat)
  : list CatalogColumnDef :=
  match n with
  | O => []
  | S n =>
      {| ccd_name := name; ccd_ducklake_type := type_name t;
         ccd_logical_type := match arrow_to_ducklake_type t with Ok s => s | Err _ => [] end;
         ccd_is_nullable := nullable; ccd_parent_index := parent; ccd_initial_default := None;
         ccd_default_value := None; ccd_default_value_type := None; ccd_default_value_dialect := None |}
      :: (fix forest (base' : nat) (fields : list Field) :=
            match fields with
            | [] => []
            | (name, t, nullable) :: rest =>
                let block := flat n base' name t nullable (Some base) in
                block ++ forest (base' + length block)%nat rest
            end) (S base) (subfields t)
  end.

Definition forest (n index : nat) :=
  fix forest (base : nat) (fields : list Field) : list CatalogColumnDef :=
    match fields with
    | [] => []
    | (name, t, nullable) :: rest =>
        let block := flat n base name t nullable (Some index) in
        block ++ forest (base + length block)%nat rest
    end.

Lemma append_is_flat n : forall t, (catalog_depth t <= n)%nat -> forall name nullable parent defs defs',
  append_column_def name t nullable parent defs = Ok defs' ->
  defs' = defs ++ flat n (length defs) name t nullable parent.
Proof.
  induction n as [|n IH]; intros t Hn name nullable parent defs defs' H; [pose proof (depth_pos t); lia|].
  rewrite append_column_def_eq in H. apply subfields_depth in Hn. cbn [flat]. unfold type_name. result_inv.
  rename H into Hf. fold (forest n (length defs)).
  assert (forall fields base defs0, Forall (fun f : Field => catalog_depth f.1.2 <= n)%nat fields ->
    base = length defs0 -> append_fields (length defs) fields defs0 = Ok defs' ->
    defs' = defs0 ++ forest n (length defs) base fields) as Haux.
  { induction fields as [|[[fname ft] fnull] fields IHf]; intros base defs0 Hd -> Hok; cbn in Hok |- *.
    - simplify_eq. by rewrite app_nil_r.
    - apply Forall_cons in Hd as [Hd Hds]. result_inv. apply (IH ft Hd) in E1 as ->.
      rewrite app_assoc. apply IHf; [done| |done]. by rewrite length_app. }
  apply (Haux _ (S (length defs))) in Hf as ->; [by rewrite <- app_assoc|done|]. rewrite length_app. cbn. lia.
Qed.

(** The rows of [flat] point at their own block. *)
Lemma forest_parents n index (Hflat : forall base name t nullable parent i d,
    flat n base name t nullable parent !! i = Some d ->
    (i = 0%nat /\ ccd_parent_index d = parent)
    \/ exists p, ccd_parent_index d = Some p /\ (base <= p < base + i)%nat) :
  forall fields base i d, forest n index base fields !! i = Some d ->
  exists p, ccd_parent_index d = Some p /\ (p = index \/ base <= p < base + i)%nat.
Proof.
  induction fields as [|[[fname ft] fnull] fields IHf]; intros base j e H; cbn in H; [by destruct j|].
  apply lookup_app_Some in H as [H|[Hle H]].
  - apply Hflat in H as [[-> ?]|(p & ? & ?)]; [eauto|exists p; split; [done|lia]].
  - apply IHf in H as (p & ? & ?). exists p. split; [done|lia].
Qed.

Lemma flat_parents n : forall base name t nullable parent i d,
  flat n base name t nullable parent !! i = Some d ->
  (i = 0%nat /\ ccd_parent_index d = parent)
  \/ exists p, ccd_parent_index d = Some p /\ (base <= p < base + i)%nat.
Proof.
  induction n as [|n IH]; intros base name t nullable parent i d H; [by destruct i|].
  destruct i as [|i]; cbn in H; [left; by simplify_eq|]. right. fold (forest n base) in H.
  apply (forest_parents n base IH) in H as (p & ? & ?). exists p. split; [done|lia].
Qed.

Definition stored_row (ids : list Z) (d : CatalogColumnDef) (id : Z) : ColumnRow :=
  (with_defaults (DuckLakeTableColumn_new id (ccd_name d) (ccd_ducklake_type d) (ccd_is_nullable d))
     (ccd_initial_default d) (ccd_default_value d) (ccd_default_value_type d) (ccd_default_value_dialect d),
   ccd_parent_index d ≫= (ids !!.)).

(** The rows a commit of [defs] under [ids] stores, in flattening order. *)
Definition stored_rows (defs : list CatalogColumnDef) (ids : list Z) : list ColumnRow :=
  zip_with (stored_row ids) defs ids.

(** [row] and the rows below it are those of type [t]; [below] are the ids below. *)
Fixpoint stored (rows : list ColumnRow) (n : nat) (row : ColumnRow) (t : DataType) (below : list Z) : Prop :=
  match n with
  | O => False
  | S n =>
      tc_column_type row.1 = type_name t
      /\ exists belows,
         Forall2 (fun (kid : ColumnRow) '((name, t, nullable), b) =>
                    tc_column_name kid.1 = name /\ tc_is_nullable kid.1 = nullable
                    /\ tc_initial_default kid.1 = None /\ stored rows n kid t b)
           (filter (fun r => r.2 = Some (tc_column_id row.1)) rows) (zip (subfields t) belows)
         /\ length belows = length (subfields t)
         /\ below = concat (zip_with (fun (kid : ColumnRow) b => tc_column_id kid.1 :: b)
                      (filter (fun r => r.2 = Some (tc_column_id row.1)) rows) belows)
  end.

(** A stored row agrees with the flattened one; only a root carries defaults. *)
Definition same_row (d d' : CatalogColumnDef) : Prop :=
  ccd_name d' = ccd_name d /\ ccd_ducklake_type d' = ccd_ducklake_type d
  /\ ccd_is_nullable d' = ccd_is_nullable d /\ ccd_parent_index d' = ccd_parent_index d
  /\ (ccd_parent_index d <> None -> ccd_initial_default d' = None).

Section stored.
Context (entries : list (CatalogColumnDef * Z)) (rows : list ColumnRow).
Let ids := entries.*2.
Let row (e : CatalogColumnDef * Z) : ColumnRow := stored_row ids e.1 e.2.
Hypothesis Hids : NoDup ids.
Hypothesis Hparents : forall i e p, entries !! i = Some e -> ccd_parent_index e.1 = Some p -> (p < i)%nat.
Hypothesis Hrows : forall p, filter (fun r => r.2 = p) rows = filter (fun r => r.2 = p) (row <$> entries).

Definition kids_of (index : nat) (l : list (CatalogColumnDef * Z)) :=
  filter (fun e => ccd_parent_index e.1 = Some index) l.

Lemma kid_rows index e :
  entries !! index = Some e ->
  filter (fun r => r.2 = Some (tc_column_id (row e).1)) rows = row <$> kids_of index entries.
Proof.
  intros He. rewrite Hrows. cbn. unfold kids_of.
  assert (forall l : list (CatalogColumnDef * Z), (forall x, x ∈ l -> x ∈ entries) ->
    filter (fun r : ColumnRow => r.2 = Some e.2) (row <$> l)
    = row <$> filter (fun e => ccd_parent_index e.1 = Some index) l) as Haux; [|by apply Haux].
  induction l as [|x l IH]; intros Hl; [done|]. cbn [fmap list_fmap]. rewrite !filter_cons.
  rewrite IH by (intros y Hy; apply Hl; by right).
  assert ((row x).2 = Some e.2 <-> ccd_parent_index x.1 = Some index) as Hiff.
  { cbn. assert (ids !! index = Some e.2) as Hi by (unfold ids; by rewrite list_lookup_fmap, He).
    destruct (ccd_parent_index x.1) as [p|]; cbn; [|naive_solver]. split; [|intros [= ->]; done].
    intros Hp. f_equal. by apply (NoDup_lookup ids p index e.2). }
  do 2 case_decide; naive_solver.
Qed.

Lemma kids_none index l : (forall e, e ∈ l -> ccd_parent_index e.1 <> Some index) -> kids_of index l = [].
Proof. intros H. apply filter_none. auto. Qed.

Lemma flat_pos n base name t nullable parent l :
  (catalog_depth t <= n)%nat -> Forall2 same_row (flat n base name t nullable parent) l ->
  exists m d l', n = S m /\ l = d :: l' /\ ccd_name d = name /\ ccd_ducklake_type d = type_name t
    /\ ccd_is_nullable d = nullable /\ ccd_parent_index d = parent
    /\ (parent <> None -> ccd_initial_default d = None)
    /\ Forall2 same_row (forest m base (S base) (subfields t)) l'.
Proof.
  intros Hd H. destruct n as [|n]; [pose proof (depth_pos t); lia|]. cbn [flat] in H. fold (forest n base) in H.
  apply Forall2_cons_inv_l in H as (d & l' & (? & ? & ? & ? & ?) & Hl & ->). exists n, d, l'. naive_solver.
Qed.

Lemma forest_stored n index :
  (forall t, (catalog_depth t <= n)%nat -> forall name nullable parent epre root erest epost,
     entries = epre ++ (root :: erest) ++ epost ->
     Forall2 same_row (flat n (length epre) name t nullable parent) (root :: erest).*1 ->
     (forall e p, e ∈ epost -> ccd_parent_index e.1 = Some p ->
        ~ (length epre <= p < length epre + S (length erest))%nat) ->
     stored rows n (row root) t erest.*2) ->
  forall fields epre efor epost,
  Forall (fun f : Field => catalog_depth f.1.2 <= n)%nat fields ->
  (index < length epre)%nat ->
  entries = epre ++ efor ++ epost ->
  Forall2 same_row (forest n index (length epre) fields) efor.*1 ->
  (forall e p, e ∈ epost -> ccd_parent_index e.1 = Some p ->
     p <> index /\ ~ (length epre <= p < length epre + length efor)%nat) ->
  exists belows, length belows = length fields
  /\ Forall2 (fun (kid : ColumnRow) '((name, t, nullable), b) =>
                tc_column_name kid.1 = name /\ tc_is_nullable kid.1 = nullable
                /\ tc_initial_default kid.1 = None /\ stored rows n kid t b)
       (row <$> kids_of index efor) (zip fields belows)
  /\ efor.*2 = concat (zip_with (fun (kid : ColumnRow) b => tc_column_id kid.1 :: b)
                 (row <$> kids_of index efor) belows).
Proof.
  intros IH. induction fields as [|[[name t] nullable] fields IHf]; intros epre efor epost Hd Hidx Hent Hfor Hpost.
  { cbn in Hfor. apply Forall2_nil_inv_l, fmap_nil_inv in Hfor as ->. by exists []. }
  apply Forall_cons in Hd as [Hd Hds]. cbn [forest] in Hfor. fold (forest n index) in Hfor.
  apply Forall2_app_inv_l in Hfor as (b1 & b2 & Hb1 & Hb2 & Heq).
  apply fmap_app_inv in Heq as (e1 & e2 & -> & -> & ->).
  pose proof (Forall2_length _ _ _ Hb1) as Hlen1. rewrite length_fmap in Hlen1. rewrite Hlen1 in Hb2.
  pose proof Hb1 as Hb1'. apply flat_pos in Hb1' as (m & d & l' & -> & Hcons & Hname & Htype & Hnull & Hpar & Hdef & _); [|done].
  destruct e1 as [|root erest]; [done|]. cbn in Hcons. injection Hcons as <- <-.
  (* rows after the first block *)
  assert (forall e p, e ∈ e2 -> ccd_parent_index e.1 = Some p ->
            p = index \/ (length epre + S (length erest) <= p)%nat) as He2.
  { intros e p Hin Hp. apply list_elem_of_lookup in Hin as [i Hi].
    assert (e2.*1 !! i = Some e.1) as Hi1 by (by rewrite list_lookup_fmap, Hi).
    destruct (Forall2_lookup_r _ _ _ _ _ Hb2 Hi1) as (d0 & Hd0 & (_ & _ & _ & Hpe & _)).
    apply (forest_parents _ _ (flat_parents _)) in Hd0 as (q & Hq & Hor). cbn in Hor. rewrite Hp, Hq in Hpe. simplify_eq. lia. }
  assert (forall e, e ∈ erest -> ccd_parent_index e.1 <> Some index) as Herest.
  { intros e Hin Hp. apply list_elem_of_lookup in Hin as [i Hi].
    assert ((root :: erest).*1 !! S i = Some e.1) as Hi1 by (rewrite list_lookup_fmap; change ((root :: erest) !! S i) with (erest !! i); by rewrite Hi).
    destruct (Forall2_lookup_r _ _ _ _ _ Hb1 Hi1) as (d0 & Hd0 & (_ & _ & _ & Hpe & _)).
    apply flat_parents in Hd0 as [[? _]|(q & Hq & Hor)]; [done|]. rewrite Hp, Hq in Hpe. simplify_eq. lia. }
  destruct (IHf (epre ++ root :: erest) e2 epost) as (belows & Hlb & Hkids & Hbelow).
  { done. } { rewrite length_app. lia. } { rewrite Hent, <- !app_assoc. done. }
  { by rewrite length_app. }
  { intros e p Hin Hp. destruct (Hpost e p Hin Hp) as [? Hn]. split; [done|].
    rewrite length_app in Hn |- *. cbn in *. lia. }
  assert (kids_of index ((root :: erest) ++ e2) = root :: kids_of index e2) as ->.
  { unfold kids_of. rewrite filter_app, filter_cons_True by done. fold (kids_of index erest).
    by rewrite kids_none. }
  exists (erest.*2 :: belows). split_and!.
  - cbn. by rewrite Hlb.
  - cbn [fmap list_fmap zip zip_with]. constructor; [|done].
    split; [exact Hname|]. split; [exact Hnull|]. split; [by apply Hdef|].
    apply (IH t Hd name nullable (Some index) epre root erest (e2 ++ epost)).
    + rewrite Hent. by rewrite <- app_assoc.
    + done.
    + intros e p [Hin|Hin]%elem_of_app Hp; [apply (He2 e p Hin) in Hp; lia|].
      destruct (Hpost e p Hin Hp) as [_ Hn]. rewrite length_app in Hn. cbn in Hn. lia.
  - rewrite fmap_app. cbn. by rewrite Hbelow.
Qed.

Lemma flat_stored n : forall t, (catalog_depth t <= n)%nat -> forall name nullable parent epre root erest epost,
  entries = epre ++ (root :: erest) ++ epost ->
  Forall2 same_row (flat n (length epre) name t nullable parent) (root :: erest).*1 ->
  (forall e p, e ∈ epost -> ccd_parent_index e.1 = Some p ->
     ~ (length epre <= p < length epre + S (length erest))%nat) ->
  stored rows n (row root) t erest.*2.
Proof.
  induction n as [|n IH]; intros t Hd name nullable parent epre root erest epost Hent Hflat Hpost.
  { pose proof (depth_pos t). lia. }
  pose proof Hflat as Hf. apply flat_pos in Hf as (m & d & l' & [= <-] & Hcons & _ & Htype & _ & _ & _ & Hfor); [|done].
  cbn in Hcons. injection Hcons as <- <-. cbn [stored]. split; [done|].
  assert (entries !! length epre = Some root) as Hroot.
  { rewrite Hent, lookup_app_r, Nat.sub_diag by done. done. }
  rewrite (kid_rows _ _ Hroot).
  assert (kids_of (length epre) entries = kids_of (length epre) erest) as ->.
  { rewrite Hent. unfold kids_of. rewrite filter_app. cbn [app]. rewrite filter_cons_False.
    2: { intros Hp. apply (Hparents _ _ _ Hroot) in Hp. lia. }
    rewrite filter_app. fold (kids_of (length epre) epre). fold (kids_of (length epre) epost).
    rewrite !kids_none; [by rewrite app_nil_r| |].
    - intros e Hin Hp. apply (Hpost e _ Hin) in Hp. lia.
    - intros e Hin Hp. apply list_elem_of_lookup in Hin as [i Hi]. pose proof (lookup_lt_Some _ _ _ Hi).
      assert (entries !! i = Some e) as Hi' by (rewrite Hent; by apply lookup_app_l_Some).
      apply (Hparents _ _ _ Hi') in Hp. lia. }
  apply subfields_depth in Hd.
  destruct (forest_stored n (length epre) IH (subfields t) (epre ++ [root]) erest epost) as (belows & Hlb & Hkids & Hbelow).
  { done. } { rewrite length_app. cbn. lia. } { rewrite Hent. by rewrite <- app_assoc. }
  { rewrite length_app, Nat.add_1_r. done. }
  { intros e p Hin Hp. pose proof (Hpost e p Hin Hp). rewrite length_app. cbn. lia. }
  exists belows. done.
Qed.
End stored.

(** A type name of a nested row is no leaf's type text. *)
Fixpoint spellings (s : str) : list str :=
  match s with
  | [] => [[]]
  | c :: s' => let rest := spellings s' in
      (cons c <$> rest) ++ (cons (chr (byte_val c - 32)) <$> rest)
  end.

Lemma lower_inv c d : is_ascii_lowercase d = true -> char_to_lower c = d -> c = d \/ c = chr (byte_val d - 32).
Proof. intros Hd <-. revert Hd. destruct c as [[] [] [] [] [] [] [] []]; vm_compute; auto. Qed.

Lemma spellings_lower s : forall name, forallb is_ascii_lowercase name = true ->
  to_ascii_lowercase s = name -> s ∈ spellings name.
Proof.
  induction s as [|c s IH]; intros [|d name] Hl H; try done; cbn in *; [by left|].
  apply andb_true_iff in Hl as [Hd Hl]. injection H as H1 H2. apply elem_of_app.
  destruct (lower_inv c d Hd H1) as [->| ->]; [left|right]; apply list_elem_of_fmap; exists s; split; try done; by apply IH.
Qed.

Definition nested_names : list str := [lit "list"; lit "struct"; lit "map"].

Lemma leaf_name s t : ducklake_to_arrow_type s = Ok t -> to_ascii_lowercase s ∉ nested_names.
Proof.
  intros H Hin.
  assert (s ∈ nested_names ≫= spellings) as Hs.
  { apply list_elem_of_bind. exists (to_ascii_lowercase s). split; [|done].
    apply spellings_lower; [|done]. revert Hin. unfold nested_names.
    rewrite !elem_of_cons, elem_of_nil. intros [->|[->|[->|[]]]]; done. }
  assert (forallb (fun s => negb (is_ok (ducklake_to_arrow_type s))) (nested_names ≫= spellings) = true) as Hall
    by (vm_compute; done).
  apply forallb_Forall in Hall. rewrite Forall_forall in Hall. apply Hall in Hs. by rewrite H in Hs.
Qed.

(** ** Rebuilding stored rows *)

Lemma index_children_ok (ids : gset Z) rows : forall k children pre all,
  all = pre ++ rows -> k = length pre ->
  (forall r p, r ∈ rows -> r.2 = Some p -> p ∈ ids) ->
  exists children', index_children ids k children rows = Ok children'
  /\ forall p, exists new, default [] (children' !! p) = default [] (children !! p) ++ new
     /\ Forall2 (fun i r => all !! i = Some r) new (filter (fun r => r.2 = Some p) rows).
Proof.
  induction rows as [|[c parent] rows IH]; intros k children pre all -> -> Hin; cbn [index_children].
  { exists children. split; [done|]. intros p. exists []. by rewrite app_nil_r. }
  assert (pre ++ (c, parent) :: rows = (pre ++ [(c, parent)]) ++ rows) as Hall by (by rewrite <- app_assoc).
  assert (S (length pre) = length (pre ++ [(c, parent)])) as Hl by (rewrite length_app; cbn; lia).
  destruct parent as [q|].
  - rewrite bool_decide_eq_true_2 by (apply (Hin (c, Some q) q); [by left|done]).
    destruct (IH _ (<[q:=default [] (children !! q) ++ [length pre]]> children) _ _ Hall Hl) as (children' & -> & Hc).
    { intros r p Hr. apply Hin. by right. }
    exists children'. split; [done|]. intros p. destruct (Hc p) as (new & Hnew & Hf).
    rewrite filter_cons. cbn [snd]. case_decide as Hp.
    + injection Hp as <-. rewrite lookup_insert_eq in Hnew. exists (length pre :: new). rewrite Hnew. cbn.
      rewrite <- app_assoc. split; [done|]. constructor; [|done]. rewrite lookup_app_r, Nat.sub_diag; done.
    + rewrite lookup_insert_ne in Hnew by congruence. eauto.
  - destruct (IH _ children _ _ Hall Hl) as (children' & -> & Hc).
    { intros r p Hr. apply Hin. by right. }
    exists children'. split; [done|]. intros p. rewrite filter_cons_False by done. apply Hc.
Qed.

Section build.
Context (rows : list ColumnRow) (children : gmap Z (list nat)) (rank : Z -> nat).
Hypothesis Hchildren : forall p, Forall2 (fun i r => rows !! i = Some r) (default [] (children !! p))
                                   (filter (fun r => r.2 = Some p) rows).
Hypothesis Hrank : forall r p, r ∈ rows -> r.2 = Some p -> (rank p < rank (tc_column_id r.1))%nat.

Definition build_fields (levels : nat) (visiting : list Z) :=
  fix build_fields (child_indices : list nat) : outcome (list Field) :=
    match child_indices with
    | [] => Returns (Ok [])
    | child_index :: rest =>
        let! child := or_panic (rows !! child_index) in
        let! field_type := build_type rows children levels visiting child_index in
        let! fields := build_fields rest in
        Returns (Ok ((tc_column_name child.1, field_type, tc_is_nullable child.1) :: fields))
    end.

Definition collect_children (levels : nat) :=
  fix collect_children (child_indices : list nat) (collected : list Z * gmap Z str)
    : outcome (list Z * gmap Z str) :=
    match child_indices with
    | [] => Returns (Ok collected)
    | child_index :: rest =>
        let! child := or_panic (rows !! child_index) in
        let defaults := match tc_initial_default child.1 with
                        | Some initial_default => <[tc_column_id child.1 := initial_default]> collected.2
                        | None => collected.2
                        end in
        let! collected := collect_ids rows children levels (tc_column_id child.1)
                            (collected.1 ++ [tc_column_id child.1], defaults) in
        collect_children rest collected
    end.

(** The type [build_type] makes of a nested row, from its children. *)
Definition rebuilt_of (t : DataType) (fields : list Field) : option DataType :=
  match t, fields with
  | (List _ | LargeList _ | FixedSizeList _ _), [(_, e, nullable)] => Some (List (lit "item", e, nullable))
  | Struct _, fields => Some (Struct fields)
  | Map _ _, [(_, k, _); (_, v, nullable)] =>
      Some (Map (lit "entries", Struct [(lit "key", k, false); (lit "value", v, nullable)], false) false)
  | _, _ => None
  end.

Definition is_nested (t : DataType) : bool :=
  match t with List _ | LargeList _ | FixedSizeList _ _ | Struct _ | Map _ _ => true | _ => false end.

Lemma rebuilt_nested n t t' : is_nested t = true -> rebuilt (S n) t = Ok t' ->
  exists fields, mapM_result (fun '(name, t, nullable) => let? t := rebuilt n t in Ok (name, t, nullable)) (subfields t)
    = Ok fields /\ rebuilt_of t fields = Some t'.
Proof.
  destruct t as [| | | | | | | | | | | | | | | | | | | | | | | | | | | | |[[? e] nullable]|[[? e] nullable]|[[? e] nullable] ?|fields|[[? e] ?] ?|];
    intros Hn H; try discriminate Hn; clear Hn; cbn [rebuilt subfields] in *.
  1-3: result_inv; cbn [mapM_result]; rewrite E; cbn; eauto.
  - result_inv. eauto.
  - destruct e as [| | | | | | | | | | | | | | | | | | | | | | | | | | | | | | | |[|[[? k] ?] [|[[? v] nullable] [|]]]| |]; try done.
    result_inv. cbn [mapM_result]. rewrite E, E0. cbn. eauto.
Qed.

Lemma build_type_nested levels visiting i row t fields t' :
  is_nested t = true -> rows !! i = Some row -> tc_column_id row.1 ∉ visiting -> tc_column_type row.1 = type_name t ->
  (length (subfields t) = length (default [] (children !! tc_column_id row.1)))%nat ->
  (forall j f, subfields t !! j = Some f -> exists kid k, default [] (children !! tc_column_id row.1) !! j = Some k
     /\ rows !! k = Some kid /\ tc_column_name kid.1 = f.1.1) ->
  build_fields levels (tc_column_id row.1 :: visiting) (default [] (children !! tc_column_id row.1)) = Returns (Ok fields) ->
  rebuilt_of t fields = Some t' ->
  build_type rows children (S levels) visiting i = Returns (Ok t').
Proof.
  intros Hn Hi Hv Htype Hlen Hkids Hb Hr. cbn [build_type]. rewrite Hi. cbn [or_panic outcome_bind].
  rewrite bool_decide_eq_false_2 by done. rewrite Htype. fold (build_fields levels (tc_column_id row.1 :: visiting)).
  revert Hlen Hkids Hb. generalize (default [] (children !! tc_column_id row.1)). intros kids Hlen Hkids Hb.
  destruct t as [| | | | | | | | | | | | | | | | | | | | | | | | | | | | |[[? e] nullable]|[[? e] nullable]|[[? e] nullable] ?|fs|[[? e] ?] ?|];
    try done; cbn [subfields] in *.
  1-3: destruct kids as [|k [|]]; try done; cbn [build_fields] in Hb |- *; 
    match goal with |- context [str_eqb ?a (lit "list")] => change (str_eqb a (lit "list")) with true end; cbn iota;
    destruct (rows !! k) as [kid|]; [|done]; cbn [or_panic outcome_bind] in *;
    destruct (build_type _ _ _ _ k) as [[ft|]|]; try done; cbn [outcome_bind] in *; injection Hb as <-; by injection Hr as <-.
  - change (str_eqb (to_ascii_lowercase (type_name (Struct fs))) "list") with false.
    change (str_eqb (to_ascii_lowercase (type_name (Struct fs))) "struct") with true. cbn iota.
    rewrite Hb. cbn [outcome_bind]. by injection Hr as <-.
  - change (str_eqb (to_ascii_lowercase (type_name (Map _ _))) "list") with false.
    change (str_eqb (to_ascii_lowercase (type_name (Map _ _))) "struct") with false.
    change (str_eqb (to_ascii_lowercase (type_name (Map _ _))) "map") with true. cbn iota.
    destruct e as [| | | | | | | | | | | | | | | | | | | | | | | | | | | | | | | |[|[[? k] ?] [|[[? v] nullable] [|]]]| |];
      destruct kids as [|ik [|iv [|]]]; try done; cbn [build_fields] in Hb; try (injection Hb as <-; done).
    destruct (Hkids 0%nat _ eq_refl) as (kid & ? & [= <-] & Hk & Hkn).
    destruct (Hkids 1%nat _ eq_refl) as (vid & ? & [= <-] & Hv' & Hvn).
    rewrite Hk, Hv' in *. cbn [or_panic outcome_bind fst snd] in *. rewrite Hkn, Hvn in *.
    change (str_eqb (lit "key") (lit "key")) with true. change (str_eqb (lit "value") (lit "value")) with true. cbn [negb orb].
    destruct (build_type _ _ _ _ ik) as [[kt|]|]; try done; cbn [outcome_bind] in *.
    destruct (build_type _ _ _ _ iv) as [[vt|]|]; try done; cbn [outcome_bind] in *.
    injection Hb as <-. by injection Hr as <-.
Qed.

Lemma rebuilt_leaf n t : is_nested t = false ->
  rebuilt (S n) t = let? text := arrow_to_ducklake_type t in ducklake_to_arrow_type text.
Proof. destruct t; intros Hn; try discriminate Hn; reflexivity. Qed.

Lemma type_name_leaf t text : is_nested t = false -> arrow_to_ducklake_type t = Ok text -> type_name t = text.
Proof.
  unfold type_name. intros Hn Ht.
  assert (catalog_type_name t = arrow_to_ducklake_type t) as -> by (destruct t; try discriminate Hn; reflexivity).
  by rewrite Ht.
Qed.

Lemma build_leaf levels visiting i row t t' n :
  is_nested t = false -> rows !! i = Some row -> tc_column_id row.1 ∉ visiting -> tc_column_type row.1 = type_name t ->
  default [] (children !! tc_column_id row.1) = [] -> rebuilt (S n) t = Ok t' ->
  build_type rows children (S levels) visiting i = Returns (Ok t').
Proof.
  intros Hn Hi Hv Htype Hkids Hr.
  assert (exists text, arrow_to_ducklake_type t = Ok text /\ ducklake_to_arrow_type text = Ok t') as (text & Ht & Hp).
  { rewrite rebuilt_leaf in Hr by done. result_inv. eauto. }
  rewrite (type_name_leaf t text Hn Ht) in Htype. cbn [build_type]. rewrite Hi. cbn [or_panic outcome_bind].
  rewrite bool_decide_eq_false_2, Hkids, Htype by done.
  apply leaf_name in Hp as Hl. unfold nested_names in Hl.
  rewrite !not_elem_of_cons in Hl. destruct Hl as (H1 & H2 & H3 & _). unfold str_eqb.
  rewrite !bool_decide_eq_false_2 by done. by rewrite Hp.
Qed.

(** The children of a row, built and collected one after another. *)
Lemma kids_build n levels visiting :
  (forall levels row t below t' i visiting, (n <= levels)%nat ->
     stored rows n row t below -> rebuilt n t = Ok t' -> rows !! i = Some row ->
     (forall v, v ∈ visiting -> (rank v < rank (tc_column_id row.1))%nat) ->
     build_type rows children levels visiting i = Returns (Ok t')
     /\ forall acc, collect_ids rows children levels (tc_column_id row.1) acc = Returns (Ok (acc.1 ++ below, acc.2))) ->
  (n <= levels)%nat ->
  forall indices kids, Forall2 (fun i r => rows !! i = Some r) indices kids ->
  (forall kid v, kid ∈ kids -> v ∈ visiting -> (rank v < rank (tc_column_id kid.1))%nat) ->
  forall fields belows fields',
  Forall2 (fun (kid : ColumnRow) '((name, t, nullable), b) =>
             tc_column_name kid.1 = name /\ tc_is_nullable kid.1 = nullable
             /\ tc_initial_default kid.1 = None /\ stored rows n kid t b) kids (zip fields belows) ->
  length belows = length fields ->
  mapM_result (fun '(name, t, nullable) => let? t := rebuilt n t in Ok (name, t, nullable)) fields = Ok fields' ->
  build_fields levels visiting indices = Returns (Ok fields')
  /\ forall acc, collect_children levels indices acc
     = Returns (Ok (acc.1 ++ concat (zip_with (fun (kid : ColumnRow) b => tc_column_id kid.1 :: b) kids belows), acc.2)).
Proof.
  intros IH Hn indices kids Hch. induction Hch as [|i kid indices kids Hi _ IHc]; intros Hv fields belows fields' Hk Hlb Hm.
  - apply Forall2_nil_inv_l in Hk. destruct fields as [|[[]]], belows; try done. simplify_eq/=.
    split; [done|]. intros [acc1 acc2]. cbn. by rewrite app_nil_r.
  - destruct fields as [|[[name t] nullable] fields], belows as [|b belows]; try done; [by apply Forall2_cons_nil_inv in Hk..|].
    apply Forall2_cons in Hk as [(Hname & Hnull & Hdef & Hst) Hk]. cbn [mapM_result] in Hm. result_inv.
    destruct (IH levels kid t b a1 i visiting Hn Hst E1 Hi) as [Hb Hc]; [intros v; apply Hv; by left|].
    destruct (IHc ltac:(intros kid' v Hk'; apply Hv; by right) fields belows a0 Hk) as [Hbs Hcs]; [done|done|].
    cbn [build_fields collect_children]. rewrite Hi. cbn [or_panic outcome_bind]. rewrite Hb. cbn [outcome_bind].
    fold (build_fields levels visiting). fold (collect_children levels). rewrite Hbs. split; [done|].
    intros [acc1 acc2]. rewrite Hdef, Hc. cbn [outcome_bind]. rewrite Hcs. cbn. by rewrite <- !app_assoc.
Qed.

(** A stored row is rebuilt, and its ids are collected in flattening order. *)
Lemma build_stored n : forall levels row t below t' i visiting, (n <= levels)%nat ->
  stored rows n row t below -> rebuilt n t = Ok t' -> rows !! i = Some row ->
  (forall v, v ∈ visiting -> (rank v < rank (tc_column_id row.1))%nat) ->
  build_type rows children levels visiting i = Returns (Ok t')
  /\ forall acc, collect_ids rows children levels (tc_column_id row.1) acc = Returns (Ok (acc.1 ++ below, acc.2)).
Proof.
  induction n as [|n IH]; intros levels row t below t' i visiting Hn Hst Hreb Hi Hvis; [done|].
  destruct levels as [|levels]; [lia|]. cbn [stored] in Hst.
  destruct Hst as (Htype & belows & Hkids & Hlb & ->). pose proof (Hchildren (tc_column_id row.1)) as Hch.
  assert (tc_column_id row.1 ∉ visiting) as Hnv by (intros Hin; apply Hvis in Hin; lia).
  assert (forall kid v, kid ∈ filter (fun r => r.2 = Some (tc_column_id row.1)) rows ->
            v ∈ tc_column_id row.1 :: visiting -> (rank v < rank (tc_column_id kid.1))%nat) as Hv.
  { intros kid v [Hkid Hin]%list_elem_of_filter. pose proof (Hrank _ _ Hin Hkid).
    intros [->|Hv]%elem_of_cons; [done|]. apply Hvis in Hv. lia. }
  cbn [collect_ids]. fold (collect_children levels).
  destruct (is_nested t) eqn:En.
  - destruct (rebuilt_nested n t t' En Hreb) as (fields & Hfields & Hof).
    destruct (kids_build n levels _ IH ltac:(lia) _ _ Hch Hv _ _ _ Hkids Hlb Hfields) as [Hb Hc].
    split; [|done]. apply (build_type_nested levels visiting i row t fields t'); try done.
    + apply Forall2_length in Hkids, Hch. rewrite length_zip in Hkids. lia.
    + intros j f Hf.
      assert (j < length (zip (subfields t) belows))%nat as [[f' b] Hz]%lookup_lt_is_Some
        by (rewrite length_zip; apply lookup_lt_Some in Hf; lia).
      destruct (Forall2_lookup_r _ _ _ _ _ Hkids Hz) as (kid & Hkid & Hprop).
      apply lookup_zip_with_Some in Hz as (? & ? & [= -> ->] & Hf' & _). rewrite Hf in Hf'. injection Hf' as <-.
      destruct f as [[name ft] fn]. destruct (Forall2_lookup_r _ _ _ _ _ Hch Hkid) as (k & Hk & Hrk).
      exists kid, k. destruct Hprop as (? & _). done.
  - assert (subfields t = []) as Hsub by (by destruct t). rewrite Hsub in Hkids, Hlb.
    destruct belows; [|done]. cbn in Hkids. apply Forall2_nil_inv_r in Hkids. rewrite Hkids in Hch |- *.
    apply Forall2_nil_inv_r in Hch. rewrite Hch. split.
    + by apply (build_leaf levels visiting i row t t' n).
    + intros [acc1 acc2]. cbn. by rewrite app_nil_r.
Qed.

End build.

Lemma print_fields_ok fields :
  Forall (fun f : Field => exists s, arrow_to_ducklake_type f.1.2 = Ok s) fields ->
  exists texts, mapM_result print_field fields = Ok texts.
Proof.
  induction 1 as [|[[name t] nullable] fields [s Hs] _ [texts Ht]]; [by exists []|].
  cbn [mapM_result print_field]. cbn in Hs. rewrite Hs. cbn [result_bind]. rewrite Ht. cbn. eauto.
Qed.

(** A rebuilt type has a type text. *)
Lemma rebuilt_prints n : forall t t', rebuilt n t = Ok t' -> exists s, arrow_to_ducklake_type t' = Ok s.
Proof.
  induction n as [|n IH]; intros t t' H; [done|].
  destruct (is_nested t) eqn:En.
  - destruct (rebuilt_nested n t t' En H) as (fields & Hf & Hof).
    assert (Forall (fun f : Field => exists s, arrow_to_ducklake_type f.1.2 = Ok s) fields) as Hall.
    { apply mapM_result_ok in Hf. apply Forall_forall. intros f Hin. apply list_elem_of_lookup in Hin as [i Hi].
      destruct (Forall2_lookup_r _ _ _ _ _ Hf Hi) as ([[name ft] nullable] & _ & Hr). result_inv. cbn. eauto. }
    destruct t as [| | | | | | | | | | | | | | | | | | | | | | | | | | | | | | | | | |]; try done; cbn in Hof.
    1-3: destruct fields as [|[[? e] ?] [|]]; try done; injection Hof as <-;
      apply Forall_cons in Hall as [[s Hs] _]; cbn in Hs |- *; rewrite Hs; cbn; eauto.
    + injection Hof as <-. rewrite print_struct. destruct (print_fields_ok _ Hall) as [texts ->]. cbn. eauto.
    + destruct fields as [|[[? k] ?] [|[[? v] ?] [|]]]; try done. injection Hof as <-.
      apply Forall_cons in Hall as [[s Hs] Hall]. apply Forall_cons in Hall as [[s' Hs'] _].
      cbn in Hs, Hs' |- *. rewrite Hs. cbn. rewrite Hs'. cbn. eauto.
  - rewrite rebuilt_leaf in H by done. result_inv. apply normalize_parsed in H as (s & _ & _ & Hs & _). by exists s.
Qed.

(** ** The rows of whole columns *)

(** Later columns do not point at earlier ones. *)
Lemma append_columns_later columns : forall defs defs', append_columns defs columns = Ok defs' ->
  exists rest, defs' = defs ++ rest
  /\ forall d p, d ∈ rest -> ccd_parent_index d = Some p -> (length defs <= p)%nat.
Proof.
  induction columns as [|c columns IH]; intros defs defs' H; cbn in H.
  - simplify_eq. exists []. rewrite app_nil_r. split; [done|]. intros d p Hd. by apply elem_of_nil in Hd.
  - result_inv. apply append_column_block in E as (block & plain & _ & -> & _ & (root & rest & -> & Hroot & Hrest)).
    apply IH in H as (later & -> & Hlater). exists ((root :: rest) ++ later). rewrite app_assoc. split; [done|].
    intros d p [[->|Hd]%elem_of_cons|Hd]%elem_of_app Hp; [congruence| |].
    + apply list_elem_of_lookup in Hd as [i Hi]. destruct (Hrest i d Hi) as (q & Hq & ?). simplify_eq. lia.
    + apply (Hlater d p Hd) in Hp. rewrite length_app in Hp. lia.
Qed.

Lemma append_column_flat n defs c defs' :
  (catalog_depth (cd_data_type c) <= n)%nat -> cd_catalog_nodes c = None -> append_column defs c = Ok defs' ->
  exists root rest, defs' = defs ++ root :: rest
  /\ Forall2 same_row (flat n (length defs) (cd_name c) (cd_data_type c) (cd_is_nullable c) None) (root :: rest)
  /\ ccd_initial_default root = cd_initial_default c
  /\ Forall (fun d => ccd_parent_index d <> None) rest.
Proof.
  intros Hd Hnodes H. unfold append_column in H. rewrite Hnodes in H. result_inv.
  apply (append_is_flat n _ Hd) in E as ->. destruct n as [|n]; [pose proof (depth_pos (cd_data_type c)); lia|].
  rewrite alter_app_r_alt by done. rewrite Nat.sub_diag. cbn [flat]. fold (forest n (length defs)).
  cbn [alter list_alter]. eexists _, _. split; [done|].
  assert (Forall (fun d => ccd_parent_index d <> None /\ ccd_initial_default d = None)
            (forest n (length defs) (S (length defs)) (subfields (cd_data_type c)))) as Hrest.
  { apply Forall_forall. intros d Hin. split.
    - apply list_elem_of_lookup in Hin as [i Hi].
      apply (forest_parents _ _ (flat_parents _)) in Hi as (p & Hp & _). congruence.
    - revert Hin. assert (forall m base name t nullable parent d,
        d ∈ flat m base name t nullable parent -> ccd_initial_default d = None) as Hflat.
      { clear. induction m as [|m IH]; intros base name t nullable parent d Hin; [by apply elem_of_nil in Hin|].
        cbn [flat] in Hin. fold (forest m base) in Hin. apply elem_of_cons in Hin as [->|Hin]; [done|].
        revert Hin. generalize (S base). induction (subfields t) as [|[[? ?] ?] fields IHf]; intros at_ Hin; [by apply elem_of_nil in Hin|].
        cbn [forest] in Hin. apply elem_of_app in Hin as [Hin|Hin]; [by eapply IH|by eapply IHf]. }
      generalize (S (length defs)). induction (subfields (cd_data_type c)) as [|[[? ?] ?] fields IHf]; intros at_ Hin; [by apply elem_of_nil in Hin|].
      cbn [forest] in Hin. apply elem_of_app in Hin as [Hin|Hin]; [by eapply Hflat|by eapply IHf]. }
  split_and!.
  - constructor; [done|]. apply Forall_Forall2_diag. eapply Forall_impl; [exact Hrest|]. intros d [? ?]. done.
  - done.
  - eapply Forall_impl; [exact Hrest|]. by intros d [? ?].
Qed.

Lemma filter_decision {A} (P : A -> Prop) (d d' : forall x, Decision (P x)) (l : list A) :
  @filter A (list A) _ P d l = @filter A (list A) _ P d' l.
Proof. by apply list_filter_iff. Qed.

Section rebuild_columns.
Context (entries : list (CatalogColumnDef * Z)) (rows : list ColumnRow).
Let ids := entries.*2.
Let row (e : CatalogColumnDef * Z) : ColumnRow := stored_row ids e.1 e.2.
Hypothesis Hids : NoDup ids.
Hypothesis Hparents : forall i e p, entries !! i = Some e -> ccd_parent_index e.1 = Some p -> (p < i)%nat.
Hypothesis Hperm : rows ≡ₚ row <$> entries.
Hypothesis Hrows : forall p, filter (fun r => r.2 = p) rows = filter (fun r => r.2 = p) (row <$> entries).

(** A column's root entry with the entries below it. *)
Definition block_of (n : nat) (c : ColumnDef) (b : (CatalogColumnDef * Z) * list (CatalogColumnDef * Z)) : Prop :=
  stored rows n (row b.1) (cd_data_type c) b.2.*2
  /\ ccd_name b.1.1 = cd_name c /\ ccd_is_nullable b.1.1 = cd_is_nullable c
  /\ ccd_initial_default b.1.1 = cd_initial_default c /\ ccd_parent_index b.1.1 = None
  /\ Forall (fun e => ccd_parent_index e.1 <> None) b.2.

Lemma columns_blocks n columns : forall epre erest,
  entries = epre ++ erest -> append_columns epre.*1 columns = Ok entries.*1 ->
  Forall (fun c => cd_catalog_nodes c = None /\ (catalog_depth (cd_data_type c) <= n)%nat) columns ->
  exists blocks, erest = concat ((fun b => b.1 :: b.2) <$> blocks) /\ Forall2 (block_of n) columns blocks.
Proof.
  induction columns as [|c columns IH]; intros epre erest Hent H Hall; cbn in H.
  - injection H as H. rewrite Hent, fmap_app in H. symmetry in H. rewrite <- (app_nil_r (epre.*1)) in H at 2.
    apply app_inv_head, fmap_nil_inv in H as ->. by exists [].
  - apply Forall_cons in Hall as [[Hnodes Hd] Hall]. result_inv.
    apply (append_column_flat n _ _ _ Hd Hnodes) in E as (root & rest & -> & Hflat & Hdef & Hnested).
    pose proof H as Hlater. apply append_columns_later in Hlater as (later & Hsplit & Hlater).
    rewrite Hent, fmap_app, <- app_assoc in Hsplit. apply app_inv_head in Hsplit. cbn [app] in Hsplit.
    change (root :: rest ++ later) with ((root :: rest) ++ later) in Hsplit.
    apply fmap_app_inv in Hsplit as (eblock & elater & Hblock & -> & ->).
    destruct eblock as [|eroot eblock]; [done|]. cbn in Hblock. injection Hblock as -> ->.
    destruct (IH (epre ++ eroot :: eblock) elater) as (blocks & -> & Hblocks).
    { by rewrite Hent, <- app_assoc. } { by rewrite fmap_app. } { done. }
    exists ((eroot, eblock) :: blocks). split; [done|]. constructor; [|done].
    assert (ccd_name eroot.1 = cd_name c /\ ccd_is_nullable eroot.1 = cd_is_nullable c
            /\ ccd_parent_index eroot.1 = None) as (? & ? & ?).
    { destruct n; [pose proof (depth_pos (cd_data_type c)); lia|].
      apply Forall2_cons in Hflat as [(? & ? & ? & ? & ?) _]. done. }
    split_and!; try done.
    + rewrite length_fmap in Hflat. eapply (flat_stored entries rows Hids Hparents Hrows n _ Hd); [exact Hent|exact Hflat|].
      intros e p Hin Hp. apply (list_elem_of_fmap_2 fst) in Hin. apply (Hlater _ _ Hin) in Hp.
      rewrite !length_app, !length_fmap in Hp. cbn in Hp. rewrite length_fmap in Hp. cbn. lia.
    + rewrite Forall_fmap in Hnested. exact Hnested.
Qed.

Lemma rebuild_roots_ok (all : list ColumnRow) children : forall l k pre result,
  all = pre ++ l -> k = length pre ->
  Forall2 (fun r c => forall i, all !! i = Some r -> rebuild_root all children i r.1 = Returns (Ok c))
    (filter (fun r => r.2 = None) l) result ->
  rebuild_roots all children k l = Returns (Ok result).
Proof.
  induction l as [|[c parent] l IH]; intros k pre result -> -> H; cbn [rebuild_roots].
  { by apply Forall2_nil_inv_l in H as ->. }
  assert (pre ++ (c, parent) :: l = (pre ++ [(c, parent)]) ++ l) as Hall by (by rewrite <- app_assoc).
  assert (S (length pre) = length (pre ++ [(c, parent)])) as Hl by (rewrite length_app; cbn; lia).
  specialize (IH _ _ result Hall Hl) as IH'. destruct parent as [p|].
  - rewrite filter_cons_False in H by done. by apply IH'.
  - rewrite filter_cons_True in H by done. apply Forall2_cons_inv_l in H as (root & roots & Hroot & H & ->).
    cbn [fst] in Hroot. rewrite Hroot by (rewrite lookup_app_r, Nat.sub_diag; done).
    cbn [outcome_bind]. by rewrite (IH _ _ roots Hall Hl).
Qed.

(** What a read makes of a root row. *)
Definition rebuilt_column (r : ColumnRow) (t : DataType) (below : list Z) : DuckLakeTableColumn :=
  {| tc_column_id := tc_column_id r.1; tc_column_name := tc_column_name r.1;
     tc_column_type := match reconstructed_column_type (tc_column_type r.1) t with Ok s => s | Err _ => [] end;
     tc_is_nullable := tc_is_nullable r.1; tc_data_type := Some t; tc_nested_column_ids := below;
     tc_nested_initial_defaults := ∅; tc_initial_default := tc_initial_default r.1;
     tc_default_value := tc_default_value r.1; tc_default_value_type := tc_default_value_type r.1;
     tc_default_value_dialect := tc_default_value_dialect r.1 |}.

Lemma rebuild_root_stored n children rank r t t' below i :
  (forall p, Forall2 (fun i r => rows !! i = Some r) (default [] (children !! p)) (filter (fun r => r.2 = Some p) rows)) ->
  (forall r p, r ∈ rows -> r.2 = Some p -> (rank p < rank (tc_column_id r.1))%nat) ->
  (n <= MAX_NESTED_TYPE_DEPTH)%nat -> stored rows n r t below -> rebuilt n t = Ok t' -> rows !! i = Some r ->
  tc_nested_column_ids r.1 = [] -> tc_nested_initial_defaults r.1 = ∅ ->
  rebuild_root rows children i r.1 = Returns (Ok (rebuilt_column r t' below)).
Proof.
  intros Hch Hrank Hn Hst Hreb Hi Hnone Hempty.
  destruct (build_stored rows children rank Hch Hrank n MAX_NESTED_TYPE_DEPTH r t below t' i [] Hn Hst Hreb Hi) as [Hb Hc].
  { intros v Hv. by apply elem_of_nil in Hv. }
  unfold rebuild_root, rebuilt_column. rewrite Hb. cbn [outcome_bind].
  assert (exists s, reconstructed_column_type (tc_column_type r.1) t' = Ok s) as [s Hs].
  { unfold reconstructed_column_type. case_if; [eauto|by eapply rebuilt_prints]. }
  rewrite Hs. cbn [outcome_bind]. rewrite Hc, Hnone, Hempty. done.
Qed.

Lemma sibling_parents r p : r ∈ rows -> r.2 = Some p ->
  exists i j e q, entries !! i = Some e /\ r = row e /\ entries !! j = Some q /\ q.2 = p /\ (j < i)%nat.
Proof.
  intros Hr Hp. rewrite Hperm in Hr. apply list_elem_of_fmap in Hr as (e & -> & He).
  apply list_elem_of_lookup in He as [i Hi]. cbn in Hp.
  destruct (ccd_parent_index e.1) as [j|] eqn:Ej; [|done]. cbn in Hp. unfold ids in Hp.
  rewrite list_lookup_fmap in Hp. apply fmap_Some in Hp as (q & Hq & ->). pose proof (Hparents _ _ _ Hi Ej). eauto 10.
Qed.

(** The position of an id, as a rank under which parents come first. *)
Definition rank_of (id : Z) : nat := default 0%nat (position (fun x => x =? id) ids).

Lemma rank_of_lookup i id : ids !! i = Some id -> rank_of id = i.
Proof.
  intros Hi. unfold rank_of. rewrite (proj2 (position_spec _ _ i)); [done|].
  exists id. split_and!; [done|lia|]. intros j y Hj Hy. apply Z.eqb_neq. intros ->.
  pose proof (NoDup_lookup _ _ _ _ Hids Hi Hy). lia.
Qed.

Lemma rank_parents r p : r ∈ rows -> r.2 = Some p -> (rank_of p < rank_of (tc_column_id r.1))%nat.
Proof.
  intros Hr Hp. destruct (sibling_parents r p Hr Hp) as (i & j & e & q & Hi & -> & Hj & <- & Hlt).
  rewrite (rank_of_lookup j), (rank_of_lookup i); [done| |]; unfold ids; rewrite list_lookup_fmap; by rewrite ?Hi, ?Hj.
Qed.

Lemma row_id_size : size (list_to_set (C := gset Z) ((fun r => tc_column_id r.1) <$> rows)) = length rows.
Proof.
  rewrite size_list_to_set; [by rewrite length_fmap|]. rewrite Hperm, <- list_fmap_compose.
  erewrite list_fmap_ext; [exact Hids|]. by intros i [d id] _.
Qed.

Lemma root_entry e : e ∈ entries -> (row e).2 = None <-> ccd_parent_index e.1 = None.
Proof.
  intros [i Hi]%list_elem_of_lookup. cbn. destruct (ccd_parent_index e.1) as [p|] eqn:Ep; [|done]. cbn.
  pose proof (Hparents _ _ _ Hi Ep). apply lookup_lt_Some in Hi. split; [|done]. intros Hn.
  apply lookup_ge_None in Hn. unfold ids in Hn. rewrite length_fmap in Hn. lia.
Qed.

Lemma block_roots n columns blocks :
  entries = concat ((fun b => b.1 :: b.2) <$> blocks) -> Forall2 (block_of n) columns blocks ->
  filter (fun r => r.2 = None) rows = (fun b => row b.1) <$> blocks.
Proof.
  intros Hent Hblocks.
  transitivity (filter (fun r : ColumnRow => r.2 = None) (row <$> entries)).
  { etrans; [|etrans; [apply (Hrows None)|]]; apply filter_decision. }
  assert (forall e, e ∈ concat ((fun b => b.1 :: b.2) <$> blocks) -> e ∈ entries) as Hin by (by rewrite <- Hent).
  rewrite Hent at 1. revert Hin. clear Hent.
  induction Hblocks as [|c b columns blocks (_ & _ & _ & _ & Hp & Hnest) _ IH]; intros Hin; [done|].
  cbn [fmap list_fmap concat app] in *. rewrite filter_cons_True by (apply root_entry; [apply Hin; by left|done]).
  f_equal. etrans; [apply (f_equal (filter _)), fmap_app|]. rewrite filter_app, IH.
  - rewrite filter_none; [done|]. intros r Hr. apply list_elem_of_fmap in Hr as (e & -> & He).
    rewrite Forall_forall in Hnest. intros Hr. apply root_entry in Hr; [by apply (Hnest e He)|].
    apply Hin. right. apply elem_of_app. by left.
  - intros e He. apply Hin. right. apply elem_of_app. by right.
Qed.

Lemma reconstruct_blocks n columns types blocks :
  (n <= MAX_NESTED_TYPE_DEPTH)%nat ->
  entries = concat ((fun b => b.1 :: b.2) <$> blocks) -> Forall2 (block_of n) columns blocks ->
  Forall2 (fun c t => rebuilt n (cd_data_type c) = Ok t) columns types ->
  reconstruct_columns rows
  = Returns (Ok (zip_with (fun b t => rebuilt_column (row b.1) t b.2.*2) blocks types)).
Proof.
  intros Hn Hent Hblocks Htypes. unfold reconstruct_columns. rewrite row_id_size, Nat.eqb_refl. cbn [negb].
  destruct (index_children_ok (list_to_set ((fun r => tc_column_id r.1) <$> rows)) rows 0 ∅ [] rows eq_refl eq_refl)
    as (children & -> & Hch).
  { intros r p Hr Hp. destruct (sibling_parents r p Hr Hp) as (_ & j & _ & q & _ & _ & Hj & <- & _).
    apply elem_of_list_to_set. rewrite Hperm, <- list_fmap_compose.
    apply list_elem_of_fmap. exists q. split; [by destruct q|]. by apply list_elem_of_lookup_2 in Hj. }
  cbn [outcome_bind].
  assert (forall p, Forall2 (fun i r => rows !! i = Some r) (default [] (children !! p)) (filter (fun r => r.2 = Some p) rows)) as Hch'.
  { intros p. destruct (Hch p) as (new & Hnew & Hf). rewrite lookup_empty in Hnew. cbn in Hnew. by rewrite Hnew. }
  assert (filter (fun r => r.2 = None) rows = (fun b => row b.1) <$> blocks) as Hroots.
  { by apply (block_roots n columns). }
  cbn [outcome_bind].
  set (result := zip_with (fun b t => rebuilt_column (row b.1) t b.2.*2) blocks types).
  assert (length types = length blocks) as Hlt.
  { apply Forall2_length in Hblocks, Htypes. congruence. }
  rewrite (rebuild_roots_ok rows children rows 0 [] result eq_refl eq_refl).
  - cbn [outcome_bind]. rewrite (proj2 (Nat.eqb_eq _ _)); [done|].
    rewrite Hperm, length_fmap, Hent. subst result. clear -Hlt. revert types Hlt.
    induction blocks as [|b blocks IH]; intros [|t types] Hlt; try done. cbn [zip_with fmap list_fmap concat].
    cbn [sum_list app length]. rewrite length_app. cbn in Hlt. injection Hlt as Hlt. rewrite <- (IH _ Hlt).
    cbn. by rewrite length_fmap.
  - rewrite Hroots. subst result. clear -Hblocks Htypes Hn Hch' Hparents Hperm Hids.
    revert types Htypes. induction Hblocks as [|c b columns blocks Hb _ IH]; intros types Htypes.
    + apply Forall2_nil_inv_l in Htypes as ->. constructor.
    + apply Forall2_cons_inv_l in Htypes as (t & types' & Ht & Htypes & ->). cbn [fmap list_fmap zip_with]. constructor; [|by apply IH].
      intros i Hi. destruct Hb as (Hst & _).
      by apply (rebuild_root_stored n children rank_of _ (cd_data_type c) t _ i Hch' rank_parents Hn Hst Ht Hi).
Qed.
End rebuild_columns.

(** ** Theorems *)


Definition sample_columns : list ColumnDef :=
  let col name t := {| cd_name := lit name; cd_ducklake_type := []; cd_is_nullable := true; cd_data_type := t;
    cd_initial_default := Some (lit "d"); cd_default_value := None; cd_default_value_type := None;
    cd_default_value_dialect := None; cd_catalog_nodes := None |} in
  [col "a" (Struct [(lit "x", LargeList (lit "e", Int32, false), true); (lit "y", Utf8, false)]); col "b" Int64].


(** C39. Ids follow paths: whatever order the catalog lists a committed schema's rows
    in, a proposed column at a path the schema has keeps its id, every other takes
    the id reserved for it, and no two columns share one. No lookup fails. *)
Theorem columns_keep_their_ids old_columns old_defs ids existing columns defs fresh :
  catalog_column_defs old_columns = Ok old_defs -> NoDup (column_paths old_defs) ->
  NoDup ids -> length old_defs = length ids -> existing ≡ₚ committed old_defs ids ->
  catalog_column_defs columns = Ok defs -> NoDup (column_paths defs) ->
  length defs = length fresh -> NoDup fresh -> (forall id, id ∈ fresh -> id ∉ ids) ->
  exists assigned, assign_column_ids defs existing fresh = Returns (Ok assigned)
  /\ length assigned = length defs /\ NoDup assigned
  /\ forall i path, column_paths defs !! i = Some path ->
     (forall j id, column_paths old_defs !! j = Some path -> ids !! j = Some id -> assigned !! i = Some id)
     /\ (path ∉ column_paths old_defs -> assigned !! i = fresh !! i).
Proof.
  intros Hold Hpaths Hids Hl Hex Hdefs Hnd Hfl Hfresh Hdisj.
  assert (well_formed_columns old_defs ids) as Hwf by (split; [by eapply flattened_parents|done..]).
  destruct (assign_by_path old_defs ids Hwf existing defs fresh Hex (flattened_parents _ _ Hdefs) Hnd Hfl)
    as (assigned & -> & Hal & Hspec).
  assert (forall i path, column_paths defs !! i = Some path ->
    exists x, assigned !! i = Some x
      /\ (path_map old_defs ids !! x = Some path \/ (fresh !! i = Some x /\ x ∈ fresh))) as Hcase.
  { intros i path Hi. assert (i < length fresh)%nat as [f Hf]%lookup_lt_is_Some
      by (rewrite <- Hfl, <- column_paths_length; by apply lookup_lt_Some in Hi).
    destruct (Hspec i path f Hi Hf) as [H1 H2].
    destruct (decide (path ∈ column_paths old_defs)) as [[j Hj]%list_elem_of_lookup|Hn].
    - assert (j < length ids)%nat as [id Hid]%lookup_lt_is_Some
        by (rewrite <- Hl, <- column_paths_length; by apply lookup_lt_Some in Hj).
      exists id. pose proof (path_map_lookup _ _ Hwf j id path Hid Hj). split; [by apply H1|by left].
    - exists f. split; [|right; split; [done|by apply list_elem_of_lookup_2 in Hf]].
      apply H2. intros id (j & _ & Hj)%path_map_inv. apply Hn. by apply list_elem_of_lookup_2 in Hj. }
  exists assigned. split_and!; [done|done| |].
  - apply NoDup_alt. intros i j x Hi Hj.
    assert (forall k y, assigned !! k = Some y -> exists path, column_paths defs !! k = Some path) as Hp.
    { intros k y Hk. apply lookup_lt_is_Some. rewrite column_paths_length, <- Hal. by apply lookup_lt_Some in Hk. }
    destruct (Hp i x Hi) as [pi Hpi], (Hp j x Hj) as [pj Hpj].
    destruct (Hcase i pi Hpi) as (? & ? & Hci), (Hcase j pj Hpj) as (? & ? & Hcj). simplify_eq.
    assert (forall path, path_map old_defs ids !! x = Some path -> x ∈ ids) as Hold'.
    { intros path Hx. apply (path_map_dom _ _ Hwf). eauto. }
    destruct Hci as [Hci|[Hci Hi']], Hcj as [Hcj|[Hcj Hj']].
    + simplify_eq. eapply NoDup_lookup; [exact Hnd|done|done].
    + destruct (Hdisj x Hj'). eauto.
    + destruct (Hdisj x Hi'). eauto.
    + eapply NoDup_lookup; [exact Hfresh|done|done].
  - intros i path Hi. split.
    + intros j id Hj Hid. destruct (Hcase i path Hi) as (x & Hx & _).
      assert (i < length fresh)%nat as [f Hf]%lookup_lt_is_Some
        by (rewrite <- Hfl, <- column_paths_length; by apply lookup_lt_Some in Hi).
      destruct (Hspec i path f Hi Hf) as [H1 _]. apply H1. by apply (path_map_lookup _ _ Hwf j).
    + intros Hn. destruct (Hcase i path Hi) as (x & Hx & [Hpm|[Hf _]]); [|congruence].
      apply path_map_inv in Hpm as (j & _ & Hj). destruct Hn. by apply list_elem_of_lookup_2 in Hj.
Qed.

Definition sample_defs : list CatalogColumnDef :=
  Eval vm_compute in match catalog_column_defs sample_columns with Ok defs => defs | Err _ => [] end.

Lemma columns_keep_their_ids_witness :
  exists assigned, assign_column_ids sample_defs (reverse (committed sample_defs [1; 4; 5; 2; 3])) [10; 11; 12; 13; 14]
                   = Returns (Ok assigned)
  /\ length assigned = length sample_defs /\ NoDup assigned
  /\ forall i path, column_paths sample_defs !! i = Some path ->
     (forall j id, column_paths sample_defs !! j = Some path -> [1; 4; 5; 2; 3] !! j = Some id -> assigned !! i = Some id)
     /\ (path ∉ column_paths sample_defs -> assigned !! i = [10; 11; 12; 13; 14] !! i).
Proof.
  apply (columns_keep_their_ids sample_columns sample_defs [1; 4; 5; 2; 3] _ sample_columns); try (by vm_compute).
  all: try (repeat (constructor; [rewrite ?elem_of_cons, ?elem_of_nil; lia|]); constructor).
  all: try (apply (bool_decide_unpack _); vm_compute; exact I).
  - apply reverse_Permutation.
  - intros id. rewrite !elem_of_cons, elem_of_nil. lia.
Defined.

(** Committing a schema again is no change: against its own live rows, in any
    order that keeps siblings in order, the flattened schema is given the ids it has
    (not one of the fresh ones) and does not differ, so such a write is never DDL
    and bumps no schema version. *)
Theorem resubmitted_schema_is_no_change columns defs ids existing nullability fresh :
  catalog_column_defs columns = Ok defs -> NoDup (column_paths defs) ->
  NoDup ids -> length defs = length ids -> length fresh = length defs ->
  length existing = length nullability ->
  zip existing nullability ≡ₚ zip (committed defs ids) (ccd_is_nullable <$> defs) ->
  (forall p, filter (fun c => ec_parent_column c = p) existing
             = filter (fun c => ec_parent_column c = p) (committed defs ids)) ->
  assign_column_ids defs existing fresh = Returns (Ok ids)
  /\ catalog_columns_differ existing nullability defs ids = Returns (Ok false).
Proof.
  intros Hdefs Hpaths Hids Hl Hf Hen Hrows Hsib.
  assert (well_formed_columns defs ids) as Hwf by (split; [by eapply flattened_parents|done..]).
  split.
  - apply resubmit_ids; [done| |done]. by eapply existing_committed.
  - by apply resubmit_unchanged.
Qed.

Lemma resubmitted_schema_is_no_change_witness :
  let rows := committed sample_defs [1; 4; 5; 2; 3] in
  let existing := take 1 rows ++ drop 4 rows ++ take 3 (drop 1 rows) in
  assign_column_ids sample_defs existing [10; 11; 12; 13; 14] = Returns (Ok [1; 4; 5; 2; 3])
  /\ catalog_columns_differ existing [true; true; true; false; false] sample_defs [1; 4; 5; 2; 3] = Returns (Ok false).
Proof.
  intros rows existing.
  apply (resubmitted_schema_is_no_change sample_columns); try (by vm_compute).
  - apply (bool_decide_unpack _). by vm_compute.
  - repeat (constructor; [rewrite ?elem_of_cons, ?elem_of_nil; lia|]). constructor.
  - cbn. constructor. apply (Permutation_app_comm [_] [_; _; _]).
  - intros p. subst existing rows. vm_compute committed. cbn.
    repeat (rewrite ?filter_cons; case_decide; try done); try congruence.
Defined.

(** The orders given to a proposed schema list every column's children as
    proposed, whatever the live orders and ids are: of two siblings the earlier has
    the smaller [column_order]. *)
Theorem proposed_orders_sort_siblings existing existing_orders proposed field_ids i j d d' o o' :
  length proposed = length field_ids -> (i < j)%nat ->
  proposed !! i = Some d -> proposed !! j = Some d' -> ccd_parent_index d = ccd_parent_index d' ->
  proposed_column_orders existing existing_orders proposed field_ids !! i = Some o ->
  proposed_column_orders existing existing_orders proposed field_ids !! j = Some o' ->
  o < o'.
Proof.
  intros Hl Hlt Hd Hd' Hp. unfold proposed_column_orders. case_if; intros Ho Ho'.
  - destruct (orders_increase_spec _ _ E) as [_ H]. apply (H i j d o d' o'); try done.
    + by apply lookup_zip_Some.
    + by apply lookup_zip_Some.
  - rewrite list_lookup_fmap in Ho, Ho'. apply fmap_Some in Ho as (x & Hx & ->), Ho' as (y & Hy & ->).
    apply lookup_seq in Hx as [-> _], Hy as [-> _]. lia.
Qed.

Lemma proposed_orders_sort_siblings_witness :
  proposed_column_orders (committed sample_defs [1; 4; 5; 2; 3]) [7; 8; 9; 10; 2] sample_defs [1; 4; 5; 2; 3]
    = [0; 1; 2; 3; 4] /\ 1 < 3.
Proof.
  split; [by vm_compute|].
  eapply (proposed_orders_sort_siblings (committed sample_defs [1; 4; 5; 2; 3]) [7; 8; 9; 10; 2] sample_defs [1; 4; 5; 2; 3] 1 3);
    first [by vm_compute | lia].
Defined.
