(* ===== verification/SortSpec.v ===== *)
(** * Sort orders: [sort.rs]

    The sort spec of a table as the catalog stores it: one expression, dialect,
    direction and null order per key. The crate writes bare columns, as DuckDB writes
    an identifier ([display_identifier] of [snapshot_changes.rs]); the columns of any
    other expression are found by the SQL parser of DataFusion, which is a parameter
    ([visit_columns]).

    Theorem: a spec of bare columns survives the catalog. *)

From S2P Require Import Prelude RustStd WriterTypes ChangeLedger.

(** ** Identifiers *)

Definition DUCKDB_KEYWORDS : str :=
  "abort absolute access action add admin after aggregate all also alter always analyse analyze and
anti any array as asc asof assertion assignment asymmetric at attach attribute authorization
backward before begin between bigint binary bit boolean both by cache call called cascade cascaded
case cast catalog centuries century chain char character characteristics check checkpoint class
close cluster coalesce collate collation column columns comment comments commit committed
compression concurrently configuration conflict connection constraint constraints content continue
conversion copy cost create cross csv cube current cursor cycle data database day days deallocate
dec decade decades decimal declare default defaults deferrable deferred definer delete delimiter
delimiters depends desc describe detach dictionary disable discard distinct do document domain
double drop each else enable encoding encrypted end enum error escape event except exclude excluding
exclusive execute exists explain export export_state extension extensions external extract false
family fetch filter first float following for force foreign forward freeze from full function
functions generated glob global grant granted group grouping grouping_id groups handler having
header hold hour hours identity if ignore ilike immediate immutable implicit import in include
including increment index indexes inherit inherits initially inline inner inout input insensitive
insert install instead int integer intersect interval into invoker is isnull isolation join json key
label lambda language large last lateral leading leakproof left level like limit listen load local
location lock locked logged macro map mapping match matched materialized maxvalue merge method
microsecond microseconds millennia millennium millisecond milliseconds minute minutes minvalue mode
month months move name names national natural nchar new next no none not nothing notify notnull
nowait null nullif nulls numeric object of off offset oids old on only operator option options or
order ordinality others out outer over overlaps overlay overriding owned owner parallel parser
partial partition partitioned passing password percent persistent pivot pivot_longer pivot_wider
placing plans policy position positional pragma preceding precision prepare prepared preserve
primary prior privileges procedural procedure program publication qualify quarter quarters quote
range read real reassign recheck recursive ref references referencing refresh reindex relative
release rename repeatable replace replica reset respect restart restrict returning returns revoke
right role rollback rollup row rows rule sample savepoint schema schemas scope scroll search second
seconds secret security select semi sequence sequences serializable server session set setof sets
share show similar simple skip smallint snapshot some sorted source sql stable standalone start
statement statistics stdin stdout storage stored strict strip struct subscription substring
summarize symmetric sysid system table tables tablesample tablespace target temp template temporary
text then ties time timestamp to trailing transaction transform treat trigger trim true truncate
trusted try_cast type types unbounded uncommitted unencrypted union unique unknown unlisten unlogged
unpack unpivot until update use user using vacuum valid validate validator value values varchar
variable variadic varying verbose version view views virtual volatile week weeks when where
whitespace window with within without work wrapper write xml xmlattributes xmlconcat xmlelement
xmlexists xmlforest xmlnamespaces xmlparse xmlpi xmlroot xmlserialize xmltable year years yes zone".

(** [str::split_whitespace] of that text, which holds blanks and line feeds. *)
Definition keywords : list str :=
  filter (fun word => word <> []) (split_on (fun c => char_eqb c " " || char_eqb c (chr 10)) DUCKDB_KEYWORDS).

Definition is_ident_byte (c : ascii) : bool := is_ascii_alphabetic c || char_eqb c "_".

(** [display_identifier]. *)
Definition display_identifier (name : str) : str :=
  let simple := match name with
                | [] => true
                | c :: rest => is_ident_byte c && forallb (fun d => is_ident_byte d || is_ascii_digit d) rest
                end in
  if simple && negb (existsb (fun keyword => eq_ignore_ascii_case keyword name) keywords) then name
  else [dquote] ++ replace_char dquote [dquote; dquote] name ++ [dquote].

(** [str::replace] of two double quotes. *)
Fixpoint replace_quotes (by_ : str) (s : str) : str :=
  match s with
  | [] => []
  | c :: s' =>
      match s' with
      | d :: s'' => if char_eqb c dquote && char_eqb d dquote then by_ ++ replace_quotes by_ s''
                    else c :: replace_quotes by_ s'
      | [] => [c]
      end
  end.

(** [parse_bare_column]. *)
Definition parse_bare_column (expr : str) : option str :=
  let trimmed := trim expr in
  if is_empty trimmed then None
  else
    match inner ← strip_prefix [dquote] trimmed; strip_suffix [dquote] inner with
    | Some (c :: inner') =>
        let inner := c :: inner' in
        if contains [dquote] (replace_quotes [] inner) then None
        else Some (replace_quotes [dquote] inner)
    | _ =>
        match trimmed with
        | [] => None
        | first :: _ =>
            if negb (is_ident_byte first) then None
            else if forallb (fun c => is_ascii_alphanumeric c || char_eqb c "_") trimmed then Some trimmed
            else None
        end
    end.

(** ** Specs *)

Inductive SortDirection := Asc | Desc.
Inductive NullOrder := NullsFirst | NullsLast.

(** [SortDirection::parse] and [SortDirection::to_catalog_string]. *)
Definition parse_direction (value : str) : SortDirection :=
  if eq_ignore_ascii_case (trim value) "DESC" then Desc else Asc.
Definition direction_string (d : SortDirection) : str := match d with Asc => "ASC" | Desc => "DESC" end.

(** [NullOrder::parse], [NullOrder::to_catalog_string] and [NullOrder::nulls_first]. *)
Definition parse_null_order (value : str) : NullOrder :=
  if eq_ignore_ascii_case (trim value) "NULLS_FIRST" then NullsFirst else NullsLast.
Definition null_order_string (o : NullOrder) : str :=
  match o with NullsFirst => "NULLS_FIRST" | NullsLast => "NULLS_LAST" end.
Definition nulls_first (o : NullOrder) : bool := match o with NullsFirst => true | NullsLast => false end.

Definition DUCKDB_DIALECT : str := "duckdb".

Record SortField := {
  sf_sort_key_index : Z;
  sf_expression : str;
  sf_dialect : str;
  sf_direction : SortDirection;
  sf_null_order : NullOrder;
}.

Record SortSpec := { so_sort_id : Z; so_fields : list SortField }.

(** [SortField::column]. *)
Definition SortField_column (index : Z) (column : str) (direction : SortDirection) (null_order : NullOrder)
  : SortField :=
  {| sf_sort_key_index := index; sf_expression := display_identifier column; sf_dialect := DUCKDB_DIALECT;
     sf_direction := direction; sf_null_order := null_order |}.

(** [SortField::column_candidate] and [SortField::is_duckdb_dialect]. *)
Definition column_candidate (field : SortField) : option str := parse_bare_column (sf_expression field).
Definition is_duckdb_dialect (field : SortField) : bool := str_eqb (sf_dialect field) DUCKDB_DIALECT.

(** [SortSpec::is_producible]. *)
Definition is_producible (spec : SortSpec) : bool :=
  negb (is_empty (so_fields spec))
  && forallb (fun field => bool_decide (is_Some (column_candidate field))) (so_fields spec).

(** [SortSpec::producible_columns]. *)
Definition producible_columns (spec : SortSpec) : option (list (str * SortDirection * NullOrder)) :=
  mapM (fun field => column ← column_candidate field; Some (column, sf_direction field, sf_null_order field))
    (filter (fun field => is_duckdb_dialect field = true) (so_fields spec)).

(** A catalog row of a sort key: the sort id, the key's index, its expression, dialect,
    direction and null order; and [SortSpec::from_rows]. *)
Definition SortRow : Type := Z * Z * str * str * str * str.
Definition sort_from_rows (rows : list SortRow) : option SortSpec :=
  match rows with
  | [] => None
  | (sort_id, _, _, _, _, _) :: _ =>
      Some {| so_sort_id := sort_id;
              so_fields := (fun '(_, index, expression, dialect, direction, null_order) =>
                {| sf_sort_key_index := index; sf_expression := expression; sf_dialect := dialect;
                   sf_direction := parse_direction direction;
                   sf_null_order := parse_null_order null_order |}) <$> rows |}
  end.

(** ** Keys and columns *)

(** The loop of [bind_sort_column]. *)
Fixpoint bind_loop (key : str) (index : nat) (names : list str) (folded : option nat) (ambiguous : bool)
  : result (option nat) :=
  match names with
  | [] =>
      if ambiguous
      then Err (InvalidConfig ("DuckLake sort key '" ++ key
                 ++ "' is ambiguous: several columns match it ignoring case"))
      else Ok folded
  | name :: rest =>
      if str_eqb name key then Ok (Some index)
      else if eq_ignore_ascii_case name key
      then bind_loop key (S index) rest (Some index) (ambiguous || bool_decide (is_Some folded))
      else bind_loop key (S index) rest folded ambiguous
  end.
Definition bind_sort_column (names : list str) (key : str) : result (option nat) :=
  bind_loop key 0 names None false.

(** [note_missing] and [missing_sort_columns]. *)
Definition note_missing (missing : list str) (name : str) : list str :=
  if existsb (str_eqb name) missing then missing else missing ++ [name].
Definition missing_sort_columns (missing : list str) : DuckLakeError :=
  InvalidConfig ("Columns in the SET SORTED BY statement were not found in the DuckLake table. Unmatched "
                 ++ "columns were: " ++ join ", " missing).

(** [check_sort_key_columns]. *)
Fixpoint check_keys (fields : list SortField) (names missing : list str) : result (list str) :=
  match fields with
  | [] => Ok missing
  | field :: rest =>
      let? column := ok_or (column_candidate field)
        (InvalidConfig ("set_sort_spec: sort key '" ++ sf_expression field
           ++ "' is not a bare column; only column sort keys are supported")) in
      let? bound := bind_sort_column names column in
      check_keys rest names (match bound with Some _ => missing | None => note_missing missing column end)
  end.
Definition check_sort_key_columns (fields : list SortField) (names : list str) : result unit :=
  let? missing := check_keys fields names [] in
  if is_empty missing then Ok tt else Err (missing_sort_columns missing).

(** The columns DataFusion's SQL parser finds in an expression, each with whether it is
    qualified; nothing when the expression does not parse. *)
Class SortParser := { visit_columns : str -> option (list (str * bool)) }.

Section parsed.
Context `{SortParser}.

(** [referenced_columns]. *)
Definition referenced_columns (sql : str) : option (list (str * bool)) :=
  match parse_bare_column sql with
  | Some column => Some [(column, false)]
  | None => visit_columns sql
  end.

(** [refuse_dropping_sort_columns]; [keys] are expressions and dialects. *)
Definition quoted (s : str) : str := [dquote] ++ s ++ [dquote].
Fixpoint refuse_keys (keys : list (str * str)) (first : str) (removed : list str) : result unit :=
  match keys with
  | [] => Ok tt
  | (expression, dialect) :: rest =>
      if negb (str_eqb dialect DUCKDB_DIALECT) then refuse_keys rest first removed
      else
        match referenced_columns expression with
        | None =>
            Err (InvalidConfig ("Cannot drop column " ++ quoted first
              ++ " - the table is sorted by the expression " ++ quoted expression
              ++ ", which could not be parsed to check the columns it uses. "
              ++ "Reset or change the sort order on this table in order to drop this column"))
        | Some columns =>
            match find_map (fun column =>
                    find_first (fun name => eq_ignore_ascii_case name column.1) removed) columns with
            | Some name =>
                Err (InvalidConfig ("Cannot drop column " ++ quoted name
                  ++ " - the table is sorted by this column. Reset "
                  ++ "or change the sort order on this table in order to drop this column"))
            | None => refuse_keys rest first removed
            end
        end
  end.
Definition refuse_dropping_sort_columns (keys : list (str * str)) (removed : list str) : result unit :=
  match removed with [] => Ok tt | first :: _ => refuse_keys keys first removed end.

(** [validate_sort_columns], over the schema's column names. *)
Fixpoint validate_references (names missing : list str) (columns : list (str * bool)) : result (list str) :=
  match columns with
  | [] => Ok missing
  | (column, qualified) :: rest =>
      if qualified : bool
      then Err (InvalidConfig
             "Unexpected qualified column reference - only unqualified columns are supported")
      else
        let? bound := bind_sort_column names column in
        validate_references names
          (match bound with Some _ => missing | None => note_missing missing column end) rest
  end.
Fixpoint validate_fields (names missing : list str) (fields : list SortField) : result (list str) :=
  match fields with
  | [] => Ok missing
  | field :: rest =>
      if is_duckdb_dialect field then
        let? missing := validate_references names missing (default [] (referenced_columns (sf_expression field))) in
        validate_fields names missing rest
      else validate_fields names missing rest
  end.
Definition validate_sort_columns (spec : SortSpec) (names : list str) : result unit :=
  let? missing := validate_fields names [] (so_fields spec) in
  if is_empty missing then Ok tt else Err (missing_sort_columns missing).
End parsed.

(** ** A bare column reads back *)

Lemma replace_quotes_doubled by_ name :
  replace_quotes by_ (replace_char dquote [dquote; dquote] name) = replace_char dquote by_ name.
Proof.
  induction name as [|c name IH]; [done|]. unfold replace_char in *. cbn [mbind list_bind].
  destruct (char_eqb c dquote) eqn:E; cbn [app].
  - simpl. by rewrite IH.
  - rewrite <- IH. destruct (name ≫= _) as [|d rest]; [done|].
    cbn [replace_quotes]. by rewrite E.
Qed.

Lemma replace_char_same name : replace_char dquote [dquote] name = name.
Proof.
  unfold replace_char. induction name as [|c name IH]; [done|]. cbn [mbind list_bind]. rewrite IH.
  destruct (char_eqb c dquote) eqn:E; [|done]. by apply char_eqb_eq in E as ->.
Qed.

Lemma replace_char_removed name : dquote ∉ replace_char dquote [] name.
Proof.
  unfold replace_char. induction name as [|c name IH]; [apply not_elem_of_nil|]. cbn [mbind list_bind].
  destruct (char_eqb c dquote) eqn:E; [done|]. apply char_eqb_neq in E. set_solver.
Qed.

Lemma ident_byte_plain c : is_ident_byte c || is_ascii_digit c = true -> plain_char c = true.
Proof.
  unfold is_ident_byte, is_ascii_alphabetic, is_ascii_uppercase, is_ascii_lowercase, is_ascii_digit,
    plain_char, char_eqb.
  intros H. breflect. destruct H as [H|H]; breflect; [destruct H as [H|H]|]; breflect.
  - destruct H; breflect; lia.
  - by subst.
  - lia.
Qed.

Lemma parse_quoted name :
  name <> [] -> parse_bare_column ([dquote] ++ replace_char dquote [dquote; dquote] name ++ [dquote]) = Some name.
Proof.
  intros Hne. unfold parse_bare_column. rewrite trim_plain.
  2: { by intros c r [= <- _]. }
  2: { intros c r Hr. rewrite app_assoc in Hr. by apply app_inj_tail in Hr as [_ <-]. }
  change (is_empty ([dquote] ++ _)) with false. cbv iota zeta.
  rewrite (proj2 (strip_prefix_spec [dquote] _ _) eq_refl). cbn [mbind option_bind].
  rewrite (proj2 (strip_suffix_spec [dquote] _ _) eq_refl).
  assert (Hd : replace_quotes [dquote] (replace_char dquote [dquote; dquote] name) = name).
  { by rewrite replace_quotes_doubled, replace_char_same. }
  assert (Hn : contains [dquote] (replace_quotes [] (replace_char dquote [dquote; dquote] name)) = false).
  { apply not_true_iff_false. rewrite contains_char, replace_quotes_doubled. apply replace_char_removed. }
  destruct (replace_char dquote [dquote; dquote] name) as [|c rest]; [by destruct name|].
  by rewrite Hn, Hd.
Qed.

Lemma parse_simple c rest :
  is_ident_byte c = true -> forallb (fun d => is_ident_byte d || is_ascii_digit d) rest = true ->
  parse_bare_column (c :: rest) = Some (c :: rest).
Proof.
  intros Hc Hrest. unfold parse_bare_column. rewrite trim_plain_all.
  - cbn [is_empty]. assert (strip_prefix [dquote] (c :: rest) = None) as ->.
    { cbn [strip_prefix]. case_if; [|done]. apply char_eqb_eq in E as <-. discriminate Hc. }
    cbn [mbind option_bind]. rewrite Hc. cbn [negb].
    rewrite (proj2 (forallb_Forall _ (c :: rest))); [done|].
    apply forallb_Forall in Hrest. unfold is_ident_byte, is_ascii_alphanumeric in *.
    constructor; [by rewrite <- orb_assoc, (orb_comm (is_ascii_digit c)), orb_assoc, Hc|].
    eapply Forall_impl; [exact Hrest|]. intros d Hd. simpl in Hd.
    by rewrite <- orb_assoc, (orb_comm (is_ascii_digit d)), orb_assoc.
  - apply forallb_Forall in Hrest. constructor; [apply ident_byte_plain; by rewrite Hc|].
    eapply Forall_impl; [exact Hrest|]. apply ident_byte_plain.
Qed.

Lemma displayed_column_parses name : name <> [] -> parse_bare_column (display_identifier name) = Some name.
Proof.
  intros Hne. unfold display_identifier. case_if; [|by apply parse_quoted].
  destruct name as [|c rest]; [done|]. breflect. by apply parse_simple.
Qed.

(** What [set_sort_spec] stores for a key, and the row the catalog returns for it. *)
Definition sort_row (sort_id : Z) (field : SortField) : SortRow :=
  (sort_id, sf_sort_key_index field, sf_expression field, sf_dialect field,
   direction_string (sf_direction field), null_order_string (sf_null_order field)).

(** A sort order survives the catalog: the rows a spec of columns is stored as read
    back as the same spec, and its keys name the same columns, with quotes, blanks
    and keywords in their names. *)
Theorem sort_specs_read_back sort_id (keys : list (str * SortDirection * NullOrder)) :
  keys <> [] -> Forall (fun key => key.1.1 <> []) keys ->
  let fields := imap (fun i key => SortField_column (Z.of_nat i) key.1.1 key.1.2 key.2) keys in
  let spec := {| so_sort_id := sort_id; so_fields := fields |} in
  sort_from_rows (sort_row sort_id <$> fields) = Some spec
  /\ is_producible spec = true /\ producible_columns spec = Some keys.
Proof.
  intros Hne Hkeys fields spec.
  assert (Hfields : Forall2 (fun field key => column_candidate field = Some key.1.1
    /\ is_duckdb_dialect field = true /\ sf_direction field = key.1.2 /\ sf_null_order field = key.2) fields keys).
  { unfold fields. apply Forall2_same_length_lookup. rewrite length_imap. split; [done|].
    intros i field key Hf Hk. rewrite list_lookup_imap, Hk in Hf. injection Hf as <-.
    split; [|done]. apply displayed_column_parses. by eapply Forall_lookup_1 in Hkeys. }
  assert (Hne' : fields <> []) by (unfold fields; by destruct keys).
  split; [|split].
  - assert (Hback : (fun '(_, index, expression, dialect, direction, null_order) =>
      {| sf_sort_key_index := index; sf_expression := expression; sf_dialect := dialect;
         sf_direction := parse_direction direction; sf_null_order := parse_null_order null_order |})
      <$> (sort_row sort_id <$> fields) = fields).
    { rewrite <- list_fmap_compose. rewrite <- (list_fmap_id fields) at 2. apply list_fmap_ext.
      intros _ [index expression dialect d o] _. simpl. by destruct d, o. }
    unfold sort_from_rows. destruct fields as [|f fs] eqn:E; [done|]. cbn [fmap list_fmap] in *.
    unfold sort_row at 1. unfold spec. f_equal. f_equal. exact Hback.
  - unfold is_producible, spec. simpl. destruct fields eqn:E; [done|]. simpl negb. rewrite <- E in *. simpl.
    apply forallb_Forall. clear -Hfields. induction Hfields as [|f k fs ks (H & _)]; constructor; [|done].
    apply bool_decide_eq_true. by rewrite H.
  - unfold producible_columns, spec. simpl. clear -Hfields.
    induction Hfields as [|f [[c d] o] fs ks (Hc & Hd & H1 & H2) _ IH]; [done|].
    rewrite filter_cons_True by done. cbn [mapM]. rewrite Hc. simpl. simpl in *. subst.
    fold (is_duckdb_dialect). rewrite IH. done.
Qed.

Lemma sort_specs_read_back_witness :
  producible_columns {| so_sort_id := 7;
    so_fields := [SortField_column 0 "year" Desc NullsFirst; SortField_column 1 "a b" Asc NullsLast] |}
  = Some [("year" : str, Desc, NullsFirst); ("a b" : str, Asc, NullsLast)].
Proof.
  apply (sort_specs_read_back 7 [("year" : str, Desc, NullsFirst); ("a b" : str, Asc, NullsLast)]);
    [done|by repeat constructor].
Defined.

(** ** Dropping columns *)

(** A drop of columns is refused by a key that may use one of them. *)
Definition key_uses `{SortParser} (removed : list str) (key : str * str) : Prop :=
  key.2 = DUCKDB_DIALECT
  /\ match referenced_columns key.1 with
     | None => True
     | Some columns => exists column name, column ∈ columns /\ name ∈ removed
                       /\ eq_ignore_ascii_case name column.1 = true
     end.

(** A sort key protects its columns: a drop is refused exactly when some key of the
    live order may use one of the dropped columns, a key that does not parse using
    any; keys of other dialects refuse nothing. *)
Theorem dropping_sort_columns_exact `{SortParser} keys removed :
  removed <> [] ->
  refuse_dropping_sort_columns keys removed = Ok tt <-> Forall (fun key => ~ key_uses removed key) keys.
Proof.
  destruct removed as [|first removed']; [done|]. intros _. unfold refuse_dropping_sort_columns.
  generalize (first :: removed'). intros removed.
  induction keys as [|[expression dialect] keys IH]; [done|]. cbn [refuse_keys].
  rewrite Forall_cons, <- IH. unfold key_uses at 1. cbn [fst snd].
  unfold str_eqb. case_bool_decide as Hd; cbn [negb]; [|naive_solver].
  destruct (referenced_columns expression) as [columns|]; [|naive_solver].
  destruct (find_map _ columns) as [name|] eqn:E.
  - split; [done|]. intros [Hn _]. exfalso. apply Hn. split; [done|].
    assert (is_Some (find_map (fun column => find_first (fun name => eq_ignore_ascii_case name column.1) removed)
      columns)) as (column & Hc & [x Hf])%find_map_is_some%Exists_exists by (rewrite E; eauto).
    apply find_first_some in Hf as [Hin Heq]. eauto.
  - split; [|tauto]. intros Hk. split; [|done]. intros (_ & column & name & Hc & Hin & Heq).
    apply find_map_none in E. rewrite Forall_forall in E. specialize (E column Hc). simpl in E.
    apply find_first_none in E. rewrite Forall_forall in E. specialize (E name Hin). simpl in E. congruence.
Qed.

#[local] Instance sample_parser : SortParser := {| visit_columns := fun _ => None |}.
Lemma dropping_sort_columns_exact_witness :
  refuse_dropping_sort_columns [("ts" : str, "duckdb" : str); ("f(x)" : str, "spark" : str)] ["b" : str] = Ok tt.
Proof.
  apply (dropping_sort_columns_exact [("ts" : str, "duckdb" : str); ("f(x)" : str, "spark" : str)] ["b" : str]);
    [done|].
  repeat constructor; intros [Hd Hu]; [|discriminate Hd].
  vm_compute in Hu. destruct Hu as (column & name & Hc & Hn & He).
  apply list_elem_of_singleton in Hc as ->. apply list_elem_of_singleton in Hn as ->. discriminate He.
Defined.
