(* ===== verification/InlinedTypes.v ===== *)
(** * The types of inlined columns: [nested_inline.rs]

    Which Arrow types a column kept in the catalog may have, and the DuckDB type it is
    declared with ([inlined_duckdb_type] of [metadata_writer_duckdb.rs]). Recursion
    is on the nesting levels left, [MAX_NESTED_TYPE_DEPTH + 1] at the top as in the
    source.

    Theorem: the types accepted are those with a DuckDB name. *)

From S2P Require Import Prelude RustStd Arrow WriterTypes Types ChangeLedger.

(** [scalar_type_supports_inlining]. *)
Definition scalar_type_supports_inlining (data_type : DataType) : bool :=
  match data_type with
  | Null | Boolean | Int8 | Int16 | Int32 | Int64 | UInt8 | UInt16 | UInt32 | UInt64
  | Float32 | Float64 | Decimal128 _ _ | Date32 | Time64 Microsecond | Timestamp _ _
  | Interval MonthDayNano | Utf8 | LargeUtf8 | Utf8View | Binary | LargeBinary | BinaryView
  | FixedSizeBinary _ => true
  | _ => false
  end.

(** [type_supports_inlining_at_depth]. *)
Fixpoint type_supports_at (levels : nat) (data_type : DataType) : bool :=
  match levels with
  | O => false
  | S levels =>
      match data_type with
      | List field | LargeList field | FixedSizeList field _ => type_supports_at levels (field_type field)
      | Struct fields => forallb (fun field => type_supports_at levels (field_type field)) fields
      | Map entries _ =>
          match field_type entries with
          | Struct [key; value] =>
              type_supports_at levels (field_type key) && type_supports_at levels (field_type value)
          | _ => false
          end
      | _ => scalar_type_supports_inlining data_type
      end
  end.

(** [type_supports_inlining], which is also [duckdb_type_inlines]. *)
Definition type_supports_inlining : DataType -> bool := type_supports_at (S MAX_NESTED_TYPE_DEPTH).
Definition duckdb_type_inlines : DataType -> bool := type_supports_inlining.

(** [quote_ident]. *)
Definition quote_ident (name : str) : str :=
  [dquote] ++ replace_char dquote [dquote; dquote] name ++ [dquote].

(** The scalar names of [duckdb_type_name_at_depth]. *)
Definition duckdb_scalar_name (data_type : DataType) : option str :=
  match data_type with
  | Null => Some (lit "VARCHAR")
  | Boolean => Some (lit "BOOLEAN")
  | Int8 => Some (lit "TINYINT")
  | Int16 => Some (lit "SMALLINT")
  | Int32 => Some (lit "INTEGER")
  | Int64 => Some (lit "BIGINT")
  | UInt8 => Some (lit "UTINYINT")
  | UInt16 => Some (lit "USMALLINT")
  | UInt32 => Some (lit "UINTEGER")
  | UInt64 => Some (lit "UBIGINT")
  | Float32 => Some (lit "FLOAT")
  | Float64 => Some (lit "DOUBLE")
  | Date32 => Some (lit "DATE")
  | Time64 Microsecond => Some (lit "TIME")
  | Timestamp Second _ => Some (lit "TIMESTAMP_S")
  | Timestamp Millisecond _ => Some (lit "TIMESTAMP_MS")
  | Timestamp Microsecond _ => Some (lit "TIMESTAMP")
  | Timestamp Nanosecond _ => Some (lit "TIMESTAMP_NS")
  | Interval MonthDayNano => Some (lit "INTERVAL")
  | Utf8 | LargeUtf8 | Utf8View => Some (lit "VARCHAR")
  | Binary | LargeBinary | BinaryView | FixedSizeBinary _ => Some (lit "BLOB")
  | Decimal128 precision scale => Some ("DECIMAL(" ++ show_Z precision ++ ", " ++ show_Z scale ++ ")")
  | _ => None
  end.

(** [duckdb_type_name_at_depth]. *)
Fixpoint duckdb_type_name_at (levels : nat) (data_type : DataType) : option str :=
  match levels with
  | O => None
  | S levels =>
      match data_type with
      | List field | LargeList field | FixedSizeList field _ =>
          name ← duckdb_type_name_at levels (field_type field); Some (name ++ "[]")
      | Struct fields =>
          children ← mapM (fun field =>
            name ← duckdb_type_name_at levels (field_type field);
            Some (quote_ident (field_name field) ++ " " ++ name)) fields;
          Some ("STRUCT(" ++ join ", " children ++ ")")
      | Map entries _ =>
          match field_type entries with
          | Struct [key; value] =>
              key ← duckdb_type_name_at levels (field_type key);
              value ← duckdb_type_name_at levels (field_type value);
              Some ("MAP(" ++ key ++ ", " ++ value ++ ")")
          | _ => None
          end
      | _ => duckdb_scalar_name data_type
      end
  end.
Definition duckdb_type_name : DataType -> option str := duckdb_type_name_at (S MAX_NESTED_TYPE_DEPTH).

(** The declared names of [inlined_duckdb_type] that the Arrow type does not say. *)
Definition declared_names : list (str * str) :=
  [("json" : str, "JSON" : str); ("uuid" : str, "UUID" : str); ("timetz" : str, "TIMETZ" : str);
   ("time with time zone" : str, "TIMETZ" : str); ("geometry" : str, "GEOMETRY" : str);
   ("point" : str, "POINT" : str); ("linestring" : str, "LINESTRING" : str); ("polygon" : str, "POLYGON" : str);
   ("multipoint" : str, "MULTIPOINT" : str); ("multilinestring" : str, "MULTILINESTRING" : str);
   ("multipolygon" : str, "MULTIPOLYGON" : str); ("geometrycollection" : str, "GEOMETRYCOLLECTION" : str);
   ("linestring z" : str, "LINESTRING Z" : str)].

(** [inlined_duckdb_type]; the message does not repeat the Arrow type. *)
Definition inlined_duckdb_type (data_type : DataType) (ducklake_type : str) : result str :=
  let? _ := if is_empty ducklake_type then Ok Null else ducklake_to_arrow_type ducklake_type in
  match find_first (fun entry => str_eqb entry.1 (to_ascii_lowercase (trim ducklake_type))) declared_names with
  | Some (_, declared) => Ok declared
  | None => ok_or (duckdb_type_name data_type)
              (UnsupportedType ("no DuckDB type for an inlined column of DuckLake type '" ++ ducklake_type ++ "'"))
  end.

(** ** Accepted types have names *)

Ltac some_cases :=
  simpl; split; intros; repeat match goal with
    | H : is_Some None |- _ => by destruct H
    | H : _ /\ _ |- _ => destruct H
    end; try done; try (by eexists).

Lemma scalar_names dt : scalar_type_supports_inlining dt = true <-> is_Some (duckdb_scalar_name dt).
Proof. destruct dt; simpl; repeat case_match; some_cases. Qed.

Lemma forallb_mapM {A B} (p : A -> bool) (f : A -> option B) l :
  (forall a, p a = true <-> is_Some (f a)) -> forallb p l = true <-> is_Some (mapM f l).
Proof. intros Hpf. rewrite mapM_is_Some, forallb_Forall. apply Forall_iff. done. Qed.

Lemma supported_names levels : forall dt,
  type_supports_at levels dt = true <-> is_Some (duckdb_type_name_at levels dt).
Proof.
  induction levels as [|levels IH]; intros dt; [some_cases|].
  assert (Hone : forall (o : option str) g, is_Some (name ← o; Some (g name : str)) <-> is_Some o).
  { intros [name|] g; simpl; some_cases. }
  destruct dt; cbn [type_supports_at duckdb_type_name_at]; try apply scalar_names; try by rewrite Hone.
  - rewrite (forallb_mapM _ (fun field => name ← duckdb_type_name_at levels (field_type field);
      Some (quote_ident (field_name field) ++ " " ++ name))).
    + destruct (mapM _ fields); simpl; some_cases.
    + intros field. by rewrite Hone.
  - destruct (field_type entries); try (some_cases; fail).
    destruct fields as [|key [|value [|? ?]]]; try (some_cases; fail).
    rewrite andb_true_iff, !IH.
    destruct (duckdb_type_name_at levels (field_type key)), (duckdb_type_name_at levels (field_type value));
      simpl; some_cases.
Qed.

(** An inlined column can be declared: the Arrow types the writer accepts for
    inlining are exactly those with a DuckDB type name, at every nesting. *)
Theorem inlinable_types_have_names dt :
  duckdb_type_inlines dt = true <-> is_Some (duckdb_type_name dt).
Proof. apply supported_names. Qed.
