(* ===== verification/CatalogDb.v ===== *)
(** * The catalog database

    The tables of a DuckLake catalog as [SQL_CREATE_SCHEMA] of
    [metadata_writer_duckdb.rs] declares them, one record per row and one field of
    [Db] per table, and the statements the writer runs against them.

    A table whose rows carry [begin_snapshot] and [end_snapshot] is a list of
    [versioned] rows: a row is visible from its begin up to its end, for ever while
    the end is [NULL]. The generated UUIDs are left out: nothing reads them. Rows are
    in insertion order; a query without [ORDER BY] lists them so, and an [ORDER BY]
    keeps that order among equal keys. [Cell], [batch_schema] and the conversions of
    Arrow values are an interface ([InlineValues]): the database stores what the
    conversion returns and reads it back.

    A transaction is a function of the database that returns a value and the
    database it leaves, an error, or a panic ([Tx]); an error or a panic leaves
    nothing behind, and [commits] says whether a returning call committed. [bigint]
    is SQL arithmetic, which fails past 64 bits, and [rust_i64] Rust arithmetic, which
    panics there in a checked build. *)

From S2P Require Import Prelude RustStd Arrow WriterTypes StatsOrder StatsRollup DuckdbCast ChangeLedger WriterChecks.

(** ** Versioned rows *)

Record versioned (A : Type) := {
  v_begin : Z;
  v_end : option Z;
  v_row : A;
}.
Arguments v_begin {A} v.
Arguments v_end {A} v.
Arguments v_row {A} v.

(** [end_snapshot IS NULL]. *)
Definition live {A} (v : versioned A) : bool := bool_decide (v_end v = None).

(** [begin_snapshot <= t AND (end_snapshot IS NULL OR t < end_snapshot)]. *)
Definition visible {A} (t : Z) (v : versioned A) : bool :=
  (v_begin v <=? t) && match v_end v with Some e => t <? e | None => true end.

(** A new row, as an [INSERT] that gives no [end_snapshot] makes it. *)
Definition born {A} (s : Z) (a : A) : versioned A := {| v_begin := s; v_end := None; v_row := a |}.

(** [SET end_snapshot = s] and [SET begin_snapshot = s]. *)
Definition ended {A} (s : Z) (v : versioned A) : versioned A :=
  {| v_begin := v_begin v; v_end := Some s; v_row := v_row v |}.
Definition rebegun {A} (s : Z) (v : versioned A) : versioned A :=
  {| v_begin := s; v_end := v_end v; v_row := v_row v |}.
Definition with_row {A} (f : A -> A) (v : versioned A) : versioned A :=
  {| v_begin := v_begin v; v_end := v_end v; v_row := f (v_row v) |}.

(** ** The tables *)

Record MetadataRow := {
  m_key : str;
  m_value : str;
  m_scope : option str;
  m_scope_id : option Z;
}.

Record SnapshotRow := {
  s_id : Z;
  s_time : Z;
  s_schema_version : Z;
  s_next_catalog_id : option Z;
  s_next_file_id : option Z;
}.

Record ChangesRow := {
  c_snapshot_id : Z;
  c_changes_made : option str;
  c_author : option str;
  c_commit_message : option str;
  c_commit_extra_info : option str;
}.

Record SchemaVersionRow := { sv_begin : Z; sv_version : Z; sv_table_id : Z }.

Record SchemaRow := {
  sch_id : Z;
  sch_name : str;
  sch_path : str;
  sch_path_is_relative : bool;
}.

Record TableRow := {
  tb_id : Z;
  tb_schema_id : Z;
  tb_name : str;
  tb_path : str;
  tb_path_is_relative : bool;
}.

Record CatalogColumn := {
  co_id : Z;
  co_table_id : Z;
  co_order : Z;
  co_name : str;
  co_type : str;
  co_initial_default : option str;
  co_default_value : option str;
  co_nulls_allowed : option bool;
  co_parent : option Z;
  co_default_value_type : option str;
  co_default_value_dialect : option str;
}.

Record DataFileRow := {
  d_id : Z;
  d_table_id : Z;
  d_path : str;
  d_path_is_relative : bool;
  d_record_count : Z;
  d_file_size_bytes : Z;
  d_footer_size : option Z;
  d_row_id_start : option Z;
  d_partition_id : option Z;
  d_partial_max : option Z;
}.

Record DeleteFileRow := {
  x_id : Z;
  x_table_id : Z;
  x_data_file_id : Z;
  x_path : str;
  x_path_is_relative : bool;
  x_delete_count : Z;
  x_file_size_bytes : Z;
  x_footer_size : option Z;
  x_partial_max : option Z;
}.

Record TableStatsRow := {
  ts_table_id : Z;
  ts_record_count : Z;
  ts_next_row_id : Z;
  ts_file_size_bytes : Z;
}.

Record TableColumnStatRow := {
  tcs_table_id : Z;
  tcs_stat : GlobalColumnStat;
  tcs_extra_stats : option str;
}.

Record FileStatRow := {
  fs_data_file_id : Z;
  fs_table_id : Z;
  fs_stat : ColumnStat;
}.

Record PartitionInfoRow := { pi_id : Z; pi_table_id : Z }.

Record PartitionColumnRow := {
  pc_partition_id : Z;
  pc_table_id : Z;
  pc_key_index : Z;
  pc_column_id : Z;
  pc_transform : str;
}.

Record FilePartitionValueRow := {
  pv_data_file_id : Z;
  pv_table_id : Z;
  pv_key_index : Z;
  pv_value : option str;
}.

Record SortInfoRow := { si_id : Z; si_table_id : Z }.

Record SortExpressionRow := {
  sx_sort_id : Z;
  sx_table_id : Z;
  sx_key_index : Z;
  sx_expression : str;
  sx_dialect : str;
  sx_direction : str;
  sx_null_order : str;
}.

Record RegistryRow := { r_table_id : Z; r_table_name : str; r_schema_version : Z }.

Record InlinedDeleteRow := {
  i_file_id : Z;
  i_row_id : option Z;
  i_begin_snapshot : option Z;
}.

Record ScheduledRow := {
  sd_file_id : Z;
  sd_path : str;
  sd_path_is_relative : bool;
  sd_schedule_start : Z;
}.

(** A sequence of an older release, with its [start_value] and [last_value]. *)
Record SequenceRow := { q_name : str; q_start : Z; q_last : option Z }.

(** What the writer does with Arrow values it stores inline: the batch's schema,
    whether a value is [NULL], the stored form of a value and of a snapshot id cast to
    a column's type, and the statistics of the batches' leaves. *)
Class InlineValues `{RecordBatches} := {
  Cell : Type;
  batch_schema : RecordBatch -> list Field;
  value_is_null : RecordBatch -> nat -> nat -> bool;
  encode_duckdb_value : RecordBatch -> nat -> nat -> str -> result Cell;
  snapshot_cell : str -> Z -> Cell;
  inlined_column_stats : list RecordBatch -> list (Z * str) -> (nat -> option Z) -> result (list InlinedColumnStat);
}.

Section database.
Context `{InlineValues}.

Record InlinedRow := { n_row_id : Z; n_cells : list Cell }.

(** A physical [ducklake_inlined_data_*] table: its column names, the three system
    columns first, and its rows. *)
Record InlinedTable := {
  p_columns : list str;
  p_rows : list (versioned InlinedRow);
}.

Record Db := MkDb {
  t_metadata : list MetadataRow;
  t_snapshots : list SnapshotRow;
  t_snapshot_changes : list ChangesRow;
  t_schema_versions : list SchemaVersionRow;
  t_schemas : list (versioned SchemaRow);
  t_tables : list (versioned TableRow);
  t_columns : list (versioned CatalogColumn);
  t_data_files : list (versioned DataFileRow);
  t_delete_files : list (versioned DeleteFileRow);
  t_table_stats : list TableStatsRow;
  t_table_column_stats : list TableColumnStatRow;
  t_file_stats : list FileStatRow;
  t_partition_info : list (versioned PartitionInfoRow);
  t_partition_columns : list PartitionColumnRow;
  t_file_partition_values : list FilePartitionValueRow;
  t_sort_info : list (versioned SortInfoRow);
  t_sort_expressions : list SortExpressionRow;
  t_registry : list RegistryRow;
  t_inlined_data : gmap str InlinedTable;
  t_inlined_deletes : gmap str (list InlinedDeleteRow);
  t_scheduled : list ScheduledRow;
  t_view_ids : list Z;
  t_macro_ids : list Z;
  t_sequences : list SequenceRow;
  t_indexes : gset str;
  t_clock : Z;
}.

(** One statement changes one table; [on_t f] is that change of table [t]. *)
Definition on_metadata (f : list MetadataRow -> list MetadataRow) (db : Db) : Db :=
  MkDb (f (t_metadata db)) (t_snapshots db) (t_snapshot_changes db) (t_schema_versions db) (t_schemas db)
    (t_tables db) (t_columns db) (t_data_files db) (t_delete_files db) (t_table_stats db)
    (t_table_column_stats db) (t_file_stats db) (t_partition_info db) (t_partition_columns db)
    (t_file_partition_values db) (t_sort_info db) (t_sort_expressions db) (t_registry db) (t_inlined_data db)
    (t_inlined_deletes db) (t_scheduled db) (t_view_ids db) (t_macro_ids db) (t_sequences db) (t_indexes db)
    (t_clock db).
Definition on_snapshots (f : list SnapshotRow -> list SnapshotRow) (db : Db) : Db :=
  MkDb (t_metadata db) (f (t_snapshots db)) (t_snapshot_changes db) (t_schema_versions db) (t_schemas db)
    (t_tables db) (t_columns db) (t_data_files db) (t_delete_files db) (t_table_stats db)
    (t_table_column_stats db) (t_file_stats db) (t_partition_info db) (t_partition_columns db)
    (t_file_partition_values db) (t_sort_info db) (t_sort_expressions db) (t_registry db) (t_inlined_data db)
    (t_inlined_deletes db) (t_scheduled db) (t_view_ids db) (t_macro_ids db) (t_sequences db) (t_indexes db)
    (t_clock db).
Definition on_snapshot_changes (f : list ChangesRow -> list ChangesRow) (db : Db) : Db :=
  MkDb (t_metadata db) (t_snapshots db) (f (t_snapshot_changes db)) (t_schema_versions db) (t_schemas db)
    (t_tables db) (t_columns db) (t_data_files db) (t_delete_files db) (t_table_stats db)
    (t_table_column_stats db) (t_file_stats db) (t_partition_info db) (t_partition_columns db)
    (t_file_partition_values db) (t_sort_info db) (t_sort_expressions db) (t_registry db) (t_inlined_data db)
    (t_inlined_deletes db) (t_scheduled db) (t_view_ids db) (t_macro_ids db) (t_sequences db) (t_indexes db)
    (t_clock db).
Definition on_schema_versions (f : list SchemaVersionRow -> list SchemaVersionRow) (db : Db) : Db :=
  MkDb (t_metadata db) (t_snapshots db) (t_snapshot_changes db) (f (t_schema_versions db)) (t_schemas db)
    (t_tables db) (t_columns db) (t_data_files db) (t_delete_files db) (t_table_stats db)
    (t_table_column_stats db) (t_file_stats db) (t_partition_info db) (t_partition_columns db)
    (t_file_partition_values db) (t_sort_info db) (t_sort_expressions db) (t_registry db) (t_inlined_data db)
    (t_inlined_deletes db) (t_scheduled db) (t_view_ids db) (t_macro_ids db) (t_sequences db) (t_indexes db)
    (t_clock db).
Definition on_schemas (f : list (versioned SchemaRow) -> list (versioned SchemaRow)) (db : Db) : Db :=
  MkDb (t_metadata db) (t_snapshots db) (t_snapshot_changes db) (t_schema_versions db) (f (t_schemas db))
    (t_tables db) (t_columns db) (t_data_files db) (t_delete_files db) (t_table_stats db)
    (t_table_column_stats db) (t_file_stats db) (t_partition_info db) (t_partition_columns db)
    (t_file_partition_values db) (t_sort_info db) (t_sort_expressions db) (t_registry db) (t_inlined_data db)
    (t_inlined_deletes db) (t_scheduled db) (t_view_ids db) (t_macro_ids db) (t_sequences db) (t_indexes db)
    (t_clock db).
Definition on_tables (f : list (versioned TableRow) -> list (versioned TableRow)) (db : Db) : Db :=
  MkDb (t_metadata db) (t_snapshots db) (t_snapshot_changes db) (t_schema_versions db) (t_schemas db) (f
    (t_tables db)) (t_columns db) (t_data_files db) (t_delete_files db) (t_table_stats db)
    (t_table_column_stats db) (t_file_stats db) (t_partition_info db) (t_partition_columns db)
    (t_file_partition_values db) (t_sort_info db) (t_sort_expressions db) (t_registry db) (t_inlined_data db)
    (t_inlined_deletes db) (t_scheduled db) (t_view_ids db) (t_macro_ids db) (t_sequences db) (t_indexes db)
    (t_clock db).
Definition on_columns (f : list (versioned CatalogColumn) -> list (versioned CatalogColumn)) (db : Db) : Db :=
  MkDb (t_metadata db) (t_snapshots db) (t_snapshot_changes db) (t_schema_versions db) (t_schemas db) (t_tables
    db) (f (t_columns db)) (t_data_files db) (t_delete_files db) (t_table_stats db) (t_table_column_stats db)
    (t_file_stats db) (t_partition_info db) (t_partition_columns db) (t_file_partition_values db)
    (t_sort_info db) (t_sort_expressions db) (t_registry db) (t_inlined_data db) (t_inlined_deletes db)
    (t_scheduled db) (t_view_ids db) (t_macro_ids db) (t_sequences db) (t_indexes db) (t_clock db).
Definition on_data_files (f : list (versioned DataFileRow) -> list (versioned DataFileRow)) (db : Db) : Db :=
  MkDb (t_metadata db) (t_snapshots db) (t_snapshot_changes db) (t_schema_versions db) (t_schemas db) (t_tables
    db) (t_columns db) (f (t_data_files db)) (t_delete_files db) (t_table_stats db) (t_table_column_stats db)
    (t_file_stats db) (t_partition_info db) (t_partition_columns db) (t_file_partition_values db)
    (t_sort_info db) (t_sort_expressions db) (t_registry db) (t_inlined_data db) (t_inlined_deletes db)
    (t_scheduled db) (t_view_ids db) (t_macro_ids db) (t_sequences db) (t_indexes db) (t_clock db).
Definition on_delete_files (f : list (versioned DeleteFileRow) -> list (versioned DeleteFileRow)) (db : Db) : Db :=
  MkDb (t_metadata db) (t_snapshots db) (t_snapshot_changes db) (t_schema_versions db) (t_schemas db) (t_tables
    db) (t_columns db) (t_data_files db) (f (t_delete_files db)) (t_table_stats db) (t_table_column_stats db)
    (t_file_stats db) (t_partition_info db) (t_partition_columns db) (t_file_partition_values db)
    (t_sort_info db) (t_sort_expressions db) (t_registry db) (t_inlined_data db) (t_inlined_deletes db)
    (t_scheduled db) (t_view_ids db) (t_macro_ids db) (t_sequences db) (t_indexes db) (t_clock db).
Definition on_table_stats (f : list TableStatsRow -> list TableStatsRow) (db : Db) : Db :=
  MkDb (t_metadata db) (t_snapshots db) (t_snapshot_changes db) (t_schema_versions db) (t_schemas db) (t_tables
    db) (t_columns db) (t_data_files db) (t_delete_files db) (f (t_table_stats db)) (t_table_column_stats db)
    (t_file_stats db) (t_partition_info db) (t_partition_columns db) (t_file_partition_values db)
    (t_sort_info db) (t_sort_expressions db) (t_registry db) (t_inlined_data db) (t_inlined_deletes db)
    (t_scheduled db) (t_view_ids db) (t_macro_ids db) (t_sequences db) (t_indexes db) (t_clock db).
Definition on_table_column_stats (f : list TableColumnStatRow -> list TableColumnStatRow) (db : Db) : Db :=
  MkDb (t_metadata db) (t_snapshots db) (t_snapshot_changes db) (t_schema_versions db) (t_schemas db) (t_tables
    db) (t_columns db) (t_data_files db) (t_delete_files db) (t_table_stats db) (f (t_table_column_stats db))
    (t_file_stats db) (t_partition_info db) (t_partition_columns db) (t_file_partition_values db)
    (t_sort_info db) (t_sort_expressions db) (t_registry db) (t_inlined_data db) (t_inlined_deletes db)
    (t_scheduled db) (t_view_ids db) (t_macro_ids db) (t_sequences db) (t_indexes db) (t_clock db).
Definition on_file_stats (f : list FileStatRow -> list FileStatRow) (db : Db) : Db :=
  MkDb (t_metadata db) (t_snapshots db) (t_snapshot_changes db) (t_schema_versions db) (t_schemas db) (t_tables
    db) (t_columns db) (t_data_files db) (t_delete_files db) (t_table_stats db) (t_table_column_stats db) (f
    (t_file_stats db)) (t_partition_info db) (t_partition_columns db) (t_file_partition_values db)
    (t_sort_info db) (t_sort_expressions db) (t_registry db) (t_inlined_data db) (t_inlined_deletes db)
    (t_scheduled db) (t_view_ids db) (t_macro_ids db) (t_sequences db) (t_indexes db) (t_clock db).
Definition on_partition_info (f : list (versioned PartitionInfoRow) -> list (versioned PartitionInfoRow)) (db : Db) : Db :=
  MkDb (t_metadata db) (t_snapshots db) (t_snapshot_changes db) (t_schema_versions db) (t_schemas db) (t_tables
    db) (t_columns db) (t_data_files db) (t_delete_files db) (t_table_stats db) (t_table_column_stats db)
    (t_file_stats db) (f (t_partition_info db)) (t_partition_columns db) (t_file_partition_values db)
    (t_sort_info db) (t_sort_expressions db) (t_registry db) (t_inlined_data db) (t_inlined_deletes db)
    (t_scheduled db) (t_view_ids db) (t_macro_ids db) (t_sequences db) (t_indexes db) (t_clock db).
Definition on_partition_columns (f : list PartitionColumnRow -> list PartitionColumnRow) (db : Db) : Db :=
  MkDb (t_metadata db) (t_snapshots db) (t_snapshot_changes db) (t_schema_versions db) (t_schemas db) (t_tables
    db) (t_columns db) (t_data_files db) (t_delete_files db) (t_table_stats db) (t_table_column_stats db)
    (t_file_stats db) (t_partition_info db) (f (t_partition_columns db)) (t_file_partition_values db)
    (t_sort_info db) (t_sort_expressions db) (t_registry db) (t_inlined_data db) (t_inlined_deletes db)
    (t_scheduled db) (t_view_ids db) (t_macro_ids db) (t_sequences db) (t_indexes db) (t_clock db).
Definition on_file_partition_values (f : list FilePartitionValueRow -> list FilePartitionValueRow) (db : Db) : Db :=
  MkDb (t_metadata db) (t_snapshots db) (t_snapshot_changes db) (t_schema_versions db) (t_schemas db) (t_tables
    db) (t_columns db) (t_data_files db) (t_delete_files db) (t_table_stats db) (t_table_column_stats db)
    (t_file_stats db) (t_partition_info db) (t_partition_columns db) (f (t_file_partition_values db))
    (t_sort_info db) (t_sort_expressions db) (t_registry db) (t_inlined_data db) (t_inlined_deletes db)
    (t_scheduled db) (t_view_ids db) (t_macro_ids db) (t_sequences db) (t_indexes db) (t_clock db).
Definition on_sort_info (f : list (versioned SortInfoRow) -> list (versioned SortInfoRow)) (db : Db) : Db :=
  MkDb (t_metadata db) (t_snapshots db) (t_snapshot_changes db) (t_schema_versions db) (t_schemas db) (t_tables
    db) (t_columns db) (t_data_files db) (t_delete_files db) (t_table_stats db) (t_table_column_stats db)
    (t_file_stats db) (t_partition_info db) (t_partition_columns db) (t_file_partition_values db) (f
    (t_sort_info db)) (t_sort_expressions db) (t_registry db) (t_inlined_data db) (t_inlined_deletes db)
    (t_scheduled db) (t_view_ids db) (t_macro_ids db) (t_sequences db) (t_indexes db) (t_clock db).
Definition on_sort_expressions (f : list SortExpressionRow -> list SortExpressionRow) (db : Db) : Db :=
  MkDb (t_metadata db) (t_snapshots db) (t_snapshot_changes db) (t_schema_versions db) (t_schemas db) (t_tables
    db) (t_columns db) (t_data_files db) (t_delete_files db) (t_table_stats db) (t_table_column_stats db)
    (t_file_stats db) (t_partition_info db) (t_partition_columns db) (t_file_partition_values db)
    (t_sort_info db) (f (t_sort_expressions db)) (t_registry db) (t_inlined_data db) (t_inlined_deletes db)
    (t_scheduled db) (t_view_ids db) (t_macro_ids db) (t_sequences db) (t_indexes db) (t_clock db).
Definition on_registry (f : list RegistryRow -> list RegistryRow) (db : Db) : Db :=
  MkDb (t_metadata db) (t_snapshots db) (t_snapshot_changes db) (t_schema_versions db) (t_schemas db) (t_tables
    db) (t_columns db) (t_data_files db) (t_delete_files db) (t_table_stats db) (t_table_column_stats db)
    (t_file_stats db) (t_partition_info db) (t_partition_columns db) (t_file_partition_values db)
    (t_sort_info db) (t_sort_expressions db) (f (t_registry db)) (t_inlined_data db) (t_inlined_deletes db)
    (t_scheduled db) (t_view_ids db) (t_macro_ids db) (t_sequences db) (t_indexes db) (t_clock db).
Definition on_inlined_data (f : gmap str InlinedTable -> gmap str InlinedTable) (db : Db) : Db :=
  MkDb (t_metadata db) (t_snapshots db) (t_snapshot_changes db) (t_schema_versions db) (t_schemas db) (t_tables
    db) (t_columns db) (t_data_files db) (t_delete_files db) (t_table_stats db) (t_table_column_stats db)
    (t_file_stats db) (t_partition_info db) (t_partition_columns db) (t_file_partition_values db)
    (t_sort_info db) (t_sort_expressions db) (t_registry db) (f (t_inlined_data db)) (t_inlined_deletes db)
    (t_scheduled db) (t_view_ids db) (t_macro_ids db) (t_sequences db) (t_indexes db) (t_clock db).
Definition on_inlined_deletes (f : gmap str (list InlinedDeleteRow) -> gmap str (list InlinedDeleteRow)) (db : Db) : Db :=
  MkDb (t_metadata db) (t_snapshots db) (t_snapshot_changes db) (t_schema_versions db) (t_schemas db) (t_tables
    db) (t_columns db) (t_data_files db) (t_delete_files db) (t_table_stats db) (t_table_column_stats db)
    (t_file_stats db) (t_partition_info db) (t_partition_columns db) (t_file_partition_values db)
    (t_sort_info db) (t_sort_expressions db) (t_registry db) (t_inlined_data db) (f (t_inlined_deletes db))
    (t_scheduled db) (t_view_ids db) (t_macro_ids db) (t_sequences db) (t_indexes db) (t_clock db).
Definition on_scheduled (f : list ScheduledRow -> list ScheduledRow) (db : Db) : Db :=
  MkDb (t_metadata db) (t_snapshots db) (t_snapshot_changes db) (t_schema_versions db) (t_schemas db) (t_tables
    db) (t_columns db) (t_data_files db) (t_delete_files db) (t_table_stats db) (t_table_column_stats db)
    (t_file_stats db) (t_partition_info db) (t_partition_columns db) (t_file_partition_values db)
    (t_sort_info db) (t_sort_expressions db) (t_registry db) (t_inlined_data db) (t_inlined_deletes db) (f
    (t_scheduled db)) (t_view_ids db) (t_macro_ids db) (t_sequences db) (t_indexes db) (t_clock db).
Definition on_sequences (f : list SequenceRow -> list SequenceRow) (db : Db) : Db :=
  MkDb (t_metadata db) (t_snapshots db) (t_snapshot_changes db) (t_schema_versions db) (t_schemas db) (t_tables
    db) (t_columns db) (t_data_files db) (t_delete_files db) (t_table_stats db) (t_table_column_stats db)
    (t_file_stats db) (t_partition_info db) (t_partition_columns db) (t_file_partition_values db)
    (t_sort_info db) (t_sort_expressions db) (t_registry db) (t_inlined_data db) (t_inlined_deletes db)
    (t_scheduled db) (t_view_ids db) (t_macro_ids db) (f (t_sequences db)) (t_indexes db) (t_clock db).
Definition on_indexes (f : gset str -> gset str) (db : Db) : Db :=
  MkDb (t_metadata db) (t_snapshots db) (t_snapshot_changes db) (t_schema_versions db) (t_schemas db) (t_tables
    db) (t_columns db) (t_data_files db) (t_delete_files db) (t_table_stats db) (t_table_column_stats db)
    (t_file_stats db) (t_partition_info db) (t_partition_columns db) (t_file_partition_values db)
    (t_sort_info db) (t_sort_expressions db) (t_registry db) (t_inlined_data db) (t_inlined_deletes db)
    (t_scheduled db) (t_view_ids db) (t_macro_ids db) (t_sequences db) (f (t_indexes db)) (t_clock db).
End database.

(** ** Statements *)

Definition select {A} (p : A -> bool) (l : list A) : list A := List.filter p l.
Definition update {A} (p : A -> bool) (f : A -> A) (l : list A) : list A :=
  (fun a => if p a then f a else a) <$> l.
Definition delete_where {A} (p : A -> bool) (l : list A) : list A := List.filter (fun a => negb (p a)) l.

(** [ORDER BY], ascending and descending. *)
Fixpoint insert_by {A} (key : A -> Z) (a : A) (l : list A) : list A :=
  match l with
  | [] => [a]
  | b :: l' => if key b <=? key a then b :: insert_by key a l' else a :: l
  end.
Definition order_by {A} (key : A -> Z) (l : list A) : list A :=
  fold_left (fun sorted a => insert_by key a sorted) l [].
Definition order_by_desc {A} (key : A -> Z) (l : list A) : list A := order_by (fun a => - key a) l.

(** [COALESCE(o, z)] and [GREATEST] of values that may be [NULL]. *)
Definition greatest (l : list (option Z)) : option Z := max_list (omap id l).

(** [CAST(value AS BIGINT)]: DuckDB's cast, which [duckdb_cast.rs] ports. *)
Definition cast_bigint (input : str) : option Z :=
  or_else (try_cast {| op := Simple; store := INT64; cast_result := INT64 |} input false)
          (try_cast {| op := Decimal; store := INT64; cast_result := INT64 |} input true).

(** ** Transactions *)

Section transactions.
Context `{InlineValues}.

Definition Tx (A : Type) : Type := Db -> outcome (A * Db).

Definition ret {A} (a : A) : Tx A := fun db => Returns (Ok (a, db)).
Definition bind {A B} (m : Tx A) (k : A -> Tx B) : Tx B :=
  fun db => outcome_bind (m db) (fun r => k r.1 r.2).
Definition throw {A} (e : DuckLakeError) : Tx A := fun _ => Returns (Err e).
Definition panic {A} : Tx A := fun _ => Panics.
Definition lift {A} (r : result A) : Tx A := fun db => Returns (let? a := r in Ok (a, db)).
Definition lift_outcome {A} (o : outcome A) : Tx A := fun db => outcome_bind o (fun a => Returns (Ok (a, db))).

(** A query, and a statement that changes the database. *)
Definition query {A} (f : Db -> A) : Tx A := fun db => Returns (Ok (f db, db)).
Definition execute (f : Db -> Db) : Tx unit := fun db => Returns (Ok (tt, f db)).

(** A check: the error, unless the condition holds. *)
Definition ensure (b : bool) (e : DuckLakeError) : Tx unit := if b then ret tt else throw e.

(** [query_row]: the first row, an error when there is none; [query_optional] is
    [query_row(..).optional()]. *)
Definition query_optional {A} (f : Db -> list A) : Tx (option A) := query (fun db => head (f db)).
Definition query_row {A} (f : Db -> list A) : Tx A :=
  fun db => Returns (let? a := ok_or (head (f db)) (External "query returned no rows") in Ok (a, db)).

Definition bigint (z : Z) : Tx Z := if in_i64 z then ret z else throw (External "out of range").
Definition rust_i64 (z : Z) : Tx Z := if in_i64 z then ret z else panic.

(** An [INSERT] into a table with a key: an error when the key is taken. *)
Definition insert_key {A} (get : Db -> list A) (on : (list A -> list A) -> Db -> Db) (same : A -> bool) (a : A)
  : Tx unit :=
  fun db => if existsb same (get db) then Returns (Err (External "constraint violation"))
            else Returns (Ok (tt, on (fun l => l ++ [a]) db)).

End transactions.

Notation "'let*' x := m 'in' k" := (bind m (fun x => k))
  (at level 10, x pattern, m at level 200, k at level 200) : ducklake_scope.
Notation "m ;* k" := (bind m (fun _ => k)) (at level 60, right associativity) : ducklake_scope.

Section loops.
Context `{InlineValues}.

(** [for x in l]. *)
Fixpoint for_each {A} (l : list A) (body : A -> Tx unit) : Tx unit :=
  match l with
  | [] => ret tt
  | a :: l' => body a ;* for_each l' body
  end.

Fixpoint map_each {A B} (l : list A) (body : A -> Tx B) : Tx (list B) :=
  match l with
  | [] => ret []
  | a :: l' => let* b := body a in let* bs := map_each l' body in ret (b :: bs)
  end.

Definition when (b : bool) (m : Tx unit) : Tx unit := if b then m else ret tt.

(** ** What a call leaves

    [tx.commit()] keeps a transaction's database; an error, a panic and a return
    before it leave the database as it was. A call's body says with [Committed] or
    [RolledBack] which of the two its return is. *)
Inductive Ending (A : Type) := Committed (a : A) | RolledBack (a : A).
#[global] Arguments Committed {A} a.
#[global] Arguments RolledBack {A} a.

Definition run {A} (m : Tx (Ending A)) (db : Db) : outcome A * Db :=
  match m db with
  | Returns (Ok (Committed a, db')) => (Returns (Ok a), db')
  | Returns (Ok (RolledBack a, _)) => (Returns (Ok a), db)
  | Returns (Err e) => (Returns (Err e), db)
  | Panics => (Panics, db)
  end.

End loops.
