(* ===== verification/CatalogSnapshots.v ===== *)
(** * Ids, snapshots and the ledger of the DuckDB writer

    Id reservation, the snapshot row a commit writes, its schema version and its
    [changes_made] record ([metadata_writer_duckdb.rs], [reserve_ids] to
    [seed_stats_if_missing]), as transactions over [CatalogDb]. *)

From S2P Require Import Prelude RustStd Arrow WriterTypes StatsOrder StatsRollup DuckdbCast ChangeLedger PathResolver WriterChecks Types ColumnTrees CatalogDb.

Section snapshots.
Context `{InlineValues}.

(** A scalar subquery: [NULL] without a row, an error with more than one. *)
Definition scalar {A} (f : Db -> list A) : Tx (option A) :=
  let* rows := query f in
  match rows with
  | [] => ret None
  | [a] => ret (Some a)
  | _ => throw (External "more than one row returned by a subquery")
  end.

(** ** Counters *)

(** The rows [WHERE key = ? AND scope IS NULL]. *)
Definition is_counter (key : str) (row : MetadataRow) : bool :=
  str_eqb (m_key row) key && bool_decide (m_scope row = None).

Definition with_value (value : str) (row : MetadataRow) : MetadataRow :=
  {| m_key := m_key row; m_value := value; m_scope := m_scope row; m_scope_id := m_scope_id row |}.

Definition cast_value (row : MetadataRow) : result Z :=
  ok_or (cast_bigint (m_value row)) (External "could not convert the value to BIGINT").

(** [UPDATE ducklake_metadata SET value = CAST(f(CAST(value AS BIGINT)) AS VARCHAR) WHERE
    key = ? AND scope IS NULL RETURNING CAST(value AS BIGINT)], of which the first row
    is read. *)
Definition update_counter (key : str) (f : Z -> Z) : Tx (option Z) :=
  let* rows := query t_metadata in
  let* rows' := lift (mapM_result (fun row =>
    if is_counter key row then
      let? n := cast_value row in
      if in_i64 (f n) then Ok (with_value (show_Z (f n)) row) else Err (External "out of range")
    else Ok row) rows) in
  execute (on_metadata (fun _ => rows')) ;*
  match find_first (is_counter key) rows' with
  | Some row => let* n := lift (cast_value row) in ret (Some n)
  | None => ret None
  end.

(** [reserve_ids]. *)
Definition reserve_ids (key : str) (n : Z) : Tx Z :=
  let* last := update_counter key (fun value => value + n) in
  lift (ok_or last (External "query returned no rows")).

(** [raise_column_ids_past_table]. *)
Definition raise_column_ids_past_table (table_id n : Z) : Tx Z :=
  let* ids := query (fun db => (fun v => co_id (v_row v))
                                 <$> select (fun v => co_table_id (v_row v) =? table_id) (t_columns db)) in
  let* last := update_counter "next_column_id"
                 (fun value => Z.max value (default 0 (max_list ids) + n)) in
  lift (ok_or last (External "query returned no rows")).

Inductive IdAllocator := ICatalog | IFile.
#[global] Instance IdAllocator_eq_dec : EqDecision IdAllocator.
Proof. solve_decision. Defined.

(** [IdAllocator::key]. *)
Definition allocator_key (a : IdAllocator) : str :=
  match a with ICatalog => "next_catalog_id" | IFile => "next_file_id" end.

(** The ids an allocator's tables hold, and [IdAllocator::max_id_sql], the largest of
    them. *)
Definition ids_in_use (a : IdAllocator) (db : Db) : list Z :=
  match a with
  | ICatalog =>
      ((fun v => sch_id (v_row v)) <$> t_schemas db) ++ ((fun v => tb_id (v_row v)) <$> t_tables db)
      ++ t_view_ids db ++ ((fun v => pi_id (v_row v)) <$> t_partition_info db)
      ++ ((fun v => si_id (v_row v)) <$> t_sort_info db) ++ t_macro_ids db
  | IFile =>
      ((fun v => d_id (v_row v)) <$> t_data_files db) ++ ((fun v => x_id (v_row v)) <$> t_delete_files db)
  end.
Definition max_id (a : IdAllocator) (db : Db) : Z := default (-1) (max_list (ids_in_use a db)).

Definition watermark (a : IdAllocator) (row : SnapshotRow) : option Z :=
  match a with ICatalog => s_next_catalog_id row | IFile => s_next_file_id row end.

(** [SELECT {key} FROM ducklake_snapshot ORDER BY snapshot_id DESC LIMIT 1]. *)
Definition head_watermark (a : IdAllocator) (db : Db) : option Z :=
  row ← head (order_by_desc s_id (t_snapshots db)); watermark a row.

(** [COALESCE((SELECT {key} ...) - 1, -1)]. *)
Definition below_watermark (a : IdAllocator) (db : Db) : Z :=
  default (-1) ((fun w => w - 1) <$> head_watermark a db).

(** [LEGACY_SEQUENCES]. *)
Definition LEGACY_SEQUENCES : list (str * IdAllocator) :=
  [("ducklake_schema_id_seq" : str, ICatalog); ("ducklake_table_id_seq" : str, ICatalog);
   ("ducklake_partition_id_seq" : str, ICatalog); ("ducklake_sort_id_seq" : str, ICatalog);
   ("ducklake_data_file_id_seq" : str, IFile); ("ducklake_delete_file_id_seq" : str, IFile)].

(** [restart_legacy_sequences]. *)
Definition sequence_next (q : SequenceRow) : Z :=
  Z.min (q_start q) (default (q_start q) ((fun l => l + 1) <$> q_last q)).
Definition restart_legacy_sequences (a : IdAllocator) (last : Z) : Tx unit :=
  let* behind := query (fun db => q_name <$> select (fun q => sequence_next q <=? last) (t_sequences db)) in
  for_each LEGACY_SEQUENCES (fun '(sequence, owner) =>
    when (bool_decide (owner = a) && existsb (str_eqb sequence) behind)
      (let* start := rust_i64 (last + 1) in
       execute (on_sequences (fun l =>
         delete_where (fun q => str_eqb (q_name q) sequence) l
         ++ [{| q_name := sequence; q_start := start; q_last := None |}])))).

(** [seed_id_allocator]. *)
Definition seed_id_allocator (a : IdAllocator) : Tx unit :=
  let* exists_ := query (fun db => existsb (is_counter (allocator_key a)) (t_metadata db)) in
  when (negb exists_)
    (let* value := query (fun db => Z.max (max_id a db) (below_watermark a db)) in
     let* value := bigint value in
     execute (on_metadata (fun l => l ++ [{| m_key := allocator_key a; m_value := show_Z value;
                                             m_scope := None; m_scope_id := None |}]))).

(** [reserve_ids_of]: the first of [n] ids. *)
Definition reserve_ids_of (a : IdAllocator) (n : Z) : Tx Z :=
  let reserved :=
    let* floor := query (fun db => Z.max (below_watermark a db) (max_id a db)) in
    update_counter (allocator_key a) (fun value => Z.max value floor + n) in
  let* first_try := reserved in
  let* last :=
    match first_try with
    | Some last => ret last
    | None =>
        seed_id_allocator a ;*
        let* second := reserved in
        match second with Some last => ret last | None => panic end
    end in
  restart_legacy_sequences a last ;*
  rust_i64 (last - n + 1).

(** [reserve_file_ids], and [reserve_file_ids(tx, 1)?[0]]. *)
Definition reserve_file_ids (n : Z) : Tx (list Z) :=
  let* first := reserve_ids_of IFile n in
  let* _ := rust_i64 (first + n) in
  ret ((fun i => first + Z.of_nat i) <$> seq 0 (Z.to_nat n)).
Definition reserve_file_id : Tx Z :=
  let* ids := reserve_file_ids 1 in
  lift_outcome (or_panic (head ids)).

(** ** Snapshots *)

(** The watermark of a snapshot: past [previous], every id in use and the counter. *)
Definition next_watermark (a : IdAllocator) (previous : option Z) : Tx Z :=
  let* counter := scalar (fun db => select (is_counter (allocator_key a)) (t_metadata db)) in
  let* counter := match counter with
                  | Some row => let* n := lift (cast_value row) in let* n := bigint (n + 1) in ret (Some n)
                  | None => ret None
                  end in
  let* max := query (max_id a) in
  let* max := bigint (max + 1) in
  ret (Z.max (default 0 previous) (Z.max max (default 0 counter))).

(** [insert_snapshot]. *)
Definition insert_snapshot : Tx (Z * Z) :=
  let* snapshot_id := query (fun db => default 0 (max_list (s_id <$> t_snapshots db)) + 1) in
  let* snapshot_id := bigint snapshot_id in
  let* schema_version := query (fun db => default 0 (max_list (s_schema_version <$> t_snapshots db))) in
  let* catalog := query (head_watermark ICatalog) in
  let* catalog := next_watermark ICatalog catalog in
  let* file := query (head_watermark IFile) in
  let* file := next_watermark IFile file in
  let* now := query t_clock in
  insert_key t_snapshots on_snapshots (fun row => s_id row =? snapshot_id)
    {| s_id := snapshot_id; s_time := now; s_schema_version := schema_version;
       s_next_catalog_id := Some catalog; s_next_file_id := Some file |} ;*
  insert_key t_snapshot_changes on_snapshot_changes (fun row => c_snapshot_id row =? snapshot_id)
    {| c_snapshot_id := snapshot_id; c_changes_made := None; c_author := None; c_commit_message := None;
       c_commit_extra_info := None |} ;*
  ret (snapshot_id, schema_version).

(** [raise_snapshot_watermarks]. *)
Definition raise_snapshot_watermarks (snapshot_id : Z) : Tx unit :=
  let* rows := query t_snapshots in
  let* rows' := map_each rows (fun row =>
    if s_id row =? snapshot_id then
      let* catalog := next_watermark ICatalog (s_next_catalog_id row) in
      let* file := next_watermark IFile (s_next_file_id row) in
      ret {| s_id := s_id row; s_time := s_time row; s_schema_version := s_schema_version row;
             s_next_catalog_id := Some catalog; s_next_file_id := Some file |}
    else ret row) in
  execute (on_snapshots (fun _ => rows')).

(** [SnapshotCommitMetadata]. *)
Record SnapshotCommitMetadata := {
  cm_author : option str;
  cm_message : option str;
  cm_extra_info : option str;
}.
Definition SnapshotCommitMetadata_new : SnapshotCommitMetadata :=
  {| cm_author := None; cm_message := None; cm_extra_info := None |}.

(** [record_snapshot_changes]. *)
Definition record_snapshot_changes (snapshot_id : Z) (changes_made : str)
  (commit_metadata : SnapshotCommitMetadata) : Tx unit :=
  let changes := if is_empty changes_made then None else Some changes_made in
  execute (on_snapshot_changes (update (fun row => c_snapshot_id row =? snapshot_id) (fun row =>
    {| c_snapshot_id := c_snapshot_id row;
       c_changes_made := match c_changes_made row, changes with
                         | None, _ => changes
                         | Some old, None => Some old
                         | Some old, Some new => Some (old ++ "," ++ new)
                         end;
       c_author := cm_author commit_metadata; c_commit_message := cm_message commit_metadata;
       c_commit_extra_info := cm_extra_info commit_metadata |}))) ;*
  let inlined := inlined_inserts (default [] changes) in
  when (0 <? Z.of_nat inlined)
    (let* _ := reserve_ids_of IFile (Z.of_nat inlined) in ret tt) ;*
  raise_snapshot_watermarks snapshot_id.

(** [bump_schema_version]. *)
Definition with_schema_version (version : Z) (row : SnapshotRow) : SnapshotRow :=
  {| s_id := s_id row; s_time := s_time row; s_schema_version := version;
     s_next_catalog_id := s_next_catalog_id row; s_next_file_id := s_next_file_id row |}.
Definition bump_schema_version (snapshot_id : Z) : Tx Z :=
  let* prev_max := query (fun db => default 0 (max_list
    (s_schema_version <$> select (fun row => negb (s_id row =? snapshot_id)) (t_snapshots db)))) in
  let* new_version := rust_i64 (prev_max + 1) in
  execute (on_snapshots (update (fun row => s_id row =? snapshot_id) (with_schema_version new_version))) ;*
  ret new_version.

(** [record_schema_version]: the pair of table and snapshot is unique. *)
Definition record_schema_version (snapshot_id schema_version table_id : Z) : Tx unit :=
  insert_key t_schema_versions on_schema_versions
    (fun row => (sv_table_id row =? table_id) && (sv_begin row =? snapshot_id))
    {| sv_begin := snapshot_id; sv_version := schema_version; sv_table_id := table_id |}.

(** [seed_stats_if_missing]. *)
Definition seed_stats_if_missing (table_id : Z) : Tx unit :=
  let* exists_ := query (fun db => existsb (fun row => ts_table_id row =? table_id) (t_table_stats db)) in
  when (negb exists_)
    (insert_key t_table_stats on_table_stats (fun row => ts_table_id row =? table_id)
       {| ts_table_id := table_id; ts_record_count := 0; ts_next_row_id := 0; ts_file_size_bytes := 0 |}).

(** ** Inlined data tables *)

(** A physical table's columns, and its rows; an error when it does not exist. *)
Definition physical_table (name : str) : Tx InlinedTable :=
  let* table := query (fun db => t_inlined_data db !! name) in
  lift (ok_or table (External "table does not exist")).

(** [inlined_table_layout], of which only the system columns are used. *)
Definition inlined_table_layout (name : str) : Tx InlinedSystemColumns :=
  let* table := physical_table name in
  lift (system_from_columns name (p_columns table)).

(** [inlined_tables]: the names; a table without the system columns is an error. The
    statements on a physical table name its system columns, which are the row's id,
    begin and end. *)
Definition inlined_tables (table_id : Z) : Tx (list str) :=
  let* names := query (fun db => r_table_name <$> select (fun row => r_table_id row =? table_id) (t_registry db)) in
  map_each names (fun name => inlined_table_layout name ;* ret name).

(** [UPDATE {name} SET ...] on the rows of a physical table. *)
Definition update_physical (name : str) (f : list (versioned InlinedRow) -> list (versioned InlinedRow)) : Tx unit :=
  execute (on_inlined_data (alter (fun table =>
    {| p_columns := p_columns table; p_rows := f (p_rows table) |}) name)).

(** [SELECT EXISTS(SELECT 1 FROM {name} WHERE ...)] for each table, up to the first
    that has one. *)
Fixpoint any_inlined (names : list str) (p : versioned InlinedRow -> bool) : Tx bool :=
  match names with
  | [] => ret false
  | name :: rest =>
      let* table := physical_table name in
      if existsb p (p_rows table) then ret true else any_inlined rest p
  end.

(** ** The ledger of a table write *)

(** [record_table_changes]. *)
Definition record_table_changes (snapshot_id table_id : Z) (schema_name table_name write_changes : str)
  (commit_metadata : SnapshotCommitMetadata) : Tx unit :=
  let* (schema_begin, table_begin) := query_row (fun db =>
    t ← select (fun t => tb_id (v_row t) =? table_id) (t_tables db);
    s ← select (fun s => sch_id (v_row s) =? tb_schema_id (v_row t)) (t_schemas db);
    [(v_begin s, v_begin t)]) in
  let* altered := query (fun db => existsb (fun row =>
    (sv_table_id row =? table_id) && (sv_begin row =? snapshot_id)) (t_schema_versions db)) in
  let entry := "created_schema:" ++ quote_snapshot_name schema_name in
  let* recorded := query (fun db => row ← head (select (fun row => c_snapshot_id row =? snapshot_id)
                                                  (t_snapshot_changes db)); c_changes_made row) in
  let changes :=
    (if (schema_begin =? snapshot_id) && negb (snapshot_has_change (default [] recorded) entry)
     then [entry] else [])
    ++ (if table_begin =? snapshot_id
        then ["created_table:" ++ quote_snapshot_table schema_name table_name]
        else if altered then ["altered_table:" ++ show_Z table_id] else [])
    ++ [write_changes] in
  record_snapshot_changes snapshot_id (join "," changes) commit_metadata.

(** [record_table_write_changes]. *)
Definition record_table_write_changes (snapshot_id table_id : Z) (schema_name table_name : str)
  (mode : WriteMode) (has_deletes inlined : bool) (commit_metadata : SnapshotCommitMetadata) : Tx unit :=
  let* replaced_existing_data := query (fun db => existsb (fun v =>
    (d_table_id (v_row v) =? table_id) && bool_decide (v_end v = Some snapshot_id)) (t_data_files db)) in
  let* replaced_inlined :=
    match mode with
    | Replace =>
        let* names := inlined_tables table_id in
        any_inlined names (fun v => bool_decide (v_end v = Some snapshot_id))
    | Append => ret false
    end in
  let replace := bool_decide (mode = Replace) in
  record_table_changes snapshot_id table_id schema_name table_name
    (table_storage_changes table_id (Some inlined) (has_deletes || (replace && replaced_existing_data))
       replaced_inlined)
    commit_metadata.

End snapshots.
