(* ===== verification/CatalogTables.v ===== *)
(** * A commit's work on one table

    The helpers of [metadata_writer_duckdb.rs] a commit is composed of, from
    [insert_new_table_rows] to [drop_data_files]: table and column rows, conflict checks
    against the rows of the catalog, data and delete files, statistics, and rows kept
    inline. [limit_override] is the inlining limit in effect for the call: its caller's,
    else the writer's own. *)

From S2P Require Import Prelude RustStd Arrow StatsOrder StatsRollup WriterTypes DuckdbCast ChangeLedger Conflicts PathResolver RowIds WriterChecks Types ColumnTrees SortSpec InlinedTypes CatalogDb CatalogSnapshots.

(** [DEFAULT_DATA_INLINING_ROW_LIMIT] of [table_writer.rs]. *)
Definition DEFAULT_DATA_INLINING_ROW_LIMIT : nat := 10.

(** [effective_inlining_limit]. *)
Definition effective_inlining_limit (limit_override : option nat) (rows : list SettingRow) (schema_id table_id : Z)
  : result nat :=
  match scoped_setting rows schema_id table_id with
  | None => Ok (default DEFAULT_DATA_INLINING_ROW_LIMIT limit_override)
  | Some value => stored_inlining_limit value
  end.

(** [inlined_delete_table_name]. *)
Definition inlined_delete_table_name (table_id : Z) : result str :=
  if table_id <? 0
  then Err (InvalidConfig ("DuckLake table id must be non-negative, was " ++ show_Z table_id))
  else Ok ("ducklake_inlined_delete_" ++ show_Z table_id).

(** [inlined_delete_groups]: the row ids of each table. The source iterates in the order of
    the names; a group updates its own table only. *)
Definition inlined_delete_groups (rows : list InlinedRowRef) : list (str * list Z) :=
  let groups := foldr (fun row (m : gmap str (gset Z)) =>
    <[irr_table_name row := {[irr_row_id row]} ∪ default ∅ (m !! irr_table_name row)]> m) ∅ rows in
  (fun entry => (entry.1, elements entry.2)) <$> map_to_list groups.

Definition INLINED_INDEX_COLUMNS_SETTING : str := "inlined_index_columns".

Section table.
Context `{InlineValues} `{SortParser} (limit_override : option nat).

(** Rows of a table. *)
Definition of_table {A} (id : A -> Z) (table_id : Z) (v : versioned A) : bool := id (v_row v) =? table_id.

(** The live column rows of [table_id] in column order. *)
Definition live_columns (table_id : Z) (db : Db) : list CatalogColumn :=
  v_row <$> order_by (fun v => co_order (v_row v))
    (select (fun v => of_table co_table_id table_id v && live v) (t_columns db)).

Definition existing_column (column : CatalogColumn) : ExistingCatalogColumn :=
  {| ec_column_id := co_id column; ec_name := co_name column; ec_ducklake_type := co_type column;
     ec_parent_column := co_parent column |}.
Definition nullable (column : CatalogColumn) : bool := default true (co_nulls_allowed column).

(** ** Table rows *)

(** The live table of a name. *)
Definition live_table_named (schema_name table_name : str) (db : Db) : list (versioned TableRow) :=
  t ← select (fun t => str_eqb (tb_name (v_row t)) table_name && live t) (t_tables db);
  _ ← select (fun s => (sch_id (v_row s) =? tb_schema_id (v_row t))
                       && str_eqb (sch_name (v_row s)) schema_name && live s) (t_schemas db);
  [t].

Definition new_schema (schema_id : Z) (schema_name : str) : SchemaRow :=
  {| sch_id := schema_id; sch_name := schema_name; sch_path := directory_path schema_name;
     sch_path_is_relative := true |}.
Definition new_table (table_id schema_id : Z) (table_name : str) : TableRow :=
  {| tb_id := table_id; tb_schema_id := schema_id; tb_name := table_name;
     tb_path := directory_path table_name; tb_path_is_relative := true |}.

(** [insert_new_table_rows]. *)
Definition insert_new_table_rows (snapshot_id table_id : Z) (schema_name table_name : str)
  (base_snapshot : Z) (mode : WriteMode) (reserved_at_setup : bool) : Tx unit :=
  let* live_row := query_optional (live_table_named schema_name table_name) in
  match live_row with
  | Some t =>
      if tb_id (v_row t) =? table_id then
        when reserved_at_setup (lift (refuse_changed_table_id reserved_id_taken mode schema_name table_name))
      else
        throw (Conflict ("table " ++ quote_snapshot_table schema_name table_name
                         ++ " was created by another transaction; retry the write"))
  | None =>
      let* reserved := query (fun db =>
        {| renamed := existsb (fun t => of_table tb_id table_id t && str_eqb (tb_name (v_row t)) table_name)
                        (t_tables db);
           taken := existsb (fun t => of_table tb_id table_id t && negb (str_eqb (tb_name (v_row t)) table_name))
                      (t_tables db)
                    || existsb (of_table sch_id table_id) (t_schemas db)
                    || existsb (Z.eqb table_id) (t_view_ids db)
                    || existsb (of_table pi_id table_id) (t_partition_info db)
                    || existsb (of_table si_id table_id) (t_sort_info db)
                    || existsb (Z.eqb table_id) (t_macro_ids db);
           base_expired := (0 <? base_snapshot)
                           && negb (existsb (fun row => s_id row =? base_snapshot) (t_snapshots db));
           WriterChecks.reserved_at_setup := reserved_at_setup |}) in
      lift (refuse_changed_table_id reserved mode schema_name table_name) ;*
      let* schema_row := query_optional (fun db =>
        select (fun s => str_eqb (sch_name (v_row s)) schema_name && live s) (t_schemas db)) in
      let* schema_id :=
        match schema_row with
        | Some s => ret (sch_id (v_row s))
        | None =>
            let* schema_id := reserve_ids_of ICatalog 1 in
            insert_key t_schemas on_schemas (of_table sch_id schema_id)
              (born snapshot_id (new_schema schema_id schema_name)) ;*
            ret schema_id
        end in
      execute (on_tables (fun l => l ++ [born snapshot_id (new_table table_id schema_id table_name)]))
  end.

(** ** Conflict checks *)

Definition changed_after {A} (base_snapshot : Z) (v : versioned A) : bool :=
  (base_snapshot <? v_begin v) || match v_end v with Some e => base_snapshot <? e | None => false end.

Inductive ConflictScope := ScopeTable | ScopeInlinedFlush.

(** [ConflictScope::of] and [ConflictScope::counts_delete_files]. *)
Definition scope_of (write : StagedTableWrite) : ConflictScope :=
  if st_inlined_flush write then ScopeInlinedFlush else ScopeTable.
Definition counts_delete_files (scope : ConflictScope) : bool :=
  match scope with ScopeTable => true | ScopeInlinedFlush => false end.

(** The loop over inlined tables of [detect_replace_conflict]. *)
Definition refuse_changed_inlined (names : list str) (base_snapshot : Z) (e : DuckLakeError) : Tx unit :=
  for_each names (fun name =>
    let* table := physical_table name in
    ensure (negb (existsb (changed_after base_snapshot) (p_rows table))) e).

(** [detect_replace_conflict]. *)
Definition detect_replace_conflict (table_id base_snapshot : Z) (scope : ConflictScope) : Tx unit :=
  let* conflicts := query (fun db =>
    existsb (fun v => of_table d_table_id table_id v && changed_after base_snapshot v) (t_data_files db)
    || (counts_delete_files scope
        && existsb (fun v => of_table x_table_id table_id v && changed_after base_snapshot v)
             (t_delete_files db))) in
  ensure (negb conflicts) (Conflict ("Replace on table " ++ show_Z table_id
    ++ " conflicts with a concurrent write committed since snapshot " ++ show_Z base_snapshot
    ++ "; aborting (retry the write against the new generation)")) ;*
  let* names := inlined_tables table_id in
  refuse_changed_inlined names base_snapshot (Conflict ("Replace on table " ++ show_Z table_id
    ++ " conflicts with inlined data committed since snapshot " ++ show_Z base_snapshot ++ "; aborting")) ;*
  let* name := lift (inlined_delete_table_name table_id) in
  let* deletes := query (fun db => default [] (t_inlined_deletes db !! name)) in
  ensure (negb (existsb (fun row => match i_begin_snapshot row with
                                    | Some b => base_snapshot <? b | None => false end) deletes))
    (Conflict ("Replace on table " ++ show_Z table_id
       ++ " conflicts with an inlined delete committed since snapshot " ++ show_Z base_snapshot ++ "; aborting")).

(** [detect_created_table_conflict]. *)
Definition detect_created_table_conflict (table_id base_snapshot : Z) : Tx unit :=
  let* created := query (fun db => existsb (fun t => of_table tb_id table_id t && (base_snapshot <? v_begin t))
                                     (t_tables db)) in
  ensure (negb created) (created_table_conflict table_id base_snapshot).

(** [detect_new_inlined_deletes]: the deletions after the base that no earlier one made. *)
Definition new_inlined_deletes (base_snapshot : Z) (sources : list SourceFile) (rows : list InlinedDeleteRow)
  : list (Z * option Z) :=
  (fun row => (i_file_id row, i_row_id row)) <$> select (fun newer =>
    existsb (fun source => sf_data_file_id source =? i_file_id newer) sources
    && match i_begin_snapshot newer with
       | None => true
       | Some begin_ =>
           (base_snapshot <? begin_)
           && match i_row_id newer with
              | None => true
              | Some row_id =>
                  negb (existsb (fun prior => (i_file_id prior =? i_file_id newer)
                          && bool_decide (i_row_id prior = Some row_id)
                          && match i_begin_snapshot prior with
                             | Some b => b <=? base_snapshot | None => false end) rows)
              end
       end) rows.
Definition detect_new_inlined_deletes (table_id base_snapshot : Z) (sources : list SourceFile) : Tx unit :=
  if is_empty sources then ret tt
  else
    let* name := lift (inlined_delete_table_name table_id) in
    let* rows := query (fun db => t_inlined_deletes db !! name) in
    match rows with
    | None => ret tt
    | Some rows =>
        lift (inlined_deletion_conflict table_id base_snapshot sources
                (new_inlined_deletes base_snapshot sources rows))
    end.

(** [changes_between]. *)
Definition changes_between (base_snapshot snapshot_id : Z) : Tx (list (option str)) :=
  query (fun db => c_changes_made <$> select (fun row =>
    (base_snapshot <? c_snapshot_id row) && (c_snapshot_id row <? snapshot_id)) (t_snapshot_changes db)).

(** [check_staged_conflicts] and [check_table_conflicts]. *)
Definition refuse (conflict : option DuckLakeError) : Tx unit :=
  match conflict with Some e => throw e | None => ret tt end.
Definition check_staged_conflicts (write : StagedTableWrite) (snapshot_id : Z) : Tx unit :=
  let* changes := changes_between (st_base_snapshot_id write) snapshot_id in
  refuse (staged_conflict write changes).
Definition check_table_conflicts (table_id base_snapshot snapshot_id : Z) (ours : TableChanges) : Tx unit :=
  let* changes := changes_between base_snapshot snapshot_id in
  refuse (table_conflict table_id ours changes).

(** [deleted_files_table]. *)
Definition deleted_files_table (table_id : Z) (deletes : list DeleteFileEntry) : Tx Z :=
  match deletes with
  | [] => ret table_id
  | entry :: _ =>
      let* file := query_optional (fun db => select (of_table d_id (de_data_file_id entry)) (t_data_files db)) in
      ret (default table_id ((fun v => d_table_id (v_row v)) <$> file))
  end.

(** [enforce_inline_partition_fence]. *)
Definition enforce_inline_partition_fence (table_id base_snapshot : Z) : Tx unit :=
  let* changed := query (fun db => existsb (fun v => of_table pi_table_id table_id v && changed_after base_snapshot v)
                                     (t_partition_info db)) in
  ensure (negb changed) (Conflict ("partition spec for table " ++ show_Z table_id
                                   ++ " changed during inline write; retry the write")).

(** ** Retiring rows *)

(** [retire_prior_generation]. *)
Definition retire_prior_generation (table_id snapshot_id : Z) : Tx unit :=
  execute (on_data_files (update (fun v => of_table d_table_id table_id v && live v && (v_begin v <? snapshot_id))
                            (ended snapshot_id))) ;*
  let* names := inlined_tables table_id in
  for_each names (fun name =>
    update_physical name (update (fun v => live v && (v_begin v <? snapshot_id)) (ended snapshot_id))).

(** [SELECT delete_file_id FROM ducklake_delete_file WHERE data_file_id = ? AND
    end_snapshot IS NULL]. *)
Definition live_delete_file (data_file_id : Z) : Tx (option Z) :=
  let* row := query_optional (fun db =>
    select (fun v => of_table x_data_file_id data_file_id v && live v) (t_delete_files db)) in
  ret ((fun v => x_id (v_row v)) <$> row).

Definition delete_file_row (delete_file_id data_file_id table_id : Z) (delete : DeleteFileInfo)
  (partial_max : option Z) : DeleteFileRow :=
  {| x_id := delete_file_id; x_table_id := table_id; x_data_file_id := data_file_id;
     x_path := del_path delete; x_path_is_relative := del_path_is_relative delete;
     x_delete_count := del_delete_count delete; x_file_size_bytes := del_file_size_bytes delete;
     x_footer_size := del_footer_size delete; x_partial_max := partial_max |}.

(** [Debug] of an [Option<i64>], in a conflict's text. *)
Definition show_option (o : option Z) : str :=
  match o with Some n => "Some(" ++ show_Z n ++ ")" | None => "None" end.

(** [apply_delete_entry]. *)
Definition apply_delete_entry (table_id base_snapshot snapshot_id : Z) (entry : DeleteFileEntry) : Tx unit :=
  let id := de_data_file_id entry in
  let* target_live := query (fun db => existsb (fun v => of_table d_id id v && live v) (t_data_files db)) in
  ensure target_live (Conflict ("UPDATE/DELETE on data file " ++ show_Z id
    ++ " could not commit: the file is no longer live as of the catalog's current head (retired since snapshot "
    ++ show_Z base_snapshot ++ "); re-open the catalog at the latest snapshot and retry")) ;*
  let* current := live_delete_file id in
  ensure (bool_decide (current = de_expected_prev_delete_file entry))
    (Conflict ("UPDATE/DELETE on data file " ++ show_Z id
       ++ " could not commit: its live delete file changed from "
       ++ show_option (de_expected_prev_delete_file entry) ++ " to " ++ show_option current
       ++ " since snapshot " ++ show_Z base_snapshot
       ++ "; re-open the catalog at the latest snapshot and retry")) ;*
  match de_expected_prev_delete_file entry with
  | Some previous =>
      execute (on_delete_files (update (fun v => of_table x_id previous v && live v) (ended snapshot_id)))
  | None => ret tt
  end ;*
  let* delete_file_id := reserve_file_id in
  insert_key t_delete_files on_delete_files (of_table x_id delete_file_id)
    (born snapshot_id (delete_file_row delete_file_id id table_id (de_delete entry) None)).

(** [drop_data_files]. *)
Definition drop_data_files (table_id snapshot_id base_snapshot : Z) (files : list DroppedDataFile) : Tx unit :=
  for_each files (fun file =>
    let* current := live_delete_file (dr_data_file_id file) in
    let matches v := of_table d_id (dr_data_file_id file) v && of_table d_table_id table_id v && live v in
    let* ended_count := query (fun db => length (select matches (t_data_files db))) in
    execute (on_data_files (update matches (ended snapshot_id))) ;*
    ensure ((ended_count =? 1)%nat && bool_decide (current = dr_expected_delete_file file))
      (Conflict ("data file " ++ show_Z (dr_data_file_id file)
         ++ " or its delete file changed since snapshot " ++ show_Z base_snapshot
         ++ "; re-open the catalog and retry the statement"))).

(** [insert_flush_delete_file]. *)
Definition insert_flush_delete_file (table_id data_file_id : Z) (delete : InlinedFlushDeleteFile) : Tx unit :=
  let* delete_file_id := reserve_file_id in
  insert_key t_delete_files on_delete_files (of_table x_id delete_file_id)
    {| v_begin := ifd_begin_snapshot delete; v_end := ifd_end_snapshot delete;
       v_row := delete_file_row delete_file_id data_file_id table_id (ifd_delete delete)
                  (ifd_partial_max delete) |}.

(** [RESOLVED_PATH] and [REL_FLAG] of a file's row in its table and schema. *)
Definition rtrim (s : str) : str := trim_end_matches "/" s.
Definition ltrim (s : str) : str := drop_while (char_eqb "/") s.
Definition resolved_path (path : str) (relative : bool) (t : TableRow) (s : SchemaRow) : str :=
  if negb relative then path
  else if negb (tb_path_is_relative t) then rtrim (tb_path t) ++ "/" ++ ltrim path
  else rtrim (sch_path s) ++ "/" ++ rtrim (tb_path t) ++ "/" ++ ltrim path.
Definition rel_flag (relative : bool) (t : TableRow) (s : SchemaRow) : bool :=
  relative && tb_path_is_relative t && sch_path_is_relative s.

(** The rows [INSERT INTO ducklake_files_scheduled_for_deletion SELECT ...] adds: one per
    table row and schema row of each file. *)
Definition scheduled_rows (files : list (Z * Z * str * bool)) (db : Db) : list ScheduledRow :=
  '(id, table_id, path, relative) ← files;
  t ← select (of_table tb_id table_id) (t_tables db);
  s ← select (of_table sch_id (tb_schema_id (v_row t))) (t_schemas db);
  [{| sd_file_id := id; sd_path := resolved_path path relative (v_row t) (v_row s);
      sd_path_is_relative := rel_flag relative (v_row t) (v_row s); sd_schedule_start := t_clock db |}].
Definition schedule (files : Db -> list (Z * Z * str * bool)) : Tx unit :=
  execute (fun db => on_scheduled (fun l => l ++ scheduled_rows (files db) db) db).
Definition delete_file_entry (v : versioned DeleteFileRow) : Z * Z * str * bool :=
  (x_id (v_row v), x_table_id (v_row v), x_path (v_row v), x_path_is_relative (v_row v)).
Definition data_file_entry (v : versioned DataFileRow) : Z * Z * str * bool :=
  (d_id (v_row v), d_table_id (v_row v), d_path (v_row v), d_path_is_relative (v_row v)).

(** [replace_delete_files]. *)
Definition replace_delete_files (table_id : Z) (entries : list InlinedFlushFileDelete) (conflict : DuckLakeError)
  : Tx unit :=
  for_each entries (fun entry =>
    let id := iffd_data_file_id entry in
    let* target := query_optional (fun db => select (of_table d_id id) (t_data_files db)) in
    let* current := query_optional (fun db => order_by_desc v_begin (select (fun v =>
      of_table x_data_file_id id v && (live v || bool_decide (is_Some (iffd_data_file_end entry))))
      (t_delete_files db))) in
    ensure (bool_decide (v_end <$> target = Some (iffd_data_file_end entry))
            && bool_decide ((fun v => x_id (v_row v)) <$> current = iffd_expected_prev_delete_file entry)) conflict ;*
    match iffd_expected_prev_delete_file entry with
    | Some previous =>
        schedule (fun db => delete_file_entry <$> select (of_table x_id previous) (t_delete_files db)) ;*
        execute (on_delete_files (delete_where (of_table x_id previous)))
    | None => ret tt
    end ;*
    insert_flush_delete_file table_id id (iffd_delete entry)).

(** ** Data files and statistics *)

Definition data_file_row (data_file_id table_id : Z) (file : DataFileInfo) (row_id_start partial_max : option Z)
  : DataFileRow :=
  {| d_id := data_file_id; d_table_id := table_id; d_path := df_path file;
     d_path_is_relative := df_path_is_relative file; d_record_count := df_record_count file;
     d_file_size_bytes := df_file_size_bytes file; d_footer_size := df_footer_size file;
     d_row_id_start := row_id_start; d_partition_id := None; d_partial_max := partial_max |}.
Definition with_partition_id (partition_id : Z) (row : DataFileRow) : DataFileRow :=
  {| d_id := d_id row; d_table_id := d_table_id row; d_path := d_path row;
     d_path_is_relative := d_path_is_relative row; d_record_count := d_record_count row;
     d_file_size_bytes := d_file_size_bytes row; d_footer_size := d_footer_size row;
     d_row_id_start := d_row_id_start row; d_partition_id := Some partition_id;
     d_partial_max := d_partial_max row |}.

(** [insert_file_column_stats]. *)
Definition insert_file_column_stats (table_id data_file_id : Z) (column_stats : list ColumnStat) : Tx unit :=
  lift (reject_duplicate_column_stats column_stats) ;*
  execute (on_file_stats (fun l => l ++ ((fun stat =>
    {| fs_data_file_id := data_file_id; fs_table_id := table_id; fs_stat := stat |}) <$> column_stats))).

(** [insert_partition_metadata]. *)
Definition insert_partition_metadata (table_id data_file_id : Z) (file : DataFileInfo) : Tx unit :=
  match df_partition_id file with
  | Some partition_id =>
      execute (on_data_files (update (of_table d_id data_file_id) (with_row (with_partition_id partition_id))))
  | None => ret tt
  end ;*
  execute (on_file_partition_values (fun l => l ++ ((fun value =>
    {| pv_data_file_id := data_file_id; pv_table_id := table_id; pv_key_index := value.1;
       pv_value := value.2 |}) <$> df_partition_values file))).

(** The insertion of one data file that every commit repeats: an id, the row, its
    statistics and its partition values. *)
Definition insert_data_file (table_id begin_snapshot : Z) (file : DataFileInfo) (row_id_start partial_max : option Z)
  : Tx Z :=
  let* data_file_id := reserve_file_id in
  insert_key t_data_files on_data_files (of_table d_id data_file_id)
    (born begin_snapshot (data_file_row data_file_id table_id file row_id_start partial_max)) ;*
  insert_file_column_stats table_id data_file_id (df_column_stats file) ;*
  insert_partition_metadata table_id data_file_id file ;*
  ret data_file_id.

(** The live partition spec's id. *)
Definition live_partition_id (table_id : Z) : Tx (option Z) :=
  let* row := query_optional (fun db => select (fun v => of_table pi_table_id table_id v && live v)
                                          (t_partition_info db)) in
  ret ((fun v => pi_id (v_row v)) <$> row).
Definition enforce_partition_fences (table_id : Z) (files : list DataFileInfo) : Tx unit :=
  let* live_partition_id := live_partition_id table_id in
  for_each files (fun file => lift (enforce_partition_fence table_id live_partition_id file)).

(** [SELECT next_row_id FROM ducklake_table_stats WHERE table_id = ?]. *)
Definition next_row_id (table_id : Z) : Tx Z :=
  let* row := query_row (fun db => select (fun row => ts_table_id row =? table_id) (t_table_stats db)) in
  ret (ts_next_row_id row).

(** [UPDATE ducklake_table_stats SET next_row_id = next_row_id + ?, record_count =
    record_count + ?, file_size_bytes = file_size_bytes + ? WHERE table_id = ?]. *)
Definition advance_table_stats (table_id advance records bytes : Z) : Tx unit :=
  let* rows := query t_table_stats in
  let* rows' := map_each rows (fun row =>
    if ts_table_id row =? table_id then
      let* next := bigint (ts_next_row_id row + advance) in
      let* count := bigint (ts_record_count row + records) in
      let* size := bigint (ts_file_size_bytes row + bytes) in
      ret {| ts_table_id := table_id; ts_record_count := count; ts_next_row_id := next;
             ts_file_size_bytes := size |}
    else ret row) in
  execute (on_table_stats (fun _ => rows')).

(** [live_stat_fields]. *)
Definition live_stat_fields (table_id : Z) : Tx (list (Z * str)) :=
  query (fun db => (fun v => (co_id (v_row v), co_type (v_row v)))
    <$> select (fun v => of_table co_table_id table_id v && live v) (t_columns db)).

(** [table_stats_initialized]. *)
Definition table_stats_initialized (table_id : Z) : Tx bool :=
  query (fun db =>
    existsb (fun row => (ts_table_id row =? table_id) && (0 <? ts_next_row_id row)) (t_table_stats db)
    || existsb (fun row => tcs_table_id row =? table_id) (t_table_column_stats db)).

(** Whether a stored row says nothing: neither bound, no NaN and no extra statistics, over
    an earlier live file not known to hold only NULLs or only NaN. *)
Definition unknown_bounds (db : Db) (row : TableColumnStatRow) : bool :=
  let stat := tcs_stat row in
  bool_decide (gc_min_value stat = None) && bool_decide (gc_max_value stat = None)
  && negb (default false (gc_contains_nan stat)) && bool_decide (tcs_extra_stats row = None)
  && existsb (fun v =>
       of_table d_table_id (tcs_table_id row) v && live v
       && match max_list (s_id <$> t_snapshots db) with Some head => v_begin v <? head | None => false end
       && negb (existsb (fun f =>
            (fs_data_file_id f =? d_id (v_row v)) && (cs_column_id (fs_stat f) =? gc_column_id stat)
            && ((bool_decide (is_Some (cs_null_count (fs_stat f)))
                 && bool_decide (cs_value_count (fs_stat f) = Some 0))
                || (default false (cs_contains_nan (fs_stat f))
                    && bool_decide (cs_min_value (fs_stat f) = None)
                    && bool_decide (cs_max_value (fs_stat f) = None)))) (t_file_stats db)))
     (t_data_files db).

(** [load_table_column_stats]. *)
Definition load_table_column_stats (table_id : Z) : Tx (list GlobalColumnStat) :=
  query (fun db => tcs_stat <$> select (fun row =>
    (tcs_table_id row =? table_id) && negb (unknown_bounds db row)) (t_table_column_stats db)).

(** [store_table_column_stats]: a kept row keeps its extra statistics. *)
Definition store_table_column_stats (table_id : Z) (globals : list GlobalColumnStat) : Tx unit :=
  let* extra := query (fun db => omap (fun row =>
    extra ← tcs_extra_stats row; Some (gc_column_id (tcs_stat row), extra))
    (select (fun row => tcs_table_id row =? table_id) (t_table_column_stats db))) in
  let extra : gmap Z str := list_to_map (reverse extra) in
  execute (on_table_column_stats (delete_where (fun row => tcs_table_id row =? table_id))) ;*
  execute (on_table_column_stats (fun l => l ++ ((fun stat =>
    {| tcs_table_id := table_id; tcs_stat := stat; tcs_extra_stats := extra !! gc_column_id stat |}) <$> globals))).

(** [merge_file_table_column_stats]. *)
Definition merge_file_table_column_stats (table_id : Z) (fields : list (Z * str))
  (files : list (list FileColumnStat)) : Tx unit :=
  let* initialized := table_stats_initialized table_id in
  let* existing := load_table_column_stats table_id in
  store_table_column_stats table_id
    (merge_file_column_stats existing initialized files (fst <$> fields) (stat_kind_of fields)).

(** [merge_inlined_table_column_stats]. *)
Definition merge_inlined_table_column_stats (table_id : Z) (columns : list ColumnDef) (column_ids : list Z)
  (batches : list RecordBatch) (snapshot_id_columns : list str) (snapshot_id : Z) (initialized : bool) : Tx unit :=
  let* fields := lift (catalog_fields columns column_ids) in
  let* inlined := lift (inlined_column_stats batches fields (fun i =>
    column ← columns !! i;
    if existsb (str_eqb (cd_name column)) snapshot_id_columns then Some snapshot_id else None)) in
  let* existing := load_table_column_stats table_id in
  store_table_column_stats table_id (merge_inlined_column_stats existing inlined initialized (stat_kind_of fields)).

(** ** Inlined data *)

(** [live_table_columns]. *)
Definition live_table_columns (table_id : Z) : Tx (list ColumnRow) :=
  query (fun db => (fun column =>
    (DuckLakeTableColumn_new (co_id column) (co_name column) (co_type column) (nullable column),
     co_parent column)) <$> live_columns table_id db).

(** [catalog_inlined_system_columns]. *)
Definition catalog_inlined_system_columns : Tx InlinedSystemColumns :=
  query (fun db => for_catalog_version (m_value <$> head (select (is_counter "version") (t_metadata db)))).

(** [INLINED_INDEX_COLUMNS_SETTING]; [duckdb_inlined_index_columns] and [ensure_duckdb_physical_indexes]. *)
Definition duckdb_inlined_index_columns (table_id : Z) : Tx (list str) :=
  let* value := query_optional (fun db => select (fun row =>
    str_eqb (m_key row) INLINED_INDEX_COLUMNS_SETTING && bool_decide (m_scope row = Some (lit "table"))
    && bool_decide (m_scope_id row = Some table_id)) (t_metadata db)) in
  let* declared := lift (parse_inlined_index_columns (default [] (m_value <$> value))) in
  let* available := query (fun db => list_to_set ((fun v => co_name (v_row v)) <$> select (fun v =>
    of_table co_table_id table_id v && live v && bool_decide (co_parent (v_row v) = None)) (t_columns db))) in
  ret (live_inlined_index_columns declared available).
Definition ensure_duckdb_physical_indexes (table_id : Z) (physical_name : str) : Tx unit :=
  let* declared := duckdb_inlined_index_columns table_id in
  let* table := physical_table physical_name in
  for_each declared (fun column =>
    when (existsb (str_eqb column) (p_columns table))
      (execute (on_indexes (union {[physical_name ++ "_" ++ column ++ "_idx"]})))).

(** [create_inlined_data_table]. *)
Definition create_inlined_data_table (table_id schema_version : Z) (fields : list (str * DataType * str)) : Tx str :=
  let physical_name := "ducklake_inlined_data_" ++ show_Z table_id ++ "_" ++ show_Z schema_version in
  let* system := catalog_inlined_system_columns in
  for_each fields (fun field => let* _ := lift (inlined_duckdb_type field.1.2 field.2) in ret tt) ;*
  execute (on_inlined_data (fun m =>
    match m !! physical_name with
    | Some _ => m
    | None => <[physical_name := {| p_columns := sys_row_id system :: sys_begin_snapshot system
                                      :: sys_end_snapshot system :: ((fun field => field.1.1) <$> fields);
                                    p_rows := [] |}]> m
    end)) ;*
  ensure_duckdb_physical_indexes table_id physical_name ;*
  let* registered := query (fun db => existsb (fun row =>
    (r_table_id row =? table_id) && (r_schema_version row =? schema_version)) (t_registry db)) in
  when (negb registered)
    (execute (on_registry (fun l => l ++ [{| r_table_id := table_id; r_table_name := physical_name;
                                             r_schema_version := schema_version |}]))) ;*
  ret physical_name.

(** [table_inlining_limit]. *)
Definition setting_rows (key : str) (db : Db) : list SettingRow :=
  (fun row => (m_scope row, m_scope_id row, m_value row))
    <$> select (fun row => str_eqb (m_key row) key) (t_metadata db).
Definition table_inlining_limit (table_id : Z) : Tx nat :=
  let* row := query_optional (fun db => select (fun t => of_table tb_id table_id t && live t) (t_tables db)) in
  match row with
  | None => ret 0%nat
  | Some t =>
      let* settings := query (setting_rows "data_inlining_row_limit") in
      lift (effective_inlining_limit limit_override settings (tb_schema_id (v_row t)) table_id)
  end.

(** [reject_new_reserved_columns]. *)
Definition reject_new_reserved_columns (table_id : Z) (existing : list ExistingCatalogColumn)
  (proposed : list CatalogColumnDef) : Tx unit :=
  let* system := catalog_inlined_system_columns in
  match new_reserved_column existing proposed system with
  | None => ret tt
  | Some column =>
      let* limit := table_inlining_limit table_id in
      ensure (limit =? 0)%nat (reserved_inlining_column_error column)
  end.

(** [create_eager_inlined_table]. *)
Definition create_eager_inlined_table (table_id schema_version : Z) : Tx unit :=
  let* limit := table_inlining_limit table_id in
  if (limit =? 0)%nat then ret tt
  else
    let* columns := live_table_columns table_id in
    let* system := catalog_inlined_system_columns in
    let* fields := lift_outcome (inlinable_columns columns system None duckdb_type_inlines) in
    match fields with
    | Some fields => let* _ := create_inlined_data_table table_id schema_version fields in ret tt
    | None => ret tt
    end.

(** [inlined_insert_table]. *)
Definition inlined_insert_table (table_id snapshot_id : Z) (fields : list (str * DataType * str)) : Tx str :=
  let create :=
    let* rows := query t_snapshots in
    let* rows' := map_each rows (fun row =>
      if s_id row =? snapshot_id
      then let* version := bigint (s_schema_version row + 1) in ret (with_schema_version version row)
      else ret row) in
    execute (on_snapshots (fun _ => rows')) ;*
    let* row := query_row (fun db => select (fun row => s_id row =? snapshot_id) (t_snapshots db)) in
    create_inlined_data_table table_id (s_schema_version row) fields in
  let* latest := query_optional (fun db =>
    order_by_desc r_schema_version (select (fun row => r_table_id row =? table_id) (t_registry db))) in
  match latest with
  | None => create
  | Some row =>
      let name := r_table_name row in
      let* table := physical_table name in
      let present := p_columns table in
      if (length present =? length fields + 3)%nat
         && bool_decide (drop 3 present = (fun field => field.1.1) <$> fields)
      then ensure_duckdb_physical_indexes table_id name ;* ret name
      else
        let* changed_now := query (fun db => existsb (fun v =>
          of_table co_table_id table_id v
          && ((v_begin v =? snapshot_id) || bool_decide (v_end v = Some snapshot_id))) (t_columns db)) in
        if changed_now : bool then create
        else throw (inlined_table_shape_error name (length present) (length fields + 3))
  end.

(** The stored cells of one row of a batch: a [NULL] of a snapshot-id column is stored as
    the commit's snapshot. *)
Definition encode_row (snapshot_id : Z) (snapshot_id_columns : list str) (columns : list ColumnDef)
  (schema : list Field) (batch : RecordBatch) (row : nat) : result (list Cell) :=
  mapM_result (fun '(i, (column, field)) =>
    if existsb (str_eqb (cd_name column)) snapshot_id_columns && value_is_null batch i row then
      let? type := inlined_duckdb_type (field_type field) (cd_ducklake_type column) in
      Ok (snapshot_cell type snapshot_id)
    else encode_duckdb_value batch i row (cd_ducklake_type column))
    (zip (seq 0 (length schema)) (zip columns schema)).

(** The rows of the batches, each a batch and a position in it. *)
Definition batch_rows (batches : list RecordBatch) : list (RecordBatch * nat) :=
  batch ← batches; (fun row => (batch, row)) <$> seq 0 (num_rows batch).

(** [for batch in batches { for batch_row in .. }]: one insert per row. *)
Fixpoint insert_inlined_rows (physical_name : str) (snapshot_id : Z) (snapshot_id_columns : list str)
  (columns : list ColumnDef) (schema : list Field) (row_ids : option (list Z)) (row_id : Z) (written : nat)
  (rows : list (RecordBatch * nat)) : Tx unit :=
  match rows with
  | [] => ret tt
  | (batch, row) :: rest =>
      let* cells := lift (encode_row snapshot_id snapshot_id_columns columns schema batch row) in
      let* stored := match row_ids with
                     | Some ids => lift_outcome (or_panic (ids !! written))
                     | None => ret row_id
                     end in
      ensure (length cells =? length columns)%nat (External "column count does not match value count") ;*
      update_physical physical_name (fun l =>
        l ++ [born snapshot_id {| n_row_id := stored; n_cells := cells |}]) ;*
      let* row_id := rust_i64 (row_id + 1) in
      insert_inlined_rows physical_name snapshot_id snapshot_id_columns columns schema row_ids row_id
        (S written) rest
  end.

(** The columns an inline write stores, with the batch's types. *)
Definition inline_fields (columns : list ColumnDef) (schema : list Field) : list (str * DataType * str) :=
  (fun '(column, field) => (cd_name column, field_type field, cd_ducklake_type column)) <$> zip columns schema.

(** [commit_staged_inline]. *)
Definition commit_staged_inline (snapshot_id : Z) (write : StagedTableWrite) (batches : list RecordBatch) : Tx unit :=
  let table_id := st_table_id write in
  enforce_inline_partition_fence table_id (st_base_snapshot_id write) ;*
  let record_count := sum_list (num_rows <$> batches) in
  ensure (negb (record_count =? 0)%nat) (InvalidConfig "multi-table inline stage requires at least one row") ;*
  let* first := lift_outcome (or_panic (head batches)) in
  let schema := batch_schema first in
  let* physical_name := inlined_insert_table table_id snapshot_id (inline_fields (st_columns write) schema) in
  inlined_table_layout physical_name ;*
  let* stats_initialized := table_stats_initialized table_id in
  seed_stats_if_missing table_id ;*
  let* row_id := next_row_id table_id in
  insert_inlined_rows physical_name snapshot_id (st_snapshot_id_columns write) (st_columns write) schema
    (st_inlined_row_ids write) row_id 0 (batch_rows batches) ;*
  merge_inlined_table_column_stats table_id (st_columns write) (st_column_ids write) batches
    (st_snapshot_id_columns write) snapshot_id stats_initialized ;*
  let count := Z.of_nat record_count in
  ensure (in_i64 count) (InvalidConfig "multi-table inline row count exceeds i64") ;*
  let advance := match st_inlined_row_ids write with Some _ => 0 | None => count end in
  advance_table_stats table_id advance count 0.

(** [live_inlined_row_count]. *)
Definition live_inlined_row_count (table_id : Z) : Tx Z :=
  let* names := inlined_tables table_id in
  let* counts := map_each names (fun name =>
    let* table := physical_table name in ret (length (select live (p_rows table)))) in
  rust_i64 (Z.of_nat (sum_list counts)).

(** [apply_inlined_deletes]. *)
Definition apply_inlined_deletes (table_id snapshot_id base_snapshot : Z) (rows : list InlinedRowRef) : Tx unit :=
  if is_empty rows then ret tt
  else
    let* registered := inlined_tables table_id in
    for_each registered (fun name =>
      let* table := physical_table name in
      let between z := (base_snapshot <? z) && (z <? snapshot_id) in
      ensure (negb (existsb (fun v => between (v_begin v)
                              || match v_end v with Some e => between e | None => false end) (p_rows table)))
        (Conflict "inlined rows changed since the delete snapshot")) ;*
    for_each (inlined_delete_groups rows) (fun '(name, row_ids) =>
      ensure (existsb (str_eqb name) registered)
        (Conflict ("inlined deletes reference unregistered table '" ++ name ++ "'")) ;*
      update_physical name (update (fun v =>
        existsb (Z.eqb (n_row_id (v_row v))) row_ids && live v && negb (v_begin v =? snapshot_id))
        (ended snapshot_id))).

(** [apply_staged_inlined_deletes]. *)
Definition apply_staged_inlined_deletes (snapshot_id : Z) (write : StagedTableWrite) : Tx unit :=
  apply_inlined_deletes (st_table_id write) snapshot_id (st_base_snapshot_id write) (st_inlined_deletes write).

(** [apply_inlined_file_deletes]. *)
Definition apply_inlined_file_deletes (table_id snapshot_id base_snapshot : Z) (deletes : list InlinedFileDelete)
  : Tx unit :=
  if is_empty deletes then ret tt
  else
    for_each deletes (fun delete =>
      let id := ild_data_file_id delete in
      let* live_file := query (fun db => existsb (fun v =>
        of_table d_id id v && of_table d_table_id table_id v && live v) (t_data_files db)) in
      ensure live_file (Conflict ("data file " ++ show_Z id ++ " is no longer live since snapshot "
        ++ show_Z base_snapshot ++ "; re-open the catalog and retry the statement")) ;*
      let* delete_file := live_delete_file id in
      ensure (bool_decide (delete_file = ild_expected_delete_file delete))
        (changed_delete_file_conflict id base_snapshot)) ;*
    let* name := lift (inlined_delete_table_name table_id) in
    execute (on_inlined_deletes (fun m => match m !! name with Some _ => m | None => <[name := []]> m end)) ;*
    for_each deletes (fun delete => for_each (ild_positions delete) (fun position =>
      execute (on_inlined_deletes (alter (fun l =>
        l ++ [{| i_file_id := ild_data_file_id delete; i_row_id := Some position;
                 i_begin_snapshot := Some snapshot_id |}]) name)))).

(** [has_live_data]: live files, and live inlined rows. *)
Definition has_live_data (table_id : Z) : Tx (bool * bool) :=
  let* has_files := query (fun db => existsb (fun v => of_table d_table_id table_id v && live v) (t_data_files db)) in
  let* names := inlined_tables table_id in
  let* has_rows := any_inlined names live in
  ret (has_files, has_rows).

(** [validate_staged_table]. *)
Definition validate_staged_table (write : StagedTableWrite) : Tx Z :=
  let table_id := st_table_id write in
  let target := "multi-table write target " ++ st_schema_name write ++ "." ++ st_table_name write in
  let* row := query_optional (fun db => select (fun t => of_table tb_id table_id t && live t) (t_tables db)) in
  let* schema_id := lift (ok_or ((fun t => tb_schema_id (v_row t)) <$> row)
                            (Conflict (target ++ " is no longer live"))) in
  let* proposed := lift (catalog_column_defs (st_columns write)) in
  let* current := query (live_columns table_id) in
  if is_empty current && (length proposed =? length (st_column_ids write))%nat then ret schema_id
  else
    let* same := lift_outcome (staged_columns_match (existing_column <$> current) (nullable <$> current) proposed
                                 (st_column_ids write)) in
    ensure same (Conflict (target ++ " changed schema after staging")) ;*
    ret schema_id.

(** The loop of [commit_staged_files], with its running totals. *)
Fixpoint insert_staged_files (snapshot_id table_id : Z) (files : list DataFileInfo)
  (next_row_id advance_ records bytes : Z) : Tx (Z * Z * Z) :=
  match files with
  | [] => ret (advance_, records, bytes)
  | file :: rest =>
      let row_ids := allocate_row_id_start next_row_id file in
      let* _ := insert_data_file table_id snapshot_id file (RowIds.stored row_ids) None in
      let* next_row_id := rust_i64 (next_row_id + advance row_ids) in
      let* advance_ := rust_i64 (advance_ + advance row_ids) in
      let* records := rust_i64 (records + df_record_count file) in
      let* bytes := rust_i64 (bytes + df_file_size_bytes file) in
      insert_staged_files snapshot_id table_id rest next_row_id advance_ records bytes
  end.

(** [commit_staged_files]. *)
Definition commit_staged_files (snapshot_id : Z) (write : StagedTableWrite) (files : list DataFileInfo) : Tx unit :=
  let table_id := st_table_id write in
  ensure (negb (is_empty files)) (InvalidConfig "multi-table file stage requires at least one file") ;*
  enforce_partition_fences table_id files ;*
  seed_stats_if_missing table_id ;*
  let* next := next_row_id table_id in
  let* totals := insert_staged_files snapshot_id table_id files next 0 0 0 in
  let* fields := lift (catalog_fields (st_columns write) (st_column_ids write)) in
  merge_file_table_column_stats table_id fields (file_column_stats files) ;*
  advance_table_stats table_id totals.1.1 totals.1.2 totals.2.

(** ** Finalizing a snapshot *)

Definition catalog_column (column_id table_id order : Z) (column : CatalogColumnDef) (parent_id : option Z)
  : CatalogColumn :=
  {| co_id := column_id; co_table_id := table_id; co_order := order; co_name := ccd_name column;
     co_type := ccd_ducklake_type column; co_initial_default := ccd_initial_default column;
     co_default_value := ccd_default_value column; co_nulls_allowed := Some (ccd_is_nullable column);
     co_parent := parent_id; co_default_value_type := ccd_default_value_type column;
     co_default_value_dialect := ccd_default_value_dialect column |}.

(** A later version of a column's row: another type, order or nullability. *)
Definition revised_column (column_type : str) (order : Z) (nulls_allowed : bool) (column : CatalogColumn) : CatalogColumn :=
  {| co_id := co_id column; co_table_id := co_table_id column; co_order := order; co_name := co_name column;
     co_type := column_type; co_initial_default := co_initial_default column;
     co_default_value := co_default_value column; co_nulls_allowed := Some nulls_allowed;
     co_parent := co_parent column; co_default_value_type := co_default_value_type column;
     co_default_value_dialect := co_default_value_dialect column |}.

(** [UPDATE ducklake_column SET end_snapshot = ? WHERE table_id = ? AND column_id = ? AND
    end_snapshot IS NULL]. *)
Definition end_column (snapshot_id table_id column_id : Z) : Tx unit :=
  execute (on_columns (update (fun v => of_table co_table_id table_id v && of_table co_id column_id v && live v)
                         (ended snapshot_id))).

(** [INSERT INTO ducklake_column ... SELECT ... FROM ducklake_column WHERE table_id = ? AND
    column_id = ? AND end_snapshot = ? LIMIT 1]. *)
Definition revise_column (snapshot_id table_id column_id : Z) (f : CatalogColumn -> CatalogColumn) : Tx unit :=
  end_column snapshot_id table_id column_id ;*
  execute (on_columns (fun l => l ++ match head (select (fun v =>
    of_table co_table_id table_id v && of_table co_id column_id v && bool_decide (v_end v = Some snapshot_id)) l) with
    | Some v => [born snapshot_id (f (v_row v))]
    | None => []
    end)).

(** One proposed column of [finalize_table_snapshot]. *)
Definition write_column (snapshot_id table_id : Z) (is_ddl : bool) (current_by_id : gmap Z CatalogColumn)
  (column_ids : list Z) (column : CatalogColumnDef) (column_id order : Z) : Tx unit :=
  let* parent_id := match ccd_parent_index column with
                    | None => ret None
                    | Some index => let* id := lift_outcome (or_panic (column_ids !! index)) in ret (Some id)
                    end in
  match current_by_id !! column_id with
  | Some cur =>
      if negb is_ddl then ret tt
      else
        let migrate_type := catalog_column_type_requires_migration (co_type cur) column in
        let nulls := if bool_decide (ccd_parent_index column = None) then ccd_is_nullable column
                     else nullable cur in
        if negb migrate_type && (co_order cur =? order) && Bool.eqb (nullable cur) nulls then ret tt
        else
          revise_column snapshot_id table_id column_id
            (revised_column (if migrate_type then ccd_ducklake_type column else co_type cur) order nulls)
  | None =>
      execute (on_columns (fun l => l ++ [born snapshot_id
        (catalog_column column_id table_id order column parent_id)]))
  end.

(** [LIVE_SORT_KEYS_SQL]. *)
Definition live_sort_keys (table_id : Z) (db : Db) : list (str * str) :=
  si ← select (fun v => of_table si_table_id table_id v && live v) (t_sort_info db);
  se ← select (fun se => (sx_sort_id se =? si_id (v_row si)) && (sx_table_id se =? si_table_id (v_row si)))
         (t_sort_expressions db);
  [(sx_expression se, sx_dialect se)].

(** A table without columns begins with its first write, and its schema with it when the
    two began together. *)
Definition begin_table_at (snapshot_id table_id : Z) : Tx unit :=
  let* schema_id := scalar (fun db => (fun t => tb_schema_id (v_row t)) <$> select (of_table tb_id table_id) (t_tables db)) in
  let* table_begin := scalar (fun db => v_begin <$> select (of_table tb_id table_id) (t_tables db)) in
  execute (on_schemas (update (fun s => bool_decide (schema_id = Some (sch_id (v_row s)))
                                        && bool_decide (table_begin = Some (v_begin s))) (rebegun snapshot_id))) ;*
  execute (on_tables (update (of_table tb_id table_id) (rebegun snapshot_id))).

(** The schema part of [finalize_table_snapshot]: classify the commit, bring the columns to
    the proposed ones, and return whether it is DDL with its schema version. *)
Definition finalize_columns (snapshot_id table_id : Z) (proposed : list CatalogColumnDef) (column_ids : list Z)
  : Tx (bool * Z) :=
  ensure (length proposed =? length column_ids)%nat
    (InvalidConfig ("column_ids has " ++ show_nat (length column_ids) ++ " entries for "
                    ++ show_nat (length proposed) ++ " catalog column nodes")) ;*
  let* snapshot := query_row (fun db => select (fun row => s_id row =? snapshot_id) (t_snapshots db)) in
  let* current := query (live_columns table_id) in
  let existing := existing_column <$> current in
  let* committed_ids := lift_outcome (assign_column_ids proposed existing column_ids) in
  ensure (bool_decide (committed_ids = column_ids))
    (Conflict "table columns were created concurrently with different field ids; retry the write") ;*
  when (is_empty current) (begin_table_at snapshot_id table_id) ;*
  let* is_ddl := if is_empty current then ret true
                 else lift_outcome (catalog_columns_differ existing (nullable <$> current) proposed column_ids) in
  when is_ddl (reject_new_reserved_columns table_id existing proposed) ;*
  let* schema_version := if is_ddl : bool then bump_schema_version snapshot_id
                         else ret (s_schema_version snapshot) in
  let dropped := dropped_top_level_columns existing column_ids in
  when (negb (is_empty dropped))
    (let* keys := query (live_sort_keys table_id) in
     lift (refuse_dropping_sort_columns keys dropped)) ;*
  for_each current (fun column =>
    when (negb (existsb (Z.eqb (co_id column)) column_ids)) (end_column snapshot_id table_id (co_id column))) ;*
  let current_by_id : gmap Z CatalogColumn := list_to_map (reverse ((fun column => (co_id column, column)) <$> current)) in
  let orders := proposed_column_orders existing (co_order <$> current) proposed column_ids in
  for_each (zip (zip proposed column_ids) orders) (fun '(column, column_id, order) =>
    write_column snapshot_id table_id is_ddl current_by_id column_ids column column_id order) ;*
  ret (is_ddl, schema_version).

(** [TableChanges::append]. *)
Definition TableChanges_append : TableChanges :=
  {| inserted_into := true; inserted_inlined := false; deleted_from := false; deleted_inlined := false;
     flushed_inlined := false |}.

(** [finalize_table_snapshot]. *)
Definition finalize_table_snapshot (snapshot_id table_id : Z) (columns : list ColumnDef) (column_ids : list Z)
  (mode : WriteMode) (base_snapshot : Z) (inserts : bool) : Tx Z :=
  let* proposed := lift (catalog_column_defs columns) in
  let* (is_ddl, schema_version) := finalize_columns snapshot_id table_id proposed column_ids in
  match mode with
  | Replace =>
      detect_replace_conflict table_id base_snapshot ScopeTable ;*
      retire_prior_generation table_id snapshot_id
  | Append =>
      when inserts (check_table_conflicts table_id base_snapshot snapshot_id TableChanges_append)
  end ;*
  when is_ddl
    (record_schema_version snapshot_id schema_version table_id ;*
     create_eager_inlined_table table_id schema_version) ;*
  ret snapshot_id.

(** [finalize_snapshot]. *)
Definition finalize_snapshot (table_id : Z) (schema_name table_name : str) (columns : list ColumnDef)
  (column_ids : list Z) (mode : WriteMode) (base_snapshot : Z) (reserved_at_setup : bool) : Tx Z :=
  let* (snapshot_id, _) := insert_snapshot in
  insert_new_table_rows snapshot_id table_id schema_name table_name base_snapshot mode reserved_at_setup ;*
  finalize_table_snapshot snapshot_id table_id columns column_ids mode base_snapshot true.

End table.
