(* ===== verification/CatalogCommits.v ===== *)
(** * The operations of the DuckDB metadata writer

    [DuckdbMetadataWriter]'s operations that change the catalog, as transactions over
    [CatalogDb] composed of the parts in [CatalogSnapshots] and [CatalogTables]; [run]
    gives the database each leaves. The answer of [reserved_tables.take], the writer's
    memory of ids it handed out, is an argument ([reserved_at_setup]), and the id a write
    setup adds to it is returned. Each operation takes the connection's lock and runs in
    one transaction, so operations of concurrent writers are a sequence of these. *)

From S2P Require Import Prelude RustStd Arrow StatsOrder StatsRollup WriterTypes DuckdbCast ChangeLedger Conflicts PathResolver Partition RowIds WriterChecks Types ColumnTrees SortSpec InlinedTypes CatalogDb CatalogSnapshots CatalogTables.

Record CommitIds := { ci_snapshot_id : Z; ci_schema_id : Z; ci_table_id : Z }.

Record WriteSetupResult := {
  ws_snapshot_id : Z;
  ws_base_snapshot_id : Z;
  ws_schema_id : Z;
  ws_table_id : Z;
  ws_column_ids : list Z;
  ws_field_ids : list Z;
}.

Record CompactionSourceFile := { cp_data_file_id : Z; cp_delete_file_id : option Z }.
Record CompactionOutputFile := {
  cp_file : DataFileInfo;
  cp_partial_max : option Z;
  cp_begin_snapshot : option Z;
}.

Section operations.
Context `{InlineValues} `{SortParser} (limit_override : option nat).

(** [SELECT schema_id FROM ducklake_table WHERE table_id = ?]. *)
Definition table_schema_id (table_id : Z) : Tx Z :=
  let* row := query_row (fun db => select (of_table tb_id table_id) (t_tables db)) in
  ret (tb_schema_id (v_row row)).

Definition commit_ids (snapshot_id table_id : Z) : Tx (Ending CommitIds) :=
  let* schema_id := table_schema_id table_id in
  ret (Committed {| ci_snapshot_id := snapshot_id; ci_schema_id := schema_id; ci_table_id := table_id |}).

Definition live_schema_named (name : str) (db : Db) : list (versioned SchemaRow) :=
  select (fun s => str_eqb (sch_name (v_row s)) name && live s) (t_schemas db).
Definition live_table_in (schema_id : Z) (name : str) (db : Db) : list (versioned TableRow) :=
  select (fun t => (tb_schema_id (v_row t) =? schema_id) && str_eqb (tb_name (v_row t)) name && live t)
    (t_tables db).

(** ** Snapshots, schemas and tables *)

(** [head_snapshot]. *)
Definition head_snapshot (db : Db) : option Z := max_list (s_id <$> t_snapshots db).

(** [create_snapshot]. *)
Definition create_snapshot : Tx (Ending Z) :=
  let* (snapshot_id, _) := insert_snapshot in
  ret (Committed snapshot_id).

(** [get_or_create_schema]. *)
Definition get_or_create_schema (name : str) (path : option str) (snapshot_id : Z) : Tx (Ending (Z * bool)) :=
  lift (validate_name name "Schema") ;*
  let* existing := query_optional (live_schema_named name) in
  match existing with
  | Some s => ret (Committed (sch_id (v_row s), false))
  | None =>
      let* schema_id := reserve_ids_of ICatalog 1 in
      insert_key t_schemas on_schemas (of_table sch_id schema_id) (born snapshot_id
        {| sch_id := schema_id; sch_name := name; sch_path := directory_path (default name path);
           sch_path_is_relative := true |}) ;*
      record_snapshot_changes snapshot_id ("created_schema:" ++ quote_snapshot_name name)
        SnapshotCommitMetadata_new ;*
      ret (Committed (schema_id, true))
  end.

(** [get_or_create_table]. *)
Definition get_or_create_table (schema_id : Z) (name : str) (path : option str) (snapshot_id : Z)
  : Tx (Ending (Z * bool)) :=
  lift (validate_name name "Table") ;*
  let* existing := query_optional (live_table_in schema_id name) in
  match existing with
  | Some t => ret (Committed (tb_id (v_row t), false))
  | None =>
      let* schema := query_row (fun db => select (of_table sch_id schema_id) (t_schemas db)) in
      let* table_id := reserve_ids_of ICatalog 1 in
      execute (on_tables (fun l => l ++ [born snapshot_id
        {| tb_id := table_id; tb_schema_id := schema_id; tb_name := name;
           tb_path := directory_path (default name path); tb_path_is_relative := true |}])) ;*
      record_snapshot_changes snapshot_id
        ("created_table:" ++ quote_snapshot_table (sch_name (v_row schema)) name) SnapshotCommitMetadata_new ;*
      ret (Committed (table_id, true))
  end.

(** The live top-level column of a name. *)
Definition live_column_named (table_id : Z) (name : str) (db : Db) : list (versioned CatalogColumn) :=
  select (fun v => of_table co_table_id table_id v && str_eqb (co_name (v_row v)) name && live v
                   && bool_decide (co_parent (v_row v) = None)) (t_columns db).

(** A column with another type and without a parent, as [promote_column_type] inserts it. *)
Definition promoted_column (new_type : str) (column : CatalogColumn) : CatalogColumn :=
  {| co_id := co_id column; co_table_id := co_table_id column; co_order := co_order column;
     co_name := co_name column; co_type := new_type; co_initial_default := co_initial_default column;
     co_default_value := co_default_value column; co_nulls_allowed := Some (nullable column);
     co_parent := None; co_default_value_type := co_default_value_type column;
     co_default_value_dialect := co_default_value_dialect column |}.

(** The ledger of a schema change: a new schema version, its row, the inlined table of the
    version and the change record. *)
Definition record_alteration (snapshot_id table_id schema_version : Z) : Tx unit :=
  record_schema_version snapshot_id schema_version table_id ;*
  create_eager_inlined_table limit_override table_id schema_version ;*
  record_snapshot_changes snapshot_id ("altered_table:" ++ show_Z table_id) SnapshotCommitMetadata_new.

(** [promote_column_type]. *)
Definition promote_column_type (table_id : Z) (column_name new_ducklake_type : str) : Tx (Ending Z) :=
  lift (ducklake_to_arrow_type new_ducklake_type) ;*
  let* (snapshot_id, _) := insert_snapshot in
  let* row := query_optional (live_column_named table_id column_name) in
  let* row := lift (ok_or row (InvalidConfig ("promote_column_type: no live column '" ++ column_name
                                 ++ "' in table " ++ show_Z table_id))) in
  let column := v_row row in
  ensure (negb (types_equal_canonical (co_type column) new_ducklake_type))
    (InvalidConfig ("promote_column_type: column '" ++ column_name ++ "' is already type '"
                    ++ co_type column ++ "' (no change)")) ;*
  ensure (is_promotable (co_type column) new_ducklake_type)
    (UnsupportedTypeChange "promote_column_type" column_name (co_type column) new_ducklake_type) ;*
  let* schema_version := bump_schema_version snapshot_id in
  end_column snapshot_id table_id (co_id column) ;*
  execute (on_columns (fun l => l ++ [born snapshot_id (promoted_column new_ducklake_type column)])) ;*
  record_alteration snapshot_id table_id schema_version ;*
  ret (Committed snapshot_id).

(** Consecutive ids ending in [last]. *)
Definition ids_ending (last n : Z) : list Z := (fun i => last - n + 1 + Z.of_nat i) <$> seq 0 (Z.to_nat n).

(** [set_columns]. *)
Definition set_columns (table_id : Z) (columns : list ColumnDef) (snapshot_id : Z) : Tx (Ending (list Z)) :=
  ensure (negb (is_empty columns)) (InvalidConfig "Table must have at least one column") ;*
  execute (on_columns (update (fun v => of_table co_table_id table_id v && live v) (ended snapshot_id))) ;*
  let* catalog_columns := lift (catalog_column_defs columns) in
  let n := Z.of_nat (length catalog_columns) in
  let* _ := reserve_ids "next_column_id" n in
  let* last := raise_column_ids_past_table table_id n in
  let* _ := rust_i64 (last - n + 1) in
  let column_ids := ids_ending last n in
  for_each (zip catalog_columns column_ids) (fun '(column, column_id) =>
    let* parent_id := match ccd_parent_index column with
                      | None => ret None
                      | Some index => let* id := lift_outcome (or_panic (column_ids !! index)) in ret (Some id)
                      end in
    execute (on_columns (fun l => l ++ [born snapshot_id
      (catalog_column column_id table_id column_id column parent_id)]))) ;*
  let* table := query_row (fun db => select (of_table tb_id table_id) (t_tables db)) in
  when (negb (v_begin table =? snapshot_id))
    (record_snapshot_changes snapshot_id ("altered_table:" ++ show_Z table_id) SnapshotCommitMetadata_new) ;*
  (* the ids are collected after the commit, from lists of one length *)
  match top_level_column_ids catalog_columns column_ids with
  | Ok ids => ret (Committed ids)
  | Err e => throw e
  end.

(** ** Appends and replacements *)

(** [register_data_file_with_commit_metadata]. *)
Definition register_data_file_with_commit_metadata (reserved_at_setup : bool) (table_id : Z)
  (schema_name table_name : str) (file : DataFileInfo) (mode : WriteMode) (base_snapshot : Z)
  (columns : list ColumnDef) (column_ids : list Z) (commit_metadata : SnapshotCommitMetadata)
  (expected_base_snapshot_id : option Z) : Tx (Ending CommitIds) :=
  ensure (bool_decide (expected_base_snapshot_id = None))
    (InvalidConfig "conditional writes are not supported by the DuckDB metadata writer") ;*
  let* snapshot_id := finalize_snapshot limit_override table_id schema_name table_name columns column_ids mode
                        base_snapshot reserved_at_setup in
  enforce_partition_fences table_id [file] ;*
  seed_stats_if_missing table_id ;*
  let* next := next_row_id table_id in
  let row_ids := allocate_row_id_start next file in
  let* _ := insert_data_file table_id snapshot_id file (RowIds.stored row_ids) None in
  let* fields := lift (catalog_fields columns column_ids) in
  merge_file_table_column_stats table_id fields (file_column_stats [file]) ;*
  advance_table_stats table_id (advance row_ids) (df_record_count file) (df_file_size_bytes file) ;*
  record_table_write_changes snapshot_id table_id schema_name table_name mode false false commit_metadata ;*
  commit_ids snapshot_id table_id.

(** [register_data_file]. *)
Definition register_data_file (reserved_at_setup : bool) (table_id : Z) (schema_name table_name : str)
  (file : DataFileInfo) (mode : WriteMode) (base_snapshot : Z) (columns : list ColumnDef) (column_ids : list Z)
  : Tx (Ending CommitIds) :=
  register_data_file_with_commit_metadata reserved_at_setup table_id schema_name table_name file mode
    base_snapshot columns column_ids SnapshotCommitMetadata_new None.

(** [register_data_files_with_commit_metadata]. *)
Definition register_data_files_with_commit_metadata (reserved_at_setup : bool) (table_id : Z)
  (schema_name table_name : str) (files : list DataFileInfo) (mode : WriteMode) (base_snapshot : Z)
  (columns : list ColumnDef) (column_ids : list Z) (commit_metadata : SnapshotCommitMetadata)
  (expected_base_snapshot_id : option Z) : Tx (Ending CommitIds) :=
  ensure (bool_decide (expected_base_snapshot_id = None))
    (InvalidConfig "conditional multi-file writes are not supported by the DuckDB metadata writer") ;*
  ensure (negb (is_empty files)) (InvalidConfig "register_data_files: files must be non-empty") ;*
  let* snapshot_id := finalize_snapshot limit_override table_id schema_name table_name columns column_ids mode
                        base_snapshot reserved_at_setup in
  enforce_partition_fences table_id files ;*
  seed_stats_if_missing table_id ;*
  let* next := next_row_id table_id in
  let* totals := insert_staged_files snapshot_id table_id files next 0 0 0 in
  let* fields := lift (catalog_fields columns column_ids) in
  merge_file_table_column_stats table_id fields (file_column_stats files) ;*
  advance_table_stats table_id totals.1.1 totals.1.2 totals.2 ;*
  record_table_write_changes snapshot_id table_id schema_name table_name mode false false commit_metadata ;*
  commit_ids snapshot_id table_id.

(** The loop of [register_files_with_deletes], which advances the table's statistics file
    by file. *)
Definition insert_file_and_advance (snapshot_id table_id : Z) (file : DataFileInfo) : Tx unit :=
  let* next := next_row_id table_id in
  let row_ids := allocate_row_id_start next file in
  let* _ := insert_data_file table_id snapshot_id file (RowIds.stored row_ids) None in
  advance_table_stats table_id (advance row_ids) (df_record_count file) (df_file_size_bytes file).

(** [register_files_with_deletes]. *)
Definition register_files_with_deletes (reserved_at_setup : bool) (table_id : Z) (schema_name table_name : str)
  (files : list DataFileInfo) (deletes : list DeleteFileEntry) (mode : WriteMode) (base_snapshot : Z)
  (columns : list ColumnDef) (column_ids : list Z) : Tx (Ending CommitIds) :=
  lift (validate_delete_entries mode deletes) ;*
  let* snapshot_id := finalize_snapshot limit_override table_id schema_name table_name columns column_ids mode
                        base_snapshot reserved_at_setup in
  when (negb (is_empty deletes))
    (let* source := deleted_files_table table_id deletes in
     check_table_conflicts source base_snapshot snapshot_id
       {| inserted_into := true; inserted_inlined := false; deleted_from := true; deleted_inlined := false;
          flushed_inlined := false |}) ;*
  detect_new_inlined_deletes table_id base_snapshot (SourceFile_of_entries deletes false) ;*
  enforce_partition_fences table_id files ;*
  seed_stats_if_missing table_id ;*
  for_each files (insert_file_and_advance snapshot_id table_id) ;*
  let* fields := lift (catalog_fields columns column_ids) in
  merge_file_table_column_stats table_id fields (file_column_stats files) ;*
  for_each deletes (apply_delete_entry table_id base_snapshot snapshot_id) ;*
  record_table_write_changes snapshot_id table_id schema_name table_name mode (negb (is_empty deletes)) false
    SnapshotCommitMetadata_new ;*
  commit_ids snapshot_id table_id.

(** [register_data_file_with_deletes] and [register_data_files_with_deletes]. *)
Definition register_data_file_with_deletes (reserved_at_setup : bool) (table_id : Z) (schema_name table_name : str)
  (file : DataFileInfo) (deletes : list DeleteFileEntry) (mode : WriteMode) (base_snapshot : Z)
  (columns : list ColumnDef) (column_ids : list Z) : Tx (Ending CommitIds) :=
  register_files_with_deletes reserved_at_setup table_id schema_name table_name [file] deletes mode base_snapshot
    columns column_ids.
Definition register_data_files_with_deletes (reserved_at_setup : bool) (table_id : Z) (schema_name table_name : str)
  (files : list DataFileInfo) (deletes : list DeleteFileEntry) (mode : WriteMode) (base_snapshot : Z)
  (columns : list ColumnDef) (column_ids : list Z) : Tx (Ending CommitIds) :=
  ensure (negb (is_empty files)) (InvalidConfig "register_data_files_with_deletes: files must be non-empty") ;*
  register_files_with_deletes reserved_at_setup table_id schema_name table_name files deletes mode base_snapshot
    columns column_ids.

(** [register_inlined_data]. *)
Definition register_inlined_data (reserved_at_setup : bool) (table_id : Z) (schema_name table_name : str)
  (batches : list RecordBatch) (mode : WriteMode) (base_snapshot : Z) (columns : list ColumnDef)
  (column_ids : list Z) (commit_metadata : SnapshotCommitMetadata) (expected_base_snapshot_id : option Z)
  : Tx (Ending CommitIds) :=
  let record_count := sum_list (num_rows <$> batches) in
  ensure (negb (record_count =? 0)%nat)
    (InvalidConfig "register_inlined_data: batches must contain at least one row") ;*
  ensure (forallb (fun batch => (length (batch_schema batch) =? length columns)%nat) batches)
    (InvalidConfig "register_inlined_data: batch schema does not match table columns") ;*
  enforce_inline_partition_fence table_id base_snapshot ;*
  let* snapshot_id := finalize_snapshot limit_override table_id schema_name table_name columns column_ids mode
                        base_snapshot reserved_at_setup in
  match mode, expected_base_snapshot_id with
  | Append, Some expected => detect_replace_conflict table_id expected ScopeTable
  | _, _ => ret tt
  end ;*
  let* first := lift_outcome (or_panic (head batches)) in
  let schema := batch_schema first in
  let* physical_name := inlined_insert_table table_id snapshot_id (inline_fields columns schema) in
  inlined_table_layout physical_name ;*
  let* stats_initialized := table_stats_initialized table_id in
  seed_stats_if_missing table_id ;*
  let* row_id := next_row_id table_id in
  insert_inlined_rows physical_name snapshot_id [] columns schema None row_id 0 (batch_rows batches) ;*
  merge_inlined_table_column_stats table_id columns column_ids batches [] snapshot_id stats_initialized ;*
  let count := Z.of_nat record_count in
  ensure (in_i64 count) (InvalidConfig "register_inlined_data: record count exceeds i64") ;*
  advance_table_stats table_id count count 0 ;*
  record_table_write_changes snapshot_id table_id schema_name table_name mode false true commit_metadata ;*
  commit_ids snapshot_id table_id.

(** [publish_snapshot]. *)
Definition publish_snapshot (reserved_at_setup : bool) (table_id : Z) (schema_name table_name : str)
  (mode : WriteMode) (base_snapshot : Z) (columns : list ColumnDef) (column_ids : list Z) : Tx (Ending CommitIds) :=
  let* snapshot_id := finalize_snapshot limit_override table_id schema_name table_name columns column_ids mode
                        base_snapshot reserved_at_setup in
  record_table_write_changes snapshot_id table_id schema_name table_name mode false false SnapshotCommitMetadata_new ;*
  commit_ids snapshot_id table_id.

(** [end_table_files]. *)
Definition end_table_files (table_id snapshot_id : Z) : Tx (Ending nat) :=
  let matches v := of_table d_table_id table_id v && live v in
  let* affected := query (fun db => length (select matches (t_data_files db))) in
  execute (on_data_files (update matches (ended snapshot_id))) ;*
  ret (Committed affected).

(** ** One commit to several tables *)

(** The first part of [commit_multi_table] for one stage: its table and columns. *)
Definition finalize_stage (reserved : Z -> bool) (snapshot_id : Z) (write : StagedTableWrite) : Tx CommitIds :=
  let table_id := st_table_id write in
  insert_new_table_rows snapshot_id table_id (st_schema_name write) (st_table_name write)
    (st_base_snapshot_id write) (st_mode write) (reserved table_id) ;*
  let* schema_id := validate_staged_table write in
  let* _ := finalize_table_snapshot limit_override snapshot_id table_id (st_columns write) (st_column_ids write)
              (st_mode write) (st_base_snapshot_id write) (inserts_rows write) in
  ret {| ci_snapshot_id := snapshot_id; ci_schema_id := schema_id; ci_table_id := table_id |}.

(** The second part: its rows, its deletes and its change record. *)
Definition apply_stage (snapshot_id : Z) (commit_metadata : SnapshotCommitMetadata) (write : StagedTableWrite)
  (had : bool * bool) : Tx unit :=
  let table_id := st_table_id write in
  let base := st_base_snapshot_id write in
  match st_data write with
  | SFiles files => commit_staged_files snapshot_id write files
  | SInlined batches => commit_staged_inline snapshot_id write batches
  | SNone => ret tt
  end ;*
  when (negb (is_empty (st_inserted_files write)))
    (commit_staged_files snapshot_id write (st_inserted_files write)) ;*
  for_each (st_positional_deletes write) (apply_delete_entry table_id base snapshot_id) ;*
  replace_delete_files table_id (st_rewritten_deletes write)
    (Conflict ("a data file of table " ++ show_Z table_id ++ " or its delete file changed since snapshot "
               ++ show_Z base ++ "; re-open the catalog and retry the statement")) ;*
  apply_staged_inlined_deletes snapshot_id write ;*
  apply_inlined_file_deletes table_id snapshot_id base (st_inlined_file_deletes write) ;*
  drop_data_files table_id snapshot_id base (st_dropped_files write) ;*
  record_table_changes snapshot_id table_id (st_schema_name write) (st_table_name write)
    (staged_table_write_changes write had.1 had.2) commit_metadata.

(** The check that no snapshot was committed from a rewritten delete file's date on. *)
Definition refuse_rewritten_deletes (snapshot_id : Z) (write : StagedTableWrite) : Tx unit :=
  match rewritten_deletes_snapshot write with
  | None => ret tt
  | Some dated =>
      let* between := query (fun db => existsb (fun row => (dated <=? s_id row) && (s_id row <? snapshot_id))
                                         (t_snapshots db)) in
      ensure (negb between) (rewritten_delete_conflict (st_table_id write) dated)
  end.

(** [commit_multi_table]. *)
Definition commit_multi_table (reserved : Z -> bool) (writes : list StagedTableWrite)
  (commit_metadata : SnapshotCommitMetadata) (expected_base_snapshot_id : option Z)
  : Tx (Ending (Z * list CommitIds)) :=
  ensure (negb (is_empty writes)) (InvalidConfig "commit_multi_table requires at least one table stage") ;*
  ensure (bool_decide (NoDup (st_table_id <$> writes)))
    (InvalidConfig "commit_multi_table requires one stage per table") ;*
  for_each writes (fun write => lift (validate_row_mutation_stage write)) ;*
  match expected_base_snapshot_id with
  | Some expected =>
      for_each writes (fun write =>
        detect_replace_conflict (st_table_id write) expected (scope_of write) ;*
        detect_created_table_conflict (st_table_id write) expected)
  | None => ret tt
  end ;*
  for_each writes (fun write =>
    check_staged_conflicts write i64_max ;*
    detect_new_inlined_deletes (st_table_id write) (st_base_snapshot_id write) (row_mutation_source_files write)) ;*
  let* had_live_data := map_each writes (fun write => has_live_data (st_table_id write)) in
  let* (snapshot_id, _) := insert_snapshot in
  for_each writes (refuse_rewritten_deletes snapshot_id) ;*
  let* tables := map_each writes (finalize_stage reserved snapshot_id) in
  for_each (zip writes had_live_data) (fun '(write, had) => apply_stage snapshot_id commit_metadata write had) ;*
  ret (Committed (snapshot_id, tables)).

(** ** Deletes *)

Definition deletion (from_files from_inlined : bool) : TableChanges :=
  {| inserted_into := false; inserted_inlined := false; deleted_from := from_files;
     deleted_inlined := from_inlined; flushed_inlined := false |}.

Definition refuse_duplicate_rows (rows : list InlinedRowRef) (message : str) : Tx unit :=
  ensure (bool_decide (NoDup ((fun row => (irr_table_name row, irr_row_id row)) <$> rows))) (InvalidConfig message).

(** [commit_inlined_deletes]. *)
Definition commit_inlined_deletes (table_id base_snapshot : Z) (rows : list InlinedRowRef) : Tx (Ending CommitIds) :=
  ensure (negb (is_empty rows)) (InvalidConfig "commit_inlined_deletes requires at least one row") ;*
  refuse_duplicate_rows rows "commit_inlined_deletes contains duplicate rows" ;*
  let* (snapshot_id, _) := insert_snapshot in
  check_table_conflicts table_id base_snapshot snapshot_id (deletion false true) ;*
  let* registered := inlined_tables table_id in
  for_each rows (fun row =>
    ensure (existsb (str_eqb (irr_table_name row)) registered)
      (Conflict ("inlined row " ++ show_Z (irr_row_id row) ++ " belongs to an unregistered table '"
                 ++ irr_table_name row ++ "'")) ;*
    let matches (v : versioned InlinedRow) :=
      (n_row_id (v_row v) =? irr_row_id row) && (v_begin v <=? base_snapshot) && live v in
    let* table := physical_table (irr_table_name row) in
    update_physical (irr_table_name row) (update matches (ended snapshot_id)) ;*
    ensure (length (select matches (p_rows table)) =? 1)%nat
      (Conflict ("inlined row " ++ show_Z (irr_row_id row) ++ " in '" ++ irr_table_name row
                 ++ "' is no longer live at snapshot " ++ show_Z base_snapshot))) ;*
  record_snapshot_changes snapshot_id (table_storage_changes table_id None false true) SnapshotCommitMetadata_new ;*
  commit_ids snapshot_id table_id.

(** [set_delete_file]. *)
Definition set_delete_file (table_id data_file_id : Z) (expected_prev_delete_file : option Z) (base_snapshot : Z)
  (delete : DeleteFileInfo) : Tx (Ending CommitIds) :=
  let* (snapshot_id, _) := insert_snapshot in
  check_table_conflicts table_id base_snapshot snapshot_id (deletion true false) ;*
  apply_delete_entry table_id base_snapshot snapshot_id
    {| de_data_file_id := data_file_id; de_expected_prev_delete_file := expected_prev_delete_file;
       de_delete := delete |} ;*
  record_snapshot_changes snapshot_id ("deleted_from_table:" ++ show_Z table_id) SnapshotCommitMetadata_new ;*
  commit_ids snapshot_id table_id.

(** [commit_positional_deletes]. *)
Definition commit_positional_deletes (table_id base_snapshot : Z) (deletes : list DeleteFileEntry)
  : Tx (Ending CommitIds) :=
  ensure (negb (is_empty deletes)) (InvalidConfig "commit_positional_deletes requires at least one delete entry") ;*
  lift (validate_delete_entries Append deletes) ;*
  let* (snapshot_id, _) := insert_snapshot in
  check_table_conflicts table_id base_snapshot snapshot_id (deletion true false) ;*
  detect_new_inlined_deletes table_id base_snapshot (SourceFile_of_entries deletes true) ;*
  for_each deletes (apply_delete_entry table_id base_snapshot snapshot_id) ;*
  record_snapshot_changes snapshot_id ("deleted_from_table:" ++ show_Z table_id) SnapshotCommitMetadata_new ;*
  commit_ids snapshot_id table_id.

(** [commit_deletes]. *)
Definition commit_deletes (table_id base_snapshot : Z) (positional : list DeleteFileEntry)
  (inlined : list InlinedRowRef) : Tx (Ending CommitIds) :=
  if is_empty inlined then commit_positional_deletes table_id base_snapshot positional
  else if is_empty positional then commit_inlined_deletes table_id base_snapshot inlined
  else
    lift (validate_delete_entries Append positional) ;*
    refuse_duplicate_rows inlined "commit_deletes contains duplicate inlined rows" ;*
    let* (snapshot_id, _) := insert_snapshot in
    check_table_conflicts table_id base_snapshot snapshot_id (deletion true true) ;*
    detect_new_inlined_deletes table_id base_snapshot (SourceFile_of_entries positional true) ;*
    for_each positional (apply_delete_entry table_id base_snapshot snapshot_id) ;*
    apply_inlined_deletes table_id snapshot_id base_snapshot inlined ;*
    record_snapshot_changes snapshot_id (table_storage_changes table_id None true true) SnapshotCommitMetadata_new ;*
    commit_ids snapshot_id table_id.

(** [SELECT COALESCE(SUM(..), 0)], and [commit_truncate]. *)
Definition sum_Z (l : list Z) : Z := foldr Z.add 0 l.
Definition commit_truncate (table_id base_snapshot : Z) : Tx (Ending Z) :=
  let* (snapshot_id, _) := insert_snapshot in
  let of_live v := of_table d_table_id table_id v && live v in
  let* has_live_data := query (fun db => existsb of_live (t_data_files db)) in
  let* live_inlined := live_inlined_row_count table_id in
  if negb has_live_data && (live_inlined =? 0) then ret (RolledBack 0)
  else
    check_table_conflicts table_id base_snapshot snapshot_id (deletion has_live_data (0 <? live_inlined)) ;*
    let* gross := query (fun db => sum_Z ((fun v => d_record_count (v_row v)) <$> select of_live (t_data_files db))) in
    let* gross := bigint gross in
    let* deleted := query (fun db => sum_Z ((fun v => x_delete_count (v_row v))
      <$> select (fun v => of_table x_table_id table_id v && live v) (t_delete_files db))) in
    let* deleted := bigint deleted in
    let* added := rust_i64 (gross + live_inlined) in
    let* live_rows := rust_i64 (added - deleted) in
    execute (on_data_files (update of_live (ended snapshot_id))) ;*
    let* names := inlined_tables table_id in
    for_each names (fun name => update_physical name (update live (ended snapshot_id))) ;*
    execute (on_delete_files (update (fun v => of_table x_table_id table_id v && live v) (ended snapshot_id))) ;*
    record_snapshot_changes snapshot_id
      (table_storage_changes table_id None has_live_data (0 <? live_inlined)) SnapshotCommitMetadata_new ;*
    ret (Committed (Z.max live_rows 0)).

(** ** Compaction and flushes *)

(** The check of one source of [commit_compaction]. *)
Definition check_compaction_source (table_id base_snapshot : Z) (source : CompactionSourceFile) : Tx unit :=
  let id := cp_data_file_id source in
  let* live_file := query (fun db => existsb (fun v =>
    of_table d_id id v && of_table d_table_id table_id v && live v) (t_data_files db)) in
  ensure live_file (Conflict ("compaction of table " ++ show_Z table_id
    ++ " could not commit: source data file " ++ show_Z id ++ " is no longer live since snapshot "
    ++ show_Z base_snapshot ++ "; re-open the catalog and re-plan")) ;*
  let* current := live_delete_file id in
  ensure (bool_decide (current = cp_delete_file_id source)) (Conflict ("compaction of table " ++ show_Z table_id
    ++ " could not commit: the live delete file of source data file " ++ show_Z id ++ " changed from "
    ++ show_option (cp_delete_file_id source) ++ " to " ++ show_option current ++ " since snapshot "
    ++ show_Z base_snapshot ++ "; re-open the catalog and re-plan")).

(** The two ways [commit_compaction] retires its sources. *)
Definition retire_sources (snapshot_id : Z) (retirement : SourceRetirement) (ids : list Z) : Tx unit :=
  let of_source {A} (id : A -> Z) (v : versioned A) := existsb (Z.eqb (id (v_row v))) ids in
  match retirement with
  | Remove =>
      schedule (fun db => data_file_entry <$> select (of_source d_id) (t_data_files db)) ;*
      schedule (fun db => delete_file_entry <$> select (of_source x_data_file_id) (t_delete_files db)) ;*
      execute (on_delete_files (delete_where (of_source x_data_file_id))) ;*
      execute (on_data_files (delete_where (of_source d_id))) ;*
      execute (on_file_stats (delete_where (fun row => existsb (Z.eqb (fs_data_file_id row)) ids))) ;*
      execute (on_file_partition_values (delete_where (fun row => existsb (Z.eqb (pv_data_file_id row)) ids)))
  | Retire =>
      execute (on_data_files (update (fun v => of_source d_id v && live v) (ended snapshot_id))) ;*
      execute (on_delete_files (update (fun v => of_source x_data_file_id v && live v) (ended snapshot_id)))
  end.

(** One file with an id reserved before the loop. *)
Definition insert_reserved_file (table_id data_file_id begin_snapshot : Z) (file : DataFileInfo)
  (partial_max : option Z) : Tx unit :=
  insert_key t_data_files on_data_files (of_table d_id data_file_id)
    (born begin_snapshot (data_file_row data_file_id table_id file (carried_row_id_start file) partial_max)) ;*
  insert_file_column_stats table_id data_file_id (df_column_stats file) ;*
  insert_partition_metadata table_id data_file_id file.

(** [commit_compaction]. *)
Definition commit_compaction (table_id base_snapshot : Z) (sources : list CompactionSourceFile)
  (outputs : list CompactionOutputFile) (retirement : SourceRetirement) : Tx (Ending CommitIds) :=
  ensure (negb (is_empty sources)) (InvalidConfig "commit_compaction requires at least one source file") ;*
  let* (snapshot_id, _) := insert_snapshot in
  detect_new_inlined_deletes table_id base_snapshot ((fun s => SourceFile_any (cp_data_file_id s)) <$> sources) ;*
  for_each sources (check_compaction_source table_id base_snapshot) ;*
  retire_sources snapshot_id retirement (cp_data_file_id <$> sources) ;*
  let output_count := Z.of_nat (length outputs) in
  ensure (in_i64 output_count) (InvalidConfig "commit_compaction output count exceeds i64") ;*
  let* output_ids := reserve_file_ids output_count in
  for_each (zip outputs output_ids) (fun '(output, data_file_id) =>
    insert_reserved_file table_id data_file_id (default snapshot_id (cp_begin_snapshot output)) (cp_file output)
      (cp_partial_max output)) ;*
  record_snapshot_changes snapshot_id (compaction_change retirement table_id) SnapshotCommitMetadata_new ;*
  commit_ids snapshot_id table_id.

(** [inlined_flush_conflict]. *)
Definition inlined_flush_conflict (table_id base_snapshot : Z) : DuckLakeError :=
  Conflict ("flushing the inlined data of table " ++ show_Z table_id ++ " could not commit: the table was "
    ++ "dropped, or a flushed data file's delete file changed, since snapshot " ++ show_Z base_snapshot
    ++ ". Re-open the catalog and flush again.").

(** The files one table's flush wrote. *)
Definition insert_flushed_file (table_id : Z) (out : InlinedFlushFile) (data_file_id : Z) : Tx unit :=
  insert_reserved_file table_id data_file_id (iff_begin_snapshot out) (iff_file out) (Some (iff_partial_max out)) ;*
  match iff_delete out with
  | Some delete => insert_flush_delete_file table_id data_file_id delete
  | None => ret tt
  end.

(** One table of [commit_inlined_flush]. *)
Definition flush_table (base_snapshot : Z) (table : InlinedFlushTable) : Tx unit :=
  let table_id := ift_table_id table in
  let conflict := inlined_flush_conflict table_id base_snapshot in
  let* live_table := query (fun db => existsb (fun t => of_table tb_id table_id t && live t) (t_tables db)) in
  ensure live_table conflict ;*
  seed_stats_if_missing table_id ;*
  let output_count := Z.of_nat (length (ift_files table)) in
  ensure (in_i64 output_count) (InvalidConfig "flush file count exceeds i64") ;*
  let* output_ids := reserve_file_ids output_count in
  for_each (zip (ift_files table) output_ids) (fun '(out, id) => insert_flushed_file table_id out id) ;*
  let* added_bytes := rust_i64 (sum_Z ((fun out => df_file_size_bytes (iff_file out)) <$> ift_files table)) in
  replace_delete_files table_id (ift_file_deletes table) conflict ;*
  when (negb (is_empty (ift_file_deletes table)))
    (let* name := lift (inlined_delete_table_name table_id) in
     let* rows := query (fun db => t_inlined_deletes db !! name) in
     let* _ := lift (ok_or rows (External "table does not exist")) in
     execute (on_inlined_deletes (alter (delete_where (fun row =>
       existsb (Z.eqb (i_file_id row)) (iffd_data_file_id <$> ift_file_deletes table)
       && match i_begin_snapshot row with Some b => b <=? base_snapshot | None => false end)) name))) ;*
  for_each (ift_inlined_tables table) (fun name =>
    inlined_table_layout name ;*
    update_physical name (delete_where (fun v => v_begin v <=? base_snapshot))) ;*
  when (negb (is_empty (ift_files table)))
    (advance_table_stats table_id 0 0 added_bytes ;*
     let* fields := live_stat_fields table_id in
     merge_file_table_column_stats table_id fields (file_column_stats (iff_file <$> ift_files table))).

(** [commit_inlined_flush]. *)
Definition commit_inlined_flush (base_snapshot : Z) (tables : list InlinedFlushTable) : Tx (Ending Z) :=
  lift (validate_inlined_flush tables) ;*
  let* (snapshot_id, _) := insert_snapshot in
  let* changes := changes_between base_snapshot snapshot_id in
  refuse (inlined_flush_table_conflict tables changes) ;*
  for_each tables (flush_table base_snapshot) ;*
  record_snapshot_changes snapshot_id (inlined_flush_changes tables) SnapshotCommitMetadata_new ;*
  ret (Committed snapshot_id).

End operations.
