(* ===== verification/CatalogAdmin.v ===== *)
(** * Write setup, specs, settings and expiry of the DuckDB metadata writer

    The rest of [DuckdbMetadataWriter]: [begin_write_transaction], partition and sort
    specs, [retire_appends_since], index columns, the data path, and the maintenance calls
    ([expire_snapshots], the scheduled files, the reclaiming of inlined tables of
    [inlined_reclaim.rs]). *)

From S2P Require Import Prelude RustStd Arrow StatsOrder StatsRollup WriterTypes DuckdbCast ChangeLedger Conflicts PathResolver Partition RowIds WriterChecks Types ColumnTrees SortSpec InlinedTypes CatalogDb CatalogSnapshots CatalogTables CatalogCommits.

(** [ExpireCriteria] and [CleanupCriteria] of [maintenance.rs]; a cutoff is a time in the
    unit of [snapshot_time]. *)
Inductive ExpireCriteria := Versions (versions : list Z) | OlderThan (cutoff : Z).
Inductive CleanupCriteria := CleanupAll | CleanupOlderThan (cutoff : Z).

Section admin.
Context `{InlineValues} `{SortParser} (limit_override : option nat).

(** ** Write setup *)

(** The type policy of [begin_write_transaction]: an existing column keeps its type, and
    an append adds nullable columns only. *)
Definition check_column_policy (existing : list ExistingCatalogColumn) (mode : WriteMode)
  (column : CatalogColumnDef) (field_id : Z) : result unit :=
  match find_first (fun e => ec_column_id e =? field_id) (reverse existing) with
  | Some old =>
      if catalog_column_type_equal (ec_ducklake_type old) column then Ok tt
      else Err (UnsupportedTypeChange
                  (match mode with Replace => "Replace data write" | Append => "Append data write" end)
                  (ccd_name column) (ec_ducklake_type old) (ccd_ducklake_type column))
  | None =>
      if bool_decide (mode = Append) && bool_decide (ccd_parent_index column = None)
         && negb (ccd_is_nullable column)
      then Err (InvalidConfig ("Schema evolution error: new column '" ++ ccd_name column
                  ++ "' must be nullable. Adding non-nullable columns is not allowed."))
      else Ok tt
  end.

(** [begin_write_transaction], with the table id it reserved, if it reserved one. *)
Definition begin_write_transaction (schema_name table_name : str) (columns : list ColumnDef) (mode : WriteMode)
  : Tx (Ending (WriteSetupResult * option Z)) :=
  lift (validate_name schema_name "Schema") ;*
  lift (validate_name table_name "Table") ;*
  ensure (negb (is_empty columns)) (InvalidConfig "Table must have at least one column") ;*
  let* catalog_columns := lift (catalog_column_defs columns) in
  let n := Z.of_nat (length catalog_columns) in
  let* _ := reserve_ids "next_column_id" n in
  let* base_snapshot_id := query (fun db => default 0 (head_snapshot db)) in
  let* snapshot_id := rust_i64 (base_snapshot_id + 1) in
  let* schema := query_optional (live_schema_named schema_name) in
  let* schema_id := match schema with
                    | Some s => ret (sch_id (v_row s))
                    | None => reserve_ids_of ICatalog 1
                    end in
  let* table := query_optional (live_table_in schema_id table_name) in
  let* (table_id, reserved) := match table with
                               | Some t => ret (tb_id (v_row t), None)
                               | None => let* id := reserve_ids_of ICatalog 1 in ret (id, Some id)
                               end in
  let* last_column_id := raise_column_ids_past_table table_id n in
  let* _ := rust_i64 (last_column_id - n + 1) in
  let fresh_ids := ids_ending last_column_id n in
  let* current := query (live_columns table_id) in
  let existing := existing_column <$> current in
  let* field_ids := lift_outcome (assign_column_ids catalog_columns existing fresh_ids) in
  when (negb (is_empty existing))
    (for_each (zip catalog_columns field_ids) (fun '(column, field_id) =>
       lift (check_column_policy existing mode column field_id))) ;*
  let* column_ids := lift (top_level_column_ids catalog_columns field_ids) in
  ret (Committed ({| ws_snapshot_id := snapshot_id; ws_base_snapshot_id := base_snapshot_id;
                     ws_schema_id := schema_id; ws_table_id := table_id; ws_column_ids := column_ids;
                     ws_field_ids := field_ids |}, reserved)).

(** ** Partition and sort specs *)

(** [set_partition_spec]. *)
Definition set_partition_spec (table_id : Z) (columns : list (str * PartitionTransform)) : Tx (Ending Z) :=
  ensure (negb (is_empty columns)) (InvalidConfig ("set_partition_spec: partition spec must have at least one column; "
    ++ "use reset_partition_spec to remove partitioning")) ;*
  let* partition_id := reserve_ids_of ICatalog 1 in
  let* (new_snapshot, _) := insert_snapshot in
  let* column_ids := map_each columns (fun '(name, _) =>
    let* row := query_optional (live_column_named table_id name) in
    lift (ok_or ((fun v => co_id (v_row v)) <$> row)
            (InvalidConfig ("set_partition_spec: no live column '" ++ name ++ "' in table " ++ show_Z table_id)))) in
  execute (on_partition_info (update (fun v => of_table pi_table_id table_id v && live v) (ended new_snapshot))) ;*
  execute (on_partition_info (fun l => l ++ [born new_snapshot {| pi_id := partition_id; pi_table_id := table_id |}])) ;*
  execute (on_partition_columns (fun l => l ++ imap (fun i '(column_id, (_, transform)) =>
    {| pc_partition_id := partition_id; pc_table_id := table_id; pc_key_index := Z.of_nat i;
       pc_column_id := column_id; pc_transform := to_catalog_string transform |}) (zip column_ids columns))) ;*
  let* new_schema_version := bump_schema_version new_snapshot in
  record_alteration limit_override new_snapshot table_id new_schema_version ;*
  ret (Committed new_snapshot).

(** The rows of [live_partition_spec]; [i32::try_from(..).unwrap_or(0)] of the index. *)
Definition i32_or_zero (z : Z) : Z := if (- i32_max - 1 <=? z) && (z <=? i32_max) then z else 0.
Definition partition_rows (p : versioned PartitionInfoRow -> bool) (db : Db) : list (Z * Z * Z * str) :=
  order_by (fun row => row.1.1.2) (
    pi ← select p (t_partition_info db);
    pc ← select (fun pc => (pc_partition_id pc =? pi_id (v_row pi)) && (pc_table_id pc =? pi_table_id (v_row pi)))
           (t_partition_columns db);
    [(pi_id (v_row pi), pc_key_index pc, pc_column_id pc, pc_transform pc)]).
Definition live_partition_spec (table_id : Z) (db : Db) : option PartitionSpec :=
  from_rows ((fun '(id, index, column, transform) => (id, i32_or_zero index, column, transform))
    <$> partition_rows (fun v => of_table pi_table_id table_id v && live v) db) false.

(** [reset_partition_spec]. *)
Definition reset_partition_spec (table_id : Z) : Tx (Ending Z) :=
  let* head := query (fun db => default 0 (head_snapshot db)) in
  let* (new_snapshot, _) := insert_snapshot in
  let matches v := of_table pi_table_id table_id v && live v in
  let* any := query (fun db => existsb matches (t_partition_info db)) in
  if negb any then ret (RolledBack head)
  else
    execute (on_partition_info (update matches (ended new_snapshot))) ;*
    let* new_schema_version := bump_schema_version new_snapshot in
    record_alteration limit_override new_snapshot table_id new_schema_version ;*
    ret (Committed new_snapshot).

(** [live_sort_spec]. *)
Definition sort_rows (p : versioned SortInfoRow -> bool) (db : Db) : list SortRow :=
  (fun '(id, se) => (id, i32_or_zero (sx_key_index se), sx_expression se, sx_dialect se, sx_direction se,
                     sx_null_order se))
  <$> order_by (fun row => sx_key_index row.2) (
    si ← select p (t_sort_info db);
    se ← select (fun se => (sx_sort_id se =? si_id (v_row si)) && (sx_table_id se =? si_table_id (v_row si)))
           (t_sort_expressions db);
    [(si_id (v_row si), se)]).
Definition live_sort_spec (table_id : Z) (db : Db) : option SortSpec :=
  sort_from_rows (sort_rows (fun v => of_table si_table_id table_id v && live v) db).

(** [set_sort_spec]. *)
Definition set_sort_spec (table_id : Z) (fields : list SortField) : Tx (Ending Z) :=
  ensure (negb (is_empty fields))
    (InvalidConfig "set_sort_spec: at least one sort key is required (use reset_sort_spec to clear)") ;*
  let* sort_id := reserve_ids_of ICatalog 1 in
  let* (new_snapshot, _) := insert_snapshot in
  let* _ := bump_schema_version new_snapshot in
  let* names := query (fun db => (fun v => co_name (v_row v)) <$> select (fun v =>
    of_table co_table_id table_id v && live v && bool_decide (co_parent (v_row v) = None)) (t_columns db)) in
  lift (check_sort_key_columns fields names) ;*
  execute (on_sort_info (update (fun v => of_table si_table_id table_id v && live v) (ended new_snapshot))) ;*
  execute (on_sort_info (fun l => l ++ [born new_snapshot {| si_id := sort_id; si_table_id := table_id |}])) ;*
  execute (on_sort_expressions (fun l => l ++ ((fun field =>
    {| sx_sort_id := sort_id; sx_table_id := table_id; sx_key_index := sf_sort_key_index field;
       sx_expression := sf_expression field; sx_dialect := sf_dialect field;
       sx_direction := direction_string (sf_direction field);
       sx_null_order := null_order_string (sf_null_order field) |}) <$> fields))) ;*
  record_snapshot_changes new_snapshot ("altered_table:" ++ show_Z table_id) SnapshotCommitMetadata_new ;*
  ret (Committed new_snapshot).

(** [reset_sort_spec]. *)
Definition reset_sort_spec (table_id : Z) : Tx (Ending Z) :=
  let* (new_snapshot, _) := insert_snapshot in
  let* _ := bump_schema_version new_snapshot in
  execute (on_sort_info (update (fun v => of_table si_table_id table_id v && live v) (ended new_snapshot))) ;*
  record_snapshot_changes new_snapshot ("altered_table:" ++ show_Z table_id) SnapshotCommitMetadata_new ;*
  ret (Committed new_snapshot).

(** ** Undoing appends *)

Definition after (base_snapshot : Z) (o : option Z) : bool :=
  match o with Some z => base_snapshot <? z | None => false end.

(** Whether a table changed since [base_snapshot] other than by appends. *)
Definition impure_catalog (table_id base_snapshot : Z) (db : Db) : bool :=
  existsb (fun v => of_table x_table_id table_id v
                    && ((base_snapshot <? v_begin v) || after base_snapshot (x_partial_max (v_row v))))
    (t_delete_files db)
  || existsb (fun v => of_table d_table_id table_id v && (v_begin v <=? base_snapshot)
                       && (after base_snapshot (v_end v)
                           || (live v && after base_snapshot (d_partial_max (v_row v))))) (t_data_files db)
  || existsb (fun v => of_table co_table_id table_id v && changed_after base_snapshot v) (t_columns db)
  || existsb (fun v => of_table pi_table_id table_id v && changed_after base_snapshot v) (t_partition_info db).

(** [retire_appends_since]. *)
Definition retire_appends_since (table_id base_snapshot : Z) : Tx (Ending (option Z)) :=
  let* (snapshot_id, _) := insert_snapshot in
  let* impure := query (impure_catalog table_id base_snapshot) in
  let* inlined := inlined_tables table_id in
  let* ended_rows := map_each inlined (fun name =>
    let* table := physical_table name in ret (existsb (fun v => after base_snapshot (v_end v)) (p_rows table))) in
  let* name := lift (inlined_delete_table_name table_id) in
  let* deletes := query (fun db => default [] (t_inlined_deletes db !! name)) in
  ensure (negb (impure || existsb id ended_rows
                || existsb (fun row => after base_snapshot (i_begin_snapshot row)) deletes))
    (Conflict ("table " ++ show_Z table_id ++ ": changes since snapshot " ++ show_Z base_snapshot
       ++ " are not a pure append (delete/replace/update or schema/partition change present); refusing to retire")) ;*
  let appended {A} (v : versioned A) := live v && (base_snapshot <? v_begin v) in
  let* appended_files := query (fun db => select (fun v => of_table d_table_id table_id v && appended v) (t_data_files db)) in
  let* _ := bigint (sum_Z ((fun v => d_record_count (v_row v)) <$> appended_files)) in
  let* counts := map_each inlined (fun name =>
    let* table := physical_table name in ret (length (select appended (p_rows table)))) in
  let* appended_inlined := rust_i64 (Z.of_nat (sum_list counts)) in
  if is_empty appended_files && (appended_inlined =? 0) then ret (RolledBack None)
  else
    execute (on_data_files (update (fun v => of_table d_table_id table_id v && appended v) (ended snapshot_id))) ;*
    for_each inlined (fun name => update_physical name (update appended (ended snapshot_id))) ;*
    let from_files := "deleted_from_table:" ++ show_Z table_id in
    let from_inlined := "inlined_delete:" ++ show_Z table_id in
    record_snapshot_changes snapshot_id
      (if 0 <? appended_inlined
       then if is_empty appended_files then from_inlined else from_files ++ "," ++ from_inlined
       else from_files) SnapshotCommitMetadata_new ;*
    ret (Committed (Some snapshot_id)).

(** ** Settings *)

Definition table_setting_row (key : str) (table_id : Z) (row : MetadataRow) : bool :=
  str_eqb (m_key row) key && bool_decide (m_scope row = Some (lit "table")) && bool_decide (m_scope_id row = Some table_id).

(** [set_inlined_index_columns]. *)
Definition set_inlined_index_columns (table_id : Z) (columns : list str) : Tx (Ending unit) :=
  let* value := lift (encode_inlined_index_columns columns) in
  let* available := query (fun db => list_to_set (C := gset str) ((fun v => co_name (v_row v)) <$> select (fun v =>
    of_table co_table_id table_id v && live v && bool_decide (co_parent (v_row v) = None)) (t_columns db))) in
  ensure (negb (bool_decide (available = ∅))) (TableNotFound (show_Z table_id)) ;*
  lift (validate_inlined_index_columns columns available) ;*
  let is_setting := table_setting_row INLINED_INDEX_COLUMNS_SETTING table_id in
  let* existing := query_optional (fun db => select is_setting (t_metadata db)) in
  if bool_decide (m_value <$> existing = Some value) then ret (Committed tt)
  else
    execute (on_metadata (delete_where is_setting)) ;*
    execute (on_metadata (fun l => l ++ [{| m_key := INLINED_INDEX_COLUMNS_SETTING; m_value := value;
                                            m_scope := Some (lit "table"); m_scope_id := Some table_id |}])) ;*
    ret (Committed tt).

(** [ensure_inlined_indexes]. *)
Definition ensure_inlined_indexes (table_id : Z) : Tx (Ending unit) :=
  let* names := query (fun db => r_table_name <$> select (fun row => r_table_id row =? table_id) (t_registry db)) in
  let* _ := duckdb_inlined_index_columns table_id in
  for_each names (ensure_duckdb_physical_indexes table_id) ;*
  ret (Committed tt).

(** [get_data_path] and [set_data_path]. *)
Definition get_data_path (db : Db) : result str :=
  ok_or (m_value <$> head (select (is_counter "data_path") (t_metadata db)))
    (InvalidConfig "Missing required catalog metadata: 'data_path' not configured.").
Definition set_data_path (path : str) : Tx (Ending unit) :=
  let path := directory_path path in
  let* current := query_optional (fun db => select (is_counter "data_path") (t_metadata db)) in
  if bool_decide (m_value <$> current = Some path) then ret (Committed tt)
  else
    execute (on_metadata (delete_where (is_counter "data_path"))) ;*
    execute (on_metadata (fun l => l ++ [{| m_key := "data_path"; m_value := path; m_scope := None;
                                            m_scope_id := None |}])) ;*
    ret (Committed tt).

(** [get_table_directory]. *)
Definition get_table_directory (schema_name table_name : str) (db : Db) : outcome (option str) :=
  let! data_path := Returns (get_data_path db) in
  match head (live_schema_named schema_name db) with
  | None => Returns (Ok None)
  | Some s =>
      let table := head (live_table_in (sch_id (v_row s)) table_name db) in
      let path := match table with
                  | Some t => (tb_path (v_row t), tb_path_is_relative (v_row t))
                  | None => (directory_path table_name, true)
                  end in
      let! directory := table_directory data_path (sch_path (v_row s), sch_path_is_relative (v_row s)) path in
      Returns (Ok (Some directory))
  end.

(** [get_table_column_nullability]. *)
Definition get_table_column_nullability (schema_name table_name : str) (db : Db) : option (list (str * bool)) :=
  let columns := (fun v => (co_name (v_row v), nullable (v_row v)))
    <$> order_by (fun v => co_order (v_row v)) (
      v ← select (fun v => live v && bool_decide (co_parent (v_row v) = None)) (t_columns db);
      _ ← select (fun t => tb_id (v_row t) =? co_table_id (v_row v)) (live_table_named schema_name table_name db);
      [v]) in
  if is_empty columns then None else Some columns.

(** ** Maintenance *)

(** [drop_empty_superseded_inlined_tables]. *)
Definition drop_empty_superseded_inlined_tables : Tx (Ending unit) :=
  let* targets := query (fun db => select (fun row =>
    existsb (fun other => (r_table_id other =? r_table_id row) && (r_schema_version row <? r_schema_version other))
      (t_registry db)) (t_registry db)) in
  for_each targets (fun row =>
    let* table := physical_table (r_table_name row) in
    when (is_empty (p_rows table))
      (execute (on_registry (delete_where (fun other => (r_table_id other =? r_table_id row)
                                                        && (r_schema_version other =? r_schema_version row)))) ;*
       execute (on_inlined_data (delete (r_table_name row))))) ;*
  ret (Committed tt).

(** Whether a kept snapshot sees a row. *)
Definition seen_by_snapshot {A} (db : Db) (v : versioned A) : bool :=
  existsb (fun row => visible (s_id row) v) (t_snapshots db).

(** A row is dead when it ended and no kept snapshot sees it. *)
Definition dead {A} (db : Db) (v : versioned A) : bool := negb (live v) && negb (seen_by_snapshot db v).

(** Tables every row of which is dead. *)
Definition dead_tables (db : Db) : list Z :=
  (fun t => tb_id (v_row t)) <$> select (fun t =>
    dead db t && negb (existsb (fun t2 => of_table tb_id (tb_id (v_row t)) t2 && (live t2 || seen_by_snapshot db t2))
                         (t_tables db))) (t_tables db).

Definition among (ids : list Z) (id : Z) : bool := existsb (Z.eqb id) ids.

(** The part of [expire_snapshots] that follows the deletion of the snapshots. *)
Definition sweep : Tx unit :=
  let* tables := query dead_tables in
  let* data := query (fun db => (fun v => d_id (v_row v)) <$> select (fun v =>
    among tables (d_table_id (v_row v)) || dead db v) (t_data_files db)) in
  schedule (fun db => data_file_entry <$> select (fun v => among data (d_id (v_row v))) (t_data_files db)) ;*
  execute (on_data_files (delete_where (fun v => among data (d_id (v_row v))))) ;*
  let* deletes := query (fun db => (fun v => x_id (v_row v)) <$> select (fun v =>
    among data (x_data_file_id (v_row v)) || among tables (x_table_id (v_row v)) || dead db v) (t_delete_files db)) in
  schedule (fun db => delete_file_entry <$> select (fun v => among deletes (x_id (v_row v))) (t_delete_files db)) ;*
  execute (on_delete_files (delete_where (fun v => among deletes (x_id (v_row v))))) ;*
  when (negb (is_empty tables))
    (let* registered := query (fun db => r_table_name <$> select (fun row => among tables (r_table_id row)) (t_registry db)) in
     let* delete_tables := map_each tables (fun table_id => lift (inlined_delete_table_name table_id)) in
     execute (on_tables (delete_where (fun v => among tables (tb_id (v_row v))))) ;*
     execute (on_table_stats (delete_where (fun row => among tables (ts_table_id row)))) ;*
     execute (on_columns (delete_where (fun v => among tables (co_table_id (v_row v))))) ;*
     execute (on_schema_versions (delete_where (fun row => among tables (sv_table_id row)))) ;*
     execute (on_registry (delete_where (fun row => among tables (r_table_id row)))) ;*
     for_each registered (fun name => execute (on_inlined_data (delete name))) ;*
     for_each delete_tables (fun name => execute (on_inlined_deletes (delete name)))) ;*
  execute (fun db => on_schemas (delete_where (dead db)) db).

(** [expire_snapshots]: the ids and times of the snapshots it removed. *)
Definition expire_snapshots (criteria : ExpireCriteria) : Tx (Ending (list (Z * Z))) :=
  let* most_recent := query head_snapshot in
  match most_recent with
  | None => ret (Committed [])
  | Some most_recent =>
      let expires row :=
        negb (s_id row =? 0) && negb (s_id row =? most_recent)
        && match criteria with
           | Versions versions => existsb (Z.eqb (s_id row)) versions
           | OlderThan cutoff => s_time row <? cutoff
           end in
      let* candidates := query (fun db => order_by s_id (select expires (t_snapshots db))) in
      if is_empty candidates then ret (Committed [])
      else
        execute (on_snapshots (delete_where (fun row => among (s_id <$> candidates) (s_id row)))) ;*
        sweep ;*
        ret (Committed ((fun row => (s_id row, s_time row)) <$> candidates))
  end.

(** [list_scheduled_for_deletion], [remove_scheduled] and [list_referenced_paths]. *)
Definition list_scheduled_for_deletion (criteria : CleanupCriteria) (db : Db) : list (Z * str * bool) :=
  (fun row => (sd_file_id row, sd_path row, sd_path_is_relative row)) <$> select (fun row =>
    match criteria with CleanupAll => true | CleanupOlderThan cutoff => sd_schedule_start row <? cutoff end)
    (t_scheduled db).
Definition remove_scheduled (ids : list Z) : Tx (Ending unit) :=
  execute (on_scheduled (delete_where (fun row => among ids (sd_file_id row)))) ;*
  ret (Committed tt).
Definition list_referenced_paths (db : Db) : list (str * bool) :=
  ((fun row => (sd_path row, sd_path_is_relative row))
     <$> (scheduled_rows (data_file_entry <$> t_data_files db) db
          ++ scheduled_rows (delete_file_entry <$> t_delete_files db) db))
  ++ ((fun row => (sd_path row, sd_path_is_relative row)) <$> t_scheduled db).

End admin.
