(* ===== verification/CatalogReads.v ===== *)
(** * Reading a catalog at a snapshot

    The queries of [DuckdbMetadataProvider] ([metadata_provider_duckdb.rs]) that read the
    tables of [CatalogDb] as of a snapshot, with the SQL they run ([SQL_*] of
    [metadata_provider.rs]). The catalog has every table and column of the current layout
    ([SchemaCapabilities] all present). Columns no operation of the model writes
    ([encryption_key], [mapping_id]) are left out, and a snapshot's time is its number. *)

From S2P Require Import Prelude RustStd Arrow StatsOrder StatsRollup WriterTypes DuckdbCast ChangeLedger Conflicts PathResolver Partition RowIds WriterChecks Types ColumnTrees SortSpec InlinedTypes CatalogDb CatalogSnapshots CatalogTables CatalogCommits CatalogAdmin.

(** [SnapshotMetadata], [SchemaMetadata], [TableMetadata] and [SnapshotChangeMetadata]. *)
Record SnapshotMetadata := { sm_snapshot_id : Z; sm_timestamp : Z; sm_schema_version : Z }.
Record SchemaMetadata := {
  sme_schema_id : Z;
  sme_schema_name : str;
  sme_path : str;
  sme_path_is_relative : bool;
}.
Record TableMetadata := {
  tm_table_id : Z;
  tm_table_name : str;
  tm_path : str;
  tm_path_is_relative : bool;
}.
Record SnapshotChangeMetadata := {
  scm_snapshot_id : Z;
  scm_timestamp : Z;
  scm_changes_made : option str;
  scm_author : option str;
  scm_commit_message : option str;
  scm_commit_extra_info : option str;
}.

(** [DuckLakeTableField]. *)
Record DuckLakeTableField := {
  tf_column_id : Z;
  tf_column_name : str;
  tf_column_type : str;
  tf_is_nullable : bool;
  tf_parent_column : option Z;
}.

(** [DuckLakeFileData] and [DuckLakeTableFile]. *)
Record DuckLakeFileData := {
  fd_path : str;
  fd_path_is_relative : bool;
  fd_file_size_bytes : Z;
  fd_footer_size : option Z;
}.
Record DuckLakeTableFile := {
  tfl_data_file_id : Z;
  tfl_file : DuckLakeFileData;
  tfl_delete_file_id : option Z;
  tfl_delete_file : option DuckLakeFileData;
  tfl_row_id_start : option Z;
  tfl_snapshot_id : option Z;
  tfl_begin_snapshot : option Z;
  tfl_schema_version : option Z;
  tfl_partial_max : option Z;
  tfl_max_row_count : option Z;
  tfl_delete_count : option Z;
  tfl_partition_id : option Z;
  tfl_partition_values : list (Z * option str);
}.

(** [InlinedRowSelection] and [InlinedReadShape]. *)
Inductive InlinedRowSelection :=
| VisibleAt (snapshot : Z)
| InsertedBetween (start end_ : Z)
| DeletedBetween (start end_ : Z)
| WrittenUpTo (snapshot : Z).

Inductive InlinedReadShape := ShapeScan | ShapeMutation | ShapeChanges | ShapeFlush.

Section reads.
Context `{InlineValues} `{SortParser}.

(** ** Snapshots *)

(** [get_current_snapshot]. *)
Definition get_current_snapshot (db : Db) : Z := default 0 (max_list (s_id <$> t_snapshots db)).

(** [list_snapshots]. *)
Definition list_snapshots (db : Db) : list SnapshotMetadata :=
  (fun row => {| sm_snapshot_id := s_id row; sm_timestamp := s_time row;
                 sm_schema_version := s_schema_version row |})
  <$> order_by s_id (t_snapshots db).

(** [snapshot_ids_between]. *)
Definition snapshot_ids_between (from_snapshot through_snapshot : Z) (db : Db) : list Z :=
  s_id <$> order_by s_id (select (fun row => (from_snapshot <=? s_id row) && (s_id row <=? through_snapshot))
                            (t_snapshots db)).

(** The [LEFT JOIN] of a snapshot with its changes. *)
Definition snapshot_changes (row : SnapshotRow) (db : Db) : list (option ChangesRow) :=
  match select (fun c => c_snapshot_id c =? s_id row) (t_snapshot_changes db) with
  | [] => [None]
  | changes => Some <$> changes
  end.

(** [list_snapshot_changes]. *)
Definition list_snapshot_changes (db : Db) : list SnapshotChangeMetadata :=
  row ← order_by s_id (t_snapshots db);
  c ← snapshot_changes row db;
  [{| scm_snapshot_id := s_id row; scm_timestamp := s_time row; scm_changes_made := c ≫= c_changes_made;
      scm_author := c ≫= c_author; scm_commit_message := c ≫= c_commit_message;
      scm_commit_extra_info := c ≫= c_commit_extra_info |}].

(** ** Schemas and tables *)

Definition schema_metadata (row : SchemaRow) : SchemaMetadata :=
  {| sme_schema_id := sch_id row; sme_schema_name := sch_name row; sme_path := sch_path row;
     sme_path_is_relative := sch_path_is_relative row |}.
Definition table_metadata (row : TableRow) : TableMetadata :=
  {| tm_table_id := tb_id row; tm_table_name := tb_name row; tm_path := tb_path row;
     tm_path_is_relative := tb_path_is_relative row |}.

(** [list_schemas] and [list_tables]. *)
Definition list_schemas (snapshot_id : Z) (db : Db) : list SchemaMetadata :=
  (fun v => schema_metadata (v_row v)) <$> select (visible snapshot_id) (t_schemas db).
Definition list_tables (schema_id snapshot_id : Z) (db : Db) : list TableMetadata :=
  (fun v => table_metadata (v_row v))
  <$> select (fun v => of_table tb_schema_id schema_id v && visible snapshot_id v) (t_tables db).

(** [get_schema_by_name], [get_table_by_name] and [table_exists]. *)
Definition get_schema_by_name (name : str) (snapshot_id : Z) (db : Db) : option SchemaMetadata :=
  (fun v => schema_metadata (v_row v))
  <$> head (select (fun v => str_eqb (sch_name (v_row v)) name && visible snapshot_id v) (t_schemas db)).
Definition get_table_by_name (schema_id : Z) (name : str) (snapshot_id : Z) (db : Db) : option TableMetadata :=
  (fun v => table_metadata (v_row v))
  <$> head (select (fun v => of_table tb_schema_id schema_id v && str_eqb (tb_name (v_row v)) name
                             && visible snapshot_id v) (t_tables db)).
Definition table_exists (schema_id : Z) (name : str) (snapshot_id : Z) (db : Db) : bool :=
  existsb (fun v => of_table tb_schema_id schema_id v && str_eqb (tb_name (v_row v)) name
                    && visible snapshot_id v) (t_tables db).

(** ** Columns *)

(** The rows of [SQL_GET_TABLE_COLUMNS]. *)
Definition table_columns (table_id snapshot_id : Z) (db : Db) : list CatalogColumn :=
  v_row <$> order_by (fun v => co_order (v_row v))
    (select (fun v => of_table co_table_id table_id v && visible snapshot_id v) (t_columns db)).

(** [get_table_structure]. *)
Definition get_table_structure (table_id snapshot_id : Z) (db : Db) : outcome (list DuckLakeTableColumn) :=
  reconstruct_columns ((fun column =>
    (with_defaults (DuckLakeTableColumn_new (co_id column) (co_name column) (co_type column) (nullable column))
       (co_initial_default column) (co_default_value column) (co_default_value_type column)
       (co_default_value_dialect column),
     co_parent column)) <$> table_columns table_id snapshot_id db).

(** [get_table_fields]. *)
Definition get_table_fields (table_id snapshot_id : Z) (db : Db) : list DuckLakeTableField :=
  (fun column => {| tf_column_id := co_id column; tf_column_name := co_name column;
                    tf_column_type := co_type column; tf_is_nullable := nullable column;
                    tf_parent_column := co_parent column |}) <$> table_columns table_id snapshot_id db.

(** ** Files *)

(** [SQL_FILE_SCHEMA_VERSION]. *)
Definition file_schema_version (table_id begin_snapshot : Z) (db : Db) : option Z :=
  sv_version <$> head (order_by_desc sv_begin (select (fun row =>
    (sv_table_id row =? table_id) && (sv_begin row <=? begin_snapshot)) (t_schema_versions db))).

(** [SQL_GET_FILE_PARTITION_VALUES], grouped by file. *)
Definition file_partition_values (table_id data_file_id : Z) (db : Db) : list (Z * option str) :=
  (fun row => (i32_or_zero (pv_key_index row), pv_value row))
  <$> select (fun row => (pv_table_id row =? table_id) && (pv_data_file_id row =? data_file_id))
        (t_file_partition_values db).

(** The delete files [SQL_GET_DATA_FILES] joins to a data file. *)
Definition joined_deletes (table_id snapshot_id data_file_id : Z) (db : Db) : list (option DeleteFileRow) :=
  match select (fun v => of_table x_data_file_id data_file_id v && of_table x_table_id table_id v
                         && visible snapshot_id v) (t_delete_files db) with
  | [] => [None]
  | deletes => (fun v => Some (v_row v)) <$> deletes
  end.

(** One row of [SQL_GET_DATA_FILES], before its partition values. *)
Definition table_file (snapshot_id : Z) (v : versioned DataFileRow) (delete : option DeleteFileRow) (db : Db)
  : DuckLakeTableFile :=
  let row := v_row v in
  {| tfl_data_file_id := d_id row;
     tfl_file := {| fd_path := d_path row; fd_path_is_relative := d_path_is_relative row;
                    fd_file_size_bytes := d_file_size_bytes row; fd_footer_size := d_footer_size row |};
     tfl_delete_file_id := x_id <$> delete;
     tfl_delete_file := (fun x => {| fd_path := x_path x; fd_path_is_relative := x_path_is_relative x;
                                     fd_file_size_bytes := x_file_size_bytes x;
                                     fd_footer_size := x_footer_size x |}) <$> delete;
     tfl_row_id_start := d_row_id_start row; tfl_snapshot_id := Some snapshot_id;
     tfl_begin_snapshot := Some (v_begin v); tfl_schema_version := file_schema_version (d_table_id row) (v_begin v) db;
     tfl_partial_max := d_partial_max row; tfl_max_row_count := Some (d_record_count row);
     tfl_delete_count := x_delete_count <$> delete; tfl_partition_id := d_partition_id row;
     tfl_partition_values := [] |}.

Definition with_partition_values (values : list (Z * option str)) (file : DuckLakeTableFile) : DuckLakeTableFile :=
  {| tfl_data_file_id := tfl_data_file_id file; tfl_file := tfl_file file;
     tfl_delete_file_id := tfl_delete_file_id file; tfl_delete_file := tfl_delete_file file;
     tfl_row_id_start := tfl_row_id_start file; tfl_snapshot_id := tfl_snapshot_id file;
     tfl_begin_snapshot := tfl_begin_snapshot file; tfl_schema_version := tfl_schema_version file;
     tfl_partial_max := tfl_partial_max file; tfl_max_row_count := tfl_max_row_count file;
     tfl_delete_count := tfl_delete_count file; tfl_partition_id := tfl_partition_id file;
     tfl_partition_values := values |}.

(** [values_by_file.remove(..)]: the first row of a file takes its values. *)
Fixpoint take_partition_values (taken : list Z) (values : Z -> list (Z * option str)) (files : list DuckLakeTableFile)
  : list DuckLakeTableFile :=
  match files with
  | [] => []
  | file :: rest =>
      let id := tfl_data_file_id file in
      (if existsb (Z.eqb id) taken then file else with_partition_values (values id) file)
      :: take_partition_values (id :: taken) values rest
  end.

(** [get_table_files_for_select]. *)
Definition get_table_files_for_select (table_id snapshot_id : Z) (db : Db) : list DuckLakeTableFile :=
  take_partition_values [] (fun id => file_partition_values table_id id db) (
    v ← select (fun v => of_table d_table_id table_id v && visible snapshot_id v) (t_data_files db);
    delete ← joined_deletes table_id snapshot_id (d_id (v_row v)) db;
    [table_file snapshot_id v delete db]).

(** The file statistics of [get_table_statistics] ([SQL_GET_FILE_COLUMN_STATS]). *)
Definition get_file_column_stats (table_id snapshot_id : Z) (db : Db) : list (Z * ColumnStat) :=
  stat ← select (fun stat => fs_table_id stat =? table_id) (t_file_stats db);
  _ ← select (fun v => of_table d_id (fs_data_file_id stat) v && of_table d_table_id (fs_table_id stat) v
                       && visible snapshot_id v) (t_data_files db);
  [(fs_data_file_id stat, fs_stat stat)].

(** [get_delete_file_begin_snapshot]. *)
Definition get_delete_file_begin_snapshot (delete_file_id : Z) (db : Db) : option Z :=
  v_begin <$> head (select (of_table x_id delete_file_id) (t_delete_files db)).

(** ** Specs *)

(** [get_partition_spec]: pruning by partition is safe with one generation ever. *)
Definition get_partition_spec (table_id snapshot_id : Z) (db : Db) : option PartitionSpec :=
  let generation_count := length (select (of_table pi_table_id table_id) (t_partition_info db)) in
  from_rows ((fun '(id, index, column, transform) => (id, i32_or_zero index, column, transform))
    <$> partition_rows (fun v => of_table pi_table_id table_id v && visible snapshot_id v) db)
    (generation_count =? 1)%nat.

(** [get_sort_spec]. *)
Definition get_sort_spec (table_id snapshot_id : Z) (db : Db) : option SortSpec :=
  sort_from_rows (sort_rows (fun v => of_table si_table_id table_id v && visible snapshot_id v) db).

(** ** Inlined data *)

(** [get_inlined_deletes]: a [NULL] row id cannot be read. *)
Definition get_inlined_deletes (table_id snapshot_id : Z) (db : Db) : result (list (Z * Z)) :=
  let? name := inlined_delete_table_name table_id in
  match t_inlined_deletes db !! name with
  | None => Ok []
  | Some rows =>
      let? rows := mapM_result (fun row =>
        let? row_id := ok_or (i_row_id row) (External "invalid column type Null") in Ok (i_file_id row, row_id))
        (select (fun row => match i_begin_snapshot row with Some b => b <=? snapshot_id | None => false end) rows) in
      Ok (order_by fst (order_by snd rows))
  end.

(** [registered_inlined_tables]. *)
Definition registered_inlined_tables (table_id : Z) (db : Db) : list str :=
  List.filter is_inlined_data_table (r_table_name <$> select (fun row => r_table_id row =? table_id) (t_registry db)).

(** [InlinedRowSelection::predicate] with [InlinedRowSelection::bounds], and the snapshot
    column of [InlinedRowSelection::snapshot_column]. *)
Definition selects {A} (selection : InlinedRowSelection) (v : versioned A) : bool :=
  match selection with
  | VisibleAt s => visible s v
  | InsertedBetween start end_ => (start <=? v_begin v) && (v_begin v <=? end_)
  | DeletedBetween start end_ => match v_end v with Some e => (start <=? e) && (e <=? end_) | None => false end
  | WrittenUpTo s => v_begin v <=? s
  end.
Definition reported_snapshot {A} (selection : InlinedRowSelection) (v : versioned A) : Z :=
  match selection with DeletedBetween _ _ => default 0 (v_end v) | _ => v_begin v end.

(** [InlinedReadShape::order_by]. *)
Definition shape_order (shape : InlinedReadShape) (selection : InlinedRowSelection)
  (rows : list (versioned InlinedRow)) : list (versioned InlinedRow) :=
  let by_row_id := order_by (fun v => n_row_id (v_row v)) in
  match shape with
  | ShapeScan => by_row_id rows
  | ShapeMutation => order_by v_begin (by_row_id rows)
  | ShapeChanges => order_by (reported_snapshot selection) (by_row_id rows)
  | ShapeFlush => by_row_id (order_by v_begin rows)
  end.

(** The row versions [read_inlined_rows_duckdb] reads, with each table's name and columns;
    a table without a selected row gives none. *)
Definition read_inlined_rows (table_id : Z) (selection : InlinedRowSelection) (shape : InlinedReadShape) (db : Db)
  : result (list (str * list str * list (versioned InlinedRow))) :=
  let? tables := mapM_result (fun name =>
    let? table := ok_or (t_inlined_data db !! name) (External "table does not exist") in
    let? _ := system_from_columns name (p_columns table) in
    Ok (name, p_columns table, shape_order shape selection (select (selects selection) (p_rows table))))
    (registered_inlined_tables table_id db) in
  Ok (List.filter (fun table => negb (is_empty table.2)) tables).

End reads.
