(* ===== verification/CatalogHistory.v ===== *)
(** * What a commit leaves of the history

    The view a snapshot has of the catalog, the invariant of the catalog, and the proof that
    the parts of a commit keep both: [keeps P m Q] says that a return of the transaction [m]
    keeps the property [P] of the database, and [holds] is the property of a well-formed
    catalog with a given newest snapshot and a given view at an older one. A part of a commit
    adds rows that begin with the new snapshot and ends live rows with it, which no older
    snapshot sees. The one exception is the first write to a table without columns, which
    moves the beginning of the table's own row ([begins_later]). *)

From S2P Require Import Prelude RustStd Arrow StatsOrder StatsRollup WriterTypes DuckdbCast ChangeLedger Conflicts PathResolver Partition RowIds WriterChecks Types ColumnTrees SortSpec InlinedTypes CatalogDb CatalogSnapshots CatalogTables CatalogCommits CatalogAdmin CatalogReads.

(** ** Rows seen at a snapshot *)

Section rows.
Context {A : Type}.

(** The rows a query at snapshot [t] sees, each with the snapshot it began at. *)
Definition seen (t : Z) (l : list (versioned A)) : list (Z * A) :=
  (fun v => (v_begin v, v_row v)) <$> select (visible t) l.

Lemma select_app (p : A -> bool) l k : select p (l ++ k) = select p l ++ select p k.
Proof. apply List.filter_app. Qed.

Lemma select_ext (p q : A -> bool) l : (forall a, p a = q a) -> select p l = select q l.
Proof. intros E. unfold select. apply List.filter_ext. exact E. Qed.

Lemma elem_of_select (p : A -> bool) l a : a ∈ select p l <-> p a = true /\ a ∈ l.
Proof. unfold select. rewrite !list_elem_of_In, List.filter_In. tauto. Qed.

Lemma seen_app t (l k : list (versioned A)) : seen t (l ++ k) = seen t l ++ seen t k.
Proof. unfold seen, select. by rewrite List.filter_app, fmap_app. Qed.

(** A row born after a snapshot is not seen there. *)
Lemma seen_born t s (l : list (versioned A)) (k : list A) :
  t < s -> seen t (l ++ (born s <$> k)) = seen t l.
Proof.
  intros Hs. rewrite seen_app. replace (seen t (born s <$> k)) with (@nil (Z * A)); [apply app_nil_r|].
  induction k as [|a k IH]; [done|]. unfold seen, select, visible. cbn.
  replace (s <=? t) with false by lia. exact IH.
Qed.

Lemma seen_born_one t s (l : list (versioned A)) a : t < s -> seen t (l ++ [born s a]) = seen t l.
Proof. apply (seen_born t s l [a]). Qed.

(** Nor does a snapshot see the end of a live row that ends after it. *)
Lemma seen_update t (p : versioned A -> bool) (f : versioned A -> versioned A) l :
  (forall v, v ∈ l -> p v = true ->
     visible t (f v) = visible t v /\ (visible t v = true -> v_begin (f v) = v_begin v /\ v_row (f v) = v_row v)) ->
  seen t (update p f l) = seen t l.
Proof.
  intros Hf. induction l as [|v l IH]; [done|].
  unfold seen, select, update in *. cbn. specialize (IH ltac:(set_solver)).
  destruct (p v) eqn:E.
  - destruct (Hf v ltac:(set_solver) E) as [Hv Hr]. rewrite Hv. destruct (visible t v); [|done].
    destruct (Hr eq_refl) as [Hb Hw]. cbn. by rewrite Hb, Hw, IH.
  - destruct (visible t v); cbn; by rewrite IH.
Qed.

Lemma visible_ended t s (v : versioned A) : live v = true -> t < s -> visible t (ended s v) = visible t v.
Proof.
  unfold live, visible, ended. intros Hl%bool_decide_eq_true Hs. rewrite Hl. cbn.
  replace (t <? s) with true by lia. done.
Qed.

Lemma seen_ended t s (p : versioned A -> bool) l :
  t < s -> (forall v, p v = true -> live v = true) -> seen t (update p (ended s) l) = seen t l.
Proof.
  intros Hs Hp. apply seen_update. intros v _ Hv. split; [|done]. apply visible_ended; auto.
Qed.

End rows.

Lemma max_list_app l x : max_list (l ++ [x]) = Some (match max_list l with Some m => Z.max m x | None => x end).
Proof. destruct l as [|y l]; [done|]. cbn. by rewrite foldl_app. Qed.

Lemma max_list_elem l x : x ∈ l -> exists m, max_list l = Some m /\ x <= m.
Proof.
  destruct l as [|y l]; [by inversion 1|]. intros [->|Hx]%elem_of_cons; eexists; (split; [reflexivity|]); auto with ducklake.
Qed.

(** The rows of each table after a statement. *)
Ltac tables :=
  cbv [on_metadata on_snapshots on_snapshot_changes on_schema_versions on_schemas on_tables on_columns on_data_files
       on_delete_files on_table_stats on_table_column_stats on_file_stats on_partition_info on_partition_columns
       on_file_partition_values on_sort_info on_sort_expressions on_registry on_inlined_data on_inlined_deletes
       on_scheduled on_sequences on_indexes];
  cbn [t_metadata t_snapshots t_snapshot_changes t_schema_versions t_schemas t_tables t_columns t_data_files
       t_delete_files t_table_stats t_table_column_stats t_file_stats t_partition_info t_partition_columns
       t_file_partition_values t_sort_info t_sort_expressions t_registry t_inlined_data t_inlined_deletes t_scheduled
       t_view_ids t_macro_ids t_sequences t_indexes t_clock].

Section history.
Context `{InlineValues} `{SortParser}.

(** ** What a snapshot shows

    Every row a query at [t] can read: the snapshots and change records up to [t], and of
    each table the rows visible at [t]. Statistics and partition values are those of the
    visible files, partition columns and sort expressions those of the visible specs, and
    an inlined table counts when it has a visible row. [listed] adds the listing of schemas
    and tables. *)

Record View := {
  vw_snapshots : list SnapshotRow;
  vw_changes : list ChangesRow;
  vw_schema_versions : list SchemaVersionRow;
  vw_columns : list (Z * CatalogColumn);
  vw_data_files : list (Z * DataFileRow);
  vw_delete_files : list (Z * DeleteFileRow);
  vw_file_stats : list FileStatRow;
  vw_file_partition_values : list FilePartitionValueRow;
  vw_partition_info : list (Z * PartitionInfoRow);
  vw_partition_columns : list PartitionColumnRow;
  vw_sort_info : list (Z * SortInfoRow);
  vw_sort_expressions : list SortExpressionRow;
  vw_inlined_data : gmap str (list str * list (Z * InlinedRow));
  vw_registry : list RegistryRow;
  vw_inlined_deletes : gmap str (list InlinedDeleteRow);
  vw_schemas : list (Z * SchemaRow);
  vw_tables : list (Z * TableRow);
}.

Definition seen_ids {A} (id : A -> Z) (rows : list (Z * A)) : list Z := (fun row => id row.2) <$> rows.

Definition seen_inlined (t : Z) (db : Db) : gmap str (list str * list (Z * InlinedRow)) :=
  omap (fun table => match seen t (p_rows table) with [] => None | rows => Some (p_columns table, rows) end)
    (t_inlined_data db).

Definition seen_deletes (t : Z) (rows : list InlinedDeleteRow) : list InlinedDeleteRow :=
  select (fun row => match i_begin_snapshot row with Some b => b <=? t | None => false end) rows.

Definition view (listed : bool) (t : Z) (db : Db) : View :=
  let files := seen_ids d_id (seen t (t_data_files db)) in
  {| vw_snapshots := select (fun row => s_id row <=? t) (t_snapshots db);
     vw_changes := select (fun row => c_snapshot_id row <=? t) (t_snapshot_changes db);
     vw_schema_versions := select (fun row => sv_begin row <=? t) (t_schema_versions db);
     vw_columns := seen t (t_columns db);
     vw_data_files := seen t (t_data_files db);
     vw_delete_files := seen t (t_delete_files db);
     vw_file_stats := select (fun row => among files (fs_data_file_id row)) (t_file_stats db);
     vw_file_partition_values := select (fun row => among files (pv_data_file_id row)) (t_file_partition_values db);
     vw_partition_info := seen t (t_partition_info db);
     vw_partition_columns := select (fun row => among (seen_ids pi_id (seen t (t_partition_info db)))
                                                  (pc_partition_id row)) (t_partition_columns db);
     vw_sort_info := seen t (t_sort_info db);
     vw_sort_expressions := select (fun row => among (seen_ids si_id (seen t (t_sort_info db))) (sx_sort_id row))
                              (t_sort_expressions db);
     vw_inlined_data := seen_inlined t db;
     vw_registry := select (fun row => bool_decide (is_Some (seen_inlined t db !! r_table_name row))) (t_registry db);
     vw_inlined_deletes := omap (fun rows => match seen_deletes t rows with [] => None | rows => Some rows end)
                             (t_inlined_deletes db);
     vw_schemas := if listed then seen t (t_schemas db) else [];
     vw_tables := if listed then seen t (t_tables db) else [] |}.

(** ** The catalog's invariant *)

(** The name of a physical table of inlined rows. *)
Definition inlined_table_name (table_id schema_version : Z) : str :=
  "ducklake_inlined_data_" ++ show_Z table_id ++ "_" ++ show_Z schema_version.

(** Data files have distinct ids; at no snapshot has a data file two delete files, and no
    delete file ends past the newest snapshot; a physical inlined table has its system
    columns and is registered under the table and version of its name, and a registered
    table exists. *)
Definition wf_files (db : Db) : Prop := NoDup ((fun v => d_id (v_row v)) <$> t_data_files db).
Definition wf_deletes (db : Db) : Prop :=
  (forall t, NoDup ((fun v => x_data_file_id (v_row v)) <$> select (visible t) (t_delete_files db)))
  /\ (forall v e, v ∈ t_delete_files db -> v_end v = Some e -> e <= get_current_snapshot db).
Definition wf_inlined (db : Db) : Prop :=
  (forall name table, t_inlined_data db !! name = Some table ->
     (exists row, row ∈ t_registry db /\ name = inlined_table_name (r_table_id row) (r_schema_version row))
     /\ is_ok (system_from_columns name (p_columns table)) = true)
  /\ (forall row, row ∈ t_registry db -> is_Some (t_inlined_data db !! r_table_name row)).
Definition wf (db : Db) : Prop := wf_files db /\ wf_deletes db /\ wf_inlined db.

Lemma among_spec ids id : among ids id = true <-> id ∈ ids.
Proof.
  unfold among. rewrite existsb_exists. setoid_rewrite Z.eqb_eq. setoid_rewrite <- list_elem_of_In. naive_solver.
Qed.

Lemma not_among ids id : id ∉ ids -> among ids id = false.
Proof. intros Hn. apply not_true_is_false. by rewrite among_spec. Qed.

Lemma select_none {A} (p : A -> bool) l : Forall (fun a => p a = false) l -> select p l = [].
Proof. induction 1 as [|a l Ha _ IH]; [done|]. unfold select in *. cbn. by rewrite Ha. Qed.

Lemma select_keyed {A} (key : A -> Z) ids l rows :
  Forall (fun row => key row ∉ ids) rows ->
  select (fun row => among ids (key row)) (l ++ rows) = select (fun row => among ids (key row)) l.
Proof.
  intros Hr. rewrite select_app, (select_none _ rows), app_nil_r; [done|].
  eapply Forall_impl; [exact Hr|]. intros a. apply not_among.
Qed.

(** Rows appended with an order key past [t], and changes of such rows, do not count. *)
Lemma select_past {A} (key : A -> Z) t l rows :
  Forall (fun row => t < key row) rows ->
  select (fun row => key row <=? t) (l ++ rows) = select (fun row => key row <=? t) l.
Proof.
  intros Hr. rewrite select_app, (select_none _ rows), app_nil_r; [done|].
  eapply Forall_impl; [exact Hr|]. intros a; cbn. lia.
Qed.

Lemma select_mapped {A} (key : A -> Z) t (f : A -> A) l :
  (forall a, key (f a) = key a) -> (forall a, key a <= t -> f a = a) ->
  select (fun row => key row <=? t) (f <$> l) = select (fun row => key row <=? t) l.
Proof.
  intros Hk Hf. induction l as [|a l IH]; [done|]. unfold select in *. cbn. rewrite Hk, IH.
  destruct (key a <=? t) eqn:E; [|done]. by rewrite Hf by lia.
Qed.

(** ** Transactions that keep a property

    [keeps P m Q]: from a catalog with [P], a return of [m] leaves a catalog with [P], and its
    value satisfies [Q]. *)

Definition keeps {A} (P : Db -> Prop) (m : Tx A) (Q : A -> Prop) : Prop :=
  forall db a db', P db -> m db = Returns (Ok (a, db')) -> P db' /\ Q a.

(** A well-formed catalog with newest snapshot [h] and view [v] at [t]. *)
Definition holds (listed : bool) (t : Z) (v : View) (h : Z) (db : Db) : Prop :=
  wf db /\ get_current_snapshot db = h /\ view listed t db = v.

(** A property that no reservation of ids touches. *)
Class Reserves (P : Db -> Prop) := {
  reserves_metadata : forall f db, P db -> P (on_metadata f db);
  reserves_sequences : forall f db, P db -> P (on_sequences f db);
}.

Definition anything {A} (a : A) : Prop := True.

(** As [keeps], with any value. *)
Definition keeps_of {A} (P : Db -> Prop) (m : Tx A) : Prop := keeps P m anything.

(** A property that an index does not touch. *)
Class IgnoresIndexes (P : Db -> Prop) := keep_indexes : forall f db, P db -> P (on_indexes f db).

Lemma run_committed {A} (m : Tx (Ending A)) db a db' :
  run m db = (Returns (Ok a), db') -> m db = Returns (Ok (Committed a, db')) \/ (exists d, m db = Returns (Ok (RolledBack a, d)) /\ db' = db).
Proof. unfold run. destruct (m db) as [[[[x|x] d]|e]|]; intros [= -> ->]; [by left|right; by exists d]. Qed.

Section rules.
Context {P : Db -> Prop}.
Abbreviation keeps := (keeps P).

Lemma bind_ok {A B} (m : Tx A) (k : A -> Tx B) db b db2 :
  bind m k db = Returns (Ok (b, db2)) ->
  exists a db1, m db = Returns (Ok (a, db1)) /\ k a db1 = Returns (Ok (b, db2)).
Proof.
  unfold bind, outcome_bind. destruct (m db) as [[[a db1]|e]|] eqn:E; try done.
  intros Hk. by exists a, db1.
Qed.

Lemma bind_intro {A B} (m : Tx A) (k : A -> Tx B) db a db1 :
  m db = Returns (Ok (a, db1)) -> bind m k db = k a db1.
Proof. intros E. unfold bind, outcome_bind. by rewrite E. Qed.

Lemma keeps_weaken {A} (m : Tx A) (Q Q' : A -> Prop) : keeps m Q -> (forall a, Q a -> Q' a) -> keeps m Q'.
Proof. intros Hm HQ db a db' Hd E. destruct (Hm db a db' Hd E). auto. Qed.

Lemma keeps_anything {A} (m : Tx A) (Q : A -> Prop) : keeps m Q -> keeps m anything.
Proof. intros Hm. by eapply keeps_weaken. Qed.

Lemma keeps_bind {A B} (m : Tx A) (k : A -> Tx B) Q Q' :
  keeps m Q -> (forall a, Q a -> keeps (k a) Q') -> keeps (bind m k) Q'.
Proof.
  intros Hm Hk db b db2 Hd E. apply bind_ok in E as (a & db1 & E1 & E2).
  destruct (Hm _ _ _ Hd E1) as [Hd1 HQ]. by apply (Hk a HQ db1 b db2).
Qed.

Lemma keeps_ret {A} (a : A) (Q : A -> Prop) : Q a -> keeps (ret a) Q.
Proof. intros HQ db a' db' Hd [= <- <-]. done. Qed.

Lemma keeps_throw {A} e (Q : A -> Prop) : keeps (throw e) Q.
Proof. intros db a db' _ [=]. Qed.

Lemma keeps_panic {A} (Q : A -> Prop) : keeps panic Q.
Proof. intros db a db' _ [=]. Qed.

Lemma keeps_query {A} (f : Db -> A) : keeps (query f) anything.
Proof. intros db a db' Hd [= <- <-]. done. Qed.

Lemma keeps_query_row {A} (f : Db -> list A) : keeps (query_row f) anything.
Proof. intros db a db' Hd. unfold query_row. destruct (head (f db)); [|done]. by intros [= <- <-]. Qed.

Lemma keeps_lift {A} (r : result A) : keeps (lift r) anything.
Proof. intros db a db' Hd. unfold lift. destruct r; [|done]. by intros [= <- <-]. Qed.

Lemma keeps_lift_outcome {A} (o : outcome A) : keeps (lift_outcome o) anything.
Proof. intros db a db' Hd. unfold lift_outcome, outcome_bind. destruct o as [[]|]; [|done..]. by intros [= <- <-]. Qed.

Lemma keeps_ensure b e : keeps (ensure b e) anything.
Proof. destruct b; [by apply keeps_ret|apply keeps_throw]. Qed.

Lemma keeps_bigint z : keeps (bigint z) anything.
Proof. unfold bigint. destruct (in_i64 z); [by apply keeps_ret|apply keeps_throw]. Qed.

Lemma keeps_rust_i64 z : keeps (rust_i64 z) anything.
Proof. unfold rust_i64. destruct (in_i64 z); [by apply keeps_ret|apply keeps_panic]. Qed.

Lemma keeps_execute f : (forall db, P db -> P (f db)) -> keeps (execute f) anything.
Proof. intros Hf db a db' Hd [= <- <-]. split; [auto|done]. Qed.

Lemma keeps_when b m : (b = true -> keeps m anything) -> keeps (when b m) anything.
Proof. destruct b; cbn; [auto|]. intros _. by apply keeps_ret. Qed.

Lemma keeps_for_each {A} (l : list A) body :
  (forall a, a ∈ l -> keeps (body a) anything) -> keeps (for_each l body) anything.
Proof.
  induction l as [|a l IH]; intros Hb; cbn; [by apply keeps_ret|].
  eapply keeps_bind; [apply Hb; set_solver|]. intros _ _. apply IH. set_solver.
Qed.

Lemma keeps_map_each {A B} (l : list A) (body : A -> Tx B) :
  (forall a, a ∈ l -> keeps (body a) anything) -> keeps (map_each l body) anything.
Proof.
  induction l as [|a l IH]; intros Hb; cbn; [by apply keeps_ret|].
  eapply keeps_bind; [apply Hb; set_solver|]. intros b _.
  eapply keeps_bind; [apply IH; set_solver|]. intros bs _. by apply keeps_ret.
Qed.

Lemma keeps_insert_key {A} get on (same : A -> bool) a :
  (forall db, P db -> existsb same (get db) = false -> P (on (fun l => l ++ [a]) db)) ->
  keeps (insert_key get on same a) anything.
Proof.
  intros Hi db b db' Hd. unfold insert_key. destruct (existsb same (get db)) eqn:E; [done|].
  intros [= <- <-]. split; [auto|done].
Qed.

End rules.

Section statements.
Context {listed : bool} {t : Z} {v : View} {h : Z}.
Abbreviation holds := (holds listed t v h).

(** *** Statements *)

(** Statements on tables no snapshot's view is made of. *)
#[global] Instance holds_reserves : Reserves holds.
Proof. split; intros f db; exact id. Qed.
#[global] Instance holds_ignores_indexes : IgnoresIndexes holds.
Proof. intros f db. exact id. Qed.
Lemma holds_scheduled f db : holds db -> holds (on_scheduled f db).
Proof. exact id. Qed.
Lemma holds_table_stats f db : holds db -> holds (on_table_stats f db).
Proof. exact id. Qed.
Lemma holds_table_column_stats f db : holds db -> holds (on_table_column_stats f db).
Proof. exact id. Qed.

(** Statements on a versioned table: what matters is which rows [t] sees. *)
Lemma holds_columns f db :
  seen t (f (t_columns db)) = seen t (t_columns db) -> holds db -> holds (on_columns f db).
Proof.
  intros Hs (Hw & Hh & Hv). split_and!; [exact Hw|exact Hh|]. rewrite <- Hv. unfold view, seen_inlined. tables.
  by rewrite Hs.
Qed.

Lemma holds_partition_info f db :
  seen t (f (t_partition_info db)) = seen t (t_partition_info db) -> holds db -> holds (on_partition_info f db).
Proof.
  intros Hs (Hw & Hh & Hv). split_and!; [exact Hw|exact Hh|]. rewrite <- Hv. unfold view, seen_inlined. tables.
  by rewrite Hs.
Qed.

Lemma holds_sort_info f db :
  seen t (f (t_sort_info db)) = seen t (t_sort_info db) -> holds db -> holds (on_sort_info f db).
Proof.
  intros Hs (Hw & Hh & Hv). split_and!; [exact Hw|exact Hh|]. rewrite <- Hv. unfold view, seen_inlined. tables.
  by rewrite Hs.
Qed.

Lemma holds_schemas f db :
  (listed = true -> seen t (f (t_schemas db)) = seen t (t_schemas db)) -> holds db -> holds (on_schemas f db).
Proof.
  intros Hs (Hw & Hh & Hv). split_and!; [exact Hw|exact Hh|]. rewrite <- Hv. unfold view, seen_inlined. tables.
  destruct listed; [by rewrite Hs|done].
Qed.

Lemma holds_tables f db :
  (listed = true -> seen t (f (t_tables db)) = seen t (t_tables db)) -> holds db -> holds (on_tables f db).
Proof.
  intros Hs (Hw & Hh & Hv). split_and!; [exact Hw|exact Hh|]. rewrite <- Hv. unfold view, seen_inlined. tables.
  destruct listed; [by rewrite Hs|done].
Qed.

Lemma holds_data_files f db :
  seen t (f (t_data_files db)) = seen t (t_data_files db) ->
  (wf_files db -> NoDup ((fun v => d_id (v_row v)) <$> f (t_data_files db))) ->
  holds db -> holds (on_data_files f db).
Proof.
  intros Hs Hn ((Hw1 & Hw2 & Hw3) & Hh & Hv).
  split_and!; [split_and!; [by apply Hn|exact Hw2|exact Hw3]|exact Hh|].
  rewrite <- Hv. unfold view, seen_inlined. tables. by rewrite Hs.
Qed.

Lemma holds_delete_files f db :
  seen t (f (t_delete_files db)) = seen t (t_delete_files db) ->
  (get_current_snapshot db = h -> wf_deletes db -> wf_deletes (on_delete_files f db)) ->
  holds db -> holds (on_delete_files f db).
Proof.
  intros Hs Hn ((Hw1 & Hw2 & Hw3) & Hh & Hv).
  split_and!; [split_and!; [exact Hw1|by apply Hn|exact Hw3]|exact Hh|].
  rewrite <- Hv. unfold view, seen_inlined. tables. by rewrite Hs.
Qed.

Lemma holds_schema_versions f db :
  select (fun row => sv_begin row <=? t) (f (t_schema_versions db))
  = select (fun row => sv_begin row <=? t) (t_schema_versions db) -> holds db -> holds (on_schema_versions f db).
Proof.
  intros Hs (Hw & Hh & Hv). split_and!; [exact Hw|exact Hh|]. rewrite <- Hv. unfold view, seen_inlined. tables.
  by rewrite Hs.
Qed.

Lemma holds_snapshot_changes f db :
  select (fun row => c_snapshot_id row <=? t) (f (t_snapshot_changes db))
  = select (fun row => c_snapshot_id row <=? t) (t_snapshot_changes db) -> holds db -> holds (on_snapshot_changes f db).
Proof.
  intros Hs (Hw & Hh & Hv). split_and!; [exact Hw|exact Hh|]. rewrite <- Hv. unfold view, seen_inlined. tables.
  by rewrite Hs.
Qed.

Lemma holds_snapshots f db :
  select (fun row => s_id row <=? t) (f (t_snapshots db)) = select (fun row => s_id row <=? t) (t_snapshots db) ->
  s_id <$> f (t_snapshots db) = s_id <$> t_snapshots db -> holds db -> holds (on_snapshots f db).
Proof.
  intros Hs Hm ((Hw1 & [Hw2 Hw2'] & Hw3) & Hh & Hv).
  assert (Hg : get_current_snapshot (on_snapshots f db) = get_current_snapshot db)
    by (unfold get_current_snapshot; tables; by rewrite Hm).
  split_and!; [split_and!; [exact Hw1| |exact Hw3]|by rewrite Hg|].
  - split; [exact Hw2|]. intros w e Hin He. rewrite Hg. by eapply Hw2'.
  - rewrite <- Hv. unfold view, seen_inlined. tables. by rewrite Hs.
Qed.

(** Statements on rows kept by file or spec: rows of others do not count. *)
Lemma holds_file_stats rows db :
  Forall (fun row => fs_data_file_id row ∉ seen_ids d_id (vw_data_files v)) rows ->
  holds db -> holds (on_file_stats (fun l => l ++ rows) db).
Proof.
  intros Hr (Hw & Hh & Hv). split_and!; [exact Hw|exact Hh|]. rewrite <- Hv in Hr |- *. unfold view, seen_inlined. tables.
  by rewrite select_keyed by exact Hr.
Qed.

Lemma holds_file_partition_values rows db :
  Forall (fun row => pv_data_file_id row ∉ seen_ids d_id (vw_data_files v)) rows ->
  holds db -> holds (on_file_partition_values (fun l => l ++ rows) db).
Proof.
  intros Hr (Hw & Hh & Hv). split_and!; [exact Hw|exact Hh|]. rewrite <- Hv in Hr |- *. unfold view, seen_inlined. tables.
  by rewrite (select_keyed pv_data_file_id) by exact Hr.
Qed.

Lemma holds_partition_columns rows db :
  Forall (fun row => pc_partition_id row ∉ seen_ids pi_id (vw_partition_info v)) rows ->
  holds db -> holds (on_partition_columns (fun l => l ++ rows) db).
Proof.
  intros Hr (Hw & Hh & Hv). split_and!; [exact Hw|exact Hh|]. rewrite <- Hv in Hr |- *. unfold view, seen_inlined. tables.
  by rewrite (select_keyed pc_partition_id) by exact Hr.
Qed.

Lemma holds_sort_expressions rows db :
  Forall (fun row => sx_sort_id row ∉ seen_ids si_id (vw_sort_info v)) rows ->
  holds db -> holds (on_sort_expressions (fun l => l ++ rows) db).
Proof.
  intros Hr (Hw & Hh & Hv). split_and!; [exact Hw|exact Hh|]. rewrite <- Hv in Hr |- *. unfold view, seen_inlined. tables.
  by rewrite (select_keyed sx_sort_id) by exact Hr.
Qed.

(** Statements on one physical inlined table, and on one table of inlined deletes. *)
Lemma holds_physical f name db :
  (forall rows, seen t (f rows) = seen t rows) ->
  holds db ->
  holds (on_inlined_data (alter (fun table => {| p_columns := p_columns table; p_rows := f (p_rows table) |}) name) db).
Proof.
  intros Hf ((Hw1 & Hw2 & [Hw3 Hw4]) & Hh & Hv). set (g := fun table : InlinedTable => _).
  assert (Hs : seen_inlined t (on_inlined_data (alter g name) db) = seen_inlined t db).
  { apply map_eq. intros k. unfold seen_inlined. tables. rewrite !lookup_omap.
    destruct (decide (k = name)) as [->|Hk]; [|by rewrite lookup_alter_ne].
    rewrite lookup_alter_eq. destruct (t_inlined_data db !! name) as [table|]; [|done].
    unfold g. cbn [fmap option_fmap option_map mbind option_bind p_rows p_columns]. by rewrite Hf. }
  split_and!; [split_and!; [exact Hw1|exact Hw2|split]|exact Hh|].
  - intros k table. tables. intros Hk. destruct (decide (k = name)) as [->|Hne].
    + rewrite lookup_alter_eq in Hk. destruct (t_inlined_data db !! name) as [table'|] eqn:E; [|done].
      apply (inj Some) in Hk as <-. exact (Hw3 name table' E).
    + rewrite lookup_alter_ne in Hk by done. by apply Hw3.
  - intros row Hr. tables. specialize (Hw4 row Hr). destruct (decide (r_table_name row = name)) as [Hn|Hne].
    + rewrite Hn in Hw4 |- *. rewrite lookup_alter_eq. destruct Hw4 as [table ->]. done.
    + by rewrite lookup_alter_ne.
  - rewrite <- Hv. unfold view. rewrite Hs. done.
Qed.

Lemma holds_inlined_deletes_at f name db :
  (forall rows, seen_deletes t (f rows) = seen_deletes t rows) ->
  holds db -> holds (on_inlined_deletes (alter f name) db).
Proof.
  intros Hf (Hw & Hh & Hv). split_and!; [exact Hw|exact Hh|]. rewrite <- Hv. unfold view, seen_inlined. tables.
  f_equal. apply map_eq. intros k. rewrite !lookup_omap. destruct (decide (k = name)) as [->|Hk].
  - rewrite lookup_alter_eq. destruct (t_inlined_deletes db !! name) as [rows|]; [|done].
    cbn [fmap option_fmap option_map mbind option_bind]. by rewrite Hf.
  - by rewrite lookup_alter_ne.
Qed.

Lemma holds_new_inlined_deletes name db :
  holds db -> holds (on_inlined_deletes (fun m => match m !! name with Some _ => m | None => <[name := []]> m end) db).
Proof.
  intros (Hw & Hh & Hv). split_and!; [exact Hw|exact Hh|]. rewrite <- Hv. unfold view, seen_inlined. tables.
  f_equal. apply map_eq. intros k. rewrite !lookup_omap.
  destruct (t_inlined_deletes db !! name) as [rows|] eqn:E; [done|].
  destruct (decide (k = name)) as [->|Hk]; [|by rewrite lookup_insert_ne].
  by rewrite lookup_insert_eq, E.
Qed.
End statements.
End history.

(** The tactic [keep] walks through a transaction's statements; the database [history] holds
    what the named parts keep. *)
Create HintDb history.
Ltac keep_step :=
  match goal with
  | |- keeps _ (bind _ _) _ => apply (keeps_bind _ _ anything); [|intros ? _]
  | |- keeps _ (ret _) _ => apply keeps_ret; exact I
  | |- keeps _ (throw _) _ => apply keeps_throw
  | |- keeps _ panic _ => apply keeps_panic
  | |- keeps _ (query _) _ => apply keeps_query
  | |- keeps _ (query_optional _) _ => apply keeps_query
  | |- keeps _ (query_row _) _ => apply keeps_query_row
  | |- keeps _ (lift _) _ => apply keeps_lift
  | |- keeps _ (lift_outcome _) _ => apply keeps_lift_outcome
  | |- keeps _ (ensure _ _) _ => apply keeps_ensure
  | |- keeps _ (bigint _) _ => apply keeps_bigint
  | |- keeps _ (rust_i64 _) _ => apply keeps_rust_i64
  | |- keeps _ (when _ _) _ => apply keeps_when; intros _
  | |- keeps _ (for_each _ _) _ => apply keeps_for_each; intros ? _
  | |- keeps _ (map_each _ _) _ => apply keeps_map_each; intros ? _
  | |- keeps _ (execute (on_metadata _)) _ => apply keeps_execute; intros ? ?; by apply reserves_metadata
  | |- keeps _ (execute (on_sequences _)) _ => apply keeps_execute; intros ? ?; by apply reserves_sequences
  | |- keeps _ (execute (on_indexes _)) _ => apply keeps_execute; intros ? ?; by apply keep_indexes
  | |- keeps _ (execute (on_scheduled _)) _ => apply keeps_execute; intros ? ?; by apply holds_scheduled
  | |- keeps _ (execute (on_table_stats _)) _ => apply keeps_execute; intros ? ?; by apply holds_table_stats
  | |- keeps _ (execute (on_table_column_stats _)) _ =>
      apply keeps_execute; intros ? ?; by apply holds_table_column_stats
  | |- keeps _ (match ?x with _ => _ end) _ => destruct x
  | |- keeps _ (let x := _ in _) _ => cbv zeta
  | |- keeps _ ?m _ => solve [eauto 3 with history typeclass_instances]
  end.
Ltac keep := repeat keep_step.

(** ** Id reservations *)

Section reservations.
Context `{InlineValues} {P : Db -> Prop} `{!Reserves P}.
Abbreviation keeps := (keeps P).

Lemma keeps_scalar {A} (f : Db -> list A) : keeps (scalar f) anything.
Proof. unfold scalar. keep. Qed.
Hint Resolve keeps_scalar : history.

Lemma keeps_update_counter key f : keeps (update_counter key f) anything.
Proof. unfold update_counter. keep. Qed.
Hint Resolve keeps_update_counter : history.

Lemma keeps_reserve_ids key n : keeps (reserve_ids key n) anything.
Proof. unfold reserve_ids. keep. Qed.
Hint Resolve keeps_reserve_ids : history.

Lemma keeps_raise_column_ids table_id n : keeps (raise_column_ids_past_table table_id n) anything.
Proof. unfold raise_column_ids_past_table. keep. Qed.

Lemma keeps_restart_sequences a last : keeps (restart_legacy_sequences a last) anything.
Proof. unfold restart_legacy_sequences. keep. Qed.
Hint Resolve keeps_restart_sequences : history.

Lemma keeps_seed_id_allocator a : keeps (seed_id_allocator a) anything.
Proof. unfold seed_id_allocator. keep. Qed.
Hint Resolve keeps_seed_id_allocator : history.

Lemma keeps_reserve_ids_of a n : keeps (reserve_ids_of a n) anything.
Proof. unfold reserve_ids_of. keep. Qed.
Hint Resolve keeps_reserve_ids_of : history.

Lemma keeps_reserve_file_ids n : keeps (reserve_file_ids n) anything.
Proof. unfold reserve_file_ids. keep. Qed.
Hint Resolve keeps_reserve_file_ids : history.

Lemma keeps_reserve_file_id : keeps reserve_file_id anything.
Proof. unfold reserve_file_id. keep. Qed.

Lemma keeps_next_watermark a previous : keeps (next_watermark a previous) anything.
Proof. unfold next_watermark. keep. Qed.
End reservations.
#[export] Hint Resolve keeps_scalar keeps_update_counter keeps_reserve_ids keeps_restart_sequences
  keeps_seed_id_allocator keeps_reserve_ids_of keeps_reserve_file_ids keeps_raise_column_ids keeps_reserve_file_id
  keeps_next_watermark : history.

Section parts.
Context `{InlineValues} `{SortParser}.
Context {listed : bool} {t : Z} {v : View} {h : Z}.
Abbreviation keeps := (keeps (holds listed t v h)).
Abbreviation holds := (holds listed t v h).

(** ** The snapshot's own row

    The new snapshot is the newest, [h], and [t] an older one. *)

Context (Ht : t < h).

(** A transaction that only reads. *)
Definition reads {A} (m : Tx A) : Prop := forall db a db', m db = Returns (Ok (a, db')) -> db' = db.

Lemma reads_bind {A B} (m : Tx A) (k : A -> Tx B) : reads m -> (forall a, reads (k a)) -> reads (bind m k).
Proof.
  intros Hm Hk db b db2 E. apply bind_ok in E as (a & db1 & E1 & E2).
  rewrite (Hk _ _ _ _ E2). by eapply Hm.
Qed.
Lemma reads_ret {A} (a : A) : reads (ret a).
Proof. by intros db a' db' [= _ <-]. Qed.
Lemma reads_query {A} (f : Db -> A) : reads (query f).
Proof. by intros db a' db' [= _ <-]. Qed.
Lemma reads_lift {A} (r : result A) : reads (lift r).
Proof. intros db a db'. unfold lift. destruct r; [|done]. by intros [= _ <-]. Qed.
Lemma reads_bigint z : reads (bigint z).
Proof. unfold bigint. destruct (in_i64 z); [apply reads_ret|]. intros db a db' [=]. Qed.
Lemma reads_throw {A} e : reads (A := A) (throw e).
Proof. intros db a db' [=]. Qed.

Ltac read := repeat first
  [ apply reads_bind; [|intros ?] | apply reads_ret | apply reads_query | apply reads_lift | apply reads_bigint
  | apply reads_throw | match goal with |- reads (match ?x with _ => _ end) => destruct x end ].

Lemma reads_next_watermark a previous : reads (next_watermark a previous).
Proof. unfold next_watermark, scalar. read. Qed.

(** [map_each] over rows with a body that only reads. *)
Lemma map_each_rows {A B} (R : A -> B -> Prop) l (body : A -> Tx B) db l' db' :
  (forall a b db1 db2, body a db1 = Returns (Ok (b, db2)) -> db2 = db1 /\ R a b) ->
  map_each l body db = Returns (Ok (l', db')) -> db' = db /\ Forall2 R l l'.
Proof.
  intros Hb. revert l' db db'. induction l as [|a l IH]; intros l' db db' E; cbn [map_each] in E.
  - apply (f_equal (fun o => match o with Returns (Ok r) => r | _ => (l', db') end)) in E. cbn in E.
    injection E as <- <-. split; [done|constructor].
  - apply bind_ok in E as (b & db1 & E1 & E). apply bind_ok in E as (bs & db2 & E2 & E).
    injection E as <- <-. destruct (Hb _ _ _ _ E1) as [-> HR]. destruct (IH _ _ _ E2) as [-> HF].
    split; [done|by constructor].
Qed.

(** A change of the rows of the newest snapshot. *)
Definition newer_row (row row' : SnapshotRow) : Prop := s_id row' = s_id row /\ (s_id row <> h -> row' = row).

Lemma holds_newer_rows rows' db :
  Forall2 newer_row (t_snapshots db) rows' -> holds db -> holds (on_snapshots (fun _ => rows') db).
Proof.
  intros HF. apply holds_snapshots.
  - induction HF as [|row row' l l' [Hid Hr] _ IH]; [done|]. unfold select in *. cbn. rewrite Hid, IH.
    destruct (s_id row <=? t) eqn:E; [|done]. by rewrite Hr by lia.
  - induction HF as [|row row' l l' [Hid Hr] _ IH]; [done|]. cbn. by rewrite Hid, IH.
Qed.

Lemma keeps_rewrite_newest body :
  (forall row row' db db', body row db = Returns (Ok (row', db')) -> db' = db /\ newer_row row row') ->
  keeps (let* rows := query t_snapshots in
         let* rows' := map_each rows body in
         execute (on_snapshots (fun _ => rows'))) anything.
Proof.
  intros Hb db [] db' Hd E. apply bind_ok in E as (rows & db1 & [= <- <-] & E).
  apply bind_ok in E as (rows' & db2 & E2 & E). injection E as <-.
  destruct (map_each_rows newer_row _ _ _ _ _ Hb E2) as [-> HF]. split; [by apply holds_newer_rows|done].
Qed.

Lemma keeps_raise_snapshot_watermarks : keeps (raise_snapshot_watermarks h) anything.
Proof.
  apply keeps_rewrite_newest. intros row row' db db' E. destruct (s_id row =? h) eqn:Eh.
  - apply bind_ok in E as (c & db1 & E1 & E). apply bind_ok in E as (f & db2 & E2 & E).
    apply reads_next_watermark in E1 as ->. apply reads_next_watermark in E2 as ->. injection E as <- <-.
    split; [done|]. split; [done|]. intros. lia.
  - injection E as <- <-. done.
Qed.
Hint Resolve keeps_raise_snapshot_watermarks : history.

Lemma keeps_record_snapshot_changes changes commit_metadata :
  keeps (record_snapshot_changes h changes commit_metadata) anything.
Proof.
  unfold record_snapshot_changes. apply (keeps_bind _ _ anything); [|intros _ _; keep].
  apply keeps_execute. intros db. apply holds_snapshot_changes. unfold update. apply select_mapped.
  - intros row. by destruct (c_snapshot_id row =? h).
  - intros row Hr. replace (c_snapshot_id row =? h) with false by lia. done.
Qed.
Hint Resolve keeps_record_snapshot_changes : history.

Lemma keeps_bump_schema_version : keeps (bump_schema_version h) anything.
Proof.
  unfold bump_schema_version. keep. apply keeps_execute. intros db. apply holds_snapshots.
  - unfold update. apply select_mapped.
    + intros row. by destruct (s_id row =? h).
    + intros row Hr. replace (s_id row =? h) with false by lia. done.
  - unfold update. rewrite <- list_fmap_compose. apply list_fmap_ext. intros i row _. cbn. by destruct (s_id row =? h).
Qed.
Hint Resolve keeps_bump_schema_version : history.

Lemma keeps_record_schema_version version table_id : keeps (record_schema_version h version table_id) anything.
Proof.
  apply keeps_insert_key. intros db Hd _. apply holds_schema_versions; [|done].
  apply select_past. repeat constructor. cbn. lia.
Qed.
Hint Resolve keeps_record_schema_version : history.

Lemma keeps_seed_stats table_id : keeps (seed_stats_if_missing table_id) anything.
Proof. unfold seed_stats_if_missing. keep. apply keeps_insert_key. intros db Hd _. by apply holds_table_stats. Qed.
Hint Resolve keeps_seed_stats : history.

(** ** Physical inlined tables *)

Lemma keeps_physical_table name : keeps (physical_table name) anything.
Proof. unfold physical_table. keep. Qed.
Hint Resolve keeps_physical_table : history.

Lemma keeps_inlined_table_layout name : keeps (inlined_table_layout name) anything.
Proof. unfold inlined_table_layout. keep. Qed.
Hint Resolve keeps_inlined_table_layout : history.

Lemma keeps_inlined_tables table_id : keeps (inlined_tables table_id) anything.
Proof. unfold inlined_tables. keep. Qed.
Hint Resolve keeps_inlined_tables : history.

Lemma keeps_update_physical name f :
  (forall rows, seen t (f rows) = seen t rows) -> keeps (update_physical name f) anything.
Proof. intros Hf. apply keeps_execute. intros db. by apply holds_physical. Qed.

Lemma keeps_end_physical name p :
  (forall v, p v = true -> live v = true) -> keeps (update_physical name (update p (ended h))) anything.
Proof. intros Hp. apply keeps_update_physical. intros rows. by apply seen_ended. Qed.

Lemma keeps_any_inlined names p : keeps (any_inlined names p) anything.
Proof. induction names as [|name names IH]; cbn [any_inlined]; keep. Qed.
Hint Resolve keeps_any_inlined : history.

(** ** The ledger of a write *)

Lemma keeps_record_table_changes table_id schema_name table_name changes commit_metadata :
  keeps (record_table_changes h table_id schema_name table_name changes commit_metadata) anything.
Proof. unfold record_table_changes. keep. Qed.
Hint Resolve keeps_record_table_changes : history.

Lemma keeps_record_table_write_changes table_id schema_name table_name mode has_deletes inlined commit_metadata :
  keeps (record_table_write_changes h table_id schema_name table_name mode has_deletes inlined commit_metadata) anything.
Proof. unfold record_table_write_changes. keep. Qed.
Hint Resolve keeps_record_table_write_changes : history.

(** ** Tables, conflict checks and retired rows *)

Lemma keeps_insert_new_table_rows table_id schema_name table_name base_snapshot mode reserved :
  keeps (insert_new_table_rows h table_id schema_name table_name base_snapshot mode reserved) anything.
Proof.
  unfold insert_new_table_rows. keep.
  all: first [apply keeps_insert_key; intros db Hd _; apply holds_schemas; [|done]
             |apply keeps_execute; intros db; apply holds_tables]; intros _; by apply seen_born_one.
Qed.
Hint Resolve keeps_insert_new_table_rows : history.

Lemma keeps_detect_replace_conflict table_id base_snapshot scope :
  keeps (detect_replace_conflict table_id base_snapshot scope) anything.
Proof. unfold detect_replace_conflict, refuse_changed_inlined. keep. Qed.
Hint Resolve keeps_detect_replace_conflict : history.

Lemma keeps_detect_created_table_conflict table_id base_snapshot :
  keeps (detect_created_table_conflict table_id base_snapshot) anything.
Proof. unfold detect_created_table_conflict. keep. Qed.
Hint Resolve keeps_detect_created_table_conflict : history.

Lemma keeps_detect_new_inlined_deletes table_id base_snapshot sources :
  keeps (detect_new_inlined_deletes table_id base_snapshot sources) anything.
Proof. unfold detect_new_inlined_deletes. keep. Qed.
Hint Resolve keeps_detect_new_inlined_deletes : history.

Lemma keeps_check_staged_conflicts write snapshot_id : keeps (check_staged_conflicts write snapshot_id) anything.
Proof. unfold check_staged_conflicts, changes_between, refuse. keep. Qed.
Hint Resolve keeps_check_staged_conflicts : history.

Lemma keeps_check_table_conflicts table_id base_snapshot snapshot_id ours :
  keeps (check_table_conflicts table_id base_snapshot snapshot_id ours) anything.
Proof. unfold check_table_conflicts, changes_between, refuse. keep. Qed.
Hint Resolve keeps_check_table_conflicts : history.

Lemma keeps_deleted_files_table table_id deletes : keeps (deleted_files_table table_id deletes) anything.
Proof. unfold deleted_files_table. keep. Qed.
Hint Resolve keeps_deleted_files_table : history.

Lemma keeps_enforce_inline_partition_fence table_id base_snapshot :
  keeps (enforce_inline_partition_fence table_id base_snapshot) anything.
Proof. unfold enforce_inline_partition_fence. keep. Qed.
Hint Resolve keeps_enforce_inline_partition_fence : history.

(** Live data files may end with the new snapshot. *)
Lemma keeps_end_data_files p :
  (forall v, p v = true -> live v = true) -> keeps (execute (on_data_files (update p (ended h)))) anything.
Proof.
  intros Hp. apply keeps_execute. intros db. apply holds_data_files; [by apply seen_ended|].
  intros Hn. unfold wf_files in Hn. unfold update. rewrite <- list_fmap_compose.
  erewrite (list_fmap_ext _ _ _); [exact Hn|]. intros i w _. cbn. by destruct (p w).
Qed.

Lemma keeps_retire_prior_generation table_id : keeps (retire_prior_generation table_id h) anything.
Proof.
  unfold retire_prior_generation. keep.
  - apply keeps_end_data_files. intros w. rewrite !andb_true_iff. tauto.
  - apply keeps_end_physical. intros w. rewrite !andb_true_iff. tauto.
Qed.
Hint Resolve keeps_retire_prior_generation : history.

Lemma keeps_live_delete_file id : keeps (live_delete_file id) anything.
Proof. unfold live_delete_file. keep. Qed.
Hint Resolve keeps_live_delete_file : history.

Lemma keeps_drop_data_files table_id base_snapshot files :
  keeps (drop_data_files table_id h base_snapshot files) anything.
Proof.
  unfold drop_data_files. keep. apply keeps_end_data_files. intros w. rewrite !andb_true_iff. tauto.
Qed.
Hint Resolve keeps_drop_data_files : history.

(** ** Delete files *)

(** Ending rows leaves fewer of them visible. *)
Lemma select_ended_sublist {A} (p : versioned A -> bool) (g : A -> Z) u l :
  (forall v, p v = true -> live v = true) ->
  sublist ((fun v => g (v_row v)) <$> select (visible u) (update p (ended h) l))
          ((fun v => g (v_row v)) <$> select (visible u) l).
Proof.
  intros Hp. induction l as [|w l IH]; [constructor|]. unfold select, update in *. cbn.
  destruct (p w) eqn:E.
  - destruct (visible u (ended h w)) eqn:Ev.
    + replace (visible u w) with true; [cbn; by constructor|]. symmetry.
      unfold visible in *. cbn in Ev. specialize (Hp w E). unfold live in Hp. apply bool_decide_eq_true in Hp.
      rewrite Hp. destruct (v_begin w <=? u); [done|done].
    + destruct (visible u w); [cbn; by constructor|exact IH].
  - destruct (visible u w); [cbn; by constructor|exact IH].
Qed.

Lemma keeps_end_delete_files p :
  (forall v, p v = true -> live v = true) -> keeps (execute (on_delete_files (update p (ended h)))) anything.
Proof.
  intros Hp. apply keeps_execute. intros db. apply holds_delete_files; [by apply seen_ended|].
  intros Hh [Hn He]. split.
  - intros u. tables. eapply sublist_NoDup; [apply Hn|]. by apply (select_ended_sublist p x_data_file_id).
  - intros w e. tables. unfold update. intros (w0 & -> & Hw0)%list_elem_of_fmap. unfold get_current_snapshot. tables.
    fold (get_current_snapshot db). destruct (p w0); [intros [= <-]; lia|intros; by eapply He].
Qed.

Lemma NoDup_fmap_inj {A B} (f : A -> B) l a b : NoDup (f <$> l) -> a ∈ l -> b ∈ l -> f a = f b -> a = b.
Proof.
  intros Hn (i & Hi)%list_elem_of_lookup (j & Hj)%list_elem_of_lookup Hf.
  assert (i = j); [|naive_solver]. eapply NoDup_lookup; [exact Hn| |]; rewrite list_lookup_fmap.
  - by rewrite Hi.
  - by rewrite Hj; cbn; rewrite Hf.
Qed.

Lemma live_visible {A} (w : versioned A) u : live w = true -> v_begin w <= u -> visible u w = true.
Proof. unfold live, visible. intros ->%bool_decide_eq_true ?. rewrite andb_true_r. lia. Qed.

(** At most one delete file of a data file is live. *)
Lemma live_delete_unique db w w' :
  wf_deletes db -> w ∈ t_delete_files db -> w' ∈ t_delete_files db -> live w = true -> live w' = true ->
  x_data_file_id (v_row w) = x_data_file_id (v_row w') -> w = w'.
Proof.
  intros [Hn _] Hw Hw' Hl Hl' Hx. set (u := Z.max (v_begin w) (v_begin w')).
  eapply (NoDup_fmap_inj (fun v => x_data_file_id (v_row v)) _ w w' (Hn u)); [apply elem_of_select..|exact Hx].
  - split; [apply live_visible; [done|lia]|done].
  - split; [apply live_visible; [done|lia]|done].
Qed.

Definition no_live_delete (id : Z) (db : Db) : Prop :=
  forall w, w ∈ t_delete_files db -> live w = true -> x_data_file_id (v_row w) <> id.

Lemma head_select_none {A} (p : A -> bool) l : head (select p l) = None -> forall a, a ∈ l -> p a = false.
Proof.
  intros Hh a Ha. apply not_true_is_false. intros Hp.
  assert (a ∈ select p l) as Hs by (by apply elem_of_select). destruct (select p l); [by inversion Hs|done].
Qed.

Lemma head_select_some {A} (p : A -> bool) l a : head (select p l) = Some a -> p a = true /\ a ∈ l.
Proof. intros Hh. apply elem_of_select. destruct (select p l); [done|]. injection Hh as ->. set_solver. Qed.

(** Ending the live delete file of a data file leaves it none. *)
Lemma end_live_delete id db :
  wf_deletes db ->
  match (fun w => x_id (v_row w)) <$> head (select (fun v => of_table x_data_file_id id v && live v) (t_delete_files db)) with
  | Some previous =>
      no_live_delete id (on_delete_files (update (fun v => of_table x_id previous v && live v) (ended h)) db)
  | None => no_live_delete id db
  end.
Proof.
  intros Hw. destruct (head _) as [w|] eqn:Eh; cbn.
  - apply head_select_some in Eh as [[Hi Hl]%andb_true_iff Hin]. intros w'. tables. unfold update.
    intros (w0 & -> & Hin0)%list_elem_of_fmap. destruct (of_table x_id (x_id (v_row w)) w0 && live w0) eqn:E; [done|].
    intros Hl0 Hx. assert (w0 = w) as ->.
    { apply (live_delete_unique db); try done. unfold of_table in Hi. lia. }
    unfold of_table in E. rewrite Z.eqb_refl, Hl in E. done.
  - intros w Hin Hl Hx. pose proof (head_select_none _ _ Eh w Hin) as Hn. cbn in Hn.
    unfold of_table in Hn. rewrite Hl, Hx, Z.eqb_refl in Hn. done.
Qed.

Lemma holds_insert_delete_file row db :
  holds db -> no_live_delete (x_data_file_id row) db -> holds (on_delete_files (fun l => l ++ [born h row]) db).
Proof.
  intros Hd Hno. apply holds_delete_files; [by apply seen_born_one| |exact Hd].
  intros Hh [Hn He]. split.
  - intros u. tables. rewrite select_app, fmap_app. apply NoDup_app. split_and!; [apply Hn| |].
    + intros k (w & -> & [Hv Hin]%elem_of_select)%list_elem_of_fmap Hk.
      unfold select, visible in Hk. cbn in Hk. destruct (h <=? u) eqn:Eu; [|by inversion Hk].
      cbn in Hk. apply list_elem_of_singleton in Hk. destruct (v_end w) as [e|] eqn:Ee.
      * specialize (He w e Hin Ee). unfold visible in Hv. rewrite Ee in Hv. lia.
      * apply (Hno w Hin); [|done]. unfold live. by rewrite Ee.
    + unfold select. cbn. destruct (visible u (born h row)); cbn; [apply NoDup_singleton|constructor].
  - intros w e. tables. unfold get_current_snapshot. tables. fold (get_current_snapshot db).
    intros [Hin|Hin]%elem_of_app; [by apply He|]. apply list_elem_of_singleton in Hin as ->. done.
Qed.

Lemma keeps_apply_delete_entry table_id base_snapshot entry :
  keeps (apply_delete_entry table_id base_snapshot h entry) anything.
Proof.
  intros db [] db' Hd E. split; [|done]. unfold apply_delete_entry in E.
  apply bind_ok in E as (live_file & db0 & [= <- <-] & E). apply bind_ok in E as ([] & db1 & E1 & E).
  unfold ensure in E1. destruct (existsb _ _) in E1; [|done]. injection E1 as <-.
  apply bind_ok in E as (current & db1 & E1 & E). unfold live_delete_file in E1.
  apply bind_ok in E1 as (row & db2 & [= <- <-] & [= <- <-]).
  apply bind_ok in E as ([] & db1 & E1 & E). unfold ensure in E1. case_bool_decide as Hc; [|done]. injection E1 as <-.
  apply bind_ok in E as ([] & db1 & E1 & E).
  assert (Hp : holds db1 /\ no_live_delete (de_data_file_id entry) db1).
  { pose proof (end_live_delete (de_data_file_id entry) db (proj1 (proj2 (proj1 Hd)))) as Hn. rewrite Hc in Hn.
    destruct (de_expected_prev_delete_file entry) as [previous|].
    - injection E1 as <-. split; [|exact Hn].
      eapply (keeps_end_delete_files _ _ db tt); [exact Hd|reflexivity].
    - injection E1 as <-. done. }
  clear Hd E1. set (P := fun db => holds db /\ no_live_delete (de_data_file_id entry) db).
  assert (Reserves P) by (split; intros f d Hd; exact Hd).
  apply bind_ok in E as (id & db2 & E2 & E). destruct (keeps_reserve_file_id (P := P) _ _ _ Hp E2) as [[Hd Hno] _].
  unfold insert_key in E. destruct (existsb _ _) in E; [done|]. injection E as <-.
  by apply holds_insert_delete_file.
  Unshelve. intros w. rewrite !andb_true_iff. tauto.
Qed.
Hint Resolve keeps_apply_delete_entry : history.

(** ** Data files *)

(** Every row of the data file [id] begins after [t]. *)
Definition unseen_file (id : Z) (db : Db) : Prop := forall w, w ∈ t_data_files db -> d_id (v_row w) = id -> t < v_begin w.

Lemma unseen_not_listed id db : holds db -> unseen_file id db -> id ∉ seen_ids d_id (vw_data_files v).
Proof.
  intros (_ & _ & Hv) Hu. rewrite <- Hv. unfold view, seen_ids, seen. cbn [vw_data_files].
  intros (row & -> & (w & -> & [Hvis Hin]%elem_of_select)%list_elem_of_fmap)%list_elem_of_fmap.
  specialize (Hu w Hin eq_refl). unfold visible in Hvis. lia.
Qed.

Definition adding_file (id : Z) (db : Db) : Prop := holds db /\ unseen_file id db.

#[global] Instance adding_file_reserves id : Reserves (adding_file id).
Proof. split; intros f d Hd; exact Hd. Qed.

Lemma adding_insert id table_id b file start partial_max db :
  t < b -> holds db -> existsb (of_table d_id id) (t_data_files db) = false ->
  adding_file id (on_data_files (fun l => l ++ [born b (data_file_row id table_id file start partial_max)]) db).
Proof.
  intros Hb Hd Hf. rewrite existsb_false_iff, Forall_forall in Hf.
  assert (Hfresh : forall w, w ∈ t_data_files db -> d_id (v_row w) <> id).
  { intros w Hw Heq. specialize (Hf w Hw). unfold of_table in Hf. lia. }
  split.
  - apply holds_data_files; [by apply seen_born_one| |exact Hd].
    intros Hn. rewrite fmap_app. apply NoDup_app. split_and!; [exact Hn| |apply NoDup_singleton].
    intros k (w & -> & Hw)%list_elem_of_fmap Hk%list_elem_of_singleton. by apply (Hfresh w Hw).
  - intros w. tables. intros [Hw|Hw]%elem_of_app; [intros; by destruct (Hfresh w Hw)|].
    apply list_elem_of_singleton in Hw as ->. done.
Qed.

Lemma adding_stats table_id id stats :
  keeps_of (adding_file id) (insert_file_column_stats table_id id stats).
Proof.
  unfold keeps_of, insert_file_column_stats. keep. apply keeps_execute. intros db [Hd Hu]. split; [|exact Hu].
  apply holds_file_stats; [|exact Hd]. rewrite Forall_fmap. apply Forall_true. intros stat. cbn.
  by eapply unseen_not_listed.
Qed.

Lemma adding_partition table_id id file : keeps_of (adding_file id) (insert_partition_metadata table_id id file).
Proof.
  unfold keeps_of, insert_partition_metadata. keep.
  - apply keeps_execute. intros db [Hd Hu]. split.
    + apply holds_data_files; [|intros Hn|exact Hd].
      * apply seen_update. intros w Hw Hi. unfold of_table in Hi. specialize (Hu w Hw ltac:(lia)).
        split; [done|]. unfold visible. intros. lia.
      * unfold update. rewrite <- list_fmap_compose. erewrite list_fmap_ext; [exact Hn|].
        intros i w _. cbn. by destruct (of_table d_id id w).
    + intros w. tables. unfold update. intros (w0 & -> & Hw0)%list_elem_of_fmap.
      destruct (of_table d_id id w0) eqn:E; cbn; by apply Hu.
  - apply keeps_execute. intros db [Hd Hu]. split; [|exact Hu].
    apply holds_file_partition_values; [|exact Hd]. rewrite Forall_fmap. apply Forall_true. intros value. cbn.
    by eapply unseen_not_listed.
Qed.

(** A transaction that keeps more keeps less, when what is more holds at its start. *)
Lemma keeps_from {A} (P : Db -> Prop) (m : Tx A) db a db' :
  keeps_of P m -> (forall d, P d -> holds d) -> P db -> m db = Returns (Ok (a, db')) -> holds db'.
Proof. intros Hm Hp Hd E. destruct (Hm db a db' Hd E). auto. Qed.

(** The insertion of a file that begins after [t]. *)
Lemma keeps_new_file table_id id b file start partial_max :
  t < b ->
  keeps (insert_key t_data_files on_data_files (of_table d_id id)
           (born b (data_file_row id table_id file start partial_max)) ;*
         insert_file_column_stats table_id id (df_column_stats file) ;*
         insert_partition_metadata table_id id file) anything.
Proof.
  intros Hb db [] db' Hd E. split; [|done]. apply bind_ok in E as ([] & db1 & E1 & E).
  unfold insert_key in E1. destruct (existsb _ _) eqn:Hf in E1; [done|]. injection E1 as <-.
  eapply (keeps_from (adding_file id)); [|by intros d []|by apply adding_insert|exact E].
  apply (keeps_bind _ _ anything); [apply adding_stats|]. intros [] _. apply adding_partition.
Qed.

Lemma keeps_insert_data_file table_id file start partial_max :
  keeps (insert_data_file table_id h file start partial_max) anything.
Proof.
  unfold insert_data_file. apply (keeps_bind _ _ anything); [keep|intros id _].
  pose proof (keeps_new_file table_id id h file start partial_max Ht) as Hk.
  intros db r db' Hd E. apply bind_ok in E as ([] & db1 & E1 & E). apply bind_ok in E as ([] & db2 & E2 & E).
  apply bind_ok in E as ([] & db3 & E3 & E). injection E as <- <-. split; [|done].
  eapply Hk; [exact Hd|]. rewrite (bind_intro _ _ _ _ _ E1), (bind_intro _ _ _ _ _ E2). exact E3.
Qed.
Hint Resolve keeps_insert_data_file : history.

Lemma keeps_insert_reserved_file table_id id b file partial_max :
  t < b -> keeps (insert_reserved_file table_id id b file partial_max) anything.
Proof. intros Hb. by apply keeps_new_file. Qed.

(** ** Table statistics *)

Lemma keeps_live_partition_id table_id : keeps (live_partition_id table_id) anything.
Proof. unfold live_partition_id. keep. Qed.
Hint Resolve keeps_live_partition_id : history.

Lemma keeps_enforce_partition_fences table_id files : keeps (enforce_partition_fences table_id files) anything.
Proof. unfold enforce_partition_fences. keep. Qed.
Hint Resolve keeps_enforce_partition_fences : history.

Lemma keeps_next_row_id table_id : keeps (next_row_id table_id) anything.
Proof. unfold next_row_id. keep. Qed.
Hint Resolve keeps_next_row_id : history.

Lemma keeps_advance_table_stats table_id advance records bytes :
  keeps (advance_table_stats table_id advance records bytes) anything.
Proof. unfold advance_table_stats. keep. Qed.
Hint Resolve keeps_advance_table_stats : history.

Lemma keeps_store_table_column_stats table_id globals : keeps (store_table_column_stats table_id globals) anything.
Proof. unfold store_table_column_stats. keep. Qed.
Hint Resolve keeps_store_table_column_stats : history.

Lemma keeps_merge_file_stats table_id fields files :
  keeps (merge_file_table_column_stats table_id fields files) anything.
Proof. unfold merge_file_table_column_stats, table_stats_initialized, load_table_column_stats. keep. Qed.
Hint Resolve keeps_merge_file_stats : history.

Lemma keeps_merge_inlined_stats table_id columns column_ids batches snapshot_columns s initialized :
  keeps (merge_inlined_table_column_stats table_id columns column_ids batches snapshot_columns s initialized) anything.
Proof. unfold merge_inlined_table_column_stats, load_table_column_stats. keep. Qed.
Hint Resolve keeps_merge_inlined_stats : history.

(** ** New inlined tables *)

Lemma inlined_table_name_inj table_id version table_id' version' :
  inlined_table_name table_id version = inlined_table_name table_id' version' ->
  table_id = table_id' /\ version = version'.
Proof.
  unfold inlined_table_name. intros E. apply app_inv_head in E.
  apply (f_equal (split_once ["_"%char])) in E.
  change (split_once ["_"%char] (show_Z table_id ++ "_"%char :: show_Z version)
          = split_once ["_"%char] (show_Z table_id' ++ "_"%char :: show_Z version')) in E.
  rewrite !split_once_char in E by (by apply show_Z_not_in).
  injection E as E1 E2. split; by apply show_Z_inj.
Qed.

Lemma new_table_has_system_columns name system rest :
  system = PREFIXED \/ system = UNPREFIXED ->
  is_ok (system_from_columns name (sys_row_id system :: sys_begin_snapshot system :: sys_end_snapshot system :: rest))
  = true.
Proof. intros [->| ->]; vm_compute; reflexivity. Qed.

Lemma catalog_version_layout version : for_catalog_version version = PREFIXED \/ for_catalog_version version = UNPREFIXED.
Proof. unfold for_catalog_version. repeat case_match; auto. Qed.

Section new_inlined.
Context (table_id version : Z).
Let name := inlined_table_name table_id version.
Let row := {| r_table_id := table_id; r_table_name := name; r_schema_version := version |}.

Definition registered (db : Db) : bool :=
  existsb (fun row => (r_table_id row =? table_id) && (r_schema_version row =? version)) (t_registry db).

(** A catalog that is well formed, or will be with the new table's registration. *)
Definition registering (db : Db) : Prop :=
  if registered db then holds db else holds (on_registry (fun l => l ++ [row]) db).

Lemma registered_spec db :
  registered db = true <-> exists r, r ∈ t_registry db /\ r_table_id r = table_id /\ r_schema_version r = version.
Proof.
  unfold registered. rewrite existsb_exists. setoid_rewrite andb_true_iff. setoid_rewrite Z.eqb_eq.
  by setoid_rewrite list_elem_of_In.
Qed.

Lemma registering_existing table db : t_inlined_data db !! name = Some table -> holds db -> registering db.
Proof.
  intros E Hd. unfold registering. replace (registered db) with true; [done|].
  symmetry. apply registered_spec. destruct Hd as ((_ & _ & [Hw _]) & _ & _).
  destruct (Hw name table E) as [(r & Hr & [-> ->]%inlined_table_name_inj) _]. by exists r.
Qed.

Lemma seen_inlined_empty columns db :
  t_inlined_data db !! name = None ->
  seen_inlined t (on_inlined_data (insert name {| p_columns := columns; p_rows := [] |}) db) = seen_inlined t db.
Proof.
  intros E. apply map_eq. intros k. unfold seen_inlined. tables. rewrite !lookup_omap.
  destruct (decide (k = name)) as [->|Hk]; [|by rewrite lookup_insert_ne]. by rewrite lookup_insert_eq, E.
Qed.

Lemma registering_new columns db :
  t_inlined_data db !! name = None -> is_ok (system_from_columns name columns) = true -> holds db ->
  registering (on_inlined_data (insert name {| p_columns := columns; p_rows := [] |}) db).
Proof.
  intros E Hok ((Hw1 & Hw2 & [Hw3 Hw4]) & Hh & Hv). set (db1 := on_inlined_data _ db).
  assert (Hs : seen_inlined t db1 = seen_inlined t db) by by apply seen_inlined_empty.
  assert (Hwf : forall registry : list RegistryRow, (forall r, r ∈ t_registry db -> r ∈ registry) ->
            (exists r, r ∈ registry /\ r_table_id r = table_id /\ r_schema_version r = version) ->
            forall k table, t_inlined_data db1 !! k = Some table ->
            (exists r, r ∈ registry /\ k = inlined_table_name (r_table_id r) (r_schema_version r))
            /\ is_ok (system_from_columns k (p_columns table)) = true).
  { intros registry Hsub (r & Hr & Hid & Hver) k table Hk. unfold db1 in Hk. revert Hk. tables. intros Hk.
    apply lookup_insert_Some in Hk as [[<- <-]|[Hne Hk]].
    - split; [|exact Hok]. exists r. split; [done|]. by rewrite Hid, Hver.
    - destruct (Hw3 k table Hk) as [(r' & Hr' & ->) Hok']. split; [|done]. exists r'. auto. }
  unfold registering. destruct (registered db1) eqn:Er.
  - apply registered_spec in Er. split_and!; [split_and!; [exact Hw1|exact Hw2|split]|exact Hh|].
    + by apply Hwf.
    + intros r Hr. unfold db1. tables. apply lookup_insert_is_Some. destruct (decide (name = r_table_name r)); auto.
    + rewrite <- Hv. unfold view. rewrite Hs. done.
  - split_and!; [split_and!; [exact Hw1|exact Hw2|split]|exact Hh|].
    + apply Hwf.
      * intros r Hr. unfold db1. tables. set_solver.
      * exists row. unfold db1. tables. set_solver.
    + intros r Hr. unfold db1 in *. revert Hr. tables. intros [Hr|Hr]%elem_of_app.
      * apply lookup_insert_is_Some. destruct (decide (name = r_table_name r)); auto.
      * apply list_elem_of_singleton in Hr as ->. by rewrite lookup_insert_eq.
    + rewrite <- Hv. unfold view. change (seen_inlined t (on_registry (fun l => l ++ [row]) db1)) with (seen_inlined t db1).
      rewrite Hs. unfold db1. tables. f_equal. rewrite select_app, (select_none _ [row]), app_nil_r; [done|].
      repeat constructor. cbn [r_table_name row]. rewrite bool_decide_eq_false. unfold seen_inlined.
      rewrite lookup_omap, E. by intros [? ?].
Qed.

#[global] Instance registering_ignores_indexes : IgnoresIndexes registering.
Proof. intros f db Hd. exact Hd. Qed.
End new_inlined.

Lemma keeps_ensure_indexes (P : Db -> Prop) `{!IgnoresIndexes P} table_id name :
  keeps_of P (ensure_duckdb_physical_indexes table_id name).
Proof. unfold keeps_of, ensure_duckdb_physical_indexes, duckdb_inlined_index_columns, physical_table. keep. Qed.

(** The statements of [create_inlined_data_table] from the table's creation on. *)
Lemma keeps_create_and_register table_id version system names :
  system = PREFIXED \/ system = UNPREFIXED ->
  let name := inlined_table_name table_id version in
  keeps (execute (on_inlined_data (fun m =>
           match m !! name with
           | Some _ => m
           | None => <[name := {| p_columns := sys_row_id system :: sys_begin_snapshot system
                                    :: sys_end_snapshot system :: names; p_rows := [] |}]> m
           end)) ;*
         ensure_duckdb_physical_indexes table_id name ;*
         let* registered := query (registered table_id version) in
         when (negb registered)
           (execute (on_registry (fun l => l ++ [{| r_table_id := table_id; r_table_name := name;
                                                    r_schema_version := version |}]))) ;*
         ret name) anything.
Proof.
  intros Hsys name db r db' Hd E. split; [|done].
  apply bind_ok in E as ([] & db1 & E1 & E). injection E1 as <-. set (db1 := on_inlined_data _ db) in E.
  assert (Hr : registering table_id version db1).
  { unfold db1. destruct (t_inlined_data db !! name) as [table|] eqn:En.
    - replace (on_inlined_data _ db) with db by (destruct db; cbn in En |- *; unfold on_inlined_data; cbn; by rewrite En).
      by eapply registering_existing.
    - replace (on_inlined_data _ db) with (on_inlined_data (insert name {| p_columns := sys_row_id system
        :: sys_begin_snapshot system :: sys_end_snapshot system :: names; p_rows := [] |}) db)
        by (unfold on_inlined_data; by rewrite En).
      apply registering_new; [done| |done]. by apply new_table_has_system_columns. }
  apply bind_ok in E as ([] & db2 & E2 & E).
  destruct (keeps_ensure_indexes (registering table_id version) table_id name db1 tt db2 Hr E2) as [Hr2 _].
  apply bind_ok in E as (b & db3 & [= <- <-] & E). apply bind_ok in E as ([] & db4 & E4 & E).
  injection E as _ <-. unfold registering in Hr2. destruct (registered table_id version db2).
  - cbn in E4. injection E4 as <-. exact Hr2.
  - cbn in E4. injection E4 as <-. exact Hr2.
Qed.

Lemma keeps_create_inlined_data_table table_id version fields :
  keeps (create_inlined_data_table table_id version fields) anything.
Proof.
  unfold create_inlined_data_table, catalog_inlined_system_columns. cbv zeta.
  apply (keeps_bind _ _ (fun system => system = PREFIXED \/ system = UNPREFIXED)).
  { intros db system db' Hd [= <- <-]. split; [done|]. apply catalog_version_layout. }
  intros system Hsys. apply (keeps_bind _ _ anything); [keep|]. intros [] _. by apply keeps_create_and_register.
Qed.
Hint Resolve keeps_create_inlined_data_table : history.

Lemma keeps_table_inlining_limit limit table_id : keeps (table_inlining_limit limit table_id) anything.
Proof. unfold table_inlining_limit. keep. Qed.
Hint Resolve keeps_table_inlining_limit : history.

Lemma keeps_reject_new_reserved_columns limit table_id existing proposed :
  keeps (reject_new_reserved_columns limit table_id existing proposed) anything.
Proof. unfold reject_new_reserved_columns, catalog_inlined_system_columns. keep. Qed.
Hint Resolve keeps_reject_new_reserved_columns : history.

Lemma keeps_create_eager_inlined_table limit table_id version :
  keeps (create_eager_inlined_table limit table_id version) anything.
Proof. unfold create_eager_inlined_table, live_table_columns, catalog_inlined_system_columns. keep. Qed.
Hint Resolve keeps_create_eager_inlined_table : history.

(** A later schema version of the new snapshot, for an inlined table of another shape. *)
Lemma keeps_inlined_insert_table table_id fields : keeps (inlined_insert_table table_id h fields) anything.
Proof.
  unfold inlined_insert_table. cbv zeta.
  assert (Hcreate : keeps (let* rows := query t_snapshots in
    let* rows' := map_each rows (fun row =>
      if s_id row =? h then let* version := bigint (s_schema_version row + 1) in ret (with_schema_version version row)
      else ret row) in
    execute (on_snapshots (fun _ => rows')) ;*
    let* row := query_row (fun db => select (fun row => s_id row =? h) (t_snapshots db)) in
    create_inlined_data_table table_id (s_schema_version row) fields) anything).
  { intros db name db' Hd E. apply bind_ok in E as (rows & db1 & E1 & E). apply bind_ok in E as (rows' & db2 & E2 & E).
    apply bind_ok in E as ([] & db3 & E3 & E). split; [|done].
    assert (Hd3 : holds db3).
    { eapply (keeps_rewrite_newest (fun row => if s_id row =? h
        then let* version := bigint (s_schema_version row + 1) in ret (with_schema_version version row) else ret row));
        [|exact Hd|rewrite (bind_intro _ _ _ _ _ E1), (bind_intro _ _ _ _ _ E2); exact E3].
      intros row row' d d' Er. destruct (s_id row =? h) eqn:Es.
      - apply bind_ok in Er as (version & d1 & Er & [= <- <-]). apply reads_bigint in Er as ->.
        split; [done|]. split; [done|]. lia.
      - injection Er as <- <-. done. }
    assert (Hk : keeps (let* row := query_row (fun db => select (fun row => s_id row =? h) (t_snapshots db)) in
                        create_inlined_data_table table_id (s_schema_version row) fields) anything) by keep.
    eapply Hk; [exact Hd3|exact E]. }
  apply (keeps_bind _ _ anything); [keep|]. intros [latest|] _; [|exact Hcreate].
  apply (keeps_bind _ _ anything); [keep|]. intros table _. destruct (_ && _).
  - apply (keeps_bind _ _ anything); [exact (keeps_ensure_indexes holds _ _)|]. intros [] _. keep.
  - apply (keeps_bind _ _ anything); [keep|]. intros [] _; [exact Hcreate|keep].
Qed.
Hint Resolve keeps_inlined_insert_table : history.

Lemma keeps_insert_inlined_rows name snapshot_columns columns schema row_ids row_id written rows :
  keeps (insert_inlined_rows name h snapshot_columns columns schema row_ids row_id written rows) anything.
Proof.
  revert row_id written. induction rows as [|[batch row] rows IH]; intros row_id written; cbn [insert_inlined_rows]; keep;
    try apply IH; apply keeps_update_physical; intros l; by apply seen_born_one.
Qed.
Hint Resolve keeps_insert_inlined_rows : history.

Lemma keeps_commit_staged_inline write batches : keeps (commit_staged_inline h write batches) anything.
Proof. unfold commit_staged_inline, table_stats_initialized. keep. Qed.
Hint Resolve keeps_commit_staged_inline : history.

Lemma keeps_live_inlined_row_count table_id : keeps (live_inlined_row_count table_id) anything.
Proof. unfold live_inlined_row_count. keep. Qed.
Hint Resolve keeps_live_inlined_row_count : history.

Lemma keeps_apply_inlined_deletes table_id base_snapshot rows :
  keeps (apply_inlined_deletes table_id h base_snapshot rows) anything.
Proof.
  unfold apply_inlined_deletes. keep. apply keeps_end_physical. intros w. rewrite !andb_true_iff. tauto.
Qed.
Hint Resolve keeps_apply_inlined_deletes : history.

Lemma keeps_apply_inlined_file_deletes table_id base_snapshot deletes :
  keeps (apply_inlined_file_deletes table_id h base_snapshot deletes) anything.
Proof.
  unfold apply_inlined_file_deletes. keep.
  - apply keeps_execute. intros db. apply holds_new_inlined_deletes.
  - apply keeps_execute. intros db. apply holds_inlined_deletes_at. intros rows. unfold seen_deletes.
    rewrite select_app, (select_none _ [_]), app_nil_r; [done|]. repeat constructor. cbn. lia.
Qed.
Hint Resolve keeps_apply_inlined_file_deletes : history.

Lemma keeps_has_live_data table_id : keeps (has_live_data table_id) anything.
Proof. unfold has_live_data. keep. Qed.
Hint Resolve keeps_has_live_data : history.

Lemma keeps_validate_staged_table write : keeps (validate_staged_table write) anything.
Proof. unfold validate_staged_table. keep. Qed.
Hint Resolve keeps_validate_staged_table : history.

Lemma keeps_insert_staged_files table_id files next advance_ records bytes :
  keeps (insert_staged_files h table_id files next advance_ records bytes) anything.
Proof.
  revert next advance_ records bytes. induction files as [|file files IH]; intros; cbn [insert_staged_files]; keep.
Qed.
Hint Resolve keeps_insert_staged_files : history.

Lemma keeps_commit_staged_files write files : keeps (commit_staged_files h write files) anything.
Proof. unfold commit_staged_files. keep. Qed.
Hint Resolve keeps_commit_staged_files : history.

(** ** Columns *)

Lemma keeps_end_columns p :
  (forall v, p v = true -> live v = true) -> keeps (execute (on_columns (update p (ended h)))) anything.
Proof. intros Hp. apply keeps_execute. intros db. apply holds_columns. by apply seen_ended. Qed.

Lemma keeps_end_column table_id column_id : keeps (end_column h table_id column_id) anything.
Proof. apply keeps_end_columns. intros w. rewrite !andb_true_iff. tauto. Qed.
Hint Resolve keeps_end_column : history.

Lemma keeps_add_columns (g : list (versioned CatalogColumn) -> list CatalogColumn) :
  keeps (execute (on_columns (fun l => l ++ (born h <$> g l)))) anything.
Proof. apply keeps_execute. intros db. apply holds_columns. by apply seen_born. Qed.

Lemma keeps_add_column column : keeps (execute (on_columns (fun l => l ++ [born h column]))) anything.
Proof. exact (keeps_add_columns (fun _ => [column])). Qed.
Hint Resolve keeps_add_column : history.

Lemma keeps_revise_column table_id column_id f : keeps (revise_column h table_id column_id f) anything.
Proof.
  unfold revise_column. keep. apply keeps_execute. intros db. apply holds_columns.
  destruct (head _); [by apply seen_born_one|by rewrite app_nil_r].
Qed.
Hint Resolve keeps_revise_column : history.

Lemma keeps_write_column table_id is_ddl current ids column id order :
  keeps (write_column h table_id is_ddl current ids column id order) anything.
Proof. unfold write_column. keep. Qed.
Hint Resolve keeps_write_column : history.

(** ** A table's first write

    A table without columns begins with its first write. The listing keeps the table when it
    has a column, or has no row a snapshot up to [t] sees. *)

Definition begins_later (table_id : Z) (db : Db) : Prop :=
  listed = true -> live_columns table_id db = [] ->
  forall w, w ∈ t_tables db -> tb_id (v_row w) = table_id -> t < v_begin w.

Lemma seen_rebegun {A} (p : versioned A -> bool) l :
  (forall w, w ∈ l -> p w = true -> t < v_begin w) -> seen t (update p (rebegun h) l) = seen t l.
Proof.
  intros Hp. apply seen_update. intros w Hw Hpw. specialize (Hp w Hw Hpw). unfold visible. cbn.
  replace (h <=? t) with false by lia. replace (v_begin w <=? t) with false by lia. split; [done|]. cbn. done.
Qed.

Lemma scalar_ok {A} (f : Db -> list A) db o db' :
  scalar f db = Returns (Ok (o, db')) -> db' = db /\ o = head (f db) /\ (length (f db) <= 1)%nat.
Proof.
  unfold scalar. intros E. apply bind_ok in E as (rows & db1 & [= <- <-] & E).
  destruct (f db) as [|a [|b l]]; [| |done]; injection E as <- <-; cbn; auto with lia.
Qed.

Lemma begin_table_holds table_id db db' :
  live_columns table_id db = [] -> begins_later table_id db -> holds db ->
  begin_table_at h table_id db = Returns (Ok (tt, db')) -> holds db'.
Proof.
  intros Hc Hb Hd E. unfold begin_table_at in E.
  apply bind_ok in E as (schema_id & db1 & E1 & E). apply scalar_ok in E1 as (-> & -> & _).
  apply bind_ok in E as (table_begin & db1 & E1 & E). apply scalar_ok in E1 as (-> & -> & _).
  apply bind_ok in E as ([] & db1 & E1 & E). injection E1 as <-. injection E as <-.
  apply holds_tables.
  - intros Hl. tables. apply seen_rebegun. intros w Hw Hi. apply (Hb Hl Hc w Hw). unfold of_table in Hi. lia.
  - apply holds_schemas; [|exact Hd]. intros Hl. apply seen_rebegun. intros w Hw [_ Hi]%andb_true_iff.
    apply bool_decide_eq_true in Hi.
    destruct (select (of_table tb_id table_id) (t_tables db)) as [|w0 l] eqn:Es; [done|].
    injection Hi as <-. assert (w0 ∈ select (of_table tb_id table_id) (t_tables db)) as [Ht0 Hin]%elem_of_select
      by (rewrite Es; set_solver). apply (Hb Hl Hc w0 Hin). unfold of_table in Ht0. lia.
Qed.

Lemma finalize_columns_holds limit table_id proposed ids db r db' :
  begins_later table_id db -> holds db ->
  finalize_columns limit h table_id proposed ids db = Returns (Ok (r, db')) -> holds db'.
Proof.
  intros Hb Hd E. unfold finalize_columns in E.
  apply bind_ok in E as ([] & db1 & E1 & E). unfold ensure in E1. destruct (_ =? _)%nat in E1; [|done]. injection E1 as <-.
  apply bind_ok in E as (row & db1 & E1 & E). unfold query_row in E1. destruct (head _) in E1; [|done].
  injection E1 as _ <-. apply bind_ok in E as (current & db1 & [= <- <-] & E). cbv zeta in E.
  apply bind_ok in E as (committed & db1 & E1 & E). unfold lift_outcome, outcome_bind in E1.
  destruct (assign_column_ids _ _ _) as [[]|] in E1; [|done..]. injection E1 as _ <-.
  apply bind_ok in E as ([] & db1 & E1 & E). unfold ensure in E1. destruct (bool_decide _) in E1; [|done].
  injection E1 as <-. apply bind_ok in E as ([] & db1 & E1 & E).
  assert (Hd1 : holds db1).
  { destruct (live_columns table_id db) as [|c l] eqn:El; cbn in E1.
    - by eapply begin_table_holds.
    - by injection E1 as <-. }
  clear E1. match type of E with ?m db1 = _ => assert (Hk : keeps m anything) by keep end.
  by eapply Hk.
Qed.

Lemma finalize_table_holds limit table_id columns ids mode base_snapshot inserts db r db' :
  begins_later table_id db -> holds db ->
  finalize_table_snapshot limit h table_id columns ids mode base_snapshot inserts db = Returns (Ok (r, db')) ->
  holds db' /\ r = h.
Proof.
  intros Hb Hd E. unfold finalize_table_snapshot in E.
  apply bind_ok in E as (proposed & db1 & E1 & E). unfold lift in E1. destruct (catalog_column_defs columns); [|done].
  injection E1 as <- <-. apply bind_ok in E as ([is_ddl version] & db1 & E1 & E).
  apply finalize_columns_holds in E1; [|done..].
  match type of E with ?m db1 = _ => assert (Hk : keeps m (fun r => r = h)) end; [|by eapply Hk].
  apply (keeps_bind _ _ anything); [keep|]. intros [] _. apply (keeps_bind _ _ anything); [keep|]. intros [] _.
  by apply keeps_ret.
Qed.

(** ** A write's table and snapshot *)

Definition finalizing (table_id : Z) (db : Db) : Prop := holds db /\ begins_later table_id db.

#[global] Instance finalizing_reserves table_id : Reserves (finalizing table_id).
Proof. split; intros f d Hd; exact Hd. Qed.

Lemma begins_later_new_table table_id row db :
  begins_later table_id db -> begins_later table_id (on_tables (fun l => l ++ [born h row]) db).
Proof.
  intros Hb Hl Hc w. tables. intros [Hw|Hw]%elem_of_app; [by apply Hb|].
  apply list_elem_of_singleton in Hw as ->. done.
Qed.

Lemma finalizing_insert_new_table_rows table_id table_id' schema_name table_name base_snapshot mode reserved :
  keeps_of (finalizing table_id)
    (insert_new_table_rows h table_id' schema_name table_name base_snapshot mode reserved).
Proof.
  unfold keeps_of, insert_new_table_rows. keep.
  all: first [apply keeps_insert_key; intros db [Hd Hb] _; split; [|exact Hb]; apply holds_schemas; [|exact Hd]
             |apply keeps_execute; intros db [Hd Hb]; split; [|by apply begins_later_new_table];
              apply holds_tables; [|exact Hd]]; intros _; by apply seen_born_one.
Qed.
End parts.

#[export] Hint Resolve keeps_raise_snapshot_watermarks keeps_record_snapshot_changes keeps_bump_schema_version
  keeps_record_schema_version keeps_seed_stats keeps_physical_table keeps_inlined_table_layout keeps_inlined_tables
  keeps_any_inlined keeps_record_table_changes keeps_record_table_write_changes keeps_insert_new_table_rows
  keeps_detect_replace_conflict keeps_detect_created_table_conflict keeps_detect_new_inlined_deletes
  keeps_check_staged_conflicts keeps_check_table_conflicts keeps_deleted_files_table
  keeps_enforce_inline_partition_fence keeps_retire_prior_generation keeps_live_delete_file keeps_drop_data_files
  keeps_apply_delete_entry keeps_insert_data_file keeps_live_partition_id keeps_enforce_partition_fences
  keeps_next_row_id keeps_advance_table_stats keeps_merge_file_stats keeps_merge_inlined_stats
  keeps_create_eager_inlined_table keeps_inlined_insert_table keeps_insert_inlined_rows keeps_commit_staged_inline
  keeps_live_inlined_row_count keeps_apply_inlined_deletes keeps_apply_inlined_file_deletes keeps_has_live_data
  keeps_validate_staged_table keeps_insert_staged_files keeps_commit_staged_files keeps_end_column keeps_add_column
  keeps_table_inlining_limit : history.

(** ** Commits

    A commit reads, adds one snapshot, and works at that snapshot. *)

Section commits.
Context `{InlineValues} `{SortParser}.

Lemma current_snapshot_app db row :
  s_id row = get_current_snapshot db + 1 ->
  get_current_snapshot (on_snapshots (fun l => l ++ [row]) db) = get_current_snapshot db + 1.
Proof.
  unfold get_current_snapshot. tables. rewrite fmap_app. intros Hr. cbn [fmap list_fmap]. rewrite max_list_app, Hr.
  destruct (max_list _); cbn; lia.
Qed.

(** [insert_snapshot] adds the snapshot after the newest, and nothing [t] sees. *)
Lemma insert_snapshot_ok db s version db' :
  insert_snapshot db = Returns (Ok ((s, version), db')) ->
  s = get_current_snapshot db + 1 /\ get_current_snapshot db' = s
  /\ exists row changes, s_id row = s /\ s_schema_version row = version /\ c_snapshot_id changes = s
     /\ c_changes_made changes = None
     /\ Forall (fun row => s_id row <> s) (t_snapshots db)
     /\ version = default 0 (max_list (s_schema_version <$> t_snapshots db))
     /\ db' = on_snapshot_changes (fun l => l ++ [changes]) (on_snapshots (fun l => l ++ [row]) db).
Proof.
  unfold insert_snapshot. intros E.
  apply bind_ok in E as (s0 & db1 & [= <- <-] & E). apply bind_ok in E as (s1 & db1 & E1 & E).
  fold (get_current_snapshot db) in E1. unfold bigint in E1. destruct (in_i64 _) in E1; [|done]. injection E1 as <- <-.
  apply bind_ok in E as (version0 & db1 & [= <- <-] & E). apply bind_ok in E as (wc & db1 & [= <- <-] & E).
  apply bind_ok in E as (c & db1 & E1 & E). apply reads_next_watermark in E1 as ->.
  apply bind_ok in E as (wf & db1 & [= <- <-] & E). apply bind_ok in E as (f & db1 & E1 & E).
  apply reads_next_watermark in E1 as ->. apply bind_ok in E as (now & db1 & [= <- <-] & E).
  apply bind_ok in E as ([] & db1 & E1 & E). unfold insert_key in E1. destruct (existsb _ _) eqn:Ex in E1; [done|].
  injection E1 as <-. apply bind_ok in E as ([] & db1 & E1 & E). unfold insert_key in E1.
  destruct (existsb _ _) eqn:Ec in E1; [done|]. injection E1 as <-. injection E as <- <- <-.
  split; [done|]. split.
  { exact (current_snapshot_app db {| s_id := get_current_snapshot db + 1; s_time := t_clock db;
      s_schema_version := default 0 (max_list (s_schema_version <$> t_snapshots db));
      s_next_catalog_id := Some c; s_next_file_id := Some f |} eq_refl). }
  eexists _, _. split_and!; [| | | | | |reflexivity]; try done.
  apply existsb_false_iff in Ex. eapply Forall_impl; [exact Ex|]. intros row Hr. cbn in Hr. lia.
Qed.

Lemma insert_snapshot_holds listed t v h db s version db' :
  t <= h -> holds listed t v h db -> insert_snapshot db = Returns (Ok ((s, version), db')) ->
  s = h + 1 /\ holds listed t v (h + 1) db' /\ t_tables db' = t_tables db /\ t_columns db' = t_columns db.
Proof.
  intros Ht (Hw & Hh & Hv) E. apply insert_snapshot_ok in E as (Hs & Hg & row & changes & Hr & _ & Hc & _ & _ & _ & ->).
  rewrite Hh in Hs. destruct Hw as (Hw1 & [Hw2 Hw2'] & Hw3).
  split_and!; [done|split_and!|done|done].
  - split_and!; [exact Hw1|split; [exact Hw2|]|exact Hw3]. intros w e Hin He. rewrite Hg, Hs.
    specialize (Hw2' w e Hin He). lia.
  - by rewrite Hg.
  - rewrite <- Hv. unfold view, seen_inlined. tables. rewrite !select_past; [done|..]; repeat constructor; lia.
Qed.

Section at_snapshot.
Context {listed : bool} {t : Z} {v : View} {h : Z}.

(** A return leaves the view at [t], and the newest snapshot is no older. *)
Definition commits {A} (P : Db -> Prop) (m : Tx A) : Prop :=
  t <= h -> forall db a db', P db -> m db = Returns (Ok (a, db')) -> exists h', h <= h' /\ holds listed t v h' db'.

Lemma commits_keeps {A} (m : Tx A) : keeps (holds listed t v h) m anything -> commits (holds listed t v h) m.
Proof. intros Hk Ht db a db' Hd E. exists h. split; [done|]. by eapply Hk. Qed.

Lemma commits_bind {A B} (P : Db -> Prop) (m : Tx A) (k : A -> Tx B) :
  keeps P m anything -> (forall a, commits P (k a)) -> commits P (bind m k).
Proof.
  intros Hm Hk Ht db b db2 Hd E. apply bind_ok in E as (a & db1 & E1 & E2).
  destruct (Hm _ _ _ Hd E1) as [Hd1 _]. by eapply (Hk a).
Qed.

Lemma commits_snapshot {A} (k : Z * Z -> Tx A) :
  (t < h + 1 -> forall version, keeps (holds listed t v (h + 1)) (k (h + 1, version)) anything) ->
  commits (holds listed t v h) (bind insert_snapshot k).
Proof.
  intros Hk Ht db a db' Hd E. apply bind_ok in E as ([s version] & db1 & E1 & E).
  destruct (insert_snapshot_holds _ _ _ _ _ _ _ _ Ht Hd E1) as (-> & Hd1 & _).
  exists (h + 1). split; [lia|]. eapply (Hk ltac:(lia) version); [exact Hd1|exact E].
Qed.

(** A write to a table. *)
Abbreviation writing table_id := (finalizing (listed := listed) (t := t) (v := v) (h := h) table_id).

Lemma commits_finalize {A} limit table_id schema_name table_name columns ids mode base_snapshot reserved (k : Z -> Tx A) :
  (t < h + 1 -> keeps (holds listed t v (h + 1)) (k (h + 1)) anything) ->
  commits (writing table_id)
    (let* snapshot_id := finalize_snapshot limit table_id schema_name table_name columns ids mode base_snapshot
                           reserved in k snapshot_id).
Proof.
  intros Hk Ht db a db' [Hd Hb] E. apply bind_ok in E as (s & db1 & E1 & E). unfold finalize_snapshot in E1.
  apply bind_ok in E1 as ([s0 version] & db2 & E2 & E1).
  destruct (insert_snapshot_holds _ _ _ _ _ _ _ _ Ht Hd E2) as (-> & Hd2 & Htab & Hcol).
  assert (Hb2 : begins_later (listed := listed) (t := t) table_id db2).
  { intros Hl Hc. rewrite Htab. apply Hb; [done|]. revert Hc. unfold live_columns. by rewrite Hcol. }
  apply bind_ok in E1 as ([] & db3 & E3 & E1). assert (Ht' : t < h + 1) by lia.
  destruct (finalizing_insert_new_table_rows Ht' table_id _ _ _ _ _ _ db2 tt db3 (conj Hd2 Hb2) E3) as [[Hd3 Hb3] _].
  destruct (finalize_table_holds Ht' _ _ _ _ _ _ _ _ _ _ Hb3 Hd3 E1) as [Hd1 Hs]. subst s.
  exists (h + 1). split; [lia|]. by eapply (Hk Ht').
Qed.
End at_snapshot.
End commits.
