(* ===== verification/CatalogInit.v ===== *)
(** * New, migrated and opened catalogs

    [initialize_schema], [migrate], [upgrade_and_stamp] and the layout check of
    [metadata_writer_duckdb.rs] ([catalog_state] of [metadata_provider_duckdb.rs]). The tables
    and columns a statement adds are there already in [Db]; the rows it changes are modelled. *)

From S2P Require Import Prelude RustStd Arrow StatsOrder StatsRollup WriterTypes DuckdbCast ChangeLedger Conflicts PathResolver CatalogVersion Partition RowIds WriterChecks Types ColumnTrees SortSpec InlinedTypes CatalogDb CatalogSnapshots CatalogTables CatalogCommits CatalogAdmin CatalogReads CatalogHistory.

(** ** The layout of a catalog *)

Section layout.
Context `{InlineValues}.

(** A database with the tables of [SQL_CREATE_SCHEMA] and no row. *)
Definition empty_db (clock : Z) : Db :=
  MkDb [] [] [] [] [] [] [] [] [] [] [] [] [] [] [] [] [] [] ∅ ∅ [] [] [] [] ∅ clock.

(** [WHERE path <> '' AND path NOT LIKE '%/'], and the path with its slash. *)
Definition lacks_slash (path : str) : bool := negb (is_empty path) && negb (ends_with "/" path).
Definition slashed (path : str) : str := if lacks_slash path then path ++ "/" else path.

Definition slashed_schema (row : SchemaRow) : SchemaRow :=
  {| sch_id := sch_id row; sch_name := sch_name row; sch_path := slashed (sch_path row);
     sch_path_is_relative := sch_path_is_relative row |}.
Definition slashed_table (row : TableRow) : TableRow :=
  {| tb_id := tb_id row; tb_schema_id := tb_schema_id row; tb_name := tb_name row;
     tb_path := slashed (tb_path row); tb_path_is_relative := tb_path_is_relative row |}.

(** The seed of the [next_column_id] counter. *)
Definition seed_column_ids (db : Db) : Db :=
  if existsb (is_counter "next_column_id") (t_metadata db) then db
  else on_metadata (fun l => l ++ [{| m_key := "next_column_id";
         m_value := show_Z (default 0 (max_list ((fun v => co_id (v_row v)) <$> t_columns db)));
         m_scope := None; m_scope_id := None |}]) db.

(** The trailing [/] of the data path, the schemas' and the tables' paths. *)
Definition slash_paths (db : Db) : Db :=
  on_tables (fmap (with_row slashed_table)) (on_schemas (fmap (with_row slashed_schema))
    (on_metadata (update (is_counter "data_path") (fun row => with_value (slashed (m_value row)) row)) db)).

(** [SQL_CANONICALIZE_LEGACY_BOOLEAN_SETTINGS]. *)
Definition legacy_true (row : MetadataRow) : bool :=
  (str_eqb (m_key row) "sort_on_insert" || str_eqb (m_key row) "hive_file_pattern")
  && str_eqb (to_ascii_lowercase (m_value row)) "true" && negb (str_eqb (m_value row) "true").
Definition canonicalize_legacy_booleans (db : Db) : Db :=
  on_metadata (update legacy_true (with_value "true")) db.

(** The head's watermark, raised past its counter. *)
Definition with_watermark (a : IdAllocator) (value : Z) (row : SnapshotRow) : SnapshotRow :=
  {| s_id := s_id row; s_time := s_time row; s_schema_version := s_schema_version row;
     s_next_catalog_id := match a with ICatalog => Some value | IFile => s_next_catalog_id row end;
     s_next_file_id := match a with ICatalog => s_next_file_id row | IFile => Some value end |}.
Definition raise_head_watermark (a : IdAllocator) : Tx unit :=
  let* counter := scalar (fun db => select (is_counter (allocator_key a)) (t_metadata db)) in
  match counter with
  | None => ret tt
  | Some row =>
      let* value := lift (cast_value row) in
      let* next := bigint (value + 1) in
      let* head := query (fun db => max_list (s_id <$> t_snapshots db)) in
      execute (on_snapshots (update
        (fun row => bool_decide (Some (s_id row) = head)
                    && match watermark a row with Some w => w <=? value | None => false end)
        (with_watermark a next)))
  end.

(** One key of [Layout::stamp]. *)
Definition set_metadata (key value : str) (db : Db) : Db :=
  on_metadata (fun l => delete_where (is_counter key) l
                        ++ [{| m_key := key; m_value := value; m_scope := None; m_scope_id := None |}]) db.

(** [upgrade_and_stamp]: the statements before the transaction commit one by one and
    cannot fail, and an error of the transaction leaves what they did. *)
Definition prepare_catalog (db : Db) : Db := canonicalize_legacy_booleans (slash_paths (seed_column_ids db)).
Definition stamp_catalog : Tx (Ending unit) :=
  for_each [ICatalog; IFile] (fun allocator =>
    seed_id_allocator allocator ;* raise_head_watermark allocator) ;*
  for_each (stamp SINGLE_CATALOG) (fun '(key, value) => execute (set_metadata key value)) ;*
  ret (Committed tt).
Definition upgrade_and_stamp (db : Db) : outcome unit * Db := run stamp_catalog (prepare_catalog db).

(** ** Opening a catalog *)

(** The [Debug] rendering of a string and of a state in an error text. *)
Context (debug_str : str -> str) (debug_state : CatalogState -> str).

(** [catalog_state]; a database without [ducklake_metadata] is [None]. *)
Definition catalog_state (catalog : option Db) : result CatalogState :=
  match catalog with
  | None => Ok Absent
  | Some db =>
      classify debug_str
        ((fun row => (m_key row, m_value row))
           <$> select (fun row => existsb (str_eqb (m_key row))
                 ["version" : str; key SINGLE_CATALOG; min_key SINGLE_CATALOG; other_key SINGLE_CATALOG])
               (t_metadata db)) SINGLE_CATALOG
  end.

Definition MIGRATE : str := "DuckdbMetadataWriter::migrate".

(** [DuckdbMetadataWriter::new], of which the check can refuse the catalog. *)
Definition writer_new (catalog : option Db) : result unit :=
  let? state := catalog_state catalog in
  require_writable debug_state state MIGRATE.

(** A call on a catalog that may not exist yet: what it returns, and the catalog it leaves. *)
Definition leave (catalog : option Db) (r : result unit) : outcome unit * option Db := (Returns r, catalog).

(** [initialize_schema], at [clock] when the catalog is new. *)
Definition initialize_schema (clock : Z) (catalog : option Db) : outcome unit * option Db :=
  match catalog_state catalog with
  | Err e => leave catalog (Err e)
  | Ok Absent => let r := upgrade_and_stamp (default (empty_db clock) catalog) in (r.1, Some r.2)
  | Ok state => leave catalog (require_writable debug_state state MIGRATE)
  end.

(** [migrate]. *)
Definition migrate (catalog : option Db) : outcome unit * option Db :=
  match catalog_state catalog, catalog with
  | Err e, _ => leave catalog (Err e)
  | Ok Absent, _ | Ok _, None =>
      leave catalog (Err (InvalidConfig "no DuckLake catalog to migrate; create one with new_with_init"))
  | Ok Current, _ | Ok (NewerCompatible _), _ => leave catalog (Ok tt)
  | Ok state, Some db =>
      match require_migratable debug_state state with
      | Err e => leave catalog (Err e)
      | Ok tt => let r := upgrade_and_stamp db in (r.1, Some r.2)
      end
  end.
End layout.

(** ** Upgrades *)

Section upgrades.
Context `{InlineValues}.

Lemma update_fixed {A} (p : A -> bool) f (l : list A) :
  Forall (fun a => p a = true -> f a = a) l -> update p f l = l.
Proof. induction 1 as [|a l Ha _ IH]; [done|]. unfold update in *. cbn. rewrite IH. destruct (p a); [by rewrite Ha|done]. Qed.

Lemma update_all {A} (p : A -> bool) f (l : list A) (Q : A -> Prop) :
  (forall a, p a = true -> Q (f a)) -> (forall a, p a = false -> Q a) -> Forall Q (update p f l).
Proof. intros H1 H2. apply Forall_fmap, Forall_forall. intros a _. cbn. destruct (p a) eqn:E; auto. Qed.

Lemma fmap_fixed {A} (f : A -> A) (l : list A) : Forall (fun a => f a = a) l -> f <$> l = l.
Proof. induction 1 as [|a l Ha _ IH]; [done|]. cbn. by rewrite Ha, IH. Qed.

Lemma slashed_once path : lacks_slash (slashed path) = false.
Proof.
  unfold slashed. destruct (lacks_slash path) eqn:E; [|done].
  unfold lacks_slash. replace (ends_with "/" (path ++ "/")) with true; [by rewrite andb_false_r|].
  symmetry. apply ends_with_spec. by exists path.
Qed.

(** A catalog whose paths and settings an upgrade leaves as they are. *)
Definition fixed_row (row : MetadataRow) : bool :=
  negb (legacy_true row) && negb (is_counter "data_path" row && lacks_slash (m_value row)).
Definition prepared (db : Db) : Prop :=
  existsb (is_counter "next_column_id") (t_metadata db) = true
  /\ Forall (fun row => fixed_row row = true) (t_metadata db)
  /\ Forall (fun v => lacks_slash (sch_path (v_row v)) = false) (t_schemas db)
  /\ Forall (fun v => lacks_slash (tb_path (v_row v)) = false) (t_tables db).

Lemma fixed_row_canonical row : fixed_row (if legacy_true row then with_value "true" row else row)
  = negb (is_counter "data_path" row && lacks_slash (m_value row)).
Proof.
  unfold fixed_row. destruct (legacy_true row) eqn:E; [|by rewrite E].
  assert (Hk : is_counter "data_path" row = false).
  { unfold legacy_true in E. unfold is_counter. apply andb_true_iff in E as [E _]. apply andb_true_iff in E as [E _].
    apply orb_true_iff in E as [E|E]; apply bool_decide_eq_true in E; rewrite E; reflexivity. }
  unfold is_counter in *. cbn. rewrite Hk. unfold legacy_true. cbn. by rewrite !andb_false_r.
Qed.

(** The rows after the first statements of an upgrade. *)
Definition slashed_row (row : MetadataRow) : MetadataRow := with_value (slashed (m_value row)) row.
Lemma prepared_rows db :
  t_metadata (prepare_catalog db)
  = update legacy_true (with_value "true") (update (is_counter "data_path") slashed_row (t_metadata (seed_column_ids db))).
Proof. reflexivity. Qed.
Lemma prepared_schemas db : t_schemas (prepare_catalog db) = with_row slashed_schema <$> t_schemas (seed_column_ids db).
Proof. reflexivity. Qed.
Lemma prepared_tables db : t_tables (prepare_catalog db) = with_row slashed_table <$> t_tables (seed_column_ids db).
Proof. reflexivity. Qed.

Lemma seeded_column_ids db : existsb (is_counter "next_column_id") (t_metadata (seed_column_ids db)) = true.
Proof.
  unfold seed_column_ids. destruct (existsb _ (t_metadata db)) eqn:E; [done|]. tables.
  rewrite existsb_app. by rewrite orb_true_r.
Qed.

Lemma prepare_prepared db : prepared (prepare_catalog db).
Proof.
  unfold prepared. rewrite prepared_rows, prepared_schemas, prepared_tables, !Forall_fmap.
  refine (conj _ (conj _ (conj _ _))); [| |apply Forall_forall; intros v _; apply slashed_once..].
  - pose proof (seeded_column_ids db) as (row & Hin & Hr)%existsb_exists. apply existsb_exists.
    exists (let r := if is_counter "data_path" row then slashed_row row else row in
            if legacy_true r then with_value "true" r else r). split.
    + apply list_elem_of_In, list_elem_of_fmap. eexists. split; [reflexivity|].
      apply list_elem_of_fmap. eexists. split; [reflexivity|]. by apply list_elem_of_In.
    + cbv zeta. destruct (is_counter "data_path" row); destruct (legacy_true _); exact Hr.
  - assert (Hs : Forall (fun row => is_counter "data_path" row && lacks_slash (m_value row) = false)
              (update (is_counter "data_path") slashed_row (t_metadata (seed_column_ids db)))).
    { apply update_all; [|intros row ->; done]. intros row Hr. cbn. rewrite slashed_once. apply andb_false_r. }
    apply Forall_fmap. eapply Forall_impl; [exact Hs|]. intros row Hr. cbn.
    rewrite fixed_row_canonical. by rewrite Hr.
Qed.

Lemma on_metadata_fixed f db : f (t_metadata db) = t_metadata db -> on_metadata f db = db.
Proof. intros E. unfold on_metadata. rewrite E. by destruct db. Qed.
Lemma on_schemas_fixed f db : f (t_schemas db) = t_schemas db -> on_schemas f db = db.
Proof. intros E. unfold on_schemas. rewrite E. by destruct db. Qed.
Lemma on_tables_fixed f db : f (t_tables db) = t_tables db -> on_tables f db = db.
Proof. intros E. unfold on_tables. rewrite E. by destruct db. Qed.

Lemma fixed_slashed row : fixed_row row = true -> is_counter "data_path" row = true -> slashed_row row = row.
Proof.
  unfold fixed_row, slashed_row, slashed. intros Hf Hc. rewrite Hc in Hf. destruct (lacks_slash _); [|by destruct row].
  by rewrite andb_false_r in Hf.
Qed.

Lemma prepared_fixed db : prepared db -> prepare_catalog db = db.
Proof.
  intros (Hc & Hm & Hs & Ht). unfold prepare_catalog, canonicalize_legacy_booleans, slash_paths.
  replace (seed_column_ids db) with db by (unfold seed_column_ids; by rewrite Hc).
  rewrite (on_metadata_fixed (update (is_counter _) _)), on_schemas_fixed, on_tables_fixed, on_metadata_fixed; [done|..].
  - apply update_fixed. eapply Forall_impl; [exact Hm|]. intros row Hr Hl. cbn in Hr. unfold fixed_row in Hr. by rewrite Hl in Hr.
  - apply fmap_fixed. eapply Forall_impl; [exact Ht|]. intros [b e r] Hr. unfold with_row, slashed_table, slashed. cbn in *. rewrite Hr. by destruct r.
  - apply fmap_fixed. eapply Forall_impl; [exact Hs|]. intros [b e r] Hr. unfold with_row, slashed_schema, slashed. cbn in *. rewrite Hr. by destruct r.
  - apply update_fixed. eapply Forall_impl; [exact Hm|]. apply fixed_slashed.
Qed.

(** A catalog whose counter an upgrade neither seeds nor outgrows. *)
Definition raised (a : IdAllocator) (db : Db) : Prop :=
  exists row value, select (is_counter (allocator_key a)) (t_metadata db) = [row] /\ cast_value row = Ok value
  /\ in_i64 (value + 1) = true
  /\ Forall (fun row => bool_decide (Some (s_id row) = max_list (s_id <$> t_snapshots db))
                        && match watermark a row with Some w => w <=? value | None => false end = false)
       (t_snapshots db).

Definition allot (a : IdAllocator) : Tx unit := seed_id_allocator a ;* raise_head_watermark a.

Lemma select_existsb {A} (p : A -> bool) l x : select p l = [x] -> existsb p l = true.
Proof. intros E. apply existsb_exists. exists x. apply (List.filter_In p x l). unfold select in E. rewrite E. by left. Qed.

Lemma raised_fixed a db : raised a db -> allot a db = Returns (Ok (tt, db)).
Proof.
  intros (row & value & Hrow & Hv & Hi & Hs). unfold allot, seed_id_allocator, bind, query, outcome_bind, when, ret.
  cbn. rewrite (select_existsb _ _ _ Hrow). cbn. unfold raise_head_watermark, scalar, bind, query, outcome_bind, ret.
  cbn. rewrite Hrow. cbn. unfold lift. rewrite Hv. cbn. unfold bigint. rewrite Hi. unfold ret, execute. cbn.
  do 2 f_equal. f_equal. unfold on_snapshots. rewrite update_fixed; [by destruct db|].
  eapply Forall_impl; [exact Hs|]. intros r Hr Hn. cbn in Hr, Hn. congruence.
Qed.

Lemma with_watermark_id a value row : s_id (with_watermark a value row) = s_id row.
Proof. done. Qed.

Lemma raise_raised a db db' :
  raise_head_watermark a db = Returns (Ok (tt, db')) -> existsb (is_counter (allocator_key a)) (t_metadata db) = true ->
  raised a db'.
Proof.
  intros E Hx. unfold raise_head_watermark in E. apply bind_ok in E as (counter & db1 & E1 & E).
  unfold scalar in E1. apply bind_ok in E1 as (rows & db2 & [= <- <-] & E1).
  destruct (select _ (t_metadata db)) as [|row [|row' l]] eqn:Es; [|injection E1 as <- <-|done].
  { apply existsb_exists in Hx as (row & Hin & Hr). assert (Hf : In row (select (is_counter (allocator_key a)) (t_metadata db))) by by apply List.filter_In.
    by rewrite Es in Hf. }
  apply bind_ok in E as (value & db1 & E1 & E). unfold lift in E1. destruct (cast_value row) as [v|] eqn:Ev; [|done].
  injection E1 as <- <-. apply bind_ok in E as (next & db1 & E1 & E). unfold bigint in E1.
  destruct (in_i64 (v + 1)) eqn:Ei; [|done]. injection E1 as <- <-. apply bind_ok in E as (h & db1 & [= <- <-] & E).
  injection E as <-. exists row, v. split_and!; [done|done|done|]. tables.
  assert (Hids : s_id <$> update (fun row0 => bool_decide (Some (s_id row0) = max_list (s_id <$> t_snapshots db))
              && match watermark a row0 with Some w => w <=? v | None => false end) (with_watermark a (v + 1)) (t_snapshots db)
            = s_id <$> t_snapshots db).
  { unfold update. rewrite <- list_fmap_compose. apply list_fmap_ext. intros i r _. cbn. by destruct (_ && _). }
  rewrite Hids. apply update_all; [|done]. intros r _. rewrite with_watermark_id. unfold watermark, with_watermark.
  destruct a; cbn; replace (v + 1 <=? v) with false by lia; apply andb_false_r.
Qed.

Lemma allot_raised a db db' : allot a db = Returns (Ok (tt, db')) -> raised a db'.
Proof.
  intros E. unfold allot in E. apply bind_ok in E as ([] & db1 & E1 & E). eapply raise_raised; [exact E|].
  unfold seed_id_allocator in E1. apply bind_ok in E1 as (ex & db2 & [= <- <-] & E1).
  destruct (existsb _ (t_metadata db)) eqn:Ex; [by injection E1 as <-|]. cbn [negb when] in E1.
  apply bind_ok in E1 as (value & db2 & [= <- <-] & E1). apply bind_ok in E1 as (value & db2 & E2 & E1).
  unfold bigint in E2. destruct (in_i64 _); [|done]. injection E2 as <- <-. injection E1 as <-. tables.
  rewrite existsb_app. apply orb_true_iff. right. by destruct a.
Qed.

(** Changes of the metadata that leave a counter alone, and of the other watermark. *)
Lemma raised_metadata a f db :
  (forall l, select (is_counter (allocator_key a)) (f l) = select (is_counter (allocator_key a)) l) ->
  raised a db -> raised a (on_metadata f db).
Proof. intros Hf (row & value & Hrow & H'). exists row, value. tables. by rewrite Hf. Qed.

Lemma select_deleted (p q : MetadataRow -> bool) l :
  (forall row, q row = true -> p row = false) -> select p (delete_where q l) = select p l.
Proof.
  intros Hp. induction l as [|row l IH]; [done|]. unfold select, delete_where in *. cbn.
  destruct (q row) eqn:Eq; cbn; [by rewrite (Hp row Eq)|]. by rewrite IH.
Qed.

Lemma other_counter key key' row : key <> key' -> is_counter key row = true -> is_counter key' row = false.
Proof.
  unfold is_counter, str_eqb. intros Hk [->%bool_decide_eq_true _]%andb_true_iff. by rewrite bool_decide_false.
Qed.

Lemma raised_stamped a (key value : str) db : key <> allocator_key a -> raised a db -> raised a (set_metadata key value db).
Proof.
  intros Hk. apply raised_metadata. intros l. rewrite select_app, select_deleted.
  - unfold select. cbn. unfold is_counter, str_eqb. cbn. rewrite bool_decide_false by done. apply app_nil_r.
  - intros row Hr. by apply (other_counter key).
Qed.

Lemma keeps_allot_file : keeps (raised ICatalog) (allot IFile) anything.
Proof.
  unfold allot, seed_id_allocator, raise_head_watermark. keep; apply keeps_execute; intros d.
  - apply raised_metadata. intros l. rewrite select_app. apply app_nil_r.
  - intros (row & value & Hrow & Hv & Hi & Hs).
    exists row, value. tables. split_and!; [done..|]. unfold update.
    replace (s_id <$> _) with (s_id <$> t_snapshots d).
    + apply Forall_fmap. eapply Forall_impl; [exact Hs|]. intros r Hr. unfold compose.
      match goal with |- context [if ?b then with_watermark _ _ _ else _] => destruct b end; exact Hr.
    + rewrite <- list_fmap_compose. apply list_fmap_ext. intros i r _. cbn. by destruct (_ && _).
Qed.

Lemma prepared_appended row db :
  fixed_row row = true -> prepared db -> prepared (on_metadata (fun l => l ++ [row]) db).
Proof.
  intros Hr (Hc & Hm & Hst). split_and!; [|apply Forall_app; by repeat constructor|apply Hst..].
  tables. by rewrite existsb_app, Hc.
Qed.

Lemma prepared_stamped (key value : str) db :
  key <> lit "next_column_id" -> fixed_row {| m_key := key; m_value := value; m_scope := None; m_scope_id := None |} = true ->
  prepared db -> prepared (set_metadata key value db).
Proof.
  intros Hk Hr (Hc & Hm & Hst). split_and!; [| |apply Hst..]; unfold set_metadata; tables.
  - rewrite existsb_app. apply orb_true_iff. left. apply existsb_exists in Hc as (row & Hin & Hrow).
    apply existsb_exists. exists row. split; [|done]. apply List.filter_In. split; [done|].
    by rewrite (other_counter _ key row (not_eq_sym Hk) Hrow).
  - apply Forall_app. split; [|by repeat constructor]. apply Forall_forall. intros row Hin.
    rewrite Forall_forall in Hm. apply Hm. by apply list_elem_of_In, List.filter_In, proj1, list_elem_of_In in Hin.
Qed.

Lemma keeps_allot_prepared a : keeps prepared (allot a) anything.
Proof.
  unfold allot, seed_id_allocator, raise_head_watermark. keep; apply keeps_execute; intros d; [|done].
  apply prepared_appended. by destruct a.
Qed.

Definition stamps (db : Db) : Db :=
  foldl (fun db '(key, value) => set_metadata key value db) db (stamp SINGLE_CATALOG).

Lemma stamp_catalog_ok db db' :
  stamp_catalog db = Returns (Ok (Committed tt, db')) ->
  exists db1 db2, allot ICatalog db = Returns (Ok (tt, db1)) /\ allot IFile db1 = Returns (Ok (tt, db2)) /\ db' = stamps db2.
Proof.
  intros E. unfold stamp_catalog in E. apply bind_ok in E as ([] & db2 & E1 & E).
  apply bind_ok in E as ([] & db3 & E2 & E). injection E as <-. cbn [for_each] in E1.
  apply bind_ok in E1 as ([] & db1 & Ec & E1). apply bind_ok in E1 as ([] & db4 & Ef & E1). injection E1 as ->.
  exists db1, db2. split_and!; [done|done|]. by injection E2 as <-.
Qed.

Lemma stamp_catalog_intro db :
  raised ICatalog db -> raised IFile db -> stamp_catalog db = Returns (Ok (Committed tt, stamps db)).
Proof.
  intros Hc Hf. unfold stamp_catalog. cbn [for_each].
  assert (E : forall A (k : unit -> Tx A), bind (allot ICatalog ;* allot IFile ;* ret tt) k db = k tt db).
  { intros A k. unfold bind, outcome_bind. rewrite (raised_fixed _ _ Hc). cbn [fst snd]. by rewrite (raised_fixed _ _ Hf). }
  unfold allot in E. by rewrite E.
Qed.

Lemma delete_deleted {A} (p : A -> bool) l : delete_where p (delete_where p l) = delete_where p l.
Proof. induction l as [|a l IH]; [done|]. unfold delete_where in *. cbn. destruct (p a) eqn:E; cbn; rewrite ?E; cbn; by rewrite IH. Qed.

Lemma delete_swap {A} (p q : A -> bool) l : delete_where p (delete_where q l) = delete_where q (delete_where p l).
Proof.
  induction l as [|a l IH]; [done|]. unfold delete_where in *. cbn.
  destruct (p a) eqn:Ep, (q a) eqn:Eq; cbn; rewrite ?Ep, ?Eq; cbn; by rewrite IH.
Qed.

Lemma delete_where_app {A} (p : A -> bool) l k : delete_where p (l ++ k) = delete_where p l ++ delete_where p k.
Proof. apply List.filter_app. Qed.

Lemma replace_replaced {A} (p q : A -> bool) (r s : A) l :
  p r = true -> q s = true -> p s = false -> q r = false ->
  let again l := delete_where q (delete_where p l ++ [r]) ++ [s] in again (again l) = again l.
Proof.
  intros Hp Hq Hs Hr again. unfold again. rewrite !delete_where_app.
  assert (E : forall f a, @delete_where A f [a] = if f a then [] else [a]) by (intros f a; cbn; by destruct (f a)).
  rewrite !E, ?Hp, ?Hq, ?Hs, ?Hr, ?E, ?Hp, ?Hq, ?Hs, ?Hr. cbn [app]. rewrite ?app_nil_r, ?delete_where_app, ?E, ?Hp, ?Hq, ?Hs, ?Hr.
  cbn. rewrite ?app_nil_r. by rewrite (delete_swap q p (delete_where q _)), !delete_deleted, (delete_swap p q), delete_deleted.
Qed.

Definition stamp_row (key : str) (version : Z) : MetadataRow :=
  {| m_key := key; m_value := show_u version; m_scope := None; m_scope_id := None |}.
Lemma stamped_rows db :
  t_metadata (stamps db)
  = delete_where (is_counter MIN_VERSION_KEY)
      (delete_where (is_counter LAYOUT_VERSION_KEY) (t_metadata db) ++ [stamp_row LAYOUT_VERSION_KEY LAYOUT_VERSION])
    ++ [stamp_row MIN_VERSION_KEY MIN_VERSION].
Proof. reflexivity. Qed.

Lemma stamps_stamps db : stamps (stamps db) = stamps db.
Proof.
  transitivity (on_metadata (fun _ => t_metadata (stamps (stamps db))) (stamps db)); [reflexivity|].
  apply on_metadata_fixed. rewrite !stamped_rows. by apply replace_replaced.
Qed.

(** C24. An upgrade is repeatable: run again on the catalog it left, it succeeds and changes
    nothing, so an interrupted or repeated migration ends in the same catalog. *)
Theorem upgrade_is_idempotent db db' :
  upgrade_and_stamp db = (Returns (Ok tt), db') -> upgrade_and_stamp db' = (Returns (Ok tt), db').
Proof.
  unfold upgrade_and_stamp, run. destruct (stamp_catalog (prepare_catalog db)) as [[[[[]|[]] d]|]|] eqn:E; try done.
  2:{ unfold stamp_catalog in E. by apply bind_ok in E as (? & ? & _ & (? & ? & _ & E)%bind_ok). }
  intros [= ->]. apply stamp_catalog_ok in E as (db1 & db2 & E1 & E2 & ->).
  pose proof (prepare_prepared db) as Hp. destruct (keeps_allot_prepared _ _ _ _ Hp E1) as [Hp1 _].
  destruct (keeps_allot_prepared _ _ _ _ Hp1 E2) as [Hp2 _].
  assert (Hp3 : prepared (stamps db2)) by (apply prepared_stamped; [done|done|by apply prepared_stamped]).
  assert (Hr : raised ICatalog db2) by (by apply (keeps_allot_file db1 tt db2); [eapply allot_raised|]).
  rewrite (prepared_fixed _ Hp3), stamp_catalog_intro, stamps_stamps; [done|..];
    (apply raised_stamped; [done|]; apply raised_stamped; [done|]); [done|by eapply allot_raised].
Qed.
End upgrades.

(** ** New and migrated catalogs *)

Section migrations.
Context `{InlineValues} `{SortParser} (debug_str : str -> str) (debug_state : CatalogState -> str).

(** C27. A new catalog is complete: initialising an absent catalog succeeds and leaves a
    well-formed catalog at snapshot 0 that a writer of this release opens as current, whose
    first catalog and file ids are 0, and that initialising or migrating again leaves as it
    is. *)
Theorem new_catalog_is_ready clock :
  exists db, initialize_schema debug_str debug_state clock None = (Returns (Ok tt), Some db)
  /\ catalog_state debug_str (Some db) = Ok Current /\ writer_new debug_str debug_state (Some db) = Ok tt
  /\ wf db /\ get_current_snapshot db = 0 /\ list_snapshots db = []
  /\ (forall a, exists db', reserve_ids_of a 1 db = Returns (Ok (0, db')))
  /\ (forall clock', initialize_schema debug_str debug_state clock' (Some db) = (Returns (Ok tt), Some db))
  /\ migrate debug_str debug_state (Some db) = (Returns (Ok tt), Some db).
Proof.
  eexists. split; [vm_compute; reflexivity|]. split_and!.
  - vm_compute. reflexivity.
  - vm_compute. reflexivity.
  - unfold wf, wf_files, wf_deletes, wf_inlined. tables. split_and!; [constructor|intros t; constructor| | |].
    + intros v e Hv. by apply elem_of_nil in Hv.
    + intros name table Ht. by destruct (lookup_empty_Some name table).
    + intros row Hr. by apply elem_of_nil in Hr.
  - reflexivity.
  - reflexivity.
  - intros []; eexists; vm_compute; reflexivity.
  - intros clock'. vm_compute. reflexivity.
  - vm_compute. reflexivity.
Qed.

(** The tables an upgrade does not write. *)
Definition data_rows (db : Db) : Db :=
  on_metadata (fun _ => []) (on_snapshots (fun _ => []) (on_schemas (fun _ => []) (on_tables (fun _ => []) db))).

(** What an upgrade keeps of the others: the snapshots' ids, and the schemas and tables but
    for their paths. *)
Definition schema_key (v : versioned SchemaRow) : Z * option Z * Z * str :=
  (v_begin v, v_end v, sch_id (v_row v), sch_name (v_row v)).
Definition table_key (v : versioned TableRow) : Z * option Z * Z * Z * str :=
  (v_begin v, v_end v, tb_id (v_row v), tb_schema_id (v_row v), tb_name (v_row v)).
Definition same_data (db db' : Db) : Prop :=
  data_rows db' = data_rows db /\ s_id <$> t_snapshots db' = s_id <$> t_snapshots db
  /\ schema_key <$> t_schemas db' = schema_key <$> t_schemas db /\ table_key <$> t_tables db' = table_key <$> t_tables db.

Lemma same_data_trans db1 db2 db3 : same_data db1 db2 -> same_data db2 db3 -> same_data db1 db3.
Proof. intros (A1 & B1 & C1 & D1) (A2 & B2 & C2 & D2). unfold same_data. by rewrite A2, B2, C2, D2. Qed.

Lemma same_metadata f db : same_data db (on_metadata f db).
Proof. done. Qed.

Lemma same_schemas f db : (forall v, schema_key (f v) = schema_key v) -> same_data db (on_schemas (fmap f) db).
Proof.
  intros Hf. refine (conj eq_refl (conj eq_refl (conj _ eq_refl))). tables.
  rewrite <- list_fmap_compose. apply list_fmap_ext. intros i v _. apply Hf.
Qed.

Lemma same_tables f db : (forall v, table_key (f v) = table_key v) -> same_data db (on_tables (fmap f) db).
Proof.
  intros Hf. refine (conj eq_refl (conj eq_refl (conj eq_refl _))). tables.
  rewrite <- list_fmap_compose. apply list_fmap_ext. intros i v _. apply Hf.
Qed.

Lemma prepare_same db : same_data db (prepare_catalog db).
Proof.
  assert (Hc : same_data db (seed_column_ids db)) by (unfold seed_column_ids; case_match; [by split_and!|apply same_metadata]).
  unfold prepare_catalog, canonicalize_legacy_booleans, slash_paths.
  eapply same_data_trans; [exact Hc|]. eapply same_data_trans; [|apply same_metadata].
  eapply same_data_trans; [|by apply same_tables]. eapply same_data_trans; [|by apply same_schemas]. apply same_metadata.
Qed.

Lemma keeps_stamp_same db : keeps (same_data db) stamp_catalog anything.
Proof.
  unfold stamp_catalog, seed_id_allocator, raise_head_watermark. keep.
  - by apply keeps_execute.
  - apply keeps_execute. intros d (Hd & Hs & Hst). split_and!; [exact Hd| |apply Hst..]. tables. rewrite <- Hs.
    unfold update. rewrite <- list_fmap_compose. apply list_fmap_ext. intros i r _. cbn. by destruct (_ && _).
  - by apply keeps_execute.
Qed.

Lemma migrate_same db r db' : migrate debug_str debug_state (Some db) = (r, Some db') -> same_data db db'.
Proof.
  assert (Hrefl : same_data db db) by by split_and!.
  assert (Hup : forall d, (upgrade_and_stamp db).2 = d -> same_data db d).
  { intros d <-. unfold upgrade_and_stamp, run. pose proof (prepare_same db) as Hp.
    destruct (stamp_catalog _) as [[[[[]|[]] d]|]|] eqn:E; try exact Hp.
    by destruct (keeps_stamp_same db _ _ _ Hp E). }
  unfold migrate, leave. destruct (catalog_state _ _) as [[]|]; intros E; repeat case_match; simplify_eq; auto.
Qed.

(** No scoped row has a layout key, and the catalog is not of the other layout. *)
Definition layout_row (row : MetadataRow) : Prop := m_key row = key SINGLE_CATALOG -> m_scope row = None.
Definition single_row (row : MetadataRow) : Prop := layout_row row /\ m_key row <> other_key SINGLE_CATALOG.
Definition single (db : Db) : Prop := Forall single_row (t_metadata db).

Lemma keeps_single_row row f db :
  single_row row -> single db -> (forall r, r ∈ f (t_metadata db) -> r ∈ t_metadata db) ->
  single (on_metadata (fun l => f l ++ [row]) db).
Proof.
  intros Hr Hd Hf. apply Forall_app. split; [|constructor; [exact Hr|constructor]]. apply Forall_forall. intros r Hin%Hf.
  unfold single in Hd. rewrite Forall_forall in Hd. by apply Hd.
Qed.

Lemma single_prepared db : single db -> single (prepare_catalog db).
Proof.
  intros Hd. assert (Hs : single (seed_column_ids db)).
  { unfold seed_column_ids. case_match; [done|]. by apply (keeps_single_row _ (fun l => l)). }
  unfold single. rewrite prepared_rows. unfold update.
  rewrite !Forall_fmap. eapply Forall_impl; [exact Hs|]. intros row Hr. unfold compose.
  destruct (is_counter _ row), (legacy_true _); exact Hr.
Qed.

Lemma keeps_single_allot a : keeps single (allot a) anything.
Proof.
  unfold allot, seed_id_allocator, raise_head_watermark. keep; apply keeps_execute; intros d Hd; [|done].
  apply (keeps_single_row _ (fun l => l)); [by destruct a|done..].
Qed.

Lemma single_set (k value : str) db :
  k <> other_key SINGLE_CATALOG -> single db -> single (set_metadata k value db).
Proof.
  intros Hk Hd. apply (keeps_single_row _ (delete_where (is_counter k))); [by split|done|].
  intros r Hr. by apply list_elem_of_In, List.filter_In, proj1, list_elem_of_In in Hr.
Qed.

(** The rows [catalog_state] reads. *)
Definition layout_rows (db : Db) : list (str * str) :=
  (fun row => (m_key row, m_value row))
    <$> select (fun row => existsb (str_eqb (m_key row))
          ["version" : str; key SINGLE_CATALOG; min_key SINGLE_CATALOG; other_key SINGLE_CATALOG]) (t_metadata db).

Lemma find_first_ext {A} (p q : A -> bool) l : (forall a, a ∈ l -> p a = q a) -> find_first p l = find_first q l.
Proof.
  induction l as [|a l IH]; intros E; [done|]. cbn. rewrite (E a) by set_solver.
  destruct (q a); [done|]. apply IH. set_solver.
Qed.

Lemma layout_value (db : Db) (k : str) :
  k ∈ ["version" : str; key SINGLE_CATALOG; min_key SINGLE_CATALOG; other_key SINGLE_CATALOG] ->
  row (layout_rows db) k = m_value <$> find_first (fun row => str_eqb (m_key row) k) (t_metadata db).
Proof.
  intros Hk. unfold row, layout_rows. induction (t_metadata db) as [|m l IH]; [done|]. unfold select in *. cbn [List.filter find_first].
  destruct (existsb _ _) eqn:Ex.
  - cbn [fmap list_fmap find_first fst]. destruct (str_eqb (m_key m) k); [done|exact IH].
  - destruct (str_eqb (m_key m) k) eqn:Ek; [|exact IH].
    apply bool_decide_eq_true in Ek. exfalso. rewrite <- not_true_iff_false in Ex. apply Ex, existsb_exists.
    exists k. split; [by apply list_elem_of_In|]. by apply bool_decide_eq_true.
Qed.

Lemma find_first_snoc {A} (p : A -> bool) l a : find_first p (l ++ [a]) = or_else (find_first p l) (if p a then Some a else None).
Proof. induction l as [|b l IH]; [done|]. cbn. by destruct (p b). Qed.

Lemma stamped_current db : single db -> catalog_state debug_str (Some (stamps db)) = Ok Current.
Proof.
  intros Hd. change (catalog_state debug_str (Some (stamps db))) with (classify debug_str (layout_rows (stamps db)) SINGLE_CATALOG).
  unfold classify. rewrite !layout_value by (apply list_elem_of_In; simpl; auto 6).
  assert (Hs : single (stamps db)) by (do 2 (apply single_set; [done|]); done).
  rewrite bool_decide_false.
  2:{ intros [v Hv]. apply fmap_Some in Hv as (r & Hr & _). apply find_first_some in Hr as [Hin Hk].
      unfold single in Hs. rewrite Forall_forall in Hs. apply bool_decide_eq_true in Hk. by destruct (Hs r Hin). }
  assert (Hv : find_first (fun row => str_eqb (m_key row) (key SINGLE_CATALOG)) (t_metadata (stamps db))
               = Some {| m_key := key SINGLE_CATALOG; m_value := show_u LAYOUT_VERSION; m_scope := None; m_scope_id := None |}).
  { rewrite stamped_rows, delete_where_app, find_first_snoc.
    replace (find_first _ (_ ++ _)) with (Some {| m_key := key SINGLE_CATALOG; m_value := show_u LAYOUT_VERSION; m_scope := None; m_scope_id := None |}); [done|].
    symmetry. change (delete_where _ [_]) with [{| m_key := key SINGLE_CATALOG; m_value := show_u LAYOUT_VERSION; m_scope := None; m_scope_id := None |}].
    rewrite find_first_snoc. replace (find_first _ _) with (@None MetadataRow); [done|]. symmetry.
    apply find_first_none, Forall_forall. intros r Hr%list_elem_of_In. apply List.filter_In in Hr as [Hr _].
    apply List.filter_In in Hr as [Hr Hc]. unfold single in Hd. rewrite Forall_forall in Hd.
    destruct (Hd r) as [Hu _]; [by apply list_elem_of_In|]. unfold is_counter in Hc. destruct (str_eqb (m_key r) _) eqn:Ek; [|done].
    apply bool_decide_eq_true in Ek. by rewrite (Hu Ek) in Hc. }
  rewrite Hv. reflexivity.
Qed.

Lemma not_other_layout db state :
  catalog_state debug_str (Some db) = Ok state -> (forall name, state <> OtherLayout name) ->
  Forall (fun row => m_key row <> other_key SINGLE_CATALOG) (t_metadata db).
Proof.
  change (catalog_state debug_str (Some db)) with (classify debug_str (layout_rows db) SINGLE_CATALOG). intros E Hn.
  apply Forall_forall. intros r Hr Hk. unfold classify in E. rewrite bool_decide_true in E; [by injection E as <-; eapply Hn|].
  rewrite layout_value by (apply list_elem_of_In; simpl; auto 6).
  destruct (find_first _ _) as [r'|] eqn:Ef; [by eexists|]. exfalso.
  apply find_first_none in Ef. rewrite Forall_forall in Ef. specialize (Ef r Hr). by rewrite Hk in Ef.
Qed.

Lemma upgraded_current db :
  single db -> (upgrade_and_stamp db).1 = Returns (Ok tt) ->
  catalog_state debug_str (Some (upgrade_and_stamp db).2) = Ok Current.
Proof.
  intros Hd%single_prepared. unfold upgrade_and_stamp, run.
  destruct (stamp_catalog _) as [[[[[]|[]] d]|]|] eqn:E; try done; intros _; cbn [snd].
  - apply stamp_catalog_ok in E as (db1 & db2 & E1 & E2 & ->). apply stamped_current.
    destruct (keeps_single_allot _ _ _ _ Hd E1) as [Hd1 _]. by destruct (keeps_single_allot _ _ _ _ Hd1 E2).
  - unfold stamp_catalog in E. by apply bind_ok in E as (? & ? & _ & (? & ? & _ & E)%bind_ok).
Qed.

(** The listing of a snapshot but for paths. *)
Definition schema_names (t : Z) (db : Db) : list (Z * str) :=
  (fun s => (sme_schema_id s, sme_schema_name s)) <$> list_schemas t db.
Definition table_names (schema_id t : Z) (db : Db) : list (Z * str) :=
  (fun m => (tm_table_id m, tm_table_name m)) <$> list_tables schema_id t db.

Lemma select_by {A B C} (p : A -> bool) (f : A -> C) (key : A -> B) (q : B -> bool) (g : B -> C) (l l' : list A) :
  (forall a, p a = q (key a)) -> (forall a, f a = g (key a)) -> key <$> l = key <$> l' ->
  f <$> select p l = f <$> select p l'.
Proof.
  intros Hp Hf. revert l'. induction l as [|a l IH]; intros [|b l'] E; try done. cbn in E. injection E as Ek E.
  unfold select in *. cbn. rewrite (Hp a), (Hp b), Ek. destruct (q (key b)); [|by apply IH].
  cbn. rewrite (Hf a), (Hf b), Ek. f_equal. by apply IH.
Qed.

(** C25. A migration keeps the data: whether it succeeds or fails, every table has at every
    snapshot the columns, files, delete files, statistics, specs and inlined data it had, and
    every snapshot lists the schemas and tables it listed, by id and name; and when it
    succeeds a writer of this release opens the catalog. *)
Theorem migration_keeps_data db r db' :
  migrate debug_str debug_state (Some db) = (r, Some db') ->
  (forall table_id t,
    get_table_structure table_id t db' = get_table_structure table_id t db
    /\ get_table_files_for_select table_id t db' = get_table_files_for_select table_id t db
    /\ get_file_column_stats table_id t db' = get_file_column_stats table_id t db
    /\ get_partition_spec table_id t db' = get_partition_spec table_id t db
    /\ get_sort_spec table_id t db' = get_sort_spec table_id t db
    /\ get_inlined_deletes table_id t db' = get_inlined_deletes table_id t db
    /\ (forall selection shape, read_inlined_rows table_id selection shape db' = read_inlined_rows table_id selection shape db))
  /\ (forall t, schema_names t db' = schema_names t db
      /\ forall schema_id, table_names schema_id t db' = table_names schema_id t db)
  /\ get_current_snapshot db' = get_current_snapshot db
  /\ (r = Returns (Ok tt) -> Forall layout_row (t_metadata db) -> writer_new debug_str debug_state (Some db') = Ok tt).
Proof.
  intros E. pose proof (migrate_same db r db' E) as (Hd & Hs & Hsch & Htab). split; [|split; [|split]].
  - assert (Hread : forall A (f : Db -> A), (forall d, f (data_rows d) = f d) -> f db' = f db).
    { intros A f Hf. by rewrite <- (Hf db'), Hd, Hf. }
    intros table_id t. repeat apply conj; try (intros selection shape); apply Hread; intros d; reflexivity.
  - intros t. split; [|intros schema_id]; unfold schema_names, table_names, list_schemas, list_tables; rewrite <- !list_fmap_compose.
    + by apply (select_by _ _ schema_key
        (fun k => visible t {| v_begin := k.1.1.1; v_end := k.1.1.2; v_row := tt |}) (fun k => (k.1.2, k.2))).
    + by apply (select_by _ _ table_key
        (fun k => (k.1.2 =? schema_id) && visible t {| v_begin := k.1.1.1.1; v_end := k.1.1.1.2; v_row := tt |})
        (fun k => (k.1.1.2, k.2))).
  - unfold get_current_snapshot. by rewrite Hs.
  - intros -> Hl. unfold migrate, leave in E. unfold writer_new.
    destruct (catalog_state debug_str (Some db)) as [state|e] eqn:Es; [|done].
    assert (Hup : (forall name, state <> OtherLayout name) -> upgrade_and_stamp db = (Returns (Ok tt), db') ->
              catalog_state debug_str (Some db') = Ok Current).
    { intros Ho Eu. replace db' with (upgrade_and_stamp db).2 by by rewrite Eu. apply upgraded_current; [|by rewrite Eu].
      pose proof (not_other_layout db state Es Ho) as Hn. apply Forall_forall. intros row Hin.
      rewrite Forall_forall in Hl, Hn. by split; auto. }
    destruct state; try done; cbn [require_migratable] in E.
    + injection E as <-. by rewrite Es.
    + rewrite Hup; [done|done|]. destruct (upgrade_and_stamp db). cbn in E. congruence.
    + injection E as <-. by rewrite Es.
Qed.
End migrations.

(** ** A sample catalog

    The smallest instances of the interfaces, and a catalog with one table of two files, the
    first with a delete file, for concrete evaluations. *)

Definition sample_values : @InlineValues counted_batches := {|
  Cell := Z;
  batch_schema := fun _ => [(lit "id", Int64, true)];
  value_is_null := fun _ _ _ => false;
  encode_duckdb_value := fun _ _ row _ => Ok (Z.of_nat row);
  snapshot_cell := fun _ s => s;
  inlined_column_stats := fun _ _ _ => Ok [];
|}.
Definition sample_parser : SortParser := {| visit_columns := fun _ => None |}.
#[local] Existing Instance counted_batches.
#[local] Existing Instance sample_values.
#[local] Existing Instance sample_parser.

Definition new_catalog : Db := default (empty_db 0) (initialize_schema id (fun _ => []) 0 None).2.

Definition sample_columns : list ColumnDef :=
  [{| cd_name := "id"; cd_ducklake_type := "int64"; cd_is_nullable := true; cd_data_type := Int64;
      cd_initial_default := None; cd_default_value := None; cd_default_value_type := None;
      cd_default_value_dialect := None; cd_catalog_nodes := None |}].

Definition sample_file (path : str) (rows : Z) : DataFileInfo := {|
  df_path := path; df_path_is_relative := true; df_file_size_bytes := 100; df_footer_size := Some 10;
  df_record_count := rows; df_column_stats := []; df_partition_id := None; df_partition_values := [];
  df_owner_catalog_id := None; df_row_id_start := Assign; df_row_id_floor := None |}.

Definition sample_setup : Db := (run (begin_write_transaction "main" "events" sample_columns Append) new_catalog).2.
Definition append_file (first : bool) (path : str) (base : Z) (db : Db) : Db :=
  (run (register_data_file None first 1 "main" "events" (sample_file path 3) Append base sample_columns [1]) db).2.
Definition sample_delete : DeleteFileInfo := {|
  del_path := "a-delete.parquet"; del_path_is_relative := true; del_file_size_bytes := 50; del_footer_size := Some 5;
  del_delete_count := 1; del_owner_catalog_id := None; del_deleted_positions := Some [2] |}.
Definition sample_catalog : Db :=
  (run (set_delete_file 1 0 None 2 sample_delete)
     (append_file false "b.parquet" 1 (append_file true "a.parquet" 0 sample_setup))).2.

(** A catalog of an earlier release: no version, no counters, and a schema path without its
    slash. *)
Definition legacy_catalog : Db :=
  on_schemas (fmap (with_row (fun row => {| sch_id := sch_id row; sch_name := sch_name row; sch_path := "main";
                                            sch_path_is_relative := true |})))
    (on_metadata (fun _ => [{| m_key := "data_path"; m_value := "s3://lake"; m_scope := None; m_scope_id := None |}])
       sample_catalog).


Lemma upgrade_is_idempotent_witness :
  upgrade_and_stamp legacy_catalog = (Returns (Ok tt), (upgrade_and_stamp legacy_catalog).2)
  /\ upgrade_and_stamp (upgrade_and_stamp legacy_catalog).2 = (Returns (Ok tt), (upgrade_and_stamp legacy_catalog).2)
  /\ sch_path <$> (v_row <$> t_schemas (upgrade_and_stamp legacy_catalog).2) = [lit "main/"].
Proof.
  split; [vm_compute; reflexivity|]. split; [|vm_compute; reflexivity].
  apply (upgrade_is_idempotent legacy_catalog). vm_compute. reflexivity.
Defined.

Lemma migration_keeps_data_witness :
  let migrated := default legacy_catalog (migrate id (fun _ => []) (Some legacy_catalog)).2 in
  migrate id (fun _ => []) (Some legacy_catalog) = (Returns (Ok tt), Some migrated)
  /\ get_table_files_for_select 1 3 migrated = get_table_files_for_select 1 3 legacy_catalog
  /\ length (get_table_files_for_select 1 3 legacy_catalog) = 2%nat
  /\ writer_new id (fun _ => []) (Some legacy_catalog) <> Ok tt
  /\ writer_new id (fun _ => []) (Some migrated) = Ok tt.
Proof.
  intros migrated. assert (E : migrate id (fun _ => []) (Some legacy_catalog) = (Returns (Ok tt), Some migrated))
    by (vm_compute; reflexivity).
  destruct (migration_keeps_data id (fun _ => []) legacy_catalog (Returns (Ok tt)) migrated E) as (Hr & _ & _ & Hw).
  split; [exact E|]. split; [exact (proj1 (proj2 (Hr 1 3)))|]. split; [vm_compute; reflexivity|]. split; [vm_compute; discriminate|].
  apply Hw; [reflexivity|]. constructor; [|constructor]. intros Hk. reflexivity.
Defined.

