(* ===== verification/CatalogIds.v ===== *)
(** * Reservations of catalog and file ids

    What [reserve_ids_of] of [metadata_writer_duckdb.rs] gives: ids above those in use, past
    the newest snapshot's watermark and past the counter kept in [ducklake_metadata]. *)

From S2P Require Import Prelude RustStd Arrow StatsOrder StatsRollup WriterTypes DuckdbCast ChangeLedger Conflicts PathResolver Partition RowIds WriterChecks Types ColumnTrees SortSpec InlinedTypes CatalogDb CatalogSnapshots CatalogTables CatalogCommits CatalogAdmin CatalogReads CatalogHistory CatalogInit.

Lemma cast_show n : in_i64 n = true -> cast_bigint (show_Z n) = Some n.
Proof.
  intros Hn. unfold cast_bigint. rewrite simple_cast_show; [done|auto with ducklake|].
  unfold in_i64 in Hn. apply DuckdbCast.fits_spec. apply andb_true_iff in Hn as [H1%Z.leb_le H2%Z.leb_le]. exact (conj H1 H2).
Qed.

Section ids.
Context `{InlineValues}.

(** The value of a counter: that of its first row. *)
Definition counter_row (key : str) (db : Db) : option MetadataRow := find_first (is_counter key) (t_metadata db).
Definition counter_value (key : str) (db : Db) : option Z := row ← counter_row key db; cast_bigint (m_value row).

(** A database but for the tables a reservation writes. *)
Definition bare (db : Db) : Db := on_metadata (fun _ => []) (on_sequences (fun _ => []) db).

#[global] Instance bare_reserves b : Reserves (fun db => bare db = b).
Proof. split; intros f db Hd; exact Hd. Qed.

Lemma updated_counter key (f : Z -> Z) rows rows' :
  mapM_result (fun row =>
    if is_counter key row then
      let? n := cast_value row in
      if in_i64 (f n) then Ok (with_value (show_Z (f n)) row) else Err (External "out of range")
    else Ok row) rows = Ok rows' ->
  match find_first (is_counter key) rows with
  | Some row => exists n, cast_bigint (m_value row) = Some n /\ in_i64 (f n) = true
                /\ find_first (is_counter key) rows' = Some (with_value (show_Z (f n)) row)
  | None => find_first (is_counter key) rows' = None
  end.
Proof.
  revert rows'. induction rows as [|row rows IH]; intros rows' E; [by injection E as <-|].
  cbn [mapM_result find_first] in E |- *. destruct (is_counter key row) eqn:Ec.
  - unfold cast_value, ok_or in E. destruct (cast_bigint (m_value row)) as [n|]; [|done]. cbn in E.
    destruct (in_i64 (f n)) eqn:Ei; [|done]. destruct (mapM_result _ rows) as [ys|]; [|done]. injection E as <-.
    exists n. split_and!; [done|done|]. cbn [find_first]. unfold is_counter, with_value in *. cbn. by rewrite Ec.
  - destruct (mapM_result _ rows) as [ys|]; [|done]. injection E as <-. cbn [find_first]. rewrite Ec. by apply IH.
Qed.

Lemma update_counter_ok key f db last db' :
  update_counter key f db = Returns (Ok (last, db')) ->
  last = f <$> counter_value key db /\ counter_value key db' = last
  /\ (last = None -> counter_row key db = None /\ counter_row key db' = None).
Proof.
  unfold update_counter. intros E. apply bind_ok in E as (rows & db1 & [= <- <-] & E).
  apply bind_ok in E as (rows' & db1 & E1 & E). unfold lift in E1.
  destruct (mapM_result _ (t_metadata db)) as [ys|] eqn:Em; [|done]. injection E1 as <- <-.
  apply bind_ok in E as ([] & db1 & E1 & E). injection E1 as <-. apply updated_counter in Em.
  unfold counter_value, counter_row. destruct (find_first (is_counter key) (t_metadata db)) as [row|].
  - destruct Em as (n & Hn & Hi & Hf). rewrite Hf in E. apply bind_ok in E as (m & db1 & E1 & E).
    unfold lift, cast_value in E1. cbn [m_value with_value] in E1. rewrite cast_show in E1 by done.
    injection E1 as <- <-. injection E as <- <-. cbn [mbind option_bind fmap option_fmap option_map]. rewrite Hn.
    split_and!; [done| |done]. tables. rewrite Hf. cbn [mbind option_bind m_value with_value]. by rewrite cast_show.
  - rewrite Em in E. injection E as <- <-. split_and!; [done| |]; tables; by rewrite Em.
Qed.

(** The ids an allocator may not give again: those in use, those below the newest snapshot's
    watermark, and those its counter has passed. *)
Definition taken_below (a : IdAllocator) (first : Z) (db : Db) : Prop :=
  (forall id, id ∈ ids_in_use a db -> id < first)
  /\ (forall w, head_watermark a db = Some w -> w <= first)
  /\ (forall c, counter_value (allocator_key a) db = Some c -> c < first).

Definition id_floor (a : IdAllocator) (db : Db) : Z := Z.max (below_watermark a db) (max_id a db).

Lemma below_floor a db first :
  id_floor a db < first ->
  (forall id, id ∈ ids_in_use a db -> id < first) /\ (forall w, head_watermark a db = Some w -> w <= first).
Proof.
  unfold id_floor, max_id, below_watermark. intros Hf. split.
  - intros id (m & Hm & Hle)%max_list_elem. rewrite Hm in Hf. cbn in Hf. lia.
  - intros w Hw. rewrite Hw in Hf. cbn in Hf. lia.
Qed.

Lemma counter_seeded a db db' :
  counter_row (allocator_key a) db = None -> seed_id_allocator a db = Returns (Ok (tt, db')) ->
  counter_value (allocator_key a) db' = Some (id_floor a db) /\ bare db' = bare db.
Proof.
  intros Hc E. destruct (keeps_seed_id_allocator (P := fun d => bare d = bare db) a db tt db' eq_refl E) as [Hb _].
  split; [|exact Hb]. unfold seed_id_allocator in E. apply bind_ok in E as (ex & db1 & [= <- <-] & E).
  replace (existsb _ _) with false in E.
  2:{ symmetry. apply existsb_false_iff. by apply find_first_none. }
  cbn [negb when] in E. apply bind_ok in E as (value & db1 & [= <- <-] & E).
  apply bind_ok in E as (value & db1 & E1 & E). unfold bigint in E1. destruct (in_i64 _) eqn:Ei in E1; [|done].
  injection E1 as <- <-. injection E as <-. unfold counter_value, counter_row. tables.
  assert (Hfind : forall l row, find_first (is_counter (allocator_key a)) l = None ->
            is_counter (allocator_key a) row = true -> find_first (is_counter (allocator_key a)) (l ++ [row]) = Some row).
  { intros l row Hl Hr. induction l as [|r l IH]; cbn in *; [by rewrite Hr|].
    destruct (is_counter _ r); [done|]. by apply IH. }
  rewrite Hfind; [|exact Hc|by destruct a]. cbn. rewrite cast_show by done. unfold id_floor. f_equal. lia.
Qed.

Lemma restart_keeps_metadata a last db r db' :
  restart_legacy_sequences a last db = Returns (Ok (r, db')) -> t_metadata db' = t_metadata db.
Proof.
  assert (Hk : keeps (fun d => t_metadata d = t_metadata db) (restart_legacy_sequences a last) anything).
  { unfold restart_legacy_sequences. apply (keeps_bind _ _ anything); [keep|]. intros behind _.
    apply keeps_for_each. intros [] _. apply keeps_when. intros _. apply (keeps_bind _ _ anything); [keep|].
    intros start _. by apply keeps_execute. }
  intros E. by destruct (Hk db r db' eq_refl E).
Qed.

(** The counter after a reservation of [n] ids, and the floor it started from. *)
Definition counted (a : IdAllocator) (n last : Z) (db db' : Db) : Prop :=
  Z.max (default (id_floor a db) (counter_value (allocator_key a) db)) (id_floor a db) + n = last
  /\ counter_value (allocator_key a) db' = Some last.

Lemma reserve_ids_of_ok a n db first db' :
  reserve_ids_of a n db = Returns (Ok (first, db')) ->
  counted a n (first + n - 1) db db' /\ bare db' = bare db.
Proof.
  intros E. destruct (keeps_reserve_ids_of (P := fun d => bare d = bare db) a n db first db' eq_refl E) as [Hb _].
  split; [|exact Hb]. unfold reserve_ids_of in E. cbv zeta in E.
  apply bind_ok in E as (try1 & db1 & E1 & E). apply bind_ok in E1 as (floor & db0 & [= <- <-] & E1).
  destruct (keeps_update_counter (P := fun d => bare d = bare db) _ _ db try1 db1 eq_refl E1) as [Hb1 _].
  fold (id_floor a db) in E1. apply update_counter_ok in E1 as (Hr1 & Hv1 & Hn1).
  apply bind_ok in E as (last & db2 & E2 & E). apply bind_ok in E as ([] & db3 & E3 & E).
  assert (Hkeep : counter_value (allocator_key a) db3 = counter_value (allocator_key a) db2).
  { unfold counter_value, counter_row. by rewrite (restart_keeps_metadata a last db2 tt db3 E3). }
  unfold rust_i64 in E. destruct (in_i64 _) in E; [|done]. injection E as <- <-.
  replace (last - n + 1 + n - 1) with last by lia. unfold counted. rewrite Hkeep.
  destruct try1 as [last1|].
  - injection E2 as <- <-. rewrite Hv1. split; [|done].
    destruct (counter_value _ db) as [c|]; [|done]. cbn in Hr1 |- *. injection Hr1 as ->. done.
  - apply bind_ok in E2 as ([] & db4 & E4 & E2).
    destruct (Hn1 eq_refl) as [Hrow Hrow1].
    assert (Hfloor : forall d, bare d = bare db -> id_floor a d = id_floor a db).
    { intros d Hd. unfold id_floor, below_watermark, max_id, head_watermark, ids_in_use.
      change (t_snapshots d) with (t_snapshots (bare d)). change (t_snapshots db) with (t_snapshots (bare db)).
      destruct a.
      - change (t_schemas d) with (t_schemas (bare d)). change (t_tables d) with (t_tables (bare d)).
        change (t_view_ids d) with (t_view_ids (bare d)). change (t_partition_info d) with (t_partition_info (bare d)).
        change (t_sort_info d) with (t_sort_info (bare d)). change (t_macro_ids d) with (t_macro_ids (bare d)).
        rewrite Hd. done.
      - change (t_data_files d) with (t_data_files (bare d)). change (t_delete_files d) with (t_delete_files (bare d)).
        rewrite Hd. done. }
    destruct (counter_seeded a db1 db4 Hrow1 E4) as [Hseed Hb4].
    apply bind_ok in E2 as (try2 & db5 & E5 & E2). apply bind_ok in E5 as (floor & db0 & [= <- <-] & E5).
    fold (id_floor a db4) in E5. apply update_counter_ok in E5 as (Hr5 & Hv5 & _).
    rewrite Hseed in Hr5. cbn in Hr5. subst try2. injection E2 as <- <-. rewrite Hv5. split; [|done].
    unfold counter_value. rewrite Hrow. cbn. rewrite (Hfloor db1), (Hfloor db4); [done|by rewrite Hb4|exact Hb1].
Qed.

(** C8. Reserved ids are new: the ids a reservation returns are above every id the catalog
    holds, reach no id the newest snapshot's watermark covers and none the counter had
    given, and a later reservation starts past them, whatever else the transaction did to
    the catalog meanwhile. A reservation writes nothing but the counter and the sequences
    of older releases. *)
Theorem reserved_ids_are_new a n db first db' :
  0 < n -> reserve_ids_of a n db = Returns (Ok (first, db')) ->
  taken_below a first db /\ bare db' = bare db
  /\ (forall m db1 first1 db2, t_metadata db1 = t_metadata db' -> 0 < m ->
       reserve_ids_of a m db1 = Returns (Ok (first1, db2)) -> first + n <= first1).
Proof.
  intros Hn E. apply reserve_ids_of_ok in E as [[Hl Hc] Hb]. split_and!; [|exact Hb|].
  - destruct (below_floor a db first) as [H1 H2]; [lia|]. split_and!; [exact H1|exact H2|].
    intros c Hcv. rewrite Hcv in Hl. cbn in Hl. lia.
  - intros m db1 first1 db2 Hm Hpos E. apply reserve_ids_of_ok in E as [[Hl1 _] _].
    unfold counter_value, counter_row in Hl1, Hc. rewrite Hm, Hc in Hl1. cbn in Hl1. lia.
Qed.
End ids.

#[local] Existing Instance counted_batches.
#[local] Existing Instance sample_values.

Lemma reserved_ids_are_new_witness :
  exists db', reserve_ids_of IFile 2 sample_catalog = Returns (Ok (3, db')) /\ taken_below IFile 3 sample_catalog
  /\ 2 ∈ ids_in_use IFile sample_catalog.
Proof.
  eexists. assert (E : reserve_ids_of IFile 2 sample_catalog = Returns (Ok (3, _))) by (vm_compute; reflexivity).
  split; [exact E|]. split; [|by apply list_elem_of_In; vm_compute; auto].
  exact (proj1 (reserved_ids_are_new IFile 2 sample_catalog 3 _ eq_refl E)).
Defined.
