(* ===== verification/CatalogViews.v ===== *)
(** * Reads as functions of a snapshot's view

    The reads of [CatalogReads] at a snapshot depend on the catalog through the snapshot's
    view ([CatalogHistory]): catalogs with the same view at [t] answer them alike. *)

From S2P Require Import Prelude RustStd Arrow StatsOrder StatsRollup WriterTypes DuckdbCast ChangeLedger Conflicts PathResolver Partition RowIds WriterChecks Types ColumnTrees SortSpec InlinedTypes CatalogDb CatalogSnapshots CatalogTables CatalogCommits CatalogAdmin CatalogReads CatalogHistory.

(** ** Reads are functions of the view *)

Lemma select_select {A} (p q : A -> bool) l : (forall a, p a = true -> q a = true) -> select p (select q l) = select p l.
Proof.
  intros Hpq. induction l as [|a l IH]; [done|]. unfold select in *. cbn.
  destruct (q a) eqn:Eq; cbn; [by rewrite IH|]. rewrite IH. destruct (p a) eqn:Ep; [|done].
  specialize (Hpq a Ep). congruence.
Qed.

Lemma seen_where {A} t (p : versioned A -> bool) (q : Z * A -> bool) l :
  (forall w, p w = q (v_begin w, v_row w)) ->
  (fun w => (v_begin w, v_row w)) <$> select (fun w => p w && visible t w) l = select q (seen t l).
Proof.
  intros Hpq. induction l as [|w l IH]; [done|]. unfold seen, select in *. cbn. rewrite Hpq.
  destruct (visible t w); cbn; [|rewrite andb_false_r; exact IH].
  rewrite andb_true_r. destruct (q _); cbn; by rewrite IH.
Qed.

Lemma insert_by_fmap {A B} (f : A -> B) (key : B -> Z) a l :
  insert_by key (f a) (f <$> l) = f <$> insert_by (fun x => key (f x)) a l.
Proof. induction l as [|b l IH]; [done|]. cbn. destruct (_ <=? _); cbn; [by rewrite IH|done]. Qed.

Lemma order_by_fmap {A B} (f : A -> B) (key : B -> Z) l :
  order_by key (f <$> l) = f <$> order_by (fun x => key (f x)) l.
Proof.
  unfold order_by. change (@nil B) with (f <$> (@nil A)). generalize (@nil A) as acc.
  induction l as [|a l IH]; intros acc; [done|]. cbn. by rewrite insert_by_fmap, IH.
Qed.

Lemma order_by_ext {A} (key key' : A -> Z) l : (forall a, key a = key' a) -> order_by key l = order_by key' l.
Proof.
  intros Hk. unfold order_by. generalize (@nil A) as acc. induction l as [|a l IH]; intros acc; [done|]. cbn.
  rewrite IH. f_equal. clear IH. induction acc as [|b acc IH]; [done|]. cbn. rewrite !Hk, IH. done.
Qed.

Lemma bind_fmap_list {A B C} (f : A -> B) (g : B -> list C) l : (f <$> l) ≫= g = (a ← l; g (f a)).
Proof. induction l as [|a l IH]; [done|]. cbn. by rewrite IH. Qed.

Lemma bind_ext_list {A C} (g g' : A -> list C) l : (forall a, a ∈ l -> g a = g' a) -> l ≫= g = l ≫= g'.
Proof.
  intros Hg. induction l as [|a l IH]; [done|]. cbn. rewrite (Hg a) by set_solver. f_equal. apply IH. set_solver.
Qed.

Lemma bind_select {A C} (p : A -> bool) (g : A -> list C) l :
  (forall a, a ∈ l -> p a = false -> g a = []) -> l ≫= g = select p l ≫= g.
Proof.
  intros Hg. induction l as [|a l IH]; [done|]. unfold select in *. cbn. rewrite IH by set_solver.
  destruct (p a) eqn:E; [done|]. by rewrite (Hg a) by set_solver.
Qed.

Lemma fmap_where {A C} t (g : versioned A -> C) (g' : Z * A -> C) (p : versioned A -> bool) (q : Z * A -> bool) l :
  (forall w, p w = q (v_begin w, v_row w)) -> (forall w, g w = g' (v_begin w, v_row w)) ->
  g <$> select (fun w => p w && visible t w) l = g' <$> select q (seen t l).
Proof.
  intros Hpq Hg. rewrite <- (seen_where t p q) by done. rewrite <- list_fmap_compose. by apply list_fmap_ext.
Qed.

Section reads.
Context `{InlineValues} `{SortParser} (t : Z) (db db' : Db).

Lemma same_columns table_id : seen t (t_columns db') = seen t (t_columns db) ->
  table_columns table_id t db' = table_columns table_id t db.
Proof.
  intros Hs. unfold table_columns.
  assert (Hx : forall d, v_row <$> order_by (fun v => co_order (v_row v))
      (select (fun v => of_table co_table_id table_id v && visible t v) (t_columns d))
    = snd <$> order_by (fun row => co_order row.2)
        (select (fun row => co_table_id row.2 =? table_id) (seen t (t_columns d)))).
  { intros d. rewrite <- (seen_where t (of_table co_table_id table_id)) by done.
    rewrite order_by_fmap, <- list_fmap_compose. done. }
  by rewrite !Hx, Hs.
Qed.

Lemma same_schema_version table_id b :
  b <= t -> select (fun row => sv_begin row <=? t) (t_schema_versions db')
            = select (fun row => sv_begin row <=? t) (t_schema_versions db) ->
  file_schema_version table_id b db' = file_schema_version table_id b db.
Proof.
  intros Hb Hs. unfold file_schema_version.
  assert (Hx : forall d, select (fun row => (sv_table_id row =? table_id) && (sv_begin row <=? b)) (t_schema_versions d)
    = select (fun row => (sv_table_id row =? table_id) && (sv_begin row <=? b))
        (select (fun row => sv_begin row <=? t) (t_schema_versions d))).
  { intros d. rewrite select_select; [done|]. intros row. rewrite !andb_true_iff. lia. }
  by rewrite !Hx, Hs.
Qed.

Lemma same_joined_deletes table_id id : seen t (t_delete_files db') = seen t (t_delete_files db) ->
  joined_deletes table_id t id db' = joined_deletes table_id t id db.
Proof.
  intros Hs. set (p := fun v => of_table x_data_file_id id v && of_table x_table_id table_id v).
  assert (Hx : forall d, joined_deletes table_id t id d
    = match select (fun row => (x_data_file_id row.2 =? id) && (x_table_id row.2 =? table_id)) (seen t (t_delete_files d)) with
      | [] => [None]
      | rows => (fun row => Some row.2) <$> rows
      end).
  { intros d. unfold joined_deletes. rewrite <- (seen_where t p) by done. unfold p.
    destruct (select _ (t_delete_files d)); [done|]. cbn. f_equal. rewrite <- list_fmap_compose. done. }
  by rewrite !Hx, Hs.
Qed.

Lemma take_values_ext values values' files : forall taken,
  (forall file, file ∈ files -> values (tfl_data_file_id file) = values' (tfl_data_file_id file)) ->
  take_partition_values taken values files = take_partition_values taken values' files.
Proof.
  induction files as [|file files IH]; intros taken Hv; [done|]. cbn.
  rewrite (Hv file) by set_solver. f_equal. apply IH. set_solver.
Qed.

(** The rows of the visible files of a table. *)
Lemma same_files table_id :
  seen t (t_data_files db') = seen t (t_data_files db) -> seen t (t_delete_files db') = seen t (t_delete_files db) ->
  select (fun row => sv_begin row <=? t) (t_schema_versions db')
  = select (fun row => sv_begin row <=? t) (t_schema_versions db) ->
  select (fun row => among (seen_ids d_id (seen t (t_data_files db'))) (pv_data_file_id row)) (t_file_partition_values db')
  = select (fun row => among (seen_ids d_id (seen t (t_data_files db))) (pv_data_file_id row)) (t_file_partition_values db) ->
  get_table_files_for_select table_id t db' = get_table_files_for_select table_id t db.
Proof.
  intros Hf Hx Hsv Hpv. rewrite Hf in Hpv. unfold get_table_files_for_select.
  set (file_of := fun d (row : Z * DataFileRow) =>
    delete ← joined_deletes table_id t (d_id row.2) d;
    [table_file t {| v_begin := row.1; v_end := None; v_row := row.2 |} delete d]).
  assert (Hl : forall d, (v ← select (fun v => of_table d_table_id table_id v && visible t v) (t_data_files d);
      delete ← joined_deletes table_id t (d_id (v_row v)) d; [table_file t v delete d])
    = (row ← select (fun row => d_table_id row.2 =? table_id) (seen t (t_data_files d)); file_of d row)).
  { intros d. rewrite <- (seen_where t (of_table d_table_id table_id)) by done. by rewrite bind_fmap_list. }
  assert (Hfiles : (row ← select (fun row => d_table_id row.2 =? table_id) (seen t (t_data_files db)); file_of db' row)
    = (row ← select (fun row => d_table_id row.2 =? table_id) (seen t (t_data_files db)); file_of db row)).
  { apply bind_ext_list. intros row [_ Hin]%elem_of_select. unfold file_of. rewrite same_joined_deletes by done.
    apply bind_ext_list. intros delete _. unfold table_file. cbn. rewrite same_schema_version; [done| |done].
    unfold seen in Hin. apply list_elem_of_fmap in Hin as (w & -> & [Hv _]%elem_of_select). cbn.
    unfold visible in Hv. lia. }
  rewrite !Hl, Hf, Hfiles. apply take_values_ext. intros file Hin.
  apply list_elem_of_bind in Hin as (row & Hin & [_ Hrow]%elem_of_select).
  unfold file_of in Hin. apply list_elem_of_bind in Hin as (delete & ->%list_elem_of_singleton & _). cbn [tfl_data_file_id table_file v_row].
  unfold file_partition_values.
  assert (Ha : forall d, select (fun r => (pv_table_id r =? table_id) && (pv_data_file_id r =? d_id row.2)) (t_file_partition_values d)
    = select (fun r => (pv_table_id r =? table_id) && (pv_data_file_id r =? d_id row.2))
        (select (fun r => among (seen_ids d_id (seen t (t_data_files db))) (pv_data_file_id r)) (t_file_partition_values d))).
  { intros d. rewrite select_select; [done|]. intros r [_ Hr%Z.eqb_eq]%andb_true_iff. apply among_spec. rewrite Hr.
    by apply (list_elem_of_fmap_2 (fun row => d_id row.2)). }
  by rewrite !Ha, Hpv.
Qed.

Lemma same_file_stats table_id :
  seen t (t_data_files db') = seen t (t_data_files db) ->
  select (fun row => among (seen_ids d_id (seen t (t_data_files db'))) (fs_data_file_id row)) (t_file_stats db')
  = select (fun row => among (seen_ids d_id (seen t (t_data_files db))) (fs_data_file_id row)) (t_file_stats db) ->
  get_file_column_stats table_id t db' = get_file_column_stats table_id t db.
Proof.
  intros Hf Hs. rewrite Hf in Hs. set (listed_file := fun row => among (seen_ids d_id (seen t (t_data_files db))) (fs_data_file_id row)).
  set (g := fun d (stat : FileStatRow) =>
    if fs_table_id stat =? table_id then
      _ ← select (fun row => (d_id row.2 =? fs_data_file_id stat) && (d_table_id row.2 =? fs_table_id stat))
            (seen t (t_data_files d));
      [(fs_data_file_id stat, fs_stat stat)]
    else []).
  assert (Hx : forall d, get_file_column_stats table_id t d = (stat ← t_file_stats d; g d stat)).
  { intros d. unfold get_file_column_stats. induction (t_file_stats d) as [|stat l IH]; [done|].
    unfold select in IH |- *. cbn. unfold g at 1. destruct (fs_table_id stat =? table_id); [|exact IH].
    cbn. rewrite IH. f_equal.
    rewrite <- (seen_where t (fun v => of_table d_id (fs_data_file_id stat) v && of_table d_table_id (fs_table_id stat) v))
      by done. by rewrite bind_fmap_list. }
  assert (Hg : forall d, seen t (t_data_files d) = seen t (t_data_files db) ->
            (stat ← t_file_stats d; g d stat) = (stat ← select listed_file (t_file_stats d); g db stat)).
  { intros d Hd. rewrite <- bind_select.
    - apply bind_ext_list. intros stat _. unfold g. by rewrite Hd.
    - intros stat _ Hn. unfold g. destruct (fs_table_id stat =? table_id); [|done].
      rewrite (select_none _ (seen t (t_data_files db))); [done|].
      apply Forall_forall. intros row Hrow. destruct (d_id row.2 =? fs_data_file_id stat) eqn:E; [|done].
      apply Z.eqb_eq in E. assert (listed_file stat = true); [|congruence]. apply among_spec. rewrite <- E.
      by apply (list_elem_of_fmap_2 (fun row => d_id row.2)). }
  rewrite !Hx, !Hg by done. unfold listed_file. by rewrite Hs.
Qed.

Lemma same_partition_rows table_id :
  seen t (t_partition_info db') = seen t (t_partition_info db) ->
  select (fun row => among (seen_ids pi_id (seen t (t_partition_info db'))) (pc_partition_id row)) (t_partition_columns db')
  = select (fun row => among (seen_ids pi_id (seen t (t_partition_info db))) (pc_partition_id row)) (t_partition_columns db) ->
  partition_rows (fun v => of_table pi_table_id table_id v && visible t v) db'
  = partition_rows (fun v => of_table pi_table_id table_id v && visible t v) db.
Proof.
  intros Hp Hc. rewrite Hp in Hc. unfold partition_rows. f_equal.
  set (g := fun d (row : Z * PartitionInfoRow) =>
    pc ← select (fun pc => (pc_partition_id pc =? pi_id row.2) && (pc_table_id pc =? pi_table_id row.2)) (t_partition_columns d);
    [(pi_id row.2, pc_key_index pc, pc_column_id pc, pc_transform pc)]).
  assert (Hx : forall d, (pi ← select (fun v => of_table pi_table_id table_id v && visible t v) (t_partition_info d);
      pc ← select (fun pc => (pc_partition_id pc =? pi_id (v_row pi)) && (pc_table_id pc =? pi_table_id (v_row pi)))
             (t_partition_columns d);
      [(pi_id (v_row pi), pc_key_index pc, pc_column_id pc, pc_transform pc)])
    = (row ← select (fun row => pi_table_id row.2 =? table_id) (seen t (t_partition_info d)); g d row)).
  { intros d. rewrite <- (seen_where t (of_table pi_table_id table_id)) by done. by rewrite bind_fmap_list. }
  rewrite !Hx, Hp. apply bind_ext_list. intros row [_ Hin]%elem_of_select. unfold g. f_equal.
  rewrite <- (select_select _ (fun r => among (seen_ids pi_id (seen t (t_partition_info db))) (pc_partition_id r)) (t_partition_columns db')),
    <- (select_select _ (fun r => among (seen_ids pi_id (seen t (t_partition_info db))) (pc_partition_id r)) (t_partition_columns db)).
  - by rewrite Hc.
  - intros pc [E%Z.eqb_eq _]%andb_true_iff. apply among_spec. rewrite E. by apply (list_elem_of_fmap_2 (fun row => pi_id row.2)).
  - intros pc [E%Z.eqb_eq _]%andb_true_iff. apply among_spec. rewrite E. by apply (list_elem_of_fmap_2 (fun row => pi_id row.2)).
Qed.

Lemma same_sort_spec table_id :
  seen t (t_sort_info db') = seen t (t_sort_info db) ->
  select (fun row => among (seen_ids si_id (seen t (t_sort_info db'))) (sx_sort_id row)) (t_sort_expressions db')
  = select (fun row => among (seen_ids si_id (seen t (t_sort_info db))) (sx_sort_id row)) (t_sort_expressions db) ->
  get_sort_spec table_id t db' = get_sort_spec table_id t db.
Proof.
  intros Hp Hc. rewrite Hp in Hc. unfold get_sort_spec, sort_rows. do 3 f_equal.
  set (g := fun d (row : Z * SortInfoRow) =>
    se ← select (fun se => (sx_sort_id se =? si_id row.2) && (sx_table_id se =? si_table_id row.2)) (t_sort_expressions d);
    [(si_id row.2, se)]).
  assert (Hx : forall d, (si ← select (fun v => of_table si_table_id table_id v && visible t v) (t_sort_info d);
      se ← select (fun se => (sx_sort_id se =? si_id (v_row si)) && (sx_table_id se =? si_table_id (v_row si)))
             (t_sort_expressions d);
      [(si_id (v_row si), se)])
    = (row ← select (fun row => si_table_id row.2 =? table_id) (seen t (t_sort_info d)); g d row)).
  { intros d. rewrite <- (seen_where t (of_table si_table_id table_id)) by done. by rewrite bind_fmap_list. }
  rewrite !Hx, Hp. apply bind_ext_list. intros row [_ Hin]%elem_of_select. unfold g. f_equal.
  rewrite <- (select_select _ (fun r => among (seen_ids si_id (seen t (t_sort_info db))) (sx_sort_id r)) (t_sort_expressions db')),
    <- (select_select _ (fun r => among (seen_ids si_id (seen t (t_sort_info db))) (sx_sort_id r)) (t_sort_expressions db)).
  - by rewrite Hc.
  - intros pc [E%Z.eqb_eq _]%andb_true_iff. apply among_spec. rewrite E. by apply (list_elem_of_fmap_2 (fun row => si_id row.2)).
  - intros pc [E%Z.eqb_eq _]%andb_true_iff. apply among_spec. rewrite E. by apply (list_elem_of_fmap_2 (fun row => si_id row.2)).
Qed.

Lemma same_inlined_deletes table_id :
  vw_inlined_deletes (view false t db') = vw_inlined_deletes (view false t db) ->
  get_inlined_deletes table_id t db' = get_inlined_deletes table_id t db.
Proof.
  intros Hs. unfold get_inlined_deletes. destruct (inlined_delete_table_name table_id) as [name|]; [|done]. cbn.
  assert (Hx : forall d, match t_inlined_deletes d !! name with
      | None => Ok []
      | Some rows =>
          let? rows := mapM_result (fun row =>
            let? row_id := ok_or (i_row_id row) (External "invalid column type Null") in Ok (i_file_id row, row_id))
            (seen_deletes t rows) in
          Ok (order_by fst (order_by snd rows))
      end = match vw_inlined_deletes (view false t d) !! name with
      | None => Ok []
      | Some rows =>
          let? rows := mapM_result (fun row =>
            let? row_id := ok_or (i_row_id row) (External "invalid column type Null") in Ok (i_file_id row, row_id)) rows in
          Ok (order_by fst (order_by snd rows))
      end).
  { intros d. unfold view. cbn [vw_inlined_deletes]. rewrite lookup_omap.
    destruct (t_inlined_deletes d !! name) as [rows|]; [|done]. cbn [mbind option_bind].
    destruct (seen_deletes t rows); done. }
  unfold seen_deletes in Hx. by rewrite !Hx, Hs.
Qed.

(** What a scan shows of inlined rows: all of a version but its end. *)
Definition shown_rows (tables : result (list (str * list str * list (versioned InlinedRow))))
  : result (list (str * list str * list (Z * InlinedRow))) :=
  let? tables := tables in
  Ok ((fun table : str * list str * list (versioned InlinedRow) =>
         (table.1, (fun w => (v_begin w, v_row w)) <$> table.2)) <$> tables).

(** The order a scan lists rows in. *)
Definition scan_order (shape : InlinedReadShape) (rows : list (Z * InlinedRow)) : list (Z * InlinedRow) :=
  let by_row_id := order_by (fun row => n_row_id row.2) in
  match shape with
  | ShapeScan => by_row_id rows
  | ShapeMutation | ShapeChanges => order_by fst (by_row_id rows)
  | ShapeFlush => by_row_id (order_by fst rows)
  end.

Lemma shape_order_seen shape rows :
  (fun w => (v_begin w, v_row w)) <$> shape_order shape (VisibleAt t) rows
  = scan_order shape ((fun w => (v_begin w, v_row w)) <$> rows).
Proof. destruct shape; cbn; by rewrite !order_by_fmap. Qed.

Lemma insert_by_length {A} (key : A -> Z) a l : length (insert_by key a l) = S (length l).
Proof. induction l as [|b l IH]; [done|]. cbn. destruct (_ <=? _); cbn; [by rewrite IH|done]. Qed.

Lemma order_by_length {A} (key : A -> Z) l : length (order_by key l) = length l.
Proof.
  unfold order_by. cut (forall acc, length (fold_left (fun s a => insert_by key a s) l acc) = (length acc + length l)%nat).
  { intros Hc. by rewrite Hc. }
  induction l as [|a l IH]; intros acc; cbn; [lia|]. rewrite IH, insert_by_length. lia.
Qed.

Lemma scan_order_empty shape rows : is_empty (scan_order shape rows) = is_empty rows.
Proof.
  assert (Hl : length (scan_order shape rows) = length rows) by (destruct shape; cbn; by rewrite !order_by_length).
  destruct (scan_order shape rows), rows; done.
Qed.

(** The inlined rows of a table at [t], from the registered tables that show any. *)
Definition scanned (shape : InlinedReadShape) (table_id : Z) (d : Db) : list (str * list str * list (Z * InlinedRow)) :=
  row ← select (fun row => r_table_id row =? table_id)
          (select (fun row => bool_decide (is_Some (seen_inlined t d !! r_table_name row))) (t_registry d));
  if is_inlined_data_table (r_table_name row) then
    match seen_inlined t d !! r_table_name row with
    | Some (columns, rows) => [(r_table_name row, columns, scan_order shape rows)]
    | None => []
    end
  else [].

Lemma read_scanned shape table_id d :
  wf_inlined d -> shown_rows (read_inlined_rows table_id (VisibleAt t) shape d) = Ok (scanned shape table_id d).
Proof.
  intros [Hw3' Hw4].
  assert (Hw3 : forall name table, t_inlined_data d !! name = Some table ->
            is_ok (system_from_columns name (p_columns table)) = true) by (intros; by eapply Hw3'). clear Hw3'.
  unfold read_inlined_rows, registered_inlined_tables, scanned.
  set (body := fun name => _). unfold select.
  assert (Hreg : forall r, r ∈ t_registry d -> is_Some (t_inlined_data d !! r_table_name r)) by done. clear Hw4.
  induction (t_registry d) as [|r l IH]; [done|]. specialize (IH (fun r' Hr' => Hreg r' (list_elem_of_further _ _ _ Hr'))). cbn in IH |- *.
  destruct (Hreg r (list_elem_of_here _ _)) as [table Htable].
  assert (Hseen : seen_inlined t d !! r_table_name r
    = match seen t (p_rows table) with [] => None | rows => Some (p_columns table, rows) end).
  { unfold seen_inlined. by rewrite lookup_omap, Htable. }
  destruct (r_table_id r =? table_id) eqn:Ei; cbn.
  2:{ rewrite IH. f_equal. case_bool_decide; cbn; [by rewrite Ei|done]. }
  destruct (is_inlined_data_table (r_table_name r)) eqn:Ed; cbn.
  2:{ rewrite IH. f_equal. case_bool_decide; cbn; [|done]. by rewrite Ei; cbn; rewrite Ed. }
  unfold body at 1. rewrite Htable. cbn [ok_or result_bind].
  pose proof (Hw3 _ _ Htable) as Hok. destruct (system_from_columns _ _) as [system|]; [|done].
  cbn [result_bind]. unfold body in IH |- *. destruct (mapM_result _ _) as [tables|]; [|done].
  cbn [result_bind shown_rows] in IH |- *. injection IH as IH. f_equal. cbn [List.filter].
  change (select (selects (VisibleAt t)) (p_rows table)) with (select (visible t) (p_rows table)).
  cbn [snd]. rewrite Hseen.
  assert (He : is_empty (shape_order shape (VisibleAt t) (select (visible t) (p_rows table))) = is_empty (seen t (p_rows table))).
  { rewrite <- (scan_order_empty shape (seen t (p_rows table))). unfold seen. rewrite <- shape_order_seen.
    by destruct (shape_order _ _ _). }
  rewrite He. pose proof (shape_order_seen shape (select (visible t) (p_rows table))) as Ho.
  fold (seen t (p_rows table)) in Ho.
  destruct (seen t (p_rows table)) as [|x rows] eqn:Es; cbn [is_empty negb].
  - rewrite bool_decide_eq_false_2 by (by intros []). exact IH.
  - rewrite bool_decide_eq_true_2 by done. cbn [fmap list_fmap List.filter]. rewrite Ei. cbn [mbind list_bind].
    rewrite Ed, Hseen. cbn [fst snd]. rewrite Ho, IH. done.
Qed.

Lemma same_scanned shape table_id :
  seen_inlined t db' = seen_inlined t db ->
  select (fun row => bool_decide (is_Some (seen_inlined t db' !! r_table_name row))) (t_registry db')
  = select (fun row => bool_decide (is_Some (seen_inlined t db !! r_table_name row))) (t_registry db) ->
  scanned shape table_id db' = scanned shape table_id db.
Proof. intros Hs Hr. unfold scanned. rewrite Hr, Hs. done. Qed.

Lemma same_list_schemas : seen t (t_schemas db') = seen t (t_schemas db) -> list_schemas t db' = list_schemas t db.
Proof.
  intros Hs. assert (Hx : forall d, list_schemas t d = (fun row => schema_metadata row.2) <$> seen t (t_schemas d)).
  { intros d. unfold list_schemas, seen. by rewrite <- list_fmap_compose. }
  by rewrite !Hx, Hs.
Qed.

Lemma same_list_tables schema_id :
  seen t (t_tables db') = seen t (t_tables db) -> list_tables schema_id t db' = list_tables schema_id t db.
Proof.
  intros Hs. assert (Hx : forall d, list_tables schema_id t d
    = (fun row => table_metadata row.2) <$> select (fun row => tb_schema_id row.2 =? schema_id) (seen t (t_tables d)))
    by (intros d; by apply (fmap_where t)).
  by rewrite !Hx, Hs.
Qed.

Lemma fmap_head {A B} (f : A -> B) l : f <$> head l = head (f <$> l).
Proof. by destruct l. Qed.

Lemma same_schema_by_name name :
  seen t (t_schemas db') = seen t (t_schemas db) -> get_schema_by_name name t db' = get_schema_by_name name t db.
Proof.
  intros Hs. assert (Hx : forall d, get_schema_by_name name t d
    = head ((fun row => schema_metadata row.2) <$> select (fun row => str_eqb (sch_name row.2) name) (seen t (t_schemas d)))).
  { intros d. unfold get_schema_by_name. rewrite fmap_head. f_equal.
    by apply (fmap_where t (fun v => schema_metadata (v_row v)) _ (fun v => str_eqb (sch_name (v_row v)) name)). }
  by rewrite !Hx, Hs.
Qed.

Lemma existsb_select {A} (p : A -> bool) l : existsb p l = negb (is_empty (select p l)).
Proof. induction l as [|a l IH]; [done|]. unfold select in *. cbn. by destruct (p a). Qed.

Lemma same_table_by_name schema_id name :
  seen t (t_tables db') = seen t (t_tables db) ->
  get_table_by_name schema_id name t db' = get_table_by_name schema_id name t db
  /\ table_exists schema_id name t db' = table_exists schema_id name t db.
Proof.
  intros Hs. set (p := fun v => of_table tb_schema_id schema_id v && str_eqb (tb_name (v_row v)) name).
  set (found := fun d => (fun v => (v_begin v, v_row v)) <$> select (fun v => p v && visible t v) (t_tables d)).
  assert (Hf : found db' = found db).
  { unfold found. set (q := fun row : Z * TableRow => (tb_schema_id row.2 =? schema_id) && str_eqb (tb_name row.2) name).
    rewrite !(seen_where t p q) by done. by rewrite Hs. }
  assert (Hx : forall d, get_table_by_name schema_id name t d = head ((fun row => table_metadata row.2) <$> found d)
                         /\ table_exists schema_id name t d = negb (is_empty (found d))).
  { intros d. unfold get_table_by_name, table_exists, found. rewrite fmap_head, <- list_fmap_compose. split; [done|].
    rewrite existsb_select. fold p. by destruct (select _ (t_tables d)). }
  destruct (Hx db') as [-> ->], (Hx db) as [-> ->]. by rewrite Hf.
Qed.
End reads.

Lemma from_rows_spec rows safe safe' :
  (fun spec => (ps_partition_id spec, ps_columns spec)) <$> from_rows rows safe
  = (fun spec => (ps_partition_id spec, ps_columns spec)) <$> from_rows rows safe'.
Proof. destruct rows as [|[[[id index] column] transform] rows]; done. Qed.
