(* ===== verification/CatalogTimeTravel.v ===== *)
(** * Committed snapshots do not change

    Each operation of the DuckDB writer that does not rewrite history keeps the view of every
    older snapshot, and so does every sequence of them ([step]). The reads at a committed
    snapshot are the same after any such history. *)

From S2P Require Import Prelude RustStd Arrow StatsOrder StatsRollup WriterTypes DuckdbCast ChangeLedger Conflicts PathResolver Partition RowIds WriterChecks Types ColumnTrees SortSpec InlinedTypes CatalogDb CatalogSnapshots CatalogTables CatalogCommits CatalogAdmin CatalogReads CatalogHistory CatalogInit CatalogIds CatalogViews.

Section operations.
Context `{InlineValues} `{SortParser}.

(** ** Each operation keeps older snapshots *)

Section at_snapshot.
Context {listed : bool} {t : Z} {v : View} {h : Z}.
Abbreviation keeps := (keeps (holds listed t v h)).
Abbreviation commits := (commits (listed := listed) (t := t) (v := v) (h := h)).
Abbreviation committing := (commits (holds listed t v h)).
Abbreviation writing table_id := (finalizing (listed := listed) (t := t) (v := v) (h := h) table_id).

Lemma keeps_table_schema_id table_id : keeps (table_schema_id table_id) anything.
Proof. unfold table_schema_id. keep. Qed.
Hint Resolve keeps_table_schema_id : history.

Lemma keeps_commit_ids s table_id : keeps (commit_ids s table_id) anything.
Proof. unfold commit_ids. keep. Qed.
Hint Resolve keeps_commit_ids : history.

Lemma keeps_record_alteration limit table_id version :
  t < h -> keeps (record_alteration limit h table_id version) anything.
Proof. intros Ht. unfold record_alteration. keep. Qed.
Hint Resolve keeps_record_alteration : history.
End at_snapshot.
#[local] Hint Resolve keeps_table_schema_id keeps_commit_ids keeps_record_alteration : history.

Section at_snapshot.
Context {listed : bool} {t : Z} {v : View} {h : Z}.
Abbreviation keeps := (keeps (holds listed t v h)).
Abbreviation commits := (commits (listed := listed) (t := t) (v := v) (h := h)).
Abbreviation committing := (commits (holds listed t v h)).
Abbreviation writing table_id := (finalizing (listed := listed) (t := t) (v := v) (h := h) table_id).

Lemma create_snapshot_commits : committing create_snapshot.
Proof. apply commits_snapshot. intros Ht version. keep. Qed.

Lemma promote_column_type_commits limit table_id name type : committing (promote_column_type limit table_id name type).
Proof.
  unfold promote_column_type. apply commits_bind; [keep|]. intros _. apply commits_snapshot. intros Ht version. keep.
Qed.

Lemma commit_inlined_deletes_commits table_id base rows : committing (commit_inlined_deletes table_id base rows).
Proof.
  unfold commit_inlined_deletes, refuse_duplicate_rows. apply commits_bind; [keep|]. intros _.
  apply commits_bind; [keep|]. intros _. apply commits_snapshot. intros Ht version. keep.
  apply keeps_end_physical; [done|]. intros w. rewrite !andb_true_iff. tauto.
Qed.

Lemma set_delete_file_commits table_id id expected base delete :
  committing (set_delete_file table_id id expected base delete).
Proof. unfold set_delete_file. apply commits_snapshot. intros Ht version. keep. Qed.

Lemma commit_positional_deletes_commits table_id base deletes :
  committing (commit_positional_deletes table_id base deletes).
Proof.
  unfold commit_positional_deletes. apply commits_bind; [keep|]. intros _. apply commits_bind; [keep|]. intros _.
  apply commits_snapshot. intros Ht version. keep.
Qed.

Lemma commit_deletes_commits table_id base positional inlined :
  committing (commit_deletes table_id base positional inlined).
Proof.
  unfold commit_deletes, refuse_duplicate_rows. destruct (is_empty inlined); [apply commit_positional_deletes_commits|].
  destruct (is_empty positional); [apply commit_inlined_deletes_commits|].
  apply commits_bind; [keep|]. intros _. apply commits_bind; [keep|]. intros _.
  apply commits_snapshot. intros Ht version. keep.
Qed.

Lemma commit_truncate_commits table_id base : committing (commit_truncate table_id base).
Proof.
  unfold commit_truncate. apply commits_snapshot. intros Ht version. keep.
  - apply keeps_end_data_files; [done|]. intros w. rewrite !andb_true_iff. tauto.
  - by apply keeps_end_physical.
  - apply keeps_end_delete_files; [done|]. intros w. rewrite !andb_true_iff. tauto.
Qed.

(** A compaction that retires its sources, with outputs that begin with it. *)
Lemma commit_compaction_commits table_id base sources outputs :
  Forall (fun output => cp_begin_snapshot output = None) outputs ->
  committing (commit_compaction table_id base sources outputs Retire).
Proof.
  intros Ho. unfold commit_compaction, retire_sources, check_compaction_source. apply commits_bind; [keep|]. intros _.
  apply commits_snapshot. intros Ht version. cbv zeta.
  do 2 (apply (keeps_bind _ _ anything); [keep|intros _ _]).
  apply (keeps_bind _ _ anything).
  { keep; [apply keeps_end_data_files|apply keeps_end_delete_files]; try done; intros w; rewrite !andb_true_iff; tauto. }
  intros _ _. apply (keeps_bind _ _ anything); [keep|]. intros _ _. apply (keeps_bind _ _ anything); [keep|].
  intros ids _. apply (keeps_bind _ _ anything); [|intros _ _; keep].
  apply keeps_for_each. intros [output id] Hin. apply keeps_insert_reserved_file.
  rewrite Forall_forall in Ho. rewrite (Ho output); [done|]. by eapply elem_of_zip_l.
Qed.

Lemma reset_partition_spec_commits limit table_id : committing (reset_partition_spec limit table_id).
Proof.
  unfold reset_partition_spec. apply commits_bind; [keep|]. intros head. apply commits_snapshot. intros Ht version. keep.
  apply keeps_execute. intros db. apply holds_partition_info. apply seen_ended; [done|].
  intros w. rewrite !andb_true_iff. tauto.
Qed.

Lemma reset_sort_spec_commits table_id : committing (reset_sort_spec table_id).
Proof.
  unfold reset_sort_spec. apply commits_snapshot. intros Ht version. keep.
  apply keeps_execute. intros db. apply holds_sort_info. apply seen_ended; [done|].
  intros w. rewrite !andb_true_iff. tauto.
Qed.

Lemma retire_appends_since_commits table_id base : committing (retire_appends_since table_id base).
Proof.
  unfold retire_appends_since. apply commits_snapshot. intros Ht version. keep.
  - apply keeps_end_data_files; [done|]. intros w. rewrite !andb_true_iff. tauto.
  - apply keeps_end_physical; [done|]. intros w. rewrite !andb_true_iff. tauto.
Qed.

Lemma set_inlined_index_columns_commits table_id columns : committing (set_inlined_index_columns table_id columns).
Proof. apply commits_keeps. unfold set_inlined_index_columns. keep. Qed.

Lemma ensure_inlined_indexes_commits table_id : committing (ensure_inlined_indexes table_id).
Proof.
  apply commits_keeps. unfold ensure_inlined_indexes, duckdb_inlined_index_columns. keep.
  exact (keeps_ensure_indexes (holds listed t v h) _ _).
Qed.

Lemma set_data_path_commits path : committing (set_data_path path).
Proof. apply commits_keeps. unfold set_data_path. keep. Qed.

Lemma remove_scheduled_commits ids : committing (remove_scheduled ids).
Proof. apply commits_keeps. unfold remove_scheduled. keep. Qed.

Lemma begin_write_transaction_commits schema_name table_name columns mode :
  committing (begin_write_transaction schema_name table_name columns mode).
Proof. apply commits_keeps. unfold begin_write_transaction. keep. Qed.

(** A reserved id belongs to no spec [t] sees. *)
Lemma reserve_fresh_spec n :
  0 < n -> keeps (reserve_ids_of ICatalog n) (fun id =>
    id ∉ seen_ids pi_id (vw_partition_info v) /\ id ∉ seen_ids si_id (vw_sort_info v)).
Proof.
  intros Hn db id db' Hd E. destruct (keeps_reserve_ids_of ICatalog n db id db' Hd E) as [Hd' _]. split; [exact Hd'|].
  apply reserve_ids_of_ok in E as [[Hl _] _]. destruct (below_floor ICatalog db id) as [Hb _]; [lia|].
  destruct Hd as (_ & _ & <-). unfold view, seen_ids, seen. cbn [vw_partition_info vw_sort_info].
  split; intros (row & Hid & (w & -> & [_ Hin]%elem_of_select)%list_elem_of_fmap)%list_elem_of_fmap;
    cbn in Hid; subst id.
  - apply (Z.lt_irrefl (pi_id (v_row w))), Hb. unfold ids_in_use. rewrite !elem_of_app. do 3 right. left. by apply (list_elem_of_fmap_2 (fun v => pi_id (v_row v))).
  - apply (Z.lt_irrefl (si_id (v_row w))), Hb. unfold ids_in_use. rewrite !elem_of_app. do 4 right. left. by apply (list_elem_of_fmap_2 (fun v => si_id (v_row v))).
Qed.

Lemma commits_bind_post {A B} (m : Tx A) (k : A -> Tx B) Q :
  keeps m Q -> (forall a, Q a -> committing (k a)) -> committing (bind m k).
Proof.
  intros Hm Hk Ht db b db2 Hd E. apply bind_ok in E as (a & db1 & E1 & E2).
  destruct (Hm _ _ _ Hd E1) as [Hd1 HQ]. by eapply (Hk a HQ).
Qed.

Lemma set_partition_spec_commits limit table_id columns : committing (set_partition_spec limit table_id columns).
Proof.
  unfold set_partition_spec. apply commits_bind; [keep|]. intros _.
  eapply commits_bind_post; [by apply reserve_fresh_spec|]. intros id [Hid _].
  apply commits_snapshot. intros Ht version. keep; apply keeps_execute; intros db Hd.
  - apply holds_partition_info; [|done]. apply seen_ended; [done|]. intros w. rewrite !andb_true_iff. tauto.
  - apply holds_partition_info; [|done]. by apply seen_born_one.
  - apply holds_partition_columns; [|done]. apply Forall_forall. intros row (i & [c [n tr]] & -> & _)%elem_of_lookup_imap. done.
Qed.

Lemma set_sort_spec_commits table_id fields : committing (set_sort_spec table_id fields).
Proof.
  unfold set_sort_spec. apply commits_bind; [keep|]. intros _.
  eapply commits_bind_post; [by apply reserve_fresh_spec|]. intros id [_ Hid].
  apply commits_snapshot. intros Ht version. keep; apply keeps_execute; intros db Hd.
  - apply holds_sort_info; [|done]. apply seen_ended; [done|]. intros w. rewrite !andb_true_iff. tauto.
  - apply holds_sort_info; [|done]. by apply seen_born_one.
  - apply holds_sort_expressions; [|done]. rewrite Forall_fmap. by apply Forall_true.
Qed.

(** ** Operations that write into the newest snapshot *)

Lemma get_or_create_schema_commits name path : t < h -> committing (get_or_create_schema name path h).
Proof.
  intros Ht. apply commits_keeps. unfold get_or_create_schema. keep. apply keeps_insert_key. intros db Hd _.
  apply holds_schemas; [|done]. intros _. by apply seen_born_one.
Qed.

Lemma get_or_create_table_commits schema_id name path : t < h -> committing (get_or_create_table schema_id name path h).
Proof.
  intros Ht. apply commits_keeps. unfold get_or_create_table. keep. apply keeps_execute. intros db.
  apply holds_tables. intros _. by apply seen_born_one.
Qed.

Lemma set_columns_commits table_id columns : t < h -> committing (set_columns table_id columns h).
Proof.
  intros Ht. apply commits_keeps. unfold set_columns. keep. apply keeps_end_columns; [done|].
  intros w. rewrite !andb_true_iff. tauto.
Qed.

Lemma end_table_files_commits table_id : t < h -> committing (end_table_files table_id h).
Proof.
  intros Ht. apply commits_keeps. unfold end_table_files. keep. apply keeps_end_data_files; [done|].
  intros w. rewrite !andb_true_iff. tauto.
Qed.

(** ** Writes to a table *)

Lemma register_data_file_commits limit reserved table_id schema_name table_name file mode base columns ids metadata expected :
  commits (writing table_id) (register_data_file_with_commit_metadata limit reserved table_id schema_name table_name file
    mode base columns ids metadata expected).
Proof.
  unfold register_data_file_with_commit_metadata. apply commits_bind; [keep|]. intros _. apply commits_finalize.
  intros Ht. keep.
Qed.

Lemma register_data_files_commits limit reserved table_id schema_name table_name files mode base columns ids metadata expected :
  commits (writing table_id) (register_data_files_with_commit_metadata limit reserved table_id schema_name table_name files
    mode base columns ids metadata expected).
Proof.
  unfold register_data_files_with_commit_metadata. do 2 (apply commits_bind; [keep|intros _]). apply commits_finalize.
  intros Ht. keep.
Qed.

Lemma register_files_with_deletes_commits limit reserved table_id schema_name table_name files deletes mode base columns ids :
  commits (writing table_id) (register_files_with_deletes limit reserved table_id schema_name table_name files deletes
    mode base columns ids).
Proof.
  unfold register_files_with_deletes, insert_file_and_advance. apply commits_bind; [keep|]. intros _.
  apply commits_finalize. intros Ht. keep.
Qed.

Lemma register_inlined_data_commits limit reserved table_id schema_name table_name batches mode base columns ids metadata
    expected :
  commits (writing table_id) (register_inlined_data limit reserved table_id schema_name table_name batches mode base
    columns ids metadata expected).
Proof.
  unfold register_inlined_data, enforce_inline_partition_fence, table_stats_initialized. cbv zeta.
  do 3 (apply commits_bind; [keep|intros _]). apply commits_finalize. intros Ht. keep.
Qed.

Lemma publish_snapshot_commits limit reserved table_id schema_name table_name mode base columns ids :
  commits (writing table_id) (publish_snapshot limit reserved table_id schema_name table_name mode base columns ids).
Proof. unfold publish_snapshot. apply commits_finalize. intros Ht. keep. Qed.
End at_snapshot.

(** One commit to several tables, without rewritten delete files; it may move the beginning
    of a table it writes first, so the listing is left aside. *)
Lemma keeps_finalize_stage t v h limit reserved write :
  t < h -> keeps (holds false t v h) (finalize_stage limit reserved h write) anything.
Proof.
  intros Ht. unfold finalize_stage. keep. intros db r db' Hd E. split; [|done].
  by destruct (finalize_table_holds (listed := false) Ht _ _ _ _ _ _ _ db r db' ltac:(done) Hd E).
Qed.
#[local] Hint Resolve keeps_finalize_stage : history.

Lemma keeps_apply_stage listed t v h metadata write had :
  t < h -> st_rewritten_deletes write = [] -> keeps (holds listed t v h) (apply_stage h metadata write had) anything.
Proof.
  intros Ht Hr. unfold apply_stage, replace_delete_files, apply_staged_inlined_deletes. rewrite Hr. cbn [for_each]. keep.
Qed.

Lemma commit_multi_table_commits t v h limit reserved writes metadata expected :
  Forall (fun write => st_rewritten_deletes write = []) writes ->
  commits (listed := false) (t := t) (v := v) (h := h) (holds false t v h)
    (commit_multi_table limit reserved writes metadata expected).
Proof.
  intros Hw. unfold commit_multi_table. do 5 (apply commits_bind; [keep|intros _]).
  apply commits_bind; [keep|]. intros had. apply commits_snapshot. intros Ht version. unfold refuse_rewritten_deletes.
  apply (keeps_bind _ _ anything); [keep|]. intros _ _. apply (keeps_bind _ _ anything); [keep|]. intros tables _.
  apply (keeps_bind _ _ anything); [|intros _ _; keep].
  apply keeps_for_each. intros [write live_data] Hin. apply keeps_apply_stage; [done|].
  rewrite Forall_forall in Hw. apply Hw. by eapply elem_of_zip_l.
Qed.
End operations.

(** ** Histories of a catalog *)

Section histories.
Context `{InlineValues} `{SortParser} (limit : option nat).

(** What one call of the writer makes of a catalog, as seen from a snapshot [t]. The calls
    that take a snapshot write into the newest, which is past [t]. A write to a table keeps
    the listing when the table has a column or no snapshot up to [t] lists it. Left out are
    the calls that rewrite the history: flushes, rewritten delete files, compactions that
    remove their sources, and expiry. *)
Inductive step (t : Z) (listed : bool) : Db -> Db -> Prop :=
| step_create_snapshot db : step t listed db (run create_snapshot db).2
| step_get_or_create_schema name path db :
    t < get_current_snapshot db ->
    step t listed db (run (get_or_create_schema name path (get_current_snapshot db)) db).2
| step_get_or_create_table schema_id name path db :
    t < get_current_snapshot db ->
    step t listed db (run (get_or_create_table schema_id name path (get_current_snapshot db)) db).2
| step_set_columns table_id columns db :
    t < get_current_snapshot db ->
    step t listed db (run (set_columns table_id columns (get_current_snapshot db)) db).2
| step_end_table_files table_id db :
    t < get_current_snapshot db ->
    step t listed db (run (end_table_files table_id (get_current_snapshot db)) db).2
| step_promote_column_type table_id name type db :
    step t listed db (run (promote_column_type limit table_id name type) db).2
| step_begin_write schema_name table_name columns mode db :
    step t listed db (run (begin_write_transaction schema_name table_name columns mode) db).2
| step_register_data_file reserved table_id schema_name table_name file mode base columns ids metadata expected db :
    begins_later (listed := listed) (t := t) table_id db ->
    step t listed db (run (register_data_file_with_commit_metadata limit reserved table_id schema_name table_name file
                             mode base columns ids metadata expected) db).2
| step_register_data_files reserved table_id schema_name table_name files mode base columns ids metadata expected db :
    begins_later (listed := listed) (t := t) table_id db ->
    step t listed db (run (register_data_files_with_commit_metadata limit reserved table_id schema_name table_name files
                             mode base columns ids metadata expected) db).2
| step_register_files_with_deletes reserved table_id schema_name table_name files deletes mode base columns ids db :
    begins_later (listed := listed) (t := t) table_id db ->
    step t listed db (run (register_files_with_deletes limit reserved table_id schema_name table_name files deletes mode
                             base columns ids) db).2
| step_register_inlined_data reserved table_id schema_name table_name batches mode base columns ids metadata expected db :
    begins_later (listed := listed) (t := t) table_id db ->
    step t listed db (run (register_inlined_data limit reserved table_id schema_name table_name batches mode base columns
                             ids metadata expected) db).2
| step_publish_snapshot reserved table_id schema_name table_name mode base columns ids db :
    begins_later (listed := listed) (t := t) table_id db ->
    step t listed db (run (publish_snapshot limit reserved table_id schema_name table_name mode base columns ids) db).2
| step_commit_multi_table reserved writes metadata expected db :
    listed = false -> Forall (fun write => st_rewritten_deletes write = []) writes ->
    step t listed db (run (commit_multi_table limit reserved writes metadata expected) db).2
| step_set_delete_file table_id id expected base delete db :
    step t listed db (run (set_delete_file table_id id expected base delete) db).2
| step_commit_deletes table_id base positional inlined db :
    step t listed db (run (commit_deletes table_id base positional inlined) db).2
| step_commit_truncate table_id base db : step t listed db (run (commit_truncate table_id base) db).2
| step_commit_compaction table_id base sources outputs db :
    Forall (fun output => cp_begin_snapshot output = None) outputs ->
    step t listed db (run (commit_compaction table_id base sources outputs Retire) db).2
| step_retire_appends table_id base db : step t listed db (run (retire_appends_since table_id base) db).2
| step_set_partition_spec table_id columns db :
    step t listed db (run (set_partition_spec limit table_id columns) db).2
| step_reset_partition_spec table_id db : step t listed db (run (reset_partition_spec limit table_id) db).2
| step_set_sort_spec table_id fields db : step t listed db (run (set_sort_spec table_id fields) db).2
| step_reset_sort_spec table_id db : step t listed db (run (reset_sort_spec table_id) db).2
| step_set_index_columns table_id columns db :
    step t listed db (run (set_inlined_index_columns table_id columns) db).2
| step_ensure_indexes table_id db : step t listed db (run (ensure_inlined_indexes table_id) db).2
| step_set_data_path path db : step t listed db (run (set_data_path path) db).2
| step_remove_scheduled ids db : step t listed db (run (remove_scheduled ids) db).2.

Lemma run_commits {A} listed t v h (P : Db -> Prop) (m : Tx (Ending A)) db :
  commits (listed := listed) (t := t) (v := v) (h := h) P m -> t <= h -> P db -> holds listed t v h db ->
  exists h', h <= h' /\ holds listed t v h' (run m db).2.
Proof.
  intros Hm Ht HP Hd. unfold run. destruct (m db) as [[[[a|a] db']|e]|] eqn:E; cbn; try by exists h.
  by eapply Hm.
Qed.

Lemma run_committing {A} listed t v h (m : Tx (Ending A)) db :
  commits (listed := listed) (t := t) (v := v) (h := h) (holds listed t v h) m -> t <= h -> holds listed t v h db ->
  exists h', h <= h' /\ holds listed t v h' (run m db).2.
Proof. intros Hm Ht Hd. by eapply run_commits. Qed.

Lemma run_writing {A} listed t v h table_id (m : Tx (Ending A)) db :
  commits (listed := listed) (t := t) (v := v) (h := h)
    (finalizing (listed := listed) (t := t) (v := v) (h := h) table_id) m ->
  t <= h -> begins_later (listed := listed) (t := t) table_id db -> holds listed t v h db ->
  exists h', h <= h' /\ holds listed t v h' (run m db).2.
Proof. intros Hm Ht Hb Hd. eapply run_commits; [exact Hm|done|by split|done]. Qed.

Lemma step_holds t listed v h db db' :
  t <= h -> step t listed db db' -> holds listed t v h db -> exists h', h <= h' /\ holds listed t v h' db'.
Proof.
  intros Ht Hs Hd. assert (Hh : get_current_snapshot db = h) by apply Hd.
  destruct Hs; rewrite ?Hh in *; try subst listed;
    try (eapply run_writing; [|done|eassumption|exact Hd];
         eauto using register_data_file_commits, register_data_files_commits, register_files_with_deletes_commits,
           register_inlined_data_commits, publish_snapshot_commits; fail);
    (eapply run_committing; [|done|exact Hd]).
  all: eauto using create_snapshot_commits, get_or_create_schema_commits, get_or_create_table_commits,
    set_columns_commits, end_table_files_commits, promote_column_type_commits, begin_write_transaction_commits,
    set_delete_file_commits, commit_deletes_commits, commit_multi_table_commits,
    commit_truncate_commits, commit_compaction_commits, retire_appends_since_commits, set_partition_spec_commits,
    reset_partition_spec_commits, set_sort_spec_commits, reset_sort_spec_commits, set_inlined_index_columns_commits,
    ensure_inlined_indexes_commits, set_data_path_commits, remove_scheduled_commits.
Qed.

Lemma history_holds t listed v h db db' :
  t <= h -> rtc (step t listed) db db' -> holds listed t v h db -> exists h', h <= h' /\ holds listed t v h' db'.
Proof.
  intros Ht Hs. revert h Ht. induction Hs as [db|db db1 db2 Hs _ IH]; intros h Ht Hd; [by exists h|].
  destruct (step_holds _ _ _ _ _ _ Ht Hs Hd) as (h1 & Hh1 & Hd1).
  destruct (IH h1 ltac:(lia) Hd1) as (h2 & Hh2 & Hd2). exists h2. split; [lia|done].
Qed.
End histories.

(** ** Each file is listed once *)

Lemma select_sublist {A} (p : A -> bool) l : sublist (select p l) l.
Proof. induction l as [|a l IH]; [constructor|]. unfold select in *. cbn. destruct (p a); by constructor. Qed.

Lemma select_key_short {A} (key : A -> Z) (k : Z) (p : A -> bool) (l : list A) :
  NoDup (key <$> l) -> (length (select (fun a => (key a =? k)%Z && p a) l) <= 1)%nat.
Proof.
  intros Hn. induction l as [|a l IH]; [cbn; lia|]. cbn [fmap list_fmap] in Hn. apply NoDup_cons in Hn as [Ha Hn].
  unfold select in *. cbn. destruct (key a =? k) eqn:E; [|by apply IH]. cbn. destruct (p a); [|by apply IH].
  cbn. replace (List.filter _ l) with (@nil A); [cbn; lia|]. symmetry. apply (select_none _ l).
  apply Forall_forall. intros b Hb. destruct (key b =? k) eqn:Eb; [|done]. destruct Ha.
  replace (key a) with (key b) by lia. by apply list_elem_of_fmap_2.
Qed.

Lemma take_values_ids values files : forall taken,
  tfl_data_file_id <$> take_partition_values taken values files = tfl_data_file_id <$> files.
Proof. induction files as [|file files IH]; intros taken; [done|]. cbn. rewrite IH. by destruct (existsb _ taken). Qed.

Section listed_once.
Context `{InlineValues} `{SortParser}.

Lemma joined_deletes_one table_id u id db :
  wf_deletes db -> exists delete, joined_deletes table_id u id db = [delete].
Proof.
  intros [Hn _]. unfold joined_deletes. specialize (Hn u).
  pose proof (select_key_short (fun v => x_data_file_id (v_row v)) id (of_table x_table_id table_id) _ Hn) as Hlen.
  assert (E : select (fun v => of_table x_data_file_id id v && of_table x_table_id table_id v && visible u v)
                (t_delete_files db)
              = select (fun a => (x_data_file_id (v_row a) =? id) && of_table x_table_id table_id a)
                  (select (visible u) (t_delete_files db))).
  { clear. induction (t_delete_files db) as [|w l IH]; [done|]. unfold select, of_table in *. cbn.
    destruct (visible u w); cbn; [rewrite andb_true_r; destruct (_ && _); by rewrite IH|].
    rewrite andb_false_r. exact IH. }
  rewrite E. revert Hlen. cbv beta. destruct (select _ (select _ _)) as [|w [|w' l]]; [intros _; eexists; reflexivity..|].
  cbn. lia.
Qed.

Lemma listed_files table_id u db :
  wf_deletes db ->
  tfl_data_file_id <$> get_table_files_for_select table_id u db
  = (fun v => d_id (v_row v)) <$> select (fun v => of_table d_table_id table_id v && visible u v) (t_data_files db).
Proof.
  intros Hw. unfold get_table_files_for_select. rewrite take_values_ids.
  induction (select _ _) as [|w l IH]; [done|]. cbn [mbind list_bind]. rewrite fmap_app.
  destruct (joined_deletes_one table_id u (d_id (v_row w)) db Hw) as [delete ->]. cbn. by f_equal.
Qed.

Lemma listed_once table_id u db :
  wf db -> NoDup (tfl_data_file_id <$> get_table_files_for_select table_id u db).
Proof.
  intros (Hf & Hd & _). rewrite listed_files by done. eapply sublist_NoDup; [exact Hf|].
  apply fmap_sublist, select_sublist.
Qed.

(** ** The theorems *)

Context (limit : option nat).



(** C2. A file is scanned once: over any history of calls the data files keep distinct ids
    and no data file has two delete files at one snapshot, so a listing at any snapshot,
    kept or new, names each data file once. *)
Theorem files_are_listed_once t db db' table_id u :
  wf db -> t <= get_current_snapshot db -> rtc (step limit t false) db db' ->
  NoDup (tfl_data_file_id <$> get_table_files_for_select table_id u db')
  /\ tfl_data_file_id <$> get_table_files_for_select table_id u db'
     = (fun v => d_id (v_row v)) <$> select (fun v => of_table d_table_id table_id v && visible u v) (t_data_files db').
Proof.
  intros Hw Ht Hs. destruct (history_holds limit t false (view false t db) _ db db' Ht Hs) as (h' & _ & Hw' & _ & _); [by split|].
  split; [by apply listed_once|]. apply listed_files. apply Hw'.
Qed.
End listed_once.

(** ** A sample history *)

#[local] Existing Instance counted_batches.
#[local] Existing Instance sample_values.
#[local] Existing Instance sample_parser.

#[local] Strategy expand [sample_setup append_file sample_catalog].

Lemma new_catalog_wf : wf new_catalog.
Proof.
  unfold wf, wf_files, wf_deletes, wf_inlined. change (t_inlined_data new_catalog) with (∅ : gmap str InlinedTable).
  change (t_registry new_catalog) with (@nil RegistryRow). change (t_delete_files new_catalog) with (@nil (versioned DeleteFileRow)).
  split_and!; [constructor|intros t; constructor| | |].
  - intros v e Hv. by apply elem_of_nil in Hv.
  - intros name table Ht. by destruct (lookup_empty_Some name table).
  - intros row Hr. by apply elem_of_nil in Hr.
Qed.

Lemma append_step t listed first path base db :
  begins_later (listed := listed) (t := t) 1 db -> step None t listed db (append_file first path base db).
Proof. intros Hb. unfold append_file, register_data_file. by apply step_register_data_file. Qed.

(** The sample catalog is reached from the new one. *)
Lemma sample_history : rtc (step None 0 false) new_catalog sample_catalog.
Proof.
  eapply rtc_l; [apply step_begin_write|]. eapply rtc_l; [by apply (append_step _ _ true "a.parquet" 0)|].
  eapply rtc_l; [by apply (append_step _ _ false "b.parquet" 1)|]. apply rtc_once, step_set_delete_file.
Qed.

Lemma sample_wf : wf sample_catalog.
Proof.
  assert (Ht : 0 <= get_current_snapshot new_catalog) by (vm_compute; discriminate).
  destruct (history_holds None 0 false (view false 0 new_catalog) _ _ _ Ht sample_history) as (h' & _ & Hw & _); [|exact Hw].
  split; [exact new_catalog_wf|done].
Qed.

(** Then the table is truncated and written again. *)
Definition truncated_catalog : Db := (run (commit_truncate 1 3) sample_catalog).2.
Definition later_catalog : Db := append_file false "c.parquet" 4 truncated_catalog.

#[local] Strategy expand [truncated_catalog later_catalog].

Lemma later_history listed : rtc (step None 3 listed) sample_catalog later_catalog.
Proof.
  eapply rtc_l; [apply step_commit_truncate|]. apply rtc_once, append_step.
  intros _ Hc. by vm_compute in Hc.
Qed.



Lemma files_are_listed_once_witness :
  NoDup (tfl_data_file_id <$> get_table_files_for_select 1 3 later_catalog)
  /\ tfl_data_file_id <$> get_table_files_for_select 1 3 later_catalog = [0; 1].
Proof.
  split; [|vm_compute; reflexivity].
  refine (proj1 (files_are_listed_once None 3 sample_catalog later_catalog 1 3 sample_wf _ (later_history false))).
  vm_compute. discriminate.
Defined.
