(* ===== verification/Intervals.v ===== *)
(** * Intervals of the maintenance options

    [parse_duckdb_interval], [parse_interval_time], [interval_before] and [older_than] of
    [maintenance.rs], which read the [expire_older_than] and [delete_older_than] options. The
    text is read from the front; a parse is an [attempt], which may also panic: on an
    arithmetic overflow the code does not check, or when the loop's fuel runs out. The fuel is
    the length of the text, and neither happens. *)

From S2P Require Import Prelude RustStd Arrow WriterTypes.

(** A result that may be absent ([None], from [?]) or a panic. *)
Abbreviation attempt A := (outcome (option A)).
Definition found {A} (a : A) : attempt A := Returns (Ok (Some a)).
Definition absent {A} : attempt A := Returns (Ok None).
Definition attempt_bind {A B} (m : attempt A) (k : A -> attempt B) : attempt B :=
  outcome_bind m (fun o => match o with Some a => k a | None => absent end).
Definition of_option {A} (o : option A) : attempt A := Returns (Ok o).
Notation "'let!' x := m 'in' k" := (attempt_bind m (fun x => k))
  (at level 10, x pattern, m at level 200, k at level 200) : ducklake_scope.

(** Arithmetic the code checks, and arithmetic it does not. *)
Definition in_i32 (z : Z) : bool := (- i32_max - 1 <=? z) && (z <=? i32_max).
Definition checked_i64 (z : Z) : attempt Z := of_option (if in_i64 z then Some z else None).
Definition checked_i32 (z : Z) : attempt Z := of_option (if in_i32 z then Some z else None).
Definition plain_i64 (z : Z) : attempt Z := if in_i64 z then found z else Panics.

Record DuckdbInterval := { iv_months : Z; iv_days : Z; iv_micros : Z }.
Definition DuckdbInterval_default : DuckdbInterval := {| iv_months := 0; iv_days := 0; iv_micros := 0 |}.

Definition MICROS_PER_SEC : Z := 1000000.
Definition MICROS_PER_MINUTE : Z := 60 * MICROS_PER_SEC.
Definition MICROS_PER_HOUR : Z := 60 * MICROS_PER_MINUTE.
Definition MICROS_PER_DAY : Z := 24 * MICROS_PER_HOUR.
Definition DAYS_PER_MONTH : Z := 30.
Definition DAYS_PER_WEEK : Z := 7.

(** [add_i32] and [add_i64]. *)
Definition add_i32 (target input multiplier fraction : Z) : attempt Z :=
  let! product := checked_i64 (input * multiplier) in
  let! addition := checked_i32 product in
  let! target := checked_i32 (target + addition) in
  if fraction =? 0 then found target
  else
    let! product := plain_i64 (fraction * multiplier) in
    let! addition := checked_i32 (Z.quot product MICROS_PER_SEC) in
    checked_i32 (target + addition).
Definition add_i64 (target input multiplier fraction : Z) : attempt Z :=
  let! product := checked_i64 (input * multiplier) in
  let! target := checked_i64 (target + product) in
  if fraction =? 0 then found target
  else
    let! product := plain_i64 (fraction * multiplier) in
    checked_i64 (target + Z.quot product MICROS_PER_SEC).

Definition is_blank (c : ascii) : bool := char_eqb c " " || char_eqb c "009" || char_eqb c "010".

(** The digits of a fraction, [mult] being the weight of the next one. *)
Fixpoint read_fraction (mult fraction : Z) (s : str) : attempt (Z * str) :=
  match s with
  | c :: s' =>
      if is_ascii_digit c then
        let! fraction :=
          (if 0 <? mult
           then let! digit := plain_i64 ((byte_val c - 48) * mult) in plain_i64 (fraction + digit)
           else found fraction) in
        read_fraction (mult / 10) fraction s'
      else found (fraction, s)
  | [] => found (fraction, [])
  end.

(** The units, by their place in the [match] of [parse_duckdb_interval]. *)
Inductive Unit :=
| Millennium | Century | Decade | UYear | Quarter | UMonth | UDay | Week | UMicrosecond | UMillisecond | USecond | Minute
| UHour.
#[global] Instance Unit_eq_dec : EqDecision Unit.
Proof. solve_decision. Defined.

Definition unit_names : list (Unit * list str) :=
  [(Millennium, ["millennium" : str; "mil" : str; "millenniums" : str; "millennia" : str; "mils" : str; "millenium" : str]);
   (Century, ["century" : str; "cent" : str; "centuries" : str; "c" : str]);
   (Decade, ["decade" : str; "dec" : str; "decades" : str; "decs" : str]);
   (UYear, ["year" : str; "yr" : str; "y" : str; "years" : str; "yrs" : str]);
   (Quarter, ["quarter" : str; "quarters" : str]);
   (UMonth, ["month" : str; "mon" : str; "months" : str; "mons" : str]);
   (UDay, ["day" : str; "days" : str; "d" : str; "dayofmonth" : str]);
   (Week, ["week" : str; "weeks" : str; "w" : str; "weekofyear" : str]);
   (UMicrosecond, ["microseconds" : str; "microsecond" : str; "us" : str; "usec" : str; "usecs" : str; "usecond" : str;
                   "useconds" : str]);
   (UMillisecond, ["milliseconds" : str; "millisecond" : str; "ms" : str; "msec" : str; "msecs" : str; "msecond" : str;
                   "mseconds" : str]);
   (USecond, ["second" : str; "sec" : str; "seconds" : str; "secs" : str; "s" : str]);
   (Minute, ["minute" : str; "min" : str; "minutes" : str; "mins" : str; "m" : str]);
   (UHour, ["hour" : str; "hr" : str; "hours" : str; "hrs" : str; "h" : str])].
Definition unit_of (name : str) : option Unit :=
  fst <$> find_first (fun '(_, names) => existsb (str_eqb name) names) unit_names.

Definition with_months (r : DuckdbInterval) (m : Z) : DuckdbInterval :=
  {| iv_months := m; iv_days := iv_days r; iv_micros := iv_micros r |}.
Definition with_days (r : DuckdbInterval) (d : Z) : DuckdbInterval :=
  {| iv_months := iv_months r; iv_days := d; iv_micros := iv_micros r |}.
Definition with_micros (r : DuckdbInterval) (us : Z) : DuckdbInterval :=
  {| iv_months := iv_months r; iv_days := iv_days r; iv_micros := us |}.

(** The arms of the [match] on the unit. *)
Definition add_unit (unit : Unit) (result : DuckdbInterval) (number fraction : Z) : attempt DuckdbInterval :=
  let months multiplier fraction :=
    let! m := add_i32 (iv_months result) number multiplier fraction in found (with_months result m) in
  let days r number multiplier fraction :=
    let! d := add_i32 (iv_days r) number multiplier fraction in found (with_days r d) in
  let micros r number multiplier fraction :=
    let! us := add_i64 (iv_micros r) number multiplier fraction in found (with_micros r us) in
  match unit with
  | Millennium => months 12000 fraction
  | Century => months 1200 fraction
  | Decade => months 120 fraction
  | UYear => months 12 fraction
  | Quarter =>
      let! r := months 3 fraction in
      let! scaled := plain_i64 (fraction * 3) in
      days r 0 DAYS_PER_MONTH (Z.rem scaled MICROS_PER_SEC)
  | UMonth => let! r := months 1 0 in days r 0 DAYS_PER_MONTH fraction
  | UDay => let! r := days result number 1 0 in micros r 0 MICROS_PER_DAY fraction
  | Week =>
      let! r := days result number DAYS_PER_WEEK fraction in
      let! scaled := plain_i64 (fraction * DAYS_PER_WEEK) in
      micros r 0 MICROS_PER_DAY (Z.rem scaled MICROS_PER_SEC)
  | UMicrosecond =>
      let! doubled := plain_i64 (fraction * 2) in
      let! number := checked_i64 (number + Z.quot doubled MICROS_PER_SEC) in
      micros result number 1 0
  | UMillisecond => micros result number 1000 fraction
  | USecond => micros result number MICROS_PER_SEC fraction
  | Minute => micros result number MICROS_PER_MINUTE fraction
  | UHour => micros result number MICROS_PER_HOUR fraction
  end.

(** The closure [double_digit]. *)
Definition double_digit (s : str) : option (Z * str) :=
  match s with
  | c :: s' =>
      if is_ascii_digit c then
        match s' with
        | d :: s'' => if is_ascii_digit d then Some ((byte_val c - 48) * 10 + (byte_val d - 48), s'')
                      else Some (byte_val c - 48, s')
        | [] => Some (byte_val c - 48, [])
        end
      else None
  | [] => None
  end.

(** [parse_interval_time]. *)
Definition parse_interval_time (bytes : str) : attempt Z :=
  let (hours, rest) := span is_ascii_digit bytes in
  if (9 <? length hours)%nat then absent
  else
    let hour := default 0 (parse_digits_from 0 hours) in
    match is_empty hours, rest with
    | false, c :: rest =>
        if negb (char_eqb c ":") then absent
        else
          let! (minute, rest) := of_option (if is_empty rest then Some (0, rest) else double_digit rest) in
          if 60 <=? minute then absent
          else
            let! (second, rest) := of_option
              (match rest with
               | [] => Some (0, rest)
               | c :: rest' =>
                   if negb (char_eqb c ":") then None
                   else if is_empty rest' then Some (0, rest') else double_digit rest'
               end) in
            if 60 <=? second then absent
            else
              let! (micros, _) := match rest with
                                  | c :: rest' => if char_eqb c "." then read_fraction 100000 0 rest' else found (0, rest)
                                  | [] => found (0, rest)
                                  end in
              plain_i64 (((hour * 60 + minute) * 60 + second) * 1000000 + micros)
    | _, _ => absent
    end.

(** [i64::wrapping_neg]. *)
Definition wrapping_neg (z : Z) : Z := if z =? i64_min then i64_min else - z.

(** [ago], with nothing but blanks after it. *)
Definition is_ago (s : str) : bool :=
  match s with
  | _ :: g :: o :: rest => char_eqb (char_to_lower g) "g" && char_eqb (char_to_lower o) "o" && forallb is_blank rest
  | _ => false
  end.

(** A number of the loop of [parse_duckdb_interval], which goes on with [again] after its
    unit. *)
Definition parse_number (again : DuckdbInterval -> str -> attempt DuckdbInterval) (result : DuckdbInterval)
  (found_any negative : bool) (start : str) : attempt DuckdbInterval :=
  let (digits, rest) := span is_ascii_digit start in
  if match rest with d :: _ => char_eqb d ":" | [] => false end then
    let! time := parse_interval_time start in
    let! micros := checked_i64 (iv_micros result + time) in
    found (with_micros result (if negative then wrapping_neg micros else micros))
  else if is_empty digits then absent
  else
    let! number := of_option (parse_i64 digits) in
    let! (fraction, rest) := match rest with
                             | d :: rest' => if char_eqb d "." then read_fraction 100000 0 rest' else found (0, rest)
                             | [] => found (0, rest)
                             end in
    let! number := (if negative then plain_i64 (- number) else found number) in
    let! fraction := (if negative then plain_i64 (- fraction) else found fraction) in
    let (unit, rest) := span is_ascii_alphabetic (span is_blank rest).2 in
    let unit := to_ascii_lowercase unit in
    if is_empty unit && negb found_any then
      let! micros := add_i64 (iv_micros result) number MICROS_PER_SEC 0 in
      let! micros := checked_i64 (micros + fraction) in
      if forallb is_blank rest then found (with_micros result micros) else absent
    else
      let! unit := of_option (unit_of unit) in
      let! result := add_unit unit result number fraction in
      again result rest.

(** The loop, from an interval read so far. *)
Fixpoint parse_parts (fuel : nat) (result : DuckdbInterval) (found_any : bool) (s : str) : attempt DuckdbInterval :=
  match fuel with
  | O => Panics
  | S fuel =>
      match (span is_blank s).2 with
      | [] => if found_any then found result else absent
      | c :: s' =>
          let again result rest := parse_parts fuel result true rest in
          if is_ascii_digit c then parse_number again result found_any false (c :: s')
          else if char_eqb c "-" then parse_number again result found_any true s'
          else if char_eqb (char_to_lower c) "a" then
            if negb (is_ago (c :: s')) then absent
            else if (iv_months result =? - i32_max - 1) || (iv_days result =? - i32_max - 1) then absent
            else if found_any then
              found {| iv_months := - iv_months result; iv_days := - iv_days result;
                       iv_micros := wrapping_neg (iv_micros result) |}
            else absent
          else absent
      end
  end.

(** [parse_duckdb_interval]. *)
Definition parse_duckdb_interval (text : str) : attempt DuckdbInterval :=
  match text with
  | [] => absent
  | c :: rest =>
      if char_eqb c "P" || char_eqb c "p" then absent
      else parse_parts (S (length text)) DuckdbInterval_default false (if char_eqb c "@" then rest else text)
  end.

(** ** Cutoffs *)

(** [chrono]'s instants, their order and their arithmetic, each step of which may leave the
    range of instants. *)
Class Chrono := {
  DateTime : Type;
  later : DateTime -> DateTime -> bool;
  checked_sub_months : DateTime -> Z -> option DateTime;
  checked_add_months : DateTime -> Z -> option DateTime;
  checked_sub_days : DateTime -> Z -> option DateTime;
  checked_sub_micros : DateTime -> Z -> option DateTime;
}.

Section cutoffs.
Context `{Chrono}.

(** [interval_before]. *)
Definition interval_before (interval : str) (now : DateTime) : outcome DateTime :=
  let invalid := InvalidConfig ("Failed to parse interval: '" ++ interval ++ "'") in
  outcome_bind (parse_duckdb_interval interval) (fun parsed => Returns (
    let? parsed := ok_or parsed invalid in
    let months := iv_months parsed in
    let? shifted := ok_or (if 0 <=? months then checked_sub_months now months else checked_add_months now (- months))
                      invalid in
    ok_or (shifted ← checked_sub_days shifted (iv_days parsed); checked_sub_micros shifted (iv_micros parsed)) invalid)).

(** [older_than]. *)
Definition older_than (interval : str) (now : DateTime) : outcome DateTime :=
  outcome_bind (interval_before interval now) (fun cutoff => Returns (
    if later cutoff now then
      Err (InvalidConfig ("interval '" ++ interval
        ++ "' is negative; an older-than cutoff must not be in the future"))
    else Ok cutoff)).
End cutoffs.

(** ** Parses that do not panic *)

(** The attempt is no panic, and what it finds has [P]. *)
Definition safe {A} (P : A -> Prop) (m : attempt A) : Prop :=
  exists o, m = Returns (Ok o) /\ forall a, o = Some a -> P a.

Section rules.
Context {A : Type} {P : A -> Prop}.

Lemma safe_found a : P a -> safe P (found a).
Proof. intros Ha. exists (Some a). split; [done|]. by intros a' [= <-]. Qed.

Lemma safe_absent : safe P absent.
Proof. by exists None. Qed.

Lemma safe_of_option o : (forall a, o = Some a -> P a) -> safe P (of_option o).
Proof. intros Ho. by exists o. Qed.

Lemma safe_bind {B} (Q : B -> Prop) (m : attempt B) (k : B -> attempt A) :
  safe Q m -> (forall b, Q b -> safe P (k b)) -> safe P (attempt_bind m k).
Proof.
  intros (o & -> & Ho) Hk. destruct o as [b|]; [|apply safe_absent]. apply Hk. by apply Ho.
Qed.
End rules.

Definition is_i64 (z : Z) : Prop := i64_min <= z <= i64_max.
Definition is_i32 (z : Z) : Prop := - i32_max - 1 <= z <= i32_max.

Lemma in_i64_spec z : in_i64 z = true <-> is_i64 z.
Proof. unfold in_i64, is_i64. rewrite andb_true_iff, !Z.leb_le. tauto. Qed.

Lemma in_i32_spec z : in_i32 z = true <-> is_i32 z.
Proof. unfold in_i32, is_i32. rewrite andb_true_iff, !Z.leb_le. tauto. Qed.

Lemma safe_checked_i64 z : safe (fun n => n = z /\ is_i64 n) (checked_i64 z).
Proof. apply safe_of_option. intros n. destruct (in_i64 z) eqn:E; [|done]. intros [= <-]. split; [done|]. by apply in_i64_spec. Qed.

Lemma safe_checked_i32 z : safe (fun n => n = z /\ is_i32 n) (checked_i32 z).
Proof. apply safe_of_option. intros n. destruct (in_i32 z) eqn:E; [|done]. intros [= <-]. split; [done|]. by apply in_i32_spec. Qed.

Lemma safe_plain_i64 z : is_i64 z -> safe (fun n => n = z) (plain_i64 z).
Proof. intros Hz%in_i64_spec. unfold plain_i64. rewrite Hz. by apply safe_found. Qed.

(** A fraction of a second in microseconds, and the units' multipliers. *)
Definition is_fraction (z : Z) : Prop := - MICROS_PER_SEC <= z <= MICROS_PER_SEC.
Definition is_multiplier (z : Z) : Prop := 0 <= z <= MICROS_PER_DAY.

Lemma fraction_product f m : is_fraction f -> is_multiplier m -> is_i64 (f * m).
Proof. unfold is_fraction, is_multiplier, is_i64, i64_min, i64_max, MICROS_PER_DAY, MICROS_PER_HOUR, MICROS_PER_MINUTE, MICROS_PER_SEC. nia. Qed.

Lemma safe_add_i32 target input m f :
  is_fraction f -> is_multiplier m -> safe is_i32 (add_i32 target input m f).
Proof.
  intros Hf Hm. unfold add_i32. eapply safe_bind; [apply safe_checked_i64|]. intros p _.
  eapply safe_bind; [apply safe_checked_i32|]. intros a _. eapply safe_bind; [apply safe_checked_i32|]. intros t [_ Ht].
  case_if; [by apply safe_found|]. eapply safe_bind; [by apply safe_plain_i64, fraction_product|]. intros q _.
  eapply safe_bind; [apply safe_checked_i32|]. intros b _. destruct (safe_checked_i32 (t + b)) as (o & -> & Ho).
  exists o. split; [done|]. intros n Hn. by apply Ho.
Qed.

Lemma safe_add_i64 target input m f :
  is_fraction f -> is_multiplier m -> safe is_i64 (add_i64 target input m f).
Proof.
  intros Hf Hm. unfold add_i64. eapply safe_bind; [apply safe_checked_i64|]. intros p _.
  eapply safe_bind; [apply safe_checked_i64|]. intros t [_ Ht].
  case_if; [by apply safe_found|]. eapply safe_bind; [by apply safe_plain_i64, fraction_product|]. intros q _.
  destruct (safe_checked_i64 (t + Z.quot q MICROS_PER_SEC)) as (o & -> & Ho). exists o. split; [done|]. intros n Hn. by apply Ho.
Qed.

(** ** The parts of a text *)

Lemma digit_byte c : is_ascii_digit c = true -> 0 <= byte_val c - 48 <= 9.
Proof. unfold is_ascii_digit. rewrite andb_true_iff, !Z.leb_le. lia. Qed.

Lemma safe_read_fraction s : forall mult fraction,
  0 <= mult <= 100000 -> 0 <= fraction -> fraction + 10 * mult <= MICROS_PER_SEC ->
  safe (fun r => 0 <= r.1 <= MICROS_PER_SEC /\ (length r.2 <= length s)%nat) (read_fraction mult fraction s).
Proof.
  unfold MICROS_PER_SEC. induction s as [|c s IH]; intros mult fraction Hm Hf Hb; cbn [read_fraction].
  { apply safe_found. cbn. lia. }
  destruct (is_ascii_digit c) eqn:Ec; [|apply safe_found; cbn; lia]. apply digit_byte in Ec.
  assert (Hdiv : 0 <= mult / 10 /\ 10 * (mult / 10) <= mult) by (split; [apply Z.div_pos; lia|apply Z.mul_div_le; lia]).
  eapply (safe_bind (fun f => 0 <= f /\ f + 10 * (mult / 10) <= 1000000)).
  - destruct (0 <? mult) eqn:E0; [|apply safe_found; lia].
    eapply safe_bind; [apply safe_plain_i64; unfold is_i64, i64_min, i64_max; nia|]. intros d ->.
    destruct (safe_plain_i64 (fraction + (byte_val c - 48) * mult)) as (o & -> & Ho); [unfold is_i64, i64_min, i64_max; nia|].
    exists o. split; [done|]. intros f Hof. rewrite (Ho f Hof). nia.
  - intros f [Hf0 Hf1]. destruct (IH (mult / 10) f) as (o & -> & Ho); [|done|done|].
    + lia.
    + exists o. split; [done|]. intros r Hr. destruct (Ho r Hr). cbn. lia.
Qed.

(** An interval whose fields fit their types. *)
Definition interval_ok (r : DuckdbInterval) : Prop :=
  is_i32 (iv_months r) /\ is_i32 (iv_days r) /\ is_i64 (iv_micros r).

Lemma is_multiplier_unit m : 0 <= m <= 12000 -> is_multiplier m.
Proof. unfold is_multiplier, MICROS_PER_DAY, MICROS_PER_HOUR, MICROS_PER_MINUTE, MICROS_PER_SEC. lia. Qed.

Lemma rem_fraction z : is_fraction (Z.rem z MICROS_PER_SEC).
Proof. unfold is_fraction, MICROS_PER_SEC. pose proof (Z.rem_bound_abs z 1000000). lia. Qed.

Ltac multiplier := unfold is_multiplier, MICROS_PER_DAY, MICROS_PER_HOUR, MICROS_PER_MINUTE, MICROS_PER_SEC, DAYS_PER_WEEK, DAYS_PER_MONTH; lia.

Lemma safe_add_unit unit r number f :
  is_fraction f -> interval_ok r -> safe interval_ok (add_unit unit r number f).
Proof.
  intros Hf (Hm & Hd & Hu).
  assert (Hmonths : forall m g, is_fraction g -> is_multiplier m ->
            safe interval_ok (let! n := add_i32 (iv_months r) number m g in found (with_months r n))).
  { intros m g Hg Hmul. eapply safe_bind; [by apply safe_add_i32|]. intros n Hn. by apply safe_found. }
  assert (Hdays : forall r' n m g, interval_ok r' -> is_fraction g -> is_multiplier m ->
            safe interval_ok (let! d := add_i32 (iv_days r') n m g in found (with_days r' d))).
  { intros r' n m g (? & ? & ?) Hg Hmul. eapply safe_bind; [by apply safe_add_i32|]. intros d Hd'. by apply safe_found. }
  assert (Hmicros : forall r' n m g, interval_ok r' -> is_fraction g -> is_multiplier m ->
            safe interval_ok (let! us := add_i64 (iv_micros r') n m g in found (with_micros r' us))).
  { intros r' n m g (? & ? & ?) Hg Hmul. eapply safe_bind; [by apply safe_add_i64|]. intros d Hd'. by apply safe_found. }
  assert (H0 : is_fraction 0) by (unfold is_fraction, MICROS_PER_SEC; lia).
  assert (Hs : forall k, 0 <= k <= 7 -> is_i64 (f * k)) by (intros k Hk; apply fraction_product; [done|multiplier]).
  assert (Hr : interval_ok r) by done.
  destruct unit; cbn [add_unit]; try (apply Hmonths; [done|multiplier]); try (apply Hmicros; [done|done|multiplier]).
  - eapply safe_bind; [apply Hmonths; [done|multiplier]|]. intros r' Hr'.
    eapply safe_bind; [apply safe_plain_i64, Hs; lia|]. intros s ->. apply Hdays; [done|apply rem_fraction|multiplier].
  - eapply safe_bind; [apply Hmonths; [done|multiplier]|]. intros r' Hr'. apply Hdays; [done|done|multiplier].
  - eapply safe_bind; [apply Hdays; [done|done|multiplier]|]. intros r' Hr'. apply Hmicros; [done|done|multiplier].
  - eapply safe_bind; [apply Hdays; [done|done|multiplier]|]. intros r' Hr'.
    eapply safe_bind; [apply safe_plain_i64, Hs; unfold DAYS_PER_WEEK; lia|]. intros s ->. apply Hmicros; [done|apply rem_fraction|multiplier].
  - eapply safe_bind; [apply safe_plain_i64, Hs; lia|]. intros s ->.
    eapply safe_bind; [apply safe_checked_i64|]. intros n _. apply Hmicros; [done|done|multiplier].
Qed.

Lemma digits_value s : forall acc, Forall (fun c => is_ascii_digit c = true) s -> 0 <= acc ->
  exists n, parse_digits_from acc s = Some n /\ 0 <= n < (acc + 1) * 10 ^ Z.of_nat (length s).
Proof.
  induction s as [|c s IH]; intros acc Hd Ha; [exists acc; split; [done|]; change (10 ^ Z.of_nat (length (@nil ascii))) with 1; lia|].
  apply Forall_cons in Hd as [Hc Hd]. cbn [parse_digits_from]. rewrite Hc. apply digit_byte in Hc.
  destruct (IH (acc * 10 + (byte_val c - 48)) Hd ltac:(lia)) as (n & Hn & Hb). exists n. split; [done|].
  cbn [length]. rewrite Nat2Z.inj_succ, Z.pow_succ_r by lia. nia.
Qed.

Lemma double_digit_ok s n rest : double_digit s = Some (n, rest) -> 0 <= n <= 99.
Proof.
  unfold double_digit. destruct s as [|c s]; [done|]. destruct (is_ascii_digit c) eqn:Ec; [|done]. apply digit_byte in Ec.
  destruct s as [|d s]; [intros [= <- <-]; lia|]. destruct (is_ascii_digit d) eqn:Ed; intros [= <- <-]; [apply digit_byte in Ed|]; lia.
Qed.

Lemma safe_weaken {A} (P Q : A -> Prop) m : safe P m -> (forall a, P a -> Q a) -> safe Q m.
Proof. intros (o & -> & Ho) HPQ. exists o. split; [done|]. intros a Ha. by apply HPQ, Ho. Qed.

Lemma safe_fraction_of s :
  safe (fun r => 0 <= r.1 <= MICROS_PER_SEC /\ (length r.2 <= length s)%nat)
    (match s with
     | d :: s' => if char_eqb d "." then read_fraction 100000 0 s' else found (0, s)
     | [] => found (0, s)
     end).
Proof.
  destruct s as [|d s]; [apply safe_found; by cbn|].
  destruct (char_eqb d "."); [|apply safe_found; cbn; split; [done|lia]].
  eapply safe_weaken; [apply safe_read_fraction; [lia|lia|by unfold MICROS_PER_SEC]|]. cbn. intros [] []. cbn in *. lia.
Qed.

Lemma safe_parse_interval_time s : safe is_i64 (parse_interval_time s).
Proof.
  unfold parse_interval_time. pose proof (span_all is_ascii_digit s) as Hd.
  destruct (span is_ascii_digit s) as [hours rest]. cbn [fst] in Hd. destruct (9 <? length hours)%nat eqn:E9; [apply safe_absent|].
  apply Nat.ltb_ge in E9. destruct (digits_value hours 0 Hd ltac:(lia)) as (hour & -> & Hh). cbn [default].
  assert (Hhour : 0 <= hour < 1000000000).
  { assert (Hp : 10 ^ Z.of_nat (length hours) <= 10 ^ 9) by (apply Z.pow_le_mono_r; [done|exact (inj_le _ _ E9)]).
    change (10 ^ 9) with 1000000000 in Hp. lia. }
  destruct (is_empty hours); [apply safe_absent|]. destruct rest as [|c rest]; [apply safe_absent|].
  destruct (negb (char_eqb c ":")); [apply safe_absent|].
  eapply (safe_bind (fun r => 0 <= r.1 <= 99)).
  { apply safe_of_option. intros [n r]. destruct (is_empty rest); [intros [= <- <-]; cbn; lia|]. apply double_digit_ok. }
  intros [minute r1] Hm. cbn in Hm. destruct (60 <=? minute) eqn:E60; [apply safe_absent|].
  eapply (safe_bind (fun r => 0 <= r.1 <= 99)).
  { apply safe_of_option. intros [n r]. destruct r1 as [|d r1]; [intros [= <- <-]; cbn; lia|].
    destruct (negb (char_eqb d ":")); [done|]. destruct (is_empty r1); [intros [= <- <-]; cbn; lia|]. apply double_digit_ok. }
  intros [second r2] Hs. cbn in Hs. destruct (60 <=? second) eqn:E61; [apply safe_absent|].
  eapply safe_bind; [apply safe_fraction_of|]. intros [micros r3] [Hu _]. cbn in Hu. unfold MICROS_PER_SEC in Hu.
  set (total := _ + micros). assert (Hi : is_i64 total) by (unfold total, is_i64, i64_min, i64_max, id; lia).
  eapply safe_weaken; [by apply safe_plain_i64|]. by intros a ->.
Qed.

Lemma wrapping_neg_ok z : is_i64 z -> is_i64 (wrapping_neg z).
Proof. unfold wrapping_neg, is_i64, i64_min, i64_max. destruct (z =? _) eqn:E; breflect; lia. Qed.

Lemma parse_i64_digits s n : Forall (fun c => is_ascii_digit c = true) s -> parse_i64 s = Some n -> 0 <= n <= i64_max.
Proof.
  intros Hd. unfold parse_i64, parse_signed. destruct s as [|c s]; [done|]. pose proof Hd as Hd'. apply Forall_cons in Hd' as [Hc _].
  assert (Hsign : forall x : ascii, is_ascii_digit x = false -> char_eqb c x = false).
  { intros x Hx. apply bool_decide_eq_false. intros ->. congruence. }
  rewrite !Hsign by reflexivity. cbn [parse_nonempty]. destruct (digits_value (c :: s) 0 Hd ltac:(lia)) as (m & Hm & Hb).
  unfold parse_nonempty. rewrite Hm. cbn. destruct (_ && _) eqn:E; [|done]. intros [= <-].
  apply andb_true_iff in E as [_ E%Z.leb_le]. lia.
Qed.

Lemma safe_parse_number again r any negative start :
  (forall r' rest, interval_ok r' -> (length rest < length start)%nat -> safe interval_ok (again r' rest)) ->
  interval_ok r -> safe interval_ok (parse_number again r any negative start).
Proof.
  intros Hagain Hr. unfold parse_number. pose proof (span_all is_ascii_digit start) as Hd.
  pose proof (span_length is_ascii_digit start) as Hsl.
  destruct (span is_ascii_digit start) as [digits rest]. cbn [fst snd] in Hd, Hsl.
  match goal with |- context [if ?b then _ else _] => destruct b end.
  { eapply safe_bind; [apply safe_parse_interval_time|]. intros time _. eapply safe_bind; [apply safe_checked_i64|].
    intros micros [_ Hm]. apply safe_found. destruct Hr as (? & ? & _). split_and!; [done|done|].
    cbn. destruct negative; [by apply wrapping_neg_ok|done]. }
  destruct digits as [|d0 digits]; [apply safe_absent|]. cbn [is_empty].
  eapply (safe_bind (fun n => 0 <= n <= i64_max)).
  { apply safe_of_option. intros n. by apply parse_i64_digits. }
  intros n Hn. eapply safe_bind; [apply safe_fraction_of|]. intros [f rest1] [Hf Hrest]. cbn in Hf, Hrest.
  eapply (safe_bind (fun _ => True)).
  { destruct negative; [|by apply safe_found].
    eapply safe_weaken; [apply safe_plain_i64; unfold is_i64, i64_min, i64_max in *; lia|done]. }
  intros n' _. eapply (safe_bind is_fraction).
  { unfold is_fraction. destruct negative; [|apply safe_found; unfold MICROS_PER_SEC in *; lia].
    eapply safe_weaken; [apply safe_plain_i64; unfold is_i64, i64_min, i64_max, MICROS_PER_SEC in *; lia|].
    intros a ->. unfold MICROS_PER_SEC in *; lia. }
  intros f' Hf'. pose proof (span_length is_blank rest1) as Hb1.
  pose proof (span_length is_ascii_alphabetic (span is_blank rest1).2) as Hu.
  destruct (span is_ascii_alphabetic _) as [unit rest2]. cbn [fst snd] in Hu.
  destruct (is_empty _ && negb any).
  - eapply safe_bind; [apply safe_add_i64|].
    1,2: unfold is_fraction; multiplier.
    intros us _. eapply safe_bind; [apply safe_checked_i64|]. intros us' [_ Hus].
    destruct (forallb _ _); [|apply safe_absent]. apply safe_found. by destruct Hr as (? & ? & _).
  - eapply (safe_bind (fun _ => True)); [by apply safe_of_option|]. intros u _.
    eapply safe_bind; [by apply safe_add_unit|]. intros r' Hr'. apply Hagain; [done|]. cbn [length] in Hsl. lia.
Qed.

Lemma safe_parse_parts fuel : forall r any s,
  (length s < fuel)%nat -> interval_ok r -> safe interval_ok (parse_parts fuel r any s).
Proof.
  induction fuel as [|fuel IH]; intros r any s Hl Hr; [lia|]. cbn [parse_parts].
  pose proof (span_length is_blank s) as Hb. destruct (span is_blank s).2 as [|c s'] eqn:Es.
  { destruct any; [by apply safe_found|apply safe_absent]. }
  cbn [length] in Hb. destruct (is_ascii_digit c).
  { apply safe_parse_number; [|done]. intros r' rest Hr' Hlt. apply IH; [|done]. cbn in Hlt. lia. }
  destruct (char_eqb c "-").
  { apply safe_parse_number; [|done]. intros r' rest Hr' Hlt. apply IH; [|done]. lia. }
  destruct (char_eqb (char_to_lower c) "a"); [|apply safe_absent]. destruct (negb _); [apply safe_absent|].
  destruct (_ || _) eqn:Em; [apply safe_absent|]. destruct any; [|apply safe_absent].
  apply safe_found. apply orb_false_iff in Em as [E1%Z.eqb_neq E2%Z.eqb_neq]. destruct Hr as (H1 & H2 & H3).
  unfold is_i32 in *. split_and!; cbn; [unfold is_i32; lia..|by apply wrapping_neg_ok].
Qed.

Lemma safe_interval text : safe interval_ok (parse_duckdb_interval text).
Proof.
  assert (H0 : interval_ok DuckdbInterval_default) by (repeat split; discriminate).
  unfold parse_duckdb_interval. destruct text as [|c rest]; [apply safe_absent|].
  destruct (_ || _); [apply safe_absent|]. apply safe_parse_parts; [|done]. destruct (char_eqb c "@"); cbn; lia.
Qed.

(** C29. Reading an interval is total: for every text the parse ends without a panic, no
    unchecked sum or product overflows, and an interval it finds has months and days of 32
    bits and microseconds of 64. *)
Theorem intervals_never_panic text :
  exists o, parse_duckdb_interval text = Returns (Ok o)
  /\ forall r, o = Some r -> is_i32 (iv_months r) /\ is_i32 (iv_days r) /\ is_i64 (iv_micros r).
Proof.
  exact (safe_interval text).
Qed.

(** ** Whole numbers of a unit *)

(** What one of a unit is worth, in months, days and microseconds. *)
Definition unit_value (u : Unit) : Z * Z * Z :=
  match u with
  | Millennium => (12000, 0, 0) | Century => (1200, 0, 0) | Decade => (120, 0, 0) | UYear => (12, 0, 0)
  | Quarter => (3, 0, 0) | UMonth => (1, 0, 0) | UDay => (0, 1, 0) | Week => (0, 7, 0)
  | UMicrosecond => (0, 0, 1) | UMillisecond => (0, 0, 1000) | USecond => (0, 0, 1000000)
  | Minute => (0, 0, 60000000) | UHour => (0, 0, 3600000000)
  end.

Definition whole_units (u : Unit) (n : Z) : option DuckdbInterval :=
  let '(m, d, us) := unit_value u in
  if in_i32 (n * m) && in_i32 (n * d) && in_i64 (n * us)
  then Some {| iv_months := n * m; iv_days := n * d; iv_micros := n * us |} else None.

Lemma bind_of_option {A B} (o : option A) (k : A -> attempt B) :
  attempt_bind (of_option o) k = match o with Some a => k a | None => absent end.
Proof. by destruct o. Qed.

Lemma bind_found {A B} (a : A) (k : A -> attempt B) : attempt_bind (found a) k = k a.
Proof. done. Qed.

Lemma i32_is_i64 z : in_i32 z = true -> in_i64 z = true.
Proof. rewrite in_i32_spec, in_i64_spec. unfold is_i32, is_i64, i32_max, i64_min, i64_max. lia. Qed.

Lemma add_i32_whole n m : add_i32 0 n m 0 = of_option (if in_i32 (n * m) then Some (n * m) else None).
Proof.
  unfold add_i32, checked_i64, checked_i32. rewrite bind_of_option. destruct (in_i32 (n * m)) eqn:E.
  - rewrite (i32_is_i64 _ E), bind_of_option, E, bind_of_option, Z.add_0_l, E. done.
  - destruct (in_i64 (n * m)); [|done]. by rewrite bind_of_option, E.
Qed.

Lemma add_i64_whole n m : add_i64 0 n m 0 = of_option (if in_i64 (n * m) then Some (n * m) else None).
Proof.
  unfold add_i64, checked_i64. rewrite bind_of_option. destruct (in_i64 (n * m)) eqn:E; [|done].
  by rewrite bind_of_option, Z.add_0_l, E.
Qed.

Lemma add_unit_whole u n : in_i64 n = true -> add_unit u DuckdbInterval_default n 0 = of_option (whole_units u n).
Proof.
  intros Hn. assert (Z1 : in_i32 0 = true) by done. assert (Z2 : in_i64 0 = true) by done.
  destruct u; unfold add_unit, whole_units, unit_value; cbn [iv_months iv_days iv_micros DuckdbInterval_default];
    rewrite ?Z.mul_0_r, ?Z1, ?Z2, ?andb_true_r, ?andb_true_l.
  9:{ change (plain_i64 (0 * 2)) with (found 0). rewrite bind_found. change (Z.quot 0 MICROS_PER_SEC) with 0.
      rewrite Z.add_0_r. unfold checked_i64. rewrite bind_of_option, Hn, add_i64_whole, bind_of_option. by destruct (in_i64 (n * _)). }
  all: rewrite ?add_i32_whole, ?add_i64_whole, !bind_of_option; unfold DAYS_PER_WEEK, MICROS_PER_HOUR, MICROS_PER_MINUTE, MICROS_PER_SEC.
  all: change (60 * (60 * 1000000)) with 3600000000; change (60 * 1000000) with 60000000.
  all: match goal with |- context [if ?b then _ else _] => destruct b; reflexivity end.
Qed.

(** ** Texts of a number and a unit *)

Lemma alphabetic_not_blank c : is_ascii_alphabetic c = true -> is_blank c = false.
Proof.
  intros Hc. unfold is_blank. apply not_true_iff_false. rewrite !orb_true_iff. unfold char_eqb. rewrite !bool_decide_eq_true.
  intros [[->| ->]| ->]; by vm_compute in Hc.
Qed.

Lemma digit_not c x : is_ascii_digit c = true -> is_ascii_digit x = false -> char_eqb c x = false.
Proof. intros Hc Hx. apply bool_decide_eq_false. intros ->. congruence. Qed.

(** A count of a unit means what its unit means: a number, a blank and the name of a unit,
    in any case, is that many of the unit's months, days or microseconds, and refused exactly
    when they do not fit the interval's fields. *)
Theorem counted_units_scale n name u :
  0 <= n <= i64_max -> Forall (fun c => is_ascii_alphabetic c = true) name -> unit_of (to_ascii_lowercase name) = Some u ->
  parse_duckdb_interval (show_u n ++ " " ++ name) = Returns (Ok (whole_units u n)).
Proof.
  intros Hn Ha Hu. destruct (show_u_head n) as (c & s & Es & Hc); [lia|].
  assert (Hname : name <> []) by (intros ->; by vm_compute in Hu).
  assert (Hd : Forall (fun c => is_ascii_digit c = true) (show_u n)) by (apply show_u_digits; lia).
  unfold parse_duckdb_interval. rewrite Es. cbn [app]. rewrite !(digit_not c) by done. cbn [orb].
  set (fuel := length _). cbn [parse_parts]. cbn [span]. replace (is_blank c) with false.
  2:{ symmetry. unfold is_blank. by rewrite !(digit_not c). }
  cbn [snd]. rewrite Hc. unfold parse_number.
  change (c :: s ++ lit " " ++ name) with ((c :: s) ++ (lit " " ++ name)). rewrite <- Es, span_run; [|done|done].
  change (lit " " ++ name) with (" "%char :: name). change (char_eqb " " ":") with false. cbv iota.
  replace (is_empty (show_u n)) with false by (by rewrite Es).
  assert (Hparse : parse_i64 (show_u n) = Some n).
  { replace (show_u n) with (show_Z n) by (unfold show_Z; by replace (n <? 0) with false by lia).
    apply parse_show_i64, in_i64_spec. unfold is_i64, i64_min in *. lia. }
  rewrite bind_of_option, Hparse. change (char_eqb " " ".") with false. cbv beta iota. rewrite bind_found. cbv beta iota.
  rewrite !bind_found.
  replace (span is_blank (" "%char :: name)) with ([" "%char], name).
  2:{ symmetry. apply (span_run is_blank [" "%char]); [by repeat constructor|]. destruct name as [|a name]; [done|].
      apply Forall_cons in Ha as [Ha _]. by apply alphabetic_not_blank. }
  cbn [snd]. rewrite <- (app_nil_r name), span_run by done. cbv iota zeta. rewrite app_nil_r.
  replace (is_empty (to_ascii_lowercase name)) with false by (by destruct name).
  cbn [andb]. rewrite bind_of_option, Hu, add_unit_whole, bind_of_option by (apply in_i64_spec; unfold is_i64, i64_min in *; lia).
  destruct (whole_units u n); [|done]. unfold fuel. reflexivity.
Qed.

Lemma counted_units_scale_witness :
  parse_duckdb_interval (lit "36 Hours") = Returns (Ok (Some {| iv_months := 0; iv_days := 0; iv_micros := 129600000000 |})).
Proof.
  refine (counted_units_scale 36 (lit "Hours") UHour _ _ _).
  - split; discriminate.
  - repeat constructor.
  - vm_compute. reflexivity.
Defined.

(** An older-than cutoff is not in the future, and reading the option never panics. *)
Lemma older_than_is_past `{Chrono} interval now :
  exists r, older_than interval now = Returns r /\ forall cutoff, r = Ok cutoff -> later cutoff now = false.
Proof.
  unfold older_than, interval_before. destruct (safe_interval interval) as (o & -> & _). cbn [outcome_bind].
  destruct (let? _ := ok_or o _ in _) as [cutoff|e]; cbn [outcome_bind]; [|by eexists].
  destruct (later cutoff now) eqn:E; (eexists; split; [reflexivity|]); [done|]. by intros ? [= <-].
Qed.
