(* ===== verification/DoubleCast.v ===== *)
(** * Casts to [DOUBLE] and memory limits

    [varchar_to_double], [parse_memory_limit] and [double_to_std_string] of
    [duckdb_cast.rs]. A double is a [spec_float] of 53 bits, or a NaN with its sign. Rust's
    [str::parse::<f64>] rounds the decimal number correctly, and so does [f64_of_decimal]: it
    normalises an integer, or divides two integers, with the standard rounding; [{:.6}] prints
    the exact value rounded to six digits, ties to even. *)

From S2P Require Import Prelude RustStd StatsOrder DuckdbCast.
From Stdlib Require Import SpecFloat.
#[local] Open Scope Z_scope.

Inductive F64 :=
| Nan (negative : bool)
| Num (v : spec_float).

(** ** Parsing *)

Definition prec : Z := 53.
Definition emax : Z := 1024.
Definition f64_of_Z (n : Z) : spec_float := binary_normalize prec emax n 0 false.

(** The double nearest to [m * 10^e], for [m] from 0. *)
Definition f64_of_decimal (negative : bool) (m e : Z) : spec_float :=
  let magnitude :=
    match m with
    | Zpos p =>
        if 0 <=? e then f64_of_Z (m * 10 ^ e)
        else match 10 ^ (- e) with
             | Zpos q => SFdiv prec emax (S754_finite false p 0) (S754_finite false q 0)
             | _ => S754_nan
             end
    | _ => S754_zero false
    end in
  if negative then SFopp magnitude else magnitude.

(** The closure [read_digits]: digits with single [_] between them. *)
Fixpoint read_digits (s : str) : option (str * str) :=
  match s with
  | c :: s' =>
      if is_ascii_digit c then
        match s' with
        | u :: s'' =>
            if char_eqb u "_" then
              if starts_with_digit s'' then (fun r => (c :: r.1, r.2)) <$> read_digits s'' else None
            else (fun r => (c :: r.1, r.2)) <$> read_digits s'
        | [] => Some ([c], [])
        end
      else Some ([], s)
  | [] => Some ([], [])
  end.

(** The exponent: [e], a sign and digits, or nothing read. *)
Definition read_exponent_part (s : str) : option (Z * str) :=
  match s with
  | c :: s' =>
      if char_eqb c "e" || char_eqb c "E" then
        let '(negative, digits) :=
          match s' with
          | d :: s'' => if char_eqb d "-" then (true, s'') else if char_eqb d "+" then (false, s'') else (false, s')
          | [] => (false, s')
          end in
        if starts_with_digit digits then
          (fun r => let n := default 0 (parse_nonempty r.1) in ((if negative : bool then - n else n), r.2))
            <$> read_digits digits
        else Some (0, s)
      else Some (0, s)
  | [] => Some (0, s)
  end.

(** The number after the sign. *)
Definition decimal_number (negative : bool) (body : str) : option spec_float :=
  '(whole, rest) ← read_digits body;
  '(fraction, rest) ← match rest with
                      | c :: rest' => if char_eqb c "." then read_digits rest' else Some ([], rest)
                      | [] => Some ([], rest)
                      end;
  if bool_decide (whole ++ fraction = []) then None
  else
    '(exponent, rest) ← read_exponent_part rest;
    if bool_decide (rest = []) then
      Some (f64_of_decimal negative (default 0 (parse_nonempty (whole ++ fraction)))
              (exponent - Z.of_nat (length fraction)))
    else None.

(** [varchar_to_double]. *)
Definition varchar_to_double (input : str) : option F64 :=
  let buf := reverse (drop_while is_space (reverse (drop_while is_space input))) in
  let buf := match buf with c :: buf' => if char_eqb c "+" then buf' else buf | [] => buf end in
  let '(negative, body) :=
    match buf with c :: buf' => if char_eqb c "-" then (true, buf') else (false, buf) | [] => (false, buf) end in
  let special := to_ascii_lowercase body in
  if str_eqb special "inf" || str_eqb special "infinity" then Some (Num (S754_infinity negative))
  else if str_eqb special "nan" then Some (Nan negative)
  else Num <$> decimal_number negative body.

(** ** Memory limits *)

(** [f64 as u64]: towards zero, within the type, NaN as zero. *)
Definition as_u64 (v : spec_float) : Z :=
  match v with
  | S754_finite false m e => Z.min u64_max (if 0 <=? e then Zpos m * 2 ^ e else Zpos m / 2 ^ (- e))
  | S754_infinity false => u64_max
  | _ => 0
  end.

Definition memory_unit (unit : str) : option Z :=
  let named names := existsb (str_eqb unit) names in
  if named ["byte" : str; "bytes" : str; "b" : str] then Some 1
  else if named ["kilobyte" : str; "kilobytes" : str; "kb" : str; "k" : str] then Some 1000
  else if named ["megabyte" : str; "megabytes" : str; "mb" : str; "m" : str] then Some 1000000
  else if named ["gigabyte" : str; "gigabytes" : str; "gb" : str; "g" : str] then Some 1000000000
  else if named ["terabyte" : str; "terabytes" : str; "tb" : str; "t" : str] then Some 1000000000000
  else if named ["kib" : str] then Some (2 ^ 10)
  else if named ["mib" : str] then Some (2 ^ 20)
  else if named ["gib" : str] then Some (2 ^ 30)
  else if named ["tib" : str] then Some (2 ^ 40)
  else None.

Definition is_number_byte (c : ascii) : bool :=
  is_ascii_digit c || char_eqb c "." || char_eqb c "e" || char_eqb c "E" || char_eqb c "-".

(** [u64::MAX as f64], which is 2^64. *)
Definition u64_max_f64 : spec_float := f64_of_Z (2 ^ 64).

(** [parse_memory_limit]; an error is DuckDB's message. *)
Definition parse_memory_limit (input : str) : str + Z :=
  if starts_with "-" input || str_eqb input "null" || str_eqb input "none" then inr u64_max
  else
    let (number, rest) := span is_number_byte (drop_while is_space input) in
    if bool_decide (number = []) then inl (lit "Memory must have a number (e.g. 1GB)")
    else match varchar_to_double number with
    | None => inl ("Invalid memory limit: '" ++ number ++ "'")
    | Some limit =>
        let unit := (span (fun c => negb (is_space c)) (drop_while is_space rest)).1 in
        let limit := match limit with Num v => v | Nan _ => S754_nan end in
        if SFltb limit (S754_zero false) then inr u64_max
        else
          let unit := to_ascii_lowercase unit in
          match memory_unit unit with
          | None => inl ("Unknown unit for memory: '" ++ unit ++ "' (expected: KB, MB, GB, TB for 1000^i units or "
                         ++ "KiB, MiB, GiB, TiB for 1024^i units)")
          | Some multiplier =>
              let multiplier := f64_of_Z multiplier in
              if SFltb (SFdiv prec emax u64_max_f64 multiplier) limit
              then inl (lit "Memory value out of range: value is too large")
              else inr (as_u64 (SFmul prec emax multiplier limit))
          end
    end.

(** ** Printing *)

(** [n / d] to the nearest integer, ties to even. *)
Definition round_half_even (n d : Z) : Z :=
  let q := n / d in
  let r := n mod d in
  match 2 * r ?= d with
  | Lt => q
  | Gt => q + 1
  | Eq => if Z.even q then q else q + 1
  end.

Definition print_millionths (negative : bool) (n : Z) : str :=
  (if negative then lit "-" else []) ++ show_u (n / 1000000) ++ "." ++ pad_zeros 6 (show_u (n mod 1000000)).

(** [double_to_std_string]. *)
Definition double_to_std_string (value : F64) : str :=
  match value with
  | Nan negative => if negative then "-nan" else "nan"
  | Num (S754_infinity negative) => if negative then "-inf" else "inf"
  | Num (S754_finite negative m e) =>
      print_millionths negative
        (if 0 <=? e then Zpos m * 2 ^ e * 1000000 else round_half_even (Zpos m * 1000000) (2 ^ (- e)))
  | Num (S754_zero negative) => print_millionths negative 0
  | Num S754_nan => "nan"
  end.

(** The values of the module's own tests. *)
Example memory_limits :
  parse_memory_limit <$> ["1.5b" : str; "1kb" : str; "1k" : str; "-1" : str; "none" : str; " 3 MB extra" : str; "0 b" : str;
    "1e2KiB" : str; " -1 kb" : str; "1.5MB" : str; "2 GiB" : str]
  = [inr 1; inr 1000; inr 1000; inr u64_max; inr u64_max; inr 3000000; inr 0; inr 102400; inr u64_max; inr 1500000;
     inr 2147483648].
Proof. vm_compute. reflexivity. Qed.

Example refused_memory_limits :
  parse_memory_limit <$> ["abc" : str; "1-2 kb" : str; "" : str; "1e30 tb" : str]
  = [inl (lit "Memory must have a number (e.g. 1GB)"); inl (lit "Invalid memory limit: '1-2'");
     inl (lit "Memory must have a number (e.g. 1GB)"); inl (lit "Memory value out of range: value is too large")].
Proof. vm_compute. reflexivity. Qed.

Example printed_doubles :
  fmap double_to_std_string <$> (varchar_to_double <$> ["0.5" : str; "0.1234567" : str; "1e-7" : str; "-0.0" : str;
    "1" : str; "NaN" : str; "-inf" : str; "0.0078125" : str])
  = [Some (lit "0.500000"); Some (lit "0.123457"); Some (lit "0.000000"); Some (lit "-0.000000"); Some (lit "1.000000");
     Some (lit "nan"); Some (lit "-inf"); Some (lit "0.007812")].
Proof. vm_compute. reflexivity. Qed.
