(* ===== verification/PartitionCounts.v ===== *)
(** * Row counts of partition values

    [partition_counts.rs], the facts it counts from as the SQLite provider reads them
    ([get_partition_count_facts] of [metadata_provider_sqlite.rs], over the tables of
    [CatalogDb]; [data_file_id] is a key, so the statement's groups are the visible files),
    and [DuckLakeTable::partition_live_row_counts] of [table.rs]. The theorem relates a count
    the catalog gives as exact to the rows a scan returns. *)

From S2P Require Import Prelude RustStd Arrow StatsOrder FloatText StatsRollup WriterTypes DuckdbCast ChangeLedger Conflicts PathResolver Partition PartitionSplit RowIds WriterChecks Types ColumnTrees SortSpec InlinedTypes CatalogDb CatalogSnapshots CatalogTables CatalogCommits CatalogAdmin CatalogReads CatalogHistory CatalogInit.

(** ** Facts *)

Inductive PartitionCountUnknown :=
| UUnsupported | NotAPartitionKey | NotIdentityKey | AmbiguousKey | FloatKey | NonCanonicalValue | SnapshotMissing
| UnattributedFile | InlinedRows | MissingRecordCount | PartialFile | MultipleDeleteFiles | InvalidDeleteCount
| PartialDeleteFile | InlinedDeletesWithDeleteFile | UOverflow.

Inductive PartitionRowCount :=
| Exact (rows : Z)
| UnknownCount (reason : PartitionCountUnknown).

Record PartitionCountFile := {
  cf_data_file_id : Z;
  cf_partition_id : option Z;
  cf_value_rows : Z;
  cf_partition_value : option str;
  cf_record_count : option Z;
  cf_partial_max : option Z;
  cf_delete_files : Z;
  cf_delete_count : option Z;
  cf_delete_partial_max : option Z;
}.

Record PartitionCountFacts := {
  snapshot_exists : bool;
  inlined_rows_visible : bool;
  stored_values : list str;
  pf_files : list PartitionCountFile;
}.

Record CountRead := {
  cr_snapshot_id : Z;
  cr_at_head : bool;
  cr_partition_id : Z;
  cr_key_type : DataType;
}.

(** The reads a scan of inlined deletions returns: data files and row positions. *)
Abbreviation InlinedDeletes := (list (Z * Z)).

Section counts.
(** Rust's formatting of the two float types, and [parse_ducklake_scalar], whose leaves are
    Arrow's parsers. *)
Context (F32 F64 : FloatFormat) (parse_ducklake_scalar : str -> DataType -> option ScalarValue).

(** [is_canonical_partition_value]. *)
Definition is_canonical_partition_value (value : str) (data_type : DataType) : bool :=
  match data_type with
  | Utf8 | LargeUtf8 | Utf8View => true
  | _ => bool_decide ((scalar ← parse_ducklake_scalar value data_type; encode_scalar F32 F64 scalar) = Some value)
  end.

(** [live_rows]. *)
Definition live_rows (file : PartitionCountFile) (read : CountRead) (inlined : option (gset Z))
  : PartitionCountUnknown + Z :=
  match cf_record_count file with
  | None => inl MissingRecordCount
  | Some rows =>
      if rows <? 0 then inl MissingRecordCount
      else if match cf_partial_max file with Some max => cr_snapshot_id read <? max | None => false end
      then inl PartialFile
      else
        let deleted :=
          if cf_delete_files file =? 0 then inr 0
          else if cf_delete_files file =? 1 then
            let complete := match cf_delete_partial_max file with
                            | Some max => max <=? cr_snapshot_id read
                            | None => cr_at_head read
                            end in
            if negb complete then inl PartialDeleteFile
            else match cf_delete_count file with
                 | Some deleted => if (0 <=? deleted) && (deleted <=? rows) then inr deleted else inl InvalidDeleteCount
                 | None => inl InvalidDeleteCount
                 end
          else inl MultipleDeleteFiles in
        match deleted with
        | inl reason => inl reason
        | inr deleted =>
            let inlined := match inlined with
                           | None => 0
                           | Some positions => Z.of_nat (size (filter (fun p => 0 <= p /\ p < rows) positions))
                           end in
            if (0 <? inlined) && (0 <? cf_delete_files file) then inl InlinedDeletesWithDeleteFile
            else inr (Z.max 0 (rows - deleted - inlined))
        end
  end.

(** The positions of the inlined deletions of each file. *)
Definition inlined_by_file (deletes : InlinedDeletes) : gmap Z (gset Z) :=
  foldl (fun by_file delete => partial_alter (fun set => Some ({[delete.2]} ∪ default ∅ set)) delete.1 by_file) ∅ deletes.

(** One file of [resolve_partition_counts]: the counts and the files counted so far. *)
Definition count_file (read : CountRead) (by_file : gmap Z (gset Z)) (acc : gmap str PartitionRowCount * gset Z)
  (file : PartitionCountFile) : gmap str PartitionRowCount * gset Z :=
  let (counts, seen) := acc in
  match cf_partition_value file with
  | None => acc
  | Some value =>
      match counts !! value with
      | None => acc
      | Some count =>
          if bool_decide (cf_data_file_id file ∈ seen) then acc
          else
            let seen := {[cf_data_file_id file]} ∪ seen in
            match count with
            | UnknownCount _ => (counts, seen)
            | Exact total =>
                (<[value := match live_rows file read (by_file !! cf_data_file_id file) with
                            | inr live => if in_u64 (total + live) then Exact (total + live) else UnknownCount UOverflow
                            | inl reason => UnknownCount reason
                            end]> counts, seen)
            end
      end
  end.

Definition all_unknown (values : list str) (reason : PartitionCountUnknown) : gmap str PartitionRowCount :=
  list_to_map ((fun value => (value, UnknownCount reason)) <$> values).

(** [resolve_partition_counts]. *)
Definition resolve_partition_counts (values : list str) (read : CountRead) (facts : option PartitionCountFacts)
  (inlined_deletes : InlinedDeletes) : gmap str PartitionRowCount :=
  match facts with
  | None => all_unknown values UUnsupported
  | Some facts =>
      if negb (snapshot_exists facts) then all_unknown values SnapshotMissing
      else if inlined_rows_visible facts then all_unknown values InlinedRows
      else if existsb (fun file => negb (bool_decide (cf_partition_id file = Some (cr_partition_id read)))
                                   || negb (cf_value_rows file =? 1)) (pf_files facts)
              || existsb (fun value => negb (is_canonical_partition_value value (cr_key_type read)))
                   (stored_values facts)
      then all_unknown values UnattributedFile
      else
        let counts : gmap str PartitionRowCount := list_to_map ((fun value =>
          (value, if is_canonical_partition_value value (cr_key_type read) then Exact 0
                  else UnknownCount NonCanonicalValue)) <$> values) in
        (foldl (count_file read (inlined_by_file inlined_deletes)) (counts, ∅) (pf_files facts)).1
  end.

(** ** Facts from the catalog *)

Context `{InlineValues} `{SortParser}.

(** The values a file has for a key, and the delete files visible for it. *)
Definition key_values (table_id key_index data_file_id : Z) (db : Db) : list (option str) :=
  pv_value <$> select (fun row => (pv_table_id row =? table_id) && (pv_key_index row =? key_index)
                                  && (pv_data_file_id row =? data_file_id)) (t_file_partition_values db).
Definition visible_deletes (table_id snapshot_id data_file_id : Z) (db : Db) : list DeleteFileRow :=
  v_row <$> select (fun v => of_table x_data_file_id data_file_id v && of_table x_table_id table_id v
                             && visible snapshot_id v) (t_delete_files db).

(** A row of the statement of [get_partition_count_facts]. *)
Definition count_file_row (table_id snapshot_id key_index : Z) (db : Db) (file : DataFileRow) : PartitionCountFile :=
  let values := key_values table_id key_index (d_id file) db in
  let deletes := visible_deletes table_id snapshot_id (d_id file) db in
  let the_delete {A} (f : DeleteFileRow -> option A) := match deletes with [delete] => f delete | _ => None end in
  {| cf_data_file_id := d_id file; cf_partition_id := d_partition_id file;
     cf_value_rows := Z.of_nat (length values);
     cf_partition_value := match values with [value] => value | _ => None end;
     cf_record_count := Some (d_record_count file); cf_partial_max := d_partial_max file;
     cf_delete_files := Z.of_nat (length deletes);
     cf_delete_count := the_delete (fun delete => Some (x_delete_count delete));
     cf_delete_partial_max := the_delete x_partial_max |}.

(** The files a scan of the table reads. *)
Definition visible_files (table_id snapshot_id : Z) (db : Db) : list DataFileRow :=
  v_row <$> select (fun v => of_table d_table_id table_id v && visible snapshot_id v) (t_data_files db).

(** Whether an inlined table has a visible row, up to the first that has; an error when one
    is missing. *)
Fixpoint any_visible_inlined (snapshot_id : Z) (db : Db) (names : list str) : result bool :=
  match names with
  | [] => Ok false
  | name :: rest =>
      let? table := ok_or (t_inlined_data db !! name) (External "no such table") in
      let? _ := system_from_columns name (p_columns table) in
      if existsb (visible snapshot_id) (p_rows table) then Ok true else any_visible_inlined snapshot_id db rest
  end.

(** [get_partition_count_facts]. *)
Definition get_partition_count_facts (table_id snapshot_id partition_id key_index : Z) (values : list str) (db : Db)
  : result PartitionCountFacts :=
  if negb (existsb (fun row => s_id row =? snapshot_id) (t_snapshots db)) then
    Ok {| snapshot_exists := false; inlined_rows_visible := false; stored_values := []; pf_files := [] |}
  else
    let? inlined := any_visible_inlined snapshot_id db (registered_inlined_tables table_id db) in
    let rows := count_file_row table_id snapshot_id key_index db <$> visible_files table_id snapshot_id db in
    Ok {| snapshot_exists := true; inlined_rows_visible := inlined;
          stored_values := elements (list_to_set (C := gset str) (omap cf_partition_value rows));
          pf_files := select (fun file =>
            match cf_partition_value file with Some value => bool_decide (value ∈ values) | None => false end
            || negb ((cf_value_rows file =? 1) && bool_decide (cf_partition_id file = Some partition_id))) rows |}.

Definition is_float_type (data_type : DataType) : bool :=
  match data_type with Float16 | Float32 | Float64 => true | _ => false end.

(** [DuckLakeTable::partition_live_row_counts], of a table with its spec and columns. *)
Definition partition_live_row_counts (table_id snapshot_id : Z) (spec : option PartitionSpec)
  (columns : list DuckLakeTableColumn) (column : str) (values : list str) (db : Db)
  : result (gmap str PartitionRowCount) :=
  match spec, find_first (fun candidate => str_eqb (tc_column_name candidate) column) columns with
  | Some spec, Some key_column =>
      match select (fun key => sc_column_id key =? tc_column_id key_column) (ps_columns spec) with
      | [] => Ok (all_unknown values NotAPartitionKey)
      | [key] =>
          if negb (bool_decide (sc_transform key = Identity)) then Ok (all_unknown values NotIdentityKey)
          else
            let? key_type := column_data_type key_column in
            if is_float_type key_type then Ok (all_unknown values FloatKey)
            else
              let? facts := get_partition_count_facts table_id snapshot_id (ps_partition_id spec)
                              (partition_key_index key) values db in
              let? inlined_deletes := get_inlined_deletes table_id snapshot_id db in
              let read := {| cr_snapshot_id := snapshot_id;
                             cr_at_head := get_current_snapshot db =? snapshot_id;
                             cr_partition_id := ps_partition_id spec; cr_key_type := key_type |} in
              Ok (resolve_partition_counts values read (Some facts) inlined_deletes)
      | _ => Ok (all_unknown values AmbiguousKey)
      end
  | _, _ => Ok (all_unknown values NotAPartitionKey)
  end.
End counts.

(** ** What a scan returns *)

(** The rows of the files: the snapshot that wrote each row of a data file (a file merged
    from several snapshots keeps each row's own), and the positions a delete file holds,
    each with the snapshot of its deletion. *)
Record Contents := {
  row_born : Z -> Z -> Z;
  deletions : Z -> list (Z * Z);
}.

Section scans.
Context `{InlineValues} `{SortParser} (c : Contents) (table_id t : Z) (db : Db).

Abbreviation deletes_of file := (visible_deletes table_id t (d_id file) db).

(** The positions a scan at [t] drops from a file. *)
Definition dropped (inlined : InlinedDeletes) (file : DataFileRow) : gset Z :=
  list_to_set ((x ← deletes_of file; fst <$> select (fun d => d.2 <=? t) (deletions c (x_id x)))
               ++ (snd <$> select (fun d => d.1 =? d_id file) inlined)).

(** The positions it returns. *)
Definition scanned_rows (inlined : InlinedDeletes) (file : DataFileRow) : list Z :=
  select (fun p => (row_born c (d_id file) p <=? t) && negb (bool_decide (p ∈ dropped inlined file)))
    (seqZ 0 (d_record_count file)).

(** The catalog's counters are right about the files: a file holds no row of a snapshot past
    its [partial_max], nor without one past [t]; a delete file holds [delete_count] positions
    of its data file, and no deletion past its [partial_max], nor without one past the head. *)
Definition truthful : Prop :=
  Forall (fun file =>
    (forall p, row_born c (d_id file) p <= default t (d_partial_max file))
    /\ Forall (fun x =>
         let D := deletions c (x_id x) in
         NoDup (fst <$> D) /\ Z.of_nat (length D) = x_delete_count x
         /\ Forall (fun d => 0 <= d.1 < d_record_count file
                             /\ d.2 <= default (get_current_snapshot db) (x_partial_max x)) D)
       (deletes_of file)) (visible_files table_id t db).

Lemma inlined_by_file_spec inlined id :
  default ∅ (inlined_by_file inlined !! id) = list_to_set (snd <$> select (fun d => d.1 =? id) inlined) :> gset Z.
Proof.
  unfold inlined_by_file. set (m := (∅ : gmap Z (gset Z))).
  transitivity (list_to_set (C := gset Z) (snd <$> select (fun d => d.1 =? id) inlined) ∪ default ∅ (m !! id)).
  2:{ unfold m. rewrite lookup_empty. cbn. set_solver. }
  clearbody m. revert m. induction inlined as [|[f p] inlined IH]; intros m; [cbn; set_solver|].
  cbn [foldl]. rewrite IH. unfold select. cbn [List.filter fst]. destruct (Z.eqb_spec f id) as [->|Hn].
  - rewrite lookup_partial_alter_eq. cbn. set_solver.
  - rewrite lookup_partial_alter_ne by done. done.
Qed.

(** The positions of a file outside a set. *)
Lemma length_outside n (X : gset Z) :
  0 <= n ->
  Z.of_nat (length (select (fun p => negb (bool_decide (p ∈ X))) (seqZ 0 n)))
  = n - Z.of_nat (size (filter (fun p => 0 <= p /\ p < n) X)).
Proof.
  intros Hn. set (S := list_to_set (C := gset Z) (seqZ 0 n)).
  assert (HS : size S = Z.to_nat n) by (unfold S; rewrite size_list_to_set; [apply length_seqZ|apply NoDup_seqZ]).
  assert (E : length (select (fun p => negb (bool_decide (p ∈ X))) (seqZ 0 n)) = size (S ∖ X)).
  { rewrite <- (size_list_to_set (C := gset Z)).
    - f_equal. apply leibniz_equiv. intros p. rewrite elem_of_list_to_set, elem_of_select, elem_of_difference.
      unfold S. rewrite elem_of_list_to_set, negb_true_iff, bool_decide_eq_false. tauto.
    - apply NoDup_ListNoDup, List.NoDup_filter, NoDup_ListNoDup, NoDup_seqZ. }
  rewrite E. replace (filter _ X) with (X ∩ S).
  - assert (size S = size (S ∖ X) + size (X ∩ S))%nat; [|lia].
    rewrite <- size_union by set_solver. f_equal. apply leibniz_equiv. intros p. destruct (decide (p ∈ X)); set_solver.
  - apply leibniz_equiv. intros p. unfold S. rewrite elem_of_filter, elem_of_intersection, elem_of_list_to_set, elem_of_seqZ.
    split; intros; destruct_and!; split_and!; try done; lia.
Qed.

Lemma select_every {A} (p : A -> bool) l : Forall (fun a => p a = true) l -> select p l = l.
Proof. induction 1 as [|a l Ha _ IH]; [done|]. unfold select in *. cbn. by rewrite Ha, IH. Qed.

Lemma filter_nil_of_size (P : Z -> Prop) `{!forall x, Decision (P x)} (X : gset Z) :
  ~ 0 < Z.of_nat (size (filter P X)) -> filter P X = ∅.
Proof. intros Hs. apply leibniz_equiv, size_empty_inv. lia. Qed.

(** A file written and deleted from up to [t]. *)
Lemma scanned_outside inlined file :
  0 <= d_record_count file -> (forall p, row_born c (d_id file) p <= t) ->
  Z.of_nat (length (scanned_rows inlined file))
  = d_record_count file
    - Z.of_nat (size (filter (fun p => 0 <= p /\ p < d_record_count file) (dropped inlined file))).
Proof.
  intros Hn Hb. rewrite <- length_outside by done. f_equal. f_equal. apply select_ext. intros p.
  specialize (Hb p). by replace (row_born c (d_id file) p <=? t) with true by lia.
Qed.

(** With one delete file, all of whose deletions count, and no inlined one. *)
Lemma dropped_one inlined file x :
  deletes_of file = [x] -> Forall (fun d => 0 <= d.1 < d_record_count file /\ d.2 <= t) (deletions c (x_id x)) ->
  NoDup (fst <$> deletions c (x_id x)) ->
  filter (fun p => 0 <= p /\ p < d_record_count file)
    (list_to_set (C := gset Z) (snd <$> select (fun d => d.1 =? d_id file) inlined)) = ∅ ->
  size (filter (fun p => 0 <= p /\ p < d_record_count file) (dropped inlined file)) = length (deletions c (x_id x)).
Proof.
  intros Hx Hd Hn Hi. rewrite Forall_forall in Hd.
  transitivity (size (list_to_set (C := gset Z) (fst <$> deletions c (x_id x)))).
  - f_equal. apply leibniz_equiv. intros p. unfold dropped. rewrite Hx. cbn [mbind list_bind]. rewrite app_nil_r, select_every.
    2:{ apply Forall_forall. intros d Hin. destruct (Hd d Hin). lia. }
    rewrite elem_of_filter, list_to_set_app, elem_of_union. split; [|].
    + intros [Hr [Hp|Hp]]; [done|]. exfalso. apply (not_elem_of_empty (C := gset Z) p). rewrite <- Hi.
      by apply elem_of_filter.
    + intros Hp. split; [|by left]. apply elem_of_list_to_set, list_elem_of_fmap in Hp as (d & -> & Hin).
      destruct (Hd d Hin). lia.
  - rewrite size_list_to_set by done. apply length_fmap.
Qed.

Lemma live_rows_scanned key_index (partition_id : Z) (key_type : DataType) inlined file r :
  truthful -> file ∈ visible_files table_id t db ->
  live_rows (count_file_row table_id t key_index db file)
    {| cr_snapshot_id := t; cr_at_head := get_current_snapshot db =? t; cr_partition_id := partition_id;
       cr_key_type := key_type |} (inlined_by_file inlined !! d_id file) = inr r ->
  r = Z.of_nat (length (scanned_rows inlined file)).
Proof.
  intros Ht Hin E. unfold truthful in Ht. rewrite Forall_forall in Ht. destruct (Ht file Hin) as [Hb Hdel].
  unfold live_rows in E. cbn [cf_record_count count_file_row cf_partial_max cr_snapshot_id cf_delete_files cf_delete_count
    cf_delete_partial_max cr_at_head] in E.
  destruct (d_record_count file <? 0) eqn:En; [done|].
  destruct (match d_partial_max file with Some max => t <? max | None => false end) eqn:Ep; [done|].
  assert (Hborn : forall p, row_born c (d_id file) p <= t).
  { intros p. specialize (Hb p). destruct (d_partial_max file); cbn in Hb; lia. }
  rewrite scanned_outside by (done || lia).
  set (k := match inlined_by_file inlined !! d_id file with Some _ => _ | None => _ end) in E.
  assert (Hk : k = Z.of_nat (size (filter (fun p => 0 <= p /\ p < d_record_count file)
                 (list_to_set (C := gset Z) (snd <$> select (fun d => d.1 =? d_id file) inlined))))).
  { rewrite <- inlined_by_file_spec. unfold k. by destruct (inlined_by_file inlined !! d_id file). }
  clearbody k. destruct (deletes_of file) as [|x [|y l]] eqn:Ex; cbn [length] in E.
  - change (Z.of_nat 0 =? 0) with true in E. cbv iota in E. rewrite andb_false_r in E. injection E as <-.
    unfold dropped. rewrite Ex. cbn [mbind list_bind app]. rewrite <- Hk.
    pose proof (length_outside (d_record_count file) (list_to_set (C := gset Z) (snd <$> select (fun d => d.1 =? d_id file) inlined)) ltac:(lia)) as Hl. lia.
  - change (Z.of_nat 1 =? 0) with false in E. change (Z.of_nat 1 =? 1) with true in E. cbv iota in E.
    rewrite Forall_singleton in Hdel. destruct Hdel as (Hnd & Hlen & Hds).
    destruct (negb _) eqn:Ec in E; [done|]. destruct (_ && _) eqn:Er in E; [|done].
    destruct (0 <? k) eqn:E0; [done|]. cbn in E. injection E as <-.
    rewrite (dropped_one inlined file x); [lia|done| |done|apply filter_nil_of_size; lia].
    eapply Forall_impl; [exact Hds|]. intros d [Hr Hs]. split; [done|]. apply negb_false_iff in Ec.
    destruct (x_partial_max x); cbn in Hs; lia.
  - rewrite (proj2 (Z.eqb_neq _ 0)), (proj2 (Z.eqb_neq _ 1)) in E by lia. done.
Qed.
End scans.

(** ** Exact counts *)

Section exact.
Context (read : CountRead) (by_file : gmap Z (gset Z)).

Definition of_value (v : str) (file : PartitionCountFile) : bool := bool_decide (cf_partition_value file = Some v).

(** A count that stays exact adds up the live rows of the value's files. *)
Lemma counted_files v n files : forall counts seen,
  NoDup (cf_data_file_id <$> files) -> (forall file, file ∈ files -> cf_data_file_id file ∉ seen) ->
  (foldl (count_file read by_file) (counts, seen) files).1 !! v = Some (Exact n) ->
  exists n0 rs, counts !! v = Some (Exact n0) /\ n = n0 + sum_Z rs
  /\ Forall2 (fun file r => live_rows file read (by_file !! cf_data_file_id file) = inr r) (select (of_value v) files) rs.
Proof.
  induction files as [|file files IH]; intros counts seen Hnd Hs E.
  { exists n, []. split_and!; [done|cbn; lia|constructor]. }
  cbn [fmap list_fmap] in Hnd. apply NoDup_cons in Hnd as [Hnew Hnd]. cbn [foldl] in E.
  assert (Hs' : forall f, f ∈ files -> cf_data_file_id f ∉ {[cf_data_file_id file]} ∪ seen).
  { intros f Hf [Hf'%elem_of_singleton|Hf']%elem_of_union; [|by eapply Hs; [right|]].
    apply Hnew. rewrite <- Hf'. by apply list_elem_of_fmap_2. }
  assert (Hskip : forall f, f ∈ files -> cf_data_file_id f ∉ seen) by (intros f Hf; apply Hs; by right).
  assert (Hid : cf_data_file_id file ∉ seen) by (apply Hs; left).
  unfold select. cbn [List.filter]. fold (select (of_value v) files). unfold of_value at 1. unfold count_file at 2 in E.
  destruct (cf_partition_value file) as [w|] eqn:Ew; [|by apply (IH counts seen)].
  destruct (counts !! w) as [count|] eqn:Ec.
  2:{ destruct (IH _ _ Hnd Hskip E) as (n0 & rs & Hc & Hrest). rewrite bool_decide_false; [by exists n0, rs|]. congruence. }
  rewrite bool_decide_false in E by done.
  destruct count as [total|reason].
  2:{ destruct (IH _ _ Hnd Hs' E) as (n0 & rs & Hc & Hrest). rewrite bool_decide_false; [by exists n0, rs|]. congruence. }
  destruct (IH _ _ Hnd Hs' E) as (n0 & rs & Hc & Hn & Hall). destruct (decide (w = v)) as [->|Hne].
  - rewrite lookup_insert_eq in Hc. destruct (live_rows _ _ _) as [|live] eqn:El in Hc; [done|].
    destruct (in_u64 _) in Hc; [|done]. injection Hc as <-. rewrite bool_decide_true by done.
    exists total, (live :: rs). split_and!; [done|unfold sum_Z in *; cbn [foldr]; lia|]. by constructor.
  - rewrite lookup_insert_ne in Hc by done. rewrite bool_decide_false by congruence. by exists n0, rs.
Qed.
End exact.

Section theorem.
Context (F32 F64 : FloatFormat) (parse_ducklake_scalar : str -> DataType -> option ScalarValue).
Context `{InlineValues} `{SortParser}.

Lemma unknown_not_exact values reason v n : all_unknown values reason !! v <> Some (Exact n).
Proof. intros (value & [= _ _] & _)%elem_of_list_to_map_2%list_elem_of_fmap. Qed.

Lemma select_fmap_rows {A B} (f : A -> B) (p : B -> bool) l : select p (f <$> l) = f <$> select (fun a => p (f a)) l.
Proof. induction l as [|a l IH]; [done|]. unfold select in *. cbn. destruct (p (f a)); cbn; by rewrite IH. Qed.

Lemma select_wanted {A} (p q : A -> bool) l : (forall a, p a = true -> q a = true) -> select p (select q l) = select p l.
Proof.
  intros Hpq. induction l as [|a l IH]; [done|]. unfold select in *. cbn. destruct (q a) eqn:Eq; cbn; [by rewrite IH|].
  destruct (p a) eqn:Ep; [by rewrite (Hpq a Ep) in Eq|done].
Qed.

(** The files a value's count is made of. *)
Definition value_files (table_id t key_index : Z) (v : str) (db : Db) : list DataFileRow :=
  select (fun file => bool_decide (key_values table_id key_index (d_id file) db = [Some v])) (visible_files table_id t db).

Lemma visible_files_distinct table_id t db : wf_files db -> NoDup (d_id <$> visible_files table_id t db).
Proof.
  intros Hw. unfold visible_files. rewrite <- list_fmap_compose. eapply sublist_NoDup; [exact Hw|].
  apply (fmap_sublist (fun v => d_id (v_row v))). unfold select. induction (t_data_files db) as [|v l IH]; [constructor|].
  cbn. destruct (_ && _); by constructor.
Qed.

(** The count of the facts of a catalog. *)
Lemma resolved_exact c table_id t key_index partition_id key_type values inlined facts db v n :
  wf_files db -> truthful c table_id t db ->
  get_partition_count_facts table_id t partition_id key_index values db = Ok facts ->
  resolve_partition_counts F32 F64 parse_ducklake_scalar values
    {| cr_snapshot_id := t; cr_at_head := get_current_snapshot db =? t; cr_partition_id := partition_id;
       cr_key_type := key_type |} (Some facts) inlined !! v = Some (Exact n) ->
  n = sum_Z ((fun file => Z.of_nat (length (scanned_rows c table_id t db inlined file)))
             <$> value_files table_id t key_index v db)
  /\ Forall (fun file => length (key_values table_id key_index (d_id file) db) = 1%nat
                         /\ d_partition_id file = Some partition_id) (visible_files table_id t db)
  /\ any_visible_inlined t db (registered_inlined_tables table_id db) = Ok false.
Proof.
  intros Hw Ht Ef E. unfold get_partition_count_facts in Ef. destruct (negb (existsb _ _)) in Ef.
  { injection Ef as <-. by apply unknown_not_exact in E. }
  destruct (any_visible_inlined _ _ _) as [visible_rows|] eqn:Ei; [|done]. cbn in Ef. injection Ef as <-.
  unfold resolve_partition_counts in E. cbn [snapshot_exists inlined_rows_visible pf_files stored_values negb] in E.
  destruct visible_rows; [by apply unknown_not_exact in E|].
  destruct (existsb _ _ || existsb _ _) eqn:Eu in E; [by apply unknown_not_exact in E|].
  apply orb_false_iff in Eu as [Eu _]. apply existsb_false_iff in Eu. cbn [cr_partition_id] in Eu.
  set (rows := count_file_row table_id t key_index db <$> visible_files table_id t db) in *.
  assert (Hatt : Forall (fun file => length (key_values table_id key_index (d_id file) db) = 1%nat
                         /\ d_partition_id file = Some partition_id) (visible_files table_id t db)).
  { apply Forall_forall. intros file Hin. rewrite Forall_forall in Eu.
    destruct (decide (length (key_values table_id key_index (d_id file) db) = 1%nat /\ d_partition_id file = Some partition_id)) as [|Hn]; [done|].
    exfalso. specialize (Eu (count_file_row table_id t key_index db file)).
    assert (Hbad : (cf_value_rows (count_file_row table_id t key_index db file) =? 1)
              && bool_decide (cf_partition_id (count_file_row table_id t key_index db file) = Some partition_id) = false).
    { cbn [cf_value_rows cf_partition_id count_file_row]. apply not_true_iff_false. rewrite andb_true_iff, bool_decide_eq_true, Z.eqb_eq. intros [? ?]. apply Hn. split; [lia|done]. }
    rewrite orb_false_iff, !negb_false_iff in Eu. destruct Eu as [E1 E2].
    - apply elem_of_select. split; [by rewrite Hbad, orb_true_r|]. by apply list_elem_of_fmap_2.
    - by rewrite E1, E2 in Hbad. }
  split_and!; [|done|done]. pose proof E as E'. apply counted_files in E as (n0 & rs & Hc & -> & Hall).
  - apply elem_of_list_to_map_2, list_elem_of_fmap in Hc as (value & [= <- Hx] & Hv).
    destruct (is_canonical_partition_value _ _ _ _ _) in Hx; [|done]. injection Hx as ->.
    rewrite select_wanted in Hall.
    2:{ intros file Hfile. unfold of_value in Hfile. apply bool_decide_eq_true in Hfile. rewrite Hfile.
        by rewrite bool_decide_true. }
    unfold rows in Hall. rewrite select_fmap_rows, Forall2_fmap_l in Hall.
    replace (select (fun a => of_value v (count_file_row table_id t key_index db a)) (visible_files table_id t db))
      with (value_files table_id t key_index v db) in Hall.
    2:{ unfold value_files. apply select_ext. intros file. unfold of_value. cbn [cf_partition_value count_file_row].
        apply bool_decide_ext. destruct (key_values _ _ _ _) as [|x [|y l]]; naive_solver. }
    rewrite Z.add_0_l. f_equal. assert (Hsub : forall file, file ∈ value_files table_id t key_index v db -> file ∈ visible_files table_id t db)
      by (intros file Hf; apply elem_of_select in Hf; apply Hf).
    clear E' Hatt. revert Hsub. induction Hall as [|file r l rs Hr _ IH]; intros Hsub; [done|].
    rewrite fmap_cons. f_equal.
    + eapply live_rows_scanned; [done|apply Hsub; left|exact Hr].
    + apply IH. intros f Hf. apply Hsub. by right.
  - eapply sublist_NoDup.
    + apply (visible_files_distinct table_id t db Hw).
    + replace (d_id <$> visible_files table_id t db) with (cf_data_file_id <$> rows) by (unfold rows; by rewrite <- list_fmap_compose).
      apply fmap_sublist. unfold select. clear. induction rows as [|a l IH]; [constructor|]. cbn. destruct (_ || _); by constructor.
  - intros file _. apply not_elem_of_empty.
Qed.

(** C14. An exact count is the number of rows: when the counters of the catalog are right about
    the files, a count a table gives for a value as exact is the number of rows a scan at its
    snapshot returns from the files of that value, each visible file is of one value of the
    key, and no inlined row is visible, so the count misses no row. *)
Theorem exact_counts_are_scanned c table_id t spec columns column values inlined db counts v n :
  wf_files db -> truthful c table_id t db -> get_inlined_deletes table_id t db = Ok inlined ->
  partition_live_row_counts F32 F64 parse_ducklake_scalar table_id t (Some spec) columns column values db = Ok counts ->
  counts !! v = Some (Exact n) ->
  exists key key_column, key ∈ ps_columns spec /\ key_column ∈ columns /\ tc_column_name key_column = column
  /\ sc_column_id key = tc_column_id key_column /\ sc_transform key = Identity
  /\ n = sum_Z ((fun file => Z.of_nat (length (scanned_rows c table_id t db inlined file)))
                <$> value_files table_id t (partition_key_index key) v db)
  /\ Forall (fun file => length (key_values table_id (partition_key_index key) (d_id file) db) = 1%nat
                         /\ d_partition_id file = Some (ps_partition_id spec)) (visible_files table_id t db)
  /\ any_visible_inlined t db (registered_inlined_tables table_id db) = Ok false.
Proof.
  intros Hw Ht Hi E Hv. unfold partition_live_row_counts in E.
  destruct (find_first _ _) as [key_column|] eqn:Ec; [|injection E as <-; by apply unknown_not_exact in Hv].
  apply find_first_some in Ec as [Hcol Hname]. apply bool_decide_eq_true in Hname.
  destruct (select _ _) as [|key [|k l]] eqn:Ek; try (injection E as <-; by apply unknown_not_exact in Hv).
  assert (Hkey : key ∈ select (fun key => sc_column_id key =? tc_column_id key_column) (ps_columns spec))
    by (rewrite Ek; left). apply elem_of_select in Hkey as [Hid Hkey].
  destruct (negb _) eqn:Et in E; [injection E as <-; by apply unknown_not_exact in Hv|].
  apply negb_false_iff, bool_decide_eq_true in Et.
  destruct (column_data_type key_column) as [key_type|]; [|done]. cbn in E.
  destruct (is_float_type key_type); [injection E as <-; by apply unknown_not_exact in Hv|].
  destruct (get_partition_count_facts _ _ _ _ _ _) as [facts|] eqn:Ef; [|done]. cbn in E.
  rewrite Hi in E. cbn in E. injection E as <-.
  destruct (resolved_exact c _ _ _ _ _ _ _ _ _ _ _ Hw Ht Ef Hv) as (Hn & Hfiles & Hrows).
  exists key, key_column. apply Z.eqb_eq in Hid. by split_and!.
Qed.
End theorem.

(** ** A sample count *)

#[local] Existing Instance counted_batches.
#[local] Existing Instance sample_values.
#[local] Existing Instance sample_parser.

(** The sample catalog with its two files in partitions [x] and [y]. *)
Definition with_partition (row : DataFileRow) : DataFileRow :=
  {| d_id := d_id row; d_table_id := d_table_id row; d_path := d_path row; d_path_is_relative := d_path_is_relative row;
     d_record_count := d_record_count row; d_file_size_bytes := d_file_size_bytes row;
     d_footer_size := d_footer_size row; d_row_id_start := d_row_id_start row; d_partition_id := Some 7;
     d_partial_max := d_partial_max row |}.
Definition partitioned_catalog : Db :=
  on_file_partition_values (fun _ =>
      [{| pv_data_file_id := 0; pv_table_id := 1; pv_key_index := 0; pv_value := Some (lit "x") |};
       {| pv_data_file_id := 1; pv_table_id := 1; pv_key_index := 0; pv_value := Some (lit "y") |}])
    (on_data_files (fmap (with_row with_partition)) sample_catalog).

Definition sample_contents : Contents := {| row_born := fun _ _ => 1; deletions := fun _ => [(2, 3)] |}.
Definition sample_spec : PartitionSpec :=
  {| ps_partition_id := 7; prune_safe := true;
     ps_columns := [{| partition_key_index := 0; sc_column_id := 1; sc_transform := Identity |}] |}.
Definition sample_key : DuckLakeTableColumn := {|
  tc_column_id := 1; tc_column_name := "region"; tc_column_type := "varchar"; tc_is_nullable := true;
  tc_data_type := Some Utf8; tc_nested_column_ids := []; tc_nested_initial_defaults := ∅; tc_initial_default := None;
  tc_default_value := None; tc_default_value_type := None; tc_default_value_dialect := None |}.

Definition sample_counts : result (gmap str PartitionRowCount) :=
  partition_live_row_counts one_number one_number (fun _ _ => None) 1 3 (Some sample_spec) [sample_key] "region"
    ["x" : str; "z" : str] partitioned_catalog.

#[local] Strategy expand [sample_counts].

Lemma sample_truthful : truthful sample_contents 1 3 partitioned_catalog.
Proof.
  unfold truthful. replace (visible_files 1 3 partitioned_catalog)
    with [with_partition (data_file_row 0 1 (sample_file "a.parquet" 3) (Some 0) None);
          with_partition (data_file_row 1 1 (sample_file "b.parquet" 3) (Some 3) None)] by (vm_compute; reflexivity).
  repeat apply Forall_cons_2; [| |apply Forall_nil_2]; (split; [intros p; vm_compute; discriminate|]).
  - apply (bool_decide_unpack _). vm_compute. exact I.
  - apply (bool_decide_unpack _). vm_compute. exact I.
Qed.

Lemma exact_counts_are_scanned_witness :
  exists counts, sample_counts = Ok counts /\ counts !! lit "x" = Some (Exact 2) /\ counts !! lit "z" = Some (Exact 0)
  /\ sum_Z ((fun file => Z.of_nat (length (scanned_rows sample_contents 1 3 partitioned_catalog [] file)))
            <$> value_files 1 3 0 "x" partitioned_catalog) = 2.
Proof.
  destruct sample_counts as [counts|e] eqn:E; [|vm_compute in E; discriminate].
  exists counts. assert (Hx : counts !! lit "x" = Some (Exact 2)) by (vm_compute in E; injection E as <-; vm_compute; reflexivity).
  split; [reflexivity|]. split; [exact Hx|]. split; [vm_compute in E; injection E as <-; vm_compute; reflexivity|].
  destruct (exact_counts_are_scanned one_number one_number (fun _ _ => None) sample_contents 1 3 sample_spec [sample_key]
    "region" ["x" : str; "z" : str] [] partitioned_catalog counts (lit "x") 2) as (key & col & Hkey & _ & _ & _ & _ & Hn & _).
  - apply (bool_decide_unpack _). vm_compute. exact I.
  - exact sample_truthful.
  - vm_compute. reflexivity.
  - exact E.
  - exact Hx.
  - apply list_elem_of_singleton in Hkey as ->. symmetry. exact Hn.
Defined.

