(* ===== verification/CatalogSettings.v ===== *)
(** * Catalog options

    [normalize_setting_value] of [metadata_writer.rs] and the operations of the DuckDB writer
    that set and read options: [set_global_setting], [set_schema_setting],
    [set_table_setting], [table_setting], [table_data_inlining_row_limit] and
    [catalog_encrypted]. *)

From S2P Require Import Prelude RustStd Arrow StatsOrder StatsRollup WriterTypes DuckdbCast DoubleCast Intervals ChangeLedger Conflicts PathResolver CatalogVersion Partition RowIds WriterChecks Types ColumnTrees SortSpec InlinedTypes CatalogDb CatalogSnapshots CatalogTables CatalogCommits CatalogAdmin CatalogReads CatalogHistory CatalogInit.
From Stdlib Require Import SpecFloat.
#[local] Open Scope Z_scope.

(** ** Values *)

Definition CODECS : list str :=
  ["uncompressed" : str; "snappy" : str; "gzip" : str; "zstd" : str; "brotli" : str; "lz4" : str; "lz4_raw" : str].

(** [threshold < 0.0 || threshold > 1.0], which a NaN passes. *)
Definition out_of_unit (threshold : F64) : bool :=
  match threshold with
  | Nan _ => false
  | Num v => SFltb v (S754_zero false) || SFltb (f64_of_Z 1) v
  end.

(** The kinds of option [normalize_setting_value] tells apart. *)
Inductive Option_ :=
| ParquetCompression | ParquetVersion | Ubigint | RowGroupSize | RowGroupSizeBytes | TargetFileSize
| RewriteDeleteThreshold | TinyintFlag | BooleanFlag | IntervalOption.

Definition option_of (key : str) : option Option_ :=
  let named names := existsb (str_eqb key) names in
  if named ["parquet_compression" : str] then Some ParquetCompression
  else if named ["parquet_version" : str] then Some ParquetVersion
  else if named ["parquet_compression_level" : str; "data_inlining_row_limit" : str] then Some Ubigint
  else if named ["parquet_row_group_size" : str] then Some RowGroupSize
  else if named ["parquet_row_group_size_bytes" : str] then Some RowGroupSizeBytes
  else if named ["target_file_size" : str] then Some TargetFileSize
  else if named ["rewrite_delete_threshold" : str] then Some RewriteDeleteThreshold
  else if named ["require_commit_message" : str; "hive_file_pattern" : str] then Some TinyintFlag
  else if named ["auto_compact" : str; "per_thread_output" : str; "write_deletion_vectors" : str; "sort_on_insert" : str]
  then Some BooleanFlag
  else if named ["delete_older_than" : str; "expire_older_than" : str] then Some IntervalOption
  else None.

Definition show_bool (b : bool) : str := if b then "true" else "false".

(** [normalize_setting_value]. *)
Definition normalize_setting_value (key value : str) : outcome str :=
  let ubigint := ok_or (varchar_to_ubigint value)
    (InvalidConfig ("Failed to cast value: Could not convert string '" ++ value ++ "' to UINT64")) in
  let memory_limit := match parse_memory_limit value with inr n => Ok n | inl message => Err (InvalidConfig message) end in
  let key := to_ascii_lowercase key in
  match option_of key with
  | Some ParquetCompression => Returns (
      if existsb (fun codec => eq_ignore_ascii_case codec value) CODECS then Ok (to_ascii_lowercase value)
      else Err (Unsupported ("Unsupported codec " ++ dq ++ value ++ dq ++ " for parquet, supported options are "
                             ++ join ", " CODECS)))
  | Some ParquetVersion => Returns (
      let? version := ubigint in
      if (version =? 1) || (version =? 2) then Ok ("V" ++ show_u version)
      else Err (Unsupported "Only Parquet version 1 and 2 are supported"))
  | Some Ubigint => Returns (let? n := ubigint in Ok (show_u n))
  | Some RowGroupSize => Returns (
      let? size := ubigint in
      if size =? 0 then Err (Unsupported "Row group size cannot be 0") else Ok (show_u size))
  | Some RowGroupSizeBytes => Returns (
      let? size := memory_limit in
      if size =? 0 then Err (Unsupported "Row group size bytes cannot be 0") else Ok (show_u size))
  | Some TargetFileSize => Returns (let? size := memory_limit in Ok (show_u size))
  | Some RewriteDeleteThreshold => Returns (
      let? threshold := ok_or (varchar_to_double value)
        (InvalidConfig ("Could not convert string '" ++ value ++ "' to DOUBLE")) in
      if out_of_unit threshold then Err (InvalidConfig "The rewrite_delete_threshold must be between 0 and 1")
      else Ok (double_to_std_string threshold))
  | Some TinyintFlag => Returns (
      let? n := ok_or (varchar_to_tinyint value) (InvalidConfig ("Could not convert string '" ++ value ++ "' to INT8")) in
      Ok (show_bool (negb (n =? 0))))
  | Some BooleanFlag => Returns (
      let? on := ok_or (varchar_to_boolean value)
        (InvalidConfig ("Failed to cast value: Could not convert string '" ++ value ++ "' to BOOL")) in
      Ok (show_bool on))
  | Some IntervalOption =>
      if is_empty value then Returns (Ok value)
      else outcome_bind (parse_duckdb_interval value) (fun parsed => Returns (
        if bool_decide (is_Some parsed) then Ok value
        else Err (InvalidConfig (key ++ " is not a valid interval value."))))
  | None => Returns (Err (Unsupported ("Unsupported option " ++ key)))
  end.

(** ** Operations *)

Section settings.
Context `{InlineValues} (limit_override : option nat).

(** [scoped_setting_rows]: the rows of a key, and the live ids of the schema and table. *)
Definition scoped_setting_rows (schema_name table_name key : str) (db : Db)
  : list SettingRow * option Z * option Z :=
  let schema_id := (fun s => sch_id (v_row s)) <$> head (live_schema_named schema_name db) in
  let table_id := schema_id ← schema_id; (fun t => tb_id (v_row t)) <$> head (live_table_in schema_id table_name db) in
  (setting_rows key db, schema_id, table_id).

(** [table_setting]. *)
Definition table_setting (schema_name table_name key : str) (db : Db) : option str :=
  let '(settings, schema_id, table_id) := scoped_setting_rows schema_name table_name key db in
  scoped_setting_of settings schema_id table_id.

(** [table_data_inlining_row_limit]; the limit of an id that does not exist is that of -1, as
    in [scoped_setting_of]. *)
Definition table_data_inlining_row_limit (schema_name table_name : str) (db : Db) : result nat :=
  let '(settings, schema_id, table_id) := scoped_setting_rows schema_name table_name "data_inlining_row_limit" db in
  effective_inlining_limit limit_override settings (default (-1) schema_id) (default (-1) table_id).

(** [catalog_encrypted]. *)
Definition catalog_encrypted (db : Db) : result bool :=
  encrypted_option (m_value <$> select (is_counter "encrypted") (t_metadata db)).

(** The rows [WHERE key = ? AND scope = ? AND scope_id = ?]. *)
Definition scoped_row (key scope : str) (id : Z) (row : MetadataRow) : bool :=
  str_eqb (m_key row) key && bool_decide (m_scope row = Some scope) && bool_decide (m_scope_id row = Some id).

(** The names of the live top-level columns of the live tables with [p]:
    [SQL_TABLE_INLINING_COLUMNS], [SQL_GLOBAL_INLINING_COLUMNS] and
    [SQL_SCHEMA_INLINING_COLUMNS]. *)
Definition zero_limit (scope : str) (id : Z) (db : Db) : bool :=
  existsb (fun row => scoped_row "data_inlining_row_limit" scope id row && str_eqb (m_value row) "0") (t_metadata db).
Definition inlining_columns (p : TableRow -> bool) (db : Db) : list (str * str) :=
  t ← order_by tb_id (v_row <$> select (fun t => live t && p (v_row t)) (t_tables db));
  (fun c => (tb_name t, co_name c))
    <$> order_by co_order (v_row <$> select (fun c => of_table co_table_id (tb_id t) c && live c
                                                      && bool_decide (co_parent (v_row c) = None)) (t_columns db)).
Definition table_inlining_columns (table_id : Z) (db : Db) : list (str * str) :=
  inlining_columns (fun t => tb_id t =? table_id) db.
Definition global_inlining_columns (db : Db) : list (str * str) :=
  inlining_columns (fun t => negb (zero_limit "table" (tb_id t) db || zero_limit "schema" (tb_schema_id t) db)) db.
Definition schema_inlining_columns (schema_id : Z) (db : Db) : list (str * str) :=
  inlining_columns (fun t => (tb_schema_id t =? schema_id) && negb (zero_limit "table" (tb_id t) db)) db.

(** The check of an option that turns inlining on. *)
Definition check_inlining (key value : str) (columns : Db -> list (str * str)) : Tx unit :=
  when (enables_inlining key value)
    (let* columns := query columns in
     let* system := catalog_inlined_system_columns in
     lift (reject_reserved_inlining_columns columns system)).

(** [set_global_setting]. *)
Definition set_global_setting (key value : str) : Tx (Ending unit) :=
  let key := to_ascii_lowercase key in
  let* value := lift_outcome (normalize_setting_value key value) in
  check_inlining key value global_inlining_columns ;*
  execute (on_metadata (delete_where (is_counter key))) ;*
  execute (on_metadata (fun l => l ++ [{| m_key := key; m_value := value; m_scope := None; m_scope_id := None |}])) ;*
  ret (Committed tt).

(** [set_schema_setting]. *)
Definition set_schema_setting (schema_id : Z) (key value : str) : Tx (Ending unit) :=
  let key := to_ascii_lowercase key in
  let* value := lift_outcome (normalize_setting_value key value) in
  let* exists_ := query (fun db => existsb (fun s => of_table sch_id schema_id s && live s) (t_schemas db)) in
  ensure exists_ (SchemaNotFound (show_Z schema_id)) ;*
  check_inlining key value (schema_inlining_columns schema_id) ;*
  execute (on_metadata (delete_where (scoped_row key "schema" schema_id))) ;*
  execute (on_metadata (fun l => l ++ [{| m_key := key; m_value := value; m_scope := Some (lit "schema");
                                          m_scope_id := Some schema_id |}])) ;*
  ret (Committed tt).

(** [set_table_setting]. *)
Definition set_table_setting (table_id : Z) (key value : str) : Tx (Ending unit) :=
  let key := to_ascii_lowercase key in
  let* value := lift_outcome (normalize_setting_value key value) in
  let* exists_ := query (fun db => existsb (fun t => of_table tb_id table_id t && live t) (t_tables db)) in
  ensure exists_ (TableNotFound (show_Z table_id)) ;*
  check_inlining key value (table_inlining_columns table_id) ;*
  execute (on_metadata (delete_where (scoped_row key "table" table_id))) ;*
  execute (on_metadata (fun l => l ++ [{| m_key := key; m_value := value; m_scope := Some (lit "table");
                                          m_scope_id := Some table_id |}])) ;*
  ret (Committed tt).
End settings.

(** ** Slots

    A scope and an id are a slot of a key: a row of the slot replaces the one before it, and
    leaves the other slots alone. *)

Definition in_slot (scope : option str) (id : option Z) (row : SettingRow) : bool :=
  let '(row_scope, row_id, _) := row in
  bool_decide (row_scope = scope) && (bool_decide (scope = None) || bool_decide (row_id = id)).

Definition replaced (scope : option str) (id : option Z) (value : str) (rows : list SettingRow) : list SettingRow :=
  delete_where (in_slot scope id) rows ++ [(scope, id, value)].

Lemma find_setting_slot rows scope id : find_setting rows scope id = find_first (in_slot scope id) rows.
Proof. unfold find_setting. apply find_first_ext. by intros [[? ?] ?] _. Qed.

Lemma own_slot scope id value : in_slot scope id (scope, id, value) = true.
Proof.
  unfold in_slot. rewrite (bool_decide_true (scope = scope)), (bool_decide_true (id = id)) by done. by rewrite orb_true_r.
Qed.

Lemma find_replaced rows scope id value :
  find_setting (replaced scope id value rows) scope id = Some (scope, id, value).
Proof.
  rewrite find_setting_slot. unfold replaced. rewrite find_first_snoc.
  replace (find_first _ (delete_where _ _)) with (@None SettingRow).
  - by rewrite own_slot.
  - symmetry. apply find_first_none, Forall_forall. intros row Hr%list_elem_of_In. apply List.filter_In in Hr as [_ Hr].
    by apply negb_true_iff in Hr.
Qed.

Lemma find_other rows scope id scope' id' value :
  (forall row, in_slot scope id row = true -> in_slot scope' id' row = false) ->
  find_setting (replaced scope id value rows) scope' id' = find_setting rows scope' id'.
Proof.
  intros Hd. rewrite !find_setting_slot. unfold replaced. rewrite find_first_snoc.
  rewrite Hd by apply own_slot.
  induction rows as [|row rows IH]; [done|]. unfold delete_where in *. cbn [List.filter].
  destruct (in_slot scope id row) eqn:E; cbn [negb find_first]; [by rewrite (Hd row E)|].
  destruct (in_slot scope' id' row); [done|exact IH].
Qed.

Lemma other_scope (scope scope' : option str) id id' row :
  scope <> scope' -> in_slot scope id row = true -> in_slot scope' id' row = false.
Proof.
  intros Hs. destruct row as [[s i] w]. unfold in_slot. intros [->%bool_decide_eq_true _]%andb_true_iff.
  by rewrite bool_decide_false.
Qed.

Lemma other_id (scope : str) (id id' : Z) row :
  id <> id' -> in_slot (Some scope) (Some id) row = true -> in_slot (Some scope) (Some id') row = false.
Proof.
  intros Hi. destruct row as [[s i] w]. unfold in_slot. rewrite (bool_decide_false (Some scope = None)) by done. cbn [orb].
  intros [_ ->%bool_decide_eq_true]%andb_true_iff. rewrite (bool_decide_false (Some id = Some id')) by congruence. apply andb_false_r.
Qed.

Section theorems.
Context `{InlineValues} (limit_override : option nat).

(** What setting an option makes of the rows of each key. *)
Definition option_set (key : str) (scope : option str) (id : option Z) (value : str) (db db' : Db) : Prop :=
  setting_rows key db' = replaced scope id value (setting_rows key db)
  /\ forall other, other <> key -> setting_rows other db' = setting_rows other db.

Lemma select_swap {A} (p q : A -> bool) l : select p (delete_where q l) = delete_where q (select p l).
Proof.
  induction l as [|a l IH]; [done|]. unfold select, delete_where in *. cbn.
  destruct (q a) eqn:Eq, (p a) eqn:Ep; cbn; rewrite ?Ep, ?Eq; cbn; by rewrite IH.
Qed.

Lemma rows_replaced key scope id value (p : MetadataRow -> bool) db :
  (forall row, m_key row = key -> p row = in_slot scope id (m_scope row, m_scope_id row, m_value row)) ->
  (forall row, p row = true -> m_key row = key) ->
  option_set key scope id value db
    (on_metadata (fun l => l ++ [{| m_key := key; m_value := value; m_scope := scope; m_scope_id := id |}])
       (on_metadata (delete_where p) db)).
Proof.
  intros Hp Hk. split.
  - unfold setting_rows, replaced. tables. rewrite select_app, fmap_app, select_swap. f_equal.
    + induction (t_metadata db) as [|row l IH]; [done|]. unfold select, delete_where in *. cbn [List.filter].
      destruct (str_eqb (m_key row) key) eqn:E; [|exact IH]. cbn [List.filter fmap list_fmap].
      apply bool_decide_eq_true in E. rewrite (Hp row E). destruct (in_slot _ _ _); cbn [negb fmap list_fmap]; [exact IH|].
      by f_equal.
    + unfold select, str_eqb. cbn [List.filter m_key]. by rewrite bool_decide_true by done.
  - intros other Ho. unfold setting_rows. tables. rewrite select_app, fmap_app, select_swap.
    replace (select _ [_]) with (@nil MetadataRow).
    2:{ unfold select, str_eqb. cbn [List.filter m_key]. by rewrite bool_decide_false by done. }
    rewrite app_nil_r. f_equal. induction (t_metadata db) as [|row l IH]; [done|]. unfold select, delete_where in *. cbn [List.filter].
    destruct (str_eqb (m_key row) other) eqn:E; [|exact IH]. cbn [List.filter].
    apply bool_decide_eq_true in E. destruct (p row) eqn:Ep; [apply Hk in Ep; congruence|]. cbn. by rewrite IH.
Qed.

Lemma keeps_check key value columns db : keeps (fun d => d = db) (check_inlining key value columns) anything.
Proof. unfold check_inlining, catalog_inlined_system_columns. keep. Qed.

Lemma check_same key value columns db db1 : check_inlining key value columns db = Returns (Ok (tt, db1)) -> db1 = db.
Proof. intros E. by destruct (keeps_check key value columns db db tt db1 eq_refl E). Qed.

Lemma ensure_ok b e db db1 : ensure b e db = Returns (Ok (tt, db1)) -> db1 = db /\ b = true.
Proof. unfold ensure, ret, throw. destruct b; [by intros [= <-]|done]. Qed.

Lemma lift_outcome_ok {A} (o : outcome A) db a db1 : lift_outcome o db = Returns (Ok (a, db1)) -> o = Returns (Ok a) /\ db1 = db.
Proof. unfold lift_outcome, outcome_bind. destruct o as [[]|]; [|done..]. by intros [= <- <-]. Qed.

Lemma set_global_ok key value db db' :
  run (set_global_setting key value) db = (Returns (Ok tt), db') ->
  exists w, normalize_setting_value (to_ascii_lowercase key) value = Returns (Ok w)
            /\ option_set (to_ascii_lowercase key) None None w db db'.
Proof.
  intros [E|(d & E & _)]%run_committed; unfold set_global_setting in E; cbv zeta in E;
    apply bind_ok in E as (w & db1 & [Hw ->]%lift_outcome_ok & E);
    apply bind_ok in E as ([] & db1 & ->%check_same & E);
    apply bind_ok in E as ([] & db1 & [= <-] & E); apply bind_ok in E as ([] & db1 & [= <-] & E); [|done].
  injection E as <-. exists w. split; [done|]. apply rows_replaced.
  - intros row <-. unfold is_counter, in_slot, str_eqb.
    rewrite (bool_decide_true (m_key row = m_key row)), (bool_decide_true (@None str = None)) by done.
    by repeat case_bool_decide.
  - intros row [Hr _]%andb_true_iff. by apply bool_decide_eq_true in Hr.
Qed.

Lemma scoped_row_slot key scope id row :
  m_key row = key -> scoped_row key scope id row = in_slot (Some scope) (Some id) (m_scope row, m_scope_id row, m_value row).
Proof.
  intros <-. unfold scoped_row, in_slot, str_eqb. rewrite (bool_decide_true (m_key row = m_key row)) by done.
  by rewrite (bool_decide_false (Some scope = None)).
Qed.

Lemma scoped_row_key key scope id row : scoped_row key scope id row = true -> m_key row = key.
Proof. intros [[Hr _]%andb_true_iff _]%andb_true_iff. by apply bool_decide_eq_true in Hr. Qed.

Lemma set_schema_ok id key value db db' :
  run (set_schema_setting id key value) db = (Returns (Ok tt), db') ->
  exists w, normalize_setting_value (to_ascii_lowercase key) value = Returns (Ok w)
            /\ option_set (to_ascii_lowercase key) (Some (lit "schema")) (Some id) w db db'.
Proof.
  intros [E|(d & E & _)]%run_committed; unfold set_schema_setting in E; cbv zeta in E;
    apply bind_ok in E as (w & db1 & [Hw ->]%lift_outcome_ok & E);
    apply bind_ok in E as (ex & db1 & [= <- <-] & E); apply bind_ok in E as ([] & db1 & [-> _]%ensure_ok & E);
    apply bind_ok in E as ([] & db1 & ->%check_same & E);
    apply bind_ok in E as ([] & db1 & [= <-] & E); apply bind_ok in E as ([] & db1 & [= <-] & E); [|done].
  injection E as <-. exists w. split; [done|].
  apply rows_replaced; [intros row; apply scoped_row_slot|intros row; apply scoped_row_key].
Qed.

Lemma set_table_ok id key value db db' :
  run (set_table_setting id key value) db = (Returns (Ok tt), db') ->
  exists w, normalize_setting_value (to_ascii_lowercase key) value = Returns (Ok w)
            /\ option_set (to_ascii_lowercase key) (Some (lit "table")) (Some id) w db db'.
Proof.
  intros [E|(d & E & _)]%run_committed; unfold set_table_setting in E; cbv zeta in E;
    apply bind_ok in E as (w & db1 & [Hw ->]%lift_outcome_ok & E);
    apply bind_ok in E as (ex & db1 & [= <- <-] & E); apply bind_ok in E as ([] & db1 & [-> _]%ensure_ok & E);
    apply bind_ok in E as ([] & db1 & ->%check_same & E);
    apply bind_ok in E as ([] & db1 & [= <-] & E); apply bind_ok in E as ([] & db1 & [= <-] & E); [|done].
  injection E as <-. exists w. split; [done|].
  apply rows_replaced; [intros row; apply scoped_row_slot|intros row; apply scoped_row_key].
Qed.

(** C26. Options read back: an option set for a table is the one the table reads, whatever the
    schema and the catalog say; one set for a schema is read by its tables without their own;
    one set for the catalog by tables without their own or their schema's. The other scopes
    and the other options read as before. What is read is the normalised value, and an
    inlining limit reads as the number the given text casts to. *)
Theorem options_read_back key value db db' :
  let k := to_ascii_lowercase key in
  let reads db' := scoped_setting (setting_rows k db') in
  (forall id, run (set_table_setting id key value) db = (Returns (Ok tt), db') ->
     exists w, normalize_setting_value k value = Returns (Ok w)
     /\ (forall schema_id table_id, reads db' schema_id table_id
          = if table_id =? id then Some w else reads db schema_id table_id)
     /\ (forall other, other <> k -> setting_rows other db' = setting_rows other db))
  /\ (forall id, run (set_schema_setting id key value) db = (Returns (Ok tt), db') ->
     exists w, normalize_setting_value k value = Returns (Ok w)
     /\ (forall schema_id table_id, reads db' schema_id table_id
          = match find_setting (setting_rows k db) (Some (lit "table")) (Some table_id) with
            | Some (_, _, own) => Some own
            | None => if schema_id =? id then Some w else reads db schema_id table_id
            end)
     /\ (forall other, other <> k -> setting_rows other db' = setting_rows other db))
  /\ (run (set_global_setting key value) db = (Returns (Ok tt), db') ->
     exists w, normalize_setting_value k value = Returns (Ok w)
     /\ (forall schema_id table_id, reads db' schema_id table_id
          = match find_setting (setting_rows k db) (Some (lit "table")) (Some table_id),
                  find_setting (setting_rows k db) (Some (lit "schema")) (Some schema_id) with
            | Some (_, _, own), _ | None, Some (_, _, own) => Some own
            | None, None => Some w
            end)
     /\ (forall other, other <> k -> setting_rows other db' = setting_rows other db))
  /\ (forall id n, k = lit "data_inlining_row_limit" -> varchar_to_ubigint value = Some n ->
     run (set_table_setting id key value) db = (Returns (Ok tt), db') ->
     forall schema_id, effective_inlining_limit limit_override (setting_rows k db') schema_id id = Ok (Z.to_nat n)).
Proof.
  intros k reads. split_and!.
  - intros id (w & Hw & Hk & Ho)%set_table_ok. exists w. split_and!; [done| |done]. intros schema_id table_id.
    unfold reads, scoped_setting. fold k in Hk. rewrite Hk. destruct (Z.eqb_spec table_id id) as [->|Hn]; [by rewrite find_replaced|].
    rewrite !find_other; [done|intros row; by apply other_scope..|intros row; by apply other_id].
  - intros id (w & Hw & Hk & Ho)%set_schema_ok. exists w. split_and!; [done| |done]. intros schema_id table_id.
    unfold reads, scoped_setting. fold k in Hk. rewrite Hk, (find_other _ _ _ (Some (lit "table"))) by (intros row; by apply other_scope).
    destruct (find_setting _ (Some (lit "table")) _) as [[[? ?] own]|]; [done|]. cbn [or_else].
    destruct (Z.eqb_spec schema_id id) as [->|Hn]; [by rewrite find_replaced|].
    rewrite !find_other; [done|intros row; by apply other_scope|intros row; by apply other_id].
  - intros (w & Hw & Hk & Ho)%set_global_ok. exists w. split_and!; [done| |done]. intros schema_id table_id.
    unfold reads, scoped_setting. fold k in Hk. rewrite Hk, find_replaced, !find_other by (intros row; by apply other_scope).
    by destruct (find_setting _ (Some (lit "table")) _) as [[[? ?] own]|], (find_setting _ (Some (lit "schema")) _) as [[[? ?] own']|].
  - intros id n Hkey Hn (w & Hw & Hk & _)%set_table_ok schema_id. fold k in Hw, Hk. rewrite Hk.
    unfold effective_inlining_limit, scoped_setting. rewrite find_replaced. cbn [or_else fmap option_fmap option_map].
    assert (Hr : 0 <= n <= u64_max).
    { unfold varchar_to_ubigint in Hn. apply fmap_Some in Hn as (m & _ & ->). unfold wrap_u.
      pose proof (Z.mod_pos_bound m (2 ^ 64)). unfold u64_max. lia. }
    assert (w = show_Z n) as ->.
    { rewrite Hkey in Hw. unfold normalize_setting_value in Hw. cbv zeta in Hw.
      replace (option_of (to_ascii_lowercase (lit "data_inlining_row_limit"))) with (Some Ubigint) in Hw by (vm_compute; reflexivity).
      rewrite Hn in Hw. cbn in Hw. injection Hw as <-.
      unfold show_Z. by replace (n <? 0) with false by lia. }
    unfold stored_inlining_limit. rewrite (proj1 (printed_integers_cast_back n)); [done|].
    unfold in_u64. apply andb_true_iff. rewrite !Z.leb_le. exact Hr.
Qed.
End theorems.

#[local] Existing Instance counted_batches.
#[local] Existing Instance sample_values.
#[local] Existing Instance sample_parser.

(** The sample catalog with an inlining limit of its table. *)
Definition limited_catalog : Db := (run (set_table_setting 1 "DATA_INLINING_ROW_LIMIT" "1.5") sample_catalog).2.

Lemma options_read_back_witness :
  effective_inlining_limit None (setting_rows "data_inlining_row_limit" limited_catalog) 2 1 = Ok 2%nat
  /\ table_data_inlining_row_limit None "main" "events" limited_catalog = Ok 2%nat
  /\ table_data_inlining_row_limit None "main" "events" sample_catalog = Ok 10%nat.
Proof.
  split; [|split; vm_compute; reflexivity].
  refine (proj2 (proj2 (proj2 (options_read_back None "DATA_INLINING_ROW_LIMIT" "1.5" sample_catalog limited_catalog)))
            1 2 _ _ _ 2); vm_compute; reflexivity.
Defined.
