(* ===== verification/CatalogExpiry.v ===== *)
(** * Expiring snapshots

    [expire_snapshots] of the DuckDB writer ([metadata_writer_duckdb.rs]) removes snapshots
    and sweeps the rows no snapshot sees any more. The snapshots that are left see what they
    saw before, and no file leaves the catalog without being scheduled for deletion. *)

From S2P Require Import Prelude RustStd Arrow StatsOrder StatsRollup WriterTypes DuckdbCast ChangeLedger Conflicts PathResolver Partition RowIds WriterChecks Types ColumnTrees SortSpec InlinedTypes CatalogDb CatalogSnapshots CatalogTables CatalogCommits CatalogAdmin CatalogReads CatalogHistory CatalogInit CatalogIds CatalogViews CatalogTimeTravel.

Section expiry.
Context `{InlineValues} `{SortParser}.

(** ** What a sweep removes *)

Definition dead_data (db : Db) : list Z :=
  (fun v => d_id (v_row v)) <$> select (fun v => among (dead_tables db) (d_table_id (v_row v)) || dead db v) (t_data_files db).
Definition dead_deletes (db : Db) : list Z :=
  (fun v => x_id (v_row v)) <$> select (fun v =>
    among (dead_data db) (x_data_file_id (v_row v)) || among (dead_tables db) (x_table_id (v_row v)) || dead db v)
    (t_delete_files db).

(** The tables a sweep writes, and the others, which it leaves as they are. *)
Definition unswept (db : Db) : Db :=
  on_scheduled (fun _ => []) (on_data_files (fun _ => []) (on_delete_files (fun _ => []) (on_tables (fun _ => [])
    (on_table_stats (fun _ => []) (on_columns (fun _ => []) (on_schema_versions (fun _ => []) (on_registry (fun _ => [])
      (on_inlined_data (fun _ => ∅) (on_inlined_deletes (fun _ => ∅) (on_schemas (fun _ => []) db)))))))))).

Record swept (db db' : Db) : Prop := {
  sw_rest : unswept db' = unswept db;
  sw_data_files : t_data_files db' = delete_where (fun v => among (dead_data db) (d_id (v_row v))) (t_data_files db);
  sw_delete_files : t_delete_files db' = delete_where (fun v => among (dead_deletes db) (x_id (v_row v))) (t_delete_files db);
  sw_tables : t_tables db' = delete_where (fun v => among (dead_tables db) (tb_id (v_row v))) (t_tables db);
  sw_columns : t_columns db' = delete_where (fun v => among (dead_tables db) (co_table_id (v_row v))) (t_columns db);
  sw_versions : t_schema_versions db'
    = delete_where (fun row => among (dead_tables db) (sv_table_id row)) (t_schema_versions db);
  sw_registry : t_registry db' = delete_where (fun row => among (dead_tables db) (r_table_id row)) (t_registry db);
  sw_inlined : forall name,
    ~ (exists row, row ∈ t_registry db /\ r_table_name row = name /\ among (dead_tables db) (r_table_id row) = true) ->
    t_inlined_data db' !! name = t_inlined_data db !! name;
  sw_inlined_deletes : forall name,
    ~ (exists id, among (dead_tables db) id = true /\ inlined_delete_table_name id = Ok name) ->
    t_inlined_deletes db' !! name = t_inlined_deletes db !! name;
  sw_scheduled : t_scheduled db' = t_scheduled db
    ++ scheduled_rows (data_file_entry <$> select (fun v => among (dead_data db) (d_id (v_row v))) (t_data_files db)) db
    ++ scheduled_rows (delete_file_entry <$> select (fun v => among (dead_deletes db) (x_id (v_row v))) (t_delete_files db)) db;
  sw_schemas : t_schemas db' = delete_where (dead db) (t_schemas db);
}.

Lemma delete_none {A} (p : A -> bool) l : (forall a, a ∈ l -> p a = false) -> delete_where p l = l.
Proof.
  induction l as [|a l IH]; intros Hp; [done|]. unfold delete_where in *. cbn. rewrite Hp by left. cbn.
  rewrite IH; [done|]. intros b Hb. apply Hp. by right.
Qed.

Lemma for_each_execute {A} (l : list A) (f : A -> Db -> Db) db r db' :
  for_each l (fun a => execute (f a)) db = Returns (Ok (r, db')) -> db' = foldl (fun d a => f a d) db l.
Proof.
  revert db. induction l as [|a l IH]; intros db E; cbn in E |- *; [by injection E as _ <-|].
  by apply IH.
Qed.

Lemma deleted_names {A} (m : gmap str A) names name : name ∉ names -> foldl (fun m n => delete n m) m names !! name = m !! name.
Proof.
  revert m. induction names as [|n names IH]; intros m Hn; [done|]. cbn. rewrite IH by set_solver.
  apply lookup_delete_ne. set_solver.
Qed.

Lemma inlined_data_dropped names : forall db,
  foldl (fun d name => on_inlined_data (delete name) d) db names
  = on_inlined_data (fun m => foldl (fun m n => delete n m) m names) db.
Proof. induction names as [|n names IH]; intros db; [by destruct db|]. cbn [foldl]. by rewrite IH. Qed.

Lemma inlined_deletes_dropped names : forall db,
  foldl (fun d name => on_inlined_deletes (delete name) d) db names
  = on_inlined_deletes (fun m => foldl (fun m n => delete n m) m names) db.
Proof. induction names as [|n names IH]; intros db; [by destruct db|]. cbn [foldl]. by rewrite IH. Qed.

Lemma map_each_lift {A B} (l : list A) (f : A -> result B) db bs db' :
  map_each l (fun a => lift (f a)) db = Returns (Ok (bs, db')) -> db' = db /\ forall b, b ∈ bs -> exists a, a ∈ l /\ f a = Ok b.
Proof.
  revert bs. induction l as [|a l IH]; intros bs E; cbn [map_each] in E.
  { injection E as <- <-. split; [done|]. intros b Hb. by apply elem_of_nil in Hb. }
  apply bind_ok in E as (b & db1 & E1 & E). unfold lift in E1. destruct (f a) as [b'|] eqn:Ef; [|done]. injection E1 as <- <-.
  apply bind_ok in E as (bs' & db1 & E1 & E). injection E as <- <-. destruct (IH _ E1) as [-> Hb]. split; [done|].
  intros b [->|Hin]%elem_of_cons; [exists a; split; [left|done]|]. destruct (Hb b Hin) as (a' & Ha & Hf). exists a'. split; [by right|done].
Qed.

Lemma sweep_ok db db' : sweep db = Returns (Ok (tt, db')) -> swept db db'.
Proof.
  intros E. unfold sweep in E. apply bind_ok in E as (tables & d0 & [= <- <-] & E).
  apply bind_ok in E as (data & d0 & [= <- <-] & E). fold (dead_data db) in E.
  apply bind_ok in E as ([] & d1 & [= <-] & E). apply bind_ok in E as ([] & d1 & [= <-] & E).
  set (d1 := on_data_files _ _) in E. apply bind_ok in E as (deletes & d0 & [= <- <-] & E).
  change (_ <$> select _ (t_delete_files d1)) with (dead_deletes db) in E.
  apply bind_ok in E as ([] & d2 & [= <-] & E). apply bind_ok in E as ([] & d2 & [= <-] & E).
  set (d2 := on_delete_files _ _) in E. apply bind_ok in E as ([] & d3 & E3 & E). injection E as <-.
  destruct (is_empty (dead_tables db)) eqn:Et; cbn [negb when] in E3.
  - injection E3 as <-.
    assert (Hnone : forall id, among (dead_tables db) id = false) by (intros id; by destruct (dead_tables db)).
    split; try reflexivity; try (intros; reflexivity).
    all: try (symmetry; apply delete_none; intros a _; apply Hnone).
    symmetry. apply app_assoc.
  - apply bind_ok in E3 as (names & d0 & [= <- <-] & E3).
    apply bind_ok in E3 as (dropped & d0 & [-> Hdrop]%map_each_lift & E3).
    apply bind_ok in E3 as ([] & d4 & [= <-] & E3). apply bind_ok in E3 as ([] & d4 & [= <-] & E3).
    apply bind_ok in E3 as ([] & d4 & [= <-] & E3). apply bind_ok in E3 as ([] & d4 & [= <-] & E3).
    apply bind_ok in E3 as ([] & d4 & [= <-] & E3). apply bind_ok in E3 as ([] & d4 & E4 & E3).
    apply for_each_execute in E4 as ->. apply for_each_execute in E3 as ->.
    rewrite inlined_data_dropped, inlined_deletes_dropped. split; try reflexivity; [| |symmetry; apply app_assoc].
    + intros name Hn. apply (deleted_names (t_inlined_data db)). intros Hin. apply Hn.
      apply list_elem_of_fmap in Hin as (row & -> & [Ha Hr]%elem_of_select). by exists row.
    + intros name Hn. apply (deleted_names (t_inlined_deletes db)). intros Hin. apply Hn.
      destruct (Hdrop name Hin) as (id & Hid & Hf). exists id. split; [by apply among_spec|done].
Qed.
End expiry.

Section survivors.
Context `{InlineValues} `{SortParser}.

(** ** What a kept snapshot still sees *)

(** Delete files have distinct ids, and an inlined table belongs to one table. *)
Definition wf_keys (db : Db) : Prop :=
  NoDup ((fun v => x_id (v_row v)) <$> t_delete_files db)
  /\ (forall r r', r ∈ t_registry db -> r' ∈ t_registry db -> r_table_name r = r_table_name r' -> r_table_id r = r_table_id r').

Lemma select_kept {A} (p q : A -> bool) l :
  (forall a, a ∈ l -> p a = true -> q a = false) -> select p (delete_where q l) = select p l.
Proof.
  intros Hq. induction l as [|a l IH]; [done|]. unfold select, delete_where in *. cbn.
  specialize (IH (fun b Hb => Hq b (list_elem_of_further _ _ _ Hb))).
  destruct (q a) eqn:Eq; cbn.
  - destruct (p a) eqn:Ep; [|done]. by rewrite (Hq a (list_elem_of_here _ _) Ep) in Eq.
  - by destruct (p a); rewrite IH.
Qed.

Lemma distinct_rows {A} (key : A -> Z) l a b : NoDup (key <$> l) -> a ∈ l -> b ∈ l -> key a = key b -> a = b.
Proof.
  intros Hn Ha Hb E. apply list_elem_of_lookup in Ha as [i Hi]. apply list_elem_of_lookup in Hb as [j Hj].
  assert (i = j) as ->; [|congruence].
  apply (NoDup_lookup (key <$> l) i j (key a)); [done|by rewrite list_lookup_fmap, Hi|by rewrite list_lookup_fmap, Hj, E].
Qed.

Context (db db' : Db) (t table_id : Z).
Context (Hswept : swept db db') (Hfiles : wf_files db) (Hkeys : wf_keys db).
Context (Hkept : exists row, row ∈ t_snapshots db /\ s_id row = t).
Context (Htable : exists w, w ∈ t_tables db /\ tb_id (v_row w) = table_id /\ visible t w = true).

Lemma kept_not_dead {A} (v : versioned A) : visible t v = true -> dead db v = false.
Proof using Hkept.
  clear Htable. destruct Hkept as (row & Hin & Ht). intros Hv. unfold dead, seen_by_snapshot.
  replace (existsb _ _) with true; [apply andb_false_r|]. symmetry. apply existsb_exists. exists row. rewrite Ht.
  split; [|done]. by apply list_elem_of_In.
Qed.

Lemma seen_table_kept w : w ∈ t_tables db -> visible t w = true -> among (dead_tables db) (tb_id (v_row w)) = false.
Proof using Hkept.
  clear Htable. intros Hw Hv. apply not_among. intros (w' & Hid & [Hd Hw']%elem_of_select)%list_elem_of_fmap.
  apply andb_true_iff in Hd as [_ Hd]. apply negb_true_iff, existsb_false_iff in Hd. rewrite Forall_forall in Hd.
  specialize (Hd w Hw). unfold of_table in Hd. rewrite (proj2 (Z.eqb_eq _ _) Hid) in Hd. cbn in Hd.
  apply orb_false_iff in Hd as [_ Hd]. destruct Hkept as (row & Hin & Ht). unfold seen_by_snapshot in Hd.
  apply existsb_false_iff in Hd. rewrite Forall_forall in Hd. specialize (Hd row Hin). cbn beta in Hd. rewrite Ht in Hd. congruence.
Qed.

Lemma table_kept : among (dead_tables db) table_id = false.
Proof using Hkept Htable. destruct Htable as (w & Hw & <- & Hv). by apply seen_table_kept. Qed.

Lemma file_kept v :
  v ∈ t_data_files db -> d_table_id (v_row v) = table_id -> visible t v = true ->
  among (dead_data db) (d_id (v_row v)) = false.
Proof using Hkept Htable Hfiles.
  intros Hv Ht Hs. apply not_among. intros (v' & Hid & [Hd Hv']%elem_of_select)%list_elem_of_fmap.
  assert (v' = v) as -> by (eapply (distinct_rows (fun v => d_id (v_row v))); [exact Hfiles|done|done|done]).
  rewrite Ht, table_kept, kept_not_dead in Hd; done.
Qed.

Lemma delete_kept v :
  v ∈ t_delete_files db -> x_table_id (v_row v) = table_id -> visible t v = true ->
  among (dead_data db) (x_data_file_id (v_row v)) = false -> among (dead_deletes db) (x_id (v_row v)) = false.
Proof using Hkept Htable Hkeys.
  intros Hv Ht Hs Hf. apply not_among. intros (v' & Hid & [Hd Hv']%elem_of_select)%list_elem_of_fmap.
  assert (v' = v) as -> by (eapply (distinct_rows (fun v => x_id (v_row v))); [apply Hkeys|done|done|done]).
  rewrite Ht, Hf, table_kept, kept_not_dead in Hd; done.
Qed.

Lemma unswept_same {A} (f : Db -> A) : (forall d, f (unswept d) = f d) -> f db' = f db.
Proof using Hswept. intros Hf. by rewrite <- (Hf db'), (sw_rest _ _ Hswept), Hf. Qed.

Lemma swept_columns : table_columns table_id t db' = table_columns table_id t db.
Proof using Hswept Hkept Htable.
  unfold table_columns. rewrite (sw_columns _ _ Hswept), select_kept; [done|]. intros v _ [Hv _]%andb_true_iff.
  unfold of_table in Hv. apply Z.eqb_eq in Hv. rewrite Hv. apply table_kept.
Qed.

Lemma swept_version b : file_schema_version table_id b db' = file_schema_version table_id b db.
Proof using Hswept Hkept Htable.
  unfold file_schema_version. rewrite (sw_versions _ _ Hswept), select_kept; [done|].
  intros row _ [Hv%Z.eqb_eq _]%andb_true_iff. rewrite Hv. apply table_kept.
Qed.

Lemma swept_data_files :
  select (fun v => of_table d_table_id table_id v && visible t v) (t_data_files db')
  = select (fun v => of_table d_table_id table_id v && visible t v) (t_data_files db).
Proof using Hswept Hkept Htable Hfiles.
  rewrite (sw_data_files _ _ Hswept). apply select_kept. intros v Hin [Hv%Z.eqb_eq Hs]%andb_true_iff. by apply file_kept.
Qed.

Lemma swept_joined v :
  v ∈ t_data_files db -> d_table_id (v_row v) = table_id -> visible t v = true ->
  joined_deletes table_id t (d_id (v_row v)) db' = joined_deletes table_id t (d_id (v_row v)) db.
Proof using Hswept Hkept Htable Hfiles Hkeys.
  intros Hv Ht Hs. unfold joined_deletes. rewrite (sw_delete_files _ _ Hswept), select_kept; [done|].
  intros x Hx [[Hd%Z.eqb_eq Hxt%Z.eqb_eq]%andb_true_iff Hxs]%andb_true_iff. apply delete_kept; [done..|].
  rewrite Hd. by apply file_kept.
Qed.

Lemma swept_listing : get_table_files_for_select table_id t db' = get_table_files_for_select table_id t db.
Proof using Hswept Hkept Htable Hfiles Hkeys.
  unfold get_table_files_for_select. rewrite swept_data_files.
  assert (Hpv : forall id, file_partition_values table_id id db' = file_partition_values table_id id db).
  { intros id. by apply (unswept_same (file_partition_values table_id id)). }
  rewrite (take_values_ext _ (fun id => file_partition_values table_id id db)) by done. f_equal.
  apply bind_ext_list. intros v [Hv Hin]%elem_of_select. apply andb_true_iff in Hv as [Ht%Z.eqb_eq Hs].
  rewrite swept_joined by done. apply bind_ext_list. intros x _. unfold table_file. by rewrite Ht, swept_version.
Qed.

Lemma swept_stats : get_file_column_stats table_id t db' = get_file_column_stats table_id t db.
Proof using Hswept Hkept Htable Hfiles.
  unfold get_file_column_stats. rewrite (unswept_same t_file_stats) by done.
  apply bind_ext_list. intros stat [Hst%Z.eqb_eq _]%elem_of_select. rewrite (sw_data_files _ _ Hswept), select_kept; [done|].
  intros v Hin [[_ Hv%Z.eqb_eq]%andb_true_iff Hs]%andb_true_iff. apply file_kept; [done|congruence|done].
Qed.

Lemma swept_inlined_deletes : get_inlined_deletes table_id t db' = get_inlined_deletes table_id t db.
Proof using Hswept Hkept Htable.
  unfold get_inlined_deletes. destruct (inlined_delete_table_name table_id) as [name|] eqn:En; [|done]. cbn.
  rewrite (sw_inlined_deletes _ _ Hswept); [done|]. intros (id & Ha & Hn). unfold inlined_delete_table_name in *.
  destruct (table_id <? 0); [done|]. destruct (id <? 0); [done|]. rewrite <- En in Hn. injection Hn as Hn.
  apply show_Z_inj in Hn. subst id. by rewrite table_kept in Ha.
Qed.

Lemma swept_registered : registered_inlined_tables table_id db' = registered_inlined_tables table_id db.
Proof using Hswept Hkept Htable.
  unfold registered_inlined_tables. rewrite (sw_registry _ _ Hswept), select_kept; [done|].
  intros row _ Hr%Z.eqb_eq. rewrite Hr. apply table_kept.
Qed.

Lemma mapM_result_ext {A B} (f g : A -> result B) l : (forall a, a ∈ l -> f a = g a) -> mapM_result f l = mapM_result g l.
Proof.
  induction l as [|a l IH]; intros E; [done|]. cbn. rewrite (E a) by left. destruct (g a); [|done]. cbn.
  rewrite IH; [done|]. intros b Hb. apply E. by right.
Qed.

Lemma swept_rows selection shape : read_inlined_rows table_id selection shape db' = read_inlined_rows table_id selection shape db.
Proof using Hswept Hkept Htable Hkeys.
  unfold read_inlined_rows. rewrite swept_registered. f_equal. apply mapM_result_ext. intros name Hname.
  rewrite (sw_inlined _ _ Hswept); [done|]. intros (row & Hrow & Hn & Ha).
  unfold registered_inlined_tables in Hname. apply list_elem_of_In, List.filter_In, proj1, list_elem_of_In, list_elem_of_fmap in Hname
    as (row' & -> & [Hid%Z.eqb_eq Hrow']%elem_of_select).
  destruct Hkeys as [_ Hreg]. rewrite (Hreg row row' Hrow Hrow' Hn), Hid, table_kept in Ha. done.
Qed.
End survivors.

Section expire.
Context `{InlineValues} `{SortParser}.

(** ** Expiring snapshots *)

Lemma order_by_elem {A} (key : A -> Z) l (a : A) : a ∈ order_by key l <-> a ∈ l.
Proof.
  assert (Hi : forall (b : A) s, a ∈ insert_by key b s <-> a = b \/ a ∈ s).
  { intros b s. induction s as [|c s IH]; cbn; [set_solver|]. destruct (key c <=? key b); set_solver. }
  unfold order_by. cut (forall acc, a ∈ fold_left (fun s x => insert_by key x s) l acc <-> a ∈ l \/ a ∈ acc).
  { intros Hc. rewrite Hc, elem_of_nil. tauto. }
  induction l as [|b l IH]; intros acc; cbn; [set_solver|]. rewrite IH, Hi. set_solver.
Qed.

(** The snapshots the call removes. *)
Definition expires (criteria : ExpireCriteria) (db : Db) (row : SnapshotRow) : bool :=
  negb (s_id row =? 0) && negb (bool_decide (Some (s_id row) = head_snapshot db))
  && match criteria with
     | Versions versions => existsb (Z.eqb (s_id row)) versions
     | OlderThan cutoff => s_time row <? cutoff
     end.

(** The catalog without the removed snapshots. *)
Definition without (removed : list (Z * Z)) : Db -> Db :=
  on_snapshots (delete_where (fun row => among (fst <$> removed) (s_id row))).

Lemma expire_ok criteria db removed db' :
  run (expire_snapshots criteria) db = (Returns (Ok removed), db') ->
  removed = (fun row => (s_id row, s_time row)) <$> order_by s_id (select (expires criteria db) (t_snapshots db))
  /\ ((removed = [] /\ db' = db) \/ swept (without removed db) db').
Proof.
  intros Hrun. set (candidates := order_by s_id (select (expires criteria db) (t_snapshots db))).
  assert (Hc : forall m, head_snapshot db = Some m ->
    order_by s_id (select (fun row => negb (s_id row =? 0) && negb (s_id row =? m)
        && match criteria with
           | Versions versions => existsb (Z.eqb (s_id row)) versions
           | OlderThan cutoff => s_time row <? cutoff
           end) (t_snapshots db)) = candidates).
  { intros m Hm. unfold candidates. f_equal. apply select_ext. intros row. unfold expires. rewrite Hm.
    f_equal; f_equal; f_equal. case_bool_decide as Hs; [injection Hs as ->; apply Z.eqb_refl|]. apply Z.eqb_neq. congruence. }
  apply run_committed in Hrun as [E|(d & E & ->)]; unfold expire_snapshots in E;
    apply bind_ok in E as (mr & d0 & [= <- <-] & E); destruct (head_snapshot db) as [m|] eqn:Em.
  2, 4: unfold candidates; unfold head_snapshot in Em; destruct (t_snapshots db) eqn:Es; [|done]; injection E; intros; subst; by auto.
  all: apply bind_ok in E as (cs & d0 & [= <- <-] & E); rewrite (Hc m eq_refl) in E; destruct (is_empty candidates) eqn:Ee.
  - destruct candidates; [|done]. injection E as <- <-. auto.
  - apply bind_ok in E as ([] & d0 & [= <-] & E). apply bind_ok in E as ([] & d1 & Es%sweep_ok & E). injection E as <- <-.
    split; [done|right]. unfold without. by rewrite <- list_fmap_compose.
  - by destruct candidates.
  - apply bind_ok in E as ([] & d0 & [= <-] & E). by apply bind_ok in E as ([] & d1 & _ & E).
Qed.
End expire.

Section kept.
Context `{InlineValues} `{SortParser}.

Lemma max_list_is l m : max_list l = Some m <-> m ∈ l /\ forall x, x ∈ l -> x <= m.
Proof.
  assert (Hin : forall l m, max_list l = Some m -> m ∈ l).
  { intros [|y k] n; [done|]. intros [= <-]. revert y. induction k as [|z k IH]; intros y; cbn; [left|].
    specialize (IH (Z.max y z)). destruct (Z.max_spec y z) as [[_ Hm]|[_ Hm]]; rewrite Hm in *; set_solver. }
  split.
  - intros Hm. split; [by apply Hin|]. intros x Hx. destruct (max_list_elem l x Hx) as (m' & Hm' & Hle). congruence.
  - intros [Hm Hub]. destruct (max_list_elem l m Hm) as (m' & Hm' & Hle). rewrite Hm'. f_equal.
    specialize (Hub m' (Hin _ _ Hm')). lia.
Qed.

(** The newest snapshot is not removed. *)
Lemma newest_kept criteria db :
  get_current_snapshot (without ((fun row => (s_id row, s_time row)) <$> order_by s_id (select (expires criteria db) (t_snapshots db))) db)
  = get_current_snapshot db.
Proof.
  unfold get_current_snapshot. destruct (max_list (s_id <$> t_snapshots db)) as [m|] eqn:Em.
  2: { destruct (t_snapshots db) as [|] eqn:Es; [|done]. change (t_snapshots (without ?r db)) with
         (delete_where (fun row => among (fst <$> r) (s_id row)) (t_snapshots db)). by rewrite Es. }
  apply (f_equal (default 0)). apply max_list_is. pose proof Em as [Hm Hub]%max_list_is. split.
  - apply list_elem_of_fmap in Hm as (row & -> & Hrow). apply (list_elem_of_fmap_2 s_id).
    apply list_elem_of_In, List.filter_In. split; [by apply list_elem_of_In|]. apply negb_true_iff, not_among.
    rewrite <- list_fmap_compose. intros (row' & Hid & [[[_ He]%andb_true_iff _]%andb_true_iff _]%order_by_elem%elem_of_select)%list_elem_of_fmap.
    cbn in Hid. apply negb_true_iff, bool_decide_eq_false in He. unfold head_snapshot in He. congruence.
  - intros x (row & -> & Hrow)%list_elem_of_fmap. apply Hub, (list_elem_of_fmap_2 s_id).
    by apply list_elem_of_In, List.filter_In, proj1, list_elem_of_In in Hrow.
Qed.

(** C5. Expiring snapshots keeps what the others see: after [expire_snapshots] the newest
    snapshot is still the newest, and at every snapshot [t] that is left, a table visible at
    [t] has the columns, data files, delete files, file statistics, partition and sort specs,
    inlined rows and inlined deletions it had before, and [t] lists the same schemas and
    tables. *)
Theorem expiry_keeps_survivors criteria db removed db' t table_id :
  run (expire_snapshots criteria) db = (Returns (Ok removed), db') ->
  wf_files db -> wf_keys db ->
  t ∈ s_id <$> t_snapshots db' ->
  existsb (fun v => of_table tb_id table_id v && visible t v) (t_tables db) = true ->
  get_current_snapshot db' = get_current_snapshot db
  /\ list_schemas t db' = list_schemas t db
  /\ (forall schema_id, list_tables schema_id t db' = list_tables schema_id t db)
  /\ get_table_structure table_id t db' = get_table_structure table_id t db
  /\ get_table_files_for_select table_id t db' = get_table_files_for_select table_id t db
  /\ get_file_column_stats table_id t db' = get_file_column_stats table_id t db
  /\ get_partition_spec table_id t db' = get_partition_spec table_id t db
  /\ get_sort_spec table_id t db' = get_sort_spec table_id t db
  /\ get_inlined_deletes table_id t db' = get_inlined_deletes table_id t db
  /\ (forall shape, read_inlined_rows table_id (VisibleAt t) shape db' = read_inlined_rows table_id (VisibleAt t) shape db).
Proof.
  intros [Hr Hs]%expire_ok Hf Hk Ht Hv. destruct Hs as [[_ ->]|Hs]; [by split_and!|].
  set (db1 := without removed db) in *.
  assert (Hn : get_current_snapshot db1 = get_current_snapshot db) by (unfold db1; rewrite Hr; apply newest_kept).
  assert (Hsnap : t_snapshots db' = t_snapshots db1) by by apply (unswept_same db1 db' Hs t_snapshots).
  rewrite Hsnap in Ht. apply list_elem_of_fmap in Ht as (row & Hrow & Hin).
  assert (Hkept : exists row, row ∈ t_snapshots db1 /\ s_id row = t) by (by exists row).
  apply existsb_exists in Hv as (w & Hw & [Hwt%Z.eqb_eq Hwv]%andb_true_iff). apply list_elem_of_In in Hw.
  assert (Htable : exists w, w ∈ t_tables db1 /\ tb_id (v_row w) = table_id /\ visible t w = true) by (by exists w).
  split_and!.
  - unfold get_current_snapshot. by rewrite Hsnap.
  - unfold list_schemas. rewrite (sw_schemas _ _ Hs), select_kept; [done|]. intros v _. by apply kept_not_dead.
  - intros schema_id. unfold list_tables. rewrite (sw_tables _ _ Hs), select_kept; [done|].
    intros v Hvin [_ Hvv]%andb_true_iff. by apply (seen_table_kept db1 t).
  - unfold get_table_structure. by rewrite (swept_columns db1 db' t table_id Hs Hkept Htable).
  - by apply (swept_listing db1 db' t table_id).
  - by apply (swept_stats db1 db' t table_id).
  - by apply (unswept_same db1 db' Hs (get_partition_spec table_id t)).
  - by apply (unswept_same db1 db' Hs (get_sort_spec table_id t)).
  - by apply (swept_inlined_deletes db1 db' t table_id).
  - intros shape. by apply (swept_rows db1 db' t table_id).
Qed.

(** ** Files the catalog still knows *)

(** A table is visible only where its schema is. *)
Definition within_schemas (db : Db) : Prop := forall w w' s u,
  w ∈ t_tables db -> w' ∈ t_tables db -> s ∈ t_schemas db ->
  tb_id (v_row w') = tb_id (v_row w) -> sch_id (v_row s) = tb_schema_id (v_row w) ->
  visible u w' = true -> visible u s = true.

(** Live schemas that begin no later than every table. *)
Lemma live_schemas_within db :
  forallb (fun s => forallb (fun w => (v_begin s <=? v_begin w) && live s) (t_tables db)) (t_schemas db) = true ->
  within_schemas db.
Proof.
  intros Hb w w' s u Hw Hw' Hs _ _ Hv.
  rewrite forallb_forall in Hb. specialize (Hb s (proj1 (list_elem_of_In _ _) Hs)). rewrite forallb_forall in Hb.
  specialize (Hb w' (proj1 (list_elem_of_In _ _) Hw')). unfold live, visible in *. apply andb_true_iff in Hb as [Hb He%bool_decide_eq_true].
  rewrite He. apply andb_true_iff in Hv as [Hv _]. breflect. lia.
Qed.

Lemma alive_schema db w s :
  within_schemas db -> w ∈ t_tables db -> s ∈ t_schemas db -> sch_id (v_row s) = tb_schema_id (v_row w) ->
  among (dead_tables db) (tb_id (v_row w)) = false -> dead db s = false.
Proof.
  intros Hin Hw Hs He Ha.
  assert (exists w', w' ∈ t_tables db /\ tb_id (v_row w') = tb_id (v_row w) /\ dead db w' = false) as (w' & Hw' & Hid & Hd).
  { destruct (dead db w) eqn:Ed; [|by exists w].
    destruct (existsb (fun t2 => of_table tb_id (tb_id (v_row w)) t2 && (live t2 || seen_by_snapshot db t2)) (t_tables db)) eqn:Ex.
    - apply existsb_exists in Ex as (w' & Hw' & [Hi%Z.eqb_eq Hl]%andb_true_iff). exists w'.
      split; [by apply list_elem_of_In|]. split; [done|]. unfold dead. by destruct (live w'), (seen_by_snapshot db w').
    - enough (among (dead_tables db) (tb_id (v_row w)) = true) by congruence. apply among_spec, list_elem_of_fmap. exists w. split; [done|]. apply elem_of_select. by rewrite Ed, Ex. }
  unfold dead in *. apply andb_false_iff in Hd as [Hl|Hl]; apply negb_false_iff in Hl.
  - destruct (live s) eqn:Els; [done|]. exfalso. unfold live in Hl, Els. apply bool_decide_eq_true in Hl.
    destruct (v_end s) as [e|] eqn:Ee; [|done].
    assert (visible (Z.max e (v_begin w')) s = true) as Hv.
    { apply (Hin w w' s); [done..|]. unfold visible. rewrite Hl. breflect. lia. }
    unfold visible in Hv. rewrite Ee in Hv. breflect. lia.
  - replace (seen_by_snapshot db s) with true; [apply andb_false_r|]. symmetry. unfold seen_by_snapshot in *.
    apply existsb_exists in Hl as (row & Hrow & Hv). apply existsb_exists. exists row. split; [done|].
    by apply (Hin w w' s).
Qed.

Abbreviation referenced rows := ((fun row => (sd_path row, sd_path_is_relative row)) <$> rows).

(** A path an entry resolves to, by a row of its table and a row of that one's schema. *)
Definition located (db : Db) (entry : Z * Z * str * bool) (p : str * bool) : Prop :=
  let '(_, table_id, path, relative) := entry in
  exists w s, w ∈ t_tables db /\ tb_id (v_row w) = table_id /\ s ∈ t_schemas db
    /\ sch_id (v_row s) = tb_schema_id (v_row w)
    /\ p = (resolved_path path relative (v_row w) (v_row s), rel_flag relative (v_row w) (v_row s)).

Lemma scheduled_located entries db p :
  p ∈ referenced (scheduled_rows entries db) <-> exists entry, entry ∈ entries /\ located db entry p.
Proof.
  rewrite list_elem_of_fmap. split.
  - intros (row & -> & Hrow). unfold scheduled_rows in Hrow.
    apply list_elem_of_bind in Hrow as ([[[id table] path] relative] & Hrow & He).
    apply list_elem_of_bind in Hrow as (w & Hrow & [Hwt%Z.eqb_eq Hw]%elem_of_select).
    apply list_elem_of_bind in Hrow as (s & Hrow & [Hst%Z.eqb_eq Hs]%elem_of_select).
    apply list_elem_of_singleton in Hrow as ->. eexists. split; [exact He|]. by exists w, s.
  - intros ([[[id table] path] relative] & He & w & s & Hw & Hwt & Hs & Hst & ->).
    eexists. split; [|apply list_elem_of_bind; eexists; split; [|exact He]; apply list_elem_of_bind; exists w; split;
      [apply list_elem_of_bind; exists s; split; [by left|]|]; apply elem_of_select; unfold of_table].
    + done.
    + split; [by apply Z.eqb_eq|done].
    + split; [by apply Z.eqb_eq|done].
Qed.

Lemma referenced_paths db p :
  p ∈ list_referenced_paths db <->
  (exists v, v ∈ t_data_files db /\ located db (data_file_entry v) p)
  \/ (exists v, v ∈ t_delete_files db /\ located db (delete_file_entry v) p)
  \/ p ∈ referenced (t_scheduled db).
Proof.
  unfold list_referenced_paths. rewrite elem_of_app, fmap_app, elem_of_app, !scheduled_located.
  setoid_rewrite list_elem_of_fmap. naive_solver.
Qed.

Lemma elem_of_delete_where {A} (q : A -> bool) l a : a ∈ delete_where q l <-> q a = false /\ a ∈ l.
Proof. unfold delete_where. rewrite !list_elem_of_In, List.filter_In, negb_true_iff. tauto. Qed.

(** An entry of a table that is left resolves to the same paths after the sweep. *)
Lemma located_after db db' entry p :
  swept db db' -> within_schemas db -> among (dead_tables db) (entry.1.1.2) = false ->
  located db' entry p <-> located db entry p.
Proof.
  destruct entry as [[[id table] path] relative]. cbn. intros Hs Hin Ha. rewrite (sw_tables _ _ Hs), (sw_schemas _ _ Hs).
  split; intros (w & s & Hw & Hwt & Hss & Hst & ->); exists w, s; rewrite !elem_of_delete_where in *;
    split_and!; try done; try apply Hw; try apply Hss; subst; [done|by eapply alive_schema].
Qed.

Lemma located_before db db' entry p : swept db db' -> located db' entry p -> located db entry p.
Proof.
  destruct entry as [[[id table] path] relative]. cbn. intros Hs. rewrite (sw_tables _ _ Hs), (sw_schemas _ _ Hs).
  intros (w & s & [_ Hw]%elem_of_delete_where & Hwt & [_ Hss]%elem_of_delete_where & Hst & ->). by exists w, s.
Qed.

Lemma not_dead_data db v :
  v ∈ t_data_files db -> among (dead_data db) (d_id (v_row v)) = false -> among (dead_tables db) (d_table_id (v_row v)) = false.
Proof.
  intros Hv Ha. destruct (among (dead_tables db) (d_table_id (v_row v))) eqn:E; [|done].
  enough (among (dead_data db) (d_id (v_row v)) = true) by congruence.
  apply among_spec, (list_elem_of_fmap_2 (fun v => d_id (v_row v))), elem_of_select. by rewrite E.
Qed.

Lemma not_dead_delete db v :
  v ∈ t_delete_files db -> among (dead_deletes db) (x_id (v_row v)) = false -> among (dead_tables db) (x_table_id (v_row v)) = false.
Proof.
  intros Hv Ha. destruct (among (dead_tables db) (x_table_id (v_row v))) eqn:E; [|done].
  enough (among (dead_deletes db) (x_id (v_row v)) = true) by congruence.
  apply among_spec, (list_elem_of_fmap_2 (fun v => x_id (v_row v))), elem_of_select. by rewrite E, orb_true_r.
Qed.

Lemma swept_referenced db db' p :
  swept db db' -> within_schemas db -> p ∈ list_referenced_paths db' <-> p ∈ list_referenced_paths db.
Proof.
  intros Hs Hin. rewrite !referenced_paths, (sw_data_files _ _ Hs), (sw_delete_files _ _ Hs), (sw_scheduled _ _ Hs).
  rewrite !fmap_app, !elem_of_app, !scheduled_located. setoid_rewrite list_elem_of_fmap.
  setoid_rewrite elem_of_delete_where. setoid_rewrite elem_of_select. split.
  - intros [(v & [_ Hv] & Hl%(located_before db))|[(v & [_ Hv] & Hl%(located_before db))|[Hp|[Hp|Hp]]]]; [naive_solver..].
  - intros [(v & Hv & Hl)|[(v & Hv & Hl)|Hp]].
    + destruct (among (dead_data db) (d_id (v_row v))) eqn:E; [naive_solver|]. left. exists v. split; [done|].
      apply (located_after db); [done..| |done]. by apply not_dead_data.
    + destruct (among (dead_deletes db) (x_id (v_row v))) eqn:E; [naive_solver|]. right. left. exists v. split; [done|].
      apply (located_after db); [done..| |done]. by apply not_dead_delete.
    + auto.
Qed.

(** C15. Expiring snapshots loses track of no file: every path of a data file or delete file
    that [expire_snapshots] unregisters is scheduled for deletion, and the paths of the
    files it keeps resolve as before, so the paths the catalog references, which orphan
    cleanup leaves alone, are the same set before and after. *)
Theorem expiry_loses_no_file criteria db removed db' p :
  run (expire_snapshots criteria) db = (Returns (Ok removed), db') -> within_schemas db ->
  p ∈ list_referenced_paths db' <-> p ∈ list_referenced_paths db.
Proof.
  intros [_ [[_ ->]|Hs]]%expire_ok Hin; [done|]. by rewrite (swept_referenced (without removed db) db').
Qed.
End kept.

(** ** A sample expiry *)

#[local] Existing Instance counted_batches.
#[local] Existing Instance sample_values.
#[local] Existing Instance sample_parser.
#[local] Strategy expand [sample_setup append_file sample_catalog truncated_catalog later_catalog].

(** The snapshots before the truncation go, and with them the files it ended. *)
Definition expired_catalog : Db := (run (expire_snapshots (Versions [1; 2; 3; 5])) later_catalog).2.
#[local] Strategy expand [expired_catalog].

Lemma sample_expiry : run (expire_snapshots (Versions [1; 2; 3; 5])) later_catalog = (Returns (Ok [(1, 0); (2, 0); (3, 0)]), expired_catalog).
Proof. vm_compute. reflexivity. Qed.

Lemma later_wf : wf later_catalog.
Proof.
  assert (Ht : 3 <= get_current_snapshot sample_catalog) by (vm_compute; discriminate).
  destruct (history_holds None 3 false (view false 3 sample_catalog) _ _ _ Ht (later_history false)) as (h' & _ & Hw & _); [|exact Hw].
  split; [exact sample_wf|done].
Qed.

Lemma later_keys : wf_keys later_catalog.
Proof.
  split; [apply (bool_decide_unpack _); vm_compute; exact I|]. intros r r' Hr Hr' _.
  assert (Hb : forallb (fun r => r_table_id r =? 1) (t_registry later_catalog) = true) by (vm_compute; reflexivity).
  rewrite forallb_forall in Hb. pose proof (Hb r (proj1 (list_elem_of_In _ _) Hr)). pose proof (Hb r' (proj1 (list_elem_of_In _ _) Hr')).
  lia.
Qed.

Lemma expiry_keeps_survivors_witness :
  get_table_files_for_select 1 5 expired_catalog = get_table_files_for_select 1 5 later_catalog
  /\ length (get_table_files_for_select 1 5 later_catalog) = 1%nat
  /\ length (t_data_files later_catalog) = 3%nat /\ length (t_data_files expired_catalog) = 1%nat.
Proof.
  split; [|split; [|split]; vm_compute; reflexivity].
  refine (proj1 (proj2 (proj2 (proj2 (proj2 (expiry_keeps_survivors _ _ _ _ 5 1 sample_expiry (proj1 later_wf) later_keys _ _)))))).
  - apply (bool_decide_unpack _). vm_compute. exact I.
  - vm_compute. reflexivity.
Defined.

Lemma later_within : within_schemas later_catalog.
Proof. apply live_schemas_within. vm_compute. reflexivity. Qed.

Lemma expiry_loses_no_file_witness :
  (forall p, p ∈ list_referenced_paths expired_catalog <-> p ∈ list_referenced_paths later_catalog)
  /\ length (t_scheduled expired_catalog) = 3%nat /\ length (t_scheduled later_catalog) = 0%nat.
Proof.
  split; [|split; vm_compute; reflexivity].
  intros p. exact (expiry_loses_no_file _ _ _ _ p sample_expiry later_within).
Defined.
