(* ===== verification/FileCleanup.v ===== *)
(** * Deleting files from the object store

    [cleanup_old_files_duckdb] and [delete_orphaned_files_duckdb] of [maintenance.rs] on the
    catalog of [CatalogDb] and an object store, which is the class [ObjectStore]. Together
    with [expire_snapshots] they are the maintenance calls of the DuckDB writer; over any
    sequence of them no file a kept snapshot reads is deleted. *)

From S2P Require Import Prelude RustStd Arrow StatsOrder StatsRollup WriterTypes DuckdbCast ChangeLedger Conflicts PathResolver Partition RowIds WriterChecks Types ColumnTrees SortSpec InlinedTypes CatalogDb CatalogSnapshots CatalogTables CatalogCommits CatalogAdmin CatalogReads CatalogHistory CatalogInit CatalogIds CatalogViews CatalogTimeTravel CatalogExpiry.

(** ** The libraries the code calls *)

(** [url::Url], [datafusion::execution::object_store::ObjectStoreUrl], [std::path::absolute]
    and [percent_encoding], as [parse_object_store_url] uses them. *)
Class UrlLibrary := {
  Url : Type;
  url_parse : str -> result Url;
  host_str : Url -> option str;
  before_path : Url -> str;
  url_path : Url -> str;
  ObjectStoreUrl : Type;
  object_store_url_parse : str -> result ObjectStoreUrl;
  percent_decode_utf8 : str -> result str;
  path_absolute : str -> result str;
  url_compare : ObjectStoreUrl -> ObjectStoreUrl -> comparison;
}.

(** [object_store::path::Path]: [Path::from] of a text, its text being the key, and
    [Path::prefix_matches]. *)
Class ObjectPaths := {
  object_path : str -> str;
  prefix_matches : str -> str -> bool;
}.

Record ObjectMeta := { om_location : str; om_last_modified : Z }.
Inductive Deletion := Deleted | NotFound | DeleteFailed (e : DuckLakeError).

(** [ObjectStore]: [list(Some(prefix)).try_collect()] and [delete] on the store's state, and
    whether the state has an object. *)
Class ObjectStore := {
  Store : Type;
  store_list : str -> Store -> result (list ObjectMeta);
  store_delete : str -> Store -> Deletion * Store;
  has_object : Store -> str -> Prop;
}.

(** A delete touches no other object. *)
Class LawfulStore `{ObjectStore} : Prop := {
  delete_others : forall key other st,
    other <> key -> has_object (store_delete key st).2 other <-> has_object st other;
}.

(** [ScheduledFile]. *)
Record ScheduledFile := {
  scf_data_file_id : Z;
  scf_path : str;
  scf_path_is_relative : bool;
  scf_scheduled_by_owner : option bool;
}.

Section cleanup.
Context `{InlineValues} `{SortParser} `{UrlLibrary} `{ObjectPaths} `{ObjectStore}.

Definition parse_url : str -> outcome (ObjectStoreUrl * str) :=
  parse_object_store_url Url url_parse host_str before_path url_path ObjectStoreUrl object_store_url_parse
    percent_decode_utf8 path_absolute.

Fixpoint map_outcome {A B} (f : A -> outcome B) (l : list A) : outcome (list B) :=
  match l with
  | [] => Returns (Ok [])
  | a :: l' => let! b := f a in let! bs := map_outcome f l' in Returns (Ok (b :: bs))
  end.

(** The object-store key of a resolved path ([canonical_key]). *)
Definition canonical_key (resolved : str) : str := object_path (drop_while (char_eqb slash) resolved).

(** The loop that deletes: a missing object is no error. *)
Fixpoint delete_objects (keys : list str) (st : Store) : result unit * Store :=
  match keys with
  | [] => (Ok tt, st)
  | key :: rest =>
      let '(outcome, st') := store_delete key st in
      match outcome with
      | DeleteFailed e => (Err e, st')
      | _ => delete_objects rest st'
      end
  end.

(** [run_cleanup]: what it returns, the catalog and the store it leaves. *)
Definition run_cleanup {Catalog : Type} (data_path : str) (files : list ScheduledFile) (dry_run : bool)
  (remove_rows : list ScheduledFile -> Catalog -> outcome unit * Catalog) (db : Catalog) (st : Store)
  : outcome (list str) * Catalog * Store :=
  if is_empty files then (Returns (Ok []), db, st)
  else
    match (let! (_, base_key) := parse_url data_path in
           map_outcome (fun file => resolve_path base_key (scf_path file) (scf_path_is_relative file)) files) with
    | Returns (Ok resolved) =>
        if dry_run then (Returns (Ok resolved), db, st)
        else
          let '(deleted, st') := delete_objects (canonical_key <$> resolved) st in
          match deleted with
          | Err e => (Returns (Err e), db, st')
          | Ok _ =>
              let '(removed, db') := remove_rows files db in
              ((let! _ := removed in Returns (Ok resolved)), db', st')
          end
    | Returns (Err e) => (Returns (Err e), db, st)
    | Panics => (Panics, db, st)
    end.

(** [scheduled_ids] and [cleanup_old_files_duckdb]. *)
Definition scheduled_ids (files : list ScheduledFile) : list Z := scf_data_file_id <$> files.
Definition scheduled_file (row : Z * str * bool) : ScheduledFile :=
  {| scf_data_file_id := row.1.1; scf_path := row.1.2; scf_path_is_relative := row.2; scf_scheduled_by_owner := None |}.
Definition cleanup_old_files_duckdb (criteria : CleanupCriteria) (dry_run : bool) (db : Db) (st : Store)
  : outcome (list str) * Db * Store :=
  match get_data_path db with
  | Err e => (Returns (Err e), db, st)
  | Ok data_path =>
      run_cleanup data_path (scheduled_file <$> list_scheduled_for_deletion criteria db) dry_run
        (fun files db => run (remove_scheduled (scheduled_ids files)) db) db st
  end.

(** A listed object to delete: a Parquet file, old enough and not referenced. *)
Definition is_orphan (referenced : list str) (criteria : CleanupCriteria) (meta : ObjectMeta) : bool :=
  ends_with ".parquet" (om_location meta)
  && match criteria with CleanupAll => true | CleanupOlderThan cutoff => om_last_modified meta <? cutoff end
  && negb (bool_decide (om_location meta ∈ referenced)).

(** [run_orphan_cleanup]. *)
Definition run_orphan_cleanup (data_path : str) (referenced : list (str * bool)) (criteria : CleanupCriteria)
  (dry_run : bool) (st : Store) : outcome (list str) * Store :=
  match (let! (_, base_key) := parse_url data_path in
         let! referenced := map_outcome (fun '(path, relative) =>
           let! abs := resolve_path base_key path relative in Returns (Ok (canonical_key abs))) referenced in
         let! entries := Returns (store_list (canonical_key base_key) st) in
         Returns (Ok (om_location <$> select (is_orphan referenced criteria) entries))) with
  | Returns (Ok orphans) =>
      let paths := (fun orphan => slash :: orphan) <$> orphans in
      if dry_run then (Returns (Ok paths), st)
      else
        let '(deleted, st') := delete_objects orphans st in
        ((let! _ := Returns deleted in Returns (Ok paths)), st')
  | Returns (Err e) => (Returns (Err e), st)
  | Panics => (Panics, st)
  end.

(** [delete_orphaned_files_duckdb]. *)
Definition delete_orphaned_files_duckdb (criteria : CleanupCriteria) (dry_run : bool) (db : Db) (st : Store)
  : outcome (list str) * Store :=
  match get_data_path db with
  | Err e => (Returns (Err e), st)
  | Ok data_path => run_orphan_cleanup data_path (list_referenced_paths db) criteria dry_run st
  end.
End cleanup.

Section upkeep.
Context `{InlineValues} `{SortParser} `{UrlLibrary} `{ObjectPaths} `{LawfulStore}.

(** ** Which object a file is *)

(** The key of a path of the catalog, relative to its [data_path] or absolute. *)
Definition keyed (db : Db) (p : str * bool) (k : str) : Prop := exists data_path url base abs,
  get_data_path db = Ok data_path /\ parse_url data_path = Returns (Ok (url, base))
  /\ resolve_path base p.1 p.2 = Returns (Ok abs) /\ canonical_key abs = k.

(** A registered file: a data file or a delete file, by its entry. *)
Inductive RegisteredFile := DataFile (v : versioned DataFileRow) | DeleteFile (v : versioned DeleteFileRow).
Definition registered (db : Db) (f : RegisteredFile) : Prop :=
  match f with DataFile v => v ∈ t_data_files db | DeleteFile v => v ∈ t_delete_files db end.
Definition file_entry (f : RegisteredFile) : Z * Z * str * bool :=
  match f with DataFile v => data_file_entry v | DeleteFile v => delete_file_entry v end.
Definition file_id (f : RegisteredFile) : bool * Z :=
  match f with DataFile v => (true, d_id (v_row v)) | DeleteFile v => (false, x_id (v_row v)) end.
Definition names_object (db : Db) (f : RegisteredFile) (k : str) : Prop :=
  exists p, located db (file_entry f) p /\ keyed db p k.

(** A file a snapshot reads: of a table it sees, and a delete file with its data file. *)
Inductive read_at (t : Z) (db : Db) : RegisteredFile -> Prop :=
| read_data v w :
    v ∈ t_data_files db -> visible t v = true ->
    w ∈ t_tables db -> tb_id (v_row w) = d_table_id (v_row v) -> visible t w = true -> read_at t db (DataFile v)
| read_delete x v w :
    x ∈ t_delete_files db -> visible t x = true ->
    v ∈ t_data_files db -> d_id (v_row v) = x_data_file_id (v_row x) -> d_table_id (v_row v) = x_table_id (v_row x) ->
    visible t v = true ->
    w ∈ t_tables db -> tb_id (v_row w) = x_table_id (v_row x) -> visible t w = true -> read_at t db (DeleteFile x).

(** An object is of one file, and not of a file scheduled for deletion. *)
Definition own_objects (db : Db) : Prop :=
  (forall f f' k, registered db f -> registered db f' -> names_object db f k -> names_object db f' k -> file_id f = file_id f')
  /\ (forall f k row, registered db f -> names_object db f k -> row ∈ t_scheduled db ->
      ~ keyed db (sd_path row, sd_path_is_relative row) k).

Record tidy (db : Db) : Prop := {
  ty_files : wf_files db;
  ty_deletes : NoDup ((fun v => x_id (v_row v)) <$> t_delete_files db);
  ty_schemas : within_schemas db;
  ty_objects : own_objects db;
}.

(** ** Deleting objects *)

Lemma map_outcome_elem {A B} (f : A -> outcome B) l bs b :
  map_outcome f l = Returns (Ok bs) -> b ∈ bs <-> exists a, a ∈ l /\ f a = Returns (Ok b).
Proof.
  revert bs. induction l as [|a l IH]; intros bs; cbn.
  - intros [= <-]. rewrite elem_of_nil. split; [done|]. by intros (a & Ha%elem_of_nil & _).
  - destruct (f a) as [[b'|]|] eqn:Ef; [|done..]. cbn. destruct (map_outcome f l) as [[bs'|]|] eqn:El; [|done..].
    intros [= <-]. rewrite elem_of_cons, (IH bs') by done. split.
    + intros [->|(a' & Ha & Hf)]; [exists a; split; [left|done]|]. exists a'. split; [by right|done].
    + intros (a' & [->|Ha]%elem_of_cons & Hf); [left; congruence|right; by exists a'].
Qed.

Lemma map_outcome_each {A B} (f : A -> outcome B) l bs a :
  map_outcome f l = Returns (Ok bs) -> a ∈ l -> exists b, f a = Returns (Ok b) /\ b ∈ bs.
Proof.
  revert bs. induction l as [|a' l IH]; intros bs; cbn; [by intros _ ?%elem_of_nil|].
  destruct (f a') as [[b'|]|] eqn:Ef; [|done..]. cbn. destruct (map_outcome f l) as [[bs'|]|] eqn:El; [|done..].
  intros [= <-] [->|Ha]%elem_of_cons; [exists b'; split; [done|left]|]. destruct (IH bs' eq_refl Ha) as (b & ? & ?).
  exists b. split; [done|by right].
Qed.

Lemma deleted_others keys st k : k ∉ keys -> has_object (delete_objects keys st).2 k <-> has_object st k.
Proof.
  revert st. induction keys as [|key keys IH]; intros st Hk; [done|]. cbn.
  apply not_elem_of_cons in Hk as [Hne Hk]. pose proof (delete_others key k st Hne) as Hd.
  destruct (store_delete key st) as [[| |e] st']; cbn in *; rewrite ?IH by done; done.
Qed.

(** A cleanup spares an object that is none of its files'. *)
Lemma run_cleanup_spares {Catalog} data_path files dry_run remove_rows (db : Catalog) st k :
  (forall url base file abs, parse_url data_path = Returns (Ok (url, base)) -> file ∈ files ->
     resolve_path base (scf_path file) (scf_path_is_relative file) = Returns (Ok abs) -> canonical_key abs <> k) ->
  has_object (run_cleanup data_path files dry_run remove_rows db st).2 k <-> has_object st k.
Proof.
  intros Hk. unfold run_cleanup. destruct (is_empty files); [done|].
  destruct (parse_url data_path) as [[[url base]|]|]; [|done..]. cbn.
  destruct (map_outcome _ files) as [[resolved|]|] eqn:Er; [|done..]. destruct dry_run; [done|].
  assert (Hn : k ∉ canonical_key <$> resolved).
  { intros (abs & -> & Ha)%list_elem_of_fmap. apply (map_outcome_elem _ _ _ _ Er) in Ha as (file & Hf & Ha).
    by apply (Hk url base file abs). }
  pose proof (deleted_others _ st k Hn) as Hd. destruct (delete_objects _ st) as [[[]|e] st']; cbn in *; [|done].
  by destruct (remove_rows files db).
Qed.

Lemma cleanup_spares criteria dry_run db st k :
  (forall row, row ∈ t_scheduled db -> ~ keyed db (sd_path row, sd_path_is_relative row) k) ->
  has_object (cleanup_old_files_duckdb criteria dry_run db st).2 k <-> has_object st k.
Proof.
  intros Hk. unfold cleanup_old_files_duckdb. destruct (get_data_path db) as [data_path|] eqn:Ed; [|done].
  apply run_cleanup_spares. intros url base file abs Eu Hf Ea E. unfold list_scheduled_for_deletion in Hf.
  rewrite <- list_fmap_compose in Hf. apply list_elem_of_fmap in Hf as (row & -> & [_ Hrow]%elem_of_select).
  apply (Hk row Hrow). by exists data_path, url, base, abs.
Qed.

Lemma cleanup_catalog criteria dry_run db st :
  exists p, (cleanup_old_files_duckdb criteria dry_run db st).1.2 = on_scheduled (delete_where p) db.
Proof.
  assert (Hid : on_scheduled (delete_where (fun _ => false)) db = db).
  { destruct db. unfold on_scheduled. f_equal. by apply delete_none. }
  unfold cleanup_old_files_duckdb. destruct (get_data_path db) as [data_path|]; [|by exists (fun _ => false)].
  unfold run_cleanup. destruct (is_empty _); [by exists (fun _ => false)|].
  destruct (let! (_, base) := _ in _) as [[resolved|]|]; [|by exists (fun _ => false)..].
  destruct dry_run; [by exists (fun _ => false)|].
  destruct (delete_objects _ st) as [[[]|e] st']; [|by exists (fun _ => false)]. by eexists.
Qed.

(** An orphan cleanup spares an object that is referenced or not listed. *)
Lemma orphan_cleanup_spares data_path referenced criteria dry_run st k :
  (forall url base keys entries, parse_url data_path = Returns (Ok (url, base)) ->
     map_outcome (fun '(path, relative) =>
       let! abs := resolve_path base path relative in Returns (Ok (canonical_key abs))) referenced = Returns (Ok keys) ->
     store_list (canonical_key base) st = Ok entries -> k ∈ keys \/ k ∉ om_location <$> entries) ->
  has_object (run_orphan_cleanup data_path referenced criteria dry_run st).2 k <-> has_object st k.
Proof.
  intros Hk. unfold run_orphan_cleanup. destruct (parse_url data_path) as [[[url base]|]|] eqn:Eu; [|done..]. cbn.
  destruct (map_outcome _ referenced) as [[keys|]|] eqn:Er; [|done..]. cbn.
  destruct (store_list _ st) as [entries|] eqn:El; [|done]. cbn. destruct dry_run; [done|].
  assert (Hn : k ∉ om_location <$> select (is_orphan keys criteria) entries).
  { intros (meta & Hm & [Ho Hin]%elem_of_select)%list_elem_of_fmap. apply andb_true_iff in Ho as [_ Ho].
    apply negb_true_iff, bool_decide_eq_false in Ho. rewrite <- Hm in Ho. destruct (Hk url base keys entries eq_refl Er El) as [?|Hl]; [done|].
    apply Hl. rewrite Hm. by apply list_elem_of_fmap_2. }
  pose proof (deleted_others _ st k Hn) as Hd. by destruct (delete_objects _ st) as [[[]|e] st'].
Qed.

Lemma orphans_spare criteria dry_run db st p k :
  p ∈ list_referenced_paths db -> keyed db p k ->
  has_object (delete_orphaned_files_duckdb criteria dry_run db st).2 k <-> has_object st k.
Proof.
  intros Hp (data_path & url & base & abs & Ed & Eu & Ea & Hk). unfold delete_orphaned_files_duckdb. rewrite Ed.
  apply orphan_cleanup_spares. intros url' base' keys entries Eu' Er _. rewrite Eu in Eu'. injection Eu' as <- <-. left.
  apply (map_outcome_elem _ _ _ _ Er). exists p. split; [done|]. destruct p as [path relative]. cbn in Ea. rewrite Ea. cbn. by rewrite Hk.
Qed.

(** ** One maintenance call *)

Lemma swept_same {A} db db' (f : Db -> A) : swept db db' -> (forall d, f (unswept d) = f d) -> f db' = f db.
Proof. intros Hs. apply (unswept_same db db' Hs). Qed.

Lemma swept_keyed db db' p k : swept db db' -> keyed db' p k <-> keyed db p k.
Proof. intros Hs. unfold keyed. by rewrite (swept_same db db' get_data_path Hs). Qed.

Lemma swept_registered_file db db' f :
  swept db db' -> registered db' f ->
  registered db f /\ match f with
                     | DataFile v => among (dead_data db) (d_id (v_row v)) = false
                     | DeleteFile v => among (dead_deletes db) (x_id (v_row v)) = false
                     end.
Proof.
  intros Hs. destruct f as [v|v]; cbn; [rewrite (sw_data_files _ _ Hs)|rewrite (sw_delete_files _ _ Hs)];
    by intros [??]%elem_of_delete_where.
Qed.

Lemma swept_names db db' f k : swept db db' -> names_object db' f k -> names_object db f k.
Proof. intros Hs (p & Hl & Hk). exists p. split; [by apply (located_before db db')|by apply (swept_keyed db db')]. Qed.

Lemma sublist_distinct {A} (key : A -> Z) (q : A -> bool) l : NoDup (key <$> l) -> NoDup (key <$> delete_where q l).
Proof.
  intros Hn. eapply sublist_NoDup; [exact Hn|]. clear Hn. unfold delete_where.
  induction l as [|a l IH]; cbn; [constructor|]. destruct (q a); cbn; by constructor.
Qed.

Lemma swept_own db db' : swept db db' -> own_objects db -> own_objects db'.
Proof.
  intros Hs [Hown Hsch]. split.
  - intros f f' k Hf Hf' Hn Hn'. apply (Hown f f' k); [by apply (swept_registered_file db db')..| |]; by apply (swept_names db db').
  - intros f k row [Hf Hlive]%(swept_registered_file db db' f Hs) Hn Hrow Hk. apply (swept_keyed db db' _ _ Hs) in Hk.
    apply (swept_names db db' f k Hs) in Hn.
    assert (Hdead : forall e, (row ∈ scheduled_rows e db) ->
      exists entry, entry ∈ e /\ located db entry (sd_path row, sd_path_is_relative row)).
    { intros e He. apply (scheduled_located e db). by apply (list_elem_of_fmap_2 (fun row => (sd_path row, sd_path_is_relative row))). }
    rewrite (sw_scheduled _ _ Hs), !elem_of_app in Hrow.
    destruct Hrow as [Hrow|[(entry & Hin & Hl)%Hdead|(entry & Hin & Hl)%Hdead]]; [by apply (Hsch f k row)|..];
      apply list_elem_of_fmap in Hin as (v & -> & [Hd Hv]%elem_of_select).
    + assert (E : file_id f = file_id (DataFile v)) by (apply (Hown f (DataFile v) k); [done..|]; by exists (sd_path row, sd_path_is_relative row)).
      destruct f as [v'|v']; [injection E as E|done]. congruence.
    + assert (E : file_id f = file_id (DeleteFile v)) by (apply (Hown f (DeleteFile v) k); [done..|]; by exists (sd_path row, sd_path_is_relative row)).
      destruct f as [v'|v']; [done|injection E as E]. congruence.
Qed.

Lemma swept_tidy db db' : swept db db' -> tidy db -> tidy db'.
Proof.
  intros Hs [Hf Hd Hi Ho]. split.
  - unfold wf_files. rewrite (sw_data_files _ _ Hs). by apply sublist_distinct.
  - rewrite (sw_delete_files _ _ Hs). by apply sublist_distinct.
  - intros w w' s u. rewrite (sw_tables _ _ Hs), (sw_schemas _ _ Hs). intros [_ Hw]%elem_of_delete_where [_ Hw']%elem_of_delete_where
      [_ Hss]%elem_of_delete_where. by apply (Hi w w' s u).
  - by apply (swept_own db).
Qed.

(** A file a kept snapshot reads is registered after the sweep, at the same place. *)
Lemma swept_read db db' t f :
  swept db db' -> tidy db -> (exists row, row ∈ t_snapshots db /\ s_id row = t) -> read_at t db f -> read_at t db' f.
Proof.
  intros Hs [Hf Hd _ _] Hkept Hr.
  assert (Htab : forall w, w ∈ t_tables db -> visible t w = true -> w ∈ t_tables db').
  { intros w Hw Hv. rewrite (sw_tables _ _ Hs). apply elem_of_delete_where. split; [|done]. by apply (seen_table_kept db t). }
  assert (Hdata : forall v w, v ∈ t_data_files db -> visible t v = true -> w ∈ t_tables db ->
    tb_id (v_row w) = d_table_id (v_row v) -> visible t w = true -> among (dead_data db) (d_id (v_row v)) = false).
  { intros v w Hv Hvv Hw Hid Hwv. apply (file_kept db t (d_table_id (v_row v))); try done. by exists w. }
  assert (Hv' : forall v, v ∈ t_data_files db -> among (dead_data db) (d_id (v_row v)) = false -> v ∈ t_data_files db').
  { intros v Hv Ha. rewrite (sw_data_files _ _ Hs). by apply elem_of_delete_where. }
  destruct Hr as [v w Hv Hvv Hw Hid Hwv|x v w Hx Hxv Hv Hvx Hvt Hvv Hw Hid Hwv].
  - eapply (read_data t db' v w); [apply Hv'; [done|by eapply Hdata]|done|by apply Htab|done|done].
  - assert (Ha : among (dead_data db) (d_id (v_row v)) = false) by (eapply (Hdata v w); [done..|congruence|done]).
    eapply (read_delete t db' x v w); [|done|by apply Hv'|done|done|done|by apply Htab|done|done].
    rewrite (sw_delete_files _ _ Hs). apply elem_of_delete_where. split; [|done].
    apply not_among. intros (x' & Hid' & [Hdd Hx']%elem_of_select)%list_elem_of_fmap.
    assert (x' = x) as -> by (eapply (distinct_rows (fun v => x_id (v_row v))); done).
    rewrite <- Hvx, Ha, (kept_not_dead db t Hkept) in Hdd by done.
    rewrite <- Hid, (seen_table_kept db t Hkept w Hw Hwv) in Hdd. done.
Qed.

Lemma swept_names_same db db' t f k :
  swept db db' -> tidy db -> (exists row, row ∈ t_snapshots db /\ s_id row = t) -> read_at t db f ->
  names_object db f k -> names_object db' f k.
Proof.
  intros Hs [_ _ Hi _] Hkept Hr (p & Hl & Hk). exists p. split; [|by apply (swept_keyed db db')].
  apply (located_after db db'); [done..| |done].
  destruct Hr as [v w Hv Hvv Hw Hid Hwv|x v w Hx Hxv Hv Hvx Hvt Hvv Hw Hid Hwv]; cbn; rewrite <- Hid; by apply (seen_table_kept db t).
Qed.

(** The maintenance calls of the DuckDB writer, on the catalog and the object store. *)
Inductive upkeep : Db * Store -> Db * Store -> Prop :=
| upkeep_expire criteria db st : upkeep (db, st) ((run (expire_snapshots criteria) db).2, st)
| upkeep_cleanup criteria dry_run db st :
    upkeep (db, st) ((cleanup_old_files_duckdb criteria dry_run db st).1.2, (cleanup_old_files_duckdb criteria dry_run db st).2)
| upkeep_orphans criteria dry_run db st : upkeep (db, st) (db, (delete_orphaned_files_duckdb criteria dry_run db st).2).

Lemma run_failed {A} (m : Tx (Ending A)) db : (exists a, (run m db).1 = Returns (Ok a)) \/ (run m db).2 = db.
Proof. unfold run. destruct (m db) as [[[[a|a] d]|e]|]; cbn; [left; by eexists|by right..]. Qed.

Definition kept_through (t : Z) (f : RegisteredFile) (k : str) (before after : Db * Store) : Prop :=
  read_at t before.1 f -> names_object before.1 f k -> has_object before.2 k ->
  read_at t after.1 f /\ names_object after.1 f k /\ has_object after.2 k.

Lemma read_registered t db f : read_at t db f -> registered db f.
Proof. by destruct 1. Qed.

Lemma upkeep_step before after t f k :
  upkeep before after -> tidy before.1 ->
  tidy after.1
  /\ (forall row, row ∈ t_snapshots after.1 -> row ∈ t_snapshots before.1)
  /\ (t ∈ s_id <$> t_snapshots after.1 -> kept_through t f k before after).
Proof.
  intros Hu Ht. destruct Hu as [criteria db st|criteria dry_run db st|criteria dry_run db st]; cbn in *.
  - destruct (run_failed (expire_snapshots criteria) db) as [(removed & Er)| ->]; [|by split_and!].
    assert (E : run (expire_snapshots criteria) db = (Returns (Ok removed), (run (expire_snapshots criteria) db).2))
      by (by rewrite <- Er, <- surjective_pairing).
    set (db' := (run _ db).2) in *. apply expire_ok in E as [_ [[_ ->]|Hs]]; [by split_and!|].
    assert (Ht1 : tidy (without removed db)) by (destruct Ht; by split).
    pose proof (swept_same _ db' t_snapshots Hs ltac:(done)) as Hsnap. split_and!.
    + by apply (swept_tidy (without removed db)).
    + intros row. rewrite Hsnap. by intros [_ Hrow]%elem_of_delete_where.
    + intros (row & -> & Hrow)%list_elem_of_fmap Hr Hn Ho. cbn in *. rewrite Hsnap in Hrow.
      assert (Hkept : exists row', row' ∈ t_snapshots (without removed db) /\ s_id row' = s_id row) by (by exists row).
      assert (Hr1 : read_at (s_id row) (without removed db) f) by (destruct Hr; by econstructor).
      split_and!; [by apply (swept_read (without removed db))|by eapply (swept_names_same (without removed db))|done].
  - destruct (cleanup_catalog criteria dry_run db st) as [p Hp]. rewrite Hp. split_and!.
    + destruct Ht as [Hf Hd Hi [Ho1 Ho2]]. split; [done..|]. split; [exact Ho1|].
      intros f' k' row Hf' Hn [_ Hrow]%elem_of_delete_where. by apply (Ho2 f' k' row).
    + done.
    + intros _ Hr Hn Ho. cbn in *. split_and!; [destruct Hr; by econstructor|exact Hn|].
      apply cleanup_spares; [|done]. intros row Hrow. apply (proj2 (ty_objects _ Ht) f k row); [by eapply read_registered|done..].
  - split_and!; [done..|]. intros _ Hr Hn Ho. cbn in *. split_and!; [done..|]. pose proof Hn as (p & Hl & Hk).
    apply (orphans_spare criteria dry_run db st p k); [|done..]. apply referenced_paths. apply read_registered in Hr.
    destruct f as [v|v]; [left; by exists v|right; left; by exists v].
Qed.

Lemma upkeep_history before after t f k :
  rtc upkeep before after -> tidy before.1 ->
  (forall row, row ∈ t_snapshots after.1 -> row ∈ t_snapshots before.1)
  /\ (t ∈ s_id <$> t_snapshots after.1 -> kept_through t f k before after).
Proof.
  intros Hu. induction Hu as [s|before mid after Hstep _ IH]; intros Ht; [by split_and!|].
  destruct (upkeep_step before mid t f k Hstep Ht) as (Htm & Hsm & Hkm). destruct (IH Htm) as [Hsa Hka].
  split; [auto|]. intros Hin Hr Hn Ho.
  assert (Hmid : t ∈ s_id <$> t_snapshots mid.1).
  { apply list_elem_of_fmap in Hin as (row & -> & Hrow). by apply list_elem_of_fmap_2, Hsa. }
  destruct (Hkm Hmid Hr Hn Ho) as (Hr' & Hn' & Ho'). by apply Hka.
Qed.

(** C3. Maintenance deletes no file a kept snapshot reads: after any sequence of
    [expire_snapshots], [cleanup_old_files] and [delete_orphaned_files] calls, successful or
    failed half-way, every data file and delete file that a snapshot still in the catalog
    reads is still registered, still resolves to the same object, and the object is still in
    the store. The catalog starts with distinct file ids and with each file its own object,
    none scheduled for deletion. *)
Theorem maintenance_keeps_read_files db st db' st' t f k :
  rtc upkeep (db, st) (db', st') -> tidy db ->
  t ∈ s_id <$> t_snapshots db' ->
  read_at t db f -> names_object db f k -> has_object st k ->
  read_at t db' f /\ names_object db' f k /\ has_object st' k.
Proof. intros Hu Ht Hin. by apply (proj2 (upkeep_history (db, st) (db', st') t f k Hu Ht)). Qed.
End upkeep.

(** ** Deciding the starting condition *)

Section decide.
Context `{InlineValues} `{SortParser} `{UrlLibrary} `{ObjectPaths}.

Definition key_list (db : Db) (p : str * bool) : list str :=
  match (let! data_path := Returns (get_data_path db) in
         let! (_, base) := parse_url data_path in
         let! abs := resolve_path base p.1 p.2 in Returns (Ok (canonical_key abs))) with
  | Returns (Ok k) => [k]
  | _ => []
  end.
Definition object_keys (db : Db) (f : RegisteredFile) : list str :=
  row ← scheduled_rows [file_entry f] db; key_list db (sd_path row, sd_path_is_relative row).
Definition registered_files (db : Db) : list RegisteredFile := (DataFile <$> t_data_files db) ++ (DeleteFile <$> t_delete_files db).
Definition check_objects (db : Db) : bool :=
  forallb (fun f =>
    forallb (fun f' => bool_decide (file_id f = file_id f')
                       || negb (existsb (fun k => bool_decide (k ∈ object_keys db f')) (object_keys db f))) (registered_files db)
    && forallb (fun row => negb (existsb (fun k => bool_decide (k ∈ key_list db (sd_path row, sd_path_is_relative row)))
                                   (object_keys db f))) (t_scheduled db)) (registered_files db).

Lemma keyed_in_list db p k : keyed db p k <-> k ∈ key_list db p.
Proof.
  unfold key_list. split.
  - intros (data_path & url & base & abs & Ed & Eu & Ea & <-). rewrite Ed. cbn. rewrite Eu. cbn. rewrite Ea. by left.
  - unfold keyed. destruct (get_data_path db) as [data_path|]; cbn; [|by intros ?%elem_of_nil].
    destruct (parse_url data_path) as [[[url base]|]|] eqn:Eu; cbn; [|by intros ?%elem_of_nil..].
    destruct (resolve_path base p.1 p.2) as [[abs|]|] eqn:Ea; cbn; [|by intros ?%elem_of_nil..].
    intros ->%list_elem_of_singleton. by exists data_path, url, base, abs.
Qed.

Lemma object_in_list db f k : names_object db f k <-> k ∈ object_keys db f.
Proof.
  split.
  2: { intros (row & Hk%keyed_in_list & Hrow)%list_elem_of_bind. exists (sd_path row, sd_path_is_relative row). split; [|done].
       apply (list_elem_of_fmap_2 (fun row => (sd_path row, sd_path_is_relative row))), scheduled_located in Hrow
         as (entry & ->%list_elem_of_singleton & Hl). done. }
  intros (p & Hl & Hk). assert (Hp : p ∈ (fun row => (sd_path row, sd_path_is_relative row)) <$> scheduled_rows [file_entry f] db).
  { apply scheduled_located. eexists. split; [by left|done]. }
  apply list_elem_of_fmap in Hp as (row & -> & Hrow). apply list_elem_of_bind. exists row. split; [by apply keyed_in_list|done].
Qed.

Lemma registered_in_list db f : registered db f -> f ∈ registered_files db.
Proof. intros Hf. apply elem_of_app. destruct f as [v|v]; [left|right]; by apply list_elem_of_fmap_2. Qed.

Lemma check_objects_own db : check_objects db = true -> own_objects db.
Proof.
  intros Hc. unfold check_objects in Hc. rewrite forallb_forall in Hc.
  assert (Hf : forall f, registered db f -> _) by (intros f Hf; exact (Hc f (proj1 (list_elem_of_In _ _) (registered_in_list db f Hf)))).
  clear Hc. split.
  - intros f f' k Hr Hr' Hn Hn'. specialize (Hf f Hr) as [Hp _]%andb_true_iff. rewrite forallb_forall in Hp.
    specialize (Hp f' (proj1 (list_elem_of_In _ _) (registered_in_list db f' Hr'))). apply orb_true_iff in Hp as [Hp|Hp].
    + by apply bool_decide_eq_true in Hp.
    + apply negb_true_iff, existsb_false_iff in Hp. rewrite Forall_forall in Hp. specialize (Hp k (proj1 (object_in_list _ _ _) Hn)).
      apply bool_decide_eq_false in Hp. by destruct Hp; apply object_in_list.
  - intros f k row Hr Hn Hrow Hk. specialize (Hf f Hr) as [_ Hp]%andb_true_iff. rewrite forallb_forall in Hp.
    specialize (Hp row (proj1 (list_elem_of_In _ _) Hrow)). apply negb_true_iff, existsb_false_iff in Hp.
    rewrite Forall_forall in Hp. specialize (Hp k (proj1 (object_in_list _ _ _) Hn)). apply bool_decide_eq_false in Hp.
    by destruct Hp; apply keyed_in_list.
Qed.
End decide.

(** ** Sample maintenance *)

#[local] Existing Instance counted_batches.
#[local] Existing Instance sample_values.
#[local] Existing Instance sample_parser.
#[local] Strategy expand [sample_setup append_file sample_catalog truncated_catalog later_catalog].

(** Local paths only, keys without empty parts, and a store that maps keys to times. *)
#[local] Instance local_urls : UrlLibrary := {|
  Url := unit; url_parse := fun _ => Ok tt; host_str := fun _ => None; before_path := fun _ => []; url_path := fun _ => [];
  ObjectStoreUrl := unit; object_store_url_parse := fun _ => Ok tt; percent_decode_utf8 := Ok; path_absolute := Ok;
  url_compare := fun _ _ => Eq |}.
Definition part_prefix (p q : str) : bool := str_eqb p q || starts_with (q ++ "/") p.
#[local] Instance plain_paths : ObjectPaths := {| object_path := fun s => join "/" (List.filter (fun part => negb (is_empty part)) (split_on (char_eqb slash) s)); prefix_matches := part_prefix |}.
#[local] Instance map_store : ObjectStore := {|
  Store := gmap str Z;
  store_list := fun prefix st =>
    Ok (List.filter (fun meta => part_prefix (om_location meta) prefix)
      ((fun e => {| om_location := e.1; om_last_modified := e.2 |}) <$> map_to_list st));
  store_delete := fun key st => (if st !! key then Deleted else NotFound, delete key st);
  has_object := fun st key => is_Some (st !! key) |}.
#[local] Instance map_store_lawful : LawfulStore.
Proof. split. intros key other st Hne. cbn. by rewrite lookup_delete_ne. Qed.


Definition placed_catalog : Db := (run (set_data_path "/data") later_catalog).2.
#[local] Strategy expand [placed_catalog].

Lemma placed_tidy : tidy placed_catalog.
Proof.
  split.
  - apply (bool_decide_unpack _). vm_compute. exact I.
  - apply (bool_decide_unpack _). vm_compute. exact I.
  - apply live_schemas_within. vm_compute. reflexivity.
  - apply check_objects_own. vm_compute. reflexivity.
Qed.

(** The files of the catalog and one it does not know. *)
Definition sample_store : Store :=
  list_to_map ((fun name => ("data/main/events/" ++ name : str, 0))
    <$> [lit "a.parquet"; lit "a-delete.parquet"; lit "b.parquet"; lit "c.parquet"; lit "stray.parquet"]).

(** Expiry, cleanup and the orphan sweep, one after the other. *)
Definition expired : Db := (run (expire_snapshots (Versions [1; 2; 3])) placed_catalog).2.
Definition cleaned_catalog : Db := (cleanup_old_files_duckdb CleanupAll false expired sample_store).1.2.
Definition cleaned_store : Store := (cleanup_old_files_duckdb CleanupAll false expired sample_store).2.
Definition swept_store : Store := (delete_orphaned_files_duckdb CleanupAll false cleaned_catalog cleaned_store).2.
#[local] Strategy expand [expired cleaned_catalog cleaned_store swept_store].

Lemma sample_upkeep : rtc upkeep (placed_catalog, sample_store) (cleaned_catalog, swept_store).
Proof.
  apply (rtc_l _ _ (expired, sample_store)); [exact (upkeep_expire (Versions [1; 2; 3]) placed_catalog sample_store)|].
  apply (rtc_l _ _ (cleaned_catalog, cleaned_store)); [exact (upkeep_cleanup CleanupAll false expired sample_store)|].
  apply rtc_once. exact (upkeep_orphans CleanupAll false cleaned_catalog cleaned_store).
Qed.

(** The file of the last snapshot. *)
Definition last_file : versioned DataFileRow := born 5 {|
  d_id := 3; d_table_id := 1; d_path := "c.parquet"; d_path_is_relative := true; d_record_count := 3;
  d_file_size_bytes := 100; d_footer_size := Some 10; d_row_id_start := Some 6; d_partition_id := None; d_partial_max := None |}.
Lemma last_file_found : t_data_files placed_catalog !! 2%nat = Some last_file.
Proof. vm_compute. reflexivity. Qed.

Lemma last_file_read : read_at 5 placed_catalog (DataFile last_file).
Proof.
  assert (Hw : exists w, t_tables placed_catalog !! 0%nat = Some w /\ tb_id (v_row w) = 1 /\ visible 5 w = true)
    by (vm_compute; eexists; split; [reflexivity|done]).
  destruct Hw as (w & Hw & Hid & Hv). apply (read_data 5 placed_catalog last_file w); [|done| |done|done].
  - apply list_elem_of_lookup. exists 2%nat. exact last_file_found.
  - apply list_elem_of_lookup. by exists 0%nat.
Qed.

Lemma maintenance_keeps_read_files_witness :
  read_at 5 cleaned_catalog (DataFile last_file) /\ has_object swept_store "data/main/events/c.parquet"
  /\ size swept_store = 1%nat /\ size sample_store = 5%nat.
Proof.
  destruct (maintenance_keeps_read_files placed_catalog sample_store cleaned_catalog swept_store 5 (DataFile last_file)
    "data/main/events/c.parquet" sample_upkeep placed_tidy) as (Hr & _ & Ho).
  - apply (bool_decide_unpack _). vm_compute. exact I.
  - exact last_file_read.
  - apply object_in_list. apply (bool_decide_unpack _). vm_compute. exact I.
  - vm_compute. by eexists.
  - split; [exact Hr|]. split; [exact Ho|]. split; vm_compute; reflexivity.
Defined.
