(* ===== verification/SharedCleanup.v ===== *)
(** * Cleaning up a store several catalogs share

    The Postgres layout keeps several catalogs in one metadata database, and one object store
    may hold the files of all of them. [maintenance.rs] deletes the scheduled files of one
    catalog ([cleanup_old_files_in_catalog]) and the orphans below every registered data path
    ([delete_orphaned_files_multicatalog]); the queries are those of [multicatalog.rs] on a
    writable store of the current layout. No file another catalog may read is deleted. *)

From S2P Require Import Prelude RustStd Arrow StatsOrder StatsRollup WriterTypes DuckdbCast ChangeLedger Conflicts PathResolver Partition RowIds WriterChecks Types ColumnTrees SortSpec InlinedTypes CatalogDb CatalogSnapshots CatalogTables CatalogCommits CatalogAdmin CatalogReads CatalogHistory CatalogInit CatalogIds CatalogViews CatalogTimeTravel CatalogExpiry FileCleanup.

(** ** The shared store *)

(** [ducklake_catalog], [ducklake_catalog_schema_map], the reference tables,
    [ducklake_files_scheduled_for_deletion] and [ducklake_dropped_data_path] of the Postgres
    layout, beside the tables the layouts have in common. *)
Record CatalogRow := { cg_id : Z; cg_name : str; cg_data_path : option str }.
Record SharedScheduled := {
  ss_catalog_id : Z;
  ss_file_id : Z;
  ss_path : str;
  ss_path_is_relative : bool;
  ss_schedule_start : Z;
  ss_scheduled_by_owner : option bool;
}.

(** [DataPathGroup]. *)
Record DataPathGroup `{UrlLibrary} := {
  g_object_store_url : ObjectStoreUrl;
  g_object_path : str;
  g_data_paths : list str;
}.

Section shared.
Context `{InlineValues} `{SortParser} `{UrlLibrary} `{ObjectPaths} `{ObjectStore} (debug_str : str -> str).

Record SharedDb := {
  sh_db : Db;
  sh_catalogs : list CatalogRow;
  sh_schema_map : list (Z * Z);
  sh_data_references : list Z;
  sh_delete_references : list Z;
  sh_scheduled : list SharedScheduled;
  sh_dropped : list (str * Z);
}.

Definition with_scheduled (rows : list SharedScheduled) (db : SharedDb) : SharedDb :=
  {| sh_db := sh_db db; sh_catalogs := sh_catalogs db; sh_schema_map := sh_schema_map db;
     sh_data_references := sh_data_references db; sh_delete_references := sh_delete_references db;
     sh_scheduled := rows; sh_dropped := sh_dropped db |}.
Definition with_dropped (rows : list (str * Z)) (db : SharedDb) : SharedDb :=
  {| sh_db := sh_db db; sh_catalogs := sh_catalogs db; sh_schema_map := sh_schema_map db;
     sh_data_references := sh_data_references db; sh_delete_references := sh_delete_references db;
     sh_scheduled := sh_scheduled db; sh_dropped := rows |}.

(** ** Queries of [MulticatalogManager] *)

(** [find_catalog_id] and [get_data_path_in_catalog]. *)
Definition named (name : str) (row : CatalogRow) : bool := str_eqb (cg_name row) name.
Definition find_catalog_id (name : str) (db : SharedDb) : option Z := cg_id <$> head (select (named name) (sh_catalogs db)).
Definition get_data_path_in_catalog (name : str) (db : SharedDb) : result str :=
  ok_or (head (select (named name) (sh_catalogs db)) ≫= cg_data_path)
    (InvalidConfig ("Missing required catalog metadata: 'data_path' not configured for catalog " ++ debug_str name ++ ".")).

(** [list_data_paths]: a [UNION] has no duplicates; the order is the database's. *)
Definition list_data_paths (collated : list str -> list str) (db : SharedDb) : list str :=
  collated (remove_dups (
    (m_value <$> select (is_counter "data_path") (t_metadata (sh_db db)))
    ++ omap cg_data_path (sh_catalogs db) ++ (fst <$> sh_dropped db))).

(** [list_catalog_data_paths]. *)
Definition list_catalog_data_paths (db : SharedDb) : list (Z * str) :=
  omap (fun row => (fun path => (cg_id row, path)) <$> cg_data_path row) (sh_catalogs db).

(** [all_reference_paths] ([reference_paths_sql]), on a store without the columns of
    release 0.8. *)
Definition all_reference_paths (db : SharedDb) : list str :=
  remove_dups (
    (v ← t_data_files (sh_db db); _ ← select (Z.eqb (d_id (v_row v))) (sh_data_references db); [d_path (v_row v)])
    ++ (v ← t_delete_files (sh_db db); _ ← select (Z.eqb (x_id (v_row v))) (sh_delete_references db); [x_path (v_row v)])).

(** [PG_RESOLVED_PATH] and [PG_REL_FLAG], with the joins of a file to its table, schema and
    catalogs. *)
Definition pg_resolved_path (path : str) (relative : bool) (t : TableRow) (s : SchemaRow) : str :=
  if negb relative then path
  else if negb (tb_path_is_relative t) then tb_path t ++ "/" ++ path
  else sch_path s ++ "/" ++ tb_path t ++ "/" ++ path.
Definition catalog_files (in_catalog : Z -> bool) (entries : list (Z * Z * str * bool)) (db : SharedDb) : list (str * bool) :=
  '(_, table_id, path, relative) ← entries;
  t ← select (of_table tb_id table_id) (t_tables (sh_db db));
  s ← select (of_table sch_id (tb_schema_id (v_row t))) (t_schemas (sh_db db));
  _ ← select (fun m => in_catalog m.1 && (m.2 =? sch_id (v_row s))) (sh_schema_map db);
  [(pg_resolved_path path relative (v_row t) (v_row s), rel_flag relative (v_row t) (v_row s))].

(** [list_referenced_paths_in_data_paths]. *)
Definition root_catalog (data_paths : list str) (db : SharedDb) (id : Z) : bool :=
  existsb (fun row => (cg_id row =? id)
                      && match cg_data_path row with Some p => bool_decide (p ∈ data_paths) | None => false end) (sh_catalogs db).
Definition list_referenced_paths_in_data_paths (data_paths : list str) (db : SharedDb) : list (str * bool) :=
  let in_catalog := root_catalog data_paths db in
  catalog_files in_catalog (data_file_entry <$> t_data_files (sh_db db)) db
  ++ catalog_files in_catalog (delete_file_entry <$> t_delete_files (sh_db db)) db
  ++ ((fun row => (ss_path row, ss_path_is_relative row)) <$> select (fun row => in_catalog (ss_catalog_id row)) (sh_scheduled db))
  ++ ((fun path => (path, false)) <$> all_reference_paths db).

(** [list_scheduled_for_deletion_in_catalog], [remove_scheduled_paths_in_catalog],
    [defer_scheduled_in_catalog] and [clear_dropped_data_paths]. *)
Definition list_scheduled_for_deletion_in_catalog (name : str) (criteria : CleanupCriteria) (db : SharedDb)
  : list ScheduledFile :=
  match find_catalog_id name db with
  | None => []
  | Some id =>
      (fun row => {| scf_data_file_id := ss_file_id row; scf_path := ss_path row;
                     scf_path_is_relative := ss_path_is_relative row;
                     scf_scheduled_by_owner := ss_scheduled_by_owner row |})
      <$> select (fun row => (ss_catalog_id row =? id)
          && match criteria with CleanupAll => true | CleanupOlderThan cutoff => ss_schedule_start row <? cutoff end)
          (sh_scheduled db)
  end.
Definition of_catalog_path (id : Z) (paths : list str) (row : SharedScheduled) : bool :=
  (ss_catalog_id row =? id) && bool_decide (ss_path row ∈ paths).
Definition remove_scheduled_paths_in_catalog (name : str) (paths : list str) (db : SharedDb) : SharedDb :=
  match find_catalog_id name db with
  | Some id => with_scheduled (delete_where (of_catalog_path id paths) (sh_scheduled db)) db
  | None => db
  end.
Definition defer_scheduled_in_catalog (now : Z) (name : str) (paths : list str) (db : SharedDb) : SharedDb :=
  match find_catalog_id name db with
  | Some id => with_scheduled (update (of_catalog_path id paths) (fun row =>
      {| ss_catalog_id := ss_catalog_id row; ss_file_id := ss_file_id row; ss_path := ss_path row;
         ss_path_is_relative := ss_path_is_relative row; ss_schedule_start := now;
         ss_scheduled_by_owner := ss_scheduled_by_owner row |}) (sh_scheduled db)) db
  | None => db
  end.
Definition clear_dropped_data_paths (data_paths : list str) (dropped_before : Z) (db : SharedDb) : SharedDb :=
  with_dropped (delete_where (fun row => bool_decide (row.1 ∈ data_paths) && (row.2 <=? dropped_before)) (sh_dropped db)) db.
End shared.

Section shared_cleanup.
Context `{InlineValues} `{SortParser} `{UrlLibrary} `{ObjectPaths} `{ObjectStore} (debug_str : str -> str).

(** ** Files scheduled by one catalog *)

(** Whether a key is a prefix or below it. *)
Definition under (key prefix : str) : bool := str_eqb key prefix || starts_with (prefix ++ "/") key.

(** The verdict on one scheduled file. *)
Inductive Verdict := Kept | Deferred | Refused.
Definition judge (foreign_prefixes : list str) (own_prefix : option str) (referenced : list str) (file : ScheduledFile)
  (key : str) : Verdict :=
  if existsb (under key) foreign_prefixes then Refused
  else if negb (bool_decide (scf_scheduled_by_owner file = Some true)) && negb (scf_path_is_relative file)
          && match own_prefix with Some prefix => negb (under key prefix) | None => false end
  then Refused
  else if bool_decide (key ∈ referenced) then Deferred
  else Kept.

Definition layout_prefix (base_key : str) (id : Z) : outcome str :=
  let! path := join_paths base_key ("cat_" ++ show_Z id) in Returns (Ok (canonical_key path)).

(** [retain_unreferenced]: the files to delete, and the store with the deferred ones pushed back. *)
Definition retain_unreferenced (now : Z) (catalog_name data_path : str) (files : list ScheduledFile) (dry_run : bool)
  (db : SharedDb) : outcome (list ScheduledFile * SharedDb) :=
  if is_empty files then Returns (Ok (files, db))
  else
    let! (_, base_key) := parse_url data_path in
    let own_catalog_id := find_catalog_id catalog_name db in
    let! own_prefix := match own_catalog_id with
                       | Some id => let! prefix := layout_prefix base_key id in Returns (Ok (Some prefix))
                       | None => Returns (Ok None)
                       end in
    let! foreign_prefixes := map_outcome (fun row =>
      let! (_, foreign_base) := parse_url row.2 in layout_prefix foreign_base row.1)
      (select (fun row => negb (bool_decide (Some row.1 = own_catalog_id))) (list_catalog_data_paths db)) in
    let! resolved := map_outcome (fun file => resolve_path base_key (scf_path file) (scf_path_is_relative file)) files in
    let referenced := canonical_key <$> all_reference_paths db in
    let judged := (fun p => (p.1, judge foreign_prefixes own_prefix referenced p.1 (canonical_key p.2))) <$> zip files resolved in
    let kept := fst <$> select (fun p => match p.2 with Kept => true | _ => false end) judged in
    let deferred := (fun p => scf_path p.1) <$> select (fun p => match p.2 with Deferred => true | _ => false end) judged in
    Returns (Ok (kept, if dry_run then db else defer_scheduled_in_catalog now catalog_name deferred db)).

(** [cleanup_old_files_in_catalog]. *)
Definition cleanup_old_files_in_catalog (now : Z) (catalog_name : str) (criteria : CleanupCriteria) (dry_run : bool)
  (db : SharedDb) (st : Store) : outcome (list str) * SharedDb * Store :=
  match (let! data_path := Returns (get_data_path_in_catalog debug_str catalog_name db) in
         let! (files, db) := retain_unreferenced now catalog_name data_path
           (list_scheduled_for_deletion_in_catalog catalog_name criteria db) dry_run db in
         Returns (Ok (data_path, files, db))) with
  | Returns (Ok (data_path, files, db)) =>
      run_cleanup data_path files dry_run (fun files db =>
        (Returns (Ok tt), remove_scheduled_paths_in_catalog catalog_name (scf_path <$> files) db)) db st
  | Returns (Err e) => (Returns (Err e), db, st)
  | Panics => (Panics, db, st)
  end.

(** ** Data paths of one store *)

Definition url_eqb (u v : ObjectStoreUrl) : bool := match url_compare u v with Eq => true | _ => false end.

(** The order of the [BTreeMap] keys. *)
Definition key_compare (url : ObjectStoreUrl) (path : str) (group : DataPathGroup) : comparison :=
  match url_compare url (g_object_store_url group) with Eq => str_cmp path (g_object_path group) | c => c end.

Definition extended (data_paths : list str) (group : DataPathGroup) : DataPathGroup :=
  {| g_object_store_url := g_object_store_url group; g_object_path := g_object_path group;
     g_data_paths := g_data_paths group ++ data_paths |}.

(** [groups.entry(..).or_insert_with(Vec::new).push(data_path)]. *)
Fixpoint insert_group (url : ObjectStoreUrl) (path data_path : str) (groups : list DataPathGroup) : list DataPathGroup :=
  let fresh := {| g_object_store_url := url; g_object_path := path; g_data_paths := [data_path] |} in
  match groups with
  | [] => [fresh]
  | group :: rest =>
      match key_compare url path group with
      | Lt => fresh :: groups
      | Eq => extended [data_path] group :: rest
      | Gt => group :: insert_group url path data_path rest
      end
  end.

(** [group_data_paths]. *)
Fixpoint group_from (groups : list DataPathGroup) (data_paths : list str) : outcome (list DataPathGroup) :=
  match data_paths with
  | [] => Returns (Ok groups)
  | data_path :: rest =>
      let! (url, base_key) := parse_url data_path in
      group_from (insert_group url (canonical_key base_key) data_path groups) rest
  end.
Definition group_data_paths (data_paths : list str) : outcome (list DataPathGroup) := group_from [] data_paths.

(** A group whose path is at or below the path of another one, in the same store. *)
Definition nested (group root : DataPathGroup) : bool :=
  url_eqb (g_object_store_url group) (g_object_store_url root)
  && prefix_matches (g_object_path group) (g_object_path root).

(** [merge_data_path_groups]. *)
Fixpoint absorb (group : DataPathGroup) (roots : list DataPathGroup) : list DataPathGroup :=
  match roots with
  | [] => [group]
  | root :: rest => if nested group root then extended (g_data_paths group) root :: rest else root :: absorb group rest
  end.
Definition merge_data_path_groups (groups : list DataPathGroup) : list DataPathGroup :=
  fold_left (fun roots group => absorb group roots) groups [].

(** [registered_data_path_group]: the group of a data path with the groups below it. *)
Fixpoint take_group (data_path : str) (groups : list DataPathGroup) : option (DataPathGroup * list DataPathGroup) :=
  match groups with
  | [] => None
  | group :: rest =>
      if bool_decide (data_path ∈ g_data_paths group) then Some (group, rest)
      else (fun p => (p.1, group :: p.2)) <$> take_group data_path rest
  end.
Definition registered_data_path_group (collated : list str -> list str) (data_path : str) (db : SharedDb)
  : outcome DataPathGroup :=
  let! groups := group_data_paths (list_data_paths collated db) in
  let! (root, others) := Returns (ok_or (take_group data_path groups)
    (InvalidConfig ("Data path " ++ debug_str data_path ++ " is not registered for multicatalog cleanup"))) in
  Returns (Ok (fold_left (fun root group => if nested group root then extended (g_data_paths group) root else root) others root)).

(** ** Orphans of a group *)

(** The absolute paths the catalogs of a group reference. *)
Fixpoint group_references (data_paths : list str) (db : SharedDb) : outcome (list (str * bool)) :=
  match data_paths with
  | [] => Returns (Ok [])
  | data_path :: rest =>
      let! (_, base_key) := parse_url data_path in
      let! resolved := map_outcome (fun '(path, relative) =>
        let! abs := resolve_path base_key path relative in Returns (Ok (abs, false)))
        (list_referenced_paths_in_data_paths [data_path] db) in
      let! others := group_references rest db in
      Returns (Ok (resolved ++ others))
  end.

(** [delete_orphaned_files_in_data_path_inner], the store's clock being [now]. *)
Definition delete_orphaned_files_in_data_path_inner (now : Z) (group : DataPathGroup) (criteria : CleanupCriteria)
  (dry_run : bool) (db : SharedDb) (st : Store) : outcome (list str) * SharedDb * Store :=
  match (let! referenced := group_references (g_data_paths group) db in
         let! first := or_panic (head (g_data_paths group)) in Returns (Ok (referenced, first))) with
  | Returns (Ok (referenced, first)) =>
      let '(deleted, st') := run_orphan_cleanup first referenced criteria dry_run st in
      let clear_tombstone := negb dry_run && match criteria with CleanupAll => true | _ => false end in
      match deleted with
      | Returns (Ok _) => (deleted, if clear_tombstone then clear_dropped_data_paths (g_data_paths group) now db else db, st')
      | _ => (deleted, db, st')
      end
  | Returns (Err e) => (Returns (Err e), db, st)
  | Panics => (Panics, db, st)
  end.

Fixpoint sweep_groups (now : Z) (groups : list DataPathGroup) (criteria : CleanupCriteria) (dry_run : bool)
  (db : SharedDb) (st : Store) : outcome (list str) * SharedDb * Store :=
  match groups with
  | [] => (Returns (Ok []), db, st)
  | group :: rest =>
      let '(deleted, db', st') := delete_orphaned_files_in_data_path_inner now group criteria dry_run db st in
      match deleted with
      | Returns (Ok paths) =>
          let '(others, db2, st2) := sweep_groups now rest criteria dry_run db' st' in
          ((let! others := others in Returns (Ok (paths ++ others))), db2, st2)
      | _ => (deleted, db', st')
      end
  end.

(** [deleted.sort(); deleted.dedup()]. *)
Fixpoint insert_path (path : str) (paths : list str) : list str :=
  match paths with
  | [] => [path]
  | other :: rest =>
      match str_cmp path other with Lt => path :: paths | Eq => paths | Gt => other :: insert_path path rest end
  end.

(** [delete_orphaned_files_multicatalog]. *)
Definition one_authority (groups : list DataPathGroup) : bool :=
  match groups with
  | [] => true
  | group :: rest => forallb (fun other => url_eqb (g_object_store_url group) (g_object_store_url other)) rest
  end.
Definition delete_orphaned_files_multicatalog (collated : list str -> list str) (now : Z) (criteria : CleanupCriteria)
  (dry_run : bool) (db : SharedDb) (st : Store) : outcome (list str) * SharedDb * Store :=
  match (let! groups := group_data_paths (list_data_paths collated db) in
         let roots := merge_data_path_groups groups in
         if is_empty roots then Returns (Err (InvalidConfig "Missing required catalog metadata: 'data_path' not configured."))
         else if negb (one_authority roots) then
           Returns (Err (InvalidConfig "Multicatalog data paths span multiple object-store authorities; clean each path with delete_orphaned_files_in_data_path"))
         else Returns (Ok roots)) with
  | Returns (Ok roots) =>
      let '(deleted, db', st') := sweep_groups now roots criteria dry_run db st in
      ((let! deleted := deleted in Returns (Ok (foldr insert_path [] deleted))), db', st')
  | Returns (Err e) => (Returns (Err e), db, st)
  | Panics => (Panics, db, st)
  end.

(** [delete_orphaned_files_in_data_path] and [delete_orphaned_files_in_catalog]. *)
Definition delete_orphaned_files_in_data_path (collated : list str -> list str) (now : Z) (data_path : str)
  (criteria : CleanupCriteria) (dry_run : bool) (db : SharedDb) (st : Store) : outcome (list str) * SharedDb * Store :=
  match registered_data_path_group collated data_path db with
  | Returns (Ok group) => delete_orphaned_files_in_data_path_inner now group criteria dry_run db st
  | Returns (Err e) => (Returns (Err e), db, st)
  | Panics => (Panics, db, st)
  end.
Definition delete_orphaned_files_in_catalog (collated : list str -> list str) (now : Z) (catalog_name : str)
  (criteria : CleanupCriteria) (dry_run : bool) (db : SharedDb) (st : Store) : outcome (list str) * SharedDb * Store :=
  match get_data_path_in_catalog debug_str catalog_name db with
  | Ok data_path => delete_orphaned_files_in_data_path collated now data_path criteria dry_run db st
  | Err e => (Returns (Err e), db, st)
  end.
End shared_cleanup.

(** ** What the libraries promise *)

Class LawfulUrls `{UrlLibrary} : Prop := {
  url_compare_eq : forall u v, url_compare u v = Eq <-> u = v;
  url_compare_flip : forall u v, url_compare v u = CompOpp (url_compare u v);
  url_compare_trans : forall u v w, url_compare u v = Lt -> url_compare v w = Lt -> url_compare u w = Lt;
}.

(** [prefix_matches] compares whole parts from the start: it is a preorder, two leading parts
    of one path are comparable, and a leading part sorts first. *)
Class LawfulPaths `{ObjectPaths} : Prop := {
  prefix_refl : forall p, prefix_matches p p = true;
  prefix_trans : forall p q r, prefix_matches p q = true -> prefix_matches q r = true -> prefix_matches p r = true;
  prefix_comparable : forall p q r, prefix_matches p q = true -> prefix_matches p r = true ->
    prefix_matches q r = true \/ prefix_matches r q = true;
  prefix_first : forall p q, prefix_matches p q = true -> str_cmp q p <> Gt;
}.

(** A listing of a prefix has only objects below it. *)
Class LawfulListing `{ObjectPaths} `{ObjectStore} : Prop := {
  listed_below : forall prefix st entries meta,
    store_list prefix st = Ok entries -> meta ∈ entries -> prefix_matches (om_location meta) prefix = true;
}.

Section groups.
Context `{InlineValues} `{SortParser} `{LawfulUrls} `{LawfulPaths}.

(** ** Groups are sorted by store and path *)

Definition group_key (g : DataPathGroup) : ObjectStoreUrl * str := (g_object_store_url g, g_object_path g).
Definition keys_compare (a b : ObjectStoreUrl * str) : comparison :=
  match url_compare a.1 b.1 with Eq => str_cmp a.2 b.2 | c => c end.

Lemma keys_compare_flip a b : keys_compare b a = CompOpp (keys_compare a b).
Proof.
  unfold keys_compare. rewrite (url_compare_flip a.1 b.1). destruct (url_compare a.1 b.1); cbn; [apply str_cmp_flip|done..].
Qed.

Lemma str_cmp_lt_trans a b c : str_cmp a b = Lt -> str_cmp b c = Lt -> str_cmp a c = Lt.
Proof.
  intros Hab Hbc. assert (Hac : str_cmp a c <> Gt) by (eapply str_cmp_trans; [by rewrite Hab|by rewrite Hbc]).
  destruct (str_cmp a c) eqn:E; [|done..]. apply str_cmp_eq in E as ->. rewrite str_cmp_flip, Hbc in Hab. done.
Qed.

Lemma keys_compare_trans a b c : keys_compare a b = Lt -> keys_compare b c = Lt -> keys_compare a c = Lt.
Proof.
  unfold keys_compare. destruct (url_compare a.1 b.1) eqn:Eab; try done.
  - apply url_compare_eq in Eab as ->. destruct (url_compare b.1 c.1); try done. apply str_cmp_lt_trans.
  - destruct (url_compare b.1 c.1) eqn:Ebc; try done.
    + apply url_compare_eq in Ebc as <-. by rewrite Eab.
    + by rewrite (url_compare_trans _ _ _ Eab Ebc).
Qed.

(** A grouping: sorted, its data paths parse to the group they are in, and none is empty. *)
Definition before (g h : DataPathGroup) : Prop := keys_compare (group_key g) (group_key h) = Lt.
Definition parses_to (data_path : str) (key : ObjectStoreUrl * str) : Prop :=
  exists base, parse_url data_path = Returns (Ok (key.1, base)) /\ canonical_key base = key.2.
Definition group_ok (g : DataPathGroup) : Prop :=
  g_data_paths g <> [] /\ forall p, p ∈ g_data_paths g -> parses_to p (group_key g).

Lemma inserted_keys url path data_path gs h :
  h ∈ insert_group url path data_path gs -> group_key h = (url, path) \/ exists g, g ∈ gs /\ group_key h = group_key g.
Proof.
  induction gs as [|g gs IH]; cbn; [by intros ->%list_elem_of_singleton; left|]. destruct (key_compare url path g).
  - intros [->|Hh]%elem_of_cons; right; [exists g; split; [left|done]|exists h; split; [by right|done]].
  - intros [->|Hh]%elem_of_cons; [by left|]. right. by exists h.
  - intros [->|Hh]%elem_of_cons; [right; exists g; split; [left|done]|].
    destruct (IH Hh) as [?|(g' & Hg & ?)]; [by left|]. right. exists g'. split; [by right|done].
Qed.

Lemma insert_sorted url path data_path gs :
  StronglySorted before gs -> StronglySorted before (insert_group url path data_path gs).
Proof.
  induction gs as [|g gs IH]; intros Hs; cbn; [repeat constructor|].
  apply StronglySorted_inv in Hs as [Hs Hf]. rewrite Forall_forall in Hf.
  change (key_compare url path g) with (keys_compare (url, path) (group_key g)).
  destruct (keys_compare (url, path) (group_key g)) eqn:E; constructor; try done.
  - apply Forall_forall. exact Hf.
  - by constructor; [|apply Forall_forall].
  - constructor; [exact E|]. apply Forall_forall. intros h Hh. exact (keys_compare_trans _ _ _ E (Hf h Hh)).
  - by apply IH.
  - apply Forall_forall. intros h [Hk|(g' & Hg & Hk)]%inserted_keys; unfold before; rewrite Hk; [|by apply Hf].
    by rewrite keys_compare_flip, E.
Qed.

Lemma insert_ok url base data_path gs :
  parse_url data_path = Returns (Ok (url, base)) -> Forall group_ok gs ->
  Forall group_ok (insert_group url (canonical_key base) data_path gs).
Proof.
  intros Hp Hok. induction Hok as [|g gs [Hne Hg] Hok IH]; cbn.
  - constructor; [|constructor]. split; [done|]. intros p ->%list_elem_of_singleton. by exists base.
  - change (key_compare url (canonical_key base) g) with (keys_compare (url, canonical_key base) (group_key g)).
    destruct (keys_compare (url, canonical_key base) (group_key g)) eqn:E; constructor; try done.
    + split; [cbn; by destruct (g_data_paths g)|]. intros p [Hin| ->%list_elem_of_singleton]%elem_of_app; [by apply Hg|].
      unfold keys_compare in E. cbn in E. destruct (url_compare url (g_object_store_url g)) eqn:Eu; try done.
      apply url_compare_eq in Eu as ->. apply str_cmp_eq in E. by exists base.
    + split; [done|]. intros p ->%list_elem_of_singleton. by exists base.
    + by constructor.
Qed.

Lemma insert_keeps url path data_path gs p :
  (exists g, g ∈ insert_group url path data_path gs /\ p ∈ g_data_paths g)
  <-> p = data_path \/ exists g, g ∈ gs /\ p ∈ g_data_paths g.
Proof.
  induction gs as [|g gs IH]; cbn.
  - split; [intros (g & ->%list_elem_of_singleton & Hp%list_elem_of_singleton); by left|].
    intros [->|(g & Hg%elem_of_nil & _)]; [|done]. eexists. split; [by left|by left].
  - destruct (key_compare url path g).
    + split.
      * intros (h & [->|Hh]%elem_of_cons & Hp); [|right; exists h; split; [by right|done]].
        apply elem_of_app in Hp as [Hp|Hp%list_elem_of_singleton]; [|by left]. right. exists g. split; [left|done].
      * intros [->|(h & [->|Hh]%elem_of_cons & Hp)].
        -- eexists. split; [left|]. cbn. apply elem_of_app. right. by left.
        -- eexists. split; [left|]. cbn. apply elem_of_app. by left.
        -- exists h. split; [by right|done].
    + split.
      * intros (h & [->|Hh]%elem_of_cons & Hp); [left; by apply list_elem_of_singleton in Hp|right; by exists h].
      * intros [->|(h & Hh & Hp)]; [eexists; split; [left|by left]|exists h; split; [by right|done]].
    + setoid_rewrite elem_of_cons. destruct IH as [IH1 IH2]. split.
      * intros (h & [->|Hh] & Hp); [right; by exists g; auto|]. destruct (IH1 (ex_intro _ h (conj Hh Hp))) as [?|(h' & ? & ?)]; [by left|right; by exists h'; auto].
      * intros [->|(h & [->|Hh] & Hp)]; [destruct (IH2 (or_introl eq_refl)) as (h & ? & ?); by exists h; auto|by exists g; auto|].
        destruct (IH2 (or_intror (ex_intro _ h (conj Hh Hp)))) as (h' & ? & ?). by exists h'; auto.
Qed.

Lemma grouped data_paths groups :
  group_data_paths data_paths = Returns (Ok groups) ->
  StronglySorted before groups /\ Forall group_ok groups
  /\ (forall p, p ∈ data_paths -> exists g, g ∈ groups /\ p ∈ g_data_paths g).
Proof.
  unfold group_data_paths. assert (Hs : StronglySorted before []) by constructor. assert (Hok : Forall group_ok []) by constructor.
  revert Hs Hok. generalize (@nil DataPathGroup) as gs. intros gs Hs Hok E.
  cut (StronglySorted before groups /\ Forall group_ok groups /\
       (forall p, p ∈ data_paths \/ (exists g, g ∈ gs /\ p ∈ g_data_paths g) -> exists g, g ∈ groups /\ p ∈ g_data_paths g)).
  { intros (? & ? & Hp). split_and!; [done..|]. intros p ?. apply Hp. by left. }
  revert gs Hs Hok E. induction data_paths as [|d data_paths IH]; intros gs Hs Hok E; cbn in E.
  - injection E as <-. split_and!; [done..|]. intros p [?%elem_of_nil|?]; done.
  - destruct (parse_url d) as [[[url base]|]|] eqn:Ed; [|done..]. cbn in E.
    destruct (IH _ (insert_sorted _ _ _ _ Hs) (insert_ok _ _ _ _ Ed Hok) E) as (? & ? & Hp). split_and!; [done..|].
    intros p Hin. apply Hp. destruct Hin as [[->|Hin]%elem_of_cons|Hin]; [|by left|]; right; apply insert_keeps; by auto.
Qed.
End groups.

Section merged.
Context `{InlineValues} `{SortParser} `{LawfulUrls} `{LawfulPaths}.

(** ** Merged groups *)

Lemma nested_keys g h g' h' : group_key g = group_key g' -> group_key h = group_key h' -> nested g h = nested g' h'.
Proof. unfold group_key, nested. by intros [= -> ->] [= -> ->]. Qed.

Lemma url_eqb_true u v : url_eqb u v = true <-> u = v.
Proof. unfold url_eqb. rewrite <- url_compare_eq. by destruct (url_compare u v). Qed.

Lemma nested_refl g : nested g g = true.
Proof. unfold nested. rewrite prefix_refl, andb_true_r. by apply url_eqb_true. Qed.

Lemma absorbed g roots :
  (exists i r, roots !! i = Some r /\ nested g r = true /\ absorb g roots = <[i := extended (g_data_paths g) r]> roots)
  \/ (absorb g roots = roots ++ [g] /\ forall r, r ∈ roots -> nested g r = false).
Proof.
  induction roots as [|r roots IH]; cbn; [right; split; [done|]; intros r Hr; by apply elem_of_nil in Hr|].
  destruct (nested g r) eqn:En; [left; by exists 0%nat, r|].
  destruct IH as [(i & r' & Hi & Hn & ->)|[-> Hn]]; [left; by exists (S i), r'|right]. split; [done|].
  by intros r' [->|Hr]%elem_of_cons; auto.
Qed.

Record merged_ok (processed roots : list DataPathGroup) : Prop := {
  mo_apart : forall i j r r', roots !! i = Some r -> roots !! j = Some r' -> nested r r' = true -> i = j;
  mo_covered : forall g, g ∈ processed ->
    exists r, r ∈ roots /\ nested g r = true /\ forall p, p ∈ g_data_paths g -> p ∈ g_data_paths r;
  mo_rooted : forall r, r ∈ roots -> exists g, g ∈ processed /\ group_key r = group_key g /\ head (g_data_paths r) = head (g_data_paths g);
}.

Lemma extended_key data_paths r : group_key (extended data_paths r) = group_key r.
Proof. done. Qed.

Lemma absorb_ok processed roots g :
  Forall group_ok (processed ++ [g]) -> (forall h, h ∈ processed -> before h g) ->
  merged_ok processed roots -> merged_ok (processed ++ [g]) (absorb g roots).
Proof.
  intros Hok Hb [Ha Hc Hr]. destruct (absorbed g roots) as [(i & r & Hi & Hn & ->)|[-> Hn]].
  - assert (Hlen : (i < length roots)%nat) by (by eapply lookup_lt_Some).
    assert (Hkey : forall j s, <[i := extended (g_data_paths g) r]> roots !! j = Some s ->
      exists s', roots !! j = Some s' /\ group_key s = group_key s').
    { intros j s Hj. destruct (decide (j = i)) as [->|Hne].
      - rewrite list_lookup_insert_eq in Hj by done. injection Hj as <-. by exists r.
      - rewrite list_lookup_insert_ne in Hj by done. by exists s. }
    assert (Hold : forall s, s ∈ roots -> s ∈ <[i := extended (g_data_paths g) r]> roots \/ s = r).
    { intros s [j Hj]%list_elem_of_lookup. destruct (decide (j = i)) as [->|Hne]; [right; congruence|left].
      apply list_elem_of_lookup. exists j. by rewrite list_lookup_insert_ne. }
    assert (Hnew : extended (g_data_paths g) r ∈ <[i := extended (g_data_paths g) r]> roots).
    { apply list_elem_of_lookup. exists i. by apply list_lookup_insert_eq. }
    split.
    + intros j k s s' (t & Hj & Hs)%Hkey (t' & Hk & Hs')%Hkey Hnest. rewrite (nested_keys _ _ _ _ Hs Hs') in Hnest. by eapply Ha.
    + intros h [Hh| ->%list_elem_of_singleton]%elem_of_app.
      * destruct (Hc h Hh) as (s & Hs & Hns & Hp). destruct (Hold s Hs) as [Hin| ->]; [by exists s|].
        exists (extended (g_data_paths g) r). split_and!; [done|done|]. intros p Hp'. apply elem_of_app. left. auto.
      * exists (extended (g_data_paths g) r). split_and!; [done|done|]. intros p Hp. apply elem_of_app. by right.
    + intros s [j Hj]%list_elem_of_lookup. destruct (decide (j = i)) as [->|Hne].
      * rewrite list_lookup_insert_eq in Hj by done. injection Hj as <-.
        destruct (Hr r) as (h & Hh & Hk & Hhd); [apply list_elem_of_lookup; by exists i|].
        exists h. split_and!; [apply elem_of_app; by left|by rewrite extended_key|]. cbn. rewrite <- Hhd.
        assert (Hne : g_data_paths h <> []).
        { rewrite Forall_forall in Hok. apply (Hok h), elem_of_app. by left. }
        destruct (g_data_paths r); [|done]. cbn in Hhd. by destruct (g_data_paths h).
      * rewrite list_lookup_insert_ne in Hj by done. destruct (Hr s) as (h & Hh & ?); [apply list_elem_of_lookup; by exists j|].
        exists h. split; [apply elem_of_app; by left|done].
  - split.
    + intros i j s s' Hi Hj Hnest. apply lookup_app_Some in Hi as [Hi|[Hi1 Hi]], Hj as [Hj|[Hj1 Hj]].
      * by eapply Ha.
      * exfalso. apply list_lookup_singleton_Some in Hj as [Hj <-]. destruct (Hr s) as (h & Hh & Hk & _); [by eapply list_elem_of_lookup_2|].
        pose proof (Hb h Hh) as Hlt. unfold before in Hlt. rewrite <- Hk in Hlt. unfold keys_compare in Hlt. cbn in Hlt.
        unfold nested in Hnest. apply andb_true_iff in Hnest as [Hu Hp]. apply url_eqb_true in Hu. rewrite Hu in Hlt.
        rewrite (proj2 (url_compare_eq _ _) eq_refl) in Hlt. apply (prefix_first _ _ Hp). by rewrite str_cmp_flip, Hlt.
      * exfalso. apply list_lookup_singleton_Some in Hi as [Hi <-]. rewrite Hn in Hnest; [done|by eapply list_elem_of_lookup_2].
      * apply list_lookup_singleton_Some in Hi as [Hi _], Hj as [Hj _]. lia.
    + intros h [Hh| ->%list_elem_of_singleton]%elem_of_app.
      * destruct (Hc h Hh) as (s & Hs & ?). exists s. split; [apply elem_of_app; by left|done].
      * exists g. split_and!; [apply elem_of_app; right; by left|apply nested_refl|done].
    + intros s [Hs| ->%list_elem_of_singleton]%elem_of_app.
      * destruct (Hr s Hs) as (h & Hh & ?). exists h. split; [apply elem_of_app; by left|done].
      * exists g. split; [apply elem_of_app; right; by left|done].
Qed.

Lemma merge_ok groups : StronglySorted before groups -> Forall group_ok groups -> merged_ok groups (merge_data_path_groups groups).
Proof.
  intros Hs Hok. unfold merge_data_path_groups.
  cut (forall processed rest roots, processed ++ rest = groups -> merged_ok processed roots ->
       merged_ok groups (fold_left (fun roots group => absorb group roots) rest roots)).
  { intros Hcut. apply (Hcut [] groups []); [done|]. split; [done|..]; intros ? ?%elem_of_nil; done. }
  intros processed rest. revert processed. induction rest as [|g rest IH]; intros processed roots E Hm; cbn.
  - by rewrite app_nil_r in E; subst.
  - apply (IH (processed ++ [g])); [by rewrite <- app_assoc|]. apply absorb_ok; [| |done].
    + rewrite <- E, (cons_middle g processed rest), app_assoc in Hok. by apply Forall_app in Hok as [? _].
    + intros h Hh. subst groups. clear -Hs Hh. induction processed as [|x processed IH]; [by apply elem_of_nil in Hh|].
      cbn in Hs. apply StronglySorted_inv in Hs as [Hs Hf]. apply elem_of_cons in Hh as [->|Hh]; [|auto].
      rewrite Forall_forall in Hf. apply Hf, elem_of_app. right. left.
Qed.
End merged.

Section sweep.
Context `{InlineValues} `{SortParser} `{LawfulUrls} `{LawfulPaths} `{!ObjectStore} `{!LawfulStore} `{!LawfulListing}.
Context (debug_str : str -> str).

(** ** What a sweep spares *)

Lemma resolve_absolute base p abs : resolve_path base p false = Returns (Ok abs) -> abs = p.
Proof. unfold resolve_path, outcome_bind. destruct (validate_path p) as [[]|]; [|done..]. by intros [= <-]. Qed.

Lemma references_resolve data_paths db refs data_path p :
  group_references data_paths db = Returns (Ok refs) -> data_path ∈ data_paths ->
  p ∈ list_referenced_paths_in_data_paths [data_path] db ->
  exists url base abs, parse_url data_path = Returns (Ok (url, base))
    /\ resolve_path base p.1 p.2 = Returns (Ok abs) /\ (abs, false) ∈ refs.
Proof.
  revert refs. induction data_paths as [|d data_paths IH]; intros refs; cbn; [by intros _ ?%elem_of_nil|].
  destruct (parse_url d) as [[[url base]|]|] eqn:Ed; [|done..]. cbn.
  destruct (map_outcome _ _) as [[resolved|]|] eqn:Er; [|done..]. cbn.
  destruct (group_references data_paths db) as [[others|]|]; [|done..]. intros [= <-] [->|Hin]%elem_of_cons Hp.
  - destruct (map_outcome_each _ _ _ p Er Hp) as (b & Hb & Hin). destruct p as [path relative].
    destruct (resolve_path base path relative) as [[abs|]|] eqn:Ea; [|done..]. injection Hb as <-.
    exists url, base, abs. split_and!; [done..|]. apply elem_of_app. by left.
  - destruct (IH others eq_refl Hin Hp) as (url' & base' & abs & ? & ? & ?). exists url', base', abs. split_and!; [done..|].
    apply elem_of_app. by right.
Qed.

Lemma references_undropped data_paths rows db : group_references data_paths (with_dropped rows db) = group_references data_paths db.
Proof. induction data_paths as [|d data_paths IH]; [done|]. cbn [group_references]. by rewrite IH. Qed.

(** A key the group references, or that is not below it. *)
Definition safe_in (group : DataPathGroup) (db : SharedDb) (k : str) : Prop :=
  prefix_matches k (g_object_path group) = false
  \/ exists data_path p, data_path ∈ g_data_paths group /\ p ∈ list_referenced_paths_in_data_paths [data_path] db
     /\ forall url base abs, parse_url data_path = Returns (Ok (url, base)) -> resolve_path base p.1 p.2 = Returns (Ok abs) ->
        canonical_key abs = k.

(** The first data path of a group is its root. *)
Definition headed (group : DataPathGroup) : Prop :=
  exists first, head (g_data_paths group) = Some first /\ parses_to first (group_key group).

Lemma inner_spares now group criteria dry_run db st k :
  headed group -> safe_in group db k ->
  has_object (delete_orphaned_files_in_data_path_inner now group criteria dry_run db st).2 k <-> has_object st k.
Proof.
  intros (first & Hfirst & base0 & Eu0 & Hkey) Hsafe. unfold delete_orphaned_files_in_data_path_inner.
  destruct (group_references _ db) as [[refs|]|] eqn:Er; [|done..]. cbn.
  rewrite Hfirst. cbn.
  cut (has_object (run_orphan_cleanup first refs criteria dry_run st).2 k <-> has_object st k).
  { destruct (run_orphan_cleanup _ _ _ _ _) as [[[deleted|e]|] st']; done. }
  apply orphan_cleanup_spares. intros url base keys entries Eu Ek El.
  destruct Hsafe as [Hout|(data_path & p & Hin & Hp & Hk)].
  - right. intros (meta & -> & Hm)%list_elem_of_fmap. pose proof (listed_below _ _ _ _ El Hm) as Hb.
    rewrite Eu in Eu0. injection Eu0 as _ <-. cbn in Hkey. congruence.
  - left. destruct (references_resolve _ _ _ _ p Er Hin Hp) as (url' & base' & abs & Eu' & Ea & Hr).
    destruct (map_outcome_each _ _ _ _ Ek Hr) as (b & Hb & Hbin). destruct (resolve_path base abs false) as [[abs'|]|] eqn:Eb; [|done..].
    apply resolve_absolute in Eb as ->. injection Hb as <-. by rewrite <- (Hk _ _ _ Eu' Ea).
Qed.

Lemma inner_catalog now group criteria dry_run db st :
  exists rows, (delete_orphaned_files_in_data_path_inner now group criteria dry_run db st).1.2 = with_dropped rows db.
Proof.
  assert (Hd : with_dropped (sh_dropped db) db = db) by (by destruct db).
  unfold delete_orphaned_files_in_data_path_inner. destruct (let! referenced := _ in _) as [[[referenced first]|]|];
    [|by exists (sh_dropped db)..].
  destruct (run_orphan_cleanup _ _ _ _ _) as [[[deleted|e]|] st']; cbn; [|by exists (sh_dropped db)..].
  destruct (negb dry_run && _); [by eexists|by exists (sh_dropped db)].
Qed.

Lemma sweep_spares now groups criteria dry_run db st k :
  (forall group, group ∈ groups -> headed group /\ safe_in group db k) ->
  has_object (sweep_groups now groups criteria dry_run db st).2 k <-> has_object st k.
Proof.
  revert db st. induction groups as [|g groups IH]; intros db st Hg; [done|]. cbn.
  destruct (Hg g) as [Hok Hs]; [left|]. pose proof (inner_spares now g criteria dry_run db st k Hok Hs) as Hi.
  destruct (inner_catalog now g criteria dry_run db st) as [rows Hd].
  destruct (delete_orphaned_files_in_data_path_inner _ _ _ _ _ _) as [[deleted db'] st']. cbn in Hi, Hd. subst db'.
  destruct deleted as [[paths|e]|]; [|done..].
  assert (IH' : has_object (sweep_groups now groups criteria dry_run (with_dropped rows db) st').2 k <-> has_object st' k).
  { apply IH. intros group Hin. exact (Hg group (list_elem_of_further _ _ _ Hin)). }
  destruct (sweep_groups _ _ _ _ _ _) as [[others db2] st2]. cbn in *. by rewrite IH'.
Qed.

Lemma one_authority_all roots r r' :
  one_authority roots = true -> r ∈ roots -> r' ∈ roots -> g_object_store_url r = g_object_store_url r'.
Proof.
  destruct roots as [|g roots]; [by intros _ ?%elem_of_nil|]. cbn. intros Ho. rewrite forallb_forall in Ho.
  assert (Hg : forall s, s ∈ g :: roots -> g_object_store_url g = g_object_store_url s).
  { intros s [->|Hs]%elem_of_cons; [done|]. apply url_eqb_true, Ho. by apply list_elem_of_In. }
  intros Hr Hr'. by rewrite <- (Hg r Hr), <- (Hg r' Hr').
Qed.

(** The root a key is below holds every registered data path the key is below. *)
Lemma root_of data_paths groups root path url base k :
  group_data_paths data_paths = Returns (Ok groups) -> one_authority (merge_data_path_groups groups) = true ->
  root ∈ merge_data_path_groups groups -> path ∈ data_paths -> parse_url path = Returns (Ok (url, base)) ->
  prefix_matches k (canonical_key base) = true -> prefix_matches k (g_object_path root) = true ->
  path ∈ g_data_paths root.
Proof.
  intros (Hs & Hok & Hall)%grouped Ho Hroot Hpath Eu Hk Hkr. destruct (merge_ok groups Hs Hok) as [Ha Hc _].
  destruct (Hall path Hpath) as (g & Hg & Hin). rewrite Forall_forall in Hok. destruct (proj2 (Hok g Hg) path Hin) as (base' & Eu' & Hkey).
  rewrite Eu in Eu'. injection Eu' as -> <-. cbn in Hkey. destruct (Hc g Hg) as (r & Hr & Hn & Hsub).
  apply andb_true_iff in Hn as [_ Hn]. rewrite Hkey in Hk. pose proof (prefix_trans _ _ _ Hk Hn) as Hkr'.
  pose proof (one_authority_all _ root r Ho Hroot Hr) as Hurl.
  apply list_elem_of_lookup in Hroot as [i Hi]. apply list_elem_of_lookup in Hr as [j Hj].
  assert (i = j) as ->.
  { destruct (prefix_comparable _ _ _ Hkr Hkr') as [Hp|Hp]; [apply (Ha i j root r Hi Hj)|symmetry; apply (Ha j i r root Hj Hi)];
      unfold nested; rewrite Hp, andb_true_r; by apply url_eqb_true. }
  assert (r = root) as -> by congruence. auto.
Qed.

Lemma merged_headed groups root :
  StronglySorted before groups -> Forall group_ok groups -> root ∈ merge_data_path_groups groups -> headed root.
Proof.
  intros Hs Hok Hr. destruct (mo_rooted _ _ (merge_ok groups Hs Hok) root Hr) as (g & Hg & Hk & Hh).
  rewrite Forall_forall in Hok. destruct (Hok g Hg) as [Hne Hp]. destruct (g_data_paths g) as [|first rest]; [done|].
  exists first. split; [done|]. rewrite Hk. apply Hp. left.
Qed.

(** C12. Sweeping a shared store deletes no file a catalog knows: [delete_orphaned_files_multicatalog]
    lists and deletes below one root at a time, each standing for the registered data paths
    below it. A data file, delete file or scheduled file of a catalog below its own data
    path, and a file any catalog references in another one, wherever it is, keeps its object,
    whether the sweep succeeds or fails half-way. *)
Theorem shared_sweep_spares_files collated now criteria dry_run db st c path url base p abs :
  (forall l q, q ∈ l -> q ∈ collated l) ->
  c ∈ sh_catalogs db -> cg_data_path c = Some path -> parse_url path = Returns (Ok (url, base)) ->
  p ∈ list_referenced_paths_in_data_paths [path] db -> resolve_path base p.1 p.2 = Returns (Ok abs) ->
  prefix_matches (canonical_key abs) (canonical_key base) = true \/ (p.2 = false /\ p.1 ∈ all_reference_paths db) ->
  has_object (delete_orphaned_files_multicatalog collated now criteria dry_run db st).2 (canonical_key abs)
  <-> has_object st (canonical_key abs).
Proof.
  intros Hcol Hc Hpath Eu Hp Ea Hwhere. unfold delete_orphaned_files_multicatalog.
  destruct (group_data_paths _) as [[groups|]|] eqn:Eg; [|done..]. cbn.
  destruct (is_empty _); [done|]. destruct (one_authority _) eqn:Eo; [|done]. cbn [negb].
  set (roots := merge_data_path_groups groups) in *.
  cut (has_object (sweep_groups now roots criteria dry_run db st).2 (canonical_key abs) <-> has_object st (canonical_key abs)).
  { by destruct (sweep_groups _ _ _ _ _ _) as [[deleted db'] st']. }
  apply sweep_spares. intros root Hroot. pose proof Eg as (Hs & Hok & _)%grouped. pose proof (merged_headed groups root Hs Hok Hroot) as Hh.
  split; [done|]. unfold safe_in. destruct Hwhere as [Hbelow|[Hrel Href]].
  - destruct (prefix_matches (canonical_key abs) (g_object_path root)) eqn:Ep; [right|by left].
    exists path, p. split_and!; [|done|intros url' base' abs' Eu' Ea'; congruence].
    eapply (root_of _ groups root path url base); [exact Eg|done|done| |exact Eu|exact Hbelow|done].
    unfold list_data_paths. apply Hcol, elem_of_remove_dups, elem_of_app. right. apply elem_of_app. left.
    apply list_elem_of_omap. by exists c.
  - right. destruct Hh as (first & Hfirst & _). exists first, p. split_and!.
    + by apply head_Some_elem_of.
    + unfold list_referenced_paths_in_data_paths. rewrite !elem_of_app. do 3 right. destruct p as [ref []]; [done|].
      by apply (list_elem_of_fmap_2 (fun path => (path, false))).
    + intros url' base' abs' _. rewrite Hrel in *. apply resolve_absolute in Ea as ->. by intros ->%resolve_absolute.
Qed.

(** ** What a cleanup spares *)

Lemma map_outcome_zip {A B} (f : A -> outcome B) l bs a b :
  map_outcome f l = Returns (Ok bs) -> (a, b) ∈ zip l bs -> f a = Returns (Ok b).
Proof.
  revert bs. induction l as [|a' l IH]; intros bs; cbn; [by intros [= <-] ?%elem_of_nil|].
  destruct (f a') as [[b'|]|] eqn:Ef; [|done..]. cbn. destruct (map_outcome f l) as [[bs'|]|] eqn:El; [|done..].
  intros [= <-]. cbn. intros [[= -> ->]|Hin]%elem_of_cons; [done|]. by apply (IH bs').
Qed.

(** A key inside the layout of another catalog. *)
Definition foreign (catalog_name : str) (db : SharedDb) (k : str) : Prop := exists id path url base prefix,
  (id, path) ∈ list_catalog_data_paths db /\ find_catalog_id catalog_name db <> Some id
  /\ parse_url path = Returns (Ok (url, base)) /\ layout_prefix base id = Returns (Ok prefix) /\ under k prefix = true.

Lemma retained now catalog_name data_path files dry_run db kept db' file url base abs :
  retain_unreferenced now catalog_name data_path files dry_run db = Returns (Ok (kept, db')) -> file ∈ kept ->
  parse_url data_path = Returns (Ok (url, base)) ->
  resolve_path base (scf_path file) (scf_path_is_relative file) = Returns (Ok abs) ->
  ~ foreign catalog_name db (canonical_key abs) /\ canonical_key abs ∉ canonical_key <$> all_reference_paths db.
Proof.
  intros E Hkept Eu Ea. unfold retain_unreferenced in E. destruct (is_empty files) eqn:Ee.
  { injection E as <- _. by destruct files; [apply elem_of_nil in Hkept|]. }
  rewrite Eu in E. cbn in E. destruct (match find_catalog_id catalog_name db with Some _ => _ | None => _ end) as [[own|]|]; [|done..].
  cbn in E. destruct (map_outcome _ (select _ _)) as [[foreigns|]|] eqn:Ef; [|done..]. cbn in E.
  destruct (map_outcome _ files) as [[resolved|]|] eqn:Er; [|done..]. injection E as <- _.
  apply list_elem_of_fmap in Hkept as ([file' v] & -> & [Hv Hin]%elem_of_select). cbn in *.
  apply list_elem_of_fmap in Hin as ([file'' abs'] & [= -> ->] & Hzip). cbn in *.
  pose proof (map_outcome_zip _ _ _ _ _ Er Hzip) as Ez. assert (abs' = abs) as -> by congruence.
  unfold judge in Hv. destruct (existsb _ foreigns) eqn:Eforeign; [done|].
  destruct (negb (bool_decide _) && _ && _); [done|]. case_bool_decide as Href; [done|]. split; [|done].
  intros (id & path & url' & base' & prefix & Hid & Hne & Eu' & Ep & Hu). apply existsb_false_iff in Eforeign.
  rewrite Forall_forall in Eforeign. rewrite Eforeign in Hu; [done|]. apply (map_outcome_elem _ _ _ _ Ef). exists (id, path).
  split; [|cbn; by rewrite Eu']. apply elem_of_select. split; [|done]. cbn. by rewrite bool_decide_eq_false_2.
Qed.

(** C13. A catalog deletes no file another one may read: [cleanup_old_files_in_catalog] leaves
    every object inside the layout of another catalog, whatever rows are scheduled, and every
    object a reference of any catalog names, in any spelling of its path. *)
Theorem shared_cleanup_spares_others now catalog_name criteria dry_run db st k :
  foreign catalog_name db k \/ k ∈ canonical_key <$> all_reference_paths db ->
  has_object (cleanup_old_files_in_catalog debug_str now catalog_name criteria dry_run db st).2 k <-> has_object st k.
Proof.
  intros Hk. unfold cleanup_old_files_in_catalog. destruct (get_data_path_in_catalog _ _ db) as [data_path|]; [|done]. cbn.
  destruct (retain_unreferenced _ _ _ _ _ _) as [[[kept db']|]|] eqn:Er; [|done..]. cbn.
  apply run_cleanup_spares. intros url base file abs Eu Hf Ea <-.
  destruct (retained _ _ _ _ _ _ _ _ _ _ _ _ Er Hf Eu Ea) as [? ?]. by destruct Hk.
Qed.
End sweep.

(** ** A sample shared store *)

#[local] Existing Instance counted_batches.
#[local] Existing Instance sample_values.
#[local] Existing Instance sample_parser.
#[local] Existing Instance local_urls.
#[local] Existing Instance plain_paths.
#[local] Existing Instance map_store.
#[local] Existing Instance map_store_lawful.
#[local] Strategy expand [sample_setup append_file sample_catalog truncated_catalog later_catalog placed_catalog].

Lemma part_prefix_spec p q : part_prefix p q = true <-> p = q \/ exists r, p = q ++ "/" ++ r.
Proof.
  unfold part_prefix. unfold str_eqb. rewrite orb_true_iff, bool_decide_eq_true, starts_with_spec.
  split; (intros [?|[r ->]]; [by left|right; exists r]); by rewrite <- app_assoc.
Qed.

Lemma str_cmp_prefix q r : str_cmp q (q ++ r) <> Gt.
Proof. induction q as [|c q IH]; cbn; [by destruct r|]. by rewrite Z.compare_refl. Qed.

Lemma slash_comparable q r a b : q ++ "/" ++ a = r ++ "/" ++ b -> part_prefix q r = true \/ part_prefix r q = true.
Proof.
  rewrite !part_prefix_spec. intros E. apply app_eq_inv in E as [(k & -> & E)|(k & -> & E)]; destruct k as [|c k]; cbn in E.
  - left. left. by rewrite app_nil_r.
  - injection E as -> E. left. right. by exists k.
  - left. left. by rewrite app_nil_r.
  - injection E as -> E. right. right. by exists k.
Qed.

#[local] Instance plain_paths_lawful : LawfulPaths.
Proof.
  split; cbn.
  - intros p. apply part_prefix_spec. by left.
  - intros p q r [->|[a ->]]%part_prefix_spec [->|[b ->]]%part_prefix_spec; apply part_prefix_spec;
      [by left|right; by exists b|right; by exists a|right; exists (b ++ "/" ++ a); by rewrite <- !app_assoc].
  - intros p q r [->|[a ->]]%part_prefix_spec.
    + intros Hr. left. exact Hr.
    + intros [E|[b E]]%part_prefix_spec; [right; apply part_prefix_spec; right; by exists a|by eapply slash_comparable].
  - intros p q [->|[a ->]]%part_prefix_spec; [rewrite <- (app_nil_r q) at 2|]; apply str_cmp_prefix.
Qed.

#[local] Instance local_urls_lawful : LawfulUrls.
Proof. split; cbn; [|done..]. by intros [] []. Qed.

#[local] Instance map_store_listing : LawfulListing.
Proof. split. intros prefix st entries meta [= <-] Hm%list_elem_of_In. by apply List.filter_In in Hm as [_ ?]. Qed.

(** Two catalogs, the data path of one below the other's; the first one has the files of the
    sample catalog and a scheduled row that names a file of the second. *)
Definition shared_store : SharedDb := {|
  sh_db := placed_catalog;
  sh_catalogs := [{| cg_id := 1; cg_name := "lake"; cg_data_path := Some (lit "/data") |};
                  {| cg_id := 2; cg_name := "fork"; cg_data_path := Some (lit "/data/fork") |}];
  sh_schema_map := [(1, 2)];
  sh_data_references := [];
  sh_delete_references := [];
  sh_scheduled := [{| ss_catalog_id := 1; ss_file_id := 7; ss_path := "/data/fork/cat_2/x.parquet"; ss_path_is_relative := false;
                      ss_schedule_start := 0; ss_scheduled_by_owner := Some true |}];
  sh_dropped := [] |}.

Definition swept_shared : Store := (delete_orphaned_files_multicatalog id 0 CleanupAll false shared_store sample_store).2.
#[local] Strategy expand [swept_shared].

Lemma shared_sweep_spares_files_witness :
  has_object swept_shared "data/main/events/c.parquet" /\ swept_shared !! lit "data/main/events/stray.parquet" = None.
Proof.
  split; [|vm_compute; reflexivity]. unfold swept_shared.
  assert (Hk : canonical_key "/data/main//events//c.parquet" = lit "data/main/events/c.parquet") by (vm_compute; reflexivity).
  rewrite <- Hk. eapply (shared_sweep_spares_files id 0 CleanupAll false shared_store sample_store
    {| cg_id := 1; cg_name := "lake"; cg_data_path := Some (lit "/data") |} "/data" (tt : @ObjectStoreUrl local_urls) "/data"
    ("main//events//c.parquet" : str, true)).
  - intros l q Hq. exact Hq.
  - left.
  - reflexivity.
  - vm_compute. reflexivity.
  - apply (bool_decide_unpack _). vm_compute. exact I.
  - vm_compute. reflexivity.
  - left. vm_compute. reflexivity.
  - rewrite Hk. vm_compute. by eexists.
Defined.

Definition cleaned_shared : Store :=
  (cleanup_old_files_in_catalog id 0 "lake" CleanupAll false shared_store (<[lit "data/fork/cat_2/x.parquet" := 0]> sample_store)).2.
#[local] Strategy expand [cleaned_shared].

Lemma shared_cleanup_spares_others_witness : has_object cleaned_shared "data/fork/cat_2/x.parquet".
Proof.
  unfold cleaned_shared. eapply (shared_cleanup_spares_others id 0 "lake" CleanupAll false shared_store
    (<[lit "data/fork/cat_2/x.parquet" := 0]> sample_store) "data/fork/cat_2/x.parquet").
  - left. exists 2, "/data/fork", (tt : @ObjectStoreUrl local_urls), "/data/fork", "data/fork/cat_2". split_and!.
    + right. left.
    + vm_compute. discriminate.
    + vm_compute. reflexivity.
    + vm_compute. reflexivity.
    + vm_compute. reflexivity.
  - vm_compute. by eexists.
Defined.
