(* ===== verification/ReadMemo.v ===== *)
(** * The catalog read memo

    The scans of many queries share the catalog reads of one head.
    [src/src/catalog_read_memo.rs]: [CatalogReadMemo::bind], the lazily begun consistent
    read of a scan, the fill of a table's reads and what is kept of it, and the four reads a
    [MemoizedMetadataProvider] serves; and [read_consistently] of metadata_provider.rs and
    [written_since] of table.rs, which a fill calls. The wrapped provider is a parameter (class
    [ScanProvider]), with the behaviour its documentation promises as the laws of
    [HeadFixesReads]. Calls are programs of atomic steps (a statement, or a section under a
    lock), which a step relation interleaves with each other and with commits; [wp] is the
    condition under which a program keeps the shared invariant at each of its steps. The
    fuel of [fill_listing] is [listing_pages], and [listing_pages_enough] shows that no more
    is ever used. Left out: filters and limits of the reads the memo passes through, and the
    calls that only pass through. *)
From S2P Require Import Prelude RustStd.

(** ** The provider a memo wraps *)

(** The methods of the trait [MetadataProvider] the memo calls, as functions of a state of
    the catalog; a read at a snapshot sees every visible inlined row. [Cat] is a state of the
    catalog; [begin_consistent_read] says whether the provider can pin it, and
    [end_consistent_read] what ending the read returns. *)
Class ScanProvider := {
  Cat : Type;
  Columns : Type;
  InlinedDelete : Type;
  Batch : Type;
  InlinedRows : Type;
  FileMetadata : Type;
  columns_eq_dec :: EqDecision Columns;
  batch_rows : Batch -> nat;
  rows_count : InlinedRows -> nat;
  rows_next_file_id : InlinedRows -> option Z;
  data_file_id : FileMetadata -> Z;
  (* size_of::<DuckLakeInlinedDelete>() and the estimates of the other reads *)
  delete_bytes : Z;
  get_array_memory_size : Batch -> Z;
  inlined_rows_bytes : InlinedRows -> Z;
  file_metadata_bytes : FileMetadata -> Z;
  get_current_snapshot : Cat -> result Z;
  begin_consistent_read : Cat -> result bool;
  end_consistent_read : Cat -> result unit;
  get_inlined_deletes : Z -> Z -> Cat -> result (list InlinedDelete);
  get_table_structure : Z -> Z -> Cat -> result Columns;
  scan_inlined_data_noting_absence : Z -> Z -> Columns -> Cat -> result (list Batch * option Z * option Z);
  read_inlined_rows : Z -> Z -> Columns -> Cat -> result (list InlinedRows);
  get_table_file_metadata_page : Z -> Z -> option Z -> nat -> Cat -> result (list FileMetadata);
}.

Definition SCAN_READ_ATTEMPTS : nat := 10.
Definition FILE_METADATA_BATCH_SIZE : nat := N.to_nat 4096.
(** [usize::saturating_add]. *)
Definition usize_add (a b : Z) : Z := Z.min (a + b) u64_max.

Section memo.
Context `{ScanProvider}.

(** [TableKey] is a table id and a snapshot id. *)
Abbreviation TableKey := (Z * Z)%type.

(** [TableReads]. *)
Record TableReads := {
  tr_inlined_deletes : list InlinedDelete;
  tr_listing : list FileMetadata;
  tr_columns : Columns;
  tr_inlined_rows : list Batch;
  tr_inlined_absent_through : option Z;
  tr_visible_rows : option (list InlinedRows);
  tr_next_file_id : option Z;
}.

(** [MemoState]. *)
Record MemoState := {
  ms_head : option Z;
  ms_bytes : Z;
  ms_tables : gmap TableKey TableReads;
  ms_no_room : gset TableKey;
  ms_too_large : gset Z;
  ms_columns : gmap Z (Z * Columns);
  ms_inlined_absent_through : gmap Z Z;
}.
Definition MemoState_default : MemoState :=
  {| ms_head := None; ms_bytes := 0; ms_tables := ∅; ms_no_room := ∅; ms_too_large := ∅; ms_columns := ∅;
     ms_inlined_absent_through := ∅ |}.

(** [LazyState]: [Open] holds the state the wrapped provider pinned. *)
Inductive LazyState := NotBegun | Open (c : Cat) | Direct | Ended.

(** What the queries share: the memo, the reads each query picked, and the consistent read of
    each scan of a query. [sh_bound] is a history variable: the state each query bound at. *)
Record Shared := {
  sh_memo : MemoState;
  sh_picked : gmap Z (gmap TableKey (option TableReads));
  sh_lazy : gmap (Z * Z) LazyState;
  sh_bound : gmap Z Cat;
}.
Definition with_memo (m : MemoState) (s : Shared) : Shared :=
  {| sh_memo := m; sh_picked := sh_picked s; sh_lazy := sh_lazy s; sh_bound := sh_bound s |}.
Definition with_picked (query : Z) (picked : gmap TableKey (option TableReads)) (s : Shared) : Shared :=
  {| sh_memo := sh_memo s; sh_picked := <[query := picked]> (sh_picked s); sh_lazy := sh_lazy s; sh_bound := sh_bound s |}.
Definition with_lazy (query scan : Z) (lazy : LazyState) (s : Shared) : Shared :=
  {| sh_memo := sh_memo s; sh_picked := sh_picked s; sh_lazy := <[(query, scan) := lazy]> (sh_lazy s); sh_bound := sh_bound s |}.
Definition note_bound (query : Z) (c : Cat) (s : Shared) : Shared :=
  {| sh_memo := sh_memo s; sh_picked := sh_picked s; sh_lazy := sh_lazy s; sh_bound := <[query := c]> (sh_bound s) |}.
Definition on_tables (m : MemoState) (head : option Z) (bytes : Z) (tables : gmap TableKey TableReads) (no_room : gset TableKey)
  : MemoState :=
  {| ms_head := head; ms_bytes := bytes; ms_tables := tables; ms_no_room := no_room; ms_too_large := ms_too_large m;
     ms_columns := ms_columns m; ms_inlined_absent_through := ms_inlined_absent_through m |}.
Definition add_too_large (table : Z) (m : MemoState) : MemoState :=
  {| ms_head := ms_head m; ms_bytes := ms_bytes m; ms_tables := ms_tables m; ms_no_room := ms_no_room m;
     ms_too_large := {[table]} ∪ ms_too_large m; ms_columns := ms_columns m;
     ms_inlined_absent_through := ms_inlined_absent_through m |}.
Definition note_columns (table snapshot : Z) (columns : Columns) (m : MemoState) : MemoState :=
  {| ms_head := ms_head m; ms_bytes := ms_bytes m; ms_tables := ms_tables m; ms_no_room := ms_no_room m;
     ms_too_large := ms_too_large m; ms_columns := <[table := (snapshot, columns)]> (ms_columns m);
     ms_inlined_absent_through := ms_inlined_absent_through m |}.
Definition raise_absent (table through : Z) (m : MemoState) : MemoState :=
  {| ms_head := ms_head m; ms_bytes := ms_bytes m; ms_tables := ms_tables m; ms_no_room := ms_no_room m;
     ms_too_large := ms_too_large m; ms_columns := ms_columns m;
     ms_inlined_absent_through :=
       <[table := Z.max (default through (ms_inlined_absent_through m !! table)) through]> (ms_inlined_absent_through m) |}.

(** ** Programs

    A call is a sequence of atomic steps: one statement on the catalog, or one critical
    section on the shared state. Other queries and commits run between two steps. *)
Inductive Prog (A : Type) : Type :=
| Return (r : result A)
| Atomic (B : Type) (f : Cat -> Shared -> B * Shared) (k : B -> Prog A).
#[global] Arguments Return {A} r.
#[global] Arguments Atomic {A B} f k.

Fixpoint prog_bind {A B} (m : Prog A) (k : A -> Prog B) : Prog B :=
  match m with
  | Return (Ok a) => k a
  | Return (Err e) => Return (Err e)
  | Atomic f next => Atomic f (fun b => prog_bind (next b) k)
  end.
Notation "'let^' x := m 'in' k" := (prog_bind m (fun x => k)) (at level 10, x pattern, m at level 200, k at level 200).

(** A statement of the provider, through a pinned state or directly, its error raised or kept. *)
Definition try_read {A} (pinned : option Cat) (q : Cat -> result A) : Prog (result A) :=
  match pinned with
  | Some c => Return (Ok (q c))
  | None => Atomic (fun c s => (q c, s)) (fun r => Return (Ok r))
  end.
Definition read {A} (pinned : option Cat) (q : Cat -> result A) : Prog A :=
  let^ r := try_read pinned q in Return r.
Definition locked {A} (f : MemoState -> A * MemoState) : Prog A :=
  Atomic (fun _ s => let '(a, m) := f (sh_memo s) in (a, with_memo m s)) (fun a => Return (Ok a)).

(** ** Binding *)

(** [CatalogReadMemo::bind]: the head the query uses. *)
Definition rebind (head : Z) (m : MemoState) : MemoState :=
  if match ms_head m with None => true | Some kept => kept <? head end then on_tables m (Some head) 0 ∅ ∅ else m.
Definition bind_at (r : result Z) : Prog Z :=
  match r with
  | Ok head => let^ _ := locked (fun m => (tt, rebind head m)) in Return (Ok head)
  | Err e => Return (Err e)
  end.
Definition bind (query : Z) : Prog Z := Atomic (fun c s => (get_current_snapshot c, note_bound query c s)) bind_at.

(** ** The consistent read of a scan *)

(** [LazyRead::provider]. *)
Definition lazy_provider (query scan : Z) : Prog (option Cat) :=
  Atomic (fun c s =>
    match default NotBegun (sh_lazy s !! (query, scan)) with
    | NotBegun =>
        match begin_consistent_read c with
        | Err e => (Err e, s)
        | Ok begun =>
            (Ok (if begun then Some c else None), with_lazy query scan (if begun then Open c else Direct) s)
        end
    | Open pinned => (Ok (Some pinned), s)
    | Direct | Ended => (Ok None, s)
    end) (fun r => Return r).

(** [LazyRead::end]. *)
Definition lazy_end (query scan : Z) : Prog unit :=
  Atomic (fun _ s =>
    (match sh_lazy s !! (query, scan) with Some (Open pinned) => end_consistent_read pinned | _ => Ok tt end,
     with_lazy query scan Ended s))
    (fun r => Return r).

(** [reader]: [scan] is the consistent read the provider serves, when it serves one. *)
Definition reader (query : Z) (scan : option Z) : Prog (option Cat) :=
  match scan with Some scan => lazy_provider query scan | None => Return (Ok None) end.

(** [read_consistently]. *)
Definition read_consistently {A} (pinned : option Cat) (body : option Cat -> Prog A) : Prog A :=
  match pinned with
  | Some c => body (Some c)
  | None =>
      let^ begun := Atomic (fun c s => (let? b := begin_consistent_read c in Ok (if b then Some c else None), s))
                      (fun r => Return r) in
      match begun with
      | None => body None
      | Some c => let^ a := body (Some c) in let^ _ := Return (end_consistent_read c) in Return (Ok a)
      end
  end.

(** ** Filling *)

(** What a memo and a query fix: the budget, the query, the consistent read it serves, and
    the head its bind read. *)
Record Bound := {
  bd_max_bytes : Z;
  bd_query : Z;
  bd_scan : option Z;
  bd_head : Z;
}.

(** [keep_columns] and [columns]. *)
Definition keep_columns (table snapshot : Z) (columns : Columns) : Prog unit :=
  locked (fun m => (tt, note_columns table snapshot columns m)).
Definition columns (pinned : option Cat) (table snapshot : Z) : Prog Columns :=
  let^ kept := locked (fun m =>
    (match ms_columns m !! table with Some (at_, columns) => if at_ =? snapshot then Some columns else None | None => None end, m)) in
  match kept with
  | Some columns => Return (Ok columns)
  | None =>
      let^ columns := read pinned (get_table_structure table snapshot) in
      let^ _ := keep_columns table snapshot columns in
      Return (Ok columns)
  end.

(** [FillInlined]. *)
Record FillInlined := {
  fi_rows : list Batch;
  fi_absent_through : option Z;
  fi_visible_rows : option (list InlinedRows);
  fi_next_file_id : option Z;
}.

Definition total {A} (f : A -> Z) (l : list A) : Z := foldr (fun a sum => f a + sum) 0 l.
Definition min_list (l : list Z) : option Z := match l with [] => None | z :: l' => Some (foldl Z.min z l') end.

(** The lower of the next file ids of the two reads. *)
Definition next_of (batches : list Batch) (next : option Z) (visible : option (list InlinedRows)) : option Z :=
  min_list (option_list (if existsb (fun b => (0 <? batch_rows b)%nat) batches then next else None)
            ++ omap (fun rows => if (0 <? rows_count rows)%nat then rows_next_file_id rows else None) (default [] visible)).

(** The rows with their row ids, [None] when the provider cannot read them. *)
Definition fill_visible (pinned : option Cat) (table snapshot : Z) (cols : Columns) (absent : option Z)
  : Prog (option (list InlinedRows)) :=
  if match absent with Some through => snapshot <=? through | None => false end then Return (Ok (Some []))
  else let^ r := try_read pinned (read_inlined_rows table snapshot cols) in
       Return (Ok (match r with Ok rows => Some rows | Err _ => None end)).

(** [fill_inlined] after its first read, and whole: [None] once the bytes exceed the budget,
    else the bytes with the rows. *)
Definition fill_rows (max_bytes : Z) (pinned : option Cat) (table snapshot : Z) (cols : Columns) (bytes : Z)
  (batches : list Batch) (absent next : option Z) : Prog (option (FillInlined * Z)) :=
  let bytes := usize_add bytes (total get_array_memory_size batches) in
  if max_bytes <? bytes then Return (Ok None)
  else
    let^ visible := fill_visible pinned table snapshot cols absent in
    let bytes := usize_add bytes (total inlined_rows_bytes (default [] visible)) in
    if max_bytes <? bytes then Return (Ok None)
    else Return (Ok (Some ({| fi_rows := batches; fi_absent_through := absent; fi_visible_rows := visible;
                              fi_next_file_id := next_of batches next visible |}, bytes))).
Definition known_absent (table snapshot : Z) (m : MemoState) : option Z :=
  match ms_inlined_absent_through m !! table with
  | Some through => if snapshot <=? through then Some through else None
  | None => None
  end.
Definition fill_inlined (max_bytes : Z) (pinned : option Cat) (table snapshot : Z) (cols : Columns) (bytes : Z)
  : Prog (option (FillInlined * Z)) :=
  let^ known := locked (fun m => (known_absent table snapshot m, m)) in
  match known with
  | Some through =>
      Return (Ok (Some ({| fi_rows := []; fi_absent_through := Some through; fi_visible_rows := Some [];
                           fi_next_file_id := None |}, bytes)))
  | None =>
      let^ (batches, absent, next) := read pinned (scan_inlined_data_noting_absence table snapshot cols) in
      let^ _ := locked (fun m => (tt, match absent with Some through => raise_absent table through m | None => m end)) in
      fill_rows max_bytes pinned table snapshot cols bytes batches absent next
  end.

(** [written_since]. *)
Definition written_since (page : list FileMetadata) (next_file_id : option Z) : bool :=
  match next_file_id with Some next => existsb (fun file => next <=? data_file_id file) page | None => false end.

(** [FillListing]. *)
Inductive FillListing := Files (listing : list FileMetadata) | WrittenSince | OverBudget.

(** [fill_listing]: a page at a time, until a short one. *)
Fixpoint fill_listing (pages : nat) (max_bytes : Z) (pinned : option Cat) (table snapshot : Z) (next_file_id after : option Z)
  (listing : list FileMetadata) (bytes : Z) : Prog (FillListing * Z) :=
  match pages with
  | O => Return (Err (Internal "the listing has more pages than the model reads"))
  | S pages' =>
      let^ page := read pinned (get_table_file_metadata_page table snapshot after FILE_METADATA_BATCH_SIZE) in
      match last page with
      | None => Return (Ok (Files listing, bytes))
      | Some file =>
          let next := data_file_id file in
          if (FILE_METADATA_BATCH_SIZE <? length page)%nat || match after with Some a => next <=? a | None => false end then
            Return (Err (InvalidConfig ("metadata provider returned a " ++ show_Z (Z.of_nat (length page)) ++ "-file page after file "
              ++ match after with Some a => "Some(" ++ show_Z a ++ ")" | None => "None" end ++ " for a "
              ++ show_Z (Z.of_nat FILE_METADATA_BATCH_SIZE) ++ "-file page, ending at file " ++ show_Z next)))
          else if written_since page next_file_id then Return (Ok (WrittenSince, bytes))
          else
            let bytes := usize_add bytes (total file_metadata_bytes page) in
            if max_bytes <? bytes then Return (Ok (OverBudget, bytes))
            else if (length page <? FILE_METADATA_BATCH_SIZE)%nat then Return (Ok (Files (listing ++ page), bytes))
            else fill_listing pages' max_bytes pinned table snapshot next_file_id (Some next) (listing ++ page) bytes
      end
  end.

(** A listing of more pages exceeds the budget: the fuel of [fill_listing]. *)
Definition listing_pages (max_bytes : Z) : nat := (2 + Z.to_nat (max_bytes / Z.of_nat FILE_METADATA_BATCH_SIZE))%nat.

(** The attempts of [fill_from]. *)
Fixpoint fill_attempts (attempts pages : nat) (max_bytes : Z) (pinned : option Cat) (table snapshot : Z) (cols : Columns)
  (deletes : list InlinedDelete) (deletes_bytes : Z) : Prog (option (TableReads * Z)) :=
  match attempts with
  | O => Return (Err (Conflict ("Transaction conflict - the inlined data of table " ++ ["034"%char] ++ show_Z table ++ ["034"%char]
      ++ " kept moving to files while it was read")))
  | S attempts' =>
      let^ inlined := fill_inlined max_bytes pinned table snapshot cols deletes_bytes in
      match inlined with
      | None => Return (Ok None)
      | Some (inlined, bytes) =>
          let^ (listing, bytes) := fill_listing pages max_bytes pinned table snapshot (fi_next_file_id inlined) None [] bytes in
          match listing with
          | Files listing =>
              Return (Ok (Some ({| tr_inlined_deletes := deletes; tr_listing := listing; tr_columns := cols;
                                   tr_inlined_rows := fi_rows inlined; tr_inlined_absent_through := fi_absent_through inlined;
                                   tr_visible_rows := fi_visible_rows inlined;
                                   tr_next_file_id := fi_next_file_id inlined |}, bytes)))
          | WrittenSince => fill_attempts attempts' pages max_bytes pinned table snapshot cols deletes deletes_bytes
          | OverBudget => Return (Ok None)
          end
      end
  end.

(** [fill_from]. *)
Definition fill_from (b : Bound) (pinned : option Cat) (table snapshot : Z) : Prog (option (TableReads * Z)) :=
  let^ deletes := read pinned (get_inlined_deletes table snapshot) in
  let deletes_bytes := Z.of_nat (length deletes) * delete_bytes in
  if bd_max_bytes b <? deletes_bytes then Return (Ok None)
  else
    let^ cols := columns pinned table snapshot in
    fill_attempts SCAN_READ_ATTEMPTS (listing_pages (bd_max_bytes b)) (bd_max_bytes b) pinned table snapshot cols deletes deletes_bytes.

(** [fill]: the reads, their bytes, and whether the head is still the bound one. *)
Definition fill (b : Bound) (table snapshot : Z) : Prog (option (TableReads * Z * bool)) :=
  let^ pinned := reader (bd_query b) (bd_scan b) in
  read_consistently pinned (fun pinned =>
    let^ filled := fill_from b pinned table snapshot in
    match filled with
    | None => Return (Ok None)
    | Some (reads, bytes) =>
        let^ head := try_read pinned get_current_snapshot in
        Return (Ok (Some (reads, bytes, match head with Ok h => h =? bd_head b | Err _ => false end)))
    end).

(** ** Picking *)

(** The two critical sections of [pick]: [Some] is an answer. *)
Definition look_up (b : Bound) (table snapshot : Z) (m : MemoState) : option (option TableReads) :=
  if bool_decide (table ∈ ms_too_large m) then Some None
  else if bool_decide (ms_head m = Some (bd_head b)) then
    match ms_tables m !! (table, snapshot) with
    | Some kept => Some (Some kept)
    | None => if bool_decide ((table, snapshot) ∈ ms_no_room m) then Some None else None
    end
  else None.
Definition keep (b : Bound) (table snapshot : Z) (reads : TableReads) (bytes : Z) (unmoved : bool) (m : MemoState)
  : TableReads * MemoState :=
  if bool_decide (ms_head m = Some (bd_head b)) then
    match ms_tables m !! (table, snapshot) with
    | Some kept => (kept, m)
    | None =>
        (reads,
         if unmoved then
           if usize_add (ms_bytes m) bytes <=? bd_max_bytes b then
             on_tables m (ms_head m) (ms_bytes m + bytes) (<[(table, snapshot) := reads]> (ms_tables m)) (ms_no_room m)
           else on_tables m (ms_head m) (ms_bytes m) (ms_tables m) ({[(table, snapshot)]} ∪ ms_no_room m)
         else m)
    end
  else (reads, m).

(** [pick]. *)
Definition pick (b : Bound) (table snapshot : Z) : Prog (option TableReads) :=
  let^ known := locked (fun m => (look_up b table snapshot m, m)) in
  match known with
  | Some answer => Return (Ok answer)
  | None =>
      let^ filled := fill b table snapshot in
      match filled with
      | None => let^ _ := locked (fun m => (tt, add_too_large table m)) in Return (Ok None)
      | Some (reads, bytes, unmoved) =>
          let^ reads := locked (keep b table snapshot reads bytes unmoved) in Return (Ok (Some reads))
      end
  end.

(** [table_reads]: the first pick of a query wins. *)
Definition picked_of (query : Z) (s : Shared) : gmap TableKey (option TableReads) := default ∅ (sh_picked s !! query).
Definition table_reads (b : Bound) (table snapshot : Z) : Prog (option TableReads) :=
  let^ picked := Atomic (fun _ s => (picked_of (bd_query b) s !! (table, snapshot), s)) (fun r => Return (Ok r)) in
  match picked with
  | Some answer => Return (Ok answer)
  | None =>
      let^ reads := pick b table snapshot in
      Atomic (fun _ s =>
        match picked_of (bd_query b) s !! (table, snapshot) with
        | Some first => (first, s)
        | None => (reads, with_picked (bd_query b) (<[(table, snapshot) := reads]> (picked_of (bd_query b) s)) s)
        end) (fun r => Return (Ok r))
  end.

(** ** The calls the bound provider serves *)

(** [listing_page]: [partition_point] is the number of leading files at or below the cursor. *)
Definition listing_page (listing : list FileMetadata) (after : option Z) (limit : nat) : list FileMetadata :=
  take limit (match after with Some a => drop_while (fun file => data_file_id file <=? a) listing | None => listing end).

Definition memo_file_metadata_page (b : Bound) (table snapshot : Z) (after : option Z) (limit : nat) : Prog (list FileMetadata) :=
  let^ reads := table_reads b table snapshot in
  match reads with
  | Some reads => Return (Ok (listing_page (tr_listing reads) after limit))
  | None => let^ pinned := reader (bd_query b) (bd_scan b) in read pinned (get_table_file_metadata_page table snapshot after limit)
  end.

Definition memo_inlined_deletes (b : Bound) (table snapshot : Z) : Prog (list InlinedDelete) :=
  let^ reads := table_reads b table snapshot in
  match reads with
  | Some reads => Return (Ok (tr_inlined_deletes reads))
  | None => let^ pinned := reader (bd_query b) (bd_scan b) in read pinned (get_inlined_deletes table snapshot)
  end.

Definition memo_scan_inlined_data (b : Bound) (table snapshot : Z) (cols : Columns) : Prog (list Batch * option Z * option Z) :=
  let^ reads := table_reads b table snapshot in
  let through :=
    let^ pinned := reader (bd_query b) (bd_scan b) in read pinned (scan_inlined_data_noting_absence table snapshot cols) in
  match reads with
  | Some reads =>
      if bool_decide (tr_columns reads = cols) then
        Return (Ok (tr_inlined_rows reads, tr_inlined_absent_through reads, tr_next_file_id reads))
      else let^ _ := keep_columns table snapshot cols in through
  | None => through
  end.

(** [read_inlined_rows] of the rows visible at a snapshot. *)
Definition memo_read_inlined_rows (b : Bound) (table snapshot : Z) (cols : Columns) : Prog (list InlinedRows) :=
  let^ reads := table_reads b table snapshot in
  let through := let^ pinned := reader (bd_query b) (bd_scan b) in read pinned (read_inlined_rows table snapshot cols) in
  match reads with
  | Some reads =>
      if bool_decide (tr_columns reads = cols) then
        match tr_visible_rows reads with Some rows => Return (Ok rows) | None => through end
      else let^ _ := keep_columns table snapshot cols in through
  | None => through
  end.

(** A call of a bound query: the four reads, and the end of its consistent read. *)
Inductive Call :=
| Page (table snapshot : Z) (after : option Z) (limit : nat)
| Deletes (table snapshot : Z)
| Scan (table snapshot : Z) (cols : Columns)
| Rows (table snapshot : Z) (cols : Columns)
| End.
Inductive Answer :=
| Bound_at (head : Z)
| Listed (page : list FileMetadata)
| Deleted (deletes : list InlinedDelete)
| Scanned (batches : list Batch) (absent next : option Z)
| Visible (rows : list InlinedRows)
| Done.
Definition serve (b : Bound) (call : Call) : Prog Answer :=
  match call with
  | Page table snapshot after limit =>
      let^ page := memo_file_metadata_page b table snapshot after limit in Return (Ok (Listed page))
  | Deletes table snapshot => let^ deletes := memo_inlined_deletes b table snapshot in Return (Ok (Deleted deletes))
  | Scan table snapshot cols =>
      let^ a := memo_scan_inlined_data b table snapshot cols in
      Return (Ok (let '(batches, absent, next) := a in Scanned batches absent next))
  | Rows table snapshot cols => let^ rows := memo_read_inlined_rows b table snapshot cols in Return (Ok (Visible rows))
  | End =>
      let^ _ := match bd_scan b with Some scan => lazy_end (bd_query b) scan | None => Return (Ok tt) end in Return (Ok Done)
  end.

(** ** Queries and commits in any order

    A thread runs a bind or a call of a query; [th_prog] is what is left of it. *)
Record Thread := { th_query : Z; th_call : option Call; th_prog : Prog Answer }.
Record System := { sy_cat : Cat; sy_shared : Shared; sy_threads : list Thread }.
Definition initial (c : Cat) : System :=
  {| sy_cat := c; sy_shared := {| sh_memo := MemoState_default; sh_picked := ∅; sh_lazy := ∅; sh_bound := ∅ |}; sy_threads := [] |}.
End memo.

(** ** What the memo relies on *)

Section facts.
Context `{ScanProvider}.

Definition no_rows (batches : list Batch) : Prop := Forall (fun b => batch_rows b = 0%nat) batches.
Definition no_visible (rows : list InlinedRows) : Prop := Forall (fun r => rows_count r = 0%nat) rows.
End facts.

(** The facts the memo's documentation lists. Every commit that changes what a scan reads
    moves the head: what the provider answers is a function of the head of the state it
    reads, up to failures. A listing is paged in the order of file ids. A table reported to
    have no inlined rows through a snapshot has none there at any later head. *)
Class HeadFixesReads `{ScanProvider} := {
  cat_head : Cat -> Z;
  deletes_at : Z -> Z -> Z -> list InlinedDelete;
  listing_at : Z -> Z -> Z -> list FileMetadata;
  batches_at : Z -> Z -> Columns -> Z -> list Batch;
  visible_at : Z -> Z -> Columns -> Z -> list InlinedRows;
  head_read : forall c h, get_current_snapshot c = Ok h -> h = cat_head c;
  deletes_read : forall table snapshot c deletes,
    get_inlined_deletes table snapshot c = Ok deletes -> deletes = deletes_at table snapshot (cat_head c);
  batches_read : forall table snapshot cols c batches absent next,
    scan_inlined_data_noting_absence table snapshot cols c = Ok (batches, absent, next) ->
    batches = batches_at table snapshot cols (cat_head c);
  visible_read : forall table snapshot cols c rows,
    read_inlined_rows table snapshot cols c = Ok rows -> rows = visible_at table snapshot cols (cat_head c);
  page_read : forall table snapshot after limit c page,
    get_table_file_metadata_page table snapshot after limit c = Ok page ->
    page = listing_page (listing_at table snapshot (cat_head c)) after limit;
  listing_ordered : forall table snapshot h, StronglySorted (fun f g => data_file_id f < data_file_id g) (listing_at table snapshot h);
  absence_stays : forall table snapshot cols c batches through next h snapshot' cols',
    scan_inlined_data_noting_absence table snapshot cols c = Ok (batches, Some through, next) ->
    cat_head c <= h -> snapshot' <= through ->
    no_rows (batches_at table snapshot' cols' h) /\ no_visible (visible_at table snapshot' cols' h);
  sizes_counted : 0 <= delete_bytes /\ (forall b, 0 <= get_array_memory_size b) /\ (forall r, 0 <= inlined_rows_bytes r)
    /\ (forall f, 1 <= file_metadata_bytes f);
}.

(** A commit moves the catalog and its head; a query binds once; a call of a bound query
    starts with the head its bind read; a thread makes its next atomic step. *)
Inductive step `{HeadFixesReads} (max_bytes : Z) : System -> System -> Prop :=
| step_commit c c' s ts : cat_head c <= cat_head c' ->
    step max_bytes {| sy_cat := c; sy_shared := s; sy_threads := ts |} {| sy_cat := c'; sy_shared := s; sy_threads := ts |}
| step_bind q c s ts : sh_bound s !! q = None ->
    step max_bytes {| sy_cat := c; sy_shared := s; sy_threads := ts |}
      {| sy_cat := c; sy_shared := note_bound q c s;
         sy_threads := ts ++ [{| th_query := q; th_call := None;
           th_prog := prog_bind (bind_at (get_current_snapshot c)) (fun head => Return (Ok (Bound_at head))) |}] |}
| step_call q scan call c0 head c s ts : sh_bound s !! q = Some c0 -> get_current_snapshot c0 = Ok head ->
    step max_bytes {| sy_cat := c; sy_shared := s; sy_threads := ts |}
      {| sy_cat := c; sy_shared := s;
         sy_threads := ts ++ [{| th_query := q; th_call := Some call;
           th_prog := serve {| bd_max_bytes := max_bytes; bd_query := q; bd_scan := scan; bd_head := head |} call |}] |}
| step_run c s before t after B (f : Cat -> Shared -> B * Shared) k : th_prog t = Atomic f k ->
    step max_bytes {| sy_cat := c; sy_shared := s; sy_threads := before ++ t :: after |}
      {| sy_cat := c; sy_shared := (f c s).2;
         sy_threads := before ++ {| th_query := th_query t; th_call := th_call t; th_prog := k (f c s).1 |} :: after |}.

Section logic.
Context `{HeadFixesReads}.
Context (max_bytes : Z) (Hmax : 0 <= max_bytes < u64_max).

(** Reads that are what the catalog has at a head. *)
Definition same_rows (a b : list Batch) : Prop := a = b \/ (no_rows a /\ no_rows b).
Definition same_visible (a b : list InlinedRows) : Prop := a = b \/ (no_visible a /\ no_visible b).
Record shows (h : Z) (table snapshot : Z) (reads : TableReads) : Prop := {
  sw_deletes : tr_inlined_deletes reads = deletes_at table snapshot h;
  sw_listing : tr_listing reads = listing_at table snapshot h;
  sw_rows : same_rows (tr_inlined_rows reads) (batches_at table snapshot (tr_columns reads) h);
  sw_visible : forall rows, tr_visible_rows reads = Some rows -> same_visible rows (visible_at table snapshot (tr_columns reads) h);
}.
Definition reads_bytes (reads : TableReads) : Z :=
  Z.of_nat (length (tr_inlined_deletes reads)) * delete_bytes + total get_array_memory_size (tr_inlined_rows reads)
  + total inlined_rows_bytes (default [] (tr_visible_rows reads)) + total file_metadata_bytes (tr_listing reads).

(** ** The invariant *)

(** Whether the provider pins a state for every consistent read it begins, or for none; and
    whether absence reaches back to every head, as it does when no inlined row is ever
    flushed. *)
Definition pins : Prop := forall c, begin_consistent_read c <> Ok false.
Definition never_pins : Prop := forall c, begin_consistent_read c <> Ok true.
Definition absence_reaches_back : Prop := forall table snapshot cols c batches through next h snapshot' cols',
  scan_inlined_data_noting_absence table snapshot cols c = Ok (batches, Some through, next) -> snapshot' <= through ->
  no_rows (batches_at table snapshot' cols' h) /\ no_visible (visible_at table snapshot' cols' h).
Context (Hrace : never_pins \/ absence_reaches_back).

Definition tables_bytes (tables : gmap (Z * Z) TableReads) : Z := total (fun e => reads_bytes e.2) (map_to_list tables).

Record memo_ok (h : Z) (m : MemoState) : Prop := {
  mo_head : forall kept, ms_head m = Some kept -> kept <= h;
  mo_tables : forall key reads, ms_tables m !! key = Some reads ->
    exists kept, ms_head m = Some kept /\ shows kept key.1 key.2 reads;
  mo_bytes : ms_bytes m = tables_bytes (ms_tables m);
  mo_budget : ms_bytes m <= max_bytes;
  mo_absent : forall table through, ms_inlined_absent_through m !! table = Some through ->
    forall h' snapshot cols, h <= h' \/ absence_reaches_back -> snapshot <= through ->
    no_rows (batches_at table snapshot cols h') /\ no_visible (visible_at table snapshot cols h');
}.

Record inv (c : Cat) (s : Shared) : Prop := {
  in_memo : memo_ok (cat_head c) (sh_memo s);
  in_bound : forall q c0, sh_bound s !! q = Some c0 -> cat_head c0 <= cat_head c;
  in_lazy : forall q scan c1, sh_lazy s !! (q, scan) = Some (Open c1) ->
    begin_consistent_read c1 = Ok true
    /\ exists c0, sh_bound s !! q = Some c0 /\ cat_head c0 <= cat_head c1 <= cat_head c;
  in_picked : forall q table snapshot reads, picked_of q s !! (table, snapshot) = Some (Some reads) -> pins ->
    exists c0 h, sh_bound s !! q = Some c0 /\ cat_head c0 <= h <= cat_head c /\ shows h table snapshot reads;
}.

(** What no step undoes: the binds, and the reads a query picked. *)
Definition keeps (s s' : Shared) : Prop :=
  sh_bound s ⊆ sh_bound s' /\ forall q, picked_of q s ⊆ picked_of q s'.

(** ** Programs under interference

    A program of the query [q], bound at [c0], is correct from [c] when each of its steps
    keeps the invariant, whatever commits and other queries did before the step. *)
Section wp.
Context (q : Z) (c0 : Cat).
Fixpoint wp {A} (m : Prog A) (Q : Cat -> result A -> Prop) (c : Cat) : Prop :=
  match m with
  | Return r => Q c r
  | Atomic f k => forall c' s, cat_head c <= cat_head c' -> inv c' s -> sh_bound s !! q = Some c0 ->
      inv c' (f c' s).2 /\ keeps s (f c' s).2 /\ wp (k (f c' s).1) Q c'
  end.

Lemma wp_mono {A} (m : Prog A) (Q Q' : Cat -> result A -> Prop) c :
  (forall c' r, cat_head c <= cat_head c' -> Q c' r -> Q' c' r) -> wp m Q c -> wp m Q' c.
Proof.
  revert c. induction m as [r|B f k IH]; intros c HQ Hm; cbn in *; [by apply HQ|].
  intros c' s Hc Hi Hb. destruct (Hm c' s Hc Hi Hb) as (? & ? & ?). split_and!; [done..|]. apply IH; [|done].
  intros c2 r Hc2. apply HQ. lia.
Qed.

Lemma wp_bind {A B} (m : Prog A) (k : A -> Prog B) Q c :
  wp m (fun c' r => match r with Ok a => wp (k a) Q c' | Err e => Q c' (Err e) end) c -> wp (prog_bind m k) Q c.
Proof.
  revert c. induction m as [r|C f next IH]; intros c Hm; cbn in *; [by destruct r|].
  intros c' s Hc Hi Hb. destruct (Hm c' s Hc Hi Hb) as (? & ? & ?). split_and!; [done..|]. by apply IH.
Qed.

Lemma keeps_refl s : keeps s s.
Proof. done. Qed.

(** A statement: it reads a state between the two, or the pinned one. *)
Definition between (pinned : option Cat) (c c' ci : Cat) : Prop :=
  match pinned with Some p => ci = p | None => cat_head c <= cat_head ci <= cat_head c' end.
Definition steady (pinned : option Cat) (c c' : Cat) (h : Z) : Prop :=
  match pinned with Some p => h = cat_head p | None => cat_head c = h /\ cat_head c' = h end.

Lemma between_steady pinned c c' ci h c1 c2 :
  between pinned c1 c2 ci -> cat_head c <= cat_head c1 -> cat_head c2 <= cat_head c' -> steady pinned c c' h -> cat_head ci = h.
Proof. destruct pinned as [p|]; cbn; [by intros -> _ _ ->|lia]. Qed.

Lemma wp_try_read {A} pinned (g : Cat -> result A) Q c :
  (forall c' ci, cat_head c <= cat_head c' -> between pinned c c' ci -> Q c' (Ok (g ci))) -> wp (try_read pinned g) Q c.
Proof.
  intros HQ. destruct pinned as [p|]; cbn; [by apply (HQ c p)|]. intros c' s Hc Hi Hb.
  split_and!; [done|apply keeps_refl|]. apply HQ; cbn; [done|lia].
Qed.

Lemma wp_read {A} pinned (g : Cat -> result A) Q c :
  (forall c' ci, cat_head c <= cat_head c' -> between pinned c c' ci -> Q c' (g ci)) -> wp (read pinned g) Q c.
Proof. intros HQ. apply wp_bind, wp_try_read. intros c' ci Hc Hb. by apply HQ. Qed.

(** A critical section on the memo. *)
Lemma memo_inv c s m : inv c s -> memo_ok (cat_head c) m -> inv c (with_memo m s).
Proof. intros [Hm Hb Hl Hp] Hm'. by split. Qed.

Lemma wp_locked {A} (f : MemoState -> A * MemoState) Q c :
  (forall c' m, cat_head c <= cat_head c' -> memo_ok (cat_head c') m ->
     memo_ok (cat_head c') (f m).2 /\ Q c' (Ok (f m).1)) -> wp (locked f) Q c.
Proof.
  intros Hf. cbn. intros c' s Hc Hi Hb. destruct (Hf c' (sh_memo s) Hc (in_memo _ _ Hi)) as [Hm HQ].
  destruct (f (sh_memo s)) as [a m]. cbn in *. split_and!; [by apply memo_inv|done|done].
Qed.

(** *** Columns and inlined rows *)

Lemma note_columns_ok h table snapshot cols m : memo_ok h m -> memo_ok h (note_columns table snapshot cols m).
Proof. by intros []. Qed.

Lemma wp_columns pinned table snapshot Q c :
  (forall c' r, cat_head c <= cat_head c' -> Q c' r) -> wp (columns pinned table snapshot) Q c.
Proof.
  intros HQ. unfold columns. apply wp_bind, wp_locked. intros c1 m Hc1 Hm. split; [done|].
  destruct (match ms_columns m !! table with Some _ => _ | None => _ end); cbn [fst]; [by apply HQ|].
  apply wp_bind, wp_read. intros c2 ci Hc2 _. destruct (get_table_structure table snapshot ci) as [cols|e]; [|apply HQ; lia].
  apply wp_bind, wp_locked. intros c3 m3 Hc3 Hm3. split; [by apply note_columns_ok|]. apply HQ. lia.
Qed.

Lemma raise_absent_ok h table snapshot cols batches through next c m :
  memo_ok h m -> scan_inlined_data_noting_absence table snapshot cols c = Ok (batches, Some through, next) -> cat_head c <= h ->
  memo_ok h (raise_absent table through m).
Proof.
  intros [Hh Ht Hb Hbu Ha] Hs Hc. split; [done..|]. cbn. intros table' through' Hl h' snapshot' cols' Hh' Hsn.
  destruct (decide (table' = table)) as [->|Hne]; [|rewrite lookup_insert_ne in Hl by done; by eapply Ha].
  rewrite lookup_insert_eq in Hl. injection Hl as <-.
  assert (Hnew : snapshot' <= through -> no_rows (batches_at table snapshot' cols' h') /\ no_visible (visible_at table snapshot' cols' h')).
  { intros Hle. destruct Hh' as [Hh'|Hback]; [|by eapply Hback]. eapply absence_stays; [exact Hs|lia|done]. }
  destruct (ms_inlined_absent_through m !! table) as [old|] eqn:Eo; cbn in Hsn; [|apply Hnew; lia].
  destruct (decide (snapshot' <= through)); [by apply Hnew|]. apply (Ha table old Eo h' snapshot' cols' Hh'). lia.
Qed.

(** What a fill of the inlined rows has read, at a steady head. *)
Record rows_shown (h : Z) (table snapshot : Z) (cols : Columns) (r : FillInlined) : Prop := {
  rs_rows : same_rows (fi_rows r) (batches_at table snapshot cols h);
  rs_visible : forall rows, fi_visible_rows r = Some rows -> same_visible rows (visible_at table snapshot cols h);
}.
Definition inlined_bytes (r : FillInlined) : Z :=
  total get_array_memory_size (fi_rows r) + total inlined_rows_bytes (default [] (fi_visible_rows r)).

Lemma total_nonneg {A} (f : A -> Z) l : (forall a, 0 <= f a) -> 0 <= total f l.
Proof. intros Hf. unfold total. induction l as [|a l IH]; cbn; [lia|]. specialize (Hf a). lia. Qed.

Lemma usize_add_within a b : usize_add a b <= max_bytes -> usize_add a b = a + b.
Proof using Hmax. unfold usize_add. lia. Qed.

(** A pinned state is of the past. *)
Definition pin_ok (pinned : option Cat) (c : Cat) : Prop :=
  match pinned with Some p => cat_head p <= cat_head c /\ absence_reaches_back | None => True end.

Lemma absent_shown pinned table snapshot cols batches through next c1 c2 ci cs ce h :
  scan_inlined_data_noting_absence table snapshot cols ci = Ok (batches, Some through, next) -> snapshot <= through ->
  pin_ok pinned cs -> between pinned c1 c2 ci -> cat_head cs <= cat_head c1 -> cat_head c2 <= cat_head ce -> steady pinned cs ce h ->
  no_visible (visible_at table snapshot cols h).
Proof.
  intros Es Hle Hp Hb H1 H2 Hst. destruct pinned as [p|]; cbn in *.
  - destruct Hp as [_ Hback]. by eapply Hback.
  - eapply absence_stays; [exact Es|lia|done].
Qed.

Lemma wp_fill_visible pinned table snapshot cols batches absent next c1 c2 ci Q c cs :
  scan_inlined_data_noting_absence table snapshot cols ci = Ok (batches, absent, next) ->
  pin_ok pinned cs -> between pinned c1 c2 ci -> cat_head cs <= cat_head c1 -> cat_head c1 <= cat_head c2 -> cat_head c2 <= cat_head c ->
  (forall c' visible, cat_head c <= cat_head c' ->
     (forall ce h rows, cat_head c' <= cat_head ce -> steady pinned cs ce h -> visible = Some rows ->
        same_visible rows (visible_at table snapshot cols h)) -> Q c' (Ok visible)) ->
  wp (fill_visible pinned table snapshot cols absent) Q c.
Proof.
  intros Es Hp Hb Hx0 Hx1 Hx2 HQ. unfold fill_visible. destruct (match absent with Some through => snapshot <=? through | None => false end) eqn:E.
  - apply HQ; [done|]. intros ce h rows Hce Hst [= <-]. right. split; [constructor|]. destruct absent as [through|]; [|done].
    apply Z.leb_le in E. eapply (absent_shown _ _ _ _ _ _ _ c1 c2 ci cs ce); [done..|lia|done].
  - apply wp_bind, wp_try_read. intros c3 cj Hc3 Hcj. apply HQ; [done|]. intros ce h rows Hce Hst Hrows.
    destruct (read_inlined_rows table snapshot cols cj) as [rows'|] eqn:Er; [|done]. injection Hrows as ->. left.
    rewrite (visible_read _ _ _ _ _ Er). f_equal. eapply (between_steady pinned cs ce cj h c c3); [done|lia|done|done].
Qed.

Definition fill_inlined_post (pinned : option Cat) (table snapshot : Z) (cols : Columns) (bytes : Z) (cs : Cat)
  (c' : Cat) (r : result (option (FillInlined * Z))) : Prop :=
  match r with
  | Ok (Some (filled, bytes')) => bytes' = bytes + inlined_bytes filled
      /\ forall ce h, cat_head c' <= cat_head ce -> steady pinned cs ce h -> rows_shown h table snapshot cols filled
  | _ => True
  end.

Lemma wp_fill_rows pinned table snapshot cols bytes batches absent next c1 c2 ci c cs :
  scan_inlined_data_noting_absence table snapshot cols ci = Ok (batches, absent, next) ->
  pin_ok pinned cs -> between pinned c1 c2 ci -> cat_head cs <= cat_head c1 -> cat_head c1 <= cat_head c2 -> cat_head c2 <= cat_head c ->
  wp (fill_rows max_bytes pinned table snapshot cols bytes batches absent next)
    (fill_inlined_post pinned table snapshot cols bytes cs) c.
Proof using Hmax.
  intros Es Hp Hb Hx0 Hx1 Hx2. unfold fill_rows. cbv zeta. destruct (Z.ltb_spec max_bytes (usize_add bytes (total get_array_memory_size batches))) as [|Hb1]; [done|].
  apply wp_bind. eapply wp_fill_visible; [done..|]. intros c' visible Hc' Hv.
  destruct (Z.ltb_spec max_bytes (usize_add (usize_add bytes (total get_array_memory_size batches)) (total inlined_rows_bytes (default [] visible)))) as [|Hb2]; [done|].
  cbn [wp fill_inlined_post]. rewrite (usize_add_within _ _ Hb2), (usize_add_within _ _ Hb1). split; [unfold inlined_bytes; cbn [fi_rows fi_visible_rows]; lia|].
  intros ce h Hce Hst. split; cbn; [|intros rows Hrows; by eapply Hv].
  left. rewrite (batches_read _ _ _ _ _ _ _ Es). f_equal. eapply (between_steady pinned cs ce ci h c1 c2); [done|lia|lia|done].
Qed.

Lemma wp_fill_inlined pinned table snapshot cols bytes c cs :
  cat_head cs <= cat_head c -> pin_ok pinned cs ->
  wp (fill_inlined max_bytes pinned table snapshot cols bytes) (fill_inlined_post pinned table snapshot cols bytes cs) c.
Proof using Hmax.
  intros Hcs Hp. unfold fill_inlined. apply wp_bind, wp_locked. intros c1 m Hc1 Hm. split; [done|]. cbn [fst].
  destruct (known_absent table snapshot m) as [through|] eqn:Ek.
  - unfold known_absent in Ek. destruct (ms_inlined_absent_through m !! table) as [t|] eqn:Et; [|done].
    destruct (Z.leb_spec snapshot t); [|done]. injection Ek as ->. cbn [wp fill_inlined_post]. split; [unfold inlined_bytes, total; cbn; lia|]. intros ce h Hce Hst.
    destruct (mo_absent _ _ Hm table through Et h snapshot cols) as [Hr Hv]; [|done|].
    + destruct pinned as [p|]; cbn in Hst, Hp; [right; apply Hp|left; lia].
    + split; cbn; [right; split; [constructor|done]|]. intros rows [= <-]. right. split; [constructor|done].
  - apply wp_bind, wp_read. intros c2 ci Hc2 Hci.
    destruct (scan_inlined_data_noting_absence table snapshot cols ci) as [[[batches absent] next]|e] eqn:Es; [|done].
    apply wp_bind, wp_locked. intros c3 m3 Hc3 Hm3. split.
    + destruct absent as [through|]; [|done]. eapply raise_absent_ok; [done|exact Es|].
      destruct pinned as [p|]; cbn in Hci, Hp; [subst ci|]; lia.
    + eapply (wp_fill_rows _ _ _ _ _ _ _ _ c1 c2 ci); [done|done|done|lia|done|done].
Qed.



(** *** The listing *)

Definition rest (listing : list FileMetadata) (after : option Z) : list FileMetadata :=
  match after with Some a => drop_while (fun file => data_file_id file <=? a) listing | None => listing end.

Lemma drop_while_app {A} (p : A -> bool) a b :
  Forall (fun x => p x = true) a -> match b with x :: _ => p x = false | [] => True end -> drop_while p (a ++ b) = b.
Proof. intros Ha Hb. induction Ha as [|x a Hx _ IH]; cbn; [destruct b as [|x b]; cbn; [done|by rewrite Hb]|by rewrite Hx]. Qed.

Lemma drop_while_suffix {A} (p : A -> bool) l : exists a, l = a ++ drop_while p l.
Proof. induction l as [|x l [a IH]]; [by exists []|]. cbn. destruct (p x); [exists (x :: a); cbn; by f_equal|by exists []]. Qed.

Lemma sorted_split (a b : list FileMetadata) :
  StronglySorted (fun f g => data_file_id f < data_file_id g) (a ++ b) ->
  forall f g, f ∈ a -> g ∈ b -> data_file_id f < data_file_id g.
Proof.
  induction a as [|x a IH]; cbn; [intros _ f g Hf; by apply elem_of_nil in Hf|]. intros [Hs Hx]%StronglySorted_inv f g [->|Hf]%elem_of_cons Hg.
  - rewrite Forall_forall in Hx. apply Hx, elem_of_app. by right.
  - by apply IH.
Qed.

Lemma last_elem_of {A} (l : list A) x : last l = Some x -> exists a, l = a ++ [x].
Proof. intros Hl. apply last_Some in Hl as [a ->]. by exists a. Qed.

Lemma rest_next listing after n f :
  StronglySorted (fun f g => data_file_id f < data_file_id g) listing -> last (take n (rest listing after)) = Some f ->
  rest listing (Some (data_file_id f)) = drop n (rest listing after).
Proof.
  intros Hs Hl. assert (Hpre : exists pre, listing = pre ++ rest listing after).
  { destruct after; [apply drop_while_suffix|by exists []]. }
  destruct Hpre as [pre Hpre]. apply last_elem_of in Hl as [p Hp].
  pose proof (take_drop n (rest listing after)) as Htd. rewrite Hp in Htd.
  set (tail := drop n (rest listing after)) in *. rewrite <- Htd in Hpre. rewrite app_assoc in Hpre. cbn [rest].
  rewrite Hpre in Hs |- *. apply drop_while_app.
  - apply Forall_forall. intros g Hg. apply Z.leb_le. rewrite app_assoc, !elem_of_app, list_elem_of_singleton in Hg.
    rewrite <- app_assoc, <- app_assoc, app_assoc in Hs.
    destruct Hg as [Hg| ->]; [|lia]. pose proof (sorted_split _ _ Hs g f) as Hlt.
    rewrite elem_of_app in Hlt. specialize (Hlt Hg). apply Z.lt_le_incl, Hlt. apply elem_of_app. left. by left.
  - destruct tail as [|g tail]; [done|]. apply Z.leb_gt. apply (sorted_split _ _ Hs f g); [|left].
    rewrite !elem_of_app, list_elem_of_singleton. auto.
Qed.

Definition fill_listing_post (pinned : option Cat) (table snapshot : Z) (after : option Z) (acc : list FileMetadata) (bytes : Z) (cs : Cat)
  (c' : Cat) (r : result (FillListing * Z)) : Prop :=
  match r with
  | Ok (Files l, bytes') => bytes' + total file_metadata_bytes acc = bytes + total file_metadata_bytes l
      /\ forall ce h, cat_head c' <= cat_head ce -> steady pinned cs ce h ->
         acc ++ rest (listing_at table snapshot h) after = listing_at table snapshot h -> l = listing_at table snapshot h
  | _ => True
  end.

Lemma total_app {A} (f : A -> Z) a b : total f (a ++ b) = total f a + total f b.
Proof. unfold total. induction a as [|x a IH]; cbn; [lia|]. rewrite IH. lia. Qed.

Lemma wp_fill_listing pages pinned table snapshot next : forall after acc bytes c cs,
  cat_head cs <= cat_head c -> pin_ok pinned cs ->
  wp (fill_listing pages max_bytes pinned table snapshot next after acc bytes)
    (fill_listing_post pinned table snapshot after acc bytes cs) c.
Proof using Hmax.
  induction pages as [|pages IH]; intros after acc bytes c cs Hcs Hp; cbn [fill_listing]; [done|].
  apply wp_bind, wp_read. intros c1 ci Hc1 Hci.
  destruct (get_table_file_metadata_page table snapshot after FILE_METADATA_BATCH_SIZE ci) as [page|e] eqn:Epage; [|done].
  apply page_read in Epage.
  assert (Hat : forall ce h, cat_head c1 <= cat_head ce -> steady pinned cs ce h ->
    page = take FILE_METADATA_BATCH_SIZE (rest (listing_at table snapshot h) after)).
  { intros ce h Hce Hst. rewrite <- (between_steady pinned cs ce ci h c c1) by (try done; lia). exact Epage. }
  clear Epage. destruct (last page) as [file|] eqn:El.
  2: { split; [done|]. intros ce h Hce Hst Hacc. apply last_None in El as ->. specialize (Hat ce h Hce Hst).
       rewrite <- Hacc. destruct (rest (listing_at table snapshot h) after) as [|f l]; [by rewrite app_nil_r|].
       apply (f_equal length) in Hat. rewrite length_take in Hat. cbn [length] in Hat. unfold FILE_METADATA_BATCH_SIZE in Hat. lia. }
  destruct (_ || _); [done|]. destruct (written_since page next); [done|].
  destruct (Z.ltb_spec max_bytes (usize_add bytes (total file_metadata_bytes page))) as [|Hb]; [done|].
  rewrite (usize_add_within _ _ Hb). destruct (Nat.ltb_spec (length page) FILE_METADATA_BATCH_SIZE) as [Hlt|Hge].
  - split; [rewrite total_app; lia|]. intros ce h Hce Hst Hacc. rewrite <- Hacc. f_equal. rewrite (Hat ce h Hce Hst) in *.
    apply take_ge. rewrite length_take in Hlt. lia.
  - eapply wp_mono; [|apply (IH (Some (data_file_id file)) (acc ++ page) (bytes + total file_metadata_bytes page) c1 cs); [lia|done]].
    intros c2 r Hc2 Hpost. destruct r as [[[l| |] bytes']|e]; [|done..]. destruct Hpost as [Hbytes Hl]. rewrite total_app in Hbytes.
    split; [lia|]. intros ce h Hce Hst Hacc. apply (Hl ce h Hce Hst).
    assert (Hpage := Hat ce h ltac:(lia) Hst). rewrite Hpage in El.
    rewrite (rest_next _ _ _ _ (listing_ordered table snapshot h) El), Hpage, <- app_assoc, take_drop. exact Hacc.
Qed.

(** *** A fill *)

Definition fill_post (pinned : option Cat) (table snapshot : Z) (cs c' : Cat) (r : result (option (TableReads * Z))) : Prop :=
  match r with
  | Ok (Some (reads, bytes)) => bytes = reads_bytes reads
      /\ forall ce h, cat_head c' <= cat_head ce -> steady pinned cs ce h -> shows h table snapshot reads
  | _ => True
  end.

Lemma wp_fill_attempts attempts pages pinned table snapshot cols deletes cs : forall c,
  cat_head cs <= cat_head c -> pin_ok pinned cs ->
  (forall ce h, cat_head c <= cat_head ce -> steady pinned cs ce h -> deletes = deletes_at table snapshot h) ->
  wp (fill_attempts attempts pages max_bytes pinned table snapshot cols deletes (Z.of_nat (length deletes) * delete_bytes))
    (fill_post pinned table snapshot cs) c.
Proof using Hmax.
  induction attempts as [|attempts IH]; intros c Hcs Hp Hd; cbn [fill_attempts]; [done|].
  apply wp_bind. eapply wp_mono; [|by apply (wp_fill_inlined pinned _ _ _ _ c cs)].
  intros c1 [[[inlined bytes]|]|e] Hc1 Hpost; [|done..]. destruct Hpost as [-> Hrows].
  apply wp_bind. eapply wp_mono; [|apply (wp_fill_listing pages pinned _ _ _ None [] _ c1 cs); [lia|done]].
  intros c2 [[[listing| |] bytes]|e] Hc2 Hlist; [| |done..].
  - destruct Hlist as [Hb Hl]. split.
    { change (total file_metadata_bytes []) with 0 in Hb. unfold reads_bytes, inlined_bytes in *.
      cbn [tr_inlined_deletes tr_inlined_rows tr_visible_rows tr_listing]. lia. }
    intros ce h Hce Hst.
    destruct (Hrows ce h ltac:(lia) Hst) as [Hr Hv]. split; cbn; [apply (Hd ce h); [lia|done]|by apply (Hl ce h)|done|done].
  - apply IH; [lia|done|]. intros ce h Hce Hst. apply (Hd ce h); [lia|done].
Qed.

Lemma wp_fill_from b pinned table snapshot c :
  bd_max_bytes b = max_bytes -> pin_ok pinned c -> wp (fill_from b pinned table snapshot) (fill_post pinned table snapshot c) c.
Proof using Hmax.
  intros Hbm Hp. unfold fill_from. apply wp_bind, wp_read. intros c1 ci Hc1 Hci.
  destruct (get_inlined_deletes table snapshot ci) as [deletes|e] eqn:Ed; [|done]. rewrite Hbm.
  destruct (max_bytes <? _); [done|]. apply wp_bind, wp_columns. intros c2 [cols|e] Hc2; [|done].
  apply wp_fill_attempts; [lia|done|]. intros ce h Hce Hst. rewrite (deletes_read _ _ _ _ Ed). f_equal.
  eapply (between_steady pinned c ce ci h c c1); [done|lia|lia|done].
Qed.

(** A pinned state of a query: begun since its bind. *)
Definition pinned_since (pinned : option Cat) (c : Cat) : Prop :=
  match pinned with
  | Some p => begin_consistent_read p = Ok true /\ cat_head c0 <= cat_head p <= cat_head c
  | None => True
  end.

Lemma pinned_since_ok pinned c : pinned_since pinned c -> pin_ok pinned c.
Proof using Hrace. destruct pinned as [p|]; cbn; [|done]. intros [Hb Hh]. split; [lia|]. destruct Hrace as [Hn|?]; [by destruct (Hn p)|done]. Qed.

Lemma lazy_inv scan lazy c s :
  inv c s -> sh_bound s !! q = Some c0 ->
  (forall p, lazy = Open p -> begin_consistent_read p = Ok true /\ cat_head c0 <= cat_head p <= cat_head c) ->
  inv c (with_lazy q scan lazy s).
Proof.
  intros [Hm Hb Hl Hp] Hq Ho. split; [done..| |done]. cbn. intros q' scan' p.
  destruct (decide ((q', scan') = (q, scan))) as [[= -> ->]|Hne].
  - rewrite lookup_insert_eq. intros [= ->]. destruct (Ho p eq_refl). split; [done|]. by exists c0.
  - rewrite lookup_insert_ne by done. apply Hl.
Qed.

Lemma wp_reader scan Q c :
  (forall c' r, cat_head c <= cat_head c' -> match r with Ok pinned => pinned_since pinned c' | Err _ => True end -> Q c' r) ->
  wp (reader q scan) Q c.
Proof.
  intros HQ. destruct scan as [scan|]; cbn; [|by apply HQ]. intros c' s Hc Hi Hb.
  pose proof (in_bound _ _ Hi q c0 Hb) as H0c.
  destruct (default NotBegun (sh_lazy s !! (q, scan))) as [|p| |] eqn:El; cbn.
  - destruct (begin_consistent_read c') as [begun|e] eqn:Eb; cbn; [|split_and!; [done|done|by apply HQ]].
    split_and!; [|done|apply HQ; [done|]; by destruct begun].
    apply lazy_inv; [done..|]. intros p Hp. destruct begun; [|done]. by injection Hp as <-.
  - split_and!; [done|done|]. apply HQ; [done|]. destruct (sh_lazy s !! (q, scan)) as [l|] eqn:El'; [|done]. cbn in El. subst l.
    destruct (in_lazy _ _ Hi q scan p El') as (Hbeg & c0' & Hb' & Hh). replace c0' with c0 in Hh by congruence. done.
  - split_and!; [done|done|]. by apply HQ.
  - split_and!; [done|done|]. by apply HQ.
Qed.

Lemma wp_read_consistently {A} pinned (body : option Cat -> Prog A) Q c :
  pinned_since pinned c ->
  (forall c' e, cat_head c <= cat_head c' -> Q c' (Err e)) ->
  (forall pinned' c', cat_head c <= cat_head c' -> pinned_since pinned' c' -> (pins -> pinned' <> None) -> wp (body pinned') Q c') ->
  wp (read_consistently pinned body) Q c.
Proof.
  intros Hp Herr Hbody. destruct pinned as [p|]; cbn [read_consistently]; [by apply (Hbody (Some p))|].
  apply wp_bind. cbn. intros c1 s Hc1 Hi Hb. split_and!; [done|done|]. pose proof (in_bound _ _ Hi q c0 Hb) as H0c.
  destruct (begin_consistent_read c1) as [[|]|e] eqn:Eb; cbn.
  - apply wp_bind. eapply wp_mono; [|apply (Hbody (Some c1)); [done|by cbn|done]]. intros c2 [a|e] Hc2 HQ; [|done].
    destruct (end_consistent_read c1) as [[]|e]; cbn; [done|apply Herr; lia].
  - apply Hbody; [done|done|]. intros Hpins. by destruct (Hpins c1).
  - by apply Herr.
Qed.

Definition filled_post (table snapshot : Z) (c' : Cat) (r : result (option (TableReads * Z * bool))) : Prop :=
  match r with
  | Ok (Some (reads, bytes, unmoved)) => bytes = reads_bytes reads
      /\ (unmoved = true -> shows (cat_head c0) table snapshot reads)
      /\ (pins -> exists h, cat_head c0 <= h <= cat_head c' /\ shows h table snapshot reads)
  | _ => True
  end.

Lemma wp_fill b table snapshot c :
  bd_max_bytes b = max_bytes -> bd_query b = q -> bd_head b = cat_head c0 -> cat_head c0 <= cat_head c ->
  wp (fill b table snapshot) (filled_post table snapshot) c.
Proof using Hmax Hrace.
  intros Hbm Hbq Hbh H0c. unfold fill. rewrite Hbq. apply wp_bind, wp_reader. intros c1 [pinned|e] Hc1 Hp; [|done].
  apply wp_read_consistently; [done|done|]. intros pinned' c2 Hc2 Hp' Hpins. apply wp_bind.
  eapply wp_mono; [|apply wp_fill_from; [done|by apply pinned_since_ok]].
  intros c3 [[[reads bytes]|]|e] Hc3 Hpost; [|done..]. destruct Hpost as [-> Hsh].
  apply wp_bind, wp_try_read. intros c4 ci Hc4 Hci. cbn. split_and!; [done| |].
  - destruct (get_current_snapshot ci) as [h|] eqn:Eh; [|done]. intros ->%Z.eqb_eq. apply head_read in Eh. rewrite Hbh in Eh.
    rewrite Eh. destruct pinned' as [p|]; cbn in *.
    + subst ci. by apply (Hsh c3).
    + apply (Hsh ci); lia.
  - intros Hpin. destruct pinned' as [p|]; [|by destruct (Hpins Hpin)]. exists (cat_head p). cbn in Hp'. split; [lia|]. by apply (Hsh c3).
Qed.

(** *** Picking *)

Lemma total_perm {A} (f : A -> Z) l k : l ≡ₚ k -> total f l = total f k.
Proof. unfold total. induction 1; cbn; lia. Qed.

Lemma tables_bytes_insert key reads tables :
  tables !! key = None -> tables_bytes (<[key := reads]> tables) = tables_bytes tables + reads_bytes reads.
Proof. intros Hn. unfold tables_bytes. rewrite (total_perm _ _ _ (map_to_list_insert _ _ _ Hn)). unfold total. cbn. lia. Qed.

Definition pick_post (table snapshot : Z) (c' : Cat) (r : result (option TableReads)) : Prop :=
  match r with
  | Ok (Some reads) => pins -> exists h, cat_head c0 <= h <= cat_head c' /\ shows h table snapshot reads
  | _ => True
  end.

Lemma keep_ok b table snapshot reads bytes unmoved h m :
  bd_max_bytes b = max_bytes -> bd_head b = cat_head c0 -> memo_ok h m -> bytes = reads_bytes reads ->
  (unmoved = true -> shows (cat_head c0) table snapshot reads) ->
  memo_ok h (keep b table snapshot reads bytes unmoved m).2
  /\ (shows (cat_head c0) table snapshot (keep b table snapshot reads bytes unmoved m).1
      \/ (keep b table snapshot reads bytes unmoved m).1 = reads).
Proof using Hmax.
  intros Hbm Hbh Hm -> Hsh. unfold keep. case_bool_decide as Hh; [|by auto].
  destruct (ms_tables m !! (table, snapshot)) as [kept|] eqn:Et; cbn.
  { split; [done|]. left. destruct (mo_tables _ _ Hm _ _ Et) as (k & Hk & Hs). rewrite Hh in Hk. injection Hk as <-. by rewrite <- Hbh. }
  split; [|by right]. destruct unmoved; [|done]. destruct (Z.leb_spec (usize_add (ms_bytes m) (reads_bytes reads)) (bd_max_bytes b)) as [Hle|].
  - rewrite Hbm in Hle. rewrite (usize_add_within _ _ Hle) in Hle. destruct Hm as [Hmh Hmt Hmb Hmu Hma]. split; cbn; [done| | |lia|done].
    + intros key r Hk. destruct (decide (key = (table, snapshot))) as [->|Hne].
      * rewrite lookup_insert_eq in Hk. injection Hk as <-. exists (bd_head b). split; [done|]. rewrite Hbh. by apply Hsh.
      * rewrite lookup_insert_ne in Hk by done. by apply Hmt.
    + rewrite tables_bytes_insert by done. by rewrite Hmb.
  - destruct Hm as [Hmh Hmt Hmb Hmu Hma]. by split.
Qed.

Lemma wp_pick b table snapshot c :
  bd_max_bytes b = max_bytes -> bd_query b = q -> bd_head b = cat_head c0 -> cat_head c0 <= cat_head c ->
  wp (pick b table snapshot) (pick_post table snapshot) c.
Proof using Hmax Hrace.
  intros Hbm Hbq Hbh H0c. unfold pick. apply wp_bind, wp_locked. intros c1 m Hc1 Hm. split; [done|]. cbn [fst].
  destruct (look_up b table snapshot m) as [answer|] eqn:El.
  - destruct answer as [reads|]; [|done]. intros _. exists (cat_head c0). split; [lia|]. unfold look_up in El.
    case_bool_decide; [done|]. case_bool_decide as Hh; [|done]. destruct (ms_tables m !! (table, snapshot)) as [kept|] eqn:Et.
    + injection El as ->. destruct (mo_tables _ _ Hm _ _ Et) as (k & Hk & Hs). rewrite Hh in Hk. injection Hk as <-. by rewrite <- Hbh.
    + by case_bool_decide.
  - apply wp_bind. eapply wp_mono; [|apply (wp_fill b); [done..|lia]].
    intros c2 [[[[reads bytes] unmoved]|]|e] Hc2 Hpost; [| |done].
    + destruct Hpost as (Hb & Hu & Hpin). apply wp_bind, wp_locked. intros c3 m3 Hc3 Hm3.
      destruct (keep_ok b table snapshot reads bytes unmoved _ m3 Hbm Hbh Hm3 Hb Hu) as [Hk [Hs|Hs]]; (split; [done|]); cbn; intros Hpins.
      * exists (cat_head c0). split; [lia|done].
      * rewrite Hs. destruct (Hpin Hpins) as (h & Hh & ?). exists h. split; [lia|done].
    + apply wp_bind, wp_locked. intros c3 m3 Hc3 Hm3. split; [|done]. by destruct Hm3.
Qed.

Lemma picked_grows query picked s :
  picked_of query s ⊆ picked -> keeps s (with_picked query picked s).
Proof.
  intros Hs. split; [done|]. intros q'. unfold picked_of, with_picked. cbn. destruct (decide (q' = query)) as [->|Hne].
  - by rewrite lookup_insert_eq.
  - by rewrite lookup_insert_ne.
Qed.

Lemma wp_table_reads b table snapshot c :
  bd_max_bytes b = max_bytes -> bd_query b = q -> bd_head b = cat_head c0 -> cat_head c0 <= cat_head c ->
  wp (table_reads b table snapshot) (pick_post table snapshot) c.
Proof using Hmax Hrace.
  intros Hbm Hbq Hbh H0c. unfold table_reads. rewrite Hbq.
  assert (Hgot : forall c' s r, inv c' s -> sh_bound s !! q = Some c0 -> picked_of q s !! (table, snapshot) = Some r ->
    pick_post table snapshot c' (Ok r)).
  { intros c' s [reads|] Hi Hb Hr; [|done]. intros Hpins. destruct (in_picked _ _ Hi q table snapshot reads Hr Hpins) as (c0' & h & Hb' & Hh & Hs).
    replace c0' with c0 in Hh by congruence. by exists h. }
  apply wp_bind. cbn [wp]. intros c1 s Hc1 Hi Hb. split_and!; [done|done|]. cbn [fst snd].
  destruct (picked_of q s !! (table, snapshot)) as [r|] eqn:Er; [by eapply Hgot|].
  apply wp_bind. eapply wp_mono; [|apply (wp_pick b); [done..|lia]]. intros c2 [reads|e] Hc2 Hpost; [|done].
  cbn. intros c3 s3 Hc3 Hi3 Hb3. destruct (picked_of q s3 !! (table, snapshot)) as [r|] eqn:Er3; cbn.
  - split_and!; [done|done|by eapply Hgot].
  - assert (Hpost3 : pick_post table snapshot c3 (Ok reads)).
    { destruct reads as [reads|]; [|done]. intros Hpins. destruct (Hpost Hpins) as (h & Hh & Hs). exists h. split; [lia|done]. }
    split_and!; [|apply picked_grows; by apply insert_subseteq|done].
    destruct Hi3 as [Hm Hbd Hl Hp]. split; [done..|]. intros q' table' snapshot' r. unfold picked_of, with_picked. cbn.
    destruct (decide (q' = q)) as [->|Hne]; [|rewrite lookup_insert_ne by done; apply Hp].
    rewrite lookup_insert_eq. cbn. destruct (decide ((table', snapshot') = (table, snapshot))) as [[= -> ->]|Hne].
    + rewrite lookup_insert_eq. intros [= ->] Hpins. destruct (Hpost3 Hpins) as (h & Hh & Hs). by exists c0, h.
    + rewrite lookup_insert_ne by done. apply Hp.
Qed.

(** *** The calls a bound provider serves *)

Lemma rebind_ok head h m : memo_ok h m -> head <= h -> memo_ok h (rebind head m).
Proof using Hmax.
  intros [Hmh Hmt Hmb Hmu Hma] Hle. unfold rebind. destruct (match ms_head m with None => true | Some kept => kept <? head end); [|by split].
  split; cbn; [by intros kept [= <-]|done|done|lia|done].
Qed.

(** What an answer shows of the catalog at a head. *)
Definition answers (h : Z) (call : Call) (answer : Answer) : Prop :=
  match call, answer with
  | Page table snapshot after limit, Listed page => page = listing_page (listing_at table snapshot h) after limit
  | Deletes table snapshot, Deleted deletes => deletes = deletes_at table snapshot h
  | Scan table snapshot cols, Scanned batches _ _ => same_rows batches (batches_at table snapshot cols h)
  | Rows table snapshot cols, Visible rows => same_visible rows (visible_at table snapshot cols h)
  | End, Done => True
  | _, _ => False
  end.
Definition answered (call : Call) (c' : Cat) (r : result Answer) : Prop :=
  match r with
  | Ok answer => pins -> exists h, cat_head c0 <= h <= cat_head c' /\ answers h call answer
  | Err _ => True
  end.

Lemma answered_later call c c' r : cat_head c <= cat_head c' -> answered call c r -> answered call c' r.
Proof. intros Hc. destruct r as [a|e]; [|done]. intros Hr Hp. destruct (Hr Hp) as (h & Hh & Ha). exists h. split; [lia|done]. Qed.

(** A read through the provider, not the memo: it shows the head it reads at. *)
Lemma wp_through {A} scan (g : Cat -> result A) (mk : A -> Answer) call c :
  cat_head c0 <= cat_head c ->
  (forall ci a, g ci = Ok a -> answers (cat_head ci) call (mk a)) ->
  wp (prog_bind (prog_bind (reader q scan) (fun pinned => read pinned g)) (fun a => Return (Ok (mk a)))) (answered call) c.
Proof.
  intros H0c Hg. apply wp_bind, wp_bind, wp_reader. intros c1 [pinned|e] Hc1 Hp; [|done].
  apply wp_read. intros c2 ci Hc2 Hci. destruct (g ci) as [a|e] eqn:Eg; [|done]. intros _. exists (cat_head ci).
  split; [destruct pinned as [p|]; cbn in Hp, Hci; [subst ci|]; lia|by apply Hg].
Qed.

Lemma wp_unbind {A B} (m : Prog A) (k : A -> Prog B) Q c :
  wp (prog_bind m k) Q c -> wp m (fun c' r => match r with Ok a => wp (k a) Q c' | Err e => Q c' (Err e) end) c.
Proof.
  revert c. induction m as [r|C f next IH]; intros c Hm; cbn in *; [by destruct r|].
  intros c' s Hc Hi Hb. destruct (Hm c' s Hc Hi Hb) as (? & ? & ?). split_and!; [done..|]. by apply IH.
Qed.

(** A call that takes the reads of a table first. *)
Lemma wp_on_reads {A} b table snapshot (k : option TableReads -> Prog A) (mk : A -> Answer) call c :
  bd_max_bytes b = max_bytes -> bd_query b = q -> bd_head b = cat_head c0 -> cat_head c0 <= cat_head c ->
  (forall c' reads, cat_head c <= cat_head c' -> pick_post table snapshot c' (Ok reads) ->
     wp (prog_bind (k reads) (fun a => Return (Ok (mk a)))) (answered call) c') ->
  wp (prog_bind (prog_bind (table_reads b table snapshot) k) (fun a => Return (Ok (mk a)))) (answered call) c.
Proof using Hmax Hrace.
  intros Hbm Hbq Hbh H0c Hk. apply wp_bind, wp_bind. eapply wp_mono; [|by apply (wp_table_reads b)].
  intros c1 [reads|e] Hc1 Hpost; [|done]. by apply wp_unbind, Hk.
Qed.

Lemma wp_serve b call c :
  bd_max_bytes b = max_bytes -> bd_query b = q -> bd_head b = cat_head c0 -> cat_head c0 <= cat_head c ->
  wp (serve b call) (answered call) c.
Proof using Hmax Hrace.
  intros Hbm Hbq Hbh H0c. destruct call as [table snapshot after limit|table snapshot|table snapshot cols|table snapshot cols|]; cbn [serve].
  - apply wp_on_reads; [done..|]. intros c1 [reads|] Hc1 Hpost; [|rewrite Hbq; apply wp_through; [lia|by intros ci a ->%page_read]].
    intros Hpins. destruct (Hpost Hpins) as (h & Hh & Hs). exists h. split; [done|]. cbn. by rewrite (sw_listing _ _ _ _ Hs).
  - apply wp_on_reads; [done..|]. intros c1 [reads|] Hc1 Hpost; [|rewrite Hbq; apply wp_through; [lia|by intros ci a ->%deletes_read]].
    intros Hpins. destruct (Hpost Hpins) as (h & Hh & Hs). exists h. split; [done|]. cbn. by rewrite (sw_deletes _ _ _ _ Hs).
  - assert (Hread : forall ci a, scan_inlined_data_noting_absence table snapshot cols ci = Ok a ->
      answers (cat_head ci) (Scan table snapshot cols) (let '(batches, absent, next) := a in Scanned batches absent next)).
    { intros ci [[batches absent] next] ->%batches_read. by left. }
    apply (wp_on_reads b table snapshot _ (fun a => let '(batches, absent, next) := a in Scanned batches absent next)); [done..|].
    intros c1 [reads|] Hc1 Hpost; rewrite ?Hbq; [|by apply wp_through; [lia|]].
    case_bool_decide as Hcols; [|].
    + intros Hpins. destruct (Hpost Hpins) as (h & Hh & Hs). exists h. split; [done|]. cbn. rewrite <- Hcols. apply (sw_rows _ _ _ _ Hs).
    + apply wp_bind, wp_bind, wp_locked. intros c2 m Hc2 Hm. split; [by apply note_columns_ok|].
      apply wp_unbind. by apply wp_through; [lia|].
  - assert (Hread : forall ci a, read_inlined_rows table snapshot cols ci = Ok a -> answers (cat_head ci) (Rows table snapshot cols) (Visible a)).
    { intros ci a ->%visible_read. by left. }
    apply wp_on_reads; [done..|]. intros c1 [reads|] Hc1 Hpost; rewrite ?Hbq; [|by apply wp_through; [lia|]].
    case_bool_decide as Hcols.
    + destruct (tr_visible_rows reads) as [rows|] eqn:Ev; [|by apply wp_through; [lia|]].
      intros Hpins. destruct (Hpost Hpins) as (h & Hh & Hs). exists h. split; [done|]. cbn. rewrite <- Hcols. by apply (sw_visible _ _ _ _ Hs).
    + apply wp_bind, wp_bind, wp_locked. intros c2 m Hc2 Hm. split; [by apply note_columns_ok|].
      apply wp_unbind. by apply wp_through; [lia|].
  - rewrite Hbq. destruct (bd_scan b) as [scan|]; [|intros _; exists (cat_head c0); split; [lia|done]].
    apply wp_bind. cbn. intros c1 s Hc1 Hi Hb. pose proof (in_bound _ _ Hi q c0 Hb). split_and!; [by apply lazy_inv|done|].
    destruct (match sh_lazy s !! (q, scan) with Some (Open p) => _ | _ => _ end); [|done]. intros _. exists (cat_head c0). split; [lia|done].
Qed.
End wp.

Lemma wp_later {A} q c0 (m : Prog A) Q c c' :
  (forall c1 c2 r, cat_head c1 <= cat_head c2 -> Q c1 r -> Q c2 r) -> cat_head c <= cat_head c' -> wp q c0 m Q c -> wp q c0 m Q c'.
Proof.
  intros HQ Hc. destruct m as [r|B f k]; cbn; [by apply HQ|]. intros Hm c2 s Hc2. apply Hm. lia.
Qed.

Lemma inv_later c c' s : cat_head c <= cat_head c' -> inv c s -> inv c' s.
Proof.
  intros Hc [[Hh Ht Hb Hbu Ha] Hbd Hl Hp]. split.
  - split; [|done..|].
    + intros kept Hk. specialize (Hh kept Hk). lia.
    + intros table through Hth h' snapshot cols [Hh'|Hback] Hle; [|by eapply Ha; [|right|]]. eapply Ha; [done|left; lia|done].
  - intros q c0 Hq. specialize (Hbd q c0 Hq). lia.
  - intros q scan c1 Hq. destruct (Hl q scan c1 Hq) as (Hbeg & c0 & Hb0 & Hc0). split; [done|]. exists c0. split; [done|lia].
  - intros q table snapshot reads Hr Hpins. destruct (Hp q table snapshot reads Hr Hpins) as (c0 & h & Hb0 & Hh0 & Hs).
    exists c0, h. split_and!; [done|lia|lia|done].
Qed.

(** ** Queries, commits and calls in any order *)

(** What a thread ends with: a bind with the head it read, a call with an answer. *)
Definition ends_with (c0 : Cat) (call : option Call) (c : Cat) (r : result Answer) : Prop :=
  match call with
  | Some call => answered c0 call c r
  | None => match r with Ok (Bound_at head) => head = cat_head c0 | Ok _ => False | Err _ => True end
  end.

Lemma ends_later c0 call c c' r : cat_head c <= cat_head c' -> ends_with c0 call c r -> ends_with c0 call c' r.
Proof. destruct call; [apply answered_later|done]. Qed.

Definition thread_ok (c : Cat) (s : Shared) (t : Thread) : Prop :=
  exists c0, sh_bound s !! th_query t = Some c0 /\ wp (th_query t) c0 (th_prog t) (ends_with c0 (th_call t)) c.
Definition system_ok (y : System) : Prop := inv (sy_cat y) (sy_shared y) /\ Forall (thread_ok (sy_cat y) (sy_shared y)) (sy_threads y).

Lemma thread_ok_later c c' s s' t : cat_head c <= cat_head c' -> keeps s s' -> thread_ok c s t -> thread_ok c' s' t.
Proof.
  intros Hc [Hk _] (c0 & Hb & Hw). exists c0. split; [by eapply lookup_weaken|].
  eapply wp_later; [|done|done]. intros c1 c2 r. apply ends_later.
Qed.

Lemma threads_ok_later c c' s s' ts :
  cat_head c <= cat_head c' -> keeps s s' -> Forall (thread_ok c s) ts -> Forall (thread_ok c' s') ts.
Proof. intros Hc Hk Ht. eapply Forall_impl; [exact Ht|]. intros t. by apply thread_ok_later. Qed.

(** A bind: its first statement, and the rest. *)
Lemma note_bound_keeps q c s : sh_bound s !! q = None -> keeps s (note_bound q c s).
Proof. intros Hq. split; [by apply insert_subseteq|done]. Qed.

Lemma note_bound_inv q c s : inv c s -> sh_bound s !! q = None -> inv c (note_bound q c s).
Proof.
  intros [Hm Hb Hl Hp] Hq. assert (Hup : forall q' c', sh_bound s !! q' = Some c' -> <[q := c]> (sh_bound s) !! q' = Some c').
  { intros q' c' Hc'. rewrite lookup_insert_ne; [done|]. by intros ->; rewrite Hq in Hc'. }
  split; [done|..]; cbn.
  - intros q' c' Hc'. destruct (decide (q' = q)) as [->|Hne]; [|rewrite lookup_insert_ne in Hc' by done; by eapply Hb].
    rewrite lookup_insert_eq in Hc'. injection Hc' as <-. lia.
  - intros q' scan c1 Ho. destruct (Hl q' scan c1 Ho) as (? & c0 & Hc0 & ?). split; [done|]. exists c0. split; [by apply Hup|done].
  - intros q' table snapshot reads Hr Hpins. destruct (Hp q' table snapshot reads Hr Hpins) as (c0 & h & Hc0 & Hs).
    exists c0, h. split; [by apply Hup|done].
Qed.

Lemma wp_bind_at q c c' : cat_head c <= cat_head c' ->
  wp q c (prog_bind (bind_at (get_current_snapshot c)) (fun head => Return (Ok (Bound_at head)))) (ends_with c None) c'.
Proof using Hmax.
  intros Hc. destruct (get_current_snapshot c) as [head|e] eqn:Eh; [|done]. pose proof (head_read _ _ Eh) as ->.
  cbn [bind_at]. apply wp_bind, wp_bind, wp_locked. intros c1 m Hc1 Hm. split; [apply rebind_ok; [done|lia]|done].
Qed.

Lemma step_ok y y' : step max_bytes y y' -> system_ok y -> system_ok y' /\ keeps (sy_shared y) (sy_shared y').
Proof using Hmax Hrace.
  intros Hst [Hi Ht]. destruct Hst as [c c' s ts Hc|q c s ts Hq|q scan call c0 head c s ts Hq Hhead|c s before t after B f k Hprog];
    unfold system_ok; cbn in *.
  - split; [|done]. split; [by eapply inv_later|]. by eapply threads_ok_later.
  - pose proof (note_bound_keeps q c s Hq) as Hk. split; [|done]. split; [by apply note_bound_inv|].
    apply Forall_app. split; [by eapply threads_ok_later; [reflexivity|..]|]. constructor; [|constructor].
    exists c. cbn. rewrite lookup_insert_eq. split; [done|]. by apply wp_bind_at.
  - split; [|done]. split; [done|]. apply Forall_app. split; [done|]. constructor; [|constructor]. exists c0. cbn. split; [done|].
    apply wp_serve; cbn; [done..|by apply head_read|by eapply in_bound].
  - apply Forall_app in Ht as [Hbefore Ht]. inversion Ht as [|? ? (c0 & Hb & Hw) Hafter]. subst. rewrite Hprog in Hw. cbn in Hw.
    destruct (Hw c s ltac:(lia) Hi Hb) as (Hi' & Hk & Hw'). split; [|done]. split; [done|]. apply Forall_app.
    split; [by eapply threads_ok_later; [reflexivity|..]|]. constructor; [|by eapply threads_ok_later; [reflexivity|..]].
    exists c0. split; [destruct Hk as [Hk _]; by eapply lookup_weaken|done].
Qed.

Lemma steps_ok y y' : rtc (step max_bytes) y y' -> system_ok y -> system_ok y' /\ keeps (sy_shared y) (sy_shared y').
Proof using Hmax Hrace.
  induction 1 as [y|y y1 y' Hst _ IH]; [done|]. intros Hy. destruct (step_ok y y1 Hst Hy) as [Hy1 [Hk1 Hp1]].
  destruct (IH Hy1) as [Hy' [Hk2 Hp2]]. split; [done|]. split; [by etrans|]. intros q. by etrans; [apply Hp1|].
Qed.

Lemma initial_ok c : system_ok (initial c).
Proof using Hmax.
  split; [|constructor]. split; cbn; [|done..]. split; cbn; [done|done|done|lia|done].
Qed.

(** ** The fuel of a listing *)

(** Programs that make the same steps. *)
Inductive same_prog {A} : Prog A -> Prog A -> Prop :=
| same_return r : same_prog (Return r) (Return r)
| same_atomic B (f : Cat -> Shared -> B * Shared) k k' : (forall b, same_prog (k b) (k' b)) -> same_prog (Atomic f k) (Atomic f k').

Lemma same_prog_refl {A} (m : Prog A) : same_prog m m.
Proof. induction m; by constructor. Qed.

Lemma same_prog_bind {A B} (m : Prog A) (k k' : A -> Prog B) :
  (forall a, same_prog (k a) (k' a)) -> same_prog (prog_bind m k) (prog_bind m k').
Proof. intros Hk. induction m as [[a|e]|C f next IH]; cbn; [done|constructor|by constructor]. Qed.

Lemma total_length (l : list FileMetadata) : Z.of_nat (length l) <= total file_metadata_bytes l.
Proof.
  destruct sizes_counted as (_ & _ & _ & Hf). induction l as [|f l IH]; [done|]. specialize (Hf f). unfold total in *. cbn [foldr length]. lia.
Qed.

(** More pages than the budget has bytes for are never read. *)
Lemma more_pages_unread pages extra pinned table snapshot next : forall after acc bytes,
  (1 <= pages)%nat -> max_bytes < bytes + Z.of_nat FILE_METADATA_BATCH_SIZE * (Z.of_nat pages - 1) ->
  same_prog (fill_listing (pages + extra) max_bytes pinned table snapshot next after acc bytes)
    (fill_listing pages max_bytes pinned table snapshot next after acc bytes).
Proof using H0 Hmax.
  induction pages as [|pages IH]; intros after acc bytes Hpos Hfuel; [lia|]. cbn [fill_listing Nat.add]. apply same_prog_bind. intros page.
  destruct (last page); [|constructor]. destruct (_ || _); [constructor|]. destruct (written_since page next); [constructor|].
  destruct (Z.ltb_spec max_bytes (usize_add bytes (total file_metadata_bytes page))) as [|Hb]; [constructor|].
  destruct (Nat.ltb_spec (length page) FILE_METADATA_BATCH_SIZE) as [|Hfull]; [constructor|].
  pose proof (total_length page). rewrite (usize_add_within _ _ Hb) in Hb |- *. assert (0 < Z.of_nat FILE_METADATA_BATCH_SIZE) by (unfold FILE_METADATA_BATCH_SIZE; lia). apply IH; nia.
Qed.

Lemma listing_pages_enough extra pinned table snapshot next bytes : 0 <= bytes ->
  same_prog (fill_listing (listing_pages max_bytes + extra) max_bytes pinned table snapshot next None [] bytes)
    (fill_listing (listing_pages max_bytes) max_bytes pinned table snapshot next None [] bytes).
Proof using H0 Hmax.
  intros Hb. apply more_pages_unread; [unfold listing_pages; lia|]. unfold listing_pages.
  assert (0 < Z.of_nat FILE_METADATA_BATCH_SIZE) by (unfold FILE_METADATA_BATCH_SIZE; lia).
  pose proof (Z.mul_div_le max_bytes (Z.of_nat FILE_METADATA_BATCH_SIZE)). pose proof (Z.mul_succ_div_gt max_bytes (Z.of_nat FILE_METADATA_BATCH_SIZE)).
  rewrite Nat2Z.inj_add, Z2Nat.id by (apply Z.div_pos; lia). nia.
Qed.
End logic.

(** ** Schedules *)

(** A schedule, run: the moves the step relation allows. *)
Inductive Move `{ScanProvider} := CommitTo (c : Cat) | BindQuery (q : Z) | CallOf (q : Z) (scan : option Z) (call : Call) | Run (thread : nat).

Definition move `{HeadFixesReads} (max_bytes : Z) (m : Move) (y : System) : option System :=
  let '{| sy_cat := c; sy_shared := s; sy_threads := ts |} := y in
  match m with
  | CommitTo c' => if cat_head c <=? cat_head c' then Some {| sy_cat := c'; sy_shared := s; sy_threads := ts |} else None
  | BindQuery q =>
      match sh_bound s !! q with
      | Some _ => None
      | None => Some {| sy_cat := c; sy_shared := note_bound q c s;
          sy_threads := ts ++ [{| th_query := q; th_call := None;
            th_prog := prog_bind (bind_at (get_current_snapshot c)) (fun head => Return (Ok (Bound_at head))) |}] |}
      end
  | CallOf q scan call =>
      match sh_bound s !! q with
      | Some c0 =>
          match get_current_snapshot c0 with
          | Ok head => Some {| sy_cat := c; sy_shared := s; sy_threads := ts ++ [{| th_query := q; th_call := Some call;
              th_prog := serve {| bd_max_bytes := max_bytes; bd_query := q; bd_scan := scan; bd_head := head |} call |}] |}
          | Err _ => None
          end
      | None => None
      end
  | Run i =>
      match ts !! i with
      | Some t =>
          match th_prog t with
          | Return _ => Some y
          | Atomic f k =>
              let '(b, s') := f c s in
              Some {| sy_cat := c; sy_shared := s';
                      sy_threads := take i ts ++ {| th_query := th_query t; th_call := th_call t; th_prog := k b |} :: drop (S i) ts |}
          end
      | None => None
      end
  end.
Fixpoint play `{HeadFixesReads} (max_bytes : Z) (moves : list Move) (y : System) : option System :=
  match moves with
  | [] => Some y
  | m :: moves' => match move max_bytes m y with Some y' => play max_bytes moves' y' | None => None end
  end.

Lemma move_steps `{HeadFixesReads} max_bytes m y y' : move max_bytes m y = Some y' -> rtc (step max_bytes) y y'.
Proof.
  destruct y as [c s ts]. destruct m as [c'|q|q scan call|i]; cbn.
  - destruct (Z.leb_spec (cat_head c) (cat_head c')); [|done]. intros [= <-]. by apply rtc_once, step_commit.
  - destruct (sh_bound s !! q) eqn:Eq; [done|]. intros [= <-]. by apply rtc_once, step_bind.
  - destruct (sh_bound s !! q) as [c0|] eqn:Eq; [|done]. destruct (get_current_snapshot c0) as [head|] eqn:Eh; [|done]. intros [= <-].
    by eapply rtc_once, step_call.
  - destruct (ts !! i) as [t|] eqn:Et; [|done]. destruct (th_prog t) as [r|B f k] eqn:Ep; [by intros [= <-]|].
    destruct (f c s) as [b s'] eqn:Ef. intros [= <-]. rewrite <- (take_drop_middle ts i t Et) at 1.
    apply rtc_once. pose proof (step_run max_bytes c s (take i ts) t (drop (S i) ts) B f k Ep) as Hst. by rewrite Ef in Hst.
Qed.

Lemma play_steps `{HeadFixesReads} max_bytes moves y y' : play max_bytes moves y = Some y' -> rtc (step max_bytes) y y'.
Proof.
  revert y. induction moves as [|m moves IH]; intros y; cbn; [by intros [= ->]|].
  destruct (move max_bytes m y) as [y1|] eqn:Em; [|done]. intros Hp. etrans; [by eapply move_steps|by apply IH].
Qed.

(** A catalog of one inlined row, which the commit of head 2 flushes to file 1. *)
Section flushing.
Variable pin : bool.
Definition flushing : ScanProvider :=
  {| Cat := Z; Columns := unit; InlinedDelete := unit; Batch := nat; InlinedRows := nat; FileMetadata := Z;
     batch_rows := fun b => b; rows_count := fun r => r; rows_next_file_id := fun _ => Some 1; data_file_id := fun f => f;
     delete_bytes := 1; get_array_memory_size := Z.of_nat; inlined_rows_bytes := Z.of_nat; file_metadata_bytes := fun _ => 1;
     get_current_snapshot := fun c => Ok c; begin_consistent_read := fun _ => Ok pin; end_consistent_read := fun _ => Ok tt;
     get_inlined_deletes := fun _ _ _ => Ok []; get_table_structure := fun _ _ _ => Ok tt;
     scan_inlined_data_noting_absence := fun _ _ _ c => Ok (if c <? 2 then ([1%nat], None, Some 1) else ([], Some 2, Some 2));
     read_inlined_rows := fun _ _ _ c => Ok (if c <? 2 then [1%nat] else []);
     get_table_file_metadata_page := fun _ _ after limit c =>
       Ok (take limit (let listing := if c <? 2 then [] else [1] in
         match after with Some a => drop_while (fun file => file <=? a) listing | None => listing end)) |}.
#[local] Existing Instance flushing.

Definition flushing_laws : @HeadFixesReads flushing.
Proof.
  refine {| cat_head := fun c : @Cat flushing => c; deletes_at := fun _ _ _ => []; listing_at := fun _ _ h => if h <? 2 then [] else [1];
    batches_at := fun _ _ _ h => if h <? 2 then [1%nat] else []; visible_at := fun _ _ _ h => if h <? 2 then [1%nat] else [] |}.
  - by intros c h [= ->].
  - by intros table snapshot c deletes [= <-].
  - intros table snapshot cols c batches absent next. cbn. destruct (c <? 2); by intros [= <- _ _].
  - intros table snapshot cols c rows. cbn. by intros [= <-].
  - intros table snapshot after limit c page [= <-]. done.
  - intros _ _ h. cbn. destruct (h <? 2); repeat constructor.
  - intros table snapshot cols c batches through next h snapshot' cols'. cbn. destruct (Z.ltb_spec c 2); [done|]. intros _ Hh _.
    destruct (Z.ltb_spec h 2); [lia|]. split; constructor.
  - cbn. split_and!; intros; lia.
Defined.
End flushing.

(** C35. Reads that pin older states take an absence noted at a newer head. Two
    queries bind at head 1; the second begins its consistent read there; the flush commits; the
    first finds no inlined rows through snapshot 2 and notes it; the second then lists the
    files of its pinned state, and asks for no inlined row. What the memo keeps for head 1
    has neither the row nor the file, and head 1 has the row. *)
Theorem late_absence_loses_rows :
  let p := flushing true in let laws := flushing_laws true in
  exists y : @System p, rtc (@step p laws 1000) (@initial p 1) y
    /\ ms_head (sh_memo (sy_shared y)) = Some 1
    /\ (exists reads, ms_tables (sh_memo (sy_shared y)) !! (7, 1) = Some reads /\ tr_inlined_rows reads = [] /\ tr_listing reads = [])
    /\ @batches_at p laws 7 1 tt 1 = [1%nat].
Proof.
  intros p laws.
  pose (schedule := [@BindQuery p 1; @BindQuery p 2; @Run p 0; @Run p 1; @CallOf p 2 (Some 5) (@Page p 7 1 None 10)]
    ++ repeat (@Run p 2) 3 ++ [@CommitTo p 2; @CallOf p 1 (Some 6) (@Scan p 7 1 tt)] ++ repeat (@Run p 3) 20 ++ repeat (@Run p 2) 20).
  assert (Hp : exists y, @play p laws 1000 schedule (@initial p 1) = Some y
    /\ ms_head (sh_memo (sy_shared y)) = Some 1
    /\ exists reads, ms_tables (sh_memo (sy_shared y)) !! (7, 1) = Some reads /\ tr_inlined_rows reads = [] /\ tr_listing reads = []).
  { eexists. split; [vm_compute; reflexivity|]. split; [reflexivity|]. eexists. split; [vm_compute; reflexivity|]. done. }
  destruct Hp as (y & Hy & Hhead & Hreads). exists y. split_and!; [by eapply play_steps|done|done|done].
Qed.


(** Query 1 fills at head 1, the flush commits, query 2 binds and fills at head 2. *)
Definition sample_schedule : list (@Move (flushing false)) :=
  let p := flushing false in
  [@BindQuery p 1; @Run p 0; @CallOf p 1 (Some 5) (@Scan p 7 1 tt)] ++ repeat (@Run p 1) 20
  ++ [@CommitTo p 2; @BindQuery p 2; @Run p 2; @CallOf p 2 None (@Page p 7 1 None 10)] ++ repeat (@Run p 3) 20
  ++ [@CallOf p 1 (Some 5) (@Scan p 7 1 tt)] ++ repeat (@Run p 4) 20.

