(* ===== verification/Restore.v ===== *)
(** * Restoring a table's rows

    [restore.rs]: [restore_rows_to] makes a table's rows those of an earlier snapshot, the
    mark, in one commit. Modelled are the checks of [RestoreContext::new], the comparison of
    the columns ([column_change]) and of the rows ([RestoreContext::diff] with [added_file],
    [shared_file], [removed_at], [Positions] and [remaining]), over the catalog of
    [CatalogDb] as [CatalogReads] reads it. What the files of the object store hold is a
    parameter (class [FileReads]). The reads of several files run at once and are put in
    catalog order afterwards, so the model reads them in the order of the listing; when
    several fail, the error is the first one's. The commit stages the diff as an [UPDATE]
    stages its row versions; writing its delete files and data files is not modelled.

    The theorem: the diff removes exactly the row versions live at the head and not at the
    mark, and restores exactly those live at the mark and not at the head. *)

From S2P Require Import Prelude RustStd Arrow StatsOrder FloatText StatsRollup WriterTypes DuckdbCast ChangeLedger Conflicts PathResolver Partition PartitionSplit RowIds WriterChecks Types ColumnTrees SortSpec InlinedTypes CatalogDb CatalogSnapshots CatalogTables CatalogCommits CatalogAdmin CatalogReads CatalogHistory CatalogInit CatalogIds CatalogViews CatalogTimeTravel CatalogSettings CatalogExpiry PartitionCounts.

(** ** Reads of the object store *)

(** [read_delete_file_entries] before its [collect], the column of embedded snapshot ids of a
    data file by position, and the row count of a footer. *)
Class FileReads := {
  delete_file_entries : DuckLakeFileData -> result (list (Z * option Z));
  embedded_snapshots : DuckLakeFileData -> result (list (option Z));
  data_file_row_count : DuckLakeFileData -> result Z;
}.

(** ** The diff *)

(** [RemovedPositions], [Positions], [RestoredPositions] and [FileDiff]. *)
Record RemovedPositions := {
  rmp_file : DuckLakeTableFile;
  rmp_existing : gmap Z (option Z);
  rmp_positions : list Z;
}.
Inductive Positions := Only (positions : gset Z) | AllBut (positions : gset Z).
Record RestoredPositions := {
  rsp_file : DuckLakeTableFile;
  rsp_positions : Positions;
  rsp_rows : Z;
}.
Inductive FileDiff :=
| Ended (file : DroppedDataFile) (rows : Z)
| Changed (removed : option RemovedPositions) (restored : option RestoredPositions).

(** [Positions::contains] and [remaining]. *)
Definition contains (positions : Positions) (position : Z) : bool :=
  match positions with
  | Only set => bool_decide (position ∈ set)
  | AllBut set => negb (bool_decide (position ∈ set))
  end.
Definition within (rows : Z) (removed : gset Z) : gset Z := filter (fun p => 0 <= p /\ p < rows) removed.
Definition remaining (rows : Z) (removed : gset Z) : Z :=
  Z.max 0 (Z.max 0 rows - Z.of_nat (size (within rows removed))).

(** [RestoreDiff]: the inlined rows with their tables. *)
Record RestoreDiff `{InlineValues} := {
  rd_ended : list DroppedDataFile;
  rd_removed : list RemovedPositions;
  rd_removed_inlined : list InlinedRowRef;
  rd_rows_removed : Z;
  rd_restored : list RestoredPositions;
  rd_restored_inlined : list (str * list (versioned InlinedRow));
  rd_rows_restored : Z;
}.
Definition RestoreDiff_default `{InlineValues} : RestoreDiff :=
  {| rd_ended := []; rd_removed := []; rd_removed_inlined := []; rd_rows_removed := 0; rd_restored := [];
     rd_restored_inlined := []; rd_rows_restored := 0 |}.

Section restore.
Context `{InlineValues} `{SortParser} `{FileReads}.

(** [inlined_deletes_by_file]. *)
Definition inlined_deletes_by_file (table_id t : Z) (db : Db) : result (gmap Z (gset Z)) :=
  let? deletes := get_inlined_deletes table_id t db in
  match find_first (fun delete : Z * Z => (delete.1 <? 0) || (delete.2 <? 0)) deletes with
  | Some delete => Err (External ("inlined delete has invalid file_id " ++ show_Z delete.1 ++ " and row_id " ++ show_Z delete.2))
  | None => Ok (inlined_by_file deletes)
  end.

(** [inlined_data_with_row_ids_at]. *)
Definition inlined_data_with_row_ids_at (table_id t : Z) (db : Db) : result (list (str * list str * list (versioned InlinedRow))) :=
  read_inlined_rows table_id (VisibleAt t) ShapeMutation db.

(** [read_delete_file_entries]: of two entries of a position the last one counts. *)
Definition entries_map (entries : list (Z * option Z)) : gmap Z (option Z) :=
  foldl (fun m entry => <[entry.1 := entry.2]> m) ∅ entries.
Definition read_delete_file_entries (delete_file : DuckLakeFileData) : result (gmap Z (option Z)) :=
  let? entries := delete_file_entries delete_file in Ok (entries_map entries).

(** [deleted_positions_at_snapshot], which is [deleted_positions_for_file]. *)
Definition counts_at (t : Z) (snapshot : option Z) : bool := match snapshot with Some s => s <=? t | None => true end.
Definition deleted_positions_at_snapshot (t : Z) (file : DuckLakeTableFile) (inlined : option (gset Z)) : result (gset Z) :=
  match tfl_delete_file file with
  | None => Ok (default ∅ inlined)
  | Some delete_file =>
      let? entries := delete_file_entries delete_file in
      Ok (default ∅ inlined ∪ list_to_set (fst <$> select (fun e : Z * option Z => counts_at t e.2) entries))
  end.

(** [positions_inserted_later]: the rows of a partial file whose embedded snapshot is later. *)
Definition later_than (t : Z) (snapshot : option Z) : bool := match snapshot with Some s => t <? s | None => true end.
Definition positions_inserted_later (t : Z) (file : DuckLakeTableFile) : result (gset Z) :=
  match tfl_partial_max file with
  | Some max =>
      if max <=? t then Ok ∅
      else
        let? snapshots := embedded_snapshots (tfl_file file) in
        Ok (list_to_set (fst <$> select (fun e : Z * option Z => later_than t e.2) (imap (fun i s => (Z.of_nat i, s)) snapshots)))
  | None => Ok ∅
  end.

(** [removed_at]. *)
Definition removed_at (t : Z) (file : DuckLakeTableFile) (inlined : option (gset Z)) (entries : option (gmap Z (option Z)))
  : result (gset Z) :=
  let? removed := match entries with
                  | Some entries => Ok (dom (filter (fun e => counts_at t e.2) entries) ∪ default ∅ inlined)
                  | None => deleted_positions_at_snapshot t file inlined
                  end in
  let? later := positions_inserted_later t file in
  Ok (removed ∪ later).

(** [row_count]. *)
Definition row_count (file : DuckLakeTableFile) : result Z :=
  match tfl_max_row_count file with Some rows => Ok rows | None => data_file_row_count (tfl_file file) end.

Definition existing_entries (file : DuckLakeTableFile) : result (gmap Z (option Z)) :=
  match tfl_delete_file file with Some delete_file => read_delete_file_entries delete_file | None => Ok ∅ end.

(** [added_file]. *)
Definition added_file (head : Z) (file : DuckLakeTableFile) (inlined : option (gset Z)) (inline_limit : nat) : result FileDiff :=
  let? existing := existing_entries file in
  let? removed := removed_at head file inlined (Some existing) in
  let? rows := row_count file in
  let live := remaining rows removed in
  if live =? 0 then Ok (Changed None None)
  else
    let inlines := (0 <? inline_limit)%nat && (live <=? Z.of_nat inline_limit) in
    if inlines || match inlined with Some set => negb (bool_decide (set = ∅)) | None => false end then
      Ok (Changed (Some {| rmp_file := file; rmp_existing := existing;
                           rmp_positions := select (fun pos => negb (bool_decide (pos ∈ removed))) (seqZ 0 rows) |}) None)
    else Ok (Ended {| dr_data_file_id := tfl_data_file_id file; dr_expected_delete_file := tfl_delete_file_id file |} live).

(** [shared_file]. *)
Definition shared_file (head mark : Z) (file at_mark : DuckLakeTableFile) (head_inlined mark_inlined : option (gset Z))
  : result FileDiff :=
  let? existing := existing_entries file in
  let? removed_at_head := removed_at head file head_inlined (Some existing) in
  let same_delete_file := bool_decide (is_Some (tfl_delete_file_id file))
                          && bool_decide (tfl_delete_file_id file = tfl_delete_file_id at_mark) in
  let? removed_at_mark := removed_at mark at_mark mark_inlined (if same_delete_file then Some existing else None) in
  let? rows := row_count file in
  let removed := within rows (removed_at_mark ∖ removed_at_head) in
  let restored := within rows (removed_at_head ∖ removed_at_mark) in
  Ok (Changed
    (if bool_decide (removed = ∅) then None
     else Some {| rmp_file := file; rmp_existing := existing; rmp_positions := order_by (fun p => p) (elements removed) |})
    (if bool_decide (restored = ∅) then None
     else Some {| rsp_file := at_mark; rsp_positions := Only restored; rsp_rows := Z.of_nat (size restored) |})).

(** A file of the mark that is no longer live: the loop of [diff] over the rest of the map. *)
Definition gone_file (mark : Z) (file : DuckLakeTableFile) (mark_inlined : option (gset Z)) : result FileDiff :=
  let? removed := removed_at mark file mark_inlined None in
  let? count := row_count file in
  let rows := remaining count removed in
  Ok (Changed None (if 0 <? rows then Some {| rsp_file := file; rsp_positions := AllBut removed; rsp_rows := rows |} else None)).

(** The key [files.sort_by_key] sorts by. *)
Definition diff_key (diff : FileDiff) : Z :=
  match diff with
  | Ended ended _ => dr_data_file_id ended
  | Changed removed restored =>
      match removed, restored with
      | Some removed, _ => tfl_data_file_id (rmp_file removed)
      | None, Some restored => tfl_data_file_id (rsp_file restored)
      | None, None => 0
      end
  end.

(** One file's part added to the diff. *)
Definition add_file_diff (diff : RestoreDiff) (file : FileDiff) : RestoreDiff :=
  match file with
  | Ended ended rows =>
      {| rd_ended := rd_ended diff ++ [ended]; rd_removed := rd_removed diff; rd_removed_inlined := rd_removed_inlined diff;
         rd_rows_removed := rd_rows_removed diff + rows; rd_restored := rd_restored diff;
         rd_restored_inlined := rd_restored_inlined diff; rd_rows_restored := rd_rows_restored diff |}
  | Changed removed restored =>
      {| rd_ended := rd_ended diff; rd_removed := rd_removed diff ++ option_list removed;
         rd_removed_inlined := rd_removed_inlined diff;
         rd_rows_removed := rd_rows_removed diff
           + match removed with Some removed => Z.of_nat (length (rmp_positions removed)) | None => 0 end;
         rd_restored := rd_restored diff ++ option_list restored;
         rd_restored_inlined := rd_restored_inlined diff;
         rd_rows_restored := rd_rows_restored diff + match restored with Some restored => rsp_rows restored | None => 0 end |}
  end.

(** The parts of the files of both snapshots: each file of the head takes its entry at the
    mark out of the map, and the rest of the map is gone at the head. *)
Definition by_file_id (files : list DuckLakeTableFile) : gmap Z DuckLakeTableFile :=
  foldl (fun m file => <[tfl_data_file_id file := file]> m) ∅ files.
Fixpoint pair_files (head_files : list DuckLakeTableFile) (mark_files : gmap Z DuckLakeTableFile)
  : list (DuckLakeTableFile * option DuckLakeTableFile) * gmap Z DuckLakeTableFile :=
  match head_files with
  | [] => ([], mark_files)
  | file :: rest =>
      let id := tfl_data_file_id file in
      let (pairs, gone) := pair_files rest (base.delete id mark_files) in ((file, mark_files !! id) :: pairs, gone)
  end.
Definition file_diffs (head mark : Z) (inline_limit : nat) (head_files mark_files : list DuckLakeTableFile)
  (head_inlined mark_inlined : gmap Z (gset Z)) : result (list FileDiff) :=
  let (pairs, gone) := pair_files head_files (by_file_id mark_files) in
  let? of_head := mapM_result (fun pair : DuckLakeTableFile * option DuckLakeTableFile =>
    let id := tfl_data_file_id pair.1 in
    match pair.2 with
    | None => added_file head pair.1 (head_inlined !! id) inline_limit
    | Some at_mark => shared_file head mark pair.1 at_mark (head_inlined !! id) (mark_inlined !! id)
    end) pairs in
  let? of_mark := mapM_result (fun entry => gone_file mark entry.2 (mark_inlined !! tfl_data_file_id entry.2))
    (map_to_list gone) in
  Ok (order_by diff_key (of_head ++ of_mark)).

(** The inlined rows. *)
Definition row_keys (tables : list (str * list str * list (versioned InlinedRow))) : gset (str * Z * Z) :=
  list_to_set (table ← tables; (fun v => (table.1.1, n_row_id (v_row v), v_begin v)) <$> table.2).
Definition removed_refs (mark : Z) (tables : list (str * list str * list (versioned InlinedRow))) : list InlinedRowRef :=
  table ← tables;
  (fun v => {| irr_table_name := table.1.1; irr_row_id := n_row_id (v_row v) |}) <$> select (fun v => mark <? v_begin v) table.2.
Definition kept_rows (at_head : gset (str * Z * Z)) (tables : list (str * list str * list (versioned InlinedRow)))
  : list (str * list (versioned InlinedRow)) :=
  List.filter (fun p => negb (is_empty p.2))
    ((fun table => (table.1.1, select (fun v => negb (bool_decide ((table.1.1, n_row_id (v_row v), v_begin v) ∈ at_head))) table.2))
     <$> tables).

(** [RestoreContext::diff]: the catalog is read in one consistent read. *)
Definition diff (table_id head mark : Z) (inline_limit : nat) (db : Db) : result RestoreDiff :=
  let head_files := get_table_files_for_select table_id head db in
  let mark_files := get_table_files_for_select table_id mark db in
  let? head_inlined := inlined_deletes_by_file table_id head db in
  let? mark_inlined := inlined_deletes_by_file table_id mark db in
  let? head_rows := inlined_data_with_row_ids_at table_id head db in
  let? head_rows_at_mark := inlined_data_with_row_ids_at table_id mark db in
  let? files := file_diffs head mark inline_limit head_files mark_files head_inlined mark_inlined in
  let diff := foldl add_file_diff RestoreDiff_default files in
  let removed_inlined := removed_refs mark head_rows in
  let restored_inlined := kept_rows (row_keys head_rows) head_rows_at_mark in
  Ok {| rd_ended := rd_ended diff; rd_removed := rd_removed diff; rd_removed_inlined := removed_inlined;
        rd_rows_removed := rd_rows_removed diff + Z.of_nat (length removed_inlined);
        rd_restored := rd_restored diff; rd_restored_inlined := restored_inlined;
        rd_rows_restored := rd_rows_restored diff + Z.of_nat (length (restored_inlined ≫= snd)) |}.

(** ** Column changes *)

(** [DataType::is_nested], of the types the catalog has. *)
Definition nested_type (t : DataType) : bool :=
  match t with
  | List _ | LargeList _ | FixedSizeList _ _ | Struct _ | Map _ _ => true
  | _ => false
  end.

Definition same_column_type (was now : DuckLakeTableColumn) (from to : DataType) : bool :=
  str_eqb (tc_column_type was) (tc_column_type now) && bool_decide (from = to)
  && bool_decide (tc_nested_column_ids was = tc_nested_column_ids now)
  && bool_decide (tc_nested_initial_defaults was = tc_nested_initial_defaults now).
Definition widened_column (was now : DuckLakeTableColumn) (from to : DataType) : bool :=
  negb (nested_type from) && negb (nested_type to) && negb (bool_decide (from = to))
  && is_promotable (tc_column_type was) (tc_column_type now).

(** A column of the mark, against the column of its id at the head. [display] is Arrow's
    spelling of a type. *)
Definition column_changed (display : DataType -> str) (at_head : gmap Z DuckLakeTableColumn) (was : DuckLakeTableColumn)
  : result (option str) :=
  let name := tc_column_name was in
  match at_head !! tc_column_id was with
  | None => Ok (Some ("column '" ++ name ++ "' was dropped"))
  | Some now =>
      if negb (str_eqb (tc_column_name now) name) then
        Ok (Some ("column '" ++ name ++ "' was renamed to '" ++ tc_column_name now ++ "'"))
      else
        let? from := column_data_type was in
        let? to := column_data_type now in
        if negb (same_column_type was now from to) && negb (widened_column was now from to) then
          let spell column t := if nested_type t then display t else tc_column_type column in
          Ok (Some ("column '" ++ name ++ "' changed type from " ++ spell was from ++ " to " ++ spell now to
                    ++ ", which is not a lossless widening"))
        else if tc_is_nullable was && negb (tc_is_nullable now) then
          Ok (Some ("column '" ++ name ++ "' became NOT NULL"))
        else Ok None
  end.

(** A column added since, without a value for the rows before it. *)
Definition added_without_default (at_mark : list DuckLakeTableColumn) (added : DuckLakeTableColumn) : bool :=
  negb (existsb (fun column => tc_column_id column =? tc_column_id added) at_mark)
  && negb (tc_is_nullable added)
  && negb (match tc_initial_default added with Some value => negb (eq_ignore_ascii_case value "NULL") | None => false end).

Fixpoint first_change (display : DataType -> str) (at_head : gmap Z DuckLakeTableColumn) (at_mark : list DuckLakeTableColumn)
  : result (option str) :=
  match at_mark with
  | [] => Ok None
  | was :: rest =>
      let? change := column_changed display at_head was in
      match change with Some change => Ok (Some change) | None => first_change display at_head rest end
  end.

(** [column_change]. *)
Definition columns_by_id (columns : list DuckLakeTableColumn) : gmap Z DuckLakeTableColumn :=
  foldl (fun m column => <[tc_column_id column := column]> m) ∅ columns.
Definition column_change (display : DataType -> str) (at_mark at_head : list DuckLakeTableColumn) : result (option str) :=
  match find_first (added_without_default at_mark) at_head with
  | Some added => Ok (Some ("column '" ++ tc_column_name added ++ "' was added NOT NULL with no default"))
  | None => first_change display (columns_by_id at_head) at_mark
  end.

(** ** The restore *)

(** [mark_survives]. *)
Definition mark_survives (name : str) (mark : Z) (db : Db) : result unit :=
  if is_empty (snapshot_ids_between mark mark db) then
    Err (InvalidSnapshot ("restore of '" ++ name ++ "': snapshot " ++ show_Z mark
      ++ " is not in the catalog; it has expired or was never one of its snapshots, and the rows it read may be gone"))
  else Ok tt.

(** A table opened at its head: its columns there, its schema's name, and its writer when it
    has one, with whether that stages row mutations. *)
Record OpenTable := {
  op_table_id : Z;
  op_name : str;
  op_schema_name : option str;
  op_snapshot_id : Z;
  op_columns : list DuckLakeTableColumn;
  op_writer : option bool;
}.

(** [RestoreContext::new]: the inlining limit. Of the table opened at the mark only the
    columns are read. *)
Definition restore_context (limit_override : option nat) (display : DataType -> str) (table : OpenTable) (mark : Z) (db : Db)
  : outcome nat :=
  let name := op_name table in
  let refused (text : str) := "restore of '" ++ name ++ "': " ++ text in
  let! supported := Returns (ok_or (op_writer table)
    (InvalidConfig (refused "the table was not opened from a writable catalog"))) in
  let! _ := Returns (if supported : bool then Ok tt else
    Err (Unsupported "restoring rows needs a writer that stages row mutations (SQLite, DuckDB, MySQL or multi-catalog PostgreSQL)")) in
  let! schema_name := Returns (ok_or (op_schema_name table) (InvalidConfig (refused "the table has no schema name"))) in
  let base := op_snapshot_id table in
  let! _ := Returns (if base <=? mark then
    Err (InvalidConfig (refused ("snapshot " ++ show_Z mark ++ " is not before snapshot " ++ show_Z base
      ++ ", the one the table was read at"))) else Ok tt) in
  let! _ := Returns (mark_survives name mark db) in
  let! at_mark := get_table_structure (op_table_id table) mark db in
  let! _ := Returns (if is_empty at_mark then
    Err (InvalidConfig (refused ("the table does not exist at snapshot " ++ show_Z mark))) else Ok tt) in
  let! change := Returns (column_change display at_mark (op_columns table)) in
  let! _ := Returns (match change with
                     | Some change => Err (Unsupported (refused ("its columns changed since snapshot " ++ show_Z mark ++ ": " ++ change)))
                     | None => Ok tt
                     end) in
  let partition_id at_ := ps_partition_id <$> get_partition_spec (op_table_id table) at_ db in
  let! _ := Returns (if bool_decide (partition_id mark = partition_id base) then Ok tt else
    Err (Unsupported (refused ("its partition spec changed since snapshot " ++ show_Z mark)))) in
  Returns (table_data_inlining_row_limit limit_override schema_name name db).

(** [restore_rows_to] up to its commit: the diff to commit, [None] when there is nothing to
    do. The catalog may move between the checks ([db]), the comparison ([db1]) and the last
    look for the mark ([db2]). *)
Definition restore_rows_to (limit_override : option nat) (display : DataType -> str) (table : OpenTable) (mark : Z) (db db1 db2 : Db)
  : outcome (option RestoreDiff) :=
  let! inline_limit := restore_context limit_override display table mark db in
  let! found := Returns (diff (op_table_id table) (op_snapshot_id table) mark inline_limit db1) in
  let! _ := Returns (mark_survives (op_name table) mark db2) in
  Returns (Ok (if (rd_rows_removed found =? 0) && (rd_rows_restored found =? 0) then None else Some found)).
End restore.

(** The tests of the module. *)
Definition test_column (id : Z) (name type : str) : DuckLakeTableColumn := DuckLakeTableColumn_new id name type true.
Definition test_change := column_change (fun _ => lit "nested").

Example carries_added_columns_and_widenings :
  test_change [test_column 1 "id" "int64"; test_column 2 "i8" "int8"; test_column 4 "u8" "uint8"; test_column 6 "f" "float32"]
    [test_column 1 "id" "int64"; test_column 2 "i8" "int64"; test_column 4 "u8" "uint16"; test_column 6 "f" "float64";
     test_column 9 "b" "varchar"] = Ok None.
Proof. vm_compute. reflexivity. Qed.

Example refuses_other_changes :
  let mark := [test_column 1 "id" "int64"; test_column 2 "n" "int32"] in
  test_change mark [test_column 1 "id" "int64"] = Ok (Some (lit "column 'n' was dropped"))
  /\ test_change mark [test_column 1 "id" "int64"; test_column 2 "m" "int32"] = Ok (Some (lit "column 'n' was renamed to 'm'"))
  /\ test_change mark [test_column 1 "id" "int64"; test_column 2 "n" "uint64"]
     = Ok (Some (lit "column 'n' changed type from int32 to uint64, which is not a lossless widening"))
  /\ test_change mark [test_column 1 "id" "int64"; DuckLakeTableColumn_new 2 "n" "int64" false]
     = Ok (Some (lit "column 'n' became NOT NULL"))
  /\ test_change mark (mark ++ [DuckLakeTableColumn_new 3 "a" "int32" false])
     = Ok (Some (lit "column 'a' was added NOT NULL with no default")).
Proof. vm_compute. split_and!; reflexivity. Qed.

(** ** What a table holds

    A version of a row is a position of a data file or a version of an inlined row; the
    contents of the files ([Contents]) say which snapshot wrote each position and which
    deleted it. A snapshot reads the versions a scan returns at it. *)
Inductive Version := FileRow (file position : Z) | InlinedVersion (table : str) (row_id begin : Z).

Section exact.
Context `{InlineValues} `{SortParser} `{FileReads} (c : Contents) (table_id : Z) (db : Db).

Definition inlined_at (t : Z) : InlinedDeletes := match get_inlined_deletes table_id t db with Ok deletes => deletes | Err _ => [] end.
Definition scanned (t : Z) (file : DataFileRow) : list Z := scanned_rows c table_id t db (inlined_at t) file.
Definition visible_versions (t : Z) (table : InlinedTable) : list (versioned InlinedRow) := select (visible t) (p_rows table).

Definition live_at (t : Z) (v : Version) : Prop :=
  match v with
  | FileRow f p => exists file, file ∈ visible_files table_id t db /\ d_id file = f /\ p ∈ scanned t file
  | InlinedVersion name row_id begin => exists table row, name ∈ registered_inlined_tables table_id db
      /\ t_inlined_data db !! name = Some table /\ row ∈ visible_versions t table
      /\ n_row_id (v_row row) = row_id /\ v_begin row = begin
  end.

(** What the store's files hold is what happened: a delete file holds each deletion once, at
    its snapshot when the file records one and else by the file's own; a data file without
    [partial_max] was written by its own snapshot, and the embedded snapshots are those that
    wrote the rows. *)
Definition delete_file_data (x : DeleteFileRow) : DuckLakeFileData :=
  {| fd_path := x_path x; fd_path_is_relative := x_path_is_relative x; fd_file_size_bytes := x_file_size_bytes x;
     fd_footer_size := x_footer_size x |}.
Definition data_file_data (d : DataFileRow) : DuckLakeFileData :=
  {| fd_path := d_path d; fd_path_is_relative := d_path_is_relative d; fd_file_size_bytes := d_file_size_bytes d;
     fd_footer_size := d_footer_size d |}.
Record holds_history : Prop := {
  hh_deletes : forall v entries, v ∈ t_delete_files db -> delete_file_entries (delete_file_data (v_row v)) = Ok entries ->
    NoDup (fst <$> entries)
    /\ (forall p, p ∈ fst <$> entries <-> p ∈ fst <$> deletions c (x_id (v_row v)))
    /\ (forall p recorded s, (p, recorded) ∈ entries -> (p, s) ∈ deletions c (x_id (v_row v)) ->
          match recorded with Some r => r = s | None => s <= v_begin v end);
  hh_born : forall v p, v ∈ t_data_files db -> row_born c (d_id (v_row v)) p <= default (v_begin v) (d_partial_max (v_row v));
  hh_snapshots : forall v snapshots p, v ∈ t_data_files db -> is_Some (d_partial_max (v_row v)) ->
    embedded_snapshots (data_file_data (v_row v)) = Ok snapshots -> 0 <= p < d_record_count (v_row v) -> snapshots !! Z.to_nat p = Some (Some (row_born c (d_id (v_row v)) p));
}.

(** ** Listings *)

(** A file of a listing, with the rows it comes from. *)
Record listed (t : Z) (file : DuckLakeTableFile) (v : versioned DataFileRow) (delete : option (versioned DeleteFileRow)) : Prop := {
  li_row : v ∈ t_data_files db;
  li_table : of_table d_table_id table_id v = true;
  li_visible : visible t v = true;
  li_id : tfl_data_file_id file = d_id (v_row v);
  li_delete : visible_deletes table_id t (d_id (v_row v)) db = option_list (v_row <$> delete);
  li_delete_row : forall x, delete = Some x -> x ∈ t_delete_files db /\ visible t x = true;
  li_delete_id : tfl_delete_file_id file = (fun x => x_id (v_row x)) <$> delete;
  li_delete_file : tfl_delete_file file = (fun x => delete_file_data (v_row x)) <$> delete;
  li_file : tfl_file file = data_file_data (v_row v);
  li_begin : tfl_begin_snapshot file = Some (v_begin v);
  li_partial : tfl_partial_max file = d_partial_max (v_row v);
  li_rows : tfl_max_row_count file = Some (d_record_count (v_row v));
}.

Lemma take_values_elem values files : forall taken file,
  file ∈ take_partition_values taken values files ->
  exists file', file' ∈ files /\ (file = file' \/ file = with_partition_values (values (tfl_data_file_id file')) file').
Proof.
  induction files as [|f files IH]; intros taken file; cbn; [by intros Hf%elem_of_nil|].
  intros [->|Hf]%elem_of_cons; [exists f; split; [left|destruct (existsb _ _); auto]|].
  destruct (IH _ _ Hf) as (file' & ? & ?). exists file'. split; [by right|done].
Qed.

Lemma listing_elem t file : wf_deletes db -> file ∈ get_table_files_for_select table_id t db -> exists v delete, listed t file v delete.
Proof.
  intros Hw (file' & Hf & Hfile)%take_values_elem. apply list_elem_of_bind in Hf as (v & Hf & [Hv Hin]%elem_of_select).
  apply andb_true_iff in Hv as [Ht Hvis].
  destruct (joined_deletes_one table_id t (d_id (v_row v)) db Hw) as [delete Hd]. rewrite Hd in Hf. cbn in Hf.
  apply list_elem_of_singleton in Hf as ->. unfold joined_deletes in Hd.
  set (L := select _ (t_delete_files db)) in Hd.
  assert (HL : forall x, x ∈ L -> x ∈ t_delete_files db /\ visible t x = true).
  { intros x [Hx ?]%elem_of_select. split; [done|]. by apply andb_true_iff in Hx as [_ ?]. }
  assert (E : visible_deletes table_id t (d_id (v_row v)) db = v_row <$> L) by done. clearbody L.
  destruct L as [|x [|y L]]; [|..|done]; injection Hd as <-.
  - exists v, None. destruct Hfile as [->| ->]; by split.
  - exists v, (Some x). destruct Hfile as [->| ->]; (split; try done; intros ? [= <-]; apply HL; left).
Qed.

Lemma visible_listed t v : wf_deletes db -> v ∈ t_data_files db -> of_table d_table_id table_id v = true -> visible t v = true ->
  exists file, file ∈ get_table_files_for_select table_id t db /\ tfl_data_file_id file = d_id (v_row v).
Proof.
  intros Hw Hv Ht Hvis. assert (Hin : d_id (v_row v) ∈ tfl_data_file_id <$> get_table_files_for_select table_id t db).
  { rewrite listed_files by done. apply list_elem_of_fmap. exists v. split; [done|]. apply elem_of_select. by rewrite Ht, Hvis. }
  apply list_elem_of_fmap in Hin as (file & -> & ?). by exists file.
Qed.

(** ** What is dropped *)

(** A map built by inserting in order, its keys distinct. *)
Lemma index_elem {A B} (key : A -> Z) (val : A -> B) (l : list A) k b : NoDup (key <$> l) ->
  foldl (fun m a => <[key a := val a]> m) (∅ : gmap Z B) l !! k = Some b <-> exists a, a ∈ l /\ key a = k /\ val a = b.
Proof.
  intros Hn. assert (Hm : forall m : gmap Z B, (forall a, a ∈ l -> m !! key a = None) ->
    foldl (fun m a => <[key a := val a]> m) m l !! k = Some b <-> (exists a, a ∈ l /\ key a = k /\ val a = b) \/ m !! k = Some b).
  { induction l as [|a l IH]; intros m Hfresh; cbn [foldl].
    { split; [auto|]. intros [(a & Ha%elem_of_nil & _)|?]; done. }
    apply NoDup_cons in Hn as [Ha Hn]. rewrite IH; [|done|].
    - destruct (decide (key a = k)) as [<-|Hne].
      + rewrite lookup_insert_eq. assert (m !! key a = None) by (apply Hfresh; left). split.
        * intros [(x & ? & ? & ?)|[= <-]]; left; [exists x|exists a]; (split; [by constructor|done]).
        * intros [(x & [->|Hx]%elem_of_cons & Hk & <-)|?]; [by right|left; by exists x|congruence].
      + rewrite lookup_insert_ne by done. split.
        * intros [(x & ? & ? & ?)|?]; [left; exists x; split; [by right|done]|by right].
        * intros [(x & [->|Hx]%elem_of_cons & Hk & Hv)|?]; [done|left; by exists x|by right].
    - intros x Hx. rewrite lookup_insert_ne; [apply Hfresh; by right|]. intros E. apply Ha. rewrite E.
      exact (list_elem_of_fmap_2 key l x Hx). }
  rewrite Hm; [|intros a _; apply lookup_empty]. rewrite lookup_empty. split; [by intros [?|?]|by left].
Qed.

Lemma entries_map_elem entries p recorded :
  NoDup (fst <$> entries) -> entries_map entries !! p = Some recorded <-> (p, recorded) ∈ entries.
Proof.
  intros Hn. unfold entries_map. rewrite (index_elem fst snd entries p recorded Hn). split.
  - by intros ([q r] & ? & <- & <-).
  - intros Hin. by exists (p, recorded).
Qed.

(** The entries of a visible delete file that count at a snapshot are its deletions up to it. *)
Lemma counted_entries t x entries p : holds_history -> x ∈ t_delete_files db -> visible t x = true ->
  delete_file_entries (delete_file_data (v_row x)) = Ok entries ->
  (exists recorded, (p, recorded) ∈ entries /\ counts_at t recorded = true)
  <-> p ∈ fst <$> select (fun d => d.2 <=? t) (deletions c (x_id (v_row x))).
Proof.
  intros Hh Hx Hvis He. destruct (hh_deletes Hh x entries Hx He) as (_ & Hset & Hat).
  assert (Hbegin : v_begin x <= t) by (unfold visible in Hvis; lia). split.
  - intros (recorded & Hin & Hc). assert (Hp : p ∈ fst <$> deletions c (x_id (v_row x))).
    { apply Hset. by apply (list_elem_of_fmap_2 fst) in Hin. }
    apply list_elem_of_fmap in Hp as ([q s] & -> & Hd). apply list_elem_of_fmap. exists (q, s). split; [done|].
    apply elem_of_select. split; [|done]. specialize (Hat _ _ _ Hin Hd). destruct recorded as [r|]; cbn in *; [subst r; done|lia].
  - intros ([q s] & -> & [Hs Hd]%elem_of_select)%list_elem_of_fmap. cbn in *.
    assert (Hp : q ∈ fst <$> entries) by (apply Hset; by apply (list_elem_of_fmap_2 fst) in Hd).
    apply list_elem_of_fmap in Hp as ([q' recorded] & -> & Hin). exists recorded. split; [done|].
    specialize (Hat _ _ _ Hin Hd). destruct recorded as [r|]; cbn in *; [subst r; lia|done].
Qed.

(** The rows of a file written after a snapshot. *)
Lemma inserted_later t file v delete later p : holds_history -> listed t file v delete ->
  positions_inserted_later t file = Ok later -> 0 <= p < d_record_count (v_row v) ->
  p ∈ later <-> t < row_born c (d_id (v_row v)) p.
Proof.
  intros Hh Hl. unfold positions_inserted_later. rewrite (li_partial _ _ _ _ Hl). intros E Hp.
  pose proof (hh_born Hh v p (li_row _ _ _ _ Hl)) as Hborn.
  assert (Hbegin : v_begin v <= t) by (pose proof (li_visible _ _ _ _ Hl) as Hv; unfold visible in Hv; lia).
  destruct (d_partial_max (v_row v)) as [max|] eqn:Emax; cbn in Hborn; [|injection E as <-; set_solver by lia].
  destruct (Z.leb_spec max t); [injection E as <-; split; [set_solver|lia]|]. rewrite (li_file _ _ _ _ Hl) in E.
  destruct (embedded_snapshots _) as [snapshots|] eqn:Es; [|done]. cbn in E. injection E as <-.
  pose proof (hh_snapshots Hh v snapshots p (li_row _ _ _ _ Hl) (mk_is_Some _ _ Emax) Es Hp) as Hs.
  rewrite elem_of_list_to_set, list_elem_of_fmap. split.
  - intros ([q s] & -> & [Hlate (i & s' & [= -> ->] & Hi)%elem_of_lookup_imap]%elem_of_select). cbn in *.
    rewrite Nat2Z.id in Hs. rewrite Hs in Hi. injection Hi as <-. cbn in Hlate. lia.
  - intros Hlate. exists (p, Some (row_born c (d_id (v_row v)) p)). split; [done|]. apply elem_of_select. cbn. split; [lia|].
    apply elem_of_lookup_imap. exists (Z.to_nat p), (Some (row_born c (d_id (v_row v)) p)). split; [|done]. f_equal. lia.
Qed.

Lemma inlined_set t inlined id p : inlined_deletes_by_file table_id t db = Ok inlined ->
  p ∈ default ∅ (inlined !! id) <-> p ∈ snd <$> select (fun d => d.1 =? id) (inlined_at t).
Proof.
  unfold inlined_deletes_by_file, inlined_at. destruct (get_inlined_deletes table_id t db) as [deletes|]; [|done]. cbn.
  destruct (find_first _ deletes); [done|]. intros [= <-]. by rewrite inlined_by_file_spec, elem_of_list_to_set.
Qed.

Lemma scanned_elem t d p : p ∈ scanned t d <->
  0 <= p < d_record_count d /\ row_born c (d_id d) p <= t
  /\ ~ (exists x, x ∈ visible_deletes table_id t (d_id d) db /\ p ∈ fst <$> select (fun e => e.2 <=? t) (deletions c (x_id x)))
  /\ ~ p ∈ snd <$> select (fun e => e.1 =? d_id d) (inlined_at t).
Proof.
  unfold scanned, scanned_rows. rewrite elem_of_select, andb_true_iff, negb_true_iff, bool_decide_eq_false, Z.leb_le, elem_of_seqZ.
  unfold dropped. rewrite elem_of_list_to_set, elem_of_app, list_elem_of_bind. split.
  - intros [[Hb Hd] Hp]. split_and!; [lia|lia|done|intros (x & Hx & Hpx); apply Hd; left; by exists x|intros Hi; apply Hd; by right].
  - intros (Hp & Hb & Hx & Hi). split; [split; [done|]|lia]. intros [(x & Hpx & ?)|?]; [|done]. apply Hx. by exists x.
Qed.

(** The deletions of the visible delete file, as [removed_at] takes them. *)
Lemma removed_by_file t file v delete (inlined : option (gset Z)) entries removed p :
  holds_history -> listed t file v delete ->
  (forall m, entries = Some m -> existing_entries file = Ok m) ->
  match entries with
  | Some entries => Ok (dom (filter (fun e => counts_at t e.2) entries) ∪ default ∅ inlined)
  | None => deleted_positions_at_snapshot t file inlined
  end = Ok removed ->
  p ∈ removed <->
  (exists x, x ∈ visible_deletes table_id t (d_id (v_row v)) db /\ p ∈ fst <$> select (fun e => e.2 <=? t) (deletions c (x_id x)))
  \/ p ∈ default ∅ inlined.
Proof.
  intros Hh Hl Hex. rewrite (li_delete _ _ _ _ Hl).
  assert (Hx : forall x entries, delete = Some x -> delete_file_entries (delete_file_data (v_row x)) = Ok entries ->
    (exists recorded, (p, recorded) ∈ entries /\ counts_at t recorded = true)
    <-> exists y, y ∈ option_list (v_row <$> delete) /\ p ∈ fst <$> select (fun e => e.2 <=? t) (deletions c (x_id y))).
  { intros x es -> He. destruct (li_delete_row _ _ _ _ Hl x eq_refl) as [Hin Hvis]. rewrite (counted_entries t x es p Hh Hin Hvis He).
    cbn. split; [intros Hp; exists (v_row x); split; [left|done]|intros (y & ->%list_elem_of_singleton & ?); done]. }
  destruct entries as [m|].
  - specialize (Hex m eq_refl). unfold existing_entries in Hex. rewrite (li_delete_file _ _ _ _ Hl) in Hex. intros [= <-].
    rewrite elem_of_union, elem_of_dom. assert (Hor : forall P Q R, (P <-> Q) -> P \/ R <-> Q \/ R) by tauto. apply Hor.
    destruct delete as [x|]; cbn in Hex.
    + unfold read_delete_file_entries in Hex. destruct (delete_file_entries _) as [es|] eqn:He; [|done]. cbn in Hex. injection Hex as <-.
      rewrite <- (Hx x es eq_refl He). destruct (li_delete_row _ _ _ _ Hl x eq_refl) as [Hin _].
      destruct (hh_deletes Hh x es Hin He) as (Hn & _). split.
      * intros [r [Hr Hc]%map_lookup_filter_Some]. exists r. split; [by apply entries_map_elem|]. by apply Is_true_true.
      * intros (r & Hr & Hc). exists r. apply map_lookup_filter_Some. split; [by apply entries_map_elem|]. by apply Is_true_true.
    + injection Hex as <-. rewrite map_filter_empty. split; [intros [r Hr]; by rewrite lookup_empty in Hr|].
      intros (y & Hy%elem_of_nil & _). done.
  - unfold deleted_positions_at_snapshot. rewrite (li_delete_file _ _ _ _ Hl).
    destruct delete as [x|]; cbn [fmap option_fmap option_map].
    + destruct (delete_file_entries _) as [es|] eqn:He; [|done]. cbn [result_bind]. intros [= <-].
      pose proof (Hx x es eq_refl He) as Hx'. cbn [fmap option_fmap option_map] in Hx'. rewrite <- Hx', elem_of_union, elem_of_list_to_set, list_elem_of_fmap.
      assert (Hcomm : forall P Q R, (P <-> R) -> Q \/ P <-> R \/ Q) by tauto. apply Hcomm. split.
      * intros ([q r] & -> & [Hc Hin]%elem_of_select). by exists r.
      * intros (r & Hin & Hc). exists (p, r). split; [done|]. by apply elem_of_select.
    + intros [= <-]. split; [by right|]. intros [(y & Hy%elem_of_nil & _)|?]; done.
Qed.

Lemma removed_at_spec t file v delete inlined entries removed p :
  holds_history -> listed t file v delete -> inlined_deletes_by_file table_id t db = Ok inlined ->
  (forall m, entries = Some m -> existing_entries file = Ok m) ->
  removed_at t file (inlined !! tfl_data_file_id file) entries = Ok removed ->
  0 <= p < d_record_count (v_row v) -> p ∈ removed <-> p ∉ scanned t (v_row v).
Proof.
  intros Hh Hl Hi Hex E Hp. unfold removed_at in E.
  destruct (match entries with Some _ => _ | None => _ end) as [dropped_|] eqn:Ed; [|done]. cbn in E.
  destruct (positions_inserted_later t file) as [later|] eqn:El; [|done]. cbn in E. injection E as <-.
  rewrite elem_of_union, (removed_by_file _ _ _ _ _ _ _ p Hh Hl Hex Ed), (inserted_later _ _ _ _ _ p Hh Hl El Hp).
  rewrite (li_id _ _ _ _ Hl), (inlined_set t inlined (d_id (v_row v)) p Hi), scanned_elem.
  destruct (decide (row_born c (d_id (v_row v)) p <= t)); [|split; [tauto|right; lia]].
  destruct (decide (p ∈ snd <$> select (fun e => e.1 =? d_id (v_row v)) (inlined_at t))) as [|Hn]; [tauto|].
  rewrite (li_delete _ _ _ _ Hl). destruct delete as [x|]; cbn [option_list fmap option_fmap option_map].
  - assert (Hone : forall P : DeleteFileRow -> Prop, (exists y, y ∈ [v_row x] /\ P y) <-> P (v_row x)).
    { intros P. split; [by intros (y & ->%list_elem_of_singleton & ?)|]. intros ?. exists (v_row x). split; [left|done]. }
    rewrite !Hone. destruct (decide (p ∈ fst <$> select (fun e => e.2 <=? t) (deletions c (x_id (v_row x))))); [tauto|].
    split; [intros [[?|?]|?]; [tauto|tauto|lia]|tauto].
  - cbn [option_list]. split; [intros [[(y & Hy & _)|?]|?]; [by apply elem_of_nil in Hy|tauto|lia]|]. intros Hs. exfalso. apply Hs.
    split; [done|]. split; [done|]. split; [|done]. intros (y & Hy & _). by apply elem_of_nil in Hy.
Qed.

(** ** One file *)

Context (at_head at_mark : Z).

Definition removed_of (part : FileDiff) (p : Z) : Prop :=
  match part with
  | Ended file _ => live_at at_head (FileRow (dr_data_file_id file) p)
  | Changed (Some removed) _ => p ∈ rmp_positions removed
  | Changed None _ => False
  end.
Definition restored_of (part : FileDiff) (p : Z) : Prop :=
  match part with
  | Changed _ (Some restored) => (exists rows, row_count (rsp_file restored) = Ok rows /\ 0 <= p < rows)
                                 /\ contains (rsp_positions restored) p = true
  | _ => False
  end.
Definition removed_count (part : FileDiff) : Z :=
  match part with
  | Ended _ rows => rows
  | Changed (Some removed) _ => Z.of_nat (length (rmp_positions removed))
  | Changed None _ => 0
  end.
Definition restored_count (part : FileDiff) : Z :=
  match part with Changed _ (Some restored) => rsp_rows restored | _ => 0 end.

(** A part is exact for a file: it is of that file, removes what is live at the head alone,
    restores what is live at the mark alone, and counts both. *)
Definition counted (P : Z -> Prop) (n : Z) : Prop := exists l, NoDup l /\ (forall p, p ∈ l <-> P p) /\ n = Z.of_nat (length l).
Record exact_for (id : Z) (part : FileDiff) : Prop := {
  ex_ended : forall file rows, part = Ended file rows -> dr_data_file_id file = id;
  ex_removed_file : forall removed restored, part = Changed (Some removed) restored -> tfl_data_file_id (rmp_file removed) = id;
  ex_restored_file : forall removed restored, part = Changed removed (Some restored) -> tfl_data_file_id (rsp_file restored) = id;
  ex_removed : forall p, removed_of part p <-> live_at at_head (FileRow id p) /\ ~ live_at at_mark (FileRow id p);
  ex_restored : forall p, restored_of part p <-> live_at at_mark (FileRow id p) /\ ~ live_at at_head (FileRow id p);
  ex_removed_count : counted (removed_of part) (removed_count part);
  ex_restored_count : counted (restored_of part) (restored_count part);
}.

Lemma counted_none (P : Z -> Prop) : (forall p, ~ P p) -> counted P 0.
Proof. intros HP. exists []. split; [constructor|]. split; [|done]. intros p. rewrite elem_of_nil. split; [done|apply HP]. Qed.

Lemma counted_ext (P Q : Z -> Prop) n : (forall p, P p <-> Q p) -> counted P n -> counted Q n.
Proof. intros HPQ (l & Hn & Hl & ->). exists l. split; [done|]. split; [|done]. intros p. by rewrite Hl. Qed.

Lemma counted_list (l : list Z) : NoDup l -> counted (fun p => p ∈ l) (Z.of_nat (length l)).
Proof. intros Hn. by exists l. Qed.

Lemma by_id_unique {A} (f : A -> Z) l a b : NoDup (f <$> l) -> a ∈ l -> b ∈ l -> f a = f b -> a = b.
Proof.
  intros Hn (i & Ha)%list_elem_of_lookup (j & Hb)%list_elem_of_lookup E.
  assert (i = j); [|congruence]. eapply (NoDup_lookup _ i j (f a) Hn); rewrite list_lookup_fmap, ?Ha, ?Hb; cbn; congruence.
Qed.

Lemma live_listed t file v delete p : wf_files db -> listed t file v delete ->
  live_at t (FileRow (tfl_data_file_id file) p) <-> p ∈ scanned t (v_row v).
Proof.
  intros Hw Hl. rewrite (li_id _ _ _ _ Hl). cbn [live_at]. split.
  - intros (d & (w & -> & [Hw' Hin]%elem_of_select)%list_elem_of_fmap & Hid & Hp).
    by rewrite <- (by_id_unique (fun v => d_id (v_row v)) _ w v Hw Hin (li_row _ _ _ _ Hl) Hid).
  - intros Hp. exists (v_row v). split; [|done]. apply list_elem_of_fmap. exists v. split; [done|]. apply elem_of_select.
    split; [|apply (li_row _ _ _ _ Hl)]. by rewrite (li_table _ _ _ _ Hl), (li_visible _ _ _ _ Hl).
Qed.

Lemma live_somewhere t id p : wf_deletes db -> live_at t (FileRow id p) ->
  exists file, file ∈ get_table_files_for_select table_id t db /\ tfl_data_file_id file = id.
Proof.
  intros Hw (d & (v & -> & [Hv Hin]%elem_of_select)%list_elem_of_fmap & <- & _). apply andb_true_iff in Hv as [Ht Hvis].
  by apply visible_listed.
Qed.

(** The rows of a file outside a set. *)
Definition outside (rows : Z) (removed : gset Z) : list Z := select (fun pos => negb (bool_decide (pos ∈ removed))) (seqZ 0 rows).

Lemma outside_elem rows removed p : p ∈ outside rows removed <-> 0 <= p < rows /\ p ∉ removed.
Proof. unfold outside. rewrite elem_of_select, negb_true_iff, bool_decide_eq_false, elem_of_seqZ. split; intros [? ?]; (split; [|done || lia]); try done; lia. Qed.

Lemma outside_NoDup rows removed : NoDup (outside rows removed).
Proof. apply NoDup_ListNoDup, List.NoDup_filter, NoDup_ListNoDup, NoDup_seqZ. Qed.

Lemma remaining_outside rows removed : remaining rows removed = Z.of_nat (length (outside rows removed)).
Proof.
  unfold remaining, outside, within. destruct (decide (0 <= rows)).
  - pose proof (length_outside rows removed ltac:(done)). lia.
  - rewrite seqZ_nil by lia. cbn. lia.
Qed.

Lemma outside_scanned t file v delete inlined entries removed p :
  holds_history -> listed t file v delete -> inlined_deletes_by_file table_id t db = Ok inlined ->
  (forall m, entries = Some m -> existing_entries file = Ok m) ->
  removed_at t file (inlined !! tfl_data_file_id file) entries = Ok removed ->
  p ∈ outside (d_record_count (v_row v)) removed <-> p ∈ scanned t (v_row v).
Proof.
  intros Hh Hl Hi Hex E. rewrite outside_elem. split.
  - intros [Hp Hr]. destruct (decide (p ∈ scanned t (v_row v))) as [|Hn]; [done|]. destruct Hr. by eapply removed_at_spec.
  - intros Hp. assert (0 <= p < d_record_count (v_row v)) by (apply scanned_elem in Hp; tauto). split; [done|]. intros Hr.
    by eapply removed_at_spec in Hr.
Qed.

Lemma listed_rows t file v delete : listed t file v delete -> row_count file = Ok (d_record_count (v_row v)).
Proof. intros Hl. unfold row_count. by rewrite (li_rows _ _ _ _ Hl). Qed.

Lemma added_file_exact file v delete inlined limit part :
  wf_files db -> holds_history -> listed at_head file v delete -> inlined_deletes_by_file table_id at_head db = Ok inlined ->
  (forall p, ~ live_at at_mark (FileRow (tfl_data_file_id file) p)) ->
  added_file at_head file (inlined !! tfl_data_file_id file) limit = Ok part -> exact_for (tfl_data_file_id file) part.
Proof.
  intros Hw Hh Hl Hi Hgone E. unfold added_file in E. rewrite (listed_rows _ _ _ _ Hl) in E.
  destruct (existing_entries file) as [existing|] eqn:Ee; [|done]. cbn [result_bind] in E.
  destruct (removed_at _ _ _ _) as [removed|] eqn:Er; [|done]. cbn [result_bind] in E. rewrite remaining_outside in E. fold (outside (d_record_count (v_row v)) removed) in E.
  assert (Hlive : forall p, p ∈ outside (d_record_count (v_row v)) removed <-> live_at at_head (FileRow (tfl_data_file_id file) p)).
  { intros p. rewrite (live_listed _ _ _ _ p Hw Hl). eapply outside_scanned; [done..| |done]. by intros m [= <-]. }
  pose proof (outside_NoDup (d_record_count (v_row v)) removed) as Hnd.
  assert (Hcount : counted (fun p => live_at at_head (FileRow (tfl_data_file_id file) p)) (Z.of_nat (length (outside (d_record_count (v_row v)) removed)))).
  { by exists (outside (d_record_count (v_row v)) removed). }
  destruct (Z.eqb_spec (Z.of_nat (length (outside (d_record_count (v_row v)) removed))) 0) as [Hz|Hz].
  - injection E as <-. assert (Hnone : forall p, ~ live_at at_head (FileRow (tfl_data_file_id file) p)).
    { intros p Hp. apply Hlive in Hp. destruct (outside _ _); [by apply elem_of_nil in Hp|]. cbn in Hz. lia. }
    split; [done..| | |apply counted_none; by intros ? []|apply counted_none; by intros ? []]; intros p; cbn; [specialize (Hnone p)|specialize (Hgone p)]; tauto.
  - destruct (_ || _) in E; injection E as <-.
    + split; [done|by intros ? ? [= <- <-]|done| | |by apply counted_list|apply counted_none; by intros ? []]; intros p; cbn.
      * rewrite Hlive. specialize (Hgone p). tauto.
      * specialize (Hgone p). tauto.
    + split; [by intros ? ? [= <- <-]|done|done| | |done|apply counted_none; by intros ? []]; intros p; cbn -[live_at]; specialize (Hgone p); tauto.
Qed.

Lemma within_elem rows s p : p ∈ within rows s <-> (0 <= p < rows) /\ p ∈ s.
Proof. unfold within. by rewrite elem_of_filter. Qed.

Lemma insert_by_perm {A} (key : A -> Z) a l : insert_by key a l ≡ₚ a :: l.
Proof. induction l as [|b l IH]; cbn; [done|]. destruct (key b <=? key a); [|done]. rewrite IH. apply Permutation_swap. Qed.

Lemma order_by_perm {A} (key : A -> Z) (l : list A) : order_by key l ≡ₚ l.
Proof.
  unfold order_by. cut (forall acc, fold_left (fun sorted a => insert_by key a sorted) l acc ≡ₚ l ++ acc).
  { intros Hc. by rewrite Hc, app_nil_r. }
  induction l as [|a l IH]; intros acc; cbn; [done|]. rewrite IH, insert_by_perm. symmetry. apply Permutation_middle.
Qed.

(** A delete file visible at both snapshots is one row of the catalog. *)
Lemma same_entries file file' v delete delete' t t' :
  NoDup ((fun x => x_id (v_row x)) <$> t_delete_files db) -> listed t file v delete -> listed t' file' v delete' ->
  is_Some (tfl_delete_file_id file) -> tfl_delete_file_id file = tfl_delete_file_id file' ->
  existing_entries file = existing_entries file'.
Proof.
  intros Hn Hl Hl'. rewrite (li_delete_id _ _ _ _ Hl), (li_delete_id _ _ _ _ Hl'). unfold existing_entries.
  rewrite (li_delete_file _ _ _ _ Hl), (li_delete_file _ _ _ _ Hl').
  destruct delete as [x|]; [|by intros [? ?]]. destruct delete' as [x'|]; [|done]. cbn. intros _ [= E].
  destruct (li_delete_row _ _ _ _ Hl x eq_refl) as [Hx _], (li_delete_row _ _ _ _ Hl' x' eq_refl) as [Hx' _].
  by rewrite (by_id_unique (fun x => x_id (v_row x)) _ x x' Hn Hx Hx' E).
Qed.

(** The positions in one set and not in another, as a list in order. *)
Lemma difference_counted (P : Z -> Prop) (s : gset Z) : (forall p, p ∈ s <-> P p) -> counted P (Z.of_nat (size s)).
Proof.
  intros Hs. exists (elements s). split; [apply NoDup_elements|]. split; [|done]. intros p. by rewrite elem_of_elements.
Qed.

(** The part of a file live at both snapshots. *)
Lemma shared_parts_exact file file' existing rows (removed restored : gset Z) :
  row_count file' = Ok rows -> tfl_data_file_id file' = tfl_data_file_id file ->
  (forall p, p ∈ restored -> 0 <= p < rows) ->
  (forall p, p ∈ removed <-> live_at at_head (FileRow (tfl_data_file_id file) p) /\ ~ live_at at_mark (FileRow (tfl_data_file_id file) p)) ->
  (forall p, p ∈ restored <-> live_at at_mark (FileRow (tfl_data_file_id file) p) /\ ~ live_at at_head (FileRow (tfl_data_file_id file) p)) ->
  exact_for (tfl_data_file_id file) (Changed
    (if bool_decide (removed = ∅) then None
     else Some {| rmp_file := file; rmp_existing := existing; rmp_positions := order_by (fun p => p) (elements removed) |})
    (if bool_decide (restored = ∅) then None
     else Some {| rsp_file := file'; rsp_positions := Only restored; rsp_rows := Z.of_nat (size restored) |})).
Proof.
  intros Hrows Hid Hin Hrem Hres.
  assert (Hrem' : forall p, removed_of (Changed (if bool_decide (removed = ∅) then None
     else Some {| rmp_file := file; rmp_existing := existing; rmp_positions := order_by (fun p => p) (elements removed) |}) None) p <-> p ∈ removed).
  { intros p. case_bool_decide as He; cbn [removed_of rmp_positions]; [split; [done|rewrite He; intros Hp; by apply not_elem_of_empty in Hp]|]. by rewrite order_by_elem, elem_of_elements. }
  assert (Hres' : forall p, restored_of (Changed None (if bool_decide (restored = ∅) then None
     else Some {| rsp_file := file'; rsp_positions := Only restored; rsp_rows := Z.of_nat (size restored) |})) p <-> p ∈ restored).
  { intros p. destruct (bool_decide (restored = ∅)) eqn:He; cbn [restored_of rsp_file rsp_positions contains]; [apply bool_decide_eq_true in He; split; [done|rewrite He; intros Hp; by apply not_elem_of_empty in Hp]|]. rewrite Hrows, bool_decide_eq_true. split; [tauto|].
    intros Hp. split; [|done]. exists rows. split; [done|by apply Hin]. }
  split.
  - done.
  - intros r s. by destruct (bool_decide (removed = ∅)); [|intros [= <- _]].
  - intros r s. by destruct (bool_decide (restored = ∅)); [|intros [= _ <-]].
  - intros p. rewrite <- Hrem, <- Hrem'. by destruct (bool_decide (removed = ∅)).
  - intros p. rewrite <- Hres, <- Hres'. by destruct (bool_decide (restored = ∅)).
  - apply (counted_ext (fun p => p ∈ removed)); [intros p; symmetry; etrans; [|apply Hrem']; by destruct (bool_decide (removed = ∅))|].
    destruct (bool_decide (removed = ∅)) eqn:He; cbn [removed_count rmp_positions].
    + apply bool_decide_eq_true in He. apply counted_none. rewrite He. intros p Hp. by apply not_elem_of_empty in Hp.
    + rewrite (Permutation_length (order_by_perm _ _)). by apply difference_counted.
  - apply (counted_ext (fun p => p ∈ restored)); [intros p; symmetry; etrans; [|apply Hres']; by destruct (bool_decide (restored = ∅))|].
    destruct (bool_decide (restored = ∅)) eqn:He; cbn [restored_count rsp_rows].
    + apply bool_decide_eq_true in He. apply counted_none. rewrite He. intros p Hp. by apply not_elem_of_empty in Hp.
    + by apply difference_counted.
Qed.

Lemma shared_file_exact file at_mark_file v delete delete' head_inlined mark_inlined part :
  wf_files db -> NoDup ((fun x => x_id (v_row x)) <$> t_delete_files db) -> holds_history ->
  listed at_head file v delete -> listed at_mark at_mark_file v delete' ->
  inlined_deletes_by_file table_id at_head db = Ok head_inlined -> inlined_deletes_by_file table_id at_mark db = Ok mark_inlined ->
  shared_file at_head at_mark file at_mark_file (head_inlined !! tfl_data_file_id file) (mark_inlined !! tfl_data_file_id file) = Ok part ->
  exact_for (tfl_data_file_id file) part.
Proof.
  intros Hw Hd Hh Hl Hl' Hi Hi' E. unfold shared_file in E. rewrite (listed_rows _ _ _ _ Hl) in E.
  assert (Hid : tfl_data_file_id at_mark_file = tfl_data_file_id file) by by rewrite (li_id _ _ _ _ Hl), (li_id _ _ _ _ Hl').
  replace (mark_inlined !! tfl_data_file_id file) with (mark_inlined !! tfl_data_file_id at_mark_file) in E by (by rewrite Hid).
  destruct (existing_entries file) as [existing|] eqn:Ee; [|done]. cbn [result_bind] in E.
  destruct (removed_at at_head _ _ _) as [rh|] eqn:Erh; [|done]. cbn [result_bind] in E.
  destruct (removed_at at_mark _ _ _) as [rm|] eqn:Erm; [|done]. cbn [result_bind] in E. injection E as <-.
  assert (Hh1 : forall p, 0 <= p < d_record_count (v_row v) -> p ∈ rh <-> ~ live_at at_head (FileRow (tfl_data_file_id file) p)).
  { intros p Hp. rewrite (live_listed _ _ _ _ p Hw Hl). eapply removed_at_spec; [done..| |done|done]. by intros m [= <-]. }
  assert (Hm1 : forall p, 0 <= p < d_record_count (v_row v) -> p ∈ rm <-> ~ live_at at_mark (FileRow (tfl_data_file_id file) p)).
  { intros p Hp. rewrite <- Hid, (live_listed _ _ _ _ p Hw Hl'). eapply removed_at_spec; [done..| |done|done]. intros m.
    destruct (bool_decide _ && _) eqn:Es; [|done]. intros [= <-]. apply andb_true_iff in Es as [Hs%bool_decide_eq_true Heq%bool_decide_eq_true].
    rewrite <- Ee. symmetry. by eapply same_entries. }
  assert (Hin : forall t file' delete'', listed t file' v delete'' -> forall p, live_at t (FileRow (tfl_data_file_id file') p) -> 0 <= p < d_record_count (v_row v)).
  { intros t file' delete'' Hl2 p Hp. rewrite (live_listed _ _ _ _ p Hw Hl2) in Hp. by apply scanned_elem in Hp as [? _]. }
  specialize (Hin _ _ _ Hl) as Hinh. specialize (Hin _ _ _ Hl') as Hinm. rewrite Hid in Hinm.
  set (id := tfl_data_file_id file) in *.
  assert (Hrem : forall p, p ∈ within (d_record_count (v_row v)) (rm ∖ rh) <-> live_at at_head (FileRow id p) /\ ~ live_at at_mark (FileRow id p)).
  { intros p. rewrite within_elem, elem_of_difference. split.
    - intros (Hp & Hpm & Hph). split; [|by apply Hm1]. destruct (decide (p ∈ scanned at_head (v_row v))) as [Hs|Hs];
        rewrite <- (live_listed _ _ _ _ p Hw Hl) in Hs; [done|]. destruct Hph. by apply Hh1.
    - intros [Hlh Hlm]. pose proof (Hinh p Hlh) as Hp. split; [done|]. split; [by apply Hm1|]. intros Hr. by apply Hh1 in Hr. }
  assert (Hres : forall p, p ∈ within (d_record_count (v_row v)) (rh ∖ rm) <-> live_at at_mark (FileRow id p) /\ ~ live_at at_head (FileRow id p)).
  { intros p. rewrite within_elem, elem_of_difference. split.
    - intros (Hp & Hph & Hpm). split; [|by apply Hh1]. destruct (decide (p ∈ scanned at_mark (v_row v))) as [Hs|Hs];
        rewrite <- (live_listed _ _ _ _ p Hw Hl') in Hs; rewrite Hid in Hs; [done|]. destruct Hpm. by apply Hm1.
    - intros [Hlm Hlh]. pose proof (Hinm p Hlm) as Hp. split; [done|]. split; [by apply Hh1|]. intros Hr. by apply Hm1 in Hr. }
  eapply shared_parts_exact; [exact (listed_rows _ _ _ _ Hl')|exact Hid| |exact Hrem|exact Hres]. intros p Hp. by apply within_elem in Hp as [? _].
Qed.

Lemma gone_file_exact file v delete inlined part :
  wf_files db -> holds_history -> listed at_mark file v delete -> inlined_deletes_by_file table_id at_mark db = Ok inlined ->
  (forall p, ~ live_at at_head (FileRow (tfl_data_file_id file) p)) ->
  gone_file at_mark file (inlined !! tfl_data_file_id file) = Ok part -> exact_for (tfl_data_file_id file) part.
Proof.
  intros Hw Hh Hl Hi Hgone E. unfold gone_file in E. rewrite (listed_rows _ _ _ _ Hl) in E.
  destruct (removed_at _ _ _ _) as [removed|] eqn:Er; [|done]. cbn [result_bind] in E. rewrite remaining_outside in E.
  assert (Hlive : forall p, p ∈ outside (d_record_count (v_row v)) removed <-> live_at at_mark (FileRow (tfl_data_file_id file) p)).
  { intros p. rewrite (live_listed _ _ _ _ p Hw Hl). eapply outside_scanned; [done..| |exact Er]. done. }
  pose proof (outside_NoDup (d_record_count (v_row v)) removed) as Hnd. injection E as <-.
  destruct (Z.ltb_spec 0 (Z.of_nat (length (outside (d_record_count (v_row v)) removed)))) as [Hz|Hz].
  - assert (Hres : forall p, restored_of (Changed None (Some {| rsp_file := file; rsp_positions := AllBut removed;
      rsp_rows := Z.of_nat (length (outside (d_record_count (v_row v)) removed)) |})) p <-> p ∈ outside (d_record_count (v_row v)) removed).
    { intros p. cbn. rewrite (listed_rows _ _ _ _ Hl), outside_elem, negb_true_iff, bool_decide_eq_false. split.
      - by intros [(rows & [= <-] & ?) ?].
      - intros [? ?]. split; [by exists (d_record_count (v_row v))|done]. }
    split; [done..|by intros ? ? [= _ <-]| | |apply counted_none; by intros ? []|].
    + intros p. specialize (Hgone p). cbn. tauto.
    + intros p. rewrite Hres, Hlive. specialize (Hgone p). tauto.
    + eapply counted_ext; [intros p; symmetry; apply Hres|]. by apply counted_list.
  - assert (Hnone : forall p, ~ live_at at_mark (FileRow (tfl_data_file_id file) p)).
    { intros p Hp. apply Hlive in Hp. destruct (outside _ _); [by apply elem_of_nil in Hp|]. cbn in Hz. lia. }
    split; [done..| | |apply counted_none; by intros ? []|apply counted_none; by intros ? []]; intros p; cbn; [specialize (Hgone p)|specialize (Hnone p)]; tauto.
Qed.

(** ** All files *)

#[local] Instance Version_eq_dec : EqDecision Version.
Proof. solve_decision. Defined.

#[local] Instance live_at_dec t v : Decision (live_at t v).
Proof.
  destruct v as [f p|name r b]; cbn [live_at].
  - refine (cast_if (decide (Exists (fun file => d_id file = f /\ p ∈ scanned t file) (visible_files table_id t db)))).
    + by apply Exists_exists.
    + by rewrite <- Exists_exists.
  - destruct (decide (name ∈ registered_inlined_tables table_id db)) as [Hin|Hn]; [|right; intros (? & ? & ? & ?); done].
    destruct (t_inlined_data db !! name) as [table|] eqn:Et; [|right; intros (? & ? & ? & ? & ?); congruence].
    destruct (decide (Exists (fun row => n_row_id (v_row row) = r /\ v_begin row = b) (visible_versions t table))) as [Hx|Hx];
      rewrite Exists_exists in Hx.
    + left. destruct Hx as (row & ? & ?). by exists table, row.
    + right. intros (table' & row & _ & [= <-] & ? & ?). apply Hx. by exists row.
Defined.

Lemma pair_files_spec head_files : forall mark_files pairs gone,
  NoDup (tfl_data_file_id <$> head_files) -> pair_files head_files mark_files = (pairs, gone) ->
  fst <$> pairs = head_files /\ (forall file other, (file, other) ∈ pairs -> other = mark_files !! tfl_data_file_id file)
  /\ (forall id file, gone !! id = Some file <-> mark_files !! id = Some file /\ id ∉ tfl_data_file_id <$> head_files).
Proof.
  induction head_files as [|file files IH]; intros mark_files pairs gone Hn E; cbn in E.
  - injection E as <- <-. split_and!; [done|by intros ? ? ?%elem_of_nil|]. intros id f. split; [|tauto]. intros ?. split; [done|]. apply not_elem_of_nil.
  - apply NoDup_cons in Hn as [Hf Hn]. destruct (pair_files files _) as [pairs' gone'] eqn:Ep. injection E as <- <-.
    destruct (IH _ _ _ Hn Ep) as (Hfst & Hother & Hgone). split_and!.
    + change (file :: (fst <$> pairs') = file :: files). by rewrite Hfst.
    + intros f other [[= -> ->]|Hin]%elem_of_cons; [done|]. rewrite (Hother f other Hin). apply lookup_delete_ne. intros Eid.
      apply Hf. rewrite Eid. apply (list_elem_of_fmap_2 tfl_data_file_id). rewrite <- Hfst. exact (list_elem_of_fmap_2 fst pairs' _ Hin).
    + intros id f. rewrite Hgone, lookup_delete_Some. change (tfl_data_file_id <$> file :: files) with (tfl_data_file_id file :: (tfl_data_file_id <$> files)).
      rewrite not_elem_of_cons. naive_solver.
Qed.

Definition listed_at (t id : Z) : Prop := id ∈ tfl_data_file_id <$> get_table_files_for_select table_id t db.

Lemma not_live_unlisted t id p : wf_deletes db -> ~ listed_at t id -> ~ live_at t (FileRow id p).
Proof. intros Hw Hn Hl. apply Hn. destruct (live_somewhere t id p Hw Hl) as (file & Hin & <-). exact (list_elem_of_fmap_2 tfl_data_file_id _ file Hin). Qed.

Lemma Forall2_elem {A B} (P Q : A -> B -> Prop) l k : Forall2 P l k -> (forall a b, a ∈ l -> P a b -> Q a b) -> Forall2 Q l k.
Proof.
  induction 1 as [|a b l k Hab _ IH]; intros HPQ; [constructor|]. constructor; [apply HPQ; [left|done]|].
  apply IH. intros x y Hx. apply HPQ. by right.
Qed.

Lemma file_diffs_exact limit head_inlined mark_inlined parts :
  wf db -> NoDup ((fun x => x_id (v_row x)) <$> t_delete_files db) -> holds_history ->
  inlined_deletes_by_file table_id at_head db = Ok head_inlined -> inlined_deletes_by_file table_id at_mark db = Ok mark_inlined ->
  file_diffs at_head at_mark limit (get_table_files_for_select table_id at_head db) (get_table_files_for_select table_id at_mark db)
    head_inlined mark_inlined = Ok parts ->
  exists ids parts', parts ≡ₚ parts' /\ NoDup ids /\ Forall2 exact_for ids parts'
    /\ (forall id, listed_at at_head id \/ listed_at at_mark id -> id ∈ ids).
Proof.
  intros Hw Hd Hh Hi Hi' E. pose proof (listed_once table_id at_head db Hw) as Hnh. pose proof (listed_once table_id at_mark db Hw) as Hnm.
  destruct Hw as (Hwf & Hwd & _). unfold file_diffs in E.
  set (hs := get_table_files_for_select table_id at_head db) in *. set (ms := get_table_files_for_select table_id at_mark db) in *.
  destruct (pair_files hs (by_file_id ms)) as [pairs gone] eqn:Ep. destruct (pair_files_spec _ _ _ _ Hnh Ep) as (Hfst & Hother & Hgone).
  assert (Hms : forall id file, by_file_id ms !! id = Some file <-> file ∈ ms /\ tfl_data_file_id file = id).
  { intros id file. unfold by_file_id. rewrite (index_elem tfl_data_file_id (fun f => f) ms id file Hnm). split; [by intros (f & ? & ? & ->)|].
    intros [? ?]. by exists file. }
  destruct (mapM_result _ pairs) as [of_head|] eqn:Eh; [|done]. cbn [result_bind] in E.
  destruct (mapM_result _ (map_to_list gone)) as [of_mark|] eqn:Em; [|done]. cbn [result_bind] in E. injection E as <-.
  apply mapM_result_ok in Eh, Em.
  exists (((fun pair => tfl_data_file_id pair.1) <$> pairs) ++ (fst <$> map_to_list gone)), (of_head ++ of_mark).
  assert (Hids : (fun pair => tfl_data_file_id pair.1) <$> pairs = tfl_data_file_id <$> hs) by by rewrite <- Hfst, <- list_fmap_compose.
  split; [apply order_by_perm|]. split; [|split].
  - rewrite Hids. apply NoDup_app. split; [done|]. split; [|apply NoDup_fst_map_to_list].
    intros id Hid ([id' file] & -> & Hin%elem_of_map_to_list)%list_elem_of_fmap. by apply Hgone in Hin as [_ Hn].
  - apply Forall2_app; apply Forall2_fmap_l.
    + eapply Forall2_elem; [exact Eh|]. intros [file other] part Hin Hpart. cbn in *. specialize (Hother file other Hin).
      assert (Hfile : file ∈ hs) by (rewrite <- Hfst; exact (list_elem_of_fmap_2 fst pairs _ Hin)).
      destruct (listing_elem at_head file Hwd Hfile) as (v & delete & Hl). destruct other as [at_mark_file|].
      * symmetry in Hother. apply Hms in Hother as [Hm Hid]. destruct (listing_elem at_mark at_mark_file Hwd Hm) as (w & delete' & Hl').
        assert (Hvw : w = v).
        { apply (by_id_unique (fun v => d_id (v_row v)) _ w v Hwf (li_row _ _ _ _ Hl') (li_row _ _ _ _ Hl)).
          by rewrite <- (li_id _ _ _ _ Hl), <- (li_id _ _ _ _ Hl'). }
        subst w. by eapply shared_file_exact.
      * eapply added_file_exact; [done..| |done]. intros p. apply not_live_unlisted; [done|].
        intros (f & Hid & Hf)%list_elem_of_fmap. symmetry in Hother. assert (by_file_id ms !! tfl_data_file_id file = Some f) by (by apply Hms).
        congruence.
    + eapply Forall2_elem; [exact Em|]. intros [id file] part Hin%elem_of_map_to_list Hpart. cbn in *.
      apply Hgone in Hin as [Hin Hn]. apply Hms in Hin as [Hm <-]. destruct (listing_elem at_mark file Hwd Hm) as (v & delete & Hl).
      eapply gone_file_exact; [done..| |done]. intros p. by apply not_live_unlisted.
  - intros id Hl. rewrite Hids, elem_of_app. destruct (decide (id ∈ tfl_data_file_id <$> hs)) as [|Hn]; [by left|right].
    destruct Hl as [?|(file & -> & Hf)%list_elem_of_fmap]; [done|].
    assert (Hg : gone !! tfl_data_file_id file = Some file) by (apply Hgone; split; [by apply Hms|done]).
    apply list_elem_of_fmap. exists (tfl_data_file_id file, file). split; [done|by apply elem_of_map_to_list].
Qed.

(** What the parts add up to. *)
Definition ended_of (part : FileDiff) : list DroppedDataFile := match part with Ended file _ => [file] | _ => [] end.
Definition removed_list (part : FileDiff) : list RemovedPositions := match part with Changed removed _ => option_list removed | _ => [] end.
Definition restored_list (part : FileDiff) : list RestoredPositions := match part with Changed _ restored => option_list restored | _ => [] end.

Lemma fold_parts parts : forall d,
  let d' := foldl add_file_diff d parts in
  rd_ended d' = rd_ended d ++ (parts ≫= ended_of) /\ rd_removed d' = rd_removed d ++ (parts ≫= removed_list)
  /\ rd_restored d' = rd_restored d ++ (parts ≫= restored_list)
  /\ rd_rows_removed d' = rd_rows_removed d + sum_Z (removed_count <$> parts)
  /\ rd_rows_restored d' = rd_rows_restored d + sum_Z (restored_count <$> parts).
Proof.
  induction parts as [|part parts IH]; intros d; cbn [foldl].
  { cbn [mbind list_bind fmap list_fmap]. change (sum_Z []) with 0. by rewrite !app_nil_r, !Z.add_0_r. }
  destruct (IH (add_file_diff d part)) as (-> & -> & -> & -> & ->). rewrite !bind_cons, !fmap_cons.
  change (sum_Z (?a :: ?l)) with (a + sum_Z l).
  destruct part as [file rows|removed restored]; cbn [add_file_diff rd_ended rd_removed rd_restored rd_rows_removed rd_rows_restored ended_of removed_list restored_list removed_count restored_count].
  - rewrite <- !app_assoc. cbn [app]. split_and!; [done..|lia|lia].
  - rewrite <- !app_assoc. split_and!; [done..| |]; destruct removed, restored; cbn [removed_count restored_count]; lia.
Qed.

(** A part removes and restores rows of a file. *)
Lemma removed_of_part id part f p : exact_for id part ->
  ((exists file, file ∈ ended_of part /\ dr_data_file_id file = f /\ live_at at_head (FileRow f p))
   \/ (exists removed, removed ∈ removed_list part /\ tfl_data_file_id (rmp_file removed) = f /\ p ∈ rmp_positions removed))
  <-> f = id /\ live_at at_head (FileRow id p) /\ ~ live_at at_mark (FileRow id p).
Proof.
  intros Hex. rewrite <- (ex_removed _ _ Hex). destruct part as [file rows|[removed|] restored]; cbn [ended_of removed_list option_list removed_of].
  - pose proof (ex_ended _ _ Hex file rows eq_refl) as Hid. split.
    + intros [(x & ->%list_elem_of_singleton & <- & ?)|(x & Hx%elem_of_nil & _)]; [by split|done].
    + intros [-> Hl]. left. exists file. split; [left|]. by rewrite <- Hid.
  - pose proof (ex_removed_file _ _ Hex removed restored eq_refl) as Hid. split.
    + intros [(x & Hx%elem_of_nil & _)|(x & ->%list_elem_of_singleton & <- & ?)]; [done|by split].
    + intros [-> Hl]. right. exists removed. split; [left|done].
  - split; [intros [(x & Hx%elem_of_nil & _)|(x & Hx%elem_of_nil & _)]; done|by intros [_ []]].
Qed.

Definition restores_position (restored : RestoredPositions) (p : Z) : Prop :=
  (exists rows, row_count (rsp_file restored) = Ok rows /\ 0 <= p < rows) /\ contains (rsp_positions restored) p = true.

Lemma restored_of_part id part f p : exact_for id part ->
  (exists restored, restored ∈ restored_list part /\ tfl_data_file_id (rsp_file restored) = f /\ restores_position restored p)
  <-> f = id /\ live_at at_mark (FileRow id p) /\ ~ live_at at_head (FileRow id p).
Proof.
  intros Hex. rewrite <- (ex_restored _ _ Hex). destruct part as [file rows|removed [restored|]]; cbn [restored_list option_list restored_of].
  - split; [intros (x & Hx%elem_of_nil & _); done|by intros [_ []]].
  - pose proof (ex_restored_file _ _ Hex removed restored eq_refl) as Hid. split.
    + intros (x & ->%list_elem_of_singleton & <- & ?). by split.
    + intros [-> Hl]. exists restored. split; [left|done].
  - split; [intros (x & Hx%elem_of_nil & _); done|by intros [_ []]].
Qed.

Lemma Forall2_both {A B} (P : A -> B -> Prop) l k : Forall2 P l k ->
  (forall a, a ∈ l -> exists b, b ∈ k /\ P a b) /\ (forall b, b ∈ k -> exists a, a ∈ l /\ P a b).
Proof.
  induction 1 as [|a b l k Hab _ [IHl IHk]]; [by split; intros x Hx%elem_of_nil|]. split.
  - intros x [->|Hx]%elem_of_cons; [exists b; split; [left|done]|]. destruct (IHl x Hx) as (y & ? & ?). exists y. split; [by right|done].
  - intros y [->|Hy]%elem_of_cons; [exists a; split; [left|done]|]. destruct (IHk y Hy) as (x & ? & ?). exists x. split; [by right|done].
Qed.

(** The versions the parts of distinct files remove, counted. *)
Lemma counted_parts (P : Z -> Z -> Prop) (count : FileDiff -> Z) ids parts : NoDup ids ->
  Forall2 (fun id part => counted (P id) (count part)) ids parts ->
  exists l : list Version, NoDup l /\ (forall v, v ∈ l <-> exists id p, v = FileRow id p /\ id ∈ ids /\ P id p)
    /\ sum_Z (count <$> parts) = Z.of_nat (length l).
Proof.
  intros Hn Hall. induction Hall as [|id part ids parts (k & Hk & Hkp & Hc) _ IH].
  { exists []. split; [constructor|]. split; [|done]. intros v. split; [by intros ?%elem_of_nil|]. by intros (id & p & _ & ?%elem_of_nil & _). }
  apply NoDup_cons in Hn as [Hid Hn]. destruct (IH Hn) as (l & Hl & Hlv & Hcount). exists ((FileRow id <$> k) ++ l). split_and!.
  - apply NoDup_app. split; [apply NoDup_fmap; [by intros ? ? [= ->]|done]|]. split; [|done].
    intros v (p & -> & _)%list_elem_of_fmap (id' & p' & [= <- _] & Hin & _)%Hlv. done.
  - intros v. rewrite elem_of_app, list_elem_of_fmap, Hlv. split.
    + intros [(p & -> & Hp)|(id' & p & -> & Hin & Hp)]; [exists id, p; split_and!; [done|left|by apply Hkp]|].
      exists id', p. split_and!; [done|by right|done].
    + intros (id' & p & -> & [->|Hin]%elem_of_cons & Hp); [left; exists p; split; [done|by apply Hkp]|right; by exists id', p].
  - change (sum_Z (count <$> part :: parts)) with (count part + sum_Z (count <$> parts)). rewrite Hc, Hcount, length_app, length_fmap. lia.
Qed.

(** ** Inlined rows *)

(** An inlined table is registered once, and has one version of a row at a snapshot. *)
Definition one_version : Prop :=
  NoDup (registered_inlined_tables table_id db)
  /\ forall t name table, t_inlined_data db !! name = Some table -> NoDup ((fun v => n_row_id (v_row v)) <$> visible_versions t table).

Lemma read_tables t tables : one_version -> inlined_data_with_row_ids_at table_id t db = Ok tables ->
  NoDup (table ← tables; (fun v => InlinedVersion table.1.1 (n_row_id (v_row v)) (v_begin v)) <$> table.2)
  /\ (forall name row, (exists table, table ∈ tables /\ table.1.1 = name /\ row ∈ table.2)
      <-> name ∈ registered_inlined_tables table_id db
          /\ exists table, t_inlined_data db !! name = Some table /\ row ∈ visible_versions t table)
  /\ forall table, table ∈ tables -> NoDup ((fun v => n_row_id (v_row v)) <$> table.2).
Proof.
  intros [Hreg Hone] E. unfold inlined_data_with_row_ids_at, read_inlined_rows in E.
  destruct (mapM_result _ _) as [read|] eqn:Er; [|done]. cbn [result_bind] in E. injection E as <-. apply mapM_result_ok in Er.
  assert (Hread : Forall2 (fun name table => table.1.1 = name /\ exists physical, t_inlined_data db !! name = Some physical
      /\ table.2 ≡ₚ visible_versions t physical) (registered_inlined_tables table_id db) read).
  { eapply Forall2_elem; [exact Er|]. intros name table _ Ht. cbn in Ht. destruct (t_inlined_data db !! name) as [physical|]; [|done]. cbn in Ht.
    destruct (system_from_columns name (p_columns physical)); [|done]. cbn in Ht. injection Ht as <-. split; [done|]. exists physical.
    split; [done|]. cbn. by rewrite !order_by_perm. }
  clear Er. pose proof (Forall2_both _ _ _ Hread) as [Hto Hfrom].
  assert (Hrows : forall table, table ∈ read -> NoDup ((fun v => n_row_id (v_row v)) <$> table.2)).
  { intros table Hin. destruct (Hfrom table Hin) as (name & _ & _ & physical & Hp & Hperm). rewrite Hperm. by eapply Hone. }
  assert (Hin : forall table, table ∈ List.filter (fun table => negb (is_empty table.2)) read <-> negb (is_empty table.2) = true /\ table ∈ read).
  { intros table. exact (elem_of_select (fun table => negb (is_empty table.2)) read table). }
  split_and!.
  - apply NoDup_bind.
    + intros x1 x2 v [_ Hx1]%Hin [_ Hx2]%Hin (r1 & -> & _)%list_elem_of_fmap (r2 & [= Hname _ _] & _)%list_elem_of_fmap.
      assert (Hnames : NoDup ((fun table => table.1.1) <$> read)).
      { replace ((fun table => table.1.1) <$> read) with (registered_inlined_tables table_id db); [done|].
        clear -Hread. induction Hread as [|name table l k [Hn _] _ IH]; [done|]. rewrite fmap_cons. by f_equal. }
      clear -Hx1 Hx2 Hname Hnames. apply list_elem_of_lookup in Hx1 as [i Hi], Hx2 as [j Hj]. assert (i = j); [|congruence].
      eapply (NoDup_lookup _ i j x1.1.1 Hnames); rewrite list_lookup_fmap, ?Hi, ?Hj; cbn; congruence.
    + intros x [_ Hx]%Hin. specialize (Hrows x Hx). apply (NoDup_fmap_1 (fun v => match v with InlinedVersion _ r _ => r | FileRow _ p => p end)).
      rewrite <- list_fmap_compose. exact Hrows.
    + apply NoDup_ListNoDup, List.NoDup_filter, NoDup_ListNoDup. apply (NoDup_fmap_1 (fun table => table.1.1)).
      replace ((fun table => table.1.1) <$> read) with (registered_inlined_tables table_id db); [done|].
      clear -Hread. induction Hread as [|name table l k [Hn _] _ IH]; [done|]. rewrite fmap_cons. by f_equal.
  - intros name row. split.
    + intros (table & [_ Htable]%Hin & <- & Hrow). destruct (Hfrom table Htable) as (name & Hname & -> & physical & Hp & Hperm).
      split; [done|]. exists physical. split; [done|]. by rewrite <- Hperm.
    + intros (Hname & physical & Hp & Hrow). destruct (Hto name Hname) as (table & Htable & Hn & physical' & Hp' & Hperm).
      assert (physical' = physical) as -> by congruence. exists table. rewrite <- Hperm in Hrow. split; [|done]. apply Hin. split; [|done].
      destruct table.2; [by apply elem_of_nil in Hrow|done].
  - intros table [_ Ht]%Hin. by apply Hrows.
Qed.

(** The inlined rows visible at a snapshot, by table. *)
Lemma live_inlined t tables name r b : one_version -> inlined_data_with_row_ids_at table_id t db = Ok tables ->
  live_at t (InlinedVersion name r b)
  <-> exists table row, table ∈ tables /\ table.1.1 = name /\ row ∈ table.2 /\ n_row_id (v_row row) = r /\ v_begin row = b.
Proof.
  intros Hone E. destruct (read_tables t tables Hone E) as (_ & Hrows & _). cbn [live_at]. split.
  - intros (physical & row & Hreg & Hp & Hrow & Hr & Hb). destruct (Hrows name row) as [_ Hback].
    destruct Hback as (table & ? & ? & ?); [split; [done|by exists physical]|]. by exists table, row.
  - intros (table & row & Ht & Hn & Hrow & Hr & Hb). destruct (Hrows name row) as [Hto _].
    destruct Hto as (Hreg & physical & Hp & Hv); [by exists table|]. by exists physical, row.
Qed.

(** The versions of some of the rows. *)
Definition versions_of (p : str -> versioned InlinedRow -> bool) (tables : list (str * list str * list (versioned InlinedRow))) : list Version :=
  table ← tables; (fun v => InlinedVersion table.1.1 (n_row_id (v_row v)) (v_begin v)) <$> select (p table.1.1) table.2.

Lemma versions_NoDup t tables p : one_version -> inlined_data_with_row_ids_at table_id t db = Ok tables -> NoDup (versions_of p tables).
Proof.
  intros Hone E. destruct (read_tables t tables Hone E) as (Hn & _ & _). eapply sublist_NoDup; [exact Hn|]. unfold versions_of.
  clear. induction tables as [|table tables IH]; [constructor|]. rewrite !bind_cons. apply sublist_app; [|done].
  apply fmap_sublist, select_sublist.
Qed.

Lemma versions_elem p tables v : v ∈ versions_of p tables <->
  exists table row, table ∈ tables /\ row ∈ table.2 /\ p table.1.1 row = true /\ v = InlinedVersion table.1.1 (n_row_id (v_row row)) (v_begin row).
Proof.
  unfold versions_of. rewrite list_elem_of_bind. split.
  - intros (table & (row & -> & [Hp Hrow]%elem_of_select)%list_elem_of_fmap & Ht). by exists table, row.
  - intros (table & row & Ht & Hrow & Hp & ->). exists table. split; [|done]. apply list_elem_of_fmap. exists row. split; [done|]. by apply elem_of_select.
Qed.

(** ** The diff *)

(** The versions a diff removes, and those it restores. A file that is ended loses all its
    live rows; a reference to an inlined row names its live version. *)
Definition removes (d : RestoreDiff) (v : Version) : Prop :=
  match v with
  | FileRow f p =>
      (exists file, file ∈ rd_ended d /\ dr_data_file_id file = f /\ live_at at_head v)
      \/ (exists removed, removed ∈ rd_removed d /\ tfl_data_file_id (rmp_file removed) = f /\ p ∈ rmp_positions removed)
  | InlinedVersion name r _ => {| irr_table_name := name; irr_row_id := r |} ∈ rd_removed_inlined d /\ live_at at_head v
  end.
Definition restores (d : RestoreDiff) (v : Version) : Prop :=
  match v with
  | FileRow f p => exists restored, restored ∈ rd_restored d /\ tfl_data_file_id (rsp_file restored) = f /\ restores_position restored p
  | InlinedVersion name r b => exists rows row, (name, rows) ∈ rd_restored_inlined d /\ row ∈ rows
      /\ n_row_id (v_row row) = r /\ v_begin row = b
  end.

(** The parts of the files, as a whole. *)
Lemma parts_exact ids parts (base : RestoreDiff) f p :
  rd_ended base = [] -> rd_removed base = [] -> rd_restored base = [] ->
  wf_deletes db -> Forall2 exact_for ids parts -> (forall id, listed_at at_head id \/ listed_at at_mark id -> id ∈ ids) ->
  (removes (foldl add_file_diff base parts) (FileRow f p) <-> live_at at_head (FileRow f p) /\ ~ live_at at_mark (FileRow f p))
  /\ (restores (foldl add_file_diff base parts) (FileRow f p) <-> live_at at_mark (FileRow f p) /\ ~ live_at at_head (FileRow f p)).
Proof.
  intros He Hr Hs Hwd Hall Hids. destruct (fold_parts parts base) as (Ee & Er & Es & _ & _). rewrite He in Ee. rewrite Hr in Er. rewrite Hs in Es.
  destruct (Forall2_both _ _ _ Hall) as [Hto Hfrom].
  assert (Hid : forall t, live_at t (FileRow f p) -> listed_at t f).
  { intros t Hl. destruct (live_somewhere t f p Hwd Hl) as (file & Hin & <-). exact (list_elem_of_fmap_2 tfl_data_file_id _ file Hin). }
  unfold removes, restores. rewrite Ee, Er, Es. cbn [app]. split; split.
  - intros [(file & (part & Hf & Hp)%list_elem_of_bind & Hfid & Hl)|(removed & (part & Hf & Hp)%list_elem_of_bind & Hfid & Hl)];
      destruct (Hfrom part Hp) as (id & _ & Hex); destruct (removed_of_part id part f p Hex) as [Hgo _];
      (destruct Hgo as (-> & ?); [|done]); [left; by exists file|right; by exists removed].
  - intros [Hl Hn]. destruct (Hto f) as (part & Hp & Hex); [apply Hids; left; by apply Hid|].
    destruct (removed_of_part f part f p Hex) as [_ [(file & ? & ? & ?)|(removed & ? & ? & ?)]]; [done| |].
    + left. exists file. split; [|done]. apply list_elem_of_bind. by exists part.
    + right. exists removed. split; [|done]. apply list_elem_of_bind. by exists part.
  - intros (restored & (part & Hf & Hp)%list_elem_of_bind & Hfid & Hl). destruct (Hfrom part Hp) as (id & _ & Hex).
    destruct (restored_of_part id part f p Hex) as [Hgo _]. destruct Hgo as (-> & ?); [by exists restored|done].
  - intros [Hl Hn]. destruct (Hto f) as (part & Hp & Hex); [apply Hids; right; by apply Hid|].
    destruct (restored_of_part f part f p Hex) as [_ (restored & ? & ? & ?)]; [done|].
    exists restored. split; [|done]. apply list_elem_of_bind. by exists part.
Qed.

(** The inlined rows visible at the head and begun since the mark are those live at the head
    alone. *)
Lemma begun_since head_rows table row : one_version -> at_mark < at_head ->
  inlined_data_with_row_ids_at table_id at_head db = Ok head_rows -> table ∈ head_rows -> row ∈ table.2 ->
  at_mark <? v_begin row = true <-> ~ live_at at_mark (InlinedVersion table.1.1 (n_row_id (v_row row)) (v_begin row)).
Proof.
  intros Hone Hlt E Ht Hrow. destruct (read_tables at_head head_rows Hone E) as (_ & Hrows & _).
  destruct (Hrows table.1.1 row) as [Hto _]. destruct Hto as (Hreg & physical & Hp & Hvis); [by exists table|].
  apply elem_of_select in Hvis as [Hv Hin]. split.
  - intros Hb (physical' & row' & _ & _ & [Hv' _]%elem_of_select & _ & Hb'). unfold visible in Hv'. lia.
  - intros Hn. destruct (Z.ltb_spec at_mark (v_begin row)); [done|]. exfalso. apply Hn. exists physical, row.
    split_and!; [done|done| |done|done]. apply elem_of_select. split; [|done]. unfold visible in *. destruct (v_end row); lia.
Qed.

(** The inlined rows removed and restored. *)
Lemma removed_inlined_exact head_rows name r b : one_version -> at_mark < at_head ->
  inlined_data_with_row_ids_at table_id at_head db = Ok head_rows ->
  {| irr_table_name := name; irr_row_id := r |} ∈ removed_refs at_mark head_rows /\ live_at at_head (InlinedVersion name r b)
  <-> live_at at_head (InlinedVersion name r b) /\ ~ live_at at_mark (InlinedVersion name r b).
Proof.
  intros Hone Hlt E. destruct (read_tables at_head head_rows Hone E) as (_ & Hrows & _). split.
  - intros [Hin Hl]. split; [done|]. apply list_elem_of_bind in Hin as (table & Hin & Ht).
    apply list_elem_of_fmap in Hin as (w & [= -> ->] & [Hw Hwin]%elem_of_select).
    apply (live_inlined _ _ _ _ _ Hone E) in Hl as (table' & row & Ht' & Hn & Hrow & Hr & <-).
    assert (Hsame : row = w).
    { destruct (Hrows table.1.1 w) as [Hto _]. destruct Hto as (_ & ph & Hph & Hvis); [by exists table|].
      destruct (Hrows table'.1.1 row) as [Hto' _]. destruct Hto' as (_ & ph' & Hph' & Hvis'); [by exists table'|].
      rewrite Hn in Hph'. assert (ph' = ph) as -> by congruence. destruct Hone as [_ Hone].
      eapply (by_id_unique (fun v => n_row_id (v_row v)) (visible_versions at_head ph)); [by eapply Hone|done..]. }
    subst row. by apply (begun_since head_rows table w Hone Hlt E Ht Hwin).
  - intros [Hl Hn]. split; [|done]. apply (live_inlined _ _ _ _ _ Hone E) in Hl as (table & row & Ht & <- & Hrow & <- & <-).
    apply list_elem_of_bind. exists table. split; [|done]. apply list_elem_of_fmap. exists row. split; [done|]. apply elem_of_select.
    split; [|done]. by apply (begun_since head_rows table row Hone Hlt E Ht Hrow).
Qed.

Lemma row_keys_live head_rows n i g : one_version -> inlined_data_with_row_ids_at table_id at_head db = Ok head_rows ->
  (n, i, g) ∈ row_keys head_rows <-> live_at at_head (InlinedVersion n i g).
Proof.
  intros Hone Eh. rewrite (live_inlined _ _ _ _ _ Hone Eh). unfold row_keys. rewrite elem_of_list_to_set, list_elem_of_bind. split.
  - intros (table & (row & [= -> -> ->] & Hrow)%list_elem_of_fmap & Ht). by exists table, row.
  - intros (table & row & Ht & <- & Hrow & <- & <-). exists table. split; [|done]. apply list_elem_of_fmap. by exists row.
Qed.

Lemma restored_inlined_exact head_rows mark_rows name r b : one_version ->
  inlined_data_with_row_ids_at table_id at_head db = Ok head_rows -> inlined_data_with_row_ids_at table_id at_mark db = Ok mark_rows ->
  (exists rows row, (name, rows) ∈ kept_rows (row_keys head_rows) mark_rows /\ row ∈ rows /\ n_row_id (v_row row) = r /\ v_begin row = b)
  <-> live_at at_mark (InlinedVersion name r b) /\ ~ live_at at_head (InlinedVersion name r b).
Proof.
  intros Hone Eh Em. assert (Hkey : forall n i g, _) by exact (fun n i g => row_keys_live head_rows n i g Hone Eh).
  rewrite (live_inlined _ _ _ _ _ Hone Em). unfold kept_rows. split.
  - intros (rows & row & [_ Hin]%elem_of_select & Hrow & <- & <-). apply list_elem_of_fmap in Hin as (table & [= -> ->] & Ht).
    apply elem_of_select in Hrow as [Hk Hrow]. apply negb_true_iff, bool_decide_eq_false in Hk. split; [by exists table, row|].
    by rewrite <- Hkey.
  - intros [(table & row & Ht & <- & Hrow & <- & <-) Hn]. rewrite <- Hkey in Hn.
    exists (select (fun v => negb (bool_decide ((table.1.1, n_row_id (v_row v), v_begin v) ∈ row_keys head_rows))) table.2), row.
    assert (Hkept : row ∈ select (fun v => negb (bool_decide ((table.1.1, n_row_id (v_row v), v_begin v) ∈ row_keys head_rows))) table.2).
    { apply elem_of_select. split; [|done]. by apply negb_true_iff, bool_decide_eq_false. }
    split_and!; [|done..]. apply elem_of_select. split.
    + cbn [snd]. destruct (select _ _); [by apply elem_of_nil in Hkept|done].
    + apply list_elem_of_fmap. by exists table.
Qed.

(** The lists of the diff, as versions. *)
Lemma removed_refs_versions mark tables :
  length (removed_refs mark tables) = length (versions_of (fun _ v => mark <? v_begin v) tables).
Proof.
  unfold removed_refs, versions_of. induction tables as [|table tables IH]; [done|]. rewrite !bind_cons, !length_app, !length_fmap. by rewrite IH.
Qed.

Lemma kept_rows_versions keys tables :
  length (kept_rows keys tables ≫= snd)
  = length (versions_of (fun name v => negb (bool_decide ((name, n_row_id (v_row v), v_begin v) ∈ keys))) tables).
Proof.
  unfold kept_rows, versions_of. induction tables as [|table tables IH]; [done|]. rewrite fmap_cons, bind_cons, length_app, length_fmap, <- IH.
  cbn [List.filter]. destruct (is_empty _) eqn:Ee; cbn [negb snd] in *; [|by rewrite bind_cons, length_app].
  destruct (select _ table.2); [done|discriminate Ee].
Qed.

Lemma join_counts (P Q : Version -> Prop) l k :
  NoDup l -> NoDup k -> (forall v, v ∈ l <-> P v) -> (forall v, v ∈ k <-> Q v) -> (forall v, P v -> ~ Q v) ->
  NoDup (l ++ k) /\ (forall v, v ∈ l ++ k <-> P v \/ Q v) /\ Z.of_nat (length (l ++ k)) = Z.of_nat (length l) + Z.of_nat (length k).
Proof.
  intros Hl Hk HP HQ Hd. split_and!; [|intros v; by rewrite elem_of_app, HP, HQ|rewrite length_app; lia].
  apply NoDup_app. split; [done|]. split; [|done]. intros v Hv Hv'. apply HP in Hv. apply HQ in Hv'. by eapply Hd.
Qed.

(** The versions live at one snapshot and not at another, of files and of inlined tables. *)
Definition only_at (t t' : Z) (v : Version) : Prop := live_at t v /\ ~ live_at t' v.

Lemma counted_file_versions ids parts (count : FileDiff -> Z) t t' : NoDup ids -> wf_deletes db ->
  (forall id, listed_at t id -> id ∈ ids) ->
  Forall2 (fun id part => counted (fun p => only_at t t' (FileRow id p)) (count part)) ids parts ->
  exists l, NoDup l /\ (forall v, v ∈ l <-> (exists f p, v = FileRow f p) /\ only_at t t' v) /\ sum_Z (count <$> parts) = Z.of_nat (length l).
Proof.
  intros Hn Hwd Hids Hall. destruct (counted_parts (fun id p => only_at t t' (FileRow id p)) count ids parts Hn Hall) as (l & Hl & Hv & Hc).
  exists l. split; [done|]. split; [|done]. intros v. rewrite Hv. split.
  - intros (id & p & -> & _ & ?). split; [by exists id, p|done].
  - intros [(f & p & ->) Ho]. exists f, p. split; [done|]. split; [|done]. apply Hids. destruct Ho as [Hlive _].
    destruct (live_somewhere t f p Hwd Hlive) as (file & Hin & <-). exact (list_elem_of_fmap_2 tfl_data_file_id _ file Hin).
Qed.

Definition of_file (v : Version) : Prop := exists f p, v = FileRow f p.
Definition of_inlined (v : Version) : Prop := exists name r b, v = InlinedVersion name r b.
Definition counted_versions (P : Version -> Prop) (n : Z) : Prop :=
  exists l, NoDup l /\ (forall v, v ∈ l <-> P v) /\ n = Z.of_nat (length l).

Lemma counted_versions_ext (P Q : Version -> Prop) n : (forall v, P v <-> Q v) -> counted_versions P n -> counted_versions Q n.
Proof. intros HPQ (l & Hn & Hl & ->). exists l. split_and!; [done| |done]. intros v. by rewrite Hl. Qed.

Lemma counted_both P m n : counted_versions (fun v => of_file v /\ P v) m -> counted_versions (fun v => of_inlined v /\ P v) n ->
  counted_versions P (m + n).
Proof.
  intros (l & Hl & Hlv & ->) (k & Hk & Hkv & ->). destruct (join_counts _ _ l k Hl Hk Hlv Hkv) as (Hn & Hin & Hlen).
  - intros v [(f & p & ->) _] [(name & r & b & [=]) _].
  - exists (l ++ k). split; [done|]. split; [|done]. intros v. rewrite Hin. split; [tauto|]. intros HP.
    destruct v as [f p|name r b]; [left; split; [by exists f, p|done]|right; split; [by exists name, r, b|done]].
Qed.

Lemma removed_inlined_counted head_rows : one_version -> at_mark < at_head ->
  inlined_data_with_row_ids_at table_id at_head db = Ok head_rows ->
  counted_versions (fun v => of_inlined v /\ only_at at_head at_mark v) (Z.of_nat (length (removed_refs at_mark head_rows))).
Proof.
  intros Hone Hlt E. exists (versions_of (fun _ v => at_mark <? v_begin v) head_rows).
  split; [by eapply versions_NoDup|]. split; [|by rewrite removed_refs_versions]. intros v. rewrite versions_elem. split.
  - intros (table & row & Ht & Hrow & Hb & ->). split; [unfold of_inlined; eauto|]. split.
    + apply (live_inlined _ _ _ _ _ Hone E). by exists table, row.
    + by apply (begun_since head_rows table row Hone Hlt E Ht Hrow).
  - intros [(name & r & b & ->) [Hl Hn]]. apply (live_inlined _ _ _ _ _ Hone E) in Hl as (table & row & Ht & <- & Hrow & <- & <-).
    exists table, row. split_and!; [done|done| |done]. by apply (begun_since head_rows table row Hone Hlt E Ht Hrow).
Qed.

Lemma restored_inlined_counted head_rows mark_rows : one_version ->
  inlined_data_with_row_ids_at table_id at_head db = Ok head_rows -> inlined_data_with_row_ids_at table_id at_mark db = Ok mark_rows ->
  counted_versions (fun v => of_inlined v /\ only_at at_mark at_head v) (Z.of_nat (length (kept_rows (row_keys head_rows) mark_rows ≫= snd))).
Proof.
  intros Hone Eh Em. eexists. split; [eapply (versions_NoDup at_mark mark_rows); [done|exact Em]|].
  split; [|by rewrite kept_rows_versions]. intros v. rewrite versions_elem. split.
  - intros (table & row & Ht & Hrow & Hk%negb_true_iff%bool_decide_eq_false & ->). split; [unfold of_inlined; eauto|]. split.
    + apply (live_inlined _ _ _ _ _ Hone Em). by exists table, row.
    + by rewrite <- (row_keys_live head_rows _ _ _ Hone Eh).
  - intros [(name & r & b & ->) [Hl Hn]]. apply (live_inlined _ _ _ _ _ Hone Em) in Hl as (table & row & Ht & <- & Hrow & <- & <-).
    exists table, row. split_and!; [done|done| |done]. apply negb_true_iff, bool_decide_eq_false. by rewrite (row_keys_live head_rows _ _ _ Hone Eh).
Qed.

Lemma parts_in_order (parts parts' : list FileDiff) ids : parts ≡ₚ parts' -> NoDup ids -> Forall2 exact_for ids parts' ->
  exists ids', ids' ≡ₚ ids /\ NoDup ids' /\ Forall2 exact_for ids' parts.
Proof.
  intros Hp Hn Hall. apply Forall2_flip in Hall. symmetry in Hp.
  destruct (Permutation_Forall2 Hp Hall) as (ids' & Hids & Hall'). exists ids'. split; [done|].
  split; [by rewrite <- Hids|by apply Forall2_flip].
Qed.

Lemma parts_counted ids parts : NoDup ids -> wf_deletes db -> (forall id, listed_at at_head id \/ listed_at at_mark id -> id ∈ ids) ->
  Forall2 exact_for ids parts ->
  counted_versions (fun v => of_file v /\ only_at at_head at_mark v) (sum_Z (removed_count <$> parts))
  /\ counted_versions (fun v => of_file v /\ only_at at_mark at_head v) (sum_Z (restored_count <$> parts)).
Proof.
  intros Hn Hwd Hids Hall. split.
  - apply (counted_file_versions ids parts removed_count at_head at_mark Hn Hwd); [intros id ?; apply Hids; by left|].
    eapply Forall2_impl; [exact Hall|]. intros id part Hex. eapply counted_ext; [apply (ex_removed _ _ Hex)|apply (ex_removed_count _ _ Hex)].
  - apply (counted_file_versions ids parts restored_count at_mark at_head Hn Hwd); [intros id ?; apply Hids; by right|].
    eapply Forall2_impl; [exact Hall|]. intros id part Hex. eapply counted_ext; [apply (ex_restored _ _ Hex)|apply (ex_restored_count _ _ Hex)].
Qed.

Lemma diff_exact limit d :
  wf db -> NoDup ((fun x => x_id (v_row x)) <$> t_delete_files db) -> one_version -> holds_history -> at_mark < at_head ->
  diff table_id at_head at_mark limit db = Ok d ->
  (forall v, removes d v <-> only_at at_head at_mark v) /\ (forall v, restores d v <-> only_at at_mark at_head v)
  /\ counted_versions (only_at at_head at_mark) (rd_rows_removed d)
  /\ counted_versions (only_at at_mark at_head) (rd_rows_restored d).
Proof.
  intros Hw Hd Hone Hh Hlt E. unfold diff in E.
  destruct (inlined_deletes_by_file table_id at_head db) as [hi|] eqn:Ehi; [|done]. cbn [result_bind] in E.
  destruct (inlined_deletes_by_file table_id at_mark db) as [mi|] eqn:Emi; [|done]. cbn [result_bind] in E.
  destruct (inlined_data_with_row_ids_at table_id at_head db) as [head_rows|] eqn:Ehr; [|done]. cbn [result_bind] in E.
  destruct (inlined_data_with_row_ids_at table_id at_mark db) as [mark_rows|] eqn:Emr; [|done]. cbn [result_bind] in E.
  destruct (file_diffs _ _ _ _ _ _ _) as [parts|] eqn:Ep; [|done]. cbn [result_bind] in E. injection E as <-.
  destruct (file_diffs_exact _ _ _ _ Hw Hd Hh Ehi Emi Ep) as (ids0 & parts' & Hperm & Hn0 & Hall0 & Hcover0).
  destruct (parts_in_order _ _ _ Hperm Hn0 Hall0) as (ids & Hids & Hn & Hall).
  assert (Hcover : forall id, listed_at at_head id \/ listed_at at_mark id -> id ∈ ids) by (intros id Hid; rewrite Hids; by apply Hcover0).
  destruct Hw as (_ & Hwd & _). destruct (fold_parts parts RestoreDiff_default) as (_ & _ & _ & Erem & Eres).
  destruct (parts_counted ids parts Hn Hwd Hcover Hall) as [Hcr Hcs].
  assert (Hfile : forall f p, _) by exact (fun f p => parts_exact ids parts RestoreDiff_default f p eq_refl eq_refl eq_refl Hwd Hall Hcover).
  split_and!; cbn [rd_rows_removed rd_rows_restored].
  - intros [f p|name r b]; [exact (proj1 (Hfile f p))|]. by apply (removed_inlined_exact head_rows).
  - intros [f p|name r b]; [exact (proj2 (Hfile f p))|]. by apply (restored_inlined_exact head_rows mark_rows).
  - rewrite Erem. apply counted_both; [exact Hcr|by apply removed_inlined_counted].
  - rewrite Eres. apply counted_both; [exact Hcs|by apply restored_inlined_counted].
Qed.
End exact.

(** C6. The diff of a restore is exact. Over a well-formed catalog whose files hold what its
    history says ([holds_history]), a diff of a head against an earlier mark removes exactly
    the row versions that are live at the head and not at the mark and restores exactly those
    live at the mark and not at the head, so that the head's versions without the removed ones
    and with the restored ones are the mark's; and the two counts it reports are theirs. *)
Theorem restore_diff_is_exact `{InlineValues} `{SortParser} `{FileReads} (c : Contents) (table_id at_head at_mark : Z)
    (inline_limit : nat) (db : Db) (d : RestoreDiff) :
  wf db -> NoDup ((fun x => x_id (v_row x)) <$> t_delete_files db) -> one_version table_id db -> holds_history c db ->
  at_mark < at_head ->
  diff table_id at_head at_mark inline_limit db = Ok d ->
  (forall v, removes c table_id db at_head d v <-> live_at c table_id db at_head v /\ ~ live_at c table_id db at_mark v)
  /\ (forall v, restores d v <-> live_at c table_id db at_mark v /\ ~ live_at c table_id db at_head v)
  /\ (forall v, live_at c table_id db at_mark v <->
        (live_at c table_id db at_head v /\ ~ removes c table_id db at_head d v) \/ restores d v)
  /\ counted_versions (removes c table_id db at_head d) (rd_rows_removed d)
  /\ counted_versions (restores d) (rd_rows_restored d).
Proof.
  intros Hw Hd Hone Hh Hlt E.
  destruct (diff_exact c table_id db at_head at_mark _ _ Hw Hd Hone Hh Hlt E) as (Hrem & Hres & Hnr & Hns).
  split; [exact Hrem|]. split; [exact Hres|]. split; [|split].
  - intros v. rewrite Hrem, Hres. unfold only_at. destruct (live_at_dec c table_id db at_mark v), (live_at_dec c table_id db at_head v); tauto.
  - eapply counted_versions_ext; [|exact Hnr]. intros v. symmetry. apply Hrem.
  - eapply counted_versions_ext; [|exact Hns]. intros v. symmetry. apply Hres.
Qed.

(** ** A sample restore *)

#[local] Existing Instance counted_batches.
#[local] Existing Instance sample_values.
#[local] Existing Instance sample_parser.
#[local] Existing Instance live_at_dec.
#[local] Strategy expand [sample_setup append_file sample_catalog truncated_catalog later_catalog].

(** Snapshot 3 deleted a row of the first file; snapshot 4 truncated the table and snapshot 5
    wrote the third. *)
#[local] Instance sample_reads : FileReads := {|
  delete_file_entries := fun _ => Ok [(2, None)];
  embedded_snapshots := fun _ => Err (InvalidConfig []);
  data_file_row_count := fun _ => Err (InvalidConfig []);
|}.
Definition later_contents : Contents := {|
  row_born := fun file _ => if file =? 3 then 5 else file + 1;
  deletions := fun _ => [(2, 3)];
|}.
Definition sample_diff : result RestoreDiff := diff 1 5 3 0 later_catalog.
#[local] Strategy expand [sample_diff].

Lemma later_one_version : one_version 1 later_catalog.
Proof.
  split; [apply (bool_decide_unpack _); vm_compute; exact I|]. intros t name table Ht.
  assert (Hb : map_Forall (fun _ table => p_rows table = []) (t_inlined_data later_catalog))
    by (apply (bool_decide_unpack _); vm_compute; exact I).
  unfold visible_versions. rewrite (Hb name table Ht). apply NoDup_nil_2.
Qed.

Lemma later_history_holds : holds_history later_contents later_catalog.
Proof.
  split.
  - intros v entries Hv [= <-]. split; [cbn; apply NoDup_singleton|]. split; [intros p; reflexivity|].
    assert (Hb : forallb (fun v => 3 <=? v_begin v) (t_delete_files later_catalog) = true) by (vm_compute; reflexivity).
    rewrite forallb_forall in Hb. pose proof (Hb v (proj1 (list_elem_of_In _ _) Hv)) as H3.
    intros p recorded s [= -> ->]%list_elem_of_singleton [= ->]%list_elem_of_singleton. lia.
  - intros v p Hv.
    assert (Hb : forallb (fun v => row_born later_contents (d_id (v_row v)) 0 <=? default (v_begin v) (d_partial_max (v_row v)))
                   (t_data_files later_catalog) = true) by (vm_compute; reflexivity).
    rewrite forallb_forall in Hb. pose proof (Hb v (proj1 (list_elem_of_In _ _) Hv)) as Hv'. cbn [later_contents row_born] in Hv' |- *. lia.
  - intros v snapshots p _ _ [=].
Qed.

(** The diff ends the third file's three rows, and restores the five others. *)
Lemma restore_diff_is_exact_witness :
  exists d, sample_diff = Ok d /\ rd_rows_removed d = 3 /\ rd_rows_restored d = 5
  /\ counted_versions (restores d) 5
  /\ (live_at later_contents 1 later_catalog 3 (FileRow 0 1) /\ restores d (FileRow 0 1))
  /\ ~ restores d (FileRow 0 2).
Proof.
  destruct sample_diff as [d|e] eqn:E; [|vm_compute in E; discriminate]. exists d.
  assert (Hr : rd_rows_removed d = 3 /\ rd_rows_restored d = 5) by (vm_compute in E; injection E as <-; split; reflexivity).
  destruct Hr as [Hr Hs].
  destruct (restore_diff_is_exact later_contents 1 5 3 0 later_catalog d later_wf) as (_ & Hres & _ & _ & Hn).
  - apply (bool_decide_unpack _). vm_compute. exact I.
  - exact later_one_version.
  - exact later_history_holds.
  - lia.
  - exact E.
  - rewrite Hs in Hn. split; [reflexivity|]. split; [exact Hr|]. split; [exact Hs|]. split; [exact Hn|].
    assert (H1 : live_at later_contents 1 later_catalog 3 (FileRow 0 1)) by (apply (bool_decide_unpack _); vm_compute; exact I).
    split; [split; [exact H1|]|].
    + apply Hres. split; [exact H1|]. apply (bool_decide_unpack _). vm_compute. exact I.
    + intros Hx. apply Hres in Hx as [Hx _]. revert Hx. apply (bool_decide_unpack _). vm_compute. exact I.
Defined.
