(* ===== verification/Compaction.v ===== *)
(** * Merging adjacent data files

    [compaction.rs]: [merge_adjacent_files_planned] plans bins of small files, writes each as
    one file and commits the exchange. Modelled are the choice of candidates, their order, the
    bins, the checks of each bin's sources, the snapshot range, row ids and origins of each
    output, and the commit ([commit_compaction] of [CatalogCommits]). A stored file is the list
    of its rows, each with its row id and, where the file embeds one, its origin snapshot;
    reading footers and rows, sorting and writing a file are a parameter ([CompactionIO]),
    whose laws are [StoreLaws]. A failed merge leaves files no catalog row names, which
    the model does not track; the flush before it and the deletion of refused files are not
    modelled either. [MergeAdjacent] has the proofs. *)

From S2P Require Import Prelude RustStd Arrow StatsOrder FloatText StatsRollup WriterTypes DuckdbCast ChangeLedger Conflicts PathResolver Partition PartitionSplit RowIds WriterChecks Types ColumnTrees SortSpec InlinedTypes CatalogDb CatalogSnapshots CatalogTables CatalogCommits CatalogAdmin CatalogReads CatalogHistory CatalogInit CatalogIds CatalogViews CatalogTimeTravel CatalogSettings CatalogExpiry PartitionCounts Restore.

(** ** Options and metrics *)

(** [MergeOptions], without its read-ahead, which changes no result. *)
Record MergeOptions := {
  mo_target_file_size : Z;
  mo_max_merged_files : nat;
  mo_min_file_size : Z;
}.
Definition MergeOptions_default : MergeOptions :=
  {| mo_target_file_size := 512 * 1024 * 1024; mo_max_merged_files := 1024; mo_min_file_size := 0 |}.

(** [CompactionResult]. *)
Record CompactionResult := {
  cr_files_processed : nat;
  cr_files_created : nat;
  cr_rows_written : Z;
  cr_inlined_flush_snapshot : option Z;
}.
Definition CompactionResult_empty : CompactionResult :=
  {| cr_files_processed := 0; cr_files_created := 0; cr_rows_written := 0; cr_inlined_flush_snapshot := None |}.
Definition did_work (result : CompactionResult) : bool :=
  (0 <? cr_files_processed result)%nat || bool_decide (is_Some (cr_inlined_flush_snapshot result)).

(** ** Candidates and bins *)

(** [partition_key] and [partition_value_pairs]. *)
Definition partition_key (file : DuckLakeTableFile) : option Z * list (option str) :=
  (tfl_partition_id file, snd <$> order_by fst (tfl_partition_values file)).
Definition partition_value_pairs (values : list (option str)) : list (Z * option str) :=
  imap (fun index value => (Z.of_nat index, value)) values.

(** [Ord] of options, vectors and tuples. *)
Definition cmp_option {A} (cmp : A -> A -> comparison) (a b : option A) : comparison :=
  match a, b with
  | None, None => Eq
  | None, Some _ => Lt
  | Some _, None => Gt
  | Some a, Some b => cmp a b
  end.
Fixpoint cmp_list {A} (cmp : A -> A -> comparison) (a b : list A) : comparison :=
  match a, b with
  | [], [] => Eq
  | [], _ :: _ => Lt
  | _ :: _, [] => Gt
  | x :: a, y :: b => match cmp x y with Eq => cmp_list cmp a b | c => c end
  end.
Definition cmp_bool (a b : bool) : comparison := Z.compare (Z.b2z a) (Z.b2z b).
Definition then_with (a b : comparison) : comparison := match a with Eq => b | c => c end.

(** The key [candidates.sort_by_key] sorts by. *)
Definition candidate_cmp (f g : DuckLakeTableFile) : comparison :=
  let version file := default 0 (tfl_schema_version file) in
  let unassigned file := bool_decide (tfl_row_id_start file = None) in
  then_with (Z.compare (version f) (version g))
  (then_with (cmp_option Z.compare (partition_key f).1 (partition_key g).1)
  (then_with (cmp_list (cmp_option str_cmp) (partition_key f).2 (partition_key g).2)
  (then_with (cmp_option Z.compare (tfl_begin_snapshot f) (tfl_begin_snapshot g))
  (then_with (cmp_bool (unassigned f) (unassigned g))
  (then_with (cmp_option Z.compare (tfl_row_id_start f) (tfl_row_id_start g))
  (Z.compare (tfl_data_file_id f) (tfl_data_file_id g))))))).

(** [Iterator::min]. *)
Definition least (l : list Z) : option Z := match l with [] => None | z :: l => Some (foldl Z.min z l) end.

(** A stable sort. *)
Fixpoint insert_sorted {A} (cmp : A -> A -> comparison) (a : A) (l : list A) : list A :=
  match l with
  | [] => [a]
  | b :: l' => match cmp b a with Gt => a :: l | _ => b :: insert_sorted cmp a l' end
  end.
Definition sort_by {A} (cmp : A -> A -> comparison) (l : list A) : list A :=
  fold_left (fun sorted a => insert_sorted cmp a sorted) l [].

(** [file_size_bytes as u64]. *)
Definition as_u64 (z : Z) : Z := z mod 2 ^ 64.
Definition file_size (file : DuckLakeTableFile) : Z := as_u64 (fd_file_size_bytes (tfl_file file)).

(** The filter of the candidates. *)
Definition is_candidate (opts : MergeOptions) (inlined_deletes : gmap Z (gset Z)) (file : DuckLakeTableFile) : bool :=
  bool_decide (tfl_delete_file_id file = None)
  && bool_decide (inlined_deletes !! tfl_data_file_id file = None)
  && bool_decide (is_Some (tfl_begin_snapshot file)) && bool_decide (is_Some (tfl_schema_version file))
  && (mo_min_file_size opts <=? file_size file) && (file_size file <? mo_target_file_size opts).
Definition merge_candidates (opts : MergeOptions) (inlined_deletes : gmap Z (gset Z)) (files : list DuckLakeTableFile)
  : list DuckLakeTableFile :=
  take (mo_max_merged_files opts) (sort_by candidate_cmp (List.filter (is_candidate opts inlined_deletes) files)).

(** The inner loop of the packing: the files of one group from the front, until the bin has
    the target's bytes. *)
Definition same_group (f g : DuckLakeTableFile) : bool :=
  bool_decide (tfl_schema_version g = tfl_schema_version f) && bool_decide (partition_key g = partition_key f).
Fixpoint fill_bin (target : Z) (first : DuckLakeTableFile) (running : Z) (files : list DuckLakeTableFile)
  : list DuckLakeTableFile * list DuckLakeTableFile :=
  match files with
  | file :: rest =>
      if same_group first file then
        let running := as_u64 (running + file_size file) in
        if target <=? running then ([file], rest)
        else let (bin, rest) := fill_bin target first running rest in (file :: bin, rest)
      else ([], files)
  | [] => ([], [])
  end.

(** Its outer loop, with a step for each candidate at most. *)
Fixpoint pack_bins (fuel : nat) (target : Z) (candidates : list DuckLakeTableFile) : list (list DuckLakeTableFile) :=
  match fuel, candidates with
  | S fuel, first :: _ =>
      let (bin, rest) := fill_bin target first 0 candidates in bin :: pack_bins fuel target rest
  | _, _ => []
  end.
Definition merge_bins (opts : MergeOptions) (candidates : list DuckLakeTableFile) : list (list DuckLakeTableFile) :=
  List.filter (fun bin => 2 <=? length bin)%nat (pack_bins (length candidates) (mo_target_file_size opts) candidates).

(** [adjacent_row_id_start]. *)
Fixpoint adjacent_from (next : option Z) (bin : list DuckLakeTableFile) : option unit :=
  match bin with
  | [] => Some tt
  | file :: bin =>
      start ← tfl_row_id_start file;
      if match next with Some next => negb (next =? start) | None => false end then None
      else
        rows ← tfl_max_row_count file;
        next ← checked_i64 (start + rows);
        adjacent_from (Some next) bin
  end.
Definition adjacent_row_id_start (bin : list DuckLakeTableFile) : option Z :=
  _ ← adjacent_from None bin; first ← head bin; tfl_row_id_start first.

(** ** Files of the store *)

(** A row of a stored file: its columns, its row id and its embedded origin snapshot. *)
Record StoredRow (Row : Type) := { sr_row : Row; sr_rowid : Z; sr_origin : option Z }.
#[global] Arguments sr_row {Row}.
#[global] Arguments sr_rowid {Row}.
#[global] Arguments sr_origin {Row}.
Abbreviation Store Row := (@gmap (list ascii) (@list_eq_dec ascii _) (@list_countable ascii _ _) (list (StoredRow Row))).

(** [MergeSourceFacts]. *)
Record MergeSourceFacts := { drops_current_columns : bool; has_embedded_snapshot : bool }.

(** What a merge does through Parquet and DataFusion: [merge_source_facts] reads a footer, a
    scan reads the batches of a file without deletions, [compaction_ordering] plans the sort
    keys. [coalesce] is the order the batches of several sources arrive in, [sort_output] a
    sort, which evaluates its keys, and [write_compacted_file_stream] writes a new file. *)
Class CompactionIO (Row : Type) := {
  Ordering : Type;
  merge_source_facts : DuckLakeFileData -> Store Row -> result MergeSourceFacts;
  scan_batches : DuckLakeTableFile -> Store Row -> result (list (list (StoredRow Row)));
  compaction_ordering : option SortSpec -> result (option Ordering);
  coalesce : list (list (StoredRow Row)) -> list (StoredRow Row);
  sort_output : Ordering -> list (StoredRow Row) -> result (list (StoredRow Row));
  write_compacted_file_stream : list (StoredRow Row) -> bool -> option str -> Store Row -> result (DataFileInfo * Store Row);
}.

(** The open table: its writer's catalog is writable, its options are valid, and the names of
    its top-level columns with their ids. *)
Record MergeTable := {
  mt_table_id : Z;
  mt_schema_name : option str;
  mt_snapshot_id : Z;
  mt_writable : bool;
  mt_options : result unit;
  mt_auto_compact : option bool;
  mt_hive_file_pattern : option bool;
  mt_columns : list (Z * str);
}.

(** [encrypted_catalog_error]. *)
Definition encrypted_catalog_error (operation : str) : DuckLakeError :=
  Unsupported (operation ++ ": the catalog is encrypted, and this crate does not write encrypted Parquet files").

(** [str::rsplit_once], before the last ['/']. *)
Fixpoint before_last_slash (s : str) : option str :=
  match s with
  | [] => None
  | c :: s' =>
      match before_last_slash s' with
      | Some front => Some (c :: front)
      | None => if char_eqb c "/" then Some [] else None
      end
  end.

(** [partition_subpath]. *)
Definition live_keys (spec : PartitionSpec) (columns : list (Z * str)) : option (list (str * PartitionTransform)) :=
  mapM (fun column : PartitionSpecColumn =>
    name ← find_map (fun c => if c.1 =? sc_column_id column then Some c.2 else None) columns;
    Some (name, sc_transform column)) (ps_columns spec).
Definition partition_subpath (live : option PartitionSpec) (partition_id : Z) (values : list (option str))
  (columns : list (Z * str)) (source : DuckLakeTableFile) : str :=
  let of_source :=
    let data := tfl_file source in
    match (if fd_path_is_relative data then before_last_slash (fd_path data) else None) with
    | Some directory =>
        if negb (is_empty directory) && forallb (fun segment => RustStd.contains "=" segment) (split_on (fun c => char_eqb c "/") directory)
        then directory
        else hive_subpath [] values
    | None => hive_subpath [] values
    end in
  match live with
  | Some spec =>
      if ps_partition_id spec =? partition_id then
        match live_keys spec columns with
        | Some keys => hive_subpath (hive_key_names keys) values
        | None => of_source
        end
      else of_source
  | None => of_source
  end.

(** ** Planning a merge *)

Section merge.
Context {Row : Type} `{InlineValues} `{SortParser} `{!CompactionIO Row}.

(** The checks of the sources of a bin, up to the first that cannot be merged; the facts are
    kept. *)
Fixpoint check_bin (base : Z) (bin : list DuckLakeTableFile) (store : Store Row) (facts : gmap Z MergeSourceFacts)
  : result (bool * gmap Z MergeSourceFacts) :=
  match bin with
  | [] => Ok (true, facts)
  | file :: bin =>
      let? fact := merge_source_facts (tfl_file file) store in
      let facts := <[tfl_data_file_id file := fact]> facts in
      if drops_current_columns fact
         || (bool_decide (is_Some (tfl_partial_max file)) && negb (has_embedded_snapshot fact))
         || match tfl_partial_max file with Some max => base <? max | None => false end
      then Ok (false, facts)
      else check_bin base bin store facts
  end.
Fixpoint viable_bins (base : Z) (bins : list (list DuckLakeTableFile)) (store : Store Row) (facts : gmap Z MergeSourceFacts)
  : result (list (list DuckLakeTableFile) * gmap Z MergeSourceFacts) :=
  match bins with
  | [] => Ok ([], facts)
  | bin :: bins =>
      let? (mergeable, facts) := check_bin base bin store facts in
      let? (viable, facts) := viable_bins base bins store facts in
      Ok (if mergeable : bool then bin :: viable else viable, facts)
  end.

(** [OriginSource] and [resolve_origin_column]. *)
Inductive OriginSource := Constant (origin : Z) | Embedded.
Definition resolve_origin_column (origin : OriginSource) (carried : option (list (option Z))) (rows : nat) (path : str)
  : result (list Z) :=
  match origin, carried with
  | Constant origin, _ => Ok (repeat origin rows)
  | Embedded, None => Err (External ("merge source " ++ [dquote] ++ path ++ [dquote]
      ++ " was planned with per-row origins but its scan did not project the embedded snapshot-id column"))
  | Embedded, Some origins =>
      ok_or (mapM id origins) (External ("merge source " ++ [dquote] ++ path ++ [dquote]
        ++ " has NULL values in its embedded `_ducklake_internal_snapshot_id` column; refusing to merge rows whose origin snapshot is unknown"))
  end.
(** One batch of [CompactionSourceExec], an empty one dropped, and all of a source. *)
Definition source_batch (origin : option OriginSource) (path : str) (batch : list (StoredRow Row)) : result (list (StoredRow Row)) :=
  if is_empty batch then Ok []
  else
    match origin with
    | None => Ok ((fun r => {| sr_row := sr_row r; sr_rowid := sr_rowid r; sr_origin := None |}) <$> batch)
    | Some origin =>
        let carried := match origin with Embedded => Some (sr_origin <$> batch) | Constant _ => None end in
        let? origins := resolve_origin_column origin carried (length batch) path in
        Ok (zip_with (fun r origin => {| sr_row := sr_row r; sr_rowid := sr_rowid r; sr_origin := Some origin |}) batch origins)
    end.
Definition source_rows (origin : option OriginSource) (file : DuckLakeTableFile) (store : Store Row) : result (list (StoredRow Row)) :=
  let? batches := scan_batches file store in
  let? batches := mapM_result (source_batch origin (fd_path (tfl_file file))) batches in
  Ok (concat batches).

(** [observed_max_origin] after [rows]. *)
Definition observe (max : Z) (rows : list (StoredRow Row)) : Z :=
  foldl (fun max r => match sr_origin r with Some origin => Z.max max origin | None => max end) max rows.

(** The snapshot range of a bin: [range_mins] and [range_maxes], then their ends. *)
Definition begin_of (file : DuckLakeTableFile) : result Z :=
  ok_or (tfl_begin_snapshot file) (Internal "merge candidate missing begin_snapshot").
Definition bin_range (bin : list DuckLakeTableFile) : result (list Z * list Z) :=
  let? mins := mapM_result begin_of bin in
  Ok (mins, zip_with (fun file begin => default begin (tfl_partial_max file)) bin mins).

Definition embeds_origins (facts : gmap Z MergeSourceFacts) (file : DuckLakeTableFile) : bool :=
  match facts !! tfl_data_file_id file with Some fact => has_embedded_snapshot fact | None => false end.
Definition is_partial (facts : gmap Z MergeSourceFacts) (bin : list DuckLakeTableFile) (mins maxes : list Z) : bool :=
  negb (bool_decide (least mins = max_list maxes)) || existsb (embeds_origins facts) bin.

(** The rows of a bin, as written: in source order, sorted when a sort succeeds, else as they
    arrive. *)
Definition bin_leaves (facts : gmap Z MergeSourceFacts) (partial : bool) (bin : list DuckLakeTableFile) (mins : list Z)
  (store : Store Row) : result (list (list (StoredRow Row))) :=
  mapM_result (fun source : DuckLakeTableFile * Z =>
    let origin := if partial then Some (if embeds_origins facts source.1 then Embedded else Constant source.2) else None in
    source_rows origin source.1 store) (zip bin mins).
Definition merged_rows (ordering : option Ordering) (carried_row_id_start : option Z) (leaves : list (list (StoredRow Row)))
  : list (StoredRow Row) :=
  let unsorted := match carried_row_id_start with Some _ => concat leaves | None => coalesce leaves end in
  match ordering with
  | None => unsorted
  | Some ordering => match sort_output ordering (coalesce leaves) with Ok rows => rows | Err _ => unsorted end
  end.

(** [with_partition], and the assignment of [row_id_start]. *)
Definition in_partition (partition : option Z * list (option str)) (file : DataFileInfo) : DataFileInfo :=
  match partition.1 with
  | Some partition_id =>
      {| df_path := df_path file; df_path_is_relative := df_path_is_relative file;
         df_file_size_bytes := df_file_size_bytes file; df_footer_size := df_footer_size file;
         df_record_count := df_record_count file; df_column_stats := df_column_stats file;
         df_partition_id := Some partition_id; df_partition_values := partition_value_pairs partition.2;
         df_owner_catalog_id := df_owner_catalog_id file; df_row_id_start := df_row_id_start file;
         df_row_id_floor := df_row_id_floor file |}
  | None => file
  end.
Definition keeping_row_ids (start : Z) (file : DataFileInfo) : DataFileInfo :=
  {| df_path := df_path file; df_path_is_relative := df_path_is_relative file;
     df_file_size_bytes := df_file_size_bytes file; df_footer_size := df_footer_size file;
     df_record_count := df_record_count file; df_column_stats := df_column_stats file;
     df_partition_id := df_partition_id file; df_partition_values := df_partition_values file;
     df_owner_catalog_id := df_owner_catalog_id file; df_row_id_start := Preserved start;
     df_row_id_floor := df_row_id_floor file |}.

(** One bin: its output, [None] when its sources hold no rows. *)
Definition merge_bin (facts : gmap Z MergeSourceFacts) (ordering : option Ordering) (live : option PartitionSpec)
  (table : MergeTable) (bin : list DuckLakeTableFile) (store : Store Row) : result (option CompactionOutputFile * Store Row) :=
  let? (mins, maxes) := bin_range bin in
  let partial := is_partial facts bin mins maxes in
  let carried_row_id_start := adjacent_row_id_start bin in
  let? leaves := bin_leaves facts partial bin mins store in
  let rows := merged_rows ordering carried_row_id_start leaves in
  match rows, head bin with
  | [], _ | _, None => Ok (None, store)
  | _, Some first =>
      let (partition_id, values) := partition_key first in
      let subpath :=
        match partition_id with
        | Some id => if default true (mt_hive_file_pattern table) then Some (partition_subpath live id values (mt_columns table) first)
                     else None
        | None => None
        end in
      let? (file, store) := write_compacted_file_stream rows partial subpath store in
      let? file := match carried_row_id_start with
                   | Some start =>
                       let expected := sum_Z (omap tfl_max_row_count bin) in
                       if df_record_count file =? expected then Ok (keeping_row_ids start file)
                       else Err (Internal ("rowid-adjacent merge wrote " ++ show_Z (df_record_count file)
                              ++ " rows, its sources hold " ++ show_Z expected))
                   | None => Ok file
                   end in
      Ok (Some {| cp_file := in_partition (partition_id, values) file;
                  cp_partial_max := if partial then Some (observe (default i64_min (max_list maxes)) rows) else None;
                  cp_begin_snapshot := least mins |}, store)
  end.

(** What a merge commits, and its metrics. *)
Record MergePlan := {
  mp_sources : list CompactionSourceFile;
  mp_outputs : list CompactionOutputFile;
}.
Fixpoint merge_all (facts : gmap Z MergeSourceFacts) (ordering : option Ordering) (live : option PartitionSpec)
  (table : MergeTable) (bins : list (list DuckLakeTableFile)) (store : Store Row) : result (MergePlan * Store Row) :=
  match bins with
  | [] => Ok ({| mp_sources := []; mp_outputs := [] |}, store)
  | bin :: bins =>
      let? (output, store) := merge_bin facts ordering live table bin store in
      let? (plan, store) := merge_all facts ordering live table bins store in
      Ok ({| mp_sources := ((fun file => {| cp_data_file_id := tfl_data_file_id file; cp_delete_file_id := None |}) <$> bin)
                           ++ mp_sources plan;
             mp_outputs := option_list output ++ mp_outputs plan |}, store)
  end.

(** [merge_adjacent_files_planned] up to its commit: [None] when there is nothing to merge. *)
Definition plan_merge (opts : MergeOptions) (table : MergeTable) (store : Store Row) (db : Db)
  : result (option MergePlan * Store Row) :=
  let table_id := mt_table_id table in
  let base := mt_snapshot_id table in
  let? _ := if mt_writable table then Ok tt
            else Err (InvalidConfig "merge_adjacent_files: table is read-only; open the catalog with a writer") in
  let? _ := ok_or (mt_schema_name table) (Internal "writable table has no schema name") in
  let? encrypted := catalog_encrypted db in
  let? _ := if encrypted : bool then Err (encrypted_catalog_error "merge_adjacent_files") else Ok tt in
  let? _ := mt_options table in
  if negb (default true (mt_auto_compact table)) then Ok (None, store)
  else
    let table_files := get_table_files_for_select table_id base db in
    let? inlined_deletes := inlined_deletes_by_file table_id base db in
    let bins := merge_bins opts (merge_candidates opts inlined_deletes table_files) in
    if is_empty bins then Ok (None, store)
    else
      let? (bins, facts) := viable_bins base bins store ∅ in
      if is_empty bins then Ok (None, store)
      else
        let head := get_current_snapshot db in
        let? ordering := compaction_ordering (get_sort_spec table_id head db) in
        let? (plan, store) := merge_all facts ordering (get_partition_spec table_id head db) table bins store in
        if is_empty (mp_sources plan) then Ok (None, store) else Ok (Some plan, store).

(** [merge_adjacent_files_planned]: what it returns, and the store and the catalog it leaves. *)
Definition merge_adjacent_files_planned (opts : MergeOptions) (table : MergeTable) (store : Store Row) (db : Db)
  : outcome CompactionResult * Store Row * Db :=
  match plan_merge opts table store db with
  | Err e => (Returns (Err e), store, db)
  | Ok (None, store) => (Returns (Ok CompactionResult_empty), store, db)
  | Ok (Some plan, store) =>
      let (committed, db) := run (commit_compaction (mt_table_id table) (mt_snapshot_id table) (mp_sources plan)
                                    (mp_outputs plan) Remove) db in
      (outcome_bind committed (fun _ => Returns (Ok
         {| cr_files_processed := length (mp_sources plan); cr_files_created := length (mp_outputs plan);
            cr_rows_written := sum_Z ((fun output => df_record_count (cp_file output)) <$> mp_outputs plan);
            cr_inlined_flush_snapshot := None |})), store, db)
  end.
End merge.

(** The ranges of an adjacent bin make one range, the one its output keeps. *)
Definition row_range (file : DuckLakeTableFile) : list Z := seqZ (default 0 (tfl_row_id_start file)) (default 0 (tfl_max_row_count file)).

Lemma adjacent_from_step next file bin : adjacent_from next (file :: bin) = Some tt ->
  exists start rows, tfl_row_id_start file = Some start /\ tfl_max_row_count file = Some rows
    /\ (forall n, next = Some n -> n = start) /\ adjacent_from (Some (start + rows)) bin = Some tt.
Proof.
  cbn. destruct (tfl_row_id_start file) as [start|]; [|done]. cbn. destruct (match next with Some _ => _ | None => _ end) eqn:En; [done|].
  destruct (tfl_max_row_count file) as [rows|]; [|done]. cbn. unfold checked_i64. destruct (in_i64 _); [|done]. cbn. intros E.
  exists start, rows. split_and!; [done..| |done]. intros n ->. lia.
Qed.

Lemma range_cons file bin start rows : tfl_row_id_start file = Some start -> tfl_max_row_count file = Some rows ->
  concat (row_range <$> file :: bin) = seqZ start rows ++ concat (row_range <$> bin).
Proof. intros Es Er. cbn. f_equal. unfold row_range. by rewrite Es, Er. Qed.

Lemma adjacent_from_range bin : forall next, adjacent_from (Some next) bin = Some tt -> Forall (fun file => 0 <= default 0 (tfl_max_row_count file)) bin ->
  concat (row_range <$> bin) = seqZ next (sum_Z (omap tfl_max_row_count bin)) /\ 0 <= sum_Z (omap tfl_max_row_count bin).
Proof.
  induction bin as [|file bin IH]; intros next E Hall; [by split|]. inversion Hall as [|? ? Hrows Hrest]; subst.
  apply adjacent_from_step in E as (start & rows & Es & Er & Hn & E). rewrite (Hn next eq_refl). destruct (IH _ E Hrest) as [Hc Hs].
  rewrite (range_cons _ _ _ _ Es Er), Hc. rewrite Er in Hrows. cbn [omap list_omap]. rewrite Er.
  change (sum_Z (rows :: ?l)) with (rows + sum_Z l). change (0 <= rows) in Hrows. rewrite seqZ_app by lia. by split; [|lia].
Qed.

Lemma adjacent_range bin start : adjacent_row_id_start bin = Some start -> Forall (fun file => 0 <= default 0 (tfl_max_row_count file)) bin ->
  concat (row_range <$> bin) = seqZ start (sum_Z (omap tfl_max_row_count bin)).
Proof.
  unfold adjacent_row_id_start. intros E Hall. destruct (adjacent_from None bin) as [[]|] eqn:Ea; [|done]. cbn in E.
  destruct bin as [|file bin]; [done|]. cbn in E. inversion Hall as [|? ? Hrows Hrest]; subst.
  apply adjacent_from_step in Ea as (s & rows & Es & Er & _ & Ea). destruct (adjacent_from_range _ _ Ea Hrest) as [Hc Hs].
  assert (s = start) as -> by congruence. rewrite (range_cons _ _ _ _ Es Er), Hc. rewrite Er in Hrows. cbn [omap list_omap]. rewrite Er.
  change (sum_Z (rows :: ?l)) with (rows + sum_Z l). change (0 <= rows) in Hrows. by rewrite seqZ_app by lia.
Qed.
