(* ===== verification/MergeAdjacent.v ===== *)
(** * What a merge of adjacent files keeps

    The proofs about [Compaction]: the bins hold each candidate once, the rows of an output are
    those of its sources with their origins, the commit exchanges exactly the sources for the
    outputs, and so every snapshot has the rows it had, with the same row ids and origin
    snapshots, and the snapshot ranges of the files stay right. *)

From S2P Require Import Prelude RustStd Arrow StatsOrder FloatText StatsRollup WriterTypes DuckdbCast ChangeLedger Conflicts PathResolver Partition PartitionSplit RowIds WriterChecks Types ColumnTrees SortSpec InlinedTypes CatalogDb CatalogSnapshots CatalogTables CatalogCommits CatalogAdmin CatalogReads CatalogHistory CatalogInit CatalogIds CatalogViews CatalogTimeTravel CatalogSettings CatalogExpiry PartitionCounts Restore Compaction.

(** ** What a merge keeps

    The laws of the store: a footer without the origin column belongs to a file that embeds no
    origin, a scan reads every row of a file without deletions, sorting and collecting rows
    changes their order only, and a written file is new and holds what was written. *)
Record StoreLaws (Row : Type) `{CompactionIO Row} : Prop := {
  sl_facts : forall file (store : Store Row) rows facts, store !! fd_path file = Some rows ->
    merge_source_facts file store = Ok facts -> has_embedded_snapshot facts = false -> Forall (fun r => sr_origin r = None) rows;
  sl_scan : forall file (store : Store Row) rows batches, tfl_delete_file_id file = None ->
    store !! fd_path (tfl_file file) = Some rows -> scan_batches file store = Ok batches -> concat batches ≡ₚ rows;
  sl_coalesce : forall leaves : list (list (StoredRow Row)), coalesce leaves ≡ₚ concat leaves;
  sl_sort : forall ordering (rows rows' : list (StoredRow Row)), sort_output ordering rows = Ok rows' -> rows' ≡ₚ rows;
  sl_write : forall rows partial subpath (store store' : Store Row) file,
    write_compacted_file_stream rows partial subpath store = Ok (file, store') ->
    store !! df_path file = None /\ store' = <[df_path file := rows]> store;
}.

(** A file's snapshot range is right about a row: its origin lies in the range, and without an
    embedded origin the range is one snapshot. *)
Definition truthful_row {Row} (begin : Z) (partial_max : option Z) (r : StoredRow Row) : Prop :=
  match sr_origin r with Some origin => begin <= origin <= default begin partial_max | None => partial_max = None end.

(** A row with its row id and origin, in a file that begins at [begin]. *)
Definition tagged {Row} (begin : Z) (r : StoredRow Row) : Row * Z * Z := (sr_row r, sr_rowid r, default begin (sr_origin r)).

Section outputs.
Context {Row : Type} `{InlineValues} `{SortParser} `{!CompactionIO Row} (Hlaws : StoreLaws Row).

Definition originated (origin : option OriginSource) (r : StoredRow Row) : StoredRow Row :=
  {| sr_row := sr_row r; sr_rowid := sr_rowid r;
     sr_origin := match origin with None => None | Some (Constant origin) => Some origin | Some Embedded => sr_origin r end |}.

Lemma embedded_batch (batch : list (StoredRow Row)) origins : mapM id (sr_origin <$> batch) = Some origins ->
  zip_with (fun r origin => {| sr_row := sr_row r; sr_rowid := sr_rowid r; sr_origin := Some origin |}) batch origins
    = originated (Some Embedded) <$> batch
  /\ Forall (fun r => is_Some (sr_origin r)) batch.
Proof.
  revert origins. induction batch as [|r batch IH]; intros origins E; cbn in E; [injection E as <-; by split|].
  destruct (sr_origin r) as [o|] eqn:Eo; [|done]. cbn in E. destruct (mapM id _) as [os|] eqn:Em; [|done]. cbn in E.
  injection E as <-. destruct (IH os eq_refl) as [Hz Hs]. split; [|constructor; [by exists o|done]].
  cbn. rewrite Hz. unfold originated at 2. by rewrite Eo.
Qed.

Lemma constant_batch origin (batch : list (StoredRow Row)) :
  zip_with (fun r origin => {| sr_row := sr_row r; sr_rowid := sr_rowid r; sr_origin := Some origin |}) batch
    (repeat origin (length batch)) = originated (Some (Constant origin)) <$> batch.
Proof. induction batch as [|r batch IH]; [done|]. cbn. by rewrite IH. Qed.

Lemma source_batch_ok origin path (batch out : list (StoredRow Row)) : source_batch origin path batch = Ok out ->
  out = originated origin <$> batch /\ (origin = Some Embedded -> Forall (fun r => is_Some (sr_origin r)) batch).
Proof.
  unfold source_batch. destruct batch as [|r batch]; [intros [= <-]; by split|]. cbn [is_empty].
  destruct origin as [[o|]|].
  - intros E. cbn [resolve_origin_column result_bind] in E. injection E as <-. rewrite <- constant_batch. by split.
  - unfold resolve_origin_column. destruct (mapM id _) as [origins|] eqn:E; [|done].
    intros Eo. cbn [ok_or result_bind] in Eo. injection Eo as <-. by destruct (embedded_batch _ _ E).
  - intros [= <-]. by split.
Qed.

Lemma source_rows_ok (origin : option OriginSource) (file : DuckLakeTableFile) (store : Store Row) (rows out : list (StoredRow Row)) : tfl_delete_file_id file = None ->
  store !! fd_path (tfl_file file) = Some rows -> source_rows origin file store = Ok out ->
  out ≡ₚ originated origin <$> rows /\ (origin = Some Embedded -> Forall (fun r => is_Some (sr_origin r)) rows).
Proof.
  intros Hd Hrows E. unfold source_rows in E. destruct (scan_batches file store) as [batches|] eqn:Es; [|done].
  cbn [result_bind] in E. destruct (mapM_result _ batches) as [outs|] eqn:Eo; [|done]. cbn [result_bind] in E. injection E as <-.
  pose proof (sl_scan _ Hlaws _ _ _ _ Hd Hrows Es) as Hp. apply mapM_result_ok in Eo.
  assert (Hall : concat outs = originated origin <$> concat batches
                 /\ (origin = Some Embedded -> Forall (fun r => is_Some (sr_origin r)) (concat batches))).
  { clear Hp Es. induction Eo as [|batch out batches outs Hb _ [IHo IHs]]; [by split|].
    apply source_batch_ok in Hb as [-> Hs]. cbn. rewrite fmap_app, IHo. split; [done|]. intros He. apply Forall_app. auto. }
  destruct Hall as [-> Hs]. split; [by rewrite Hp|]. intros He. rewrite <- Hp. auto.
Qed.

(** A source of a bin, in the store. *)
Record sourced (store : Store Row) (facts : gmap Z MergeSourceFacts) (file : DuckLakeTableFile) (begin : Z)
  (rows : list (StoredRow Row)) : Prop := {
  so_rows : store !! fd_path (tfl_file file) = Some rows;
  so_deletes : tfl_delete_file_id file = None;
  so_begin : tfl_begin_snapshot file = Some begin;
  so_truthful : Forall (truthful_row begin (tfl_partial_max file)) rows;
  so_facts : embeds_origins facts file = false -> Forall (fun r => sr_origin r = None) rows;
}.

Lemma bin_leaves_ok (facts : gmap Z MergeSourceFacts) (partial : bool) (bin : list DuckLakeTableFile) (mins : list Z) (store : Store Row)
  (rows leaves : list (list (StoredRow Row))) :
  Forall2 (fun source rows => sourced store facts source.1 source.2 rows) (zip bin mins) rows ->
  bin_leaves facts partial bin mins store = Ok leaves ->
  concat leaves ≡ₚ concat (zip_with (fun source rows =>
    originated (if partial then Some (if embeds_origins facts source.1 then Embedded else Constant source.2) else None) <$> rows)
    (zip bin mins) rows)
  /\ (partial = true -> Forall2 (fun source rows => embeds_origins facts source.1 = true -> Forall (fun r => is_Some (sr_origin r)) rows)
        (zip bin mins) rows).
Proof.
  intros Hall E. unfold bin_leaves in E. apply mapM_result_ok in E. revert leaves E.
  induction Hall as [|[file begin] rs sources rows Hs _ IH]; intros leaves E; inversion E as [|? out ? outs Ho Hr]; subst; [by split|].
  cbn [fst snd] in *. apply (source_rows_ok _ _ _ rs _ (so_deletes _ _ _ _ _ Hs) (so_rows _ _ _ _ _ Hs)) in Ho as [Hout He].
  destruct (IH outs Hr) as [Hc Hf]. split.
  - cbn. by rewrite Hout, Hc.
  - intros ->. constructor; [|by apply Hf]. cbn. intros Hem. apply He. by rewrite Hem.
Qed.
End outputs.

Section bins.
Context {Row : Type} `{InlineValues} `{SortParser} `{!CompactionIO Row} (Hlaws : StoreLaws Row).

Lemma merged_rows_perm ordering carried (leaves : list (list (StoredRow Row))) : merged_rows ordering carried leaves ≡ₚ concat leaves.
Proof.
  assert (Hu : (match carried with Some _ => concat leaves | None => coalesce leaves end) ≡ₚ concat leaves)
    by (destruct carried; [done|apply (sl_coalesce _ Hlaws)]).
  unfold merged_rows. destruct ordering as [ordering|]; [|exact Hu]. destruct (sort_output _ _) as [rows|] eqn:E; [|exact Hu].
  rewrite (sl_sort _ Hlaws _ _ _ E). apply (sl_coalesce _ Hlaws).
Qed.

Lemma least_spec l m : least l = Some m -> m ∈ l /\ forall x, x ∈ l -> m <= x.
Proof.
  destruct l as [|z l]; [done|]. cbn. intros [= <-]. revert z. induction l as [|y l IH]; intros z; cbn.
  - split; [by left|]. intros x [->|Hx]%elem_of_cons; [lia|by apply elem_of_nil in Hx].
  - destruct (IH (Z.min z y)) as [Hin Hle]. split.
    + apply elem_of_cons in Hin as [E|Hin]; [|by do 2 right]. rewrite E.
      destruct (Z.min_spec z y) as [[_ ->]|[_ ->]]; [left|right; left].
    + intros x Hx. assert (Hz : foldl Z.min (Z.min z y) l <= Z.min z y) by (apply Hle; left).
      apply elem_of_cons in Hx as [->|[->|Hx]%elem_of_cons]; [lia|lia|]. apply Hle. by right.
Qed.

Lemma observe_spec (rows : list (StoredRow Row)) : forall max,
  max <= observe max rows /\ forall r origin, r ∈ rows -> sr_origin r = Some origin -> origin <= observe max rows.
Proof.
  induction rows as [|r rows IH]; intros max; cbn [observe foldl].
  - split; [reflexivity|]. intros r origin Hr. by apply elem_of_nil in Hr.
  - specialize (IH (match sr_origin r with Some origin => Z.max max origin | None => max end)) as [Hm Ho].
    fold (observe (match sr_origin r with Some origin => Z.max max origin | None => max end) rows).
    split; [destruct (sr_origin r); lia|]. intros r' origin [->|Hr]%elem_of_cons E; [rewrite E in *; lia|by eapply Ho].
Qed.

Lemma bin_range_ok bin mins maxes : bin_range bin = Ok (mins, maxes) ->
  Forall2 (fun file begin => tfl_begin_snapshot file = Some begin) bin mins
  /\ maxes = zip_with (fun file begin => default begin (tfl_partial_max file)) bin mins.
Proof.
  unfold bin_range. destruct (mapM_result begin_of bin) as [mins'|] eqn:E; [|done]. cbn [result_bind]. intros [= -> <-].
  split; [|done]. apply mapM_result_ok in E. eapply Forall2_impl; [exact E|]. unfold begin_of.
  intros file begin Hf. destruct (tfl_begin_snapshot file); [|done]. by injection Hf as ->.
Qed.

(** A source's row, as the output has it. *)
Lemma originated_row partial (embeds : bool) lowest highest begin partial_max (r : StoredRow Row) :
  truthful_row begin partial_max r -> (embeds = false -> sr_origin r = None) -> (partial = true -> embeds = true -> is_Some (sr_origin r)) ->
  lowest <= begin -> (partial = false -> lowest = highest /\ embeds = false /\ default begin partial_max <= highest) ->
  let r' := originated (if partial then Some (if embeds then Embedded else Constant begin) else None) r in
  tagged lowest r' = tagged begin r
  /\ match sr_origin r' with Some origin => partial = true /\ lowest <= origin | None => partial = false end.
Proof.
  unfold truthful_row. intros Ht Hf He Hl Hw. unfold tagged, originated. destruct partial; cbn.
  - destruct embeds; cbn; [|rewrite (Hf eq_refl); cbn; done]. destruct (He eq_refl eq_refl) as [o Ho]. rewrite Ho in Ht |- *. cbn.
    split; [done|]. split; [done|lia].
  - destruct (Hw eq_refl) as (-> & -> & Hmax). rewrite (Hf eq_refl) in Ht |- *. rewrite Ht in Hmax. cbn in Hmax |- *.
    split; [|done]. f_equal. lia.
Qed.

(** The rows of an output of a bin: each comes from a source, with its origin. *)
Lemma output_rows (facts : gmap Z MergeSourceFacts) (partial : bool) (mins : list Z) (bin : list DuckLakeTableFile) (store : Store Row)
  (rows leaves : list (list (StoredRow Row))) (lowest highest : Z) :
  Forall2 (fun source rows => sourced store facts source.1 source.2 rows) (zip bin mins) rows ->
  bin_leaves facts partial bin mins store = Ok leaves ->
  (forall source, source ∈ zip bin mins -> lowest <= source.2) ->
  (partial = false -> lowest = highest
     /\ forall source, source ∈ zip bin mins -> embeds_origins facts source.1 = false
          /\ default source.2 (tfl_partial_max source.1) <= highest) ->
  tagged lowest <$> concat leaves ≡ₚ concat (zip_with (fun source rows => tagged source.2 <$> rows) (zip bin mins) rows)
  /\ Forall (fun r => match sr_origin r with Some origin => partial = true /\ lowest <= origin | None => partial = false end)
       (concat leaves).
Proof using Hlaws.
  intros Hall Eleaves Hlow Hwhole. destruct (bin_leaves_ok Hlaws _ _ _ _ _ _ _ Hall Eleaves) as [Hp He]. rewrite Hp. clear Hp Eleaves.
  induction Hall as [|[file begin] rs sources rows Hs _ IH]; [by split|]. cbn [zip_with concat fst snd].
  assert (He' : partial = true -> embeds_origins facts file = true -> Forall (fun r => is_Some (sr_origin r)) rs)
    by (intros Hpt; specialize (He Hpt); by inversion He).
  destruct IH as [IHp IHf]; [intros source Hsource; apply Hlow; by right| | |].
  { intros Hpf. destruct (Hwhole Hpf) as [-> Hw]. split; [done|]. intros source Hsource. apply Hw. by right. }
  { intros Hpt. specialize (He Hpt). by inversion He. }
  rewrite fmap_app, IHp, Forall_app. clear IHp He. rename IHf into IHf'.
  assert (Hr : Forall (fun r => let r' := originated (if partial then Some (if embeds_origins facts file then Embedded else Constant begin)
      else None) r in tagged lowest r' = tagged begin r
      /\ match sr_origin r' with Some origin => partial = true /\ lowest <= origin | None => partial = false end) rs).
  { apply Forall_forall. intros r Hr. apply (originated_row partial _ lowest highest begin (tfl_partial_max file)).
    - pose proof (so_truthful _ _ _ _ _ Hs) as Ht. rewrite Forall_forall in Ht. by apply Ht.
    - intros Hem. pose proof (so_facts _ _ _ _ _ Hs Hem) as Ht. rewrite Forall_forall in Ht. by apply Ht.
    - intros Hpt Hem. specialize (He' Hpt Hem). rewrite Forall_forall in He'. by apply He'.
    - apply (Hlow (file, begin)). left.
    - intros Hpf. destruct (Hwhole Hpf) as [? Hw]. split; [done|]. apply (Hw (file, begin)). left. }
  split; [|split; [|exact IHf']].
  - f_equiv. rewrite <- list_fmap_compose. apply reflexive_eq, list_fmap_ext. intros i r Hi. rewrite Forall_forall in Hr.
    apply Hr. by eapply list_elem_of_lookup_2.
  - apply Forall_fmap. eapply Forall_impl; [exact Hr|]. by intros r [_ ?].
Qed.
End bins.

Section one_bin.
Context {Row : Type} `{InlineValues} `{SortParser} `{!CompactionIO Row} (Hlaws : StoreLaws Row).

(** The rows of files, each with its row id and origin. *)
Definition begin_snapshot (file : DuckLakeTableFile) : Z := default 0 (tfl_begin_snapshot file).
Definition tagged_rows (bin : list DuckLakeTableFile) (rows : list (list (StoredRow Row))) : list (Row * Z * Z) :=
  concat (zip_with (fun file rows => tagged (begin_snapshot file) <$> rows) bin rows).

(** The sources of a bin with their begin snapshots. *)
Lemma sources_of_bin facts (store : Store Row) (bin : list DuckLakeTableFile) (mins : list Z) (rows : list (list (StoredRow Row))) :
  Forall2 (fun file rows => exists begin, sourced store facts file begin rows) bin rows ->
  Forall2 (fun file begin => tfl_begin_snapshot file = Some begin) bin mins ->
  Forall2 (fun source rows => sourced store facts source.1 source.2 rows) (zip bin mins) rows
  /\ concat (zip_with (fun source rows => tagged source.2 <$> rows) (zip bin mins) rows) = tagged_rows bin rows
  /\ (zip bin mins).*1 = bin /\ (zip bin mins).*2 = mins.
Proof.
  intros Hall Hmins. revert rows Hall. induction Hmins as [|file begin bin mins Hb _ IH]; intros rows Hall;
    inversion Hall as [|? rs ? rows' [b Hs] Hr]; subst; [by split|].
  destruct (IH rows' Hr) as (H1' & H2' & H3' & H4').
  assert (b = begin) as -> by (pose proof (so_begin _ _ _ _ _ Hs); congruence).
  split; [by constructor|]. split; [|split; cbn; congruence].
  unfold tagged_rows, begin_snapshot in *. cbn. rewrite H2', Hb. done.
Qed.

(** The range of a bin whose output is not partial. *)
Lemma whole_range facts bin mins maxes lowest highest :
  Forall2 (fun file begin => tfl_begin_snapshot file = Some begin) bin mins ->
  maxes = zip_with (fun file begin => default begin (tfl_partial_max file)) bin mins ->
  least mins = Some lowest -> max_list maxes = Some highest -> is_partial facts bin mins maxes = false ->
  lowest = highest /\ forall source, source ∈ zip bin mins -> embeds_origins facts source.1 = false
    /\ default source.2 (tfl_partial_max source.1) <= highest.
Proof.
  intros _ Hmaxes El Eh Hp. unfold is_partial in Hp. apply orb_false_iff in Hp as [Hp Hem].
  apply negb_false_iff, bool_decide_eq_true in Hp. split; [congruence|]. intros [file begin] Hin. cbn. split.
  - rewrite existsb_false_iff, Forall_forall in Hem. apply Hem. by apply elem_of_zip_l in Hin.
  - assert (Hm : default begin (tfl_partial_max file) ∈ maxes).
    { subst maxes. apply list_elem_of_lookup in Hin as [i Hi]. apply lookup_zip_with_Some in Hi as (f & b & [= <- <-] & Hf & Hb).
      apply list_elem_of_lookup. exists i. apply lookup_zip_with_Some. by exists file, begin. }
    destruct (max_list_elem _ _ Hm) as (m & Hmax & Hle). congruence.
Qed.

Lemma tagged_rows_nil (bin : list DuckLakeTableFile) (rows : list (list (StoredRow Row))) : length bin = length rows ->
  tagged_rows bin rows = [] -> concat rows = [].
Proof.
  revert rows. induction bin as [|file bin IH]; intros [|rs rows] Hlen E; try done. unfold tagged_rows in E. cbn in E.
  apply app_eq_nil in E as [E1 E2]. apply fmap_nil_inv in E1 as ->. cbn. apply IH; [by injection Hlen|exact E2].
Qed.

Lemma written_file partition_id values carried file expected file' :
  (match carried with
   | Some start => if df_record_count file =? expected then Ok (keeping_row_ids start file)
                   else Err (Internal ("rowid-adjacent merge wrote " ++ show_Z (df_record_count file)
                          ++ " rows, its sources hold " ++ show_Z expected))
   | None => Ok file
   end) = Ok file' ->
  df_path (in_partition (partition_id, values) file') = df_path file.
Proof.
  intros E. transitivity (df_path file').
  - unfold in_partition. by destruct partition_id.
  - destruct carried as [start|]; [|by injection E as ->]. destruct (_ =? _); [|done]. by injection E as <-.
Qed.

(** An output, with the rows written for it. *)
Record output_of (store store' : Store Row) (bin : list DuckLakeTableFile) (rows : list (list (StoredRow Row)))
  (output : CompactionOutputFile) (begin : Z) (written : list (StoredRow Row)) : Prop := {
  oo_new : store !! df_path (cp_file output) = None;
  oo_store : store' = <[df_path (cp_file output) := written]> store;
  oo_begin : cp_begin_snapshot output = Some begin;
  oo_truthful : Forall (truthful_row begin (cp_partial_max output)) written;
  oo_rows : tagged begin <$> written ≡ₚ tagged_rows bin rows;
}.

Lemma merge_bin_ok facts ordering live table bin (store store' : Store Row) (rows : list (list (StoredRow Row))) output :
  Forall2 (fun file rows => exists begin, sourced store facts file begin rows) bin rows ->
  merge_bin facts ordering live table bin store = Ok (output, store') ->
  match output with
  | None => store' = store /\ tagged_rows bin rows = []
  | Some output => exists begin written, output_of store store' bin rows output begin written
  end.
Proof using Hlaws.
  intros Hall E. unfold merge_bin in E. destruct (bin_range bin) as [[mins maxes]|] eqn:Er; [|done]. cbn [result_bind] in E.
  destruct (bin_range_ok _ _ _ Er) as [Hmins Hmaxes].
  destruct (bin_leaves _ _ _ _ _) as [leaves|] eqn:El; [|done]. cbn [result_bind] in E.
  destruct (sources_of_bin facts store bin mins rows Hall Hmins) as (Hsources & Htags & Hbin & Hmin).
  set (partial := is_partial facts bin mins maxes) in *.
  destruct bin as [|first bin'] eqn:Ebin; [inversion Hall; subst; destruct (merged_rows _ _ _); by injection E as <- <-|].
  rewrite <- Ebin in *. assert (Hfirst : head bin = Some first) by by rewrite Ebin. rewrite Hfirst in E.
  assert (exists lowest, least mins = Some lowest) as [lowest Hl].
  { rewrite Ebin in Hmins. inversion Hmins; subst. by eexists. }
  assert (exists highest, max_list maxes = Some highest) as [highest Hh].
  { rewrite Ebin in Hmins, Hmaxes. inversion Hmins; subst. by eexists. }
  destruct (output_rows Hlaws facts partial mins bin store rows leaves lowest highest Hsources El) as [Hrows Hok].
  { intros source Hin. apply (least_spec _ _ Hl). apply (list_elem_of_fmap_2 snd) in Hin. by rewrite Hmin in Hin. }
  { intros Hp. unfold partial in Hp. rewrite <- Ebin in Hp. by apply (whole_range facts bin mins maxes). }
  rewrite Htags in Hrows. pose proof (merged_rows_perm Hlaws ordering (adjacent_row_id_start bin) leaves) as Hperm.
  rewrite <- Hperm in Hrows, Hok. destruct (merged_rows _ _ _) as [|r written] eqn:Ew.
  - injection E as <- <-. split; [done|]. symmetry. by apply Permutation_nil_l.
  - rewrite <- Ew in *. clear Ew r written. set (written := merged_rows _ _ _) in *.
    destruct (partition_key first) as [partition_id values].
    destruct (write_compacted_file_stream _ _ _ _) as [[file store1]|] eqn:Ewrite; [|done]. cbn [result_bind] in E.
    destruct (sl_write _ Hlaws _ _ _ _ _ _ Ewrite) as [Hnew Hstore].
    match type of E with context [result_bind ?m _] => destruct m as [file'|] eqn:Efile; [|done] end. cbn [result_bind] in E.
    injection E as <- <-. apply (written_file partition_id values) in Efile as Hpath.
    exists lowest, written. split; cbn [cp_file cp_begin_snapshot cp_partial_max]; rewrite ?Hpath; [done..| |done].
    rewrite Hh. cbn [default]. apply Forall_forall. intros r Hr. rewrite Forall_forall in Hok. specialize (Hok r Hr).
    unfold truthful_row. destruct (sr_origin r) as [o|] eqn:Eo.
    + destruct Hok as [-> Hlo]. cbn. split; [done|]. by apply (proj2 (observe_spec written highest) r).
    + by rewrite Hok.
Qed.
End one_bin.

Section all_bins.
Context {Row : Type} `{InlineValues} `{SortParser} `{!CompactionIO Row} (Hlaws : StoreLaws Row).

Lemma sourced_weaken (store store' : Store Row) facts file begin rows :
  store ⊆ store' -> sourced store facts file begin rows -> sourced store' facts file begin rows.
Proof. intros Hs [? ? ? ? ?]. split; [|done..]. by eapply lookup_weaken. Qed.

Abbreviation bin_sourced store facts :=
  (Forall2 (fun file (rows : list (StoredRow Row)) => exists begin, sourced store facts file begin rows)).

(** What is stored under an output's path, new since [store]. *)
Record stored_output (store store' : Store Row) (output : CompactionOutputFile) (new : Z * list (StoredRow Row)) : Prop := {
  sd_new : store !! df_path (cp_file output) = None;
  sd_stored : store' !! df_path (cp_file output) = Some new.2;
  sd_begin : cp_begin_snapshot output = Some new.1;
  sd_truthful : Forall (truthful_row new.1 (cp_partial_max output)) new.2;
}.

Lemma merge_all_ok facts ordering live table (bins : list (list DuckLakeTableFile)) (rows : list (list (list (StoredRow Row)))) :
  forall (store store' : Store Row) (plan : MergePlan),
  Forall2 (bin_sourced store facts) bins rows ->
  merge_all facts ordering live table bins store = Ok (plan, store') ->
  store ⊆ store'
  /\ mp_sources plan = (fun file : DuckLakeTableFile => {| cp_data_file_id := tfl_data_file_id file; cp_delete_file_id := None |}) <$> concat bins
  /\ exists news : list (Z * list (StoredRow Row)), Forall2 (stored_output store store') (mp_outputs plan) news
       /\ concat ((fun new : Z * list (StoredRow Row) => tagged new.1 <$> new.2) <$> news) ≡ₚ concat (zip_with tagged_rows bins rows).
Proof using Hlaws.
  revert rows. induction bins as [|bin bins IH]; intros rows store store' plan Hall E; inversion Hall as [|? rs ? rows' Hb Hr]; subst; cbn in E.
  { injection E as <- <-. split; [done|]. split; [done|]. by exists []. }
  destruct (merge_bin _ _ _ _ _ _) as [[output store1]|] eqn:E1; [|done]. cbn [result_bind] in E.
  destruct (merge_all _ _ _ _ _ _) as [[plan' store2]|] eqn:E2; [|done]. cbn [result_bind] in E. injection E as <- <-.
  pose proof (merge_bin_ok Hlaws _ _ _ _ _ _ _ _ _ Hb E1) as Hout.
  assert (Hsub : store ⊆ store1).
  { destruct output as [output|]; [|by destruct Hout as [-> _]]. destruct Hout as (begin & written & Hout).
    rewrite (oo_store _ _ _ _ _ _ _ Hout). apply insert_subseteq, (oo_new _ _ _ _ _ _ _ Hout). }
  assert (Hr' : Forall2 (bin_sourced store1 facts) bins rows').
  { eapply Forall2_impl; [exact Hr|]. intros b r Hbr. eapply Forall2_impl; [exact Hbr|]. intros file fr [begin Hs].
    exists begin. by eapply sourced_weaken. }
  destruct (IH rows' store1 store2 plan' Hr' E2) as (Hsub2 & Hsrc & news & Hnews & Htags). split; [by transitivity store1|].
  cbn [mp_sources mp_outputs]. split; [by rewrite Hsrc, <- fmap_app|].
  assert (Hweak : Forall2 (stored_output store store2) (mp_outputs plan') news).
  { eapply Forall2_impl; [exact Hnews|]. intros o new [Hn ? ? ?]. split; [|done..]. by eapply lookup_weaken_None. }
  destruct output as [output|].
  - destruct Hout as (begin & written & Hout). exists ((begin, written) :: news). cbn [option_list app]. split.
    + constructor; [|done]. split; [apply (oo_new _ _ _ _ _ _ _ Hout)| |apply (oo_begin _ _ _ _ _ _ _ Hout)|apply (oo_truthful _ _ _ _ _ _ _ Hout)].
      apply (lookup_weaken store1); [|done]. rewrite (oo_store _ _ _ _ _ _ _ Hout). apply lookup_insert_eq.
    + cbn. by rewrite (oo_rows _ _ _ _ _ _ _ Hout), Htags.
  - destruct Hout as [-> Hnil]. exists news. cbn [option_list app]. split; [done|]. cbn. by rewrite Hnil, Htags.
Qed.
End all_bins.

Section plan.
Context {Row : Type} `{InlineValues} `{SortParser} `{!CompactionIO Row} (Hlaws : StoreLaws Row).

(** *** The bins *)

Lemma fill_bin_app target first : forall files running bin rest,
  fill_bin target first running files = (bin, rest) -> files = bin ++ rest.
Proof.
  intros files. induction files as [|file files IH]; intros running bin rest E; cbn in E; [by injection E as <- <-|].
  destruct (same_group first file); [|by injection E as <- <-].
  destruct (target <=? _); [by injection E as <- <-|]. destruct (fill_bin _ _ _ files) as [bin' rest'] eqn:Ef.
  injection E as <- <-. cbn. f_equal. by eapply IH.
Qed.

Lemma same_group_refl file : same_group file file = true.
Proof. unfold same_group. by rewrite !bool_decide_true. Qed.

(** The fuel is enough: every candidate is in one bin. *)
Lemma pack_bins_concat target : forall fuel candidates, (length candidates <= fuel)%nat -> concat (pack_bins fuel target candidates) = candidates.
Proof.
  intros fuel. induction fuel as [|fuel IH]; intros [|first rest] Hlen; try done; [cbn in Hlen; lia|]. cbn [pack_bins].
  destruct (fill_bin target first 0 (first :: rest)) as [bin rest'] eqn:Ef. pose proof (fill_bin_app _ _ _ _ _ _ Ef) as E.
  cbn [concat]. rewrite IH; [done|]. cbn [fill_bin] in Ef. rewrite same_group_refl in Ef.
  assert (bin <> []) by (destruct (target <=? _); [by injection Ef as <- _|]; destruct (fill_bin _ _ _ rest); by injection Ef as <- _).
  apply (f_equal length) in E. rewrite length_app in E. cbn in E, Hlen. destruct bin; [done|]. cbn in E. lia.
Qed.

Lemma insert_sorted_perm {A} (cmp : A -> A -> comparison) a l : insert_sorted cmp a l ≡ₚ a :: l.
Proof. induction l as [|b l IH]; [done|]. cbn. destruct (cmp b a); [..|done]; by rewrite IH, Permutation_swap. Qed.
Lemma sort_by_perm {A} (cmp : A -> A -> comparison) l : sort_by cmp l ≡ₚ l.
Proof.
  unfold sort_by. enough (Hg : forall acc, fold_left (fun sorted a => insert_sorted cmp a sorted) l acc ≡ₚ acc ++ l) by (by rewrite Hg).
  induction l as [|a l IH]; intros acc; cbn; [by rewrite app_nil_r|]. rewrite IH, insert_sorted_perm. apply Permutation_middle.
Qed.

Lemma concat_filter_sublist {A} (p : list A -> bool) (l : list (list A)) : sublist (concat (List.filter p l)) (concat l).
Proof.
  induction l as [|a l IH]; [constructor|]. cbn. destruct (p a); cbn; [by apply sublist_app|by apply sublist_inserts_l].
Qed.

(** The files of the bins are candidates, and each is in one bin. *)
Lemma bins_candidates opts inlined files : NoDup (tfl_data_file_id <$> files) ->
  let bins := merge_bins opts (merge_candidates opts inlined files) in
  NoDup (tfl_data_file_id <$> concat bins)
  /\ forall file, file ∈ concat bins -> file ∈ files /\ is_candidate opts inlined file = true.
Proof.
  intros Hn bins.
  assert (Hsub : sublist (concat bins) (merge_candidates opts inlined files)).
  { unfold bins, merge_bins. etransitivity; [apply concat_filter_sublist|]. by rewrite pack_bins_concat. }
  assert (Htake : sublist (concat bins) (sort_by candidate_cmp (List.filter (is_candidate opts inlined) files))).
  { etransitivity; [exact Hsub|]. apply sublist_take. }
  split.
  - eapply sublist_NoDup; [|apply fmap_sublist, Htake]. rewrite sort_by_perm. eapply sublist_NoDup; [exact Hn|].
    apply fmap_sublist, select_sublist.
  - intros file Hf. apply (elem_of_sublist _ _ _ Hf) in Htake as Hf'. clear Hf. rename Hf' into Hf. rewrite sort_by_perm in Hf.
    apply list_elem_of_In, List.filter_In in Hf as [Hf Hc]. split; [by apply list_elem_of_In|done].
Qed.

(** *** The facts *)

Lemma check_bin_ok base (bin : list DuckLakeTableFile) (store : Store Row) : forall facts facts' mergeable,
  check_bin base bin store facts = Ok (mergeable, facts') ->
  (forall id, id ∉ tfl_data_file_id <$> bin -> facts' !! id = facts !! id)
  /\ (mergeable = true -> NoDup (tfl_data_file_id <$> bin) -> forall file, file ∈ bin ->
      exists fact, facts' !! tfl_data_file_id file = Some fact /\ merge_source_facts (tfl_file file) store = Ok fact).
Proof.
  induction bin as [|file bin IH]; intros facts facts' mergeable E; cbn in E.
  { injection E as _ <-. split; [done|]. intros _ _ f Hf. by apply elem_of_nil in Hf. }
  destruct (merge_source_facts (tfl_file file) store) as [fact|] eqn:Ef; [|done]. cbn [result_bind] in E.
  destruct (_ || _ || _).
  { injection E as <- <-. split; [|done]. intros id Hid. rewrite fmap_cons, not_elem_of_cons in Hid. by rewrite lookup_insert_ne by naive_solver. }
  destruct (IH _ _ _ E) as [Hother Hin]. split.
  - intros id Hid. rewrite fmap_cons, not_elem_of_cons in Hid. destruct Hid as [Hne Hid]. rewrite Hother by done.
    by rewrite lookup_insert_ne by done.
  - intros Hm Hn f Hf. rewrite fmap_cons, NoDup_cons in Hn. destruct Hn as [Hnot Hn]. apply elem_of_cons in Hf as [->|Hf]; [|by apply Hin].
    exists fact. by rewrite Hother, lookup_insert_eq.
Qed.

Lemma viable_sublist base bins (store : Store Row) : forall facts viable facts',
  viable_bins base bins store facts = Ok (viable, facts') -> sublist viable bins.
Proof.
  induction bins as [|bin bins IH]; intros facts viable facts' E; cbn in E; [by injection E as <- <-|].
  destruct (check_bin base bin store facts) as [[mergeable facts1]|]; [|done]. cbn [result_bind] in E.
  destruct (viable_bins base bins store facts1) as [[viable' facts2]|] eqn:E2; [|done]. cbn [result_bind] in E. injection E as <- <-.
  specialize (IH _ _ _ E2). destruct mergeable; by constructor.
Qed.

Lemma viable_bins_ok base bins (store : Store Row) : forall facts viable facts',
  NoDup (tfl_data_file_id <$> concat bins) -> viable_bins base bins store facts = Ok (viable, facts') ->
  (forall id, id ∉ tfl_data_file_id <$> concat bins -> facts' !! id = facts !! id)
  /\ forall file, file ∈ concat viable ->
      exists fact, facts' !! tfl_data_file_id file = Some fact /\ merge_source_facts (tfl_file file) store = Ok fact.
Proof.
  induction bins as [|bin bins IH]; intros facts viable facts' Hn E; cbn in E.
  { injection E as <- <-. split; [done|]. intros f Hf. by apply elem_of_nil in Hf. }
  destruct (check_bin base bin store facts) as [[mergeable facts1]|] eqn:E1; [|done]. cbn [result_bind] in E.
  destruct (viable_bins base bins store facts1) as [[viable' facts2]|] eqn:E2; [|done]. cbn [result_bind] in E. injection E as <- <-.
  cbn [concat] in Hn |- *. rewrite fmap_app, NoDup_app in Hn. destruct Hn as (Hn1 & Hdisj & Hn2).
  destruct (check_bin_ok _ _ _ _ _ _ E1) as [Hother1 Hin1]. destruct (IH _ _ _ Hn2 E2) as (Hother2 & Hin2). split.
  - intros id Hid. rewrite fmap_app, not_elem_of_app in Hid. destruct Hid as [H1' H2']. by rewrite Hother2, Hother1.
  - destruct mergeable; [|exact Hin2]. intros file Hf. cbn [concat] in Hf. apply elem_of_app in Hf as [Hf|Hf]; [|by apply Hin2].
    destruct (Hin1 eq_refl Hn1 file Hf) as (fact & Hfact & Hm). exists fact. split; [|done]. rewrite Hother2; [done|].
    apply Hdisj. by apply list_elem_of_fmap_2.
Qed.
End plan.

Section planned.
Context {Row : Type} `{InlineValues} `{SortParser} `{!CompactionIO Row} (Hlaws : StoreLaws Row).

(** The snapshot ranges of a table's files are right about their rows. *)
Definition ranges_right (table_id : Z) (store : Store Row) (db : Db) : Prop :=
  forall v, v ∈ t_data_files db -> d_table_id (v_row v) = table_id ->
    exists rows, store !! d_path (v_row v) = Some rows /\ Forall (truthful_row (v_begin v) (d_partial_max (v_row v))) rows.

Definition stored (store : Store Row) (path : str) : list (StoredRow Row) := default [] (store !! path).
Definition file_tags (store : Store Row) (file : DuckLakeTableFile) : list (Row * Z * Z) :=
  tagged (begin_snapshot file) <$> stored store (fd_path (tfl_file file)).
Definition new_tags (news : list (Z * list (StoredRow Row))) : list (Row * Z * Z) :=
  concat ((fun new : Z * list (StoredRow Row) => tagged new.1 <$> new.2) <$> news).

Lemma bins_tags (store : Store Row) (bins : list (list DuckLakeTableFile)) :
  concat (zip_with tagged_rows bins ((fun bin : list DuckLakeTableFile => (fun file : DuckLakeTableFile => stored store (fd_path (tfl_file file))) <$> bin) <$> bins))
  = concat (file_tags store <$> concat bins).
Proof.
  induction bins as [|bin bins IH]; [done|]. cbn [fmap list_fmap zip_with concat].
  rewrite IH, fmap_app, concat_app. f_equal. clear IH. unfold tagged_rows.
  induction bin as [|file bin IH]; [done|]. cbn. by rewrite IH.
Qed.

Record planned (table : MergeTable) (store store' : Store Row) (db : Db) (plan : MergePlan)
  (files : list DuckLakeTableFile) (news : list (Z * list (StoredRow Row))) : Prop := {
  pl_distinct : NoDup (tfl_data_file_id <$> files);
  pl_listed : forall file, file ∈ files -> file ∈ get_table_files_for_select (mt_table_id table) (mt_snapshot_id table) db
    /\ tfl_delete_file_id file = None
    /\ exists inlined, inlined_deletes_by_file (mt_table_id table) (mt_snapshot_id table) db = Ok inlined
         /\ inlined !! tfl_data_file_id file = None;
  pl_store : store ⊆ store';
  pl_sources : mp_sources plan = (fun file : DuckLakeTableFile => {| cp_data_file_id := tfl_data_file_id file; cp_delete_file_id := None |}) <$> files;
  pl_outputs : Forall2 (stored_output store store') (mp_outputs plan) news;
  pl_fewer : (2 * length (mp_outputs plan) <= length files)%nat;
  pl_rows : new_tags news ≡ₚ concat (file_tags store <$> files);
}.

Lemma candidate_undeleted opts inlined file : is_candidate opts inlined file = true ->
  tfl_delete_file_id file = None /\ inlined !! tfl_data_file_id file = None.
Proof.
  unfold is_candidate. intros [[[[[Hd Hi]%andb_true_iff _]%andb_true_iff _]%andb_true_iff _]%andb_true_iff _]%andb_true_iff.
  by apply bool_decide_eq_true in Hd, Hi.
Qed.

(** The sources of a plan are files of the store with the facts the plan has of them. *)
Lemma listed_sourced (store : Store Row) table_id base db facts (file : DuckLakeTableFile) :
  wf_deletes db -> ranges_right table_id store db -> file ∈ get_table_files_for_select table_id base db ->
  tfl_delete_file_id file = None ->
  (exists fact, facts !! tfl_data_file_id file = Some fact /\ merge_source_facts (tfl_file file) store = Ok fact) ->
  exists begin, sourced store facts file begin (stored store (fd_path (tfl_file file))).
Proof using Hlaws.
  intros Hw Hr Hf Hd (fact & Hfact & Hm). destruct (listing_elem table_id db base file Hw Hf) as (v & delete & Hl).
  pose proof (li_table _ _ _ _ _ _ Hl) as Ht. unfold of_table in Ht. apply Z.eqb_eq in Ht.
  destruct (Hr v (li_row _ _ _ _ _ _ Hl) Ht) as (rows & Hrows & Htruth).
  assert (Hpath : fd_path (tfl_file file) = d_path (v_row v)) by by rewrite (li_file _ _ _ _ _ _ Hl).
  exists (v_begin v). unfold stored. rewrite Hpath, Hrows. cbn. split.
  - by rewrite Hpath.
  - done.
  - apply (li_begin _ _ _ _ _ _ Hl).
  - by rewrite (li_partial _ _ _ _ _ _ Hl).
  - unfold embeds_origins. rewrite Hfact. intros He. rewrite <- Hpath in Hrows. by apply (sl_facts _ Hlaws _ _ _ _ Hrows Hm).
Qed.

Lemma merge_all_sources facts ordering live table bins : forall (store store' : Store Row) plan,
  merge_all facts ordering live table bins store = Ok (plan, store') -> length (mp_sources plan) = length (concat bins).
Proof.
  induction bins as [|bin bins IH]; intros store store' plan E; cbn in E; [by injection E as <- <-|].
  destruct (merge_bin _ _ _ _ _ _) as [[output store1]|]; [|done]. cbn [result_bind] in E.
  destruct (merge_all _ _ _ _ _ _) as [[plan' store2]|] eqn:E2; [|done]. cbn [result_bind] in E. injection E as <- <-.
  cbn. by rewrite !length_app, length_fmap, (IH _ _ _ E2).
Qed.

(** A plan of nothing has written nothing. *)
Lemma no_plan opts table (store store' : Store Row) db : plan_merge opts table store db = Ok (None, store') -> store' = store.
Proof.
  intros E. unfold plan_merge in E.
  destruct (mt_writable table); [|done]. cbn [result_bind] in E. destruct (mt_schema_name table); [|done]. cbn [ok_or result_bind] in E.
  destruct (catalog_encrypted db) as [[]|]; [done| |done]. cbn [result_bind] in E. destruct (mt_options table); [|done].
  cbn [result_bind] in E. destruct (negb _); [by injection E|]. destruct (inlined_deletes_by_file _ _ db) as [inlined|]; [|done].
  cbn [result_bind] in E. set (bins0 := merge_bins _ _) in *. destruct (is_empty bins0); [by injection E|].
  destruct (viable_bins _ bins0 store ∅) as [[bins facts]|] eqn:Ev; [|done]. cbn [result_bind] in E.
  destruct bins as [|bin bins'] eqn:Eb; [by injection E|]. cbn [is_empty] in E. rewrite <- Eb in *.
  destruct (compaction_ordering _); [|done]. cbn [result_bind] in E.
  destruct (merge_all _ _ _ _ bins store) as [[plan store1]|] eqn:Em; [|done]. cbn [result_bind] in E.
  pose proof (merge_all_sources _ _ _ _ _ _ _ _ Em) as Hlen. destruct (mp_sources plan); [|done]. exfalso.
  apply viable_sublist in Ev. assert (Hin : bin ∈ bins0) by (eapply elem_of_sublist; [|exact Ev]; rewrite Eb; left).
  apply list_elem_of_In, List.filter_In in Hin as [_ H2]. apply Nat.leb_le in H2. rewrite Eb in Hlen. cbn in Hlen. rewrite length_app in Hlen. lia.
Qed.

Lemma concat_sublist {A} (l k : list (list A)) : sublist l k -> sublist (concat l) (concat k).
Proof. induction 1 as [|a l k _ IH|a l k _ IH]; [done|by apply sublist_app|by apply sublist_inserts_l]. Qed.

(** Each output replaces two files or more. *)
Lemma merge_all_fewer facts ordering live table bins : forall (store store' : Store Row) plan,
  Forall (fun bin => 2 <= length bin)%nat bins -> merge_all facts ordering live table bins store = Ok (plan, store') ->
  (2 * length (mp_outputs plan) <= length (concat bins))%nat.
Proof.
  induction bins as [|bin bins IH]; intros store store' plan Hall E; cbn in E; [by injection E as <- <-|].
  destruct (merge_bin _ _ _ _ _ _) as [[output store1]|]; [|done]. cbn [result_bind] in E.
  destruct (merge_all _ _ _ _ _ _) as [[plan' store2]|] eqn:E2; [|done]. cbn [result_bind] in E. injection E as <- <-.
  inversion Hall as [|? ? Hb Hbs]; subst. specialize (IH _ _ _ Hbs E2). cbn. rewrite !length_app. destruct output; cbn; lia.
Qed.

Lemma plan_ok opts table (store store' : Store Row) db plan :
  wf db -> ranges_right (mt_table_id table) store db -> plan_merge opts table store db = Ok (Some plan, store') ->
  exists files news, planned table store store' db plan files news.
Proof using Hlaws.
  intros Hw Hr E. unfold plan_merge in E.
  destruct (mt_writable table); [|done]. cbn [result_bind] in E.
  destruct (mt_schema_name table) as [?|]; [|done]. cbn [ok_or result_bind] in E.
  destruct (catalog_encrypted db) as [[]|]; [done| |done]. cbn [result_bind] in E.
  destruct (mt_options table); [|done]. cbn [result_bind] in E. destruct (negb _); [done|].
  destruct (inlined_deletes_by_file _ _ db) as [inlined|] eqn:Ei; [|done]. cbn [result_bind] in E.
  set (files := get_table_files_for_select _ _ db) in *. set (bins0 := merge_bins _ _) in *.
  destruct (bins_candidates opts inlined files (listed_once _ _ _ Hw)) as [Hn Hin]. fold bins0 in Hn, Hin.
  destruct (is_empty bins0); [done|]. destruct (viable_bins _ bins0 store ∅) as [[bins facts]|] eqn:Ev; [|done]. cbn [result_bind] in E.
  destruct (viable_bins_ok _ _ _ _ _ _ Hn Ev) as (_ & Hfacts). pose proof (viable_sublist _ _ _ _ _ _ Ev) as Hsub.
  destruct (is_empty bins); [done|]. destruct (compaction_ordering _) as [ordering|]; [|done]. cbn [result_bind] in E.
  destruct (merge_all _ _ _ _ bins store) as [[plan' store1]|] eqn:Em; [|done]. cbn [result_bind] in E.
  destruct (is_empty (mp_sources plan')); [done|]. injection E as <- <-.
  assert (Hin' : forall file, file ∈ concat bins -> file ∈ concat bins0) by (intros file Hf; eapply elem_of_sublist; [exact Hf|by apply concat_sublist]).
  assert (Hall : Forall2 (Forall2 (fun file rows => exists begin, sourced store facts file begin rows)) bins
    ((fun bin : list DuckLakeTableFile => (fun file : DuckLakeTableFile => stored store (fd_path (tfl_file file))) <$> bin) <$> bins)).
  { apply Forall2_fmap_r, Forall_Forall2_diag, Forall_forall. intros bin Hbin. apply Forall2_fmap_r, Forall_Forall2_diag, Forall_forall.
    intros file Hfile. assert (Hc : file ∈ concat bins) by (apply list_elem_of_In, in_concat; exists bin; split; by apply list_elem_of_In).
    destruct (Hin file (Hin' file Hc)) as [Hl Hcand]. destruct Hw as (_ & Hwd & _).
    apply (listed_sourced store (mt_table_id table) (mt_snapshot_id table) db); [done..| |by apply Hfacts].
    by apply (candidate_undeleted opts inlined). }
  destruct (merge_all_ok Hlaws _ _ _ _ _ _ _ _ _ Hall Em) as (Hstore & Hsrc & news & Hnews & Htags).
  exists (concat bins), news. split; [|..|done|done|done| |].
  - eapply sublist_NoDup; [exact Hn|]. by apply fmap_sublist, concat_sublist.
  - intros file Hf. destruct (Hin file (Hin' file Hf)) as [Hl Hc]. destruct (candidate_undeleted _ _ _ Hc). split_and!; [done..|]. by exists inlined.
  - eapply merge_all_fewer; [|exact Em]. apply Forall_forall. intros bin Hbin. apply (elem_of_sublist _ _ _ Hbin) in Hsub.
    apply list_elem_of_In, List.filter_In in Hsub as [_ Hlen]. by apply Nat.leb_le.
  - unfold new_tags. by rewrite Htags, bins_tags.
Qed.
End planned.

(** ** The commit *)

Section commit.
Context `{InlineValues} `{SortParser}.

(** The tables of files, as they are. *)
Definition files_are (data : list (versioned DataFileRow)) (deletes : list (versioned DeleteFileRow))
  (inlined : gmap str (list InlinedDeleteRow)) (db : Db) : Prop :=
  t_data_files db = data /\ t_delete_files db = deletes /\ t_inlined_deletes db = inlined.
#[local] Instance files_reserves data deletes inlined : Reserves (files_are data deletes inlined).
Proof. split; intros f db; exact id. Qed.

Ltac same_files := repeat first
  [ keep_step
  | apply keeps_execute; intros ? Hfiles; exact Hfiles
  | apply keeps_insert_key; intros ? Hfiles _; exact Hfiles ].

Lemma files_insert_snapshot data deletes inlined : keeps_of (files_are data deletes inlined) insert_snapshot.
Proof. unfold insert_snapshot, keeps_of. same_files. Qed.
Lemma files_schedule data deletes inlined rows : keeps_of (files_are data deletes inlined) (schedule rows).
Proof. unfold schedule, keeps_of. same_files. Qed.
Lemma files_record data deletes inlined snapshot_id changes metadata :
  keeps_of (files_are data deletes inlined) (record_snapshot_changes snapshot_id changes metadata).
Proof. unfold record_snapshot_changes, raise_snapshot_watermarks, keeps_of. same_files. Qed.
Lemma files_stats data deletes inlined table_id id stats :
  keeps_of (files_are data deletes inlined) (insert_file_column_stats table_id id stats).
Proof. unfold insert_file_column_stats, keeps_of. same_files. Qed.
Lemma files_reserve data deletes inlined n : keeps_of (files_are data deletes inlined) (reserve_file_ids n).
Proof. unfold keeps_of. same_files. Qed.
Lemma files_commit_ids data deletes inlined snapshot_id table_id : keeps_of (files_are data deletes inlined) (commit_ids snapshot_id table_id).
Proof. unfold commit_ids, table_schema_id, keeps_of. same_files. Qed.
Lemma files_detect data deletes inlined table_id base sources :
  keeps_of (files_are data deletes inlined) (detect_new_inlined_deletes table_id base sources).
Proof. unfold detect_new_inlined_deletes, keeps_of. same_files. Qed.

(** The check of a source. *)
Definition checked_source (table_id : Z) (source : CompactionSourceFile) (db : Db) : Prop :=
  (exists v, v ∈ t_data_files db /\ d_id (v_row v) = cp_data_file_id source /\ d_table_id (v_row v) = table_id /\ live v = true)
  /\ (cp_delete_file_id source = None -> forall x, x ∈ t_delete_files db -> x_data_file_id (v_row x) = cp_data_file_id source -> live x = false).

Lemma check_source_ok table_id base source db u db' : check_compaction_source table_id base source db = Returns (Ok (u, db')) ->
  db' = db /\ checked_source table_id source db.
Proof.
  unfold check_compaction_source. intros E. apply bind_ok in E as (b & d & [= <- <-] & E). apply bind_ok in E as ([] & d & E1 & E).
  destruct (existsb _ (t_data_files db)) eqn:Ex; [|done]. injection E1 as <-.
  apply bind_ok in E as (current & d & [= <- <-] & E). unfold ensure in E.
  destruct (bool_decide _) eqn:Ec; [|done]. injection E as _ <-. split; [done|]. split.
  - apply existsb_exists in Ex as (v & Hv & [[Hid Ht]%andb_true_iff Hl]%andb_true_iff). unfold of_table in Hid, Ht.
    apply Z.eqb_eq in Hid, Ht. exists v. split_and!; [by apply list_elem_of_In|done..].
  - intros Hn x Hx Hid. apply bool_decide_eq_true in Ec. rewrite Hn in Ec. apply fmap_None in Ec.
    pose proof (head_select_none _ _ Ec x Hx) as Hs. cbn in Hs. unfold of_table in Hs. rewrite Hid, Z.eqb_refl in Hs. exact Hs.
Qed.

Lemma check_sources_ok table_id base sources db u db' : for_each sources (check_compaction_source table_id base) db = Returns (Ok (u, db')) ->
  db' = db /\ Forall (fun source => checked_source table_id source db) sources.
Proof.
  revert db. induction sources as [|source sources IH]; intros db E; cbn [for_each] in E; [by injection E as _ <-|].
  apply bind_ok in E as (u1 & d & E1 & E). apply check_source_ok in E1 as [-> Hc]. apply IH in E as [-> Hall]. split; [done|by constructor].
Qed.

(** The inlined deletions of a table. *)
Definition inlined_delete_rows (table_id : Z) (db : Db) : list InlinedDeleteRow :=
  match inlined_delete_table_name table_id with
  | Ok name => default [] (t_inlined_deletes db !! name)
  | Err _ => []
  end.

Lemma conflict_none table_id base sources (concurrent : list (Z * option Z)) : inlined_deletion_conflict table_id base sources concurrent = Ok tt ->
  forall delete, delete ∈ concurrent -> deletion_conflicts sources delete.1 delete.2 = false.
Proof.
  induction concurrent as [|[file_id row_id] rest IH]; intros E delete Hin; [by apply elem_of_nil in Hin|]. cbn in E.
  destruct (deletion_conflicts sources file_id row_id) eqn:Ed; [done|]. apply elem_of_cons in Hin as [->|Hin]; [done|by apply IH].
Qed.

(** Sources without inlined deletions at the base have none at all. *)
Lemma detect_ok table_id base (sources : list CompactionSourceFile) db u db' :
  sources <> [] ->
  (forall row, row ∈ inlined_delete_rows table_id db -> i_file_id row ∈ cp_data_file_id <$> sources ->
     match i_begin_snapshot row with Some b => base < b | None => True end) ->
  detect_new_inlined_deletes table_id base ((fun s => SourceFile_any (cp_data_file_id s)) <$> sources) db = Returns (Ok (u, db')) ->
  db' = db /\ forall row, row ∈ inlined_delete_rows table_id db -> i_file_id row ∉ cp_data_file_id <$> sources.
Proof.
  intros Hne Hbase E. unfold detect_new_inlined_deletes in E. set (files := (fun s => SourceFile_any (cp_data_file_id s)) <$> sources) in *.
  assert (is_empty files = false) as Hf by (unfold files; by destruct sources). rewrite Hf in E.
  apply bind_ok in E as (name & d & E1 & E). unfold inlined_delete_rows in *.
  destruct (inlined_delete_table_name table_id) as [name'|]; [|done]. injection E1 as <- <-.
  apply bind_ok in E as (rows & d & [= <- <-] & E). destruct (t_inlined_deletes db !! name') as [rows|]; cbn [default] in *.
  2:{ injection E as _ <-. split; [done|]. intros row Hr. by apply elem_of_nil in Hr. }
  unfold lift in E. destruct (inlined_deletion_conflict _ _ _ _) as [[]|] eqn:Ec; [|done]. injection E as _ <-. split; [done|].
  intros row Hrow Hin. pose proof (conflict_none _ _ _ _ Ec (i_file_id row, i_row_id row)) as Hno. cbn [fst snd] in Hno.
  assert (Hany : existsb (fun source => sf_data_file_id source =? i_file_id row) files = true).
  { apply existsb_exists. apply list_elem_of_fmap in Hin as (source & Hid & Hs). exists (SourceFile_any (cp_data_file_id source)).
    split; [|cbn; lia]. apply list_elem_of_In, list_elem_of_fmap. by exists source. }
  assert (deletion_conflicts files (i_file_id row) (i_row_id row) = true) as Hd.
  { unfold deletion_conflicts. apply existsb_exists in Hany as (source & Hs & Hid). apply existsb_exists. exists source. split; [done|].
    rewrite Hid. apply list_elem_of_In, list_elem_of_fmap in Hs as (s & -> & _). done. }
  rewrite Hno in Hd; [done|]. unfold new_inlined_deletes. apply list_elem_of_fmap. exists row. split; [done|]. apply elem_of_select.
  split; [|done]. rewrite Hany. cbn [andb]. pose proof (Hbase row Hrow Hin) as Hb. destruct (i_begin_snapshot row) as [b|]; [|done].
  apply andb_true_iff. split; [lia|]. destruct (i_row_id row); [|done]. apply negb_true_iff, not_true_is_false. intros Hp.
  apply existsb_exists in Hp as (prior & Hprior & [[Hid _]%andb_true_iff Hle]%andb_true_iff). apply Z.eqb_eq in Hid.
  pose proof (Hbase prior ltac:(by apply list_elem_of_In) ltac:(by rewrite Hid)) as Hb'. destruct (i_begin_snapshot prior); [lia|done].
Qed.
End commit.

Section removed.
Context `{InlineValues} `{SortParser}.

(** The row of a new file. *)
Record new_row (table_id snapshot_id : Z) (output : CompactionOutputFile) (v : versioned DataFileRow) : Prop := {
  nr_begin : v_begin v = default snapshot_id (cp_begin_snapshot output);
  nr_live : v_end v = None;
  nr_table : d_table_id (v_row v) = table_id;
  nr_path : d_path (v_row v) = df_path (cp_file output);
  nr_partial : d_partial_max (v_row v) = cp_partial_max output;
}.

Lemma update_fresh {A} (p : A -> bool) (f : A -> A) l a : existsb p l = false -> p a = true -> update p f (l ++ [a]) = l ++ [f a].
Proof.
  intros Hl Ha. unfold update. rewrite fmap_app. cbn. rewrite Ha. f_equal. induction l as [|b l IH]; [done|]. cbn in *.
  apply orb_false_iff in Hl as [-> Hl]. by rewrite IH.
Qed.

Lemma insert_reserved_ok table_id snapshot_id id output db u db' :
  insert_reserved_file table_id id (default snapshot_id (cp_begin_snapshot output)) (cp_file output) (cp_partial_max output) db
    = Returns (Ok (u, db')) ->
  exists v, files_are (t_data_files db ++ [v]) (t_delete_files db) (t_inlined_deletes db) db'
    /\ new_row table_id snapshot_id output v /\ existsb (of_table d_id (d_id (v_row v))) (t_data_files db) = false.
Proof.
  unfold insert_reserved_file. intros E. apply bind_ok in E as ([] & d1 & E1 & E). unfold insert_key in E1.
  destruct (existsb (of_table d_id id) (t_data_files db)) eqn:Ex; [done|]. injection E1 as <-.
  set (v := born _ _) in E. apply bind_ok in E as ([] & d2 & E2 & E).
  assert (Hd2 : files_are (t_data_files db ++ [v]) (t_delete_files db) (t_inlined_deletes db) d2).
  { refine (proj1 (files_stats _ _ _ _ _ _ _ _ _ _ E2)). by split_and!. }
  unfold insert_partition_metadata in E. destruct (df_partition_id (cp_file output)) as [pid|].
  - apply bind_ok in E as ([] & d3 & [= <-] & E). injection E as _ <-. exists (with_row (with_partition_id pid) v).
    destruct Hd2 as (Hd & Hx & Hi). split; [|split; [by split|done]]. split_and!; [|exact Hx|exact Hi].
    cbn. rewrite Hd. apply update_fresh; [done|]. unfold of_table. cbn. apply Z.eqb_refl.
  - apply bind_ok in E as ([] & d3 & [= <-] & E). injection E as _ <-. exists v. split; [exact Hd2|]. by split.
Qed.

Lemma insert_outputs_ok table_id snapshot_id (outputs : list CompactionOutputFile) : forall ids db u db', length ids = length outputs ->
  for_each (zip outputs ids) (fun '(output, data_file_id) =>
    insert_reserved_file table_id data_file_id (default snapshot_id (cp_begin_snapshot output)) (cp_file output)
      (cp_partial_max output)) db = Returns (Ok (u, db')) ->
  exists vs, files_are (t_data_files db ++ vs) (t_delete_files db) (t_inlined_deletes db) db'
    /\ Forall2 (new_row table_id snapshot_id) outputs vs
    /\ Forall (fun v => existsb (of_table d_id (d_id (v_row v))) (t_data_files db) = false) vs.
Proof.
  induction outputs as [|output outputs IH]; intros [|id ids] db u db' Hlen E; try done; cbn [zip zip_with for_each] in E.
  { injection E as _ <-. exists []. split; [|by split]. split_and!; [by rewrite app_nil_r|done..]. }
  apply bind_ok in E as (u1 & d1 & E1 & E). destruct (insert_reserved_ok _ _ _ _ _ _ _ E1) as (v & (Hd & Hx & Hi) & Hv & Hnew).
  destruct (IH ids d1 u db' ltac:(by injection Hlen) E) as (vs & (Hd' & Hx' & Hi') & Hvs & Hnews). exists (v :: vs).
  split; [split_and!; [by rewrite Hd', Hd, <- app_assoc|by rewrite Hx', Hx|by rewrite Hi', Hi]|]. split; [by constructor|].
  constructor; [done|]. eapply Forall_impl; [exact Hnews|]. cbn. intros w Hw. rewrite Hd, existsb_app in Hw. by apply orb_false_iff in Hw as [? _].
Qed.

(** What a commit that removes its sources leaves. *)
Definition of_source {A} (id : A -> Z) (sources : list CompactionSourceFile) (v : versioned A) : bool :=
  existsb (Z.eqb (id (v_row v))) (cp_data_file_id <$> sources).
Record exchanged (table_id : Z) (sources : list CompactionSourceFile) (outputs : list CompactionOutputFile) (db db' : Db)
  (snapshot_id : Z) (news : list (versioned DataFileRow)) : Prop := {
  ex_data : t_data_files db' = delete_where (of_source d_id sources) (t_data_files db) ++ news;
  ex_deletes : t_delete_files db' = delete_where (of_source x_data_file_id sources) (t_delete_files db);
  ex_inlined : t_inlined_deletes db' = t_inlined_deletes db;
  ex_news : Forall2 (new_row table_id snapshot_id) outputs news;
  ex_fresh : Forall (fun v => existsb (of_table d_id (d_id (v_row v))) (delete_where (of_source d_id sources) (t_data_files db)) = false) news;
  ex_checked : Forall (fun source => checked_source table_id source db) sources;
  ex_undeleted : forall row, row ∈ inlined_delete_rows table_id db -> i_file_id row ∉ cp_data_file_id <$> sources;
}.

Lemma files_are_refl db : files_are (t_data_files db) (t_delete_files db) (t_inlined_deletes db) db.
Proof. by split_and!. Qed.

Lemma retire_sources_ok snapshot_id sources db u db' :
  retire_sources snapshot_id Remove (cp_data_file_id <$> sources) db = Returns (Ok (u, db')) ->
  files_are (delete_where (of_source d_id sources) (t_data_files db)) (delete_where (of_source x_data_file_id sources) (t_delete_files db))
    (t_inlined_deletes db) db'.
Proof.
  unfold retire_sources. intros E. repeat (apply bind_ok in E as ([] & ? & [= <-] & E)). injection E as _ <-. by split_and!.
Qed.

Lemma checked_same table_id source data deletes inlined db db' : files_are data deletes inlined db -> files_are data deletes inlined db' ->
  checked_source table_id source db -> checked_source table_id source db'.
Proof. intros (Hd & Hx & _) (Hd' & Hx' & _). unfold checked_source. by rewrite Hd, Hx, Hd', Hx'. Qed.

Lemma reserved_length n db ids db' : reserve_file_ids (Z.of_nat n) db = Returns (Ok (ids, db')) -> length ids = n.
Proof.
  unfold reserve_file_ids. intros E. apply bind_ok in E as (first & d & _ & E). apply bind_ok in E as (last & d' & _ & E).
  injection E as <- _. by rewrite length_fmap, length_seq, Nat2Z.id.
Qed.

Lemma commit_ids_committed snapshot_id table_id db ending db' : commit_ids snapshot_id table_id db = Returns (Ok (ending, db')) ->
  exists ids, ending = Committed ids.
Proof. unfold commit_ids. intros E. apply bind_ok in E as (schema_id & d & _ & E). injection E as <- _. by eexists. Qed.

Lemma commit_steps table_id base sources outputs db ending db' :
  (forall row, row ∈ inlined_delete_rows table_id db -> i_file_id row ∈ cp_data_file_id <$> sources ->
     match i_begin_snapshot row with Some b => base < b | None => True end) ->
  commit_compaction table_id base sources outputs Remove db = Returns (Ok (ending, db')) ->
  (exists ids, ending = Committed ids) /\ exists snapshot_id news, exchanged table_id sources outputs db db' snapshot_id news.
Proof.
  intros Hbase E. unfold commit_compaction in E. pose proof (files_are_refl db) as Hf.
  apply bind_ok in E as ([] & d & E1 & E). assert (Hne : sources <> []) by (intros ->; done).
  unfold ensure in E1. destruct (negb (is_empty sources)); [|done]. injection E1 as <-.
  apply bind_ok in E as ([snapshot_id version] & d1 & E1 & E). apply (files_insert_snapshot _ _ _ _ _ _ Hf) in E1 as [Hf1 _].
  assert (Hrows : inlined_delete_rows table_id d1 = inlined_delete_rows table_id db)
    by (unfold inlined_delete_rows; by rewrite (proj2 (proj2 Hf1))).
  apply bind_ok in E as ([] & d2 & E2 & E). rewrite <- Hrows in Hbase. apply (detect_ok _ _ _ _ _ _ Hne Hbase) in E2 as [-> Hno].
  apply bind_ok in E as ([] & d2 & E2 & E). apply check_sources_ok in E2 as [-> Hchecked].
  apply bind_ok in E as ([] & d2 & E2 & E). apply retire_sources_ok in E2 as Hf2.
  rewrite (proj1 Hf1), (proj1 (proj2 Hf1)), (proj2 (proj2 Hf1)) in Hf2.
  apply bind_ok in E as ([] & d3 & E3 & E). unfold ensure in E3. destruct (in_i64 (Z.of_nat (length outputs))); [|done]. injection E3 as <-.
  apply bind_ok in E as (output_ids & d3 & E3 & E). apply (files_reserve _ _ _ _ _ _ _ Hf2) in E3 as Hf3. destruct Hf3 as [Hf3 _].
  assert (Hlen : length output_ids = length outputs) by by apply reserved_length in E3.
  apply bind_ok in E as ([] & d4 & E4 & E). apply (insert_outputs_ok _ _ _ _ _ _ _ Hlen) in E4 as (news & Hf4 & Hnews & Hfresh).
  rewrite (proj1 Hf3), (proj1 (proj2 Hf3)), (proj2 (proj2 Hf3)) in Hf4. rewrite (proj1 Hf3) in Hfresh.
  apply bind_ok in E as ([] & d5 & E5 & E). apply (files_record _ _ _ _ _ _ _ _ _ Hf4) in E5 as [Hf5 _].
  pose proof (files_commit_ids _ _ _ _ _ _ _ _ Hf5 E) as [(Hd & Hx & Hi) _].
  split; [by apply commit_ids_committed in E|]. exists snapshot_id, news. split; [done..| |by rewrite <- Hrows].
  eapply Forall_impl; [exact Hchecked|]. intros s. by eapply checked_same.
Qed.

Lemma remove_ok table_id base sources outputs db ids db' :
  (forall row, row ∈ inlined_delete_rows table_id db -> i_file_id row ∈ cp_data_file_id <$> sources ->
     match i_begin_snapshot row with Some b => base < b | None => True end) ->
  run (commit_compaction table_id base sources outputs Remove) db = (Returns (Ok ids), db') ->
  exists snapshot_id news, exchanged table_id sources outputs db db' snapshot_id news.
Proof.
  intros Hbase Er. apply run_committed in Er as [E|(d & E & _)].
  - by apply commit_steps in E as [_ ?].
  - by apply commit_steps in E as [[? ?] _].
Qed.
End removed.

(** ** The rows of a table at a snapshot *)

Section rows.
Context {Row : Type} `{InlineValues} `{SortParser} `{!CompactionIO Row}.

(** [positions_inserted_later], of a stored row: whether a scan at [t] reads it. *)
Definition row_read (t : Z) (partial_max : option Z) (r : StoredRow Row) : bool :=
  match partial_max with
  | Some max => (max <=? t) || match sr_origin r with Some origin => origin <=? t | None => false end
  | None => true
  end.

(** What a scan at [t] returns of a file: the rows it reads whose positions no delete file
    and no inlined deletion of [t] drops, each with its row id and origin. *)
Definition file_rows (c : Contents) (table_id t : Z) (store : Store Row) (db : Db) (v : versioned DataFileRow) : list (Row * Z * Z) :=
  let dropped := dropped c table_id t db (inlined_at table_id db t) (v_row v) in
  (fun e : nat * StoredRow Row => tagged (v_begin v) e.2)
  <$> select (fun e : nat * StoredRow Row => row_read t (d_partial_max (v_row v)) e.2 && negb (bool_decide (Z.of_nat e.1 ∈ dropped)))
        (imap pair (stored store (d_path (v_row v)))).
Definition snapshot_rows (c : Contents) (table_id t : Z) (store : Store Row) (db : Db) : list (Row * Z * Z) :=
  v ← select (fun v => of_table d_table_id table_id v && visible t v) (t_data_files db); file_rows c table_id t store db v.

(** The rows of a file that began by [t], by origin. *)
Definition origin_by (t : Z) (x : Row * Z * Z) : bool := x.2 <=? t.
Definition v_tags (store : Store Row) (v : versioned DataFileRow) : list (Row * Z * Z) :=
  tagged (v_begin v) <$> stored store (d_path (v_row v)).

Lemma row_read_origin t begin partial_max (r : StoredRow Row) : begin <= t -> truthful_row begin partial_max r ->
  row_read t partial_max r = origin_by t (tagged begin r).
Proof.
  unfold truthful_row, row_read, origin_by, tagged. cbn. intros Hb Hr. destruct (sr_origin r) as [o|]; cbn.
  - destruct partial_max as [max|]; cbn in Hr |- *; lia.
  - subst partial_max. cbn. lia.
Qed.

Lemma select_imap (p : StoredRow Row -> bool) (q : Row * Z * Z -> bool) begin (rows : list (StoredRow Row)) :
  Forall (fun r => p r = q (tagged begin r)) rows ->
  (fun e : nat * StoredRow Row => tagged begin e.2) <$> select (fun e : nat * StoredRow Row => p e.2) (imap pair rows)
  = select q (tagged begin <$> rows).
Proof.
  intros Hall. enough (Hg : forall f : nat -> nat, (fun e : nat * StoredRow Row => tagged begin e.2)
      <$> select (fun e : nat * StoredRow Row => p e.2) (imap (fun i => pair (f i)) rows) = select q (tagged begin <$> rows)) by apply (Hg id).
  induction Hall as [|r rows Hr _ IH]; intros f; [done|]. cbn. rewrite <- Hr. specialize (IH (f ∘ S)). unfold select in *.
  destruct (p r); cbn; [f_equal|]; exact IH.
Qed.

(** A file without deletions, whose range is right. *)
Lemma file_rows_undeleted c table_id t (store : Store Row) db v :
  dropped c table_id t db (inlined_at table_id db t) (v_row v) = ∅ ->
  Forall (truthful_row (v_begin v) (d_partial_max (v_row v))) (stored store (d_path (v_row v))) ->
  v_begin v <= t -> file_rows c table_id t store db v = select (origin_by t) (v_tags store v).
Proof.
  intros Hd Ht Hb. unfold file_rows. rewrite Hd.
  rewrite (select_ext _ (fun e : nat * StoredRow Row => row_read t (d_partial_max (v_row v)) e.2)).
  - apply select_imap. eapply Forall_impl; [exact Ht|]. intros r Hr. by apply row_read_origin.
  - intros e. rewrite (bool_decide_false _ (not_elem_of_empty _)). apply andb_true_r.
Qed.

(** Before it begins, none of its rows. *)
Lemma not_begun t (store : Store Row) v : Forall (truthful_row (v_begin v) (d_partial_max (v_row v))) (stored store (d_path (v_row v))) ->
  t < v_begin v -> select (origin_by t) (v_tags store v) = [].
Proof.
  intros Ht Hb. apply select_none. apply Forall_fmap. eapply Forall_impl; [exact Ht|]. intros r Hr.
  unfold truthful_row in Hr. unfold origin_by, tagged. cbn. destruct (sr_origin r); cbn; lia.
Qed.

(** A live file without deletions, at any snapshot. *)
Lemma live_file_rows c table_id t (store : Store Row) db v : live v = true ->
  dropped c table_id t db (inlined_at table_id db t) (v_row v) = ∅ ->
  Forall (truthful_row (v_begin v) (d_partial_max (v_row v))) (stored store (d_path (v_row v))) ->
  (if visible t v then file_rows c table_id t store db v else []) = select (origin_by t) (v_tags store v).
Proof.
  intros Hl Hd Ht. unfold live in Hl. apply bool_decide_eq_true in Hl. unfold visible. rewrite Hl, andb_true_r.
  destruct (Z.leb_spec (v_begin v) t); [by apply file_rows_undeleted|]. by rewrite not_begun.
Qed.
End rows.

Section exchange.
Context {Row : Type} `{InlineValues} `{SortParser} `{!CompactionIO Row} (c : Contents) (table_id : Z).

(** Deletions are of files the catalog has, and a live file with a delete file has a live one:
    a delete file is ended by its successor or with its data file. *)
Record deletions_right (db : Db) : Prop := {
  dl_files : forall x, x ∈ t_delete_files db -> exists v, v ∈ t_data_files db /\ d_id (v_row v) = x_data_file_id (v_row x);
  dl_inlined : forall row, row ∈ inlined_delete_rows table_id db -> exists v, v ∈ t_data_files db /\ d_id (v_row v) = i_file_id row;
  dl_chained : forall x v, x ∈ t_delete_files db -> v ∈ t_data_files db -> live v = true -> x_data_file_id (v_row x) = d_id (v_row v) ->
    exists y, y ∈ t_delete_files db /\ live y = true /\ x_data_file_id (v_row y) = d_id (v_row v);
}.

Lemma inlined_at_elem t db delete : delete ∈ inlined_at table_id db t ->
  exists row, row ∈ inlined_delete_rows table_id db /\ i_file_id row = delete.1.
Proof.
  unfold inlined_at, get_inlined_deletes, inlined_delete_rows. destruct (inlined_delete_table_name table_id) as [name|]; cbn [result_bind];
    [|intros Hd; by apply elem_of_nil in Hd].
  destruct (t_inlined_deletes db !! name) as [rows|]; cbn [default]; [|intros Hd; by apply elem_of_nil in Hd].
  destruct (mapM_result _ _) as [deletes|] eqn:E; cbn [result_bind]; [|intros Hd; by apply elem_of_nil in Hd].
  rewrite !order_by_perm. apply mapM_result_ok in E. intros Hd. apply list_elem_of_lookup in Hd as [i Hi].
  destruct (Forall2_lookup_r _ _ _ _ _ E Hi) as (row & Hrow & Hr). apply list_elem_of_lookup_2, elem_of_select in Hrow as [_ Hrow].
  exists row. split; [done|]. destruct (i_row_id row); [|done]. cbn in Hr. by injection Hr as <-.
Qed.

(** A file no delete file and no inlined deletion names has no row dropped. *)
Lemma undropped t db (file : DataFileRow) :
  (forall x, x ∈ t_delete_files db -> x_data_file_id (v_row x) <> d_id file) ->
  (forall row, row ∈ inlined_delete_rows table_id db -> i_file_id row <> d_id file) ->
  dropped c table_id t db (inlined_at table_id db t) file = ∅.
Proof.
  intros Hx Hi. unfold dropped.
  assert (Hd : visible_deletes table_id t (d_id file) db = []).
  { unfold visible_deletes. rewrite select_none; [done|]. apply Forall_forall. intros x Hin.
    unfold of_table. rewrite (proj2 (Z.eqb_neq _ _) (Hx x Hin)). done. }
  rewrite Hd. cbn [mbind list_bind app]. rewrite select_none; [done|]. apply Forall_forall. intros delete Hin.
  destruct (inlined_at_elem _ _ _ Hin) as (row & Hrow & Hid). pose proof (Hi row Hrow). lia.
Qed.

Lemma inlined_at_same t db db' : t_inlined_deletes db' = t_inlined_deletes db -> inlined_at table_id db' t = inlined_at table_id db t.
Proof. intros E. unfold inlined_at, get_inlined_deletes. by rewrite E. Qed.

Context (db db' : Db) (sources : list CompactionSourceFile) (outputs : list CompactionOutputFile) (snapshot_id : Z)
  (vs : list (versioned DataFileRow)).
Context (Hex : exchanged table_id sources outputs db db' snapshot_id vs) (Hright : deletions_right db)
  (Hundated : Forall (fun source => cp_delete_file_id source = None) sources) (Hwf : wf_files db).

Lemma source_spec {A} (id : A -> Z) v : of_source id sources v = true <-> id (v_row v) ∈ cp_data_file_id <$> sources.
Proof.
  unfold of_source. rewrite existsb_exists. setoid_rewrite Z.eqb_eq. setoid_rewrite <- list_elem_of_In. naive_solver.
Qed.

Lemma deleted_elem {A} (p : A -> bool) l a : a ∈ delete_where p l <-> p a = false /\ a ∈ l.
Proof. unfold delete_where. rewrite !list_elem_of_In, List.filter_In, negb_true_iff. tauto. Qed.

(** A source is live, of the table, and never had a deletion. *)
Lemma source_live v : v ∈ t_data_files db -> of_source d_id sources v = true ->
  live v = true /\ d_table_id (v_row v) = table_id
  /\ (forall x, x ∈ t_delete_files db -> x_data_file_id (v_row x) <> d_id (v_row v))
  /\ (forall row, row ∈ inlined_delete_rows table_id db -> i_file_id row <> d_id (v_row v)).
Proof using Hex Hright Hundated Hwf.
  intros Hv Hs. apply source_spec in Hs as Hs'. apply list_elem_of_fmap in Hs' as (source & Hid & Hin).
  pose proof (ex_checked _ _ _ _ _ _ _ Hex) as Hc. rewrite Forall_forall in Hc, Hundated.
  destruct (Hc source Hin) as [(w & Hw & Hwid & Hwt & Hwl) Hdead].
  assert (w = v) as -> by (apply (by_id_unique (fun v => d_id (v_row v)) _ _ _ Hwf Hw Hv); congruence).
  split; [done|]. split; [done|]. split.
  - intros x Hx Hxid. destruct (dl_chained _ Hright x v Hx Hv Hwl Hxid) as (y & Hy & Hyl & Hyid).
    rewrite (Hdead (Hundated source Hin) y Hy) in Hyl by congruence. done.
  - intros row Hrow Hid'. apply (ex_undeleted _ _ _ _ _ _ _ Hex row Hrow). rewrite Hid'. by apply source_spec.
Qed.

(** The other files lose no deletion. *)
Lemma kept_dropped t v : v ∈ t_data_files db -> of_source d_id sources v = false ->
  dropped c table_id t db' (inlined_at table_id db' t) (v_row v) = dropped c table_id t db (inlined_at table_id db t) (v_row v).
Proof using Hex.
  intros Hv Hs. unfold dropped. rewrite (inlined_at_same _ _ _ (ex_inlined _ _ _ _ _ _ _ Hex)).
  assert (Hd : visible_deletes table_id t (d_id (v_row v)) db' = visible_deletes table_id t (d_id (v_row v)) db); [|by rewrite Hd].
  unfold visible_deletes. rewrite (ex_deletes _ _ _ _ _ _ _ Hex), select_kept; [done|].
  intros x _ [[Hid%Z.eqb_eq _]%andb_true_iff _]%andb_true_iff. apply not_true_is_false. intros Hx%source_spec.
  apply not_true_iff_false in Hs. apply Hs, source_spec. by rewrite <- Hid.
Qed.

(** A new file has none. *)
Lemma new_undropped t v : v ∈ vs -> dropped c table_id t db' (inlined_at table_id db' t) (v_row v) = ∅.
Proof using Hex Hright.
  intros Hv. pose proof (ex_fresh _ _ _ _ _ _ _ Hex) as Hfresh. rewrite Forall_forall in Hfresh. specialize (Hfresh v Hv).
  rewrite existsb_false_iff, Forall_forall in Hfresh.
  assert (Hkept : forall w, w ∈ t_data_files db -> of_source d_id sources w = false -> d_id (v_row w) <> d_id (v_row v)).
  { intros w Hw Hs Hid. specialize (Hfresh w (proj2 (deleted_elem _ _ _) (conj Hs Hw))). unfold of_table in Hfresh. lia. }
  apply undropped.
  - rewrite (ex_deletes _ _ _ _ _ _ _ Hex). intros x [Hs Hx]%deleted_elem Hid.
    destruct (dl_files _ Hright x Hx) as (w & Hw & Hwid). apply (Hkept w Hw); [|congruence].
    apply not_true_is_false. intros Hws%source_spec. apply not_true_iff_false in Hs. apply Hs, source_spec. by rewrite <- Hwid.
  - unfold inlined_delete_rows. rewrite (ex_inlined _ _ _ _ _ _ _ Hex). intros row Hrow Hid.
    destruct (dl_inlined _ Hright row Hrow) as (w & Hw & Hwid). apply (Hkept w Hw); [|congruence].
    apply not_true_is_false. intros Hws%source_spec. rewrite Hwid in Hws. by apply (ex_undeleted _ _ _ _ _ _ _ Hex row).
Qed.
End exchange.

Section kept.
Context {Row : Type} `{InlineValues} `{SortParser} `{!CompactionIO Row} (c : Contents) (table_id t : Z).

Definition rows_of (l : list (versioned DataFileRow)) (store : Store Row) (db : Db) : list (Row * Z * Z) :=
  v ← select (fun v => of_table d_table_id table_id v && visible t v) l; file_rows c table_id t store db v.

Lemma rows_of_app l k (store : Store Row) db : rows_of (l ++ k) store db = rows_of l store db ++ rows_of k store db.
Proof. unfold rows_of. by rewrite select_app, bind_app. Qed.
Lemma select_perm {A} (p : A -> bool) l k : l ≡ₚ k -> select p l ≡ₚ select p k.
Proof.
  unfold select. induction 1 as [|a l k _ IH|a b l|l k m _ IH1 _ IH2]; [done|..].
  - cbn. destruct (p a); [by f_equiv|done].
  - cbn. destruct (p a), (p b); try done. apply Permutation_swap.
  - by etransitivity.
Qed.
Lemma rows_of_perm l k (store : Store Row) db : l ≡ₚ k -> rows_of l store db ≡ₚ rows_of k store db.
Proof. intros Hp. unfold rows_of. apply bind_Permutation. by apply select_perm. Qed.

Lemma select_split {A} (p : A -> bool) l : l ≡ₚ delete_where p l ++ select p l.
Proof.
  induction l as [|a l IH]; [done|]. unfold delete_where, select in *. cbn. destruct (p a); cbn; [|by rewrite <- IH].
  rewrite IH at 1. apply Permutation_middle.
Qed.

Lemma rows_of_ext l (store store' : Store Row) db db' :
  (forall v, v ∈ l -> of_table d_table_id table_id v = true -> file_rows c table_id t store' db' v = file_rows c table_id t store db v) ->
  rows_of l store' db' = rows_of l store db.
Proof.
  intros Hf. unfold rows_of. induction l as [|v l IH]; [done|]. unfold select in *. cbn [List.filter].
  specialize (IH (fun w Hw => Hf w (list_elem_of_further _ _ _ Hw))).
  destruct (of_table d_table_id table_id v) eqn:Et; cbn [andb]; [|exact IH]. destruct (visible t v); [|exact IH].
  cbn. f_equal; [|exact IH]. apply Hf; [left|done].
Qed.

(** Live files without deletions: their rows by origin. *)
Lemma rows_of_live l (store : Store Row) db :
  (forall v, v ∈ l -> live v = true /\ d_table_id (v_row v) = table_id
     /\ dropped c table_id t db (inlined_at table_id db t) (v_row v) = ∅
     /\ Forall (truthful_row (v_begin v) (d_partial_max (v_row v))) (stored store (d_path (v_row v)))) ->
  rows_of l store db = select (origin_by t) (concat (v_tags store <$> l)).
Proof.
  induction l as [|v l IH]; intros Hall; [done|]. destruct (Hall v (list_elem_of_here _ _)) as (Hl & Ht & Hd & Hr).
  specialize (IH (fun w Hw => Hall w (list_elem_of_further _ _ _ Hw))). cbn [fmap list_fmap concat]. rewrite select_app, <- IH.
  rewrite <- (live_file_rows c table_id t store db v Hl Hd Hr). unfold rows_of, select. cbn [List.filter].
  unfold of_table at 1. rewrite Ht, Z.eqb_refl. cbn [andb]. by destruct (visible t v).
Qed.
End kept.

Section sources.
Context {Row : Type} `{InlineValues} `{SortParser} `{!CompactionIO Row}.

(** The catalog's rows of a plan's sources. *)
Lemma source_rows_tags table (store store' : Store Row) db plan files news :
  wf db -> planned table store store' db plan files news ->
  concat (file_tags store <$> files) ≡ₚ concat (v_tags store <$> select (of_source d_id (mp_sources plan)) (t_data_files db)).
Proof.
  intros (Hwf & Hwd & _) Hp.
  assert (Hv : Forall (fun file => exists v, v ∈ t_data_files db /\ d_id (v_row v) = tfl_data_file_id file
    /\ file_tags store file = v_tags store v) files).
  { apply Forall_forall. intros file Hf. destruct (pl_listed _ _ _ _ _ _ _ Hp file Hf) as (Hl & _).
    destruct (listing_elem _ _ _ _ Hwd Hl) as (v & delete & Hli). exists v. split; [apply (li_row _ _ _ _ _ _ Hli)|].
    split; [by rewrite (li_id _ _ _ _ _ _ Hli)|]. unfold file_tags, v_tags, begin_snapshot.
    by rewrite (li_begin _ _ _ _ _ _ Hli), (li_file _ _ _ _ _ _ Hli). }
  apply Forall_exists_Forall2_l in Hv as [ws Hws].
  assert (Hids : (fun v => d_id (v_row v)) <$> ws = tfl_data_file_id <$> files).
  { clear -Hws. induction Hws as [|file w files ws (_ & Hid & _) _ IH]; [done|]. cbn. by rewrite Hid, IH. }
  assert (Htags : file_tags store <$> files = v_tags store <$> ws).
  { clear -Hws. induction Hws as [|file w files ws (_ & _ & Ht) _ IH]; [done|]. cbn. by rewrite Ht, IH. }
  rewrite Htags.
  enough (Hperm : ws ≡ₚ select (of_source d_id (mp_sources plan)) (t_data_files db)) by (by rewrite Hperm).
  apply NoDup_Permutation.
  - apply (NoDup_fmap_1 (fun v => d_id (v_row v))). rewrite Hids. apply (pl_distinct _ _ _ _ _ _ _ Hp).
  - eapply sublist_NoDup; [|apply select_sublist]. by apply (NoDup_fmap_1 (fun v => d_id (v_row v))).
  - intros v. rewrite elem_of_select, source_spec, (pl_sources _ _ _ _ _ _ _ Hp), <- list_fmap_compose.
    replace ((fun file : DuckLakeTableFile => cp_data_file_id {| cp_data_file_id := tfl_data_file_id file; cp_delete_file_id := None |}) <$> files)
      with ((fun v => d_id (v_row v)) <$> ws) by done.
    split.
    + intros Hin. split; [by apply (list_elem_of_fmap_2 (fun v => d_id (v_row v)))|].
      apply list_elem_of_lookup in Hin as [i Hi]. destruct (Forall2_lookup_r _ _ _ _ _ Hws Hi) as (file & _ & Hin & _). done.
    + intros [Hid Hin]. apply list_elem_of_fmap in Hid as (w & Hid & Hw).
      apply list_elem_of_lookup in Hw as [i Hi]. destruct (Forall2_lookup_r _ _ _ _ _ Hws Hi) as (file & _ & Hwin & _).
      rewrite (by_id_unique (fun v => d_id (v_row v)) _ v w Hwf Hin Hwin Hid). by eapply list_elem_of_lookup_2.
Qed.
End sources.

Section kept_rows.
Context {Row : Type} `{InlineValues} `{SortParser} `{!CompactionIO Row} (c : Contents).

Lemma new_rows_tags table_id snapshot_id (outputs : list CompactionOutputFile) (vs : list (versioned DataFileRow))
    (store store' : Store Row) (news : list (Z * list (StoredRow Row))) :
  Forall2 (new_row table_id snapshot_id) outputs vs -> Forall2 (stored_output store store') outputs news ->
  concat (v_tags store' <$> vs) = new_tags news
  /\ Forall (fun v => live v = true /\ d_table_id (v_row v) = table_id
       /\ exists rows, store' !! d_path (v_row v) = Some rows
            /\ Forall (truthful_row (v_begin v) (d_partial_max (v_row v))) rows) vs.
Proof.
  intros Hvs. revert news. induction Hvs as [|output v outputs vs Hv _ IH]; intros news Hn; inversion Hn as [|? new ? news' Ho Hr]; subst;
    [by split|].
  destruct (IH news' Hr) as [Ht Hall].
  assert (Hb : v_begin v = new.1) by (by rewrite (nr_begin _ _ _ _ Hv), (sd_begin _ _ _ _ Ho)).
  assert (Hs : store' !! d_path (v_row v) = Some new.2) by (rewrite (nr_path _ _ _ _ Hv); apply (sd_stored _ _ _ _ Ho)).
  split.
  - unfold new_tags in *. cbn. rewrite Ht. f_equal. unfold v_tags, stored. by rewrite Hs, Hb.
  - constructor; [|done]. split; [unfold live; by rewrite (nr_live _ _ _ _ Hv)|]. split; [apply (nr_table _ _ _ _ Hv)|].
    exists new.2. split; [done|]. rewrite Hb, (nr_partial _ _ _ _ Hv). apply (sd_truthful _ _ _ _ Ho).
Qed.

(** The sources of a plan have no inlined deletion by the base. *)
Lemma none_by_base table (store store' : Store Row) db plan files news : planned table store store' db plan files news ->
  forall row, row ∈ inlined_delete_rows (mt_table_id table) db -> i_file_id row ∈ cp_data_file_id <$> mp_sources plan ->
    match i_begin_snapshot row with Some b => mt_snapshot_id table < b | None => True end.
Proof.
  intros Hp row Hrow Hin. destruct (i_begin_snapshot row) as [b|] eqn:Eb; [|done].
  destruct (Z.ltb_spec (mt_snapshot_id table) b) as [|Hle]; [done|exfalso].
  rewrite (pl_sources _ _ _ _ _ _ _ Hp), <- list_fmap_compose in Hin. apply list_elem_of_fmap in Hin as (file & Hid & Hf).
  destruct (pl_listed _ _ _ _ _ _ _ Hp file Hf) as (_ & _ & inlined & Hi & Hnone). cbn in Hid.
  unfold inlined_deletes_by_file, get_inlined_deletes in Hi. unfold inlined_delete_rows in Hrow.
  destruct (inlined_delete_table_name _) as [name|]; [|by apply elem_of_nil in Hrow]. cbn [result_bind] in Hi.
  destruct (t_inlined_deletes db !! name) as [rows|]; cbn [default] in Hrow; [|by apply elem_of_nil in Hrow].
  destruct (mapM_result _ _) as [deletes|] eqn:E; [|done]. cbn [result_bind] in Hi. apply mapM_result_ok in E.
  destruct (find_first _ _); [done|]. injection Hi as <-.
  assert (Hsel : row ∈ select (fun row => match i_begin_snapshot row with Some b => b <=? mt_snapshot_id table | None => false end) rows)
    by (apply elem_of_select; rewrite Eb; split; [lia|done]).
  apply list_elem_of_lookup in Hsel as [i Hsel]. destruct (Forall2_lookup_l _ _ _ _ _ E Hsel) as (delete & Hdelete & Hd).
  destruct (i_row_id row) as [p|]; [|done]. cbn in Hd. injection Hd as <-.
  pose proof (inlined_by_file_spec (order_by fst (order_by snd deletes)) (tfl_data_file_id file)) as Hs. rewrite Hnone in Hs. cbn [default] in Hs.
  enough (p ∈ (∅ : gset Z)) by set_solver. rewrite Hs, elem_of_list_to_set. apply list_elem_of_fmap. exists (i_file_id row, p). split; [done|].
  apply elem_of_select. split; [cbn; lia|]. rewrite !order_by_perm. by eapply list_elem_of_lookup_2.
Qed.

(** A merge with its commit. *)
Lemma exchange_keeps_rows table (store store' : Store Row) db db' plan files news snapshot_id vs t :
  wf db -> deletions_right (mt_table_id table) db -> ranges_right (mt_table_id table) store db ->
  planned table store store' db plan files news ->
  exchanged (mt_table_id table) (mp_sources plan) (mp_outputs plan) db db' snapshot_id vs ->
  snapshot_rows c (mt_table_id table) t store' db' ≡ₚ snapshot_rows c (mt_table_id table) t store db.
Proof.
  intros Hw Hdel Hr Hp Hex. destruct Hw as (Hwf & Hwd & Hwi).
  assert (Hnone : Forall (fun source => cp_delete_file_id source = None) (mp_sources plan)).
  { rewrite (pl_sources _ _ _ _ _ _ _ Hp). by apply Forall_fmap, Forall_true. }
  change (rows_of c (mt_table_id table) t (t_data_files db') store' db' ≡ₚ rows_of c (mt_table_id table) t (t_data_files db) store db).
  rewrite (rows_of_perm _ _ _ _ _ store db (select_split (of_source d_id (mp_sources plan)) (t_data_files db))).
  rewrite (ex_data _ _ _ _ _ _ _ Hex), !rows_of_app. f_equiv.
  - apply reflexive_eq, rows_of_ext. intros v [Hs Hv]%deleted_elem Ht. unfold of_table in Ht. apply Z.eqb_eq in Ht.
    destruct (Hr v Hv Ht) as (rows & Hrows & _). unfold file_rows, stored.
    rewrite (kept_dropped c _ _ _ _ _ _ _ Hex t v Hv Hs), (lookup_weaken _ _ _ _ Hrows (pl_store _ _ _ _ _ _ _ Hp)), Hrows. done.
  - destruct (new_rows_tags _ _ _ _ _ _ _ (ex_news _ _ _ _ _ _ _ Hex) (pl_outputs _ _ _ _ _ _ _ Hp)) as [Htags Hnew].
    rewrite (rows_of_live c _ t vs), (rows_of_live c _ t (select _ _)).
    + apply select_perm. rewrite Htags, (pl_rows _ _ _ _ _ _ _ Hp).
      by apply (source_rows_tags _ _ _ _ _ _ _ (conj Hwf (conj Hwd Hwi)) Hp).
    + intros v [Hs Hv]%elem_of_select. destruct (source_live _ _ _ _ _ _ _ Hex Hdel Hnone Hwf v Hv Hs) as (Hl & Ht & Hx & Hi).
      split_and!; [done..|by apply undropped|]. destruct (Hr v Hv Ht) as (rows & Hrows & Htruth). unfold stored. by rewrite Hrows.
    + intros v Hv. rewrite Forall_forall in Hnew. destruct (Hnew v Hv) as (Hl & Ht & rows & Hrows & Htruth).
      split_and!; [done..|by apply (new_undropped c _ _ _ _ _ _ _ Hex Hdel)|]. unfold stored. by rewrite Hrows.
Qed.

Lemma exchange_keeps_ranges table (store store' : Store Row) db db' plan files news snapshot_id vs :
  ranges_right (mt_table_id table) store db -> planned table store store' db plan files news ->
  exchanged (mt_table_id table) (mp_sources plan) (mp_outputs plan) db db' snapshot_id vs ->
  ranges_right (mt_table_id table) store' db'.
Proof.
  intros Hr Hp Hex v Hv Ht. rewrite (ex_data _ _ _ _ _ _ _ Hex), elem_of_app in Hv. destruct Hv as [[_ Hv]%deleted_elem|Hv].
  - destruct (Hr v Hv Ht) as (rows & Hrows & Htruth). exists rows. split; [|done]. eapply lookup_weaken; [done|apply (pl_store _ _ _ _ _ _ _ Hp)].
  - destruct (new_rows_tags _ _ _ _ _ _ _ (ex_news _ _ _ _ _ _ _ Hex) (pl_outputs _ _ _ _ _ _ _ Hp)) as [_ Hnew].
    rewrite Forall_forall in Hnew. by destruct (Hnew v Hv) as (_ & _ & ?).
Qed.
End kept_rows.

(** C7. A merge keeps every snapshot's rows. Over a well-formed catalog whose deletions and
    snapshot ranges are right, and a store that does what it should ([StoreLaws]), a merge of
    adjacent files that returns leaves, at every snapshot, the rows the table had there, with
    the same row ids and origin snapshots, and snapshot ranges that are right again; and each
    file it writes replaces two or more. *)
Theorem merge_keeps_every_snapshot {Row : Type} `{InlineValues} `{SortParser} `{!CompactionIO Row} (c : Contents)
    (opts : MergeOptions) (table : MergeTable) (store store' : Store Row) (db db' : Db) (result : CompactionResult) :
  StoreLaws Row -> wf db -> deletions_right (mt_table_id table) db -> ranges_right (mt_table_id table) store db ->
  merge_adjacent_files_planned opts table store db = (Returns (Ok result), store', db') ->
  (forall t, snapshot_rows c (mt_table_id table) t store' db' ≡ₚ snapshot_rows c (mt_table_id table) t store db)
  /\ ranges_right (mt_table_id table) store' db'
  /\ (2 * cr_files_created result <= cr_files_processed result)%nat.
Proof.
  intros Hlaws Hw Hdel Hr E. unfold merge_adjacent_files_planned in E.
  destruct (plan_merge opts table store db) as [[[plan|] store1]|] eqn:Ep; [| |done].
  - destruct (plan_ok Hlaws _ _ _ _ _ _ Hw Hr Ep) as (files & news & Hp).
    destruct (run _ db) as [[[ids|e]|] db1] eqn:Er; cbn in E; [|done..]. injection E as <- <- <-.
    destruct (remove_ok _ _ _ _ _ _ _ (none_by_base _ _ _ _ _ _ _ Hp) Er) as (snapshot_id & vs & Hex).
    split; [|split]; [|by eapply exchange_keeps_ranges|].
    + intros t. by eapply exchange_keeps_rows.
    + cbn. rewrite (pl_sources _ _ _ _ _ _ _ Hp), length_fmap. apply (pl_fewer _ _ _ _ _ _ _ Hp).
  - injection E as <- <- <-. apply no_plan in Ep as ->. split; [done|]. split; [done|]. cbn. lia.
Qed.

(** ** A sample merge *)

#[local] Existing Instance counted_batches.
#[local] Existing Instance sample_values.
#[local] Existing Instance sample_parser.

(** A store of number rows that writes one file. *)
#[local] Instance sample_io : CompactionIO Z := {|
  Ordering := unit;
  merge_source_facts := fun file store => Ok {|
    drops_current_columns := false;
    has_embedded_snapshot := existsb (fun r => bool_decide (is_Some (sr_origin r))) (default [] (store !! fd_path file)) |};
  scan_batches := fun file store => Ok [default [] (store !! fd_path (tfl_file file))];
  compaction_ordering := fun _ => Ok None;
  coalesce := fun leaves => concat leaves;
  sort_output := fun _ rows => Ok rows;
  write_compacted_file_stream := fun rows _ _ store =>
    match store !! lit "merged.parquet" with
    | Some _ => Err (Internal "exists")
    | None => Ok (sample_file "merged.parquet" (Z.of_nat (length rows)), <[lit "merged.parquet" := rows]> store)
    end;
|}.

Lemma sample_io_laws : StoreLaws Z.
Proof.
  split.
  - intros file store rows facts Hrows [= <-] Hf. cbn in Hf. rewrite Hrows in Hf. cbn in Hf. apply existsb_false_iff in Hf.
    eapply Forall_impl; [exact Hf|]. intros r Hr. apply bool_decide_eq_false in Hr. by apply eq_None_not_Some.
  - intros file store rows batches _ Hrows [= <-]. rewrite Hrows. cbn. by rewrite app_nil_r.
  - done.
  - by intros ordering rows rows' [= <-].
  - intros rows partial subpath store store' file E. cbn in E. destruct (store !! _) eqn:En; [done|]. by injection E as <- <-.
Qed.

#[local] Strategy expand [sample_setup append_file sample_catalog truncated_catalog later_catalog].

(** The later catalog with one more file. *)
Definition appended_catalog : Db := append_file false "d.parquet" 5 later_catalog.
Definition numbered (first : Z) : list (StoredRow Z) :=
  (fun i => {| sr_row := i * i; sr_rowid := i; sr_origin := None |}) <$> seqZ first 3.
Definition sample_store : Store Z :=
  <[lit "a.parquet" := numbered 0]> (<[lit "b.parquet" := numbered 3]> (<[lit "c.parquet" := numbered 6]> (<[lit "d.parquet" := numbered 9]> ∅))).
Definition sample_table : MergeTable := {|
  mt_table_id := 1; mt_schema_name := Some (lit "main"); mt_snapshot_id := 6; mt_writable := true; mt_options := Ok tt;
  mt_auto_compact := None; mt_hive_file_pattern := None; mt_columns := [(1, lit "id")] |}.
Definition sample_merge := merge_adjacent_files_planned MergeOptions_default sample_table sample_store appended_catalog.
#[local] Strategy expand [appended_catalog sample_merge].

Lemma appended_wf : wf appended_catalog.
Proof.
  assert (Ht : 5 <= get_current_snapshot later_catalog) by (vm_compute; discriminate).
  assert (Hs : rtc (step None 5 false) later_catalog appended_catalog) by (apply rtc_once, append_step; intros _ Hc; by vm_compute in Hc).
  destruct (history_holds None 5 false (view false 5 later_catalog) _ _ _ Ht Hs) as (h' & _ & Hw & _); [|exact Hw].
  split; [exact later_wf|done].
Qed.

Lemma appended_deletions : deletions_right 1 appended_catalog.
Proof.
  assert (Hx : Forall (fun x => x_data_file_id (v_row x) = 0) (t_delete_files appended_catalog)) by (apply (bool_decide_unpack _); vm_compute; exact I).
  assert (Hi : inlined_delete_rows 1 appended_catalog = []) by (vm_compute; reflexivity).
  assert (Hd : exists v, v ∈ t_data_files appended_catalog /\ d_id (v_row v) = 0).
  { destruct (find_first (fun v => d_id (v_row v) =? 0) (t_data_files appended_catalog)) as [v|] eqn:Ef; [|vm_compute in Ef; discriminate].
    apply find_first_some in Ef as [Hin Hv]. exists v. split; [exact Hin|]. by apply Z.eqb_eq. }
  assert (Hl : forallb (fun v => negb (live v && (d_id (v_row v) =? 0))) (t_data_files appended_catalog) = true) by (vm_compute; reflexivity).
  rewrite Forall_forall in Hx. split.
  - intros x Hin. rewrite (Hx x Hin). exact Hd.
  - intros row Hr. rewrite Hi in Hr. destruct (not_elem_of_nil _ Hr).
  - intros x v Hin Hv Hlive Hid. rewrite (Hx x Hin) in Hid. rewrite forallb_forall in Hl.
    pose proof (Hl v (proj1 (list_elem_of_In _ _) Hv)) as Hn. rewrite Hlive, <- Hid in Hn. discriminate Hn.
Qed.

Lemma appended_ranges : ranges_right 1 sample_store appended_catalog.
Proof.
  assert (Hb : forallb (fun v => bool_decide (d_partial_max (v_row v) = None)
      && match sample_store !! d_path (v_row v) with
         | Some rows => forallb (fun r => bool_decide (sr_origin r = None)) rows
         | None => false
         end) (t_data_files appended_catalog) = true) by (vm_compute; reflexivity).
  intros v Hv _. rewrite forallb_forall in Hb. pose proof (Hb v (proj1 (list_elem_of_In _ _) Hv)) as Hr.
  apply andb_true_iff in Hr as [Hp%bool_decide_eq_true Hr]. destruct (sample_store !! d_path (v_row v)) as [rows|]; [|discriminate Hr].
  exists rows. split; [reflexivity|]. apply Forall_forall. intros r Hin. rewrite forallb_forall in Hr.
  pose proof (Hr r (proj1 (list_elem_of_In _ _) Hin)) as Ho. apply bool_decide_eq_true in Ho. unfold truthful_row. rewrite Ho. exact Hp.
Qed.

(** The two live files become one; snapshots 3 and 5 read what they read. *)
Lemma merge_keeps_every_snapshot_witness :
  let store' := sample_merge.1.2 in
  let db' := sample_merge.2 in
  length (t_data_files db') = 3%nat /\ length (t_data_files appended_catalog) = 4%nat
  /\ length (snapshot_rows later_contents 1 3 sample_store appended_catalog) = 5%nat
  /\ length (snapshot_rows later_contents 1 5 sample_store appended_catalog) = 3%nat
  /\ snapshot_rows later_contents 1 5 store' db' ≡ₚ snapshot_rows later_contents 1 5 sample_store appended_catalog
  /\ ranges_right 1 store' db'.
Proof.
  assert (E : sample_merge = (Returns (Ok {| cr_files_processed := 2; cr_files_created := 1; cr_rows_written := 6;
                                           cr_inlined_flush_snapshot := None |}), sample_merge.1.2, sample_merge.2)) by (vm_compute; reflexivity).
  split; [vm_compute; reflexivity|]. split; [vm_compute; reflexivity|]. split; [vm_compute; reflexivity|]. split; [vm_compute; reflexivity|].
  destruct (merge_keeps_every_snapshot later_contents MergeOptions_default sample_table sample_store _ appended_catalog _ _
    sample_io_laws appended_wf appended_deletions appended_ranges E) as (Hrows & Hranges & _).
  split; [exact (Hrows 5)|exact Hranges].
Defined.
