(* ===== verification/InlinedFilter.v ===== *)
(** * Filters pushed into scans of inlined rows

    [inlined_filter.rs]: a DataFusion filter is translated to an [InlinedFilter], renamed to the
    physical columns of an inlined table ([InlinedColumnMapping::physical_filter] of
    [metadata_provider.rs]) and rendered as SQL of one of four databases. The scan applies every
    filter again, so the SQL may keep too many rows but may drop none a filter is true of.
    Modelled is all of it, the SQL texts included. A rendered condition is a tree
    ([SqlCondition]) with its text ([condition_text]) and the meaning the databases give it
    ([condition_true]); what DataFusion makes of a filter is [expr_true], whose [LIKE], float
    order and other expressions are parameters. *)

From S2P Require Import Prelude RustStd StatsOrder Arrow PartitionSplit FloatText FilePruning.
From Stdlib Require Import SpecFloat.

(** ** Filters *)

Inductive InlinedComparison := CmpEq | CmpNotEq | CmpLt | CmpLtEq | CmpGt | CmpGtEq.

Definition reversed (op : InlinedComparison) : InlinedComparison :=
  match op with CmpLt => CmpGt | CmpLtEq => CmpGtEq | CmpGt => CmpLt | CmpGtEq => CmpLtEq | _ => op end.
Definition comparison_sql (op : InlinedComparison) : str :=
  match op with CmpEq => lit "=" | CmpNotEq => lit "<>" | CmpLt => lit "<" | CmpLtEq => lit "<=" | CmpGt => lit ">" | CmpGtEq => lit ">=" end.
Definition is_range (op : InlinedComparison) : bool := match op with CmpEq | CmpNotEq => false | _ => true end.

Inductive InlinedValue :=
| BoolConst (value : bool)
| I64Const (value : Z)
| U64Const (value : Z)
| F64Const (value : spec_float)
| Utf8Const (value : str)
| BinaryConst (value : str).

Inductive InlinedFilter :=
| Comparison (column : str) (op : InlinedComparison) (value : InlinedValue)
| ColumnIsNull (column : str)
| ColumnIsNotNull (column : str)
| Prefix (column prefix : str)
| AllOf (children : list InlinedFilter)
| AnyOf (children : list InlinedFilter).

(** [rename_columns]. *)
Fixpoint rename_columns (rename : str -> option str) (filter : InlinedFilter) : option InlinedFilter :=
  match filter with
  | Comparison column op value => column ← rename column; Some (Comparison column op value)
  | ColumnIsNull column => ColumnIsNull <$> rename column
  | ColumnIsNotNull column => ColumnIsNotNull <$> rename column
  | Prefix column prefix => column ← rename column; Some (Prefix column prefix)
  | AllOf children =>
      match omap id (map (rename_columns rename) children) with
      | [] => None
      | [child] => Some child
      | kept => Some (AllOf kept)
      end
  | AnyOf children => AnyOf <$> mapM id (map (rename_columns rename) children)
  end.

(** ** Translation

    The expressions the code tells apart. A scalar of a binary type has its bytes. *)
Inductive Scalar := Simple (value : ScalarValue) | BinaryScalar (data_type : DataType) (value : option str).

Inductive Expr :=
| BinaryExpr (left : Expr) (op : Operator) (right : Expr)
| ColumnExpr (name : str)
| LiteralExpr (value : Scalar)
| IsNull (expr : Expr)
| IsNotNull (expr : Expr)
| Like (negated : bool) (expr pattern : Expr) (escape_char : option str) (case_insensitive : bool)
| ScalarFunction (name : str) (args : list Expr)
| OtherExpression (tag : Z).

Definition comparison_of (op : Operator) : option InlinedComparison :=
  match op with
  | OpEq => Some CmpEq | OpNotEq => Some CmpNotEq | OpLt => Some CmpLt
  | OpLtEq => Some CmpLtEq | OpGt => Some CmpGt | OpGtEq => Some CmpGtEq
  | _ => None
  end.

Definition column (expr : Expr) : option str := match expr with ColumnExpr name => Some name | _ => None end.

(** [scalar]. *)
Definition is_signed (t : DataType) : bool := match t with Int8 | Int16 | Int32 | Int64 => true | _ => false end.
Definition is_unsigned (t : DataType) : bool := match t with UInt8 | UInt16 | UInt32 | UInt64 => true | _ => false end.
Definition is_utf8 (t : DataType) : bool := match t with Utf8 | LargeUtf8 | Utf8View => true | _ => false end.
Definition is_binary (t : DataType) : bool := match t with Binary | LargeBinary | BinaryView => true | _ => false end.
Definition scalar (value : Scalar) : option InlinedValue :=
  match value with
  | Simple (BooleanValue v) => BoolConst <$> v
  | Simple (IntValue t v) => if is_signed t then I64Const <$> v else if is_unsigned t then U64Const <$> v else None
  | Simple (Float32Value (Some v)) => if is_finite v then Some (F64Const (f64_from v)) else None
  | Simple (Float64Value (Some v)) => if is_finite v then Some (F64Const v) else None
  | Simple (StringValue t v) => if is_utf8 t then Utf8Const <$> v else None
  | BinaryScalar _ v => BinaryConst <$> v
  | _ => None
  end.
Definition literal (expr : Expr) : option InlinedValue := match expr with LiteralExpr value => scalar value | _ => None end.
Definition scalar_string (value : Scalar) : option str :=
  match scalar value with Some (Utf8Const s) => Some s | _ => None end.

(** [str::chars], each as its UTF-8 bytes. *)
Definition continuation (c : ascii) : bool := (128 <=? byte_val c) && (byte_val c <=? 191).
Fixpoint chars (s : str) : list str :=
  match s with
  | [] => []
  | b :: s =>
      match chars s with
      | ((c :: _) as first) :: rest => if continuation c then (b :: first) :: rest else [b] :: first :: rest
      | rest => [b] :: rest
      end
  end.

(** [parse_prefix_pattern]: the loop over the characters. *)
Fixpoint prefix_from (escape : option str) (chars : list str) : option str :=
  match chars with
  | [] => None
  | ch :: rest =>
      if bool_decide (Some ch = escape) then
        match rest with
        | next :: rest => prefix ← prefix_from escape rest; Some (next ++ prefix)
        | [] => None
        end
      else if bool_decide (ch = lit "_") then None
      else if bool_decide (ch = lit "%") then match rest with [] => Some [] | _ => None end
      else prefix ← prefix_from escape rest; Some (ch ++ prefix)
  end.
Definition parse_prefix_pattern (pattern : str) (escape : option str) : option str := prefix_from escape (chars pattern).

(** [translate_expr]. *)
Fixpoint translate_expr (expr : Expr) : option InlinedFilter :=
  match expr with
  | BinaryExpr lhs OpAnd rhs =>
      match omap id [translate_expr lhs; translate_expr rhs] with
      | [] => None
      | [child] => Some child
      | children => Some (AllOf children)
      end
  | BinaryExpr lhs OpOr rhs =>
      lhs ← translate_expr lhs; rhs ← translate_expr rhs; Some (AnyOf [lhs; rhs])
  | BinaryExpr lhs op rhs =>
      op ← comparison_of op;
      match column lhs, literal rhs with
      | Some column, Some value => Some (Comparison column op value)
      | _, _ => column ← column rhs; value ← literal lhs; Some (Comparison column (reversed op) value)
      end
  | IsNull expr => ColumnIsNull <$> column expr
  | IsNotNull expr => ColumnIsNotNull <$> column expr
  | Like false expr (LiteralExpr value) escape_char false =>
      pattern ← scalar_string value; column ← column expr;
      prefix ← parse_prefix_pattern pattern escape_char; Some (Prefix column prefix)
  | ScalarFunction name [expr; LiteralExpr value] =>
      if str_eqb name (lit "starts_with") then
        prefix ← scalar_string value; column ← column expr; Some (Prefix column prefix)
      else None
  | _ => None
  end.

(** [translate_inlined_filters]. *)
Definition translate_inlined_filters (filters : list Expr) : option InlinedFilter :=
  match omap translate_expr filters with
  | [] => None
  | [filter] => Some filter
  | filters => Some (AllOf filters)
  end.

(** ** Rendering *)

Inductive InlinedSqlDialect := Sqlite | Postgres | DuckDb | MySql.

Inductive InlinedSqlBind :=
| BindBool (value : bool)
| BindI64 (value : Z)
| BindU64 (value : Z)
| BindF64 (value : spec_float)
| BindText (value : str)
| BindBytes (value : str).

#[global] Instance InlinedSqlDialect_eq_dec : EqDecision InlinedSqlDialect.
Proof. solve_decision. Defined.

(** The SQL the code renders, as trees. A parameter is numbered from 0 by its place among the
    statement's. *)
Inductive SqlOperand :=
| Ident (column : str)
| BinaryIdent (column : str)
| PaddedIdent (column : str)
| PlainParameter (index : nat)
| PaddedParameter (index : nat)
| NumericParameter (index : nat).
Inductive SqlCondition :=
| CondAnd (parts : list SqlCondition)
| CondOr (parts : list SqlCondition)
| CondIsNull (column : str) (negated : bool)
| CondCompare (ident : SqlOperand) (op : InlinedComparison) (value : SqlOperand)
| CondStartsWith (column : str) (index : nat)
| CondPrefix (column : str) (first second : nat).

(** [quote_ident] and [placeholder]. *)
Definition backtick : ascii := chr 96.
Definition dquote : ascii := chr 34.
Definition quoted_ident (name : str) (dialect : InlinedSqlDialect) : str :=
  match dialect with
  | MySql => [backtick] ++ replace_char backtick [backtick; backtick] name ++ [backtick]
  | _ => [dquote] ++ replace_char dquote [dquote; dquote] name ++ [dquote]
  end.
Definition placeholder (dialect : InlinedSqlDialect) (index : nat) : str :=
  match dialect with Postgres => "$" ++ show_nat (S index) | _ => lit "?" end.

(** The texts of the operands ([native_u64_operands], [text_u64_range_operands],
    [comparison_ident]) and of the conditions. *)
Definition operand_text (dialect : InlinedSqlDialect) (operand : SqlOperand) : str :=
  match operand, dialect with
  | Ident column, _ => quoted_ident column dialect
  | BinaryIdent column, Sqlite => quoted_ident column dialect ++ " COLLATE BINARY"
  | BinaryIdent column, MySql => "BINARY " ++ quoted_ident column dialect
  | BinaryIdent column, _ => quoted_ident column dialect
  | PaddedIdent column, Sqlite =>
      "substr('00000000000000000000' || " ++ quoted_ident column dialect ++ ", -20, 20) COLLATE BINARY"
  | PaddedIdent column, Postgres => "convert_to(lpad(" ++ quoted_ident column dialect ++ ", 20, '0'), 'UTF8')"
  | PaddedIdent column, _ => "BINARY LPAD(" ++ quoted_ident column dialect ++ ", 20, '0')"
  | PlainParameter index, _ => placeholder dialect index
  | PaddedParameter index, Sqlite => "substr('00000000000000000000' || " ++ placeholder dialect index ++ ", -20, 20)"
  | PaddedParameter index, Postgres => "convert_to(lpad(" ++ placeholder dialect index ++ ", 20, '0'), 'UTF8')"
  | PaddedParameter index, _ => "BINARY LPAD(" ++ placeholder dialect index ++ ", 20, '0')"
  | NumericParameter index, Postgres => "CAST(" ++ placeholder dialect index ++ " AS NUMERIC(20,0))"
  | NumericParameter index, _ => "CAST(CAST(" ++ placeholder dialect index ++ " AS DECIMAL(20,0)) AS UNSIGNED)"
  end.
Fixpoint condition_text (dialect : InlinedSqlDialect) (condition : SqlCondition) : str :=
  match condition with
  | CondAnd parts => "(" ++ join " AND " (map (condition_text dialect) parts) ++ ")"
  | CondOr parts => "(" ++ join " OR " (map (condition_text dialect) parts) ++ ")"
  | CondIsNull column negated =>
      quoted_ident column dialect ++ " IS " ++ (if negated then lit "NOT " else []) ++ "NULL"
  | CondCompare ident op value =>
      operand_text dialect ident ++ " " ++ comparison_sql op ++ " " ++ operand_text dialect value
  | CondStartsWith column index =>
      "starts_with(" ++ quoted_ident column dialect ++ ", " ++ placeholder dialect index ++ ")"
  | CondPrefix column first second =>
      let ident := quoted_ident column dialect in
      let first := placeholder dialect first in
      let second := placeholder dialect second in
      match dialect with
      | Sqlite => "substr(" ++ ident ++ ", 1, length(" ++ first ++ ")) = " ++ second ++ " COLLATE BINARY"
      | Postgres => "substring(" ++ ident ++ " from 1 for octet_length(" ++ first ++ ")) = " ++ second
      | _ => "LEFT(BINARY " ++ ident ++ ", OCTET_LENGTH(" ++ first ++ ")) = BINARY " ++ second
      end
  end.

(** [str::to_ascii_uppercase]. *)
Definition char_to_upper (c : ascii) : ascii := if is_ascii_lowercase c then chr (byte_val c - 32) else c.
Definition to_ascii_uppercase (s : str) : str := char_to_upper <$> s.
Definition normal_type (physical_type : str) : str := to_ascii_uppercase (trim physical_type).

Definition is_decimal (t : DataType) : bool := match t with Decimal128 _ _ | Decimal256 _ _ => true | _ => false end.
Definition is_small_integer (t : DataType) : bool :=
  match t with Boolean | Int8 | Int16 | Int32 | Int64 | UInt8 | UInt16 | UInt32 => true | _ => false end.

(** [physical_type_matches]. *)
Definition one_of (physical : str) (names : list str) : bool := existsb (str_eqb physical) names.
Definition sqlite_type_matches (data_type : DataType) (physical : str) : bool :=
  let has name := RustStd.contains (lit name) physical in
  if is_small_integer data_type then has "INT" || str_eqb physical (lit "BOOLEAN")
  else match data_type with
       | UInt64 => has "CHAR" || has "TEXT"
       | Float32 | Float64 => has "DOUBLE" || has "REAL"
       | _ => if is_utf8 data_type then has "CHAR" || has "TEXT" else if is_binary data_type then has "BLOB" else false
       end.
Definition postgres_type_matches (data_type : DataType) (physical : str) : bool :=
  let among names := one_of physical (lit <$> names) in
  let starts name := starts_with (lit name) physical in
  match data_type with
  | Boolean => among ["BOOLEAN"; "BOOL"]
  | Int8 | Int16 => among ["SMALLINT"; "INT2"]
  | Int32 => among ["INTEGER"; "INT4"]
  | Int64 => among ["BIGINT"; "INT8"]
  | UInt8 | UInt16 => among ["INTEGER"; "INT4"]
  | UInt32 => among ["BIGINT"; "INT8"]
  | UInt64 => RustStd.contains "CHAR" physical || among ["TEXT"] || starts "NUMERIC" || starts "DECIMAL"
  | Float32 => among ["REAL"; "FLOAT4"]
  | Float64 => among ["DOUBLE PRECISION"; "FLOAT8"]
  | _ => if is_decimal data_type then starts "NUMERIC" || starts "DECIMAL"
         else if is_utf8 data_type || is_binary data_type then among ["BYTEA"] else false
  end.
Definition duckdb_type_matches (data_type : DataType) (physical : str) : bool :=
  let among names := one_of physical (lit <$> names) in
  match data_type with
  | Boolean => among ["BOOLEAN"]
  | Int8 => among ["TINYINT"; "INT8"]
  | Int16 => among ["SMALLINT"; "INT16"]
  | Int32 => among ["INTEGER"; "INT32"]
  | Int64 => among ["BIGINT"; "INT64"]
  | UInt8 => among ["UTINYINT"; "UINT8"]
  | UInt16 => among ["USMALLINT"; "UINT16"]
  | UInt32 => among ["UINTEGER"; "UINT32"]
  | UInt64 => among ["UBIGINT"; "UINT64"]
  | Float32 => among ["FLOAT"; "REAL"]
  | Float64 => among ["DOUBLE"]
  | _ => if is_utf8 data_type then RustStd.contains "VARCHAR" physical else if is_binary data_type then among ["BLOB"] else false
  end.
Definition mysql_type_matches (data_type : DataType) (physical : str) : bool :=
  let has name := RustStd.contains (lit name) physical in
  let among names := one_of physical (lit <$> names) in
  let starts name := starts_with (lit name) physical in
  let text := has "TEXT" || has "CHAR" in
  if is_small_integer data_type then has "BIGINT" || has "INT"
  else match data_type with
       | UInt64 => text || (has "BIGINT" && has "UNSIGNED")
       | Float32 => text || among ["FLOAT"]
       | Float64 => text || among ["DOUBLE"; "DOUBLE PRECISION"]
       | _ => if is_decimal data_type then text || starts "DECIMAL" || starts "NUMERIC"
              else if is_utf8 data_type then text
              else if is_binary data_type then has "BLOB" || has "BINARY" else false
       end.
Definition physical_type_matches (dialect : InlinedSqlDialect) (data_type : DataType) (physical_type : str) : bool :=
  let physical := normal_type physical_type in
  match dialect with
  | Sqlite => sqlite_type_matches data_type physical
  | Postgres => postgres_type_matches data_type physical
  | DuckDb => duckdb_type_matches data_type physical
  | MySql => mysql_type_matches data_type physical
  end.

(** [u64_uses_legacy_text]. *)
Definition u64_uses_legacy_text (dialect : InlinedSqlDialect) (physical_type : str) : bool :=
  let physical := normal_type physical_type in
  match dialect with
  | Sqlite => true
  | Postgres => negb (starts_with "NUMERIC" physical) && negb (starts_with "DECIMAL" physical)
  | MySql => negb (RustStd.contains "BIGINT" physical && RustStd.contains "UNSIGNED" physical)
  | DuckDb => false
  end.

(** [f64::to_string]. *)
Class FloatDisplay := display : spec_float -> str.

Section render.
Context `{FloatDisplay}.
Variable dialect : InlinedSqlDialect.

(** [sql_bind] and [u64_sql_bind]. *)
Definition u64_sql_bind (value : Z) : InlinedSqlBind :=
  match dialect with DuckDb => BindU64 value | _ => BindText (show_Z value) end.
Definition sql_bind (value : InlinedValue) (data_type : DataType) (range : bool) : option InlinedSqlBind :=
  match value with
  | BoolConst value => if bool_decide (data_type = Boolean) && negb range then Some (BindBool value) else None
  | I64Const value => if is_signed data_type then Some (BindI64 value) else None
  | U64Const value =>
      if bool_decide (data_type = UInt64) then Some (u64_sql_bind value)
      else if is_unsigned data_type then BindI64 <$> checked_i64 value else None
  | F64Const value =>
      if (bool_decide (data_type = Float32) || bool_decide (data_type = Float64)) && is_finite value
         && negb (bool_decide (dialect = MySql) && range)
      then Some (if bool_decide (dialect = MySql) then BindText (display value) else BindF64 value)
      else None
  | Utf8Const value =>
      if is_utf8 data_type then Some (if bool_decide (dialect = Postgres) then BindBytes value else BindText value) else None
  | BinaryConst value => if is_binary data_type then Some (BindBytes value) else None
  end.

(** The operands of a comparison. *)
Definition text_u64_range_operands (column : str) (index : nat) : option (SqlOperand * SqlOperand) :=
  match dialect with DuckDb => None | _ => Some (PaddedIdent column, PaddedParameter index) end.
Definition native_u64_operands (column : str) (index : nat) (physical_type : str) : SqlOperand * SqlOperand :=
  let physical := normal_type physical_type in
  let numeric :=
    match dialect with
    | Postgres => starts_with "NUMERIC" physical || starts_with "DECIMAL" physical
    | MySql => RustStd.contains "BIGINT" physical && RustStd.contains "UNSIGNED" physical
    | _ => false
    end in
  (Ident column, if numeric then NumericParameter index else PlainParameter index).
Definition comparison_ident (column : str) (data_type : DataType) : SqlOperand :=
  if is_utf8 data_type then BinaryIdent column else Ident column.
Definition comparison_operands (column : str) (op : InlinedComparison) (data_type : DataType) (physical_type : str) (index : nat)
  : SqlOperand * SqlOperand :=
  if bool_decide (data_type = UInt64) then
    match (if (is_range op || bool_decide (dialect = Sqlite)) && u64_uses_legacy_text dialect physical_type
           then text_u64_range_operands column index else None) with
    | Some operands => operands
    | None => native_u64_operands column index physical_type
    end
  else (comparison_ident column data_type, PlainParameter index).

Variable fields : gmap str DataType.
Variable physical_types : gmap str str.
Variable first_placeholder : nat.

(** [render_node]: what it renders, and the binds it leaves. *)
Definition render_comparison (column : str) (op : InlinedComparison) (value : InlinedValue) (binds : list InlinedSqlBind)
  : option (SqlCondition * InlinedSqlBind) :=
  data_type ← fields !! column;
  physical_type ← physical_types !! column;
  if negb (physical_type_matches dialect data_type physical_type) then None
  else
    bind ← sql_bind value data_type (is_range op);
    let operands := comparison_operands column op data_type physical_type (first_placeholder + length binds) in
    Some (CondCompare operands.1 op operands.2, bind).
Definition render_prefix (column prefix : str) (binds : list InlinedSqlBind) : option (SqlCondition * list InlinedSqlBind) :=
  data_type ← fields !! column;
  if negb (is_utf8 data_type) then None
  else
    physical_type ← physical_types !! column;
    if negb (physical_type_matches dialect data_type physical_type) then None
    else
      bind ← sql_bind (Utf8Const prefix) data_type false;
      let first := (first_placeholder + length binds)%nat in
      Some match dialect with
           | DuckDb => (CondStartsWith column first, [bind])
           | _ => (CondPrefix column first (S first), [bind; bind])
           end.
Fixpoint render_node (filter : InlinedFilter) (binds : list InlinedSqlBind) : option SqlCondition * list InlinedSqlBind :=
  match filter with
  | AllOf children =>
      let (rendered, binds) :=
        (fix all (children : list InlinedFilter) (binds : list InlinedSqlBind) : list SqlCondition * list InlinedSqlBind :=
           match children with
           | [] => ([], binds)
           | child :: children =>
               let (rendered, binds) := render_node child binds in
               let (rest, binds) := all children binds in
               (match rendered with Some condition => condition :: rest | None => rest end, binds)
           end) children binds in
      (match rendered with [] => None | [condition] => Some condition | _ => Some (CondAnd rendered) end, binds)
  | AnyOf children =>
      let checkpoint := length binds in
      let (rendered, binds) :=
        (fix any (children : list InlinedFilter) (binds : list InlinedSqlBind) : option (list SqlCondition) * list InlinedSqlBind :=
           match children with
           | [] => (Some [], binds)
           | child :: children =>
               match render_node child binds with
               | (Some condition, binds) =>
                   let (rest, binds) := any children binds in (cons condition <$> rest, binds)
               | (None, binds) => (None, binds)
               end
           end) children binds in
      match rendered with
      | Some ((_ :: _) as rendered) => (Some (CondOr rendered), binds)
      | _ => (None, take checkpoint binds)
      end
  | ColumnIsNull column =>
      (if bool_decide (is_Some (physical_types !! column)) then Some (CondIsNull column false) else None, binds)
  | ColumnIsNotNull column =>
      (if bool_decide (is_Some (physical_types !! column)) then Some (CondIsNull column true) else None, binds)
  | Comparison column op value =>
      match render_comparison column op value binds with
      | Some (condition, bind) => (Some condition, binds ++ [bind])
      | None => (None, binds)
      end
  | Prefix column prefix =>
      match render_prefix column prefix binds with
      | Some (condition, new) => (Some condition, binds ++ new)
      | None => (None, binds)
      end
  end.
End render.

(** [render_inlined_filter]: the condition whose text it gives, and the binds. *)
Definition collect_map {A} (l : list (str * A)) : gmap str A := list_to_map (reverse l).
Definition render_inlined_filter `{FloatDisplay} (filter : InlinedFilter) (dialect : InlinedSqlDialect)
  (schema : list (str * DataType)) (physical_types : gmap str str) (first_placeholder : nat)
  : option (SqlCondition * list InlinedSqlBind) :=
  let (rendered, binds) := render_node dialect (collect_map schema) physical_types first_placeholder filter [] in
  condition ← rendered; Some (condition, binds).

(** [InlinedColumnMapping::physical_filter]: [physical] is where the inlined table has each
    column. *)
Definition physical_filter (columns : list str) (physical : list (option str)) (schema : list (str * DataType))
  (filter : InlinedFilter) : option (InlinedFilter * list (str * DataType)) :=
  let renames := collect_map (omap (fun c : str * option str => physical ← c.2; Some (c.1, physical)) (zip columns physical)) in
  filter ← rename_columns (fun name => renames !! name) filter;
  Some (filter, omap (fun field : str * DataType => physical ← renames !! field.1; Some (physical, field.2)) schema).

(** A column of the table: its name, its type and where the inlined table has it. *)
Record InlinedColumn := { ic_name : str; ic_type : DataType; ic_physical : option str }.

(** The condition a scan of an inlined table adds to its query ([read_inlined_rows] of the
    providers): two parameters come before its own. *)
Definition pushed_condition `{FloatDisplay} (dialect : InlinedSqlDialect) (columns : list InlinedColumn)
  (physical_types : gmap str str) (filters : list Expr) : option (SqlCondition * list InlinedSqlBind) :=
  filter ← translate_inlined_filters filters;
  '(filter, schema) ← physical_filter (ic_name <$> columns) (ic_physical <$> columns)
                        ((fun c => (ic_name c, ic_type c)) <$> columns) filter;
  render_inlined_filter filter dialect schema physical_types 2.

(** ** What the filters mean

    A value of a row, floats as the doubles they are, and how two of one kind compare. *)
Inductive Value :=
| BoolValue (value : bool)
| IntegerValue (value : Z)
| FloatValue (value : spec_float)
| TextValue (value : str)
| BytesValue (value : str)
| AnyValue.
Definition Row := str -> option Value.

Definition value_order (x y : Value) : option comparison :=
  match x, y with
  | BoolValue x, BoolValue y => Some (Z.b2z x ?= Z.b2z y)
  | IntegerValue x, IntegerValue y => Some (x ?= y)
  | FloatValue x, FloatValue y => SFcompare x y
  | TextValue x, TextValue y | BytesValue x, BytesValue y => Some (str_cmp x y)
  | _, _ => None
  end.
Definition op_holds (op : InlinedComparison) (c : comparison) : bool :=
  match op, c with
  | CmpEq, Eq | CmpLt, Lt | CmpGt, Gt => true
  | CmpNotEq, (Lt | Gt) | CmpLtEq, (Lt | Eq) | CmpGtEq, (Gt | Eq) => true
  | _, _ => false
  end.
(** A text that starts with another, both UTF-8: the rest starts with a character. *)
Definition has_prefix (prefix text : str) : bool :=
  match strip_prefix prefix text with
  | Some (c :: _) => negb (continuation c)
  | Some [] => true
  | None => false
  end.

Definition const_value (value : InlinedValue) : Value :=
  match value with
  | BoolConst v => BoolValue v
  | I64Const v | U64Const v => IntegerValue v
  | F64Const v => FloatValue v
  | Utf8Const v => TextValue v
  | BinaryConst v => BytesValue v
  end.
Definition compares (op : InlinedComparison) (order : Value -> Value -> option comparison) (x y : option Value) : bool :=
  match x, y with
  | Some x, Some y => match order x y with Some c => op_holds op c | None => false end
  | _, _ => false
  end.
(** An [InlinedFilter] of a row. *)
Fixpoint filter_true (row : Row) (filter : InlinedFilter) : bool :=
  match filter with
  | Comparison column op value => compares op value_order (row column) (Some (const_value value))
  | ColumnIsNull column => match row column with None => true | Some _ => false end
  | ColumnIsNotNull column => match row column with None => false | Some _ => true end
  | Prefix column prefix => match row column with Some (TextValue text) => has_prefix prefix text | _ => false end
  | AllOf children => forallb id (map (filter_true row) children)
  | AnyOf children => existsb id (map (filter_true row) children)
  end.

(** The value of a constant, NULL or none of these kinds as [None]. *)
Definition scalar_value (value : Scalar) : option Value :=
  match value with
  | Simple (BooleanValue v) => BoolValue <$> v
  | Simple (IntValue _ v) => IntegerValue <$> v
  | Simple (Float32Value v) => FloatValue ∘ f64_from <$> v
  | Simple (Float64Value v) => FloatValue <$> v
  | Simple (StringValue _ v) => TextValue <$> v
  | BinaryScalar _ v => BytesValue <$> v
  | _ => None
  end.

(** What DataFusion makes of an expression: how it orders floats, [LIKE] with its escape
    character, pattern and text, and the expressions not described here. *)
Class Evaluation := {
  float_order : spec_float -> spec_float -> comparison;
  like_true : option str -> str -> str -> bool;
  other_true : Row -> Expr -> bool;
}.

Section truth.
Context `{Evaluation}.

Definition arrow_order (x y : Value) : option comparison :=
  match x, y with FloatValue x, FloatValue y => Some (float_order x y) | _, _ => value_order x y end.

(** Whether a filter is true of a row: false and NULL drop it. *)
Fixpoint expr_true (row : Row) (expr : Expr) : bool :=
  match expr with
  | BinaryExpr lhs OpAnd rhs => expr_true row lhs && expr_true row rhs
  | BinaryExpr lhs OpOr rhs => expr_true row lhs || expr_true row rhs
  | BinaryExpr (ColumnExpr name) op (LiteralExpr value) =>
      match comparison_of op with
      | Some op => compares op arrow_order (row name) (scalar_value value)
      | None => other_true row expr
      end
  | BinaryExpr (LiteralExpr value) op (ColumnExpr name) =>
      match comparison_of op with
      | Some op => compares op arrow_order (scalar_value value) (row name)
      | None => other_true row expr
      end
  | IsNull (ColumnExpr name) => match row name with None => true | Some _ => false end
  | IsNotNull (ColumnExpr name) => match row name with None => false | Some _ => true end
  | Like false (ColumnExpr name) (LiteralExpr value) escape_char false =>
      match row name, scalar_value value with
      | Some (TextValue text), Some (TextValue pattern) => like_true escape_char pattern text
      | _, _ => false
      end
  | ScalarFunction name [ColumnExpr column; LiteralExpr value] =>
      if str_eqb name (lit "starts_with") then
        match row column, scalar_value value with
        | Some (TextValue text), Some (TextValue prefix) => has_prefix prefix text
        | _, _ => false
        end
      else other_true row expr
  | _ => other_true row expr
  end.
End truth.

(** A pattern that spells a prefix: characters other than the wildcards and the escape
    character, and escaped ones, then one [%]. *)
Inductive prefix_pattern (escape : str) : list str -> str -> Prop :=
| prefix_end : escape <> lit "%" -> prefix_pattern escape [lit "%"] []
| prefix_char c rest prefix : c <> escape -> c <> lit "%" -> c <> lit "_" ->
    prefix_pattern escape rest prefix -> prefix_pattern escape (c :: rest) (c ++ prefix)
| prefix_escaped c rest prefix : prefix_pattern escape rest prefix -> prefix_pattern escape (escape :: c :: rest) (c ++ prefix).

(** Neither float is a NaN or infinite, and not both are zeros: there Arrow's total order is
    the order of the numbers. *)
Definition ordinary (x y : spec_float) : bool := is_finite x && is_finite y && negb (is_zero x && is_zero y).

(** What DataFusion documents: the order of floats, and [LIKE], whose escape character is a
    backslash when none is given. *)
Record EvaluationLaws `{Evaluation} : Prop := {
  ev_floats : forall x y, ordinary x y = true -> SFcompare x y = Some (float_order x y);
  ev_like : forall escape pattern prefix text, prefix_pattern (default (lit "\") escape) (chars pattern) prefix ->
    like_true escape pattern text = true -> has_prefix prefix text = true;
}.

(** ** What the conditions mean *)

Inductive SqlValue := SqlBool (value : bool) | SqlInt (value : Z) | SqlFloat (value : spec_float) | SqlText (value : str) | SqlBytes (value : str).
(** A row of an inlined table; [Some None] is NULL. *)
Abbreviation SqlRow := (gmap str (option SqlValue)).

(** How MySQL reads a text it compares with a float. *)
Class FloatReading := read_double : str -> option spec_float.

Section sql.
Context `{FloatReading}.
Variable dialect : InlinedSqlDialect.
Variable row : SqlRow.
Variable params : list SqlValue.

Definition bind_value (bind : InlinedSqlBind) : SqlValue :=
  match bind with
  | BindBool v => match dialect with Sqlite | MySql => SqlInt (Z.b2z v) | _ => SqlBool v end
  | BindI64 v | BindU64 v => SqlInt v
  | BindF64 v => SqlFloat v
  | BindText v => SqlText v
  | BindBytes v => SqlBytes v
  end.

Definition sql_order (x y : SqlValue) : option comparison :=
  match x, y with
  | SqlBool x, SqlBool y => Some (Z.b2z x ?= Z.b2z y)
  | SqlInt x, SqlInt y => Some (x ?= y)
  | SqlFloat x, SqlFloat y => SFcompare x y
  | SqlFloat x, SqlText y => y ← read_double y; SFcompare x y
  | SqlText x, SqlText y | SqlBytes x, SqlBytes y => Some (str_cmp x y)
  | _, _ => None
  end.

(** The last 20 characters of 20 zeros and the text, or the text padded to 20. *)
Definition padded (text : str) : str :=
  match dialect with
  | Sqlite => drop (length text) (replicate 20 (chr 48) ++ text)
  | _ => take 20 (pad_zeros 20 text)
  end.
Definition pad_value (value : SqlValue) : option SqlValue :=
  match value with SqlText text => Some (SqlText (padded text)) | _ => None end.
Definition operand_value (operand : SqlOperand) : option SqlValue :=
  match operand with
  | Ident column | BinaryIdent column => mjoin (row !! column)
  | PaddedIdent column => mjoin (row !! column) ≫= pad_value
  | PlainParameter index => params !! index
  | PaddedParameter index => params !! index ≫= pad_value
  | NumericParameter index =>
      match params !! index with Some (SqlText digits) => SqlInt <$> parse_u64 digits | _ => None end
  end.

(** SQLite's [length], which stops at a NUL. *)
Definition sqlite_length (s : str) : nat := length (chars (span (fun c => negb (char_eqb c (chr 0))) s).1).
Definition prefix_true (text first second : str) : bool :=
  match dialect with
  | Sqlite => str_eqb (concat (take (sqlite_length first) (chars text))) second
  | _ => str_eqb (take (length first) text) second
  end.
Definition text_of (value : option SqlValue) : option str :=
  match value with Some (SqlText s) | Some (SqlBytes s) => Some s | _ => None end.

(** Whether a condition is true of the row. *)
Fixpoint condition_true (condition : SqlCondition) : bool :=
  match condition with
  | CondAnd parts => forallb id (map condition_true parts)
  | CondOr parts => existsb id (map condition_true parts)
  | CondIsNull column negated =>
      match row !! column with Some None => negb negated | Some (Some _) => negated | None => false end
  | CondCompare ident op value =>
      match operand_value ident, operand_value value with
      | Some x, Some y => match sql_order x y with Some c => op_holds op c | None => false end
      | _, _ => false
      end
  | CondStartsWith column index =>
      match text_of (mjoin (row !! column)), text_of (params !! index) with
      | Some text, Some prefix => starts_with prefix text
      | _, _ => false
      end
  | CondPrefix column first second =>
      match text_of (mjoin (row !! column)), text_of (params !! first), text_of (params !! second) with
      | Some text, Some first, Some second => prefix_true text first second
      | _, _, _ => false
      end
  end.
End sql.

(** The parameters of a condition, in the order of its text. *)
Definition operand_parameters (operand : SqlOperand) : list nat :=
  match operand with PlainParameter i | PaddedParameter i | NumericParameter i => [i] | _ => [] end.
Fixpoint condition_parameters (condition : SqlCondition) : list nat :=
  match condition with
  | CondAnd parts | CondOr parts => concat (map condition_parameters parts)
  | CondIsNull _ _ => []
  | CondCompare ident _ value => operand_parameters ident ++ operand_parameters value
  | CondStartsWith _ index => [index]
  | CondPrefix _ first second => [first; second]
  end.

(** ** How a row is stored

    A value as the writers store it in a column of a type the code pushes filters to; any
    other column only has its NULLs. A SQLite catalog may hold [UInt64] texts padded to 20
    digits. *)
Definition stored_value (dialect : InlinedSqlDialect) (data_type : DataType) (physical_type : str) (x : Value) (s : SqlValue) : Prop :=
  match x with
  | BoolValue v => data_type = Boolean -> s = match dialect with Sqlite | MySql => SqlInt (Z.b2z v) | _ => SqlBool v end
  | IntegerValue v =>
      if bool_decide (data_type = UInt64) then
        in_u64 v = true /\
        if u64_uses_legacy_text dialect physical_type
        then s = SqlText (show_Z v) \/ (dialect = Sqlite /\ s = SqlText (pad_zeros 20 (show_Z v)))
        else s = SqlInt v
      else s = SqlInt v
  | FloatValue v => s = SqlFloat v
  | TextValue v => s = if bool_decide (dialect = Postgres) then SqlBytes v else SqlText v
  | BytesValue v => s = SqlBytes v
  | AnyValue => True
  end.
Definition stored (dialect : InlinedSqlDialect) (data_type : DataType) (physical_type : str) (x : option Value) (s : option SqlValue) : Prop :=
  match x, s with
  | None, None => True
  | Some x, Some s => physical_type_matches dialect data_type physical_type = true -> stored_value dialect data_type physical_type x s
  | _, _ => False
  end.

(** The row of the inlined table that holds a row. *)
Definition holds_row (dialect : InlinedSqlDialect) (columns : list InlinedColumn) (physical_types : gmap str str) (row : Row) (sql_row : SqlRow) : Prop :=
  forall c physical, c ∈ columns -> ic_physical c = Some physical ->
    exists physical_type s, physical_types !! physical = Some physical_type /\ sql_row !! physical = Some s
      /\ stored dialect (ic_type c) physical_type (row (ic_name c)) s.
Definition distinct_columns (columns : list InlinedColumn) : Prop :=
  NoDup (ic_name <$> columns) /\ NoDup (omap ic_physical columns).

(** What a filter must be for its SQL to be right: its floats ordinary, its backslashes
    escaped by a given character, and no NUL in a prefix a SQLite catalog looks for. *)
Definition clear_constant (row : Row) (name : str) (value : Scalar) : Prop :=
  match row name, scalar_value value with
  | Some (FloatValue x), Some (FloatValue y) => ordinary x y = true /\ ordinary y x = true
  | _, _ => True
  end
  /\ match value with Simple (IntValue t (Some v)) => is_unsigned t = true -> in_u64 v = true | _ => True end.
Fixpoint clear (dialect : InlinedSqlDialect) (row : Row) (expr : Expr) : Prop :=
  match expr with
  | BinaryExpr lhs OpAnd rhs | BinaryExpr lhs OpOr rhs => clear dialect row lhs /\ clear dialect row rhs
  | BinaryExpr (ColumnExpr name) _ (LiteralExpr value) | BinaryExpr (LiteralExpr value) _ (ColumnExpr name) => clear_constant row name value
  | Like _ _ (LiteralExpr value) escape_char _ =>
      forall pattern, scalar_string value = Some pattern ->
        (escape_char = None -> lit "\" ∉ chars pattern) /\ (dialect = Sqlite -> chr 0 ∉ pattern)
  | ScalarFunction _ [_; LiteralExpr value] =>
      forall prefix, scalar_string value = Some prefix -> dialect = Sqlite -> chr 0 ∉ prefix
  | _ => True
  end.

(** ** Translation keeps every row *)

Lemma SFcompare_flip x y : SFcompare y x = CompOpp <$> SFcompare x y.
Proof.
  assert (forall m n, Pos.compare_cont Eq n m = CompOpp (Pos.compare_cont Eq m n)) as Hp by exact (fun m n => Pos.compare_antisym m n).
  destruct x as [[]|[]| |[] m e], y as [[]|[]| |[] n f]; try reflexivity; cbn;
    rewrite (Z.compare_antisym e f); destruct (e ?= f); cbn; try reflexivity; by rewrite (Hp m n); destruct (Pos.compare_cont Eq m n).
Qed.

Lemma value_order_flip x y : value_order y x = CompOpp <$> value_order x y.
Proof.
  destruct x, y; cbn; try done; try by rewrite Z.compare_antisym. - apply SFcompare_flip. - by rewrite str_cmp_flip. - by rewrite str_cmp_flip.
Qed.

Lemma op_holds_reversed op c : op_holds (reversed op) (CompOpp c) = op_holds op c.
Proof. by destruct op, c. Qed.

Lemma scalar_is_const value x : scalar value = Some x -> scalar_value value = Some (const_value x).
Proof.
  destruct value as [[t v|v|v|v|v p s|v|u v z|t v|t n]|t v]; cbn; try done.
  - destruct (is_signed t); [|destruct (is_unsigned t); [|done]]; destruct v; cbn; by intros [= <-].
  - destruct v; cbn; by intros [= <-].
  - destruct v as [v|]; [|done]. destruct (is_finite v); [|done]. by intros [= <-].
  - destruct v as [v|]; [|done]. destruct (is_finite v); [|done]. by intros [= <-].
  - destruct (is_utf8 t); [|done]. destruct v; cbn; by intros [= <-].
  - destruct v; cbn; by intros [= <-].
Qed.

Lemma scalar_string_value value s : scalar_string value = Some s -> scalar_value value = Some (TextValue s).
Proof. unfold scalar_string. destruct (scalar value) as [[]|] eqn:E; [done..| |done|done]. intros [= ->]. by apply scalar_is_const in E. Qed.

(** A prefix the code reads off a pattern is one the pattern spells. *)
Lemma prefix_from_pattern escape : forall n l prefix, (length l <= n)%nat -> prefix_from escape l = Some prefix ->
  (escape = None -> lit "\" ∉ l) -> prefix_pattern (default (lit "\") escape) l prefix.
Proof.
  induction n as [|n IH]; intros [|c l] prefix Hn; cbn; try done; [cbn in Hn; lia|]. cbn in Hn. intros E Hb.
  destruct (decide (Some c = escape)) as [<-|Hc]; [rewrite bool_decide_eq_true_2 in E by done|rewrite bool_decide_eq_false_2 in E by done].
  - destruct l as [|d l]; [done|]. cbn in Hn. destruct (prefix_from (Some c) l) as [p|] eqn:Ep; [|done]. injection E as <-. cbn.
    apply prefix_escaped. apply IH in Ep; [done|lia|done].
  - assert (c <> default (lit "\") escape) as Hne.
    { destruct escape as [e|]; cbn; [congruence|]. intros ->. apply Hb; [done|by left]. }
    destruct (decide (c = lit "_")) as [->|H1]; [done|rewrite bool_decide_eq_false_2 in E by done].
    destruct (decide (c = lit "%")) as [->|H2]; [rewrite bool_decide_eq_true_2 in E by done|rewrite bool_decide_eq_false_2 in E by done].
    + destruct l; [|done]. injection E as <-. apply prefix_end. congruence.
    + destruct (prefix_from escape l) as [p|] eqn:Ep; [|done]. injection E as <-. apply prefix_char; try done.
      apply IH; [lia|done|]. intros He ?. apply Hb; [done|by right].
Qed.

Lemma concat_chars s : concat (chars s) = s.
Proof.
  induction s as [|b s IH]; [done|]. cbn. destruct (chars s) as [|[|c first] rest] eqn:E; cbn in *; [by rewrite <- IH|by rewrite <- IH|].
  destruct (continuation c); cbn; by rewrite <- IH.
Qed.

(** A filter over known columns whose numbers fit their type and whose prefixes SQLite can
    look for. *)
Definition value_ok (value : InlinedValue) : Prop :=
  match value with U64Const v => in_u64 v = true | _ => True end.
Fixpoint filter_ok (dialect : InlinedSqlDialect) (known : str -> Prop) (filter : InlinedFilter) : Prop :=
  match filter with
  | Comparison column _ value => known column /\ value_ok value
  | Prefix column prefix => known column /\ (dialect = Sqlite -> chr 0 ∉ prefix)
  | ColumnIsNull column | ColumnIsNotNull column => known column
  | AllOf children | AnyOf children => foldr and True (map (filter_ok dialect known) children)
  end.
Abbreviation all_known := (fun _ : str => True).

Lemma prefix_from_chars c escape : forall n l prefix, (length l <= n)%nat -> prefix_from escape l = Some prefix -> c ∈ prefix -> c ∈ concat l.
Proof.
  induction n as [|n IH]; intros [|d l] prefix Hn; cbn; try done; [cbn in Hn; lia|]. cbn in Hn. intros E Hc.
  destruct (bool_decide (Some d = escape)).
  - destruct l as [|d' l]; [done|]. cbn in Hn. destruct (prefix_from escape l) as [p|] eqn:Ep; [|done]. injection E as <-. cbn.
    rewrite !elem_of_app in *. destruct Hc as [|Hc]; [by right; left|]. right. right. eapply IH; [|done|done]. lia.
  - destruct (bool_decide _); [done|]. destruct (bool_decide _); [destruct l; [|done]; injection E as <-; by apply elem_of_nil in Hc|].
    destruct (prefix_from escape l) as [p|] eqn:Ep; [|done]. injection E as <-. rewrite elem_of_app in *.
    destruct Hc as [|Hc]; [by left|]. right. eapply IH; [|done|done]. lia.
Qed.

Lemma parse_prefix_chars c pattern escape prefix : parse_prefix_pattern pattern escape = Some prefix -> c ∈ prefix -> c ∈ pattern.
Proof. intros E Hc. rewrite <- (concat_chars pattern). by eapply prefix_from_chars. Qed.

Section translation.
Context `{Evaluation}.
Hypothesis laws : EvaluationLaws.
Variable dialect : InlinedSqlDialect.
Variable row : Row.

Lemma compares_clear op name value y : scalar_value value = Some y -> clear_constant row name value ->
  (compares op arrow_order (row name) (Some y) = true -> compares op value_order (row name) (Some y) = true)
  /\ (compares op arrow_order (Some y) (row name) = true -> compares (reversed op) value_order (row name) (Some y) = true).
Proof.
  unfold clear_constant. intros -> [Hc _]. destruct (row name) as [x|]; [|done]. cbn.
  assert (forall f, f = value_order y x -> match f with Some c => op_holds op c | None => false end = true ->
    match value_order x y with Some c => op_holds (reversed op) c | None => false end = true) as Hflip.
  { intros ? ->. rewrite (value_order_flip y x). destruct (value_order y x); [|done]. cbn. by rewrite op_holds_reversed. }
  destruct x as [x|x|x|x|x|], y as [y|y|y|y|y|]; try (split; [done|apply Hflip; reflexivity]).
  destruct Hc as [H1 H2]. cbn. split; [by rewrite (ev_floats laws _ _ H1)|].
  apply (Hflip (Some (float_order y x))). symmetry. apply (ev_floats laws _ _ H2).
Qed.

Lemma constant_ok name value x : scalar value = Some x -> clear_constant row name value -> value_ok x.
Proof.
  intros Hs [_ Hc]. destruct value as [[t v|v|v|v|v p s|v|u v z|t v|t n]|t v]; cbn in *; try done.
  - destruct v as [v|]; [|by destruct (is_signed t), (is_unsigned t)].
    destruct (is_signed t); [by injection Hs as <-|]. destruct (is_unsigned t); [|done]. injection Hs as <-. by apply Hc.
  - destruct v; [|done]. by injection Hs as <-.
  - destruct v as [v|]; [|done]. destruct (is_finite v); [|done]. by injection Hs as <-.
  - destruct v as [v|]; [|done]. destruct (is_finite v); [|done]. by injection Hs as <-.
  - destruct (is_utf8 t), v; try done. by injection Hs as <-.
  - destruct v; [|done]. by injection Hs as <-.
Qed.

#[local] Instance Operator_eq_dec : EqDecision Operator.
Proof. solve_decision. Defined.

(** A comparison is of a column and a constant, in either order. *)
Lemma translate_comparison lhs op rhs f : op <> OpAnd -> op <> OpOr -> translate_expr (BinaryExpr lhs op rhs) = Some f ->
  exists op' name value x, comparison_of op = Some op' /\ scalar value = Some x
    /\ ((lhs = ColumnExpr name /\ rhs = LiteralExpr value /\ f = Comparison name op' x)
        \/ (lhs = LiteralExpr value /\ rhs = ColumnExpr name /\ f = Comparison name (reversed op') x)).
Proof.
  intros H1 H2 E. assert ((op' ← comparison_of op;
      match column lhs, literal rhs with
      | Some column, Some value => Some (Comparison column op' value)
      | _, _ => column ← column rhs; value ← literal lhs; Some (Comparison column (reversed op') value)
      end) = Some f) as E' by by destruct op. clear E. destruct (comparison_of op) as [op'|]; [|done]. cbn in E'. exists op'.
  destruct lhs as [| name | value | | | | |], rhs as [| name' | value' | | | | |]; cbn in E'; try done;
    try (by destruct (scalar _)).
  - destruct (scalar value') as [x|] eqn:Es; [|done]. injection E' as <-. exists name, value', x. split; [done|]. split; [done|]. by left.
  - destruct (scalar value) as [x|] eqn:Es; [|done]. injection E' as <-. exists name', value, x. split; [done|]. split; [done|]. by right.
Qed.

Lemma clear_and lhs rhs : clear dialect row (BinaryExpr lhs OpAnd rhs) -> clear dialect row lhs /\ clear dialect row rhs.
Proof. by destruct lhs, rhs. Qed.
Lemma clear_or lhs rhs : clear dialect row (BinaryExpr lhs OpOr rhs) -> clear dialect row lhs /\ clear dialect row rhs.
Proof. by destruct lhs, rhs. Qed.
Lemma expr_true_and lhs rhs : expr_true row (BinaryExpr lhs OpAnd rhs) = expr_true row lhs && expr_true row rhs.
Proof. by destruct lhs, rhs. Qed.
Lemma expr_true_or lhs rhs : expr_true row (BinaryExpr lhs OpOr rhs) = expr_true row lhs || expr_true row rhs.
Proof. by destruct lhs, rhs. Qed.

Lemma translate_true e : forall f, translate_expr e = Some f -> clear dialect row e ->
  filter_ok dialect all_known f /\ (expr_true row e = true -> filter_true row f = true).
Proof.
  induction e as [lhs IHl op rhs IHr|name|value|e IH|e IH|negated e IHe pattern IHp escape insensitive|name args|tag]; intros f E Hc; try done.
  - destruct (decide (op = OpAnd)) as [->|H1]; [|destruct (decide (op = OpOr)) as [->|H2]].
    + destruct (clear_and _ _ Hc) as [Hl Hr]. rewrite expr_true_and. cbn in E.
      destruct (translate_expr lhs) as [l|]; [destruct (IHl l eq_refl Hl) as [Hokl Htl]|]; cbn in E;
        (destruct (translate_expr rhs) as [r|]; [destruct (IHr r eq_refl Hr) as [Hokr Htr]|]; cbn in E); try done;
        injection E as <-; cbn; (split; [done|intros [H3 H4]%andb_true_iff]); auto. by rewrite Htl, Htr.
    + destruct (clear_or _ _ Hc) as [Hl Hr]. rewrite expr_true_or. cbn in E.
      destruct (translate_expr lhs) as [l|]; [|done]. destruct (translate_expr rhs) as [r|]; [|done].
      injection E as <-. destruct (IHl l eq_refl Hl) as [Hokl Htl], (IHr r eq_refl Hr) as [Hokr Htr]. cbn. split; [done|].
      intros [H3|H3]%orb_true_iff; [by rewrite Htl|]. rewrite Htr by done. cbn. by rewrite !orb_true_r.
    + apply translate_comparison in E as (op' & name & value & x & Hop & Hs & [(-> & -> & ->)|(-> & -> & ->)]); [| |done..];
        (assert (clear_constant row name value) as Hcl by (by destruct op)); (split; [by split; [|eapply constant_ok]|]);
        destruct (compares_clear op' name value _ (scalar_is_const _ _ Hs) Hcl) as [Ha Hb]; destruct op; cbn in Hop; try done;
        injection Hop as <-; cbn; rewrite (scalar_is_const _ _ Hs); first [exact Ha | exact Hb].
  - destruct e; try done. injection E as <-. cbn. by split.
  - destruct e; try done. injection E as <-. cbn. by split.
  - destruct negated, pattern as [| |value| | | | |], insensitive; try done. cbn in E. destruct (scalar_string value) as [p|] eqn:Es; [|done].
    destruct e as [|name| | | | | |]; try done. cbn in E. destruct (parse_prefix_pattern p escape) as [prefix|] eqn:Ep; [|done].
    injection E as <-. destruct (Hc p Es) as [Hb Hn]. cbn. split.
    + split; [done|]. intros ? Hz. apply Hn; [done|]. by eapply parse_prefix_chars.
    + rewrite (scalar_string_value _ _ Es). destruct (row name) as [[]|]; try done. intros Hl.
      eapply (ev_like laws); [|exact Hl]. by eapply prefix_from_pattern.
  - destruct args as [|a [|[| |value| | | | |] [|]]]; try done. cbn in E. destruct (str_eqb name "starts_with") eqn:En; [|done].
    destruct (scalar_string value) as [p|] eqn:Es; [|done]. destruct a as [|c| | | | | |]; try done. cbn in E. injection E as <-. cbn. split.
    + split; [done|]. apply (Hc p Es).
    + by rewrite En, (scalar_string_value _ _ Es).
Qed.

Lemma translate_all filters f : translate_inlined_filters filters = Some f -> Forall (clear dialect row) filters ->
  filter_ok dialect all_known f /\ (forallb (expr_true row) filters = true -> filter_true row f = true).
Proof.
  intros E Hc. assert (forall fs, omap translate_expr filters = fs -> foldr and True (map (filter_ok dialect all_known) fs)
    /\ (forallb (expr_true row) filters = true -> forallb id (map (filter_true row) fs) = true)) as Hall.
  { clear E f. induction Hc as [|e filters He _ IH]; intros fs <-; [done|]. cbn. destruct (IH _ eq_refl) as [IH1 IH2].
    destruct (translate_expr e) as [f|] eqn:Ee; cbn.
    - destruct (translate_true _ _ Ee He) as [H1 H2]. split; [done|]. intros [H3 H4]%andb_true_iff. by rewrite H2, IH2.
    - split; [done|]. intros [_ H4]%andb_true_iff. by apply IH2. }
  unfold translate_inlined_filters in E. destruct (Hall _ eq_refl) as [H1 H2]. destruct (omap translate_expr filters) as [|g [|h fs]]; [done| |].
  - injection E as <-. destruct H1 as [H1 _]. split; [done|]. intros H3. apply H2 in H3. cbn in H3. by rewrite andb_true_r in H3.
  - injection E as <-. by split.
Qed.
End translation.

(** ** Renaming keeps every row *)

Lemma foldr_and {A} (P : A -> Prop) l : foldr and True (map P l) <-> Forall P l.
Proof. induction l as [|a l IH]; cbn; [done|]. by rewrite Forall_cons, IH. Qed.

(** Induction over a filter and the filters inside it. *)
Fixpoint filter_induction (P : InlinedFilter -> Prop)
  (comparison : forall c op v, P (Comparison c op v)) (is_null : forall c, P (ColumnIsNull c)) (not_null : forall c, P (ColumnIsNotNull c))
  (prefix : forall c p, P (Prefix c p)) (all : forall l, Forall P l -> P (AllOf l)) (any : forall l, Forall P l -> P (AnyOf l)) (f : InlinedFilter) : P f :=
  let each := fix each (l : list InlinedFilter) : Forall P l :=
    match l with
    | [] => @List.Forall_nil _ P
    | g :: l => @List.Forall_cons _ P g l (filter_induction P comparison is_null not_null prefix all any g) (each l)
    end in
  match f with
  | Comparison c op v => comparison c op v
  | ColumnIsNull c => is_null c
  | ColumnIsNotNull c => not_null c
  | Prefix c p => prefix c p
  | AllOf l => all l (each l)
  | AnyOf l => any l (each l)
  end.

Section renaming.
Variable dialect : InlinedSqlDialect.
Variable rename : str -> option str.
Variables row renamed : Row.
Hypothesis same : forall c p, rename c = Some p -> renamed p = row c.
Definition renames_to (p : str) : Prop := exists c, rename c = Some p.

Definition kept (f f' : InlinedFilter) : Prop :=
  (filter_ok dialect all_known f -> filter_ok dialect renames_to f') /\ (filter_true row f = true -> filter_true renamed f' = true).

Lemma rename_all l : Forall (fun f => forall f', rename_columns rename f = Some f' -> kept f f') l ->
  forall l', omap id (map (rename_columns rename) l) = l' ->
  (Forall (filter_ok dialect all_known) l -> Forall (filter_ok dialect renames_to) l')
  /\ (forallb id (map (filter_true row) l) = true -> forallb id (map (filter_true renamed) l') = true).
Proof.
  induction 1 as [|f l Hf _ IH]; intros l' <-; [done|]. cbn. destruct (IH _ eq_refl) as [IH1 IH2].
  destruct (rename_columns rename f) as [f'|]; cbn.
  - destruct (Hf f' eq_refl) as [H1 H2]. split; [rewrite !Forall_cons; naive_solver|]. intros [H3 H4]%andb_true_iff. by rewrite H2, IH2.
  - split; [rewrite Forall_cons; naive_solver|]. intros [_ H4]%andb_true_iff. by apply IH2.
Qed.

Lemma rename_any l : Forall (fun f => forall f', rename_columns rename f = Some f' -> kept f f') l ->
  forall l', mapM id (map (rename_columns rename) l) = Some l' ->
  (Forall (filter_ok dialect all_known) l -> Forall (filter_ok dialect renames_to) l')
  /\ (existsb id (map (filter_true row) l) = true -> existsb id (map (filter_true renamed) l') = true).
Proof.
  induction 1 as [|f l Hf _ IH]; intros l'; cbn; [by intros [= <-]|].
  destruct (rename_columns rename f) as [f'|]; [|done]. destruct (mapM id (map (rename_columns rename) l)) as [fs|]; [|done]. cbn.
  intros [= <-]. destruct (IH _ eq_refl) as [IH1 IH2], (Hf f' eq_refl) as [H1 H2].
  split; [rewrite !Forall_cons; naive_solver|]. cbn. intros [H3|H3]%orb_true_iff; [by rewrite H2|by rewrite IH2, orb_true_r].
Qed.

Lemma rename_kept f : forall f', rename_columns rename f = Some f' -> kept f f'.
Proof.
  induction f as [c op v|c|c|c p|l IH|l IH] using filter_induction; intros f' E; cbn in E.
  - destruct (rename c) as [p|] eqn:Er; [|done]. injection E as <-. unfold kept. cbn. rewrite (same _ _ Er). split; [|done]. intros [_ ?]. split; [by exists c|done].
  - destruct (rename c) as [p|] eqn:Er; [|done]. injection E as <-. unfold kept. cbn. rewrite (same _ _ Er). split; [|done]. by exists c.
  - destruct (rename c) as [p|] eqn:Er; [|done]. injection E as <-. unfold kept. cbn. rewrite (same _ _ Er). split; [|done]. by exists c.
  - destruct (rename c) as [p'|] eqn:Er; [|done]. injection E as <-. unfold kept. cbn. rewrite (same _ _ Er). split; [|done]. intros [_ ?]. split; [by exists c|done].
  - destruct (rename_all l IH _ eq_refl) as [H1 H2]. unfold kept. cbn. rewrite foldr_and.
    destruct (omap id (map (rename_columns rename) l)) as [|g [|h fs]] eqn:Eo; [done| |].
    + injection E as <-. split; [by intros [? _]%H1%Forall_cons|]. intros H3%H2. cbn in H3. by rewrite andb_true_r in H3.
    + injection E as <-. cbn [filter_ok filter_true]. rewrite foldr_and. by split.
  - destruct (mapM id (map (rename_columns rename) l)) as [fs|] eqn:Em; [|done]. injection E as <-.
    destruct (rename_any l IH _ Em) as [H1 H2]. unfold kept. cbn. rewrite !foldr_and. by split.
Qed.
End renaming.

(** ** Number texts *)

Lemma parse_digits_bounds s : forall a v, 0 <= a -> parse_digits_from a s = Some v ->
  a * 10 ^ Z.of_nat (length s) <= v < (a + 1) * 10 ^ Z.of_nat (length s).
Proof.
  induction s as [|b s IH]; intros a v Ha; cbn [length parse_digits_from]; [intros [= <-]; lia|].
  destruct (is_ascii_digit b) eqn:Hb; [|done]. unfold is_ascii_digit in Hb. breflect.
  intros HF%IH; [|lia]. rewrite Nat2Z.inj_succ, Z.pow_succ_r by lia. nia.
Qed.

(** Digit texts of one length compare as their numbers. *)
Lemma digits_order s : forall t a v w, 0 <= a -> length s = length t ->
  parse_digits_from a s = Some v -> parse_digits_from a t = Some w -> str_cmp s t = (v ?= w).
Proof.
  induction s as [|c s IH]; intros [|d t] a v w Ha Hl; cbn; try done; [intros [= <-] [= <-]; by rewrite Z.compare_refl|].
  cbn in Hl. destruct (is_ascii_digit c) eqn:Hc; [|done]. destruct (is_ascii_digit d) eqn:Hd; [|done]. intros Hv Hw.
  unfold is_ascii_digit in Hc, Hd. breflect.
  destruct (Z.compare_spec (byte_val c) (byte_val d)) as [Heq|Hlt|Hgt].
  - rewrite Heq in Hv. eapply (IH t); [|lia|exact Hv|exact Hw]. lia.
  - symmetry. apply Z.compare_lt_iff. apply parse_digits_bounds in Hv; [|lia]. apply parse_digits_bounds in Hw; [|lia].
    assert (length s = length t) as Hlen by lia. rewrite Hlen in Hv. nia.
  - symmetry. apply Z.compare_gt_iff. apply parse_digits_bounds in Hv; [|lia]. apply parse_digits_bounds in Hw; [|lia].
    assert (length s = length t) as Hlen by lia. rewrite Hlen in Hv. nia.
Qed.

Lemma u64_range v : in_u64 v = true -> 0 <= v < 10 ^ 20.
Proof. unfold in_u64, u64_max. lia. Qed.

Lemma padded_u64 dialect v : in_u64 v = true -> padded dialect (show_Z v) = pad_zeros 20 (show_Z v).
Proof.
  intros Hv. pose proof (length_show_u64 v (u64_range v Hv)) as Hl. unfold padded, pad_zeros.
  destruct dialect; try (rewrite take_ge; [done|rewrite length_app, length_replicate; lia]).
  rewrite drop_app_le by (rewrite length_replicate; lia). by rewrite drop_replicate.
Qed.

Lemma length_pad_u64 v : in_u64 v = true -> length (pad_zeros 20 (show_Z v)) = 20%nat.
Proof. intros Hv. unfold pad_zeros. rewrite length_app, length_replicate. pose proof (length_show_u64 v (u64_range v Hv)). lia. Qed.

Lemma padded_twice v : in_u64 v = true -> padded Sqlite (pad_zeros 20 (show_Z v)) = pad_zeros 20 (show_Z v).
Proof. intros Hv. unfold padded. rewrite length_pad_u64 by done. by rewrite drop_app_ge, length_replicate by (rewrite length_replicate; lia). Qed.

Lemma padded_order v w : in_u64 v = true -> in_u64 w = true -> str_cmp (pad_zeros 20 (show_Z v)) (pad_zeros 20 (show_Z w)) = (v ?= w).
Proof.
  intros Hv Hw. apply (digits_order _ _ 0); [lia|by rewrite !length_pad_u64| |]; apply parse_digits_from_pad; apply u64_range; done.
Qed.

Lemma show_order op v w : is_range op = false -> in_u64 v = true -> in_u64 w = true -> op_holds op (v ?= w) = true ->
  op_holds op (str_cmp (show_Z v) (show_Z w)) = true.
Proof.
  intros Hop Hv Hw. destruct (Z.compare_spec v w) as [->|H|H]; [by rewrite str_cmp_refl| |];
    (assert (str_cmp (show_Z v) (show_Z w) <> Eq) as Hne;
     [intros He%str_cmp_eq; assert (Some v = Some w) as [= ->]; [|lia]; rewrite <- (parse_digits_from_pad 0 v), <- (parse_digits_from_pad 0 w) by apply u64_range, Hv || apply u64_range, Hw; by rewrite He|]);
    by destruct op, (str_cmp _ _).
Qed.

(** ** Characters *)

Lemma chars_app p : forall r, match r with c :: _ => continuation c = false | [] => True end -> chars (p ++ r) = chars p ++ chars r.
Proof.
  assert (forall s, match chars s with [] => s = [] | c :: _ => exists b t, c = b :: t /\ exists u, s = b :: u end) as Hhead.
  { intros [|b s]; [done|]. cbn. destruct (chars s) as [|[|c first] rest]; [eauto..|]. destruct (continuation c); eauto. }
  induction p as [|b p IH]; intros r Hr; [done|]. cbn. rewrite (IH r Hr). pose proof (Hhead p) as Hp. destruct (chars p) as [|c cs].
  - subst p. cbn. pose proof (Hhead r) as Hd. destruct (chars r) as [|d ds]; [done|]. destruct Hd as (b' & t & -> & u & ->). by rewrite Hr.
  - destruct Hp as (b' & t & -> & _). cbn. by destruct (continuation b').
Qed.

Lemma has_prefix_split prefix text : has_prefix prefix text = true ->
  exists rest, text = prefix ++ rest /\ match rest with c :: _ => continuation c = false | [] => True end.
Proof.
  unfold has_prefix. destruct (strip_prefix prefix text) as [rest|] eqn:E; [|done]. apply strip_prefix_spec in E as ->.
  intros H. exists rest. split; [done|]. destruct rest; [done|]. by apply negb_true_iff.
Qed.

Lemma prefix_found dialect prefix text : has_prefix prefix text = true -> (dialect = Sqlite -> chr 0 ∉ prefix) ->
  prefix_true dialect text prefix prefix = true.
Proof.
  intros (rest & -> & Hr)%has_prefix_split Hz. unfold prefix_true, str_eqb.
  assert (bool_decide (take (length prefix) (prefix ++ rest) = prefix) = true) as Htake.
  { apply bool_decide_eq_true. by rewrite take_app_length. }
  destruct dialect; [|exact Htake..]. apply bool_decide_eq_true. unfold sqlite_length.
  rewrite <- (app_nil_r prefix) at 1. rewrite span_run; [|..|done].
  - cbn. rewrite chars_app by done. rewrite take_app_length. apply concat_chars.
  - apply Forall_forall. intros c Hc. apply negb_true_iff, bool_decide_eq_false. intros ->. by apply Hz.
Qed.

(** ** Rendering keeps every row *)

Section rendering.
Context `{FloatDisplay} `{FloatReading}.
Hypothesis reads_back : forall x, is_finite x = true -> read_double (display x) = Some x.
Variable dialect : InlinedSqlDialect.
Variable fields : gmap str DataType.
Variable physical_types : gmap str str.
Variable first : nat.
Variable row : Row.
Variable sql_row : SqlRow.

Definition known_column (p : str) : Prop := exists t, fields !! p = Some t.
Hypothesis stored_row : forall p t physical_type, fields !! p = Some t -> physical_types !! p = Some physical_type ->
  exists s, sql_row !! p = Some s /\ stored dialect t physical_type (row p) s.

Lemma legacy_u64 column op w physical_type params i v s :
  params !! i = Some (bind_value dialect (u64_sql_bind dialect w)) -> sql_row !! column = Some (Some s) ->
  in_u64 v = true -> in_u64 w = true -> op_holds op (v ?= w) = true ->
  (if u64_uses_legacy_text dialect physical_type
   then s = SqlText (show_Z v) \/ (dialect = Sqlite /\ s = SqlText (pad_zeros 20 (show_Z v))) else s = SqlInt v) ->
  let operands := comparison_operands dialect column op UInt64 physical_type i in
  condition_true dialect sql_row params (CondCompare operands.1 op operands.2) = true.
Proof.
  intros Hp Hs Hv Hw Hop Hst. unfold comparison_operands. rewrite bool_decide_eq_true_2 by done.
  assert (forall d, dialect = d -> d <> DuckDb -> params !! i = Some (SqlText (show_Z w))) as Htext.
  { intros [] -> Hd; [done|done|by destruct Hd|done]. }
  assert (forall t, padded dialect t = pad_zeros 20 (show_Z v) -> s = SqlText t -> dialect <> DuckDb ->
    condition_true dialect sql_row params (CondCompare (PaddedIdent column) op (PaddedParameter i)) = true) as Hpad.
  { intros t Ht -> Hd. cbn. rewrite Hs, (Htext dialect) by done. cbn. by rewrite Ht, padded_u64, padded_order. }
  assert (s = SqlText (show_Z v) -> dialect <> DuckDb -> is_range op = false ->
    condition_true dialect sql_row params (CondCompare (Ident column) op (PlainParameter i)) = true) as Hplain.
  { intros -> Hd Hr. cbn. rewrite Hs, (Htext dialect) by done. cbn. by apply show_order. }
  assert (s = SqlInt v -> dialect <> DuckDb -> condition_true dialect sql_row params (CondCompare (Ident column) op (NumericParameter i)) = true) as Hnum.
  { intros -> Hd. cbn. rewrite Hs, (Htext dialect) by done. cbn. unfold parse_u64. pose proof (u64_range w Hw) as Hw'.
    rewrite show_Z_pos, parse_show_u by (unfold in_u64 in Hw; lia). done. }
  assert (forall b, (if negb b then s = SqlText (show_Z v) \/ (dialect = Sqlite /\ s = SqlText (pad_zeros 20 (show_Z v))) else s = SqlInt v) ->
    dialect <> DuckDb -> dialect <> Sqlite ->
    condition_true dialect sql_row params
      (let operands := match (if is_range op && negb b then Some (PaddedIdent column, PaddedParameter i) else None) with
                       | Some operands => operands
                       | None => (Ident column, if b then NumericParameter i else PlainParameter i) end in
       CondCompare operands.1 op operands.2) = true) as Hother.
  { intros b Hb Hd1 Hd2. destruct b; cbn [negb andb] in *; [rewrite andb_false_r; by apply Hnum|].
    destruct Hb as [Hb|[? _]]; [|done]. destruct (is_range op) eqn:Hr; cbn [andb]; [by eapply Hpad; [by apply padded_u64|..]|by apply Hplain]. }
  destruct dialect eqn:Ed; cbn [u64_uses_legacy_text text_u64_range_operands native_u64_operands] in *.
  - rewrite orb_true_r. cbn [andb]. destruct Hst as [Hst|[_ Hst]]; [by eapply Hpad; [by apply padded_u64|..]|by eapply Hpad; [by apply padded_twice|..]].
  - rewrite orb_false_r. rewrite <- negb_orb in *. by apply Hother.
  - rewrite andb_false_r. cbn in Hp. subst s. cbn. by rewrite Hs, Hp.
  - rewrite orb_false_r. by apply Hother.
Qed.

Lemma operands_parameters column op t physical_type i :
  let operands := comparison_operands dialect column op t physical_type i in
  operand_parameters operands.1 ++ operand_parameters operands.2 = [i].
Proof.
  unfold comparison_operands, native_u64_operands, text_u64_range_operands, comparison_ident.
  destruct (bool_decide (t = UInt64)); [|by destruct (is_utf8 t)]. destruct (_ && _); [|cbn; by destruct (match dialect with Sqlite => _ | _ => _ end)].
  destruct dialect; try reflexivity; cbn; by destruct (_ || _).
Qed.

Lemma signed_not_u64 t : is_signed t = true -> bool_decide (t = UInt64) = false /\ is_utf8 t = false.
Proof. by destruct t. Qed.

Lemma bound_comparison column op value t physical_type b params i x s :
  sql_bind dialect value t (is_range op) = Some b -> params !! i = Some (bind_value dialect b) ->
  sql_row !! column = Some (Some s) -> stored_value dialect t physical_type x s -> value_ok value ->
  match value_order x (const_value value) with Some c => op_holds op c | None => false end = true ->
  let operands := comparison_operands dialect column op t physical_type i in
  condition_true dialect sql_row params (CondCompare operands.1 op operands.2) = true.
Proof.
  intros Hb Hp Hs Hst Hok Hop. destruct value as [v|v|v|v|v|v], x as [x|x|x|x|x|]; try done; cbn in Hb, Hst, Hop.
  - destruct (decide (t = Boolean)) as [->|Ht]; [|by rewrite bool_decide_eq_false_2 in Hb]. destruct (is_range op); [done|]. injection Hb as <-.
    specialize (Hst eq_refl). subst s. unfold comparison_operands. rewrite bool_decide_eq_false_2 by done. cbn. rewrite Hs, Hp. by destruct dialect.
  - destruct (is_signed t) eqn:Ht; [|done]. injection Hb as <-. destruct (signed_not_u64 t Ht) as [H1 H2]. rewrite H1 in Hst. subst s.
    unfold comparison_operands, comparison_ident. rewrite H1, H2. cbn. by rewrite Hs, Hp.
  - destruct (decide (t = UInt64)) as [->|Ht].
    + rewrite bool_decide_eq_true_2 in Hb, Hst by done. injection Hb as <-. destruct Hst as [Hx Hst]. by apply (legacy_u64 column op v physical_type params i x s).
    + rewrite bool_decide_eq_false_2 in Hb, Hst by done. destruct (is_unsigned t) eqn:Hu; [|done]. unfold checked_i64 in Hb.
      destruct (in_i64 v); [|done]. injection Hb as <-. subst s. unfold comparison_operands, comparison_ident. rewrite bool_decide_eq_false_2 by done.
      assert (is_utf8 t = false) as -> by by destruct t. cbn. by rewrite Hs, Hp.
  - destruct ((bool_decide (t = Float32) || bool_decide (t = Float64)) && is_finite v && negb (bool_decide (dialect = MySql) && is_range op)) eqn:E; [|done].
    apply andb_true_iff in E as [[Ht Hf]%andb_true_iff _]. subst s.
    assert (bool_decide (t = UInt64) = false /\ is_utf8 t = false) as [H1 H2] by (apply orb_true_iff in Ht as [->%bool_decide_eq_true| ->%bool_decide_eq_true]; done).
    unfold comparison_operands, comparison_ident. rewrite H1, H2. cbn. rewrite Hs, Hp. cbn.
    destruct (bool_decide (dialect = MySql)); injection Hb as <-; cbn; [by rewrite (reads_back v Hf)|done].
  - destruct (is_utf8 t) eqn:Ht; [|done]. injection Hb as <-. assert (bool_decide (t = UInt64) = false) as H1 by by destruct t.
    subst s. unfold comparison_operands, comparison_ident. rewrite H1, Ht. cbn. rewrite Hs, Hp. by destruct (bool_decide (dialect = Postgres)).
  - destruct (is_binary t) eqn:Ht; [|done]. injection Hb as <-. assert (bool_decide (t = UInt64) = false /\ is_utf8 t = false) as [H1 H2] by by destruct t.
    subst s. unfold comparison_operands, comparison_ident. rewrite H1, H2. cbn. by rewrite Hs, Hp.
Qed.

(** The parameters hold the binds. *)
Definition carries (params : list SqlValue) (binds : list InlinedSqlBind) : Prop :=
  forall i b, binds !! i = Some b -> params !! (first + i)%nat = Some (bind_value dialect b).
Lemma carries_app params binds more : carries params (binds ++ more) -> carries params binds.
Proof. intros Hc i b Hb. apply Hc. by apply lookup_app_l_Some. Qed.

(** A condition renders a test of the row: its parameters are the new binds, in order, and it
    is true where the test is. *)
Definition renders (test : Prop) (binds new : list InlinedSqlBind) (c : SqlCondition) : Prop :=
  condition_parameters c = seq (first + length binds) (length new)
  /\ forall params, carries params (binds ++ new) -> test -> condition_true dialect sql_row params c = true.
Definition renders_maybe (test : Prop) (binds : list InlinedSqlBind) (r : option SqlCondition * list InlinedSqlBind) : Prop :=
  exists new, r.2 = binds ++ new /\ match r.1 with Some c => renders test binds new c | None => new = [] end.

Lemma comparison_renders column op value binds :
  renders_maybe ((known_column column /\ value_ok value) /\ compares op value_order (row column) (Some (const_value value)) = true) binds
    (render_node dialect fields physical_types first (Comparison column op value) binds).
Proof.
  unfold renders_maybe. cbn. destruct (render_comparison _ _ _ _ _ _ _ _) as [[c b]|] eqn:E; [|exists []; by rewrite app_nil_r].
  unfold render_comparison in E. destruct (fields !! column) as [t|] eqn:Ht; [|done]. cbn in E. destruct (physical_types !! column) as [p|] eqn:Ep; [|done]. cbn in E.
  destruct (physical_type_matches dialect t p) eqn:Em; [|done]. destruct (sql_bind dialect value t (is_range op)) as [b'|] eqn:Eb; [|done].
  injection E as <- <-. exists [b']. split; [done|]. split; [apply operands_parameters|]. intros params Hc [[_ Hok] Hcmp].
  destruct (stored_row _ _ _ Ht Ep) as (s & Hs & Hst). unfold compares in Hcmp. destruct (row column) as [x|]; [|done].
  destruct s as [s|]; [|done]. eapply bound_comparison; [done| |done|by apply Hst|done|done].
  apply Hc. by rewrite lookup_app_r, Nat.sub_diag.
Qed.

Lemma null_renders column negated binds (test : bool) :
  (test = true -> match row column with None => negated = false | Some _ => negated = true end) ->
  renders_maybe (known_column column /\ test = true) binds
    (if bool_decide (is_Some (physical_types !! column)) then Some (CondIsNull column negated) else None, binds).
Proof.
  intros Htest. exists []. rewrite app_nil_r. split; [done|]. cbn. case_bool_decide as Hp; [|done]. split; [done|]. intros params _ [[t Ht] Hn%Htest].
  destruct Hp as [p Hp]. destruct (stored_row _ _ _ Ht Hp) as (s & Hs & Hst). cbn. rewrite Hs. by destruct (row column), s, negated.
Qed.

Lemma prefix_renders column prefix binds :
  renders_maybe ((known_column column /\ (dialect = Sqlite -> chr 0 ∉ prefix))
    /\ match row column with Some (TextValue text) => has_prefix prefix text | _ => false end = true) binds
    (render_node dialect fields physical_types first (Prefix column prefix) binds).
Proof.
  unfold renders_maybe. cbn. destruct (render_prefix _ _ _ _ _ _ _) as [[c new]|] eqn:E; [|exists []; by rewrite app_nil_r].
  unfold render_prefix in E. destruct (fields !! column) as [t|] eqn:Ht; [|done]. cbn in E. destruct (is_utf8 t) eqn:Eu; [|done]. destruct (physical_types !! column) as [p|] eqn:Ep; [|done]. cbn in E.
  destruct (physical_type_matches dialect t p) eqn:Em; [|done]. cbn in E.
  destruct (stored_row _ _ _ Ht Ep) as (s & Hs & Hst). exists new. split; [done|].
  assert (forall params, carries params (binds ++ new) -> forall i b, new !! i = Some b -> params !! (first + length binds + i)%nat = Some (bind_value dialect b)) as Hnew.
  { intros params Hc i b Hi. rewrite <- Nat.add_assoc. apply Hc. rewrite lookup_app_r by lia. by rewrite Nat.add_comm, Nat.add_sub. }
  set (bind := if bool_decide (dialect = Postgres) then BindBytes prefix else BindText prefix) in *.
  assert (text_of (Some (bind_value dialect bind)) = Some prefix) as Htext by (unfold bind; by destruct (bool_decide (dialect = Postgres))).
  assert ((c, new) = match dialect with
    | DuckDb => (CondStartsWith column (first + length binds), [bind])
    | _ => (CondPrefix column (first + length binds) (S (first + length binds)), [bind; bind]) end) as Ec by (by destruct dialect; injection E as <- <-).
  clear E. split; [destruct dialect; by injection Ec as -> ->|].
  intros params Hc [[_ Hz] Hp]. destruct (row column) as [[| | |text| |]|]; try done. destruct s as [s|]; [|done]. specialize (Hst Em). cbn in Hst.
  assert (text_of (Some s) = Some text) as Hs' by (subst s; by destruct (bool_decide (dialect = Postgres))). specialize (Hnew params Hc).
  destruct (decide (dialect = DuckDb)) as [Hd|Hd].
  - rewrite Hd in Ec. injection Ec as -> ->. specialize (Hnew 0%nat bind eq_refl). rewrite Nat.add_0_r in Hnew. cbn [condition_true].
    rewrite Hs, Hnew, Htext. cbn [mjoin option_join]. rewrite Hs'. apply has_prefix_split in Hp as (rest & -> & _).
    unfold starts_with. by rewrite (proj2 (strip_prefix_spec prefix _ rest)).
  - assert (c = CondPrefix column (first + length binds) (S (first + length binds)) /\ new = [bind; bind]) as [-> ->] by (by destruct dialect; injection Ec as -> ->).
    pose proof (Hnew 0%nat bind eq_refl) as Hb0. pose proof (Hnew 1%nat bind eq_refl) as Hb1. rewrite Nat.add_0_r in Hb0. rewrite Nat.add_1_r in Hb1.
    cbn [condition_true]. rewrite Hs, Hb0, Hb1, Htext. cbn [mjoin option_join]. rewrite Hs'. by apply prefix_found.
Qed.

(** The loops over the children. *)
Abbreviation node := (render_node dialect fields physical_types first).
Definition render_all : list InlinedFilter -> list InlinedSqlBind -> list SqlCondition * list InlinedSqlBind :=
  fix all children binds :=
    match children with
    | [] => ([], binds)
    | child :: children =>
        let (rendered, binds) := node child binds in
        let (rest, binds) := all children binds in
        (match rendered with Some condition => condition :: rest | None => rest end, binds)
    end.
Definition render_any : list InlinedFilter -> list InlinedSqlBind -> option (list SqlCondition) * list InlinedSqlBind :=
  fix any children binds :=
    match children with
    | [] => (Some [], binds)
    | child :: children =>
        match node child binds with
        | (Some condition, binds) => let (rest, binds) := any children binds in (cons condition <$> rest, binds)
        | (None, binds) => (None, binds)
        end
    end.

Definition parameters_of (cs : list SqlCondition) : list nat := concat (map condition_parameters cs).
Abbreviation tests l := (map (filter_true row) l).
(** What the rendered test of a filter is right about. *)
Definition right_test (f : InlinedFilter) : Prop := filter_ok dialect known_column f /\ filter_true row f = true.
Abbreviation all_ok := (Forall (filter_ok dialect known_column)).

Lemma all_renders l : Forall (fun f => forall binds, renders_maybe (right_test f) binds (node f binds)) l ->
  forall binds, exists new, (render_all l binds).2 = binds ++ new
    /\ parameters_of (render_all l binds).1 = seq (first + length binds) (length new)
    /\ forall params, carries params (binds ++ new) -> all_ok l -> forallb id (tests l) = true ->
         forallb id (map (condition_true dialect sql_row params) (render_all l binds).1) = true.
Proof.
  induction 1 as [|f l Hf _ IH]; intros binds; [exists []; by rewrite app_nil_r|]. cbn.
  destruct (Hf binds) as (new & Hb & Hr). destruct (node f binds) as [r binds']. cbn in Hb, Hr. subst binds'.
  destruct (IH (binds ++ new)) as (more & Hb' & Hp & Ht). destruct (render_all l (binds ++ new)) as [rest binds'']. cbn in Hb', Hp, Ht |- *.
  exists (new ++ more). rewrite Hb', <- app_assoc. split; [done|]. rewrite length_app, seq_app. rewrite length_app, Nat.add_assoc in Hp.
  assert (forall params, carries params (binds ++ new ++ more) -> carries params (binds ++ new)) as Hpre.
  { intros params Hc. rewrite app_assoc in Hc. by eapply carries_app. }
  destruct r as [c|].
  - destruct Hr as [Hc Htrue]. unfold parameters_of in *. cbn. rewrite Hc, Hp. split; [done|].
    intros params Hcar [Hf1 Hl1]%Forall_cons [H1 H2]%andb_true_iff. rewrite Htrue; [|by apply Hpre|by split]. apply Ht; [by rewrite <- app_assoc|done|done].
  - subst new. cbn in *. rewrite Nat.add_0_r in Hp |- *. split; [done|]. intros params Hcar [_ Hl1]%Forall_cons [_ H2]%andb_true_iff. apply Ht; [by rewrite app_nil_r|done|done].
Qed.

Lemma any_renders l : Forall (fun f => forall binds, renders_maybe (right_test f) binds (node f binds)) l ->
  forall binds, exists new, (render_any l binds).2 = binds ++ new
    /\ forall cs, (render_any l binds).1 = Some cs -> parameters_of cs = seq (first + length binds) (length new)
       /\ forall params, carries params (binds ++ new) -> all_ok l -> existsb id (tests l) = true ->
            existsb id (map (condition_true dialect sql_row params) cs) = true.
Proof.
  induction 1 as [|f l Hf _ IH]; intros binds; [exists []; rewrite app_nil_r; split; [done|]; by intros cs [= <-]|]. cbn.
  destruct (Hf binds) as (new & Hb & Hr). destruct (node f binds) as [[c|] binds']; cbn in Hb, Hr; subst binds'; [|exists new; done].
  destruct (IH (binds ++ new)) as (more & Hb' & Hp). destruct (render_any l (binds ++ new)) as [rest binds'']. cbn in Hb', Hp |- *.
  exists (new ++ more). rewrite Hb', <- app_assoc. split; [done|]. intros cs. destruct rest as [rest|]; [|done]. intros [= <-].
  destruct (Hp rest eq_refl) as [Hpar Ht], Hr as [Hc Htrue]. rewrite length_app, seq_app. rewrite length_app, Nat.add_assoc in Hpar.
  unfold parameters_of in *. cbn. rewrite Hc, Hpar. split; [done|]. intros params Hcar [Hf1 Hl1]%Forall_cons [H1|H1]%orb_true_iff.
  - rewrite Htrue; [done| |by split]. rewrite app_assoc in Hcar. by eapply carries_app.
  - rewrite Ht, orb_true_r; [done|by rewrite <- app_assoc|done|done].
Qed.

Lemma node_renders f : forall binds, renders_maybe (right_test f) binds (node f binds).
Proof.
  induction f as [c op v|c|c|c p|l IH|l IH] using filter_induction; intros binds.
  - apply comparison_renders.
  - apply null_renders. cbn. by destruct (row c).
  - apply null_renders. cbn. by destruct (row c).
  - apply prefix_renders.
  - destruct (all_renders l IH binds) as (new & Hb & Hp & Ht). change (node (AllOf l) binds) with
      (let (rendered, binds) := render_all l binds in
       (match rendered with [] => None | [condition] => Some condition | _ => Some (CondAnd rendered) end, binds)).
    destruct (render_all l binds) as [rendered binds']. cbn in Hb, Hp, Ht. subst binds'. exists new. split; [done|]. cbn [fst].
    assert (forall params, carries params (binds ++ new) -> right_test (AllOf l) -> forallb id (map (condition_true dialect sql_row params) rendered) = true) as Htest.
    { intros params Hc [Hok Hl]. apply Ht; [done|by apply foldr_and|done]. }
    destruct rendered as [|c [|c' cs]].
    + cbn in Hp. symmetry in Hp. by destruct new.
    + unfold parameters_of in Hp. cbn in Hp. rewrite app_nil_r in Hp. split; [done|]. intros params Hc Hr. specialize (Htest params Hc Hr). cbn in Htest.
      by rewrite andb_true_r in Htest.
    + by split.
  - destruct (any_renders l IH binds) as (new & Hb & Hp). change (node (AnyOf l) binds) with
      (let checkpoint := length binds in let (rendered, binds) := render_any l binds in
       match rendered with Some ((_ :: _) as rendered) => (Some (CondOr rendered), binds) | _ => (None, take checkpoint binds) end).
    destruct (render_any l binds) as [rendered binds']. cbn in Hb, Hp. subst binds'.
    assert (renders_maybe (right_test (AnyOf l)) binds (None, take (length binds) (binds ++ new))) as Hnone.
    { exists []. rewrite app_nil_r. split; [apply take_app_length|done]. }
    destruct rendered as [[|c cs]|]; [exact Hnone| |exact Hnone]. exists new. split; [done|]. destruct (Hp _ eq_refl) as [Hpar Ht].
    split; [done|]. intros params Hc [Hok Htest]. apply (Ht params Hc); [by apply foldr_and|done].
Qed.
End rendering.

(** ** A scan loses no row *)

Lemma filter_ok_mono dialect (P Q : str -> Prop) : (forall p, P p -> Q p) -> forall f, filter_ok dialect P f -> filter_ok dialect Q f.
Proof.
  intros HPQ f. induction f as [c op v|c|c|c p|l IH|l IH] using filter_induction; cbn; try naive_solver;
    rewrite !foldr_and, !Forall_forall; rewrite Forall_forall in IH; naive_solver.
Qed.

Lemma collect_map_elem {A} (l : list (str * A)) k a : collect_map l !! k = Some a -> (k, a) ∈ l.
Proof. unfold collect_map. intros E. apply elem_of_list_to_map_2 in E. by rewrite elem_of_reverse in E. Qed.

Lemma collect_map_some {A} (l : list (str * A)) k a : (k, a) ∈ l -> exists a', collect_map l !! k = Some a'.
Proof.
  intros Hin. unfold collect_map. destruct (list_to_map (reverse l) !! k) as [a'|] eqn:E; [by exists a'|].
  apply not_elem_of_list_to_map_2 in E. destruct E. apply list_elem_of_fmap. exists (k, a). split; [done|by apply elem_of_reverse].
Qed.

Section columns.
Variable columns : list InlinedColumn.
Hypothesis distinct : distinct_columns columns.

Definition renaming (l : list InlinedColumn) : gmap str str :=
  collect_map (omap (fun c : str * option str => physical ← c.2; Some (c.1, physical)) (zip (ic_name <$> l) (ic_physical <$> l))).
(** A row under the physical names. *)
Definition physical_row (row : Row) : Row := fun p =>
  match find_first (fun c => bool_decide (ic_physical c = Some p)) columns with Some c => row (ic_name c) | None => None end.

Lemma renaming_column c p : renaming columns !! c = Some p -> exists column, column ∈ columns /\ ic_name column = c /\ ic_physical column = Some p.
Proof.
  intros E%collect_map_elem. apply list_elem_of_omap in E as ([n q] & Hin & E). cbn in E. destruct q as [q|]; [|done]. injection E as <- <-.
  rewrite zip_with_fmap_l, zip_with_fmap_r, zip_with_diag in Hin. apply list_elem_of_fmap in Hin as (column & [= -> E] & Hin). by exists column.
Qed.

Lemma same_name a b : a ∈ columns -> b ∈ columns -> ic_name a = ic_name b -> a = b.
Proof.
  intros Ha Hb E. destruct distinct as [Hn _]. apply list_elem_of_lookup in Ha as [i Hi], Hb as [j Hj].
  assert (i = j) as <-; [|congruence]. eapply (NoDup_lookup _ i j (ic_name a)); [exact Hn|by rewrite list_lookup_fmap, Hi|by rewrite list_lookup_fmap, Hj, E].
Qed.

Lemma same_physical l : NoDup (omap ic_physical l) -> forall a b p, a ∈ l -> b ∈ l -> ic_physical a = Some p -> ic_physical b = Some p -> a = b.
Proof.
  induction l as [|x l IH]; intros Hn a b p Ha Hb Ea Eb; [by apply elem_of_nil in Ha|].
  assert (forall c, c ∈ l -> ic_physical c = Some p -> p ∈ omap ic_physical l) as Hin by (intros c Hc E; apply list_elem_of_omap; by exists c).
  cbn in Hn. apply elem_of_cons in Ha as [->|Ha], Hb as [->|Hb]; [done| | |].
  - rewrite Ea in Hn. apply NoDup_cons in Hn as [Hn _]. destruct Hn. by eapply Hin.
  - rewrite Eb in Hn. apply NoDup_cons in Hn as [Hn _]. destruct Hn. by eapply Hin.
  - eapply IH; [|done..]. destruct (ic_physical x); [by apply NoDup_cons in Hn as [_ Hn]|done].
Qed.

Lemma physical_row_of row column p : column ∈ columns -> ic_physical column = Some p -> physical_row row p = row (ic_name column).
Proof.
  intros Hc Ep. unfold physical_row. destruct (find_first _ columns) as [d|] eqn:E.
  - apply find_first_some in E as [Hd Ed%bool_decide_eq_true]. f_equal. f_equal. by eapply same_physical; [apply distinct|..].
  - apply find_first_none in E. rewrite Forall_forall in E. specialize (E _ Hc). by rewrite bool_decide_eq_true_2 in E.
Qed.

Lemma renaming_some column p : column ∈ columns -> ic_physical column = Some p -> renaming columns !! ic_name column = Some p.
Proof.
  intros Hc Ep. destruct (collect_map_some (omap (fun c : str * option str => physical ← c.2; Some (c.1, physical)) (zip (ic_name <$> columns) (ic_physical <$> columns))) (ic_name column) p) as [q Hq].
  { apply list_elem_of_omap. exists (ic_name column, Some p). split; [|done]. rewrite zip_with_fmap_l, zip_with_fmap_r, zip_with_diag.
    apply list_elem_of_fmap. exists column. by rewrite Ep. }
  destruct (renaming_column _ _ Hq) as (d & Hd & En & Eq). rewrite (same_name _ _ Hd Hc En) in Eq. unfold renaming. rewrite Hq. congruence.
Qed.

Definition physical_schema : list (str * DataType) :=
  omap (fun field : str * DataType => physical ← renaming columns !! field.1; Some (physical, field.2)) ((fun c => (ic_name c, ic_type c)) <$> columns).

Lemma schema_column p t : collect_map physical_schema !! p = Some t -> exists column, column ∈ columns /\ ic_physical column = Some p /\ ic_type column = t.
Proof.
  intros E%collect_map_elem. apply list_elem_of_omap in E as ([n u] & Hin & E). cbn in E.
  destruct (renaming columns !! n) as [q|] eqn:Er; [|done]. injection E as <- <-.
  apply list_elem_of_fmap in Hin as (column & [= -> ->] & Hc). apply renaming_column in Er as (d & Hd & En & Ep).
  rewrite (same_name _ _ Hd Hc En) in Ep. by exists column.
Qed.

Lemma schema_known p : renames_to (fun name => renaming columns !! name) p -> known_column (collect_map physical_schema) p.
Proof.
  intros (c & Hr). destruct (renaming_column _ _ Hr) as (column & Hc & <- & Ep). eapply (collect_map_some _ _ (ic_type column)).
  apply list_elem_of_omap. exists (ic_name column, ic_type column). cbn. rewrite Hr. split; [|done]. apply list_elem_of_fmap. by exists column.
Qed.
End columns.


(** ** A table of two rows *)

(** Floats as texts that read back, and a [LIKE] of prefix patterns. *)
#[local] Instance spec_float_eq_dec : EqDecision spec_float.
Proof. solve_decision. Defined.
#[local, refine] Instance spec_float_countable : Countable spec_float :=
  inj_countable' (fun x => match x with
                           | S754_zero s => inl (inl s) | S754_infinity s => inl (inr s)
                           | S754_nan => inr None | S754_finite s m e => inr (Some (s, m, e)) end)
                 (fun y => match y with
                           | inl (inl s) => S754_zero s | inl (inr s) => S754_infinity s
                           | inr None => S754_nan | inr (Some (s, m, e)) => S754_finite s m e end) _.
Proof. by intros []. Qed.
#[local] Instance unary_display : FloatDisplay := fun x => replicate (Pos.to_nat (encode x)) (chr 48).
#[local] Instance unary_reading : FloatReading := fun s => decode (Pos.of_nat (length s)).

Lemma unary_reads_back x : is_finite x = true -> read_double (display x) = Some x.
Proof. intros _. unfold read_double, unary_reading, display, unary_display. by rewrite length_replicate, Pos2Nat.id, decode_encode. Qed.

#[local] Instance sample_evaluation : Evaluation := {|
  float_order := fun x y => default Eq (SFcompare x y);
  like_true := fun escape pattern text =>
    match prefix_from (Some (default (lit "\") escape)) (chars pattern) with Some prefix => has_prefix prefix text | None => false end;
  other_true := fun _ _ => true;
|}.

Lemma sample_laws : EvaluationLaws.
Proof.
  split.
  - intros x y H. cbn. unfold ordinary in H. destruct x as [[]|[]| |[] m e], y as [[]|[]| |[] n f]; try done; cbn; by destruct (e ?= f).
  - intros escape pattern prefix text Hp. cbn. assert (prefix_from (Some (default (lit "\") escape)) (chars pattern) = Some prefix) as ->; [|done].
    induction Hp as [He|c l p H1 H2 H3 _ IH|c l p _ IH]; cbn.
    + rewrite !bool_decide_eq_false_2 by (congruence || done). by rewrite bool_decide_eq_true_2.
    + rewrite !bool_decide_eq_false_2 by congruence. by rewrite IH.
    + rewrite bool_decide_eq_true_2 by done. by rewrite IH.
Qed.

Definition sample_columns : list InlinedColumn :=
  [{| ic_name := "id"; ic_type := UInt64; ic_physical := Some (lit "c1") |};
   {| ic_name := "note"; ic_type := Utf8; ic_physical := Some (lit "c2") |};
   {| ic_name := "added"; ic_type := Int32; ic_physical := None |}].
Definition sample_types : gmap str str := list_to_map [(lit "c1", lit "VARCHAR"); (lit "c2", lit "varchar")].
Definition sample_row (id : Z) (note : option str) : Row := fun name =>
  if str_eqb name "id" then Some (IntegerValue id) else if str_eqb name "note" then TextValue <$> note else None.
Definition sample_sql_row (id : str) (note : option str) : SqlRow :=
  list_to_map [(lit "c1", Some (SqlText id)); (lit "c2", SqlText <$> note)].
Definition sample_table : list (Row * SqlRow) :=
  [(sample_row 11 (Some (lit "alpha")), sample_sql_row "11" (Some (lit "alpha")));
   (sample_row 7 (Some (lit "beta")), sample_sql_row "00000000000000000007" (Some (lit "beta")));
   (sample_row 2 None, sample_sql_row "2" None)].
(** [id > 7 AND note LIKE 'al%'] and [added IS NULL]. *)
Definition sample_filters : list Expr :=
  [BinaryExpr (BinaryExpr (LiteralExpr (Simple (IntValue UInt64 (Some 7)))) OpLt (ColumnExpr "id")) OpAnd
     (Like false (ColumnExpr "note") (LiteralExpr (Simple (StringValue Utf8 (Some (lit "al%"))))) None false);
   IsNull (ColumnExpr "added")].

Lemma sample_stored : Forall (fun r => holds_row Sqlite sample_columns sample_types r.1 r.2 /\ Forall (clear Sqlite r.1) sample_filters) sample_table.
Proof.
  assert (forall id text note, stored Sqlite UInt64 "VARCHAR" (Some (IntegerValue id)) (Some (SqlText text)) ->
    holds_row Sqlite sample_columns sample_types (sample_row id note) (sample_sql_row text note)) as Hrow.
  { intros id text note Hid c p Hc Ep. apply elem_of_cons in Hc as [->|Hc]; [|apply elem_of_cons in Hc as [->|Hc]; [|apply elem_of_cons in Hc as [->|Hc]; [done|by apply elem_of_nil in Hc]]];
      injection Ep as <-; do 2 eexists; (split; [vm_compute; reflexivity|]); (split; [vm_compute; reflexivity|]); [exact Hid|].
    by destruct note. }
  assert (forall id note, Forall (clear Sqlite (sample_row id note)) sample_filters) as Hclear.
  { intros id note. apply Forall_cons. split; [|apply Forall_cons; split; [done|by apply Forall_nil]]. split.
    - split; [done|by intros _].
    - intros pattern [= <-]. split; intros _; vm_compute; intros H; repeat (apply elem_of_cons in H as [H|H]; [done|]); by apply elem_of_nil in H. }
  apply Forall_cons. split; [|apply Forall_cons; split; [|apply Forall_cons; split; [|by apply Forall_nil]]]; (split; [apply Hrow; intros _; split; [done|]|apply Hclear]).
  - by left.
  - right. split; reflexivity.
  - by left.
Qed.

(** The SQL of the sample, and what a scan with it returns. *)
Lemma sample_pushed : exists condition binds, pushed_condition Sqlite sample_columns sample_types sample_filters = Some (condition, binds)
  /\ condition_text Sqlite condition
     = "(substr('00000000000000000000' || " ++ [dquote] ++ "c1" ++ [dquote] ++ ", -20, 20) COLLATE BINARY > substr('00000000000000000000' || ?, -20, 20) AND substr("
       ++ [dquote] ++ "c2" ++ [dquote] ++ ", 1, length(?)) = ? COLLATE BINARY)"
  /\ length binds = 3%nat.
Proof. do 2 eexists. split; [vm_compute; reflexivity|]. split; reflexivity. Qed.


(** A [LIKE] without an escape character, whose backslash DataFusion takes as one: the pattern
    [a\%] matches [a%], which the prefix [a\] pushed for [a\%] does not start. *)
Definition backslash_filter : list Expr :=
  [Like false (ColumnExpr "note") (LiteralExpr (Simple (StringValue Utf8 (Some (lit "a\%"))))) None false].
Lemma bare_backslash_loses_rows `{Evaluation} `{FloatDisplay} `{FloatReading} : like_true None (lit "a\%") (lit "a%") = true ->
  exists condition binds, pushed_condition DuckDb sample_columns (list_to_map [(lit "c2", lit "VARCHAR")]) backslash_filter = Some (condition, binds)
  /\ forallb (expr_true (sample_row 1 (Some (lit "a%")))) backslash_filter = true
  /\ condition_true DuckDb (sample_sql_row "1" (Some (lit "a%"))) ([SqlInt 0; SqlInt 0] ++ (bind_value DuckDb <$> binds)) condition = false.
Proof.
  intros Hl. do 2 eexists. split; [vm_compute; reflexivity|]. split; [|vm_compute; reflexivity].
  change (like_true None (lit "a\%") (lit "a%") && true = true). by rewrite Hl.
Qed.
